(* ===== verification/_CoqProject ===== *)
-Q . S2P
Prelude.v
JsLib.v
Schema.v
JsText.v
HostLabels.v
Egress.v
Isolation.v
Benchmark.v
Scheduler.v
Fixtures.v
Placement.v
Retirement.v
Lease.v
ControllerApi.v
WorkerApi.v
Fleet.v
LegacyJobs.v
Webhooks.v
Reconcile.v
Lifecycle.v
Handlers.v
LegacyMoves.v
ReconcileMoves.v
SlotRepair.v
System.v
Properties.v
Contracts.v
CronProperties.v
QueueProperties.v
RecoveryProperties.v
Registration.v
AppPolicy.v
InfraSchema.v
InfraStore.v
AppPlan.v
Ports.v
PlanProperties.v
Nodes.v
DockerArgs.v
AppSpecs.v
NodeCommands.v
Frames.v
CommandProperties.v
Apps.v
Deployments.v
Pipeline.v
PipelineFrames.v
PipelineProperties.v
Ingress.v
NodeState.v
MeshProperties.v
FailoverProperties.v
RunnerReleases.v
FleetObservation.v
AlertRules.v
Alerts.v
AlertProperties.v
DecimalText.v
Telemetry.v
TestReports.v
TestReportProperties.v
AttemptMetrics.v
MetricProperties.v
Rightsize.v
RightsizeProperties.v
Base64.v
Vault.v
VaultProperties.v
Accounts.v
AccountProperties.v
Git.v
GitProperties.v
LogTails.v
LogProperties.v
Cpuset.v
CpusetProperties.v
HubImport.v
HubImportProperties.v
