(* ===== verification/Prelude.v ===== *)
(** EraInfra CI control plane: a verification development.

    * The program

    EraInfra runs self-hosted GitHub Actions jobs on a fleet of Workers.  Its control plane is a
    set of Convex functions (packages/backend/convex): each mutation is one serializable
    transaction over a document store.  Several parties call it.  A controller holds the GitHub
    session of a Profile (the contract a workflow names in runs-on), creates one Attempt for every
    Runner it registers and reports what GitHub says about its job.  Workers register, send
    heartbeats, readiness evidence and benchmarks, claim the Attempts placed on them and report
    how their executors ended.  Operators label machines and run Experiments.  Between them the
    scheduler places unassigned work on Workers, and retirement ends an Attempt whose Runner may
    be online only after GitHub deleted that Runner.  Beside this scale-set side there is an older
    queue that GitHub's webhooks feed: a durable intake records every delivery, a recovery cron
    asks GitHub again for those that never arrived, jobs are assigned to the same machines and
    their Agents claim commands.  A reconciliation cron gives up on what nothing else will settle,
    deletes old rows and repairs the slot counters of the machines.

    The same backend runs an App platform (packages/backend/convex/infra).  Nodes enrol, hold
    credentials, prove an endpoint key and send heartbeats; operators, uploads and Git pushes start
    deployment runs; a run takes the lease of its App, reads the App's spec, plans which service
    goes to which Node at which port, and drives the Nodes through a queue of commands that an
    agent claims, renews and reports; a check of the heartbeats fails silent Nodes over; every Node
    polls a snapshot of the mesh links and public routes it has to serve.  Environment secrets are
    stored encrypted under one data key per App and service, and handed out to a Node only for a
    live deployment; GitHub's pushes to a bound branch start runs; an API token can ask a Node for
    the last lines of a log.  People get accounts from single-use grants, the first one from a
    bootstrap secret, and have roles; programs get API tokens with scopes.

    Alerts watch both: an action observes the fleet, evaluates the operators' rules on it, opens
    and resolves one incident per rule and subject, and queues notices that are sent with retries.
    Workers also upload, for the Attempts they ran, resource metrics and test results; from the
    results flaky tests are detected, from the metrics a smaller or larger Profile is recommended.

    * The files, in dependency order

    - Prelude: record update, the transaction monad [tx] (a handler commits a store or throws and
      leaves it), its Hoare triples, tables with Convex ids, [ctx.db] operations and their
      specifications, sums over tables, the [t_evolves] preorder of tables.
    - JsLib: what the source uses of JavaScript: numbers as binary64 values ([num], correctly
      rounded by [round64]), strings, [toSorted], [Set].
    - Schema: schema.ts, one record per table, and the store [db].
    - JsText: what the source uses of JavaScript's text: numbers as decimal text, dates, [Map].
    - HostLabels: hostLabels.ts, scaleSetLabels.ts, policy.ts.
    - Egress: egress.ts.  Isolation: isolation.ts.  Benchmark: benchmark.ts.
    - Scheduler: attemptScheduler.ts, routing.ts, workerPolicy.ts.  Placement: its correctness.
    - Fixtures: the small concrete stores the witnesses evaluate.
    - Retirement: attemptRetirement.ts, attemptSecrets.ts, controllerLiveness.ts,
      pinnedAttempts.ts.
    - Lease: controllerLease.ts, with its theorems.
    - ControllerApi: controllerApi.ts.  WorkerApi: workerApi.ts.
    - Fleet: machines.ts, experiments.ts, the heartbeat of agentApi.ts.
    - LegacyJobs: scheduler.ts, jobs.ts, runners.ts, retry.ts, catalog.ts, admin.ts and the
      command operations of agentApi.ts.
    - Webhooks: webhooks.ts and recovery.ts; GitHub's delivery API is the parameter
      [recovery_client], the parser of its dates the parameter [dateParse].
    - Reconcile: reconcile.ts, the whole mutation: [recover_work], [retain], slot repair.
    - Lifecycle: the abstract Attempt state machine [lifecycle], the elementary [move]s of a store
      that handlers are composed of, the invariant [base] that every move keeps and its
      strengthening [inv] that fixes the slot counters.
    - Handlers, LegacyMoves, ReconcileMoves: every handler is a sequence of moves.
    - SlotRepair: a reconciliation leaves every slot counter exact.
    - System: the operations [op], one step [sys_step], the [reachable] and the [settled] stores.
    - Properties, Contracts: the theorems about reachable stores and operations.
    - CronProperties, QueueProperties, RecoveryProperties, Registration: the theorems about the
      reconciliation, the legacy queue, the webhook recovery and the registration of machines.
    - AppPolicy: infra/policy.ts.  InfraSchema: infra/tables.ts, the store [infra].  InfraStore:
      counters.ts, auditLog.ts, hubProvenance.ts, leases.ts, ports.ts.
    - AppPlan: plan.ts.  Ports, PlanProperties: port allocation and planning, their theorems.
    - Nodes: nodes.ts, access.ts.  DockerArgs: dockerArgs.ts.  AppSpecs: spec.ts.
    - NodeCommands: nodeCommands.ts, nodeCommandModel.ts, logOutput.ts.
    - Frames: what a transaction does to the store as a preorder, [acts], with the tactic that
      walks a handler's text.  CommandProperties: the theorems about the command queue.
    - Apps: apps.ts, namespace.ts.  Deployments: deployments.ts.  Pipeline: pipeline.ts and
      failover.ts.  PipelineFrames, PipelineProperties, FailoverProperties: their theorems.
    - Ingress: ingress.ts.  NodeState: nodeState.ts.  MeshProperties: the theorem about snapshots.
    - RunnerReleases: runnerReleaseModel.ts, runnerReleases.ts.  FleetObservation:
      fleetObservation.ts.  AlertRules: alertRules.ts.  Alerts: alerts.ts, alertNotify.ts,
      alertDelivery.ts.  AlertProperties: the theorems about incidents and notices.
    - Telemetry: the tables of metrics and test results, beside the store [db].  TestReports:
      testReports.ts, testReportsModel.ts.  TestReportProperties: their theorems.
    - AttemptMetrics: attemptMetrics.ts, attemptMetricsModel.ts.  MetricProperties: its theorems.
    - Rightsize: rightsize.ts, rightsizeModel.ts.  RightsizeProperties: its theorems.
    - Base64: the encodings the secrets use.  Vault: infra/secrets.ts, infra/secretCrypto.ts, the
      tombstones of hubProvenance.ts.  VaultProperties: the theorems about secrets.
    - Accounts: the users of infra/access.ts, bootstrap.ts, bootstrapPolicy.ts, apiTokens.ts,
      apiTokenPolicy.ts, the sign-up of auth.ts, [authenticateBearer] of operatorHttp.ts,
      [deleteUser] of admin.ts.  AccountProperties: their theorems.
    - Git: infra/git.ts and the push rules of infra/githubDeploy.ts.  GitProperties: its theorems.
    - LogTails: infra/logs.ts.  LogProperties: its theorems.

    * How the model follows the code

    A table is a map from ids to documents with the next id to give out; [ctx.db.query] with an
    index is a filter in id order, which is creation order, or a stable sort by the index's last
    column; [.unique()] throws when two rows match.  [Date.now()] is an argument, constant within
    a mutation, as in Convex.  Counts and times the HTTP layer has checked to be integers
    (controllerHttp.ts, http.ts) are [Z]; a number a Worker reports unchecked is a [num].  Random
    draws are list arguments, and [localeCompare], whose order depends on the host's locale, is a
    parameter of the scheduler.  The keys [machineId:profile] of the scheduler's maps are pairs.
    A caller [None] is a call from inside the control plane.  Console output is not modelled.
    [ctx.scheduler.runAfter] appends to the queue [scheduled]; the calls it would make are
    operations of the system like any other, so every theorem about sequences of operations covers
    every order in which they run.  The recovery action is not one transaction: it is a program
    [act] over the store whose mutations commit one by one and whose calls to GitHub may fail.

    The App platform's store is a second record, [infra], and larger stores are built around the
    two: [vault] adds the encrypted tables, [accounts] adds users, grants and tokens, [git_store]
    joins the platform with the CI side, whose table of deliveries the pushes share; a function of
    a part runs inside the whole by [on_platform], [on_vault] and the like, which keep the rest.
    The YAML parser, the token hash, the URL parser, UTF-8 decoding by the runtime and the
    verification of signatures are parameters, and so is SHA-256.  AES-GCM is a parameter with the
    laws of authenticated encryption as a class ([AuthenticatedEncryption]), which a concrete
    cipher of the development satisfies.  A JavaScript [Map] whose order shows is an association
    list.

    * What is shown

    - Slots: [settled_slots] (the counter of a machine is its load, on the scale-set side always
      and after any legacy traffic from the next reconciliation on), [tryAssign_no_overcommit].
    - Placement: [placement_choice].
    - Attempts: the handlers refine the abstract state machine ([operations_follow_lifecycle]);
      what ends an Attempt ([online_attempt_ends], [finished_is_final], [reconcile_gives_up_late],
      [retention_forgets_only_finished]); [job_completed_settles].
    - JIT configs: [reachable_secrets], [jit_delivered_once].
    - Leases: one party for an epoch, and fencing.
    - Registration: the search for a name ends ([registerAgent_completes]).
    - Reports and policies: readiness, egress, labels.
    - Host ports and plans: no port of a Node has two holders ([ports_never_shared]), allocation
      takes the lowest free one, and a plan is sound ([planDeploy_sound]).
    - Command queue: one live claim per Node, fencing of superseded claims, settled commands are
      final, sending again is idempotent.
    - Deployment runs: one live run per App, a run writes only its own App
      ([tick_stays_in_its_app]), ended runs are final, a run that lost its lease only fails.
    - Failover: two observations of silence, once per outage.
    - Mesh: every grant of a snapshot is justified; gateway ports are stable and distinct.
    - Alerts: an evaluation refines the abstract incident table
      ([evaluation_tracks_breaches]); one open incident per rule and subject; a resolution is
      announced exactly when the firing was; a delivery settles within its attempts.
    - Test results: the packed search decides membership ([hasPassed_decides]); a flaky test has
      evidence from the same code ([revisionKey_joins], [flaky_rows_are_justified]); the purge ends
      and leaves nothing expired or orphaned ([purge_drains]).
    - Metrics: uploads only advance a summary; the weighted quantile is one.
    - Rightsizing: a recommendation is sound; Profile names are read back as they were printed.
    - Secrets: the encrypted tables implement a map ([vault_refines_map]), a sealed text opens only
      where it was sealed ([moved_text_does_not_open]), plaintext reaches only a Node of a live
      deployment ([secrets_reach_their_node]).
    - Accounts: there is always an owner ([always_an_owner]); a grant makes one account; guesses of
      the bootstrap secret are slow ([bootstrap_guesses_are_slow]); an API token works until it is
      revoked.
    - Git: one run per delivery, unique bindings, a bound branch receives its pushes.
    - Log tails: read once, by the token that asked; filled once, by the tail's own Node.
    - Eight theorems prove behaviour the code does not mean to have
      ([warm_placement_ignores_legacy_slots], [long_ready_report_is_not_schedulable],
      [late_failure_takes_next_assignment], [refused_redelivery_is_forgotten],
      [settled_deliveries_starve_newer_ones], [stale_suspicion_fails_over_at_once],
      [flapping_defeats_cooldown], [removed_account_invites_owner]).

    * Fuel and bounds

    Handlers are total: loops run over the finite lists the code iterates.  [free_name] (the
    search for an unused machine name) takes one more round than there are machines, which
    [registerAgent_completes] shows to be enough; the loops that draw random tokens consume a list
    of draws and throw when it is used up.  The probe for a gateway port takes as many turns as
    there are ports, enough while one is free.  The recovery lists at most [MAX_PAGES] pages, as the
    code does.  [search] (the binary search of passed hashes) takes one more turn than the string has
    characters, enough by [hasPassed_decides]; the chain of purge transactions ends within one more
    than there are rows; [grow_memory] doubles at most eight times, past the largest size; the skip
    scan of repositories takes [MAX_REPOSITORIES] turns, as the code does.

    * Not modelled

    Dashboard queries, the request and signature of an alert's webhook, HTTP parsing, GitHub calls,
    the wiring of the session library, installers and the Worker agent's process handling.  Of the
    App platform: the Hub importer and the read routes of operators. *)

From stdpp Require Export base gmap list strings sorting pretty.
From Stdlib Require Export QArith.QArith ZArith.ZArith.

Global Open Scope Z_scope.

Set Default Goal Selector "!".

(** ** Record update

    Documents are patched field by field, so every document type needs a
    setter for each of its fields.  A type declares once how a value is rebuilt
    from its own projections ([Rebuild]); the setter of a projection is that
    term abstracted over the projection. *)

Class Rebuild (R : Type) := rebuild : R → R.

Class Updater {R T : Type} (proj : R → T) := upd : (T → T) → R → R.
Arguments upd {R T} proj {_} _ _ /.

Ltac derive_updater :=
  lazymatch goal with
  | |- @Updater ?R ?T ?proj =>
      let e := eval hnf in (@rebuild R _) in
      lazymatch eval pattern proj in e with
      | ?f _ =>
          let u := eval cbv beta in (fun (g : T → T) => f (fun r : R => g (proj r))) in
          exact u
      end
  end.

#[export] Hint Extern 0 (Updater _) => derive_updater : typeclass_instances.

Declare Scope doc_scope.
Delimit Scope doc_scope with doc.
Notation "d <| f := v |>" := (upd f (λ _, v) d)
  (at level 1, f at next level, v at level 200, left associativity,
   format "d  <| f  :=  v |>") : doc_scope.
Notation "d <| f ::= g |>" := (upd f g d)
  (at level 1, f at next level, g at level 200, left associativity,
   format "d  <| f  ::=  g |>") : doc_scope.
Global Open Scope doc_scope.

(** ** Transactions

    A Convex mutation is a serializable transaction: it either commits a new
    store together with its result, or throws and leaves the store as it was.
    [Date.now()] is fixed for the duration of one mutation, so handlers take
    [now] as an argument. *)

Inductive exn :=
  | Thrown (message : string)
  | Refused (code message : string).

Inductive outcome (A : Type) :=
  | Done (a : A)
  | Failed (e : exn).
Arguments Done {A} a.
Arguments Failed {A} e.

Definition tx (S A : Type) : Type := S → outcome (A * S).

#[export] Instance tx_ret S : MRet (tx S) := λ A a s, Done (a, s).
#[export] Instance tx_bind S : MBind (tx S) := λ A B f m s,
  match m s with
  | Done (a, s') => f a s'
  | Failed e => Failed e
  end.

Definition throw {S A} (message : string) : tx S A := λ _, Failed (Thrown message).
Definition refuse {S A} (code message : string) : tx S A := λ _, Failed (Refused code message).
Definition read {S A} (f : S → A) : tx S A := λ s, Done (f s, s).
Definition modify {S} (f : S → S) : tx S unit := λ s, Done (tt, f s).
Definition when {S} (b : bool) (m : tx S unit) : tx S unit := if b then m else mret tt.

(** The store after running a mutation: a throw rolls everything back. *)
Definition commit {S A} (m : tx S A) (s : S) : S :=
  match m s with Done (_, s') => s' | Failed _ => s end.

(** [for (const x of l) await body(x)] *)
Fixpoint for_each {S A} (l : list A) (body : A → tx S unit) : tx S unit :=
  match l with
  | [] => mret tt
  | x :: l => body x ≫= λ _, for_each l body
  end.

(** The same loop threading local variables of the handler. *)
Fixpoint fold_tx {S A B} (body : B → A → tx S B) (b : B) (l : list A) : tx S B :=
  match l with
  | [] => mret b
  | x :: l => body b x ≫= λ b', fold_tx body b' l
  end.

(** [await Promise.all(l.map(f))] *)
Fixpoint map_tx {S A B} (f : A → tx S B) (l : list A) : tx S (list B) :=
  match l with
  | [] => mret []
  | x :: l => y ← f x; ys ← map_tx f l; mret (y :: ys)
  end.

Section triples.
Context {S : Type}.

(** Partial-correctness triple: what a committed run guarantees. *)
Definition triple {A} (P : S → Prop) (m : tx S A) (Q : A → S → Prop) : Prop :=
  ∀ s a s', P s → m s = Done (a, s') → Q a s'.

Definition preserves {A} (I : S → Prop) (m : tx S A) : Prop := triple I m (λ _, I).

Lemma bind_done {A B} (m : tx S A) (f : A → tx S B) s b s'' :
  (m ≫= f) s = Done (b, s'') ↔
  ∃ a s', m s = Done (a, s') ∧ f a s' = Done (b, s'').
Proof.
  unfold mbind, tx_bind. destruct (m s) as [[a s']|e]; split.
  - eauto.
  - intros (a' & s1 & [= -> ->] & ?); done.
  - done.
  - intros (a' & s1 & ? & _); done.
Qed.

Lemma triple_ret {A} (P : S → Prop) (a : A) (Q : A → S → Prop) :
  (∀ s, P s → Q a s) → triple P (mret a) Q.
Proof. intros H s ? s' HP [= <- <-]. by apply H. Qed.

Lemma triple_bind {A B} (P : S → Prop) (m : tx S A) (R : A → S → Prop)
    (f : A → tx S B) (Q : B → S → Prop) :
  triple P m R → (∀ a, triple (R a) (f a) Q) → triple P (m ≫= f) Q.
Proof. intros Hm Hf s b s'' HP (a & s' & H1 & H2)%bind_done. eapply Hf; eauto. Qed.

Lemma triple_weaken {A} (P P' : S → Prop) (m : tx S A) (Q Q' : A → S → Prop) :
  triple P' m Q' → (∀ s, P s → P' s) → (∀ a s, Q' a s → Q a s) → triple P m Q.
Proof. intros H ?? s a s' ??. eauto. Qed.

Lemma triple_throw {A} (P : S → Prop) msg (Q : A → S → Prop) : triple P (throw msg) Q.
Proof. intros ??? _ ?. done. Qed.

Lemma triple_refuse {A} (P : S → Prop) c msg (Q : A → S → Prop) : triple P (refuse c msg) Q.
Proof. intros ??? _ ?. done. Qed.

Lemma triple_read {A} (P : S → Prop) (f : S → A) (Q : A → S → Prop) :
  (∀ s, P s → Q (f s) s) → triple P (read f) Q.
Proof. intros H s a s' HP [= <- <-]. by apply H. Qed.

Lemma triple_modify (P : S → Prop) (f : S → S) (Q : unit → S → Prop) :
  (∀ s, P s → Q tt (f s)) → triple P (modify f) Q.
Proof. intros H s a s' HP [= <- <-]. by apply H. Qed.

Lemma triple_when (P : S → Prop) b (m : tx S unit) (Q : unit → S → Prop) :
  (b = true → triple P m Q) → (b = false → ∀ s, P s → Q tt s) → triple P (when b m) Q.
Proof. destruct b; simpl; intros H1 H2; [auto|]. apply triple_ret; auto. Qed.

Lemma preserves_ret {A} (I : S → Prop) (a : A) : preserves I (mret a).
Proof. by apply triple_ret. Qed.

Lemma preserves_read {A} (I : S → Prop) (f : S → A) : preserves I (read f).
Proof. by apply triple_read. Qed.

Lemma preserves_bind {A B} (I : S → Prop) (m : tx S A) (f : A → tx S B) :
  preserves I m → (∀ a, preserves I (f a)) → preserves I (m ≫= f).
Proof. apply triple_bind. Qed.

Lemma preserves_for_each {A} (I : S → Prop) (l : list A) body :
  (∀ x, x ∈ l → preserves I (body x)) → preserves I (for_each l body).
Proof.
  induction l as [|x l IH]; intros H; simpl; [apply preserves_ret|].
  apply preserves_bind; [apply H; left|]. intros _. apply IH. intros; apply H; by right.
Qed.

(** A loop invariant over the elements still to be visited. *)
Lemma triple_fold {A B} (J : list A → B → S → Prop) (l : list A) body b :
  (∀ x l' b, triple (J (x :: l') b) (body b x) (J l')) →
  triple (J l b) (fold_tx body b l) (J []).
Proof.
  intros Hstep. revert b. induction l as [|x l IH]; intros b; simpl.
  - by apply triple_ret.
  - eapply triple_bind; [apply Hstep|]. intros b'. apply IH.
Qed.

Lemma triple_for_each {A} (J : list A → S → Prop) (l : list A) body :
  (∀ x l', triple (J (x :: l')) (body x) (λ _, J l')) →
  triple (J l) (for_each l body) (λ _, J []).
Proof.
  intros Hstep. induction l as [|x l IH]; simpl.
  - by apply triple_ret.
  - eapply triple_bind; [apply Hstep|]. intros ?. apply IH.
Qed.

Lemma commit_preserves {A} (I : S → Prop) (m : tx S A) s :
  preserves I m → I s → I (commit m s).
Proof. intros H HI. unfold commit. destruct (m s) as [[a s']|] eqn:E; eauto. Qed.
End triples.

(** A transaction that throws, and so writes nothing. *)
Definition fails {S A} (m : tx S A) (s : S) : Prop := ∃ e, m s = Failed e.

Lemma not_done_fails {S A} (m : tx S A) s : (∀ a s', m s ≠ Done (a, s')) → fails m s.
Proof. unfold fails. intros H. destruct (m s) as [[a s']|e]; [by destruct (H a s')|by exists e]. Qed.

(** Inverts a committed run one bind at a time. *)
Ltac tx_bind_in H x s1 H1 := apply bind_done in H as (x & s1 & H1 & H).

Create HintDb tx discriminated.
#[export] Hint Resolve triple_throw triple_refuse preserves_ret preserves_read : tx.

(** ** Tables

    A table is a finite map from document ids to documents.  Ids are handed out
    in increasing order, so increasing ids is creation order, which is the
    order in which Convex returns the rows of an equality range of an index. *)

Abbreviation Id := nat (only parsing).

Record table (D : Type) := Table { rows : gmap Id D; next_id : Id }.
Arguments Table {D} _ _.
Arguments rows {D} _.
Arguments next_id {D} _.

Definition t_empty {D} : table D := Table ∅ 0%nat.

Definition t_set {D} (i : Id) (d : D) (t : table D) : table D :=
  Table (<[i := d]> (rows t)) (next_id t).

Definition t_del {D} (i : Id) (t : table D) : table D :=
  Table (delete i (rows t)) (next_id t).

Definition t_add {D} (d : D) (t : table D) : table D :=
  Table (<[next_id t := d]> (rows t)) (S (next_id t)).

(** All rows, oldest first. *)
Definition t_scan {D} (t : table D) : list (Id * D) :=
  omap (λ i, pair i <$> rows t !! i) (seq 0 (next_id t)).

(** Ids that were never handed out hold no document. *)
Definition t_wf {D} (t : table D) : Prop := ∀ i d, rows t !! i = Some d → (i < next_id t)%nat.

(** [ctx.db.query(...).withIndex(...).collect()] over an equality range. *)
Definition t_where {D} (P : D → bool) (t : table D) : list (Id * D) :=
  filter (λ r, P r.2 = true) (t_scan t).

Definition b2z (b : bool) : Z := if b then 1 else 0.

(** The sum of [f] over a list, and the number of elements that satisfy [P]. *)
Definition zsum {A} (f : A → Z) (l : list A) : Z := foldr (λ x n, f x + n) 0 l.
Definition zcount {A} (P : A → bool) (l : list A) : Z := zsum (λ x, b2z (P x)) l.

Definition t_sum {D} (f : D → Z) (t : table D) : Z := zsum (f ∘ snd) (t_scan t).
Definition t_count {D} (P : D → bool) (t : table D) : Z := t_sum (λ d, b2z (P d)) t.

Section table_ops.
Context {S D : Type} (tbl : S → table D) `{!Updater tbl}.

(** [ctx.db.get(id)] *)
Definition db_get (i : Id) : tx S (option D) := read (λ s, rows (tbl s) !! i).

(** [ctx.db.query(tbl)...collect()] *)
Definition db_where (P : D → bool) : tx S (list (Id * D)) := read (λ s, t_where P (tbl s)).

(** [.unique()]: null for no row, the row for one, a throw for several. *)
Definition db_unique (P : D → bool) : tx S (option (Id * D)) := λ s,
  match t_where P (tbl s) with
  | [] => Done (None, s)
  | [r] => Done (Some r, s)
  | _ :: _ :: _ => Failed (Thrown "unique() query returned more than one result")
  end.

(** [.first()] *)
Definition db_first (P : D → bool) : tx S (option (Id * D)) :=
  read (λ s, head (t_where P (tbl s))).

(** [ctx.db.patch(id, ...)] throws when the document does not exist. *)
Definition db_patch (i : Id) (f : D → D) : tx S unit := λ s,
  match rows (tbl s) !! i with
  | Some d => Done (tt, upd tbl (t_set i (f d)) s)
  | None => Failed (Thrown "Update on nonexistent document")
  end.

(** [ctx.db.delete(id)] *)
Definition db_delete (i : Id) : tx S unit := λ s,
  match rows (tbl s) !! i with
  | Some _ => Done (tt, upd tbl (t_del i) s)
  | None => Failed (Thrown "Delete on nonexistent document")
  end.

(** [ctx.db.insert(tbl, d)] returns the new id. *)
Definition db_insert (d : D) : tx S Id := λ s,
  Done (next_id (tbl s), upd tbl (t_add d) s).
End table_ops.
Arguments db_get {S D} tbl i _ /.
Arguments db_where {S D} tbl P _ /.
Arguments db_first {S D} tbl P _ /.

(** ** Sums and counts *)

Section sums.
Context {A : Type}.
Implicit Types (f g : A → Z) (P Q : A → bool) (l : list A).

#[global] Instance zsum_perm f : Proper ((≡ₚ) ==> (=)) (zsum f).
Proof. induction 1; simpl; lia. Qed.

Lemma zsum_app f l1 l2 : zsum f (l1 ++ l2) = zsum f l1 + zsum f l2.
Proof. induction l1 as [|x l1 IH]; simpl; lia. Qed.

Lemma zsum_ext f g l : (∀ x, x ∈ l → f x = g x) → zsum f l = zsum g l.
Proof.
  induction l as [|x l IH]; intros H; simpl; [done|].
  rewrite (H x) by left. rewrite IH; [done|]. intros; apply H; by right.
Qed.

Lemma zsum_nonneg f l : (∀ x, x ∈ l → 0 ≤ f x) → 0 ≤ zsum f l.
Proof.
  induction l as [|x l IH]; intros H; simpl; [lia|].
  assert (0 ≤ f x) by (apply H; left). assert (0 ≤ zsum f l); [|lia].
  apply IH. intros; apply H; by right.
Qed.

Lemma zsum_zero f l : (∀ x, x ∈ l → f x = 0) → zsum f l = 0.
Proof.
  intros H. rewrite (zsum_ext f (λ _, 0)) by done. clear H. induction l; simpl; lia.
Qed.

Lemma zsum_add f g l : zsum (λ x, f x + g x) l = zsum f l + zsum g l.
Proof. induction l as [|x l IH]; simpl; lia. Qed.

Lemma zsum_filter f (R : A → Prop) `{∀ x, Decision (R x)} l :
  zsum f (filter R l) = zsum (λ x, if decide (R x) then f x else 0) l.
Proof.
  induction l as [|x l IH]; [done|]. rewrite filter_cons. simpl. case_decide; simpl; lia.
Qed.

Lemma zsum_update f g l x :
  NoDup l → x ∈ l → (∀ y, y ≠ x → f y = g y) → zsum f l + g x = zsum g l + f x.
Proof.
  intros Hnd Hx Heq. induction Hnd as [|y l Hy Hnd IH]; [by apply elem_of_nil in Hx|].
  simpl. apply elem_of_cons in Hx as [->|Hx].
  - rewrite (zsum_ext f g l); [lia|]. intros z Hz. apply Heq. by intros ->.
  - specialize (IH Hx). rewrite (Heq y); [lia|]. by intros ->.
Qed.

Lemma zcount_nonneg P l : 0 ≤ zcount P l.
Proof. apply zsum_nonneg. intros x _. by destruct (P x). Qed.

Lemma zcount_ext P Q l : (∀ x, x ∈ l → P x = Q x) → zcount P l = zcount Q l.
Proof. intros H. apply zsum_ext. intros x Hx. by rewrite H. Qed.

Lemma zcount_pos P l x : x ∈ l → P x = true → 1 ≤ zcount P l.
Proof.
  intros Hx HP. pose proof (zcount_nonneg P). unfold zcount in *.
  induction Hx as [x l|x y l Hx IH]; simpl.
  - rewrite HP. specialize (H l). simpl; lia.
  - specialize (IH HP). destruct (P y); simpl; lia.
Qed.
End sums.

Lemma zsum_fmap {A B} (f : A → B) (g : B → Z) (l : list A) : zsum g (f <$> l) = zsum (g ∘ f) l.
Proof. induction l as [|x l IH]; csimpl; [done|]. by rewrite IH. Qed.

Lemma zsum_omap {A B} (f : A → option B) (g : B → Z) (l : list A) :
  zsum g (omap f l) = zsum (λ a, match f a with Some b => g b | None => 0 end) l.
Proof.
  induction l as [|x l IH]; csimpl; [done|]. rewrite <- IH. by destruct (f x).
Qed.

(** The parts of a list selected by distinct keys, summed together. *)
Lemma zsum_partition {A K} `{EqDecision K} (key : A → K) (f : A → Z) (ks : list K) (l : list A) :
  NoDup ks → (∀ x, x ∈ l → key x ∉ ks → f x = 0) →
  zsum f (concat ((λ k, filter (λ x, bool_decide (key x = k) = true) l) <$> ks)) = zsum f l.
Proof.
  intros Hnd Hz. transitivity (zsum (λ x, if decide (key x ∈ ks) then f x else 0) l).
  - clear Hz. induction Hnd as [|k ks Hk Hnd IH]; csimpl.
    + symmetry. by apply zsum_zero.
    + rewrite zsum_app, IH, zsum_filter, <- zsum_add. apply zsum_ext. intros x _.
      repeat case_decide; rewrite ?bool_decide_eq_true, ?elem_of_cons in *; subst; try lia; naive_solver.
  - apply zsum_ext. intros x Hx. case_decide; [done|]. symmetry. auto.
Qed.

Lemma filter_id {A} (P : A → Prop) `{∀ x, Decision (P x)} (l : list A) :
  (∀ x, x ∈ l → P x) → filter P l = l.
Proof.
  induction l as [|x l IH]; intros Hall; [done|]. rewrite filter_cons_True by (apply Hall; left).
  f_equal. apply IH. intros; apply Hall; by right.
Qed.

(** A run of the first part of a sequence goes on with the rest. *)
Lemma bind_run {S A B} (m : tx S A) (f : A → tx S B) s a s' : m s = Done (a, s') → (m ≫= f) s = f a s'.
Proof. intros H. unfold mbind, tx_bind. by rewrite H. Qed.

Section table_lemmas.
Context {D : Type}.
Implicit Types (t : table D) (i : Id) (d : D) (P : D → bool).

Lemma elem_of_t_scan t i d : t_wf t → (i, d) ∈ t_scan t ↔ rows t !! i = Some d.
Proof.
  intros Hwf. unfold t_scan. rewrite list_elem_of_omap. split.
  - intros (j & _ & Hj). by destruct (rows t !! j) eqn:E; simplify_eq/=.
  - intros Hi. exists i. cbn beta. rewrite Hi. split; [|done]. apply elem_of_seq.
    apply Hwf in Hi. lia.
Qed.

Lemma t_scan_sound t r : r ∈ t_scan t → rows t !! r.1 = Some r.2.
Proof.
  unfold t_scan. rewrite list_elem_of_omap. intros (j & _ & Hj).
  by destruct (rows t !! j) eqn:E; simplify_eq/=.
Qed.

Lemma elem_of_t_where t P i d :
  t_wf t → (i, d) ∈ t_where P t ↔ rows t !! i = Some d ∧ P d = true.
Proof. intros ?. unfold t_where. rewrite list_elem_of_filter, elem_of_t_scan by done. tauto. Qed.

Lemma t_where_sound t P r : r ∈ t_where P t → rows t !! r.1 = Some r.2 ∧ P r.2 = true.
Proof. unfold t_where. rewrite list_elem_of_filter. intros [? ?%t_scan_sound]. done. Qed.

Lemma t_wf_empty : t_wf (@t_empty D).
Proof. intros i d H. done. Qed.

Lemma t_wf_set t i d d' : rows t !! i = Some d' → t_wf t → t_wf (t_set i d t).
Proof.
  intros Hi Hwf j e. simpl. rewrite lookup_insert_Some. intros [[<- _]|[_ ?]]; eauto.
Qed.

Lemma t_wf_del t i : t_wf t → t_wf (t_del i t).
Proof. intros Hwf j e. simpl. rewrite lookup_delete_Some. intros [_ ?]; eauto. Qed.

Lemma t_wf_add t d : t_wf t → t_wf (t_add d t).
Proof.
  intros Hwf j e. simpl. rewrite lookup_insert_Some.
  intros [[<- _]|[_ ?%Hwf]]; lia.
Qed.

Lemma t_wf_fresh t : t_wf t → rows t !! next_id t = None.
Proof.
  intros Hwf. destruct (rows t !! next_id t) eqn:E; [|done]. apply Hwf in E. lia.
Qed.

Lemma t_sum_seq f t :
  t_sum f t =
  zsum (λ i, match rows t !! i with Some d => f d | None => 0 end) (seq 0 (next_id t)).
Proof.
  unfold t_sum, t_scan. rewrite zsum_omap. apply zsum_ext. intros i _.
  by destruct (rows t !! i).
Qed.

Lemma t_sum_ext f g t : (∀ i d, rows t !! i = Some d → f d = g d) → t_sum f t = t_sum g t.
Proof. intros H. apply zsum_ext. intros [i d] Hr%t_scan_sound. eapply H, Hr. Qed.

(** Replacing a row moves its contribution. *)
Lemma t_sum_set f t i d d' :
  t_wf t → rows t !! i = Some d → t_sum f (t_set i d' t) + f d = t_sum f t + f d'.
Proof.
  intros Hwf Hi. rewrite !t_sum_seq. simpl.
  pose proof (zsum_update
    (λ j, match <[i:=d']> (rows t) !! j with Some d => f d | None => 0 end)
    (λ j, match rows t !! j with Some d => f d | None => 0 end)
    (seq 0 (next_id t)) i) as H.
  cbn beta in H. rewrite lookup_insert_eq, Hi in H. apply H.
  - apply NoDup_seq.
  - apply elem_of_seq. apply Hwf in Hi. lia.
  - intros j Hj. by rewrite lookup_insert_ne.
Qed.

Lemma t_sum_del f t i d :
  t_wf t → rows t !! i = Some d → t_sum f (t_del i t) + f d = t_sum f t.
Proof.
  intros Hwf Hi. rewrite !t_sum_seq. simpl.
  pose proof (zsum_update
    (λ j, match delete i (rows t) !! j with Some d => f d | None => 0 end)
    (λ j, match rows t !! j with Some d => f d | None => 0 end)
    (seq 0 (next_id t)) i) as H.
  cbn beta in H. rewrite lookup_delete_eq, Hi in H. rewrite Z.add_0_r in H. apply H.
  - apply NoDup_seq.
  - apply elem_of_seq. apply Hwf in Hi. lia.
  - intros j Hj. by rewrite lookup_delete_ne.
Qed.

Lemma t_sum_add f t d : t_wf t → t_sum f (t_add d t) = t_sum f t + f d.
Proof.
  intros Hwf. rewrite !t_sum_seq. simpl rows. simpl next_id.
  rewrite seq_S, zsum_app. simpl. rewrite lookup_insert_eq, Z.add_0_r. f_equal.
  apply zsum_ext. intros j Hj%elem_of_seq. rewrite lookup_insert_ne; [done|lia].
Qed.

Lemma t_count_nonneg P t : 0 ≤ t_count P t.
Proof. apply (zcount_nonneg (P ∘ snd)). Qed.

Lemma t_count_set P t i d d' :
  t_wf t → rows t !! i = Some d →
  t_count P (t_set i d' t) + b2z (P d) = t_count P t + b2z (P d').
Proof. apply (t_sum_set (λ d, b2z (P d))). Qed.

Lemma t_count_del P t i d :
  t_wf t → rows t !! i = Some d → t_count P (t_del i t) + b2z (P d) = t_count P t.
Proof. apply (t_sum_del (λ d, b2z (P d))). Qed.

Lemma t_count_add P t d : t_wf t → t_count P (t_add d t) = t_count P t + b2z (P d).
Proof. apply (t_sum_add (λ d, b2z (P d))). Qed.

Lemma t_count_pos P t i d : t_wf t → rows t !! i = Some d → P d = true → 1 ≤ t_count P t.
Proof.
  intros Hwf Hi HP. apply (zcount_pos (P ∘ snd) _ (i, d)); [by apply elem_of_t_scan|done].
Qed.

Lemma t_count_zero P t : (∀ i d, rows t !! i = Some d → P d = false) → t_count P t = 0.
Proof. intros H. apply zsum_zero. intros [i d] Hr%t_scan_sound. simpl. by erewrite H. Qed.

Lemma NoDup_t_scan_ids t : NoDup (t_scan t).*1.
Proof.
  unfold t_scan. generalize (NoDup_seq 0 (next_id t)). generalize (seq 0 (next_id t)).
  intros l. induction 1 as [|i l Hi Hnd IH]; simpl; [constructor|].
  destruct (rows t !! i) eqn:E; simpl; [|done]. constructor; [|done].
  intros ([j e] & -> & (k & Hk & Hj)%list_elem_of_omap)%list_elem_of_fmap.
  by destruct (rows t !! k) eqn:E'; simplify_eq/=.
Qed.

Lemma NoDup_t_where_ids P t : NoDup (t_where P t).*1.
Proof.
  unfold t_where. generalize (NoDup_t_scan_ids t). generalize (t_scan t).
  intros l. induction l as [|[i d] l IH]; simpl; [done|].
  intros [Hi Hnd]%NoDup_cons. rewrite filter_cons. case_decide; simpl; [|by apply IH].
  constructor; [|by apply IH].
  intros ([j e] & -> & [_ ?]%list_elem_of_filter)%list_elem_of_fmap.
  apply Hi, list_elem_of_fmap. by exists (j, e).
Qed.

(** A query that matches one row. *)
Lemma t_where_singleton P t i d :
  t_wf t → rows t !! i = Some d → P d = true →
  (∀ j e, rows t !! j = Some e → P e = true → j = i) → t_where P t = [(i, d)].
Proof.
  intros Hwf Hi HP Hone. assert ((i, d) ∈ t_where P t) as Hin by by apply elem_of_t_where.
  pose proof (NoDup_t_where_ids P t) as Hnd.
  assert (∀ r, r ∈ t_where P t → r = (i, d)) as Hall.
  { intros [j e] [Hj He]%elem_of_t_where; [|done]. assert (j = i) as -> by eauto. congruence. }
  destruct (t_where P t) as [|r1 [|r2 l]].
  - by apply elem_of_nil in Hin.
  - f_equal. apply Hall. left.
  - rewrite (Hall r1), (Hall r2) in Hnd by (rewrite !elem_of_cons; auto).
    simpl in Hnd. apply NoDup_cons in Hnd as [Hni _]. destruct Hni. left.
Qed.

Lemma t_where_nil P t : (∀ i d, rows t !! i = Some d → P d = false) → t_where P t = [].
Proof.
  intros H. destruct (t_where P t) as [|r l] eqn:E; [done|].
  destruct (t_where_sound t P r) as [Hr HP]; [rewrite E; left|]. by rewrite (H _ _ Hr) in HP.
Qed.
End table_lemmas.

(** ** Runs of the table operations *)

Lemma map_tx_where {S D K} (tbl : S → table D) (P : K → D → bool) (ks : list K) s :
  map_tx (λ k, db_where tbl (P k)) ks s = Done ((λ k, t_where (P k) (tbl s)) <$> ks, s).
Proof.
  induction ks as [|k ks IH]; [done|]. csimpl. unfold mbind, tx_bind at 1. simpl.
  unfold mbind, tx_bind. by rewrite IH.
Qed.

Lemma map_tx_pure {S A B} (f : A → tx S B) l s ys s' :
  (∀ x s y s', f x s = Done (y, s') → s' = s) → map_tx f l s = Done (ys, s') → s' = s.
Proof.
  intros Hf. revert s ys s'. induction l as [|x l IH]; intros s ys s'; simpl; [by intros [= _ <-]|].
  intros (y & s1 & ->%Hf & (zs & s2 & ->%IH & [= _ <-])%bind_done)%bind_done. done.
Qed.

Section unique_reads.
Context {S D : Type} (tbl : S → table D).

Lemma db_unique_done P s r s' :
  db_unique tbl P s = Done (r, s') →
  s' = s ∧ match r with Some r => t_where P (tbl s) = [r] | None => t_where P (tbl s) = [] end.
Proof.
  unfold db_unique. destruct (t_where P (tbl s)) as [|r1 [|r2 l]]; [..|done]; by intros [= <- <-].
Qed.

Lemma unique_row P s r s' :
  t_wf (tbl s) → db_unique tbl P s = Done (r, s') →
  s' = s ∧ match r with
           | Some (i, d) => rows (tbl s) !! i = Some d ∧ P d = true
           | None => ∀ i d, rows (tbl s) !! i = Some d → P d = false
           end.
Proof.
  intros Hwf [-> Hr]%db_unique_done. split; [done|]. destruct r as [[i d]|].
  - apply t_where_sound with (r := (i, d)). rewrite Hr. left.
  - intros i d Hi. destruct (P d) eqn:HP; [|done].
    assert ((i, d) ∈ t_where P (tbl s)) as Hin by by apply elem_of_t_where.
    rewrite Hr in Hin. by apply elem_of_nil in Hin.
Qed.

Context `{!Updater tbl}.

Lemma db_patch_done i f s u s' :
  db_patch tbl i f s = Done (u, s') →
  ∃ d, rows (tbl s) !! i = Some d ∧ s' = upd tbl (t_set i (f d)) s.
Proof. unfold db_patch. destruct (rows (tbl s) !! i) as [d|]; [|done]. intros [= _ <-]. eauto. Qed.

Lemma db_delete_done i s u s' :
  db_delete tbl i s = Done (u, s') →
  ∃ d, rows (tbl s) !! i = Some d ∧ s' = upd tbl (t_del i) s.
Proof. unfold db_delete. destruct (rows (tbl s) !! i) as [d|]; [|done]. intros [= _ <-]. eauto. Qed.

(** [if (existing === null) insert(row) else patch(existing._id, row)] *)
Lemma upsert_done (old : option (Id * D)) row s u s' :
  (match old with
   | None => db_insert tbl row ≫= λ _, mret tt
   | Some (i, _) => db_patch tbl i (λ _, row)
   end) s = Done (u, s') →
  ∃ i f, s' = upd tbl f s ∧ rows (f (tbl s)) !! i = Some row.
Proof.
  destruct old as [[i d]|].
  - intros (d' & _ & ->)%db_patch_done. eexists i, _. split; [done|]. apply lookup_insert_eq.
  - intros (i & s1 & [= _ <-] & [= _ <-])%bind_done. eexists _, _. split; [done|]. apply lookup_insert_eq.
Qed.
End unique_reads.

(** A unique read of a table in which at most one row matches. *)
Lemma db_unique_total {S D} (tbl : S → table D) P s :
  t_wf (tbl s) → (∀ i j d e, rows (tbl s) !! i = Some d → rows (tbl s) !! j = Some e → P d = true → P e = true → i = j) →
  ∃ r, db_unique tbl P s = Done (r, s) ∧
    match r with
    | Some (i, d) => rows (tbl s) !! i = Some d ∧ P d = true
    | None => ∀ i d, rows (tbl s) !! i = Some d → P d = false
    end.
Proof.
  intros Hwf Hone. assert (∃ r, db_unique tbl P s = Done (r, s)) as [r Hr].
  { destruct (t_where P (tbl s)) as [|[i d] l] eqn:E; [exists None; unfold db_unique; by rewrite E|].
    destruct (t_where_sound (tbl s) P (i, d)) as [Hi HP]; [rewrite E; left|]. exists (Some (i, d)). unfold db_unique.
    rewrite (t_where_singleton P _ i d); [done..|]. intros j e Hj He. by eapply Hone. }
  exists r. split; [done|]. by destruct (unique_row _ _ _ _ _ Hwf Hr) as [_ ?].
Qed.

#[export] Hint Resolve t_wf_empty t_wf_del t_wf_add t_wf_set : tx.

(** ** Tables whose rows evolve

    No row appears or disappears, and every row moves along [R]. *)
Record t_evolves {D} (R : relation D) (t t' : table D) : Prop := {
  te_wf : t_wf t → t_wf t';
  te_next : next_id t' = next_id t;
  te_rows : ∀ i, option_Forall2 R (rows t !! i) (rows t' !! i);
}.

Section evolves.
Context {D : Type} (R : relation D).

#[export] Instance t_evolves_refl : Reflexive R → Reflexive (t_evolves R).
Proof. intros HR t. split; [done..|]. intros i. reflexivity. Qed.

#[export] Instance t_evolves_trans : Transitive R → Transitive (t_evolves R).
Proof.
  intros HR t1 t2 t3 [W1 N1 R1] [W2 N2 R2]. split; [auto|congruence|].
  intros i. by etransitivity.
Qed.

#[export] Instance t_evolves_preorder : PreOrder R → PreOrder (t_evolves R).
Proof. split; apply _. Qed.

Lemma t_evolves_set t i d d' :
  Reflexive R → rows t !! i = Some d → R d d' → t_evolves R t (t_set i d' t).
Proof.
  intros HR Hi Hd. split; [by apply (t_wf_set _ _ _ _ Hi)|done|]. intros j. simpl.
  destruct (decide (i = j)) as [<-|Hne].
  - rewrite lookup_insert_eq, Hi. by constructor.
  - rewrite lookup_insert_ne by done. reflexivity.
Qed.

Lemma t_evolves_some t t' i d' :
  t_evolves R t t' → rows t' !! i = Some d' → ∃ d, rows t !! i = Some d ∧ R d d'.
Proof. intros H Hi. pose proof (te_rows _ _ _ H i) as Hr. rewrite Hi in Hr. inversion Hr; eauto. Qed.

Lemma t_evolves_none t t' i : t_evolves R t t' → rows t' !! i = None ↔ rows t !! i = None.
Proof.
  intros H. pose proof (te_rows _ _ _ H i) as Hr.
  destruct (rows t !! i), (rows t' !! i); inversion Hr; naive_solver.
Qed.
End evolves.

Lemma t_evolves_weaken {D} (R R' : relation D) t t' :
  (∀ d d', R d d' → R' d d') → t_evolves R t t' → t_evolves R' t t'.
Proof.
  intros HR [W N H]. split; [done..|]. intros i. destruct (H i); constructor; auto.
Qed.

(** A table holding the given rows, in creation order. *)
Definition t_of {D} (l : list D) : table D := fold_left (λ t d, t_add d t) l t_empty.

Lemma t_of_inv {D} (l : list D) :
  t_wf (t_of l) ∧ ∀ i d, rows (t_of l) !! i = Some d → d ∈ l.
Proof.
  unfold t_of. assert (∀ t, t_wf t → t_wf (fold_left (λ t d, t_add d t) l t) ∧
    ∀ i d, rows (fold_left (λ t d, t_add d t) l t) !! i = Some d →
      d ∈ l ∨ rows t !! i = Some d) as H.
  { induction l as [|x l IH]; intros t Hwf; simpl; [auto|].
    destruct (IH (t_add x t) (t_wf_add _ _ Hwf)) as [Hwf' Hin]. split; [done|].
    intros i d Hi%Hin. simpl in Hi. rewrite lookup_insert_Some in Hi. set_solver. }
  destruct (H t_empty t_wf_empty) as [Hwf Hin]. split; [done|].
  intros i d [?|?]%Hin; [done|]. by destruct i.
Qed.

Lemma t_of_Forall {D} (P : D → Prop) (l : list D) i d :
  Forall P l → rows (t_of l) !! i = Some d → P d.
Proof. rewrite Forall_forall. intros H Hi. apply H. by eapply (t_of_inv l). Qed.

(** ** Lists *)

Lemma filter_nil_iff {A} (P : A → Prop) `{∀ x, Decision (P x)} (l : list A) :
  filter P l = [] ↔ ∀ x, x ∈ l → ¬ P x.
Proof.
  split.
  - intros Hnil x Hx HP. by eapply filter_nil_not_elem_of.
  - intros Hall. destruct (filter P l) as [|x l'] eqn:E; [done|].
    assert (x ∈ filter P l) as [??]%list_elem_of_filter by (rewrite E; left). by destruct (Hall x).
Qed.

Lemma existsb_elem {A} (f : A → bool) (l : list A) :
  existsb f l = true ↔ ∃ x, x ∈ l ∧ f x = true.
Proof. rewrite existsb_exists. by setoid_rewrite list_elem_of_In. Qed.

Lemma forallb_elem {A} (f : A → bool) (l : list A) :
  forallb f l = true ↔ ∀ x, x ∈ l → f x = true.
Proof. rewrite forallb_forall. by setoid_rewrite list_elem_of_In. Qed.

Lemma elem_of_concat {A} (x : A) (ls : list (list A)) : x ∈ concat ls ↔ ∃ l, x ∈ l ∧ l ∈ ls.
Proof.
  rewrite list_elem_of_In, in_concat. split; intros (l & H1 & H2); exists l.
  - by rewrite !list_elem_of_In.
  - by rewrite <- !list_elem_of_In.
Qed.
