(* ===== verification/JsLib.v ===== *)
(** What the modelled code uses of JavaScript's standard library: numbers,
    strings, [toSorted], [Set] and [Array.prototype.join].

    Strings are sequences of Latin-1 code units ([Ascii.ascii] is read as the
    code units 0 to 255); [trim] and [toLowerCase] follow the Unicode tables on
    that range. *)

From S2P Require Import Prelude.
From Stdlib Require Export QArith.Qround QArith.Qminmax.
From Stdlib Require Export Strings.Ascii.
From Stdlib Require Strings.String.

(** ** Numbers

    A stored count, size or timestamp is an integer (the HTTP layer and the
    handlers refuse others) and is a [Z].  A number that arrives unvalidated,
    or that a division produces, is a [num]: a rational, an infinity or NaN. *)

Inductive num :=
  | Fin (q : Q)
  | PosInf
  | NegInf
  | NaN.

Definition num_of_Z (z : Z) : num := Fin (inject_Z z).

(** [a / b] for integers [a] and [b]. *)
Definition num_div (a b : Z) : num :=
  if b =? 0 then (if a =? 0 then NaN else if 0 <? a then PosInf else NegInf)
  else Fin (inject_Z a / inject_Z b).

(** [Math.max(a, b)] *)
Definition num_max (a b : num) : num :=
  match a, b with
  | NaN, _ | _, NaN => NaN
  | PosInf, _ | _, PosInf => PosInf
  | NegInf, x | x, NegInf => x
  | Fin p, Fin q => Fin (Qmax p q)
  end.

(** The sign of [a - b] as a comparator sees it: NaN is falsy, hence 0. *)
Definition num_cmp (a b : num) : Z :=
  match a, b with
  | NaN, _ | _, NaN => 0
  | PosInf, PosInf | NegInf, NegInf => 0
  | PosInf, _ | _, NegInf => 1
  | NegInf, _ | _, PosInf => -1
  | Fin p, Fin q => match Qcompare p q with Lt => -1 | Eq => 0 | Gt => 1 end
  end.

(** [a <= b]; every comparison with NaN is false. *)
Definition num_leb (a b : num) : bool :=
  match a, b with
  | NaN, _ | _, NaN => false
  | NegInf, _ | _, PosInf => true
  | PosInf, _ | _, NegInf => false
  | Fin p, Fin q => Qle_bool p q
  end.

Definition num_ltb (a b : num) : bool :=
  match a, b with
  | NaN, _ | _, NaN => false
  | _, _ => negb (num_leb b a)
  end.

(** [Math.floor(a)] *)
Definition num_floor (a : num) : num :=
  match a with Fin q => Fin (inject_Z (Qfloor q)) | x => x end.

(** [Math.min(a, b)] *)
Definition num_min (a b : num) : num :=
  match a, b with
  | NaN, _ | _, NaN => NaN
  | NegInf, _ | _, NegInf => NegInf
  | PosInf, x | x, PosInf => x
  | Fin p, Fin q => Fin (Qmin p q)
  end.

(** [a + b] *)
Definition num_add (a b : num) : num :=
  match a, b with
  | NaN, _ | _, NaN => NaN
  | PosInf, NegInf | NegInf, PosInf => NaN
  | PosInf, _ | _, PosInf => PosInf
  | NegInf, _ | _, NegInf => NegInf
  | Fin p, Fin q => Fin (p + q)
  end.

(** ** Binary64 rounding

    [round64 q] is the double nearest to [q], ties to even: the mantissa has 53 bits (fewer
    below 2^-1022) and a result of 2^1024 or more is an infinity. *)

Definition div_half_even (n d : Z) : Z :=
  let m := n / d in let r := 2 * (n mod d) in
  if r <? d then m else if d <? r then m + 1 else if Z.even m then m else m + 1.

Definition scaled (m k : Z) : Q :=
  if 0 <=? k then inject_Z (m * 2 ^ k) else Qred (m # Z.to_pos (2 ^ (- k))).

Definition round64 (q : Q) : num :=
  let n := Z.abs (Qnum q) in let d := QDen q in
  if n =? 0 then Fin 0 else
  let e0 := Z.log2 n - Z.log2 d in
  let e := if d * 2 ^ Z.max 0 e0 <=? n * 2 ^ Z.max 0 (- e0) then e0 else e0 - 1 in
  let k := Z.max (e - 52) (-1074) in
  let m := div_half_even (n * 2 ^ Z.max 0 (- k)) (d * 2 ^ Z.max 0 k) in
  let v := scaled m k in
  if Qle_bool (inject_Z (2 ^ 1024)) v then (if Qnum q <? 0 then NegInf else PosInf)
  else Fin (if Qnum q <? 0 then - v else v).

Definition num_round (a : num) : num := match a with Fin q => round64 q | x => x end.

(** A decimal literal of the source. *)
Definition lit (q : Q) : num := round64 q.

Definition num_neg (a : num) : num :=
  match a with Fin q => Fin (- q) | PosInf => NegInf | NegInf => PosInf | NaN => NaN end.

Definition num_sign (a : num) : Z :=
  match a with Fin q => Z.sgn (Qnum q) | PosInf => 1 | NegInf => -1 | NaN => 0 end.

(** An infinity of the given sign, or NaN for sign zero. *)
Definition inf_of (s : Z) : num := if s =? 0 then NaN else if 0 <? s then PosInf else NegInf.

Definition num_times (a b : num) : num :=
  match a, b with
  | NaN, _ | _, NaN => NaN
  | Fin p, Fin q => Fin (p * q)
  | _, _ => inf_of (num_sign a * num_sign b)
  end.

(** Division by a zero denominator takes the sign of positive zero. *)
Definition num_quot (a b : num) : num :=
  match a, b with
  | NaN, _ | _, NaN => NaN
  | Fin p, Fin q => if Qeq_bool q 0 then inf_of (num_sign a) else Fin (p / q)
  | Fin _, _ => Fin 0
  | _, Fin q => inf_of (num_sign a * (if Qeq_bool q 0 then 1 else num_sign b))
  | _, _ => NaN
  end.

Definition f_add (a b : num) : num := num_round (num_add a b).
Definition f_sub (a b : num) : num := num_round (num_add a (num_neg b)).
Definition f_mul (a b : num) : num := num_round (num_times a b).
Definition f_div (a b : num) : num := num_round (num_quot a b).

Example round64_tenths :
  lit (1 # 10) = Fin (3602879701896397 # 36028797018963968) ∧ lit (1 # 4) = Fin (1 # 4) ∧
  f_add (lit (1 # 10)) (lit (2 # 10)) = Fin (1351079888211149 # 4503599627370496) ∧
  lit (inject_Z (2 ^ 53 + 1)) = Fin (inject_Z (2 ^ 53)) ∧ lit (inject_Z (2 ^ 1025)) = PosInf.
Proof. vm_compute. done. Qed.

(** [Math.floor(x * 0.9)] is [x * 9 / 10] for the sizes of real hosts. *)
Definition nine_tenths_double (x : Z) : option Z :=
  match num_floor (f_mul (num_of_Z x) (lit (9 # 10))) with
  | Fin q => Some (Qnum q)
  | _ => None
  end.

Example nine_tenths_exact :
  forallb (λ x, bool_decide (nine_tenths_double x = Some (x * 9 / 10)))
    (seqZ 0 2049 ++ ((λ k, 64 * k) <$> seqZ 32 2048) ++ ((λ k, 1000 * k + 1) <$> seqZ 1 1024)) = true.
Proof. vm_compute. reflexivity. Qed.

(** [Number.isInteger(a)], returning the integer. *)
Definition num_integer (a : num) : option Z :=
  match a with
  | Fin q => if Qeq_bool (inject_Z (Qfloor q)) q then Some (Qfloor q) else None
  | _ => None
  end.

Definition MAX_SAFE_INTEGER : Z := 2 ^ 53 - 1.

Definition is_safe (z : Z) : bool := (- MAX_SAFE_INTEGER <=? z) && (z <=? MAX_SAFE_INTEGER).

(** [Number.isSafeInteger(a)] *)
Definition num_safe_integer (a : num) : option Z :=
  match num_integer a with
  | Some z => if is_safe z then Some z else None
  | None => None
  end.

Lemma num_integer_of_Z z : num_integer (num_of_Z z) = Some z.
Proof.
  unfold num_integer, num_of_Z. rewrite Qfloor_Z.
  by rewrite (proj2 (Qeq_bool_iff _ _) (Qeq_refl _)).
Qed.

Lemma num_integer_Some a z :
  num_integer a = Some z → ∃ q, a = Fin q ∧ (q == inject_Z z)%Q.
Proof.
  destruct a as [q| | |]; simpl; try done. case_match eqn:E; [|done]. intros [= <-].
  exists q. split; [done|]. apply Qeq_bool_iff in E. by rewrite E.
Qed.

Lemma num_integer_eq q z : (q == inject_Z z)%Q → num_integer (Fin q) = Some z.
Proof.
  intros H. simpl. rewrite (Qfloor_comp _ _ H), Qfloor_Z.
  by rewrite (proj2 (Qeq_bool_iff _ _) (Qeq_sym _ _ H)).
Qed.

Lemma Qmax_inject a b : (Qmax (inject_Z a) (inject_Z b) == inject_Z (Z.max a b))%Q.
Proof.
  destruct (Z.max_spec a b) as [[? ->]|[? ->]].
  - apply Q.max_r. rewrite <- Zle_Qle. lia.
  - apply Q.max_l. by rewrite <- Zle_Qle.
Qed.

Lemma Qmin_inject a b : (Qmin (inject_Z a) (inject_Z b) == inject_Z (Z.min a b))%Q.
Proof.
  destruct (Z.min_spec a b) as [[? ->]|[? ->]].
  - apply Q.min_l. rewrite <- Zle_Qle. lia.
  - apply Q.min_r. by rewrite <- Zle_Qle.
Qed.

Lemma num_leb_Z a b : num_leb (num_of_Z a) (num_of_Z b) = (a <=? b).
Proof.
  simpl. apply eq_true_iff_eq. by rewrite Qle_bool_iff, Z.leb_le, Zle_Qle.
Qed.

(** ** Strings *)

Definition ch (c : ascii) : Z := Z.of_nat (nat_of_ascii c).

Definition is_space (c : ascii) : bool :=
  let n := ch c in ((9 <=? n) && (n <=? 13)) || (n =? 32) || (n =? 160).

Definition lower_char (c : ascii) : ascii :=
  let n := ch c in
  if ((65 <=? n) && (n <=? 90)) || ((192 <=? n) && (n <=? 222) && negb (n =? 215))
  then ascii_of_nat (nat_of_ascii c + 32) else c.

Fixpoint str_map (f : ascii → ascii) (s : string) : string :=
  match s with
  | EmptyString => EmptyString
  | String c s => String (f c) (str_map f s)
  end.

(** [s.toLowerCase()] *)
Definition to_lower (s : string) : string := str_map lower_char s.

Fixpoint drop_spaces (l : list ascii) : list ascii :=
  match l with
  | [] => []
  | c :: l' => if is_space c then drop_spaces l' else l
  end.

(** [s.trim()] *)
Definition trim (s : string) : string :=
  String.string_of_list_ascii
    (reverse (drop_spaces (reverse (drop_spaces (String.list_ascii_of_string s))))).

(** [s.slice(0, n)] *)
Definition slice0 (n : nat) (s : string) : string := String.substring 0 n s.

(** [s.slice(n)] *)
Definition slice_from (n : nat) (s : string) : string := String.substring n (String.length s - n) s.

Definition starts_with (p s : string) : bool := String.prefix p s.

Definition ends_with (p s : string) : bool :=
  let n := String.length p in let m := String.length s in
  Nat.leb n m && String.eqb (String.substring (m - n) n s) p.

Definition str_all (f : ascii → bool) (s : string) : bool :=
  forallb f (String.list_ascii_of_string s).

Definition str_has (c : ascii) (s : string) : bool :=
  existsb (Ascii.eqb c) (String.list_ascii_of_string s).

(** [s.split(sep)] for a one-character separator: never an empty array. *)
Fixpoint split_chars (sep : ascii) (l : list ascii) : list (list ascii) :=
  match l with
  | [] => [[]]
  | c :: l' =>
      if Ascii.eqb c sep then [] :: split_chars sep l'
      else match split_chars sep l' with
           | w :: ws => (c :: w) :: ws
           | [] => [[c]]
           end
  end.

Definition str_split (sep : ascii) (s : string) : list string :=
  String.string_of_list_ascii <$> split_chars sep (String.list_ascii_of_string s).

(** [l.join(sep)] *)
Fixpoint str_join (sep : string) (l : list string) : string :=
  match l with
  | [] => ""
  | [s] => s
  | s :: l => s +:+ sep +:+ str_join sep l
  end.

Definition is_digit (c : ascii) : bool := let n := ch c in (48 <=? n) && (n <=? 57).
Definition is_lower_alpha (c : ascii) : bool := let n := ch c in (97 <=? n) && (n <=? 122).

(** [JSON.stringify(s)] *)
Definition quote_char : ascii := ascii_of_nat 34.

Definition hex_digit (n : nat) : ascii :=
  ascii_of_nat (if Nat.ltb n 10 then 48 + n else 87 + n)%nat.

Definition json_escape_char (c : ascii) : string :=
  let n := nat_of_ascii c in
  if Nat.eqb n 34 || Nat.eqb n 92 then String (ascii_of_nat 92) (String c EmptyString)
  else if Nat.eqb n 8 then String (ascii_of_nat 92) "b"
  else if Nat.eqb n 9 then String (ascii_of_nat 92) "t"
  else if Nat.eqb n 10 then String (ascii_of_nat 92) "n"
  else if Nat.eqb n 12 then String (ascii_of_nat 92) "f"
  else if Nat.eqb n 13 then String (ascii_of_nat 92) "r"
  else if Nat.ltb n 32 then
    String (ascii_of_nat 92) ("u00" +:+
      String (hex_digit (n / 16)) (String (hex_digit (n mod 16)) EmptyString))
  else String c EmptyString.

Definition json_string (s : string) : string :=
  String quote_char
    (foldr (λ c acc, json_escape_char c +:+ acc) (String quote_char EmptyString)
       (String.list_ascii_of_string s)).

(** The order of [Array.prototype.toSorted] without a comparator: code units. *)
Fixpoint chars_leb (a b : list ascii) : bool :=
  match a, b with
  | [], _ => true
  | _ :: _, [] => false
  | x :: a, y :: b =>
      if ch x <? ch y then true else if ch y <? ch x then false else chars_leb a b
  end.

Definition str_leb (a b : string) : bool :=
  chars_leb (String.list_ascii_of_string a) (String.list_ascii_of_string b).

Lemma chars_leb_total a b : chars_leb a b = true ∨ chars_leb b a = true.
Proof.
  revert b. induction a as [|x a IH]; intros [|y b]; simpl; auto.
  destruct (Z.ltb_spec (ch x) (ch y)), (Z.ltb_spec (ch y) (ch x)); auto; lia.
Qed.

Lemma chars_leb_trans a b c : chars_leb a b = true → chars_leb b c = true → chars_leb a c = true.
Proof.
  revert b c. induction a as [|x a IH]; intros [|y b] [|z c]; simpl; try done.
  destruct (Z.ltb_spec (ch x) (ch y)), (Z.ltb_spec (ch y) (ch x)),
    (Z.ltb_spec (ch y) (ch z)), (Z.ltb_spec (ch z) (ch y)),
    (Z.ltb_spec (ch x) (ch z)), (Z.ltb_spec (ch z) (ch x)); try done; try lia.
  apply IH.
Qed.

Lemma chars_leb_antisym a b : chars_leb a b = true → chars_leb b a = true → a = b.
Proof.
  revert b. induction a as [|x a IH]; intros [|y b]; simpl; try done.
  destruct (Z.ltb_spec (ch x) (ch y)), (Z.ltb_spec (ch y) (ch x)); try done; try lia.
  intros. f_equal; [|by apply IH].
  assert (nat_of_ascii x = nat_of_ascii y) as Hxy by (unfold ch in *; lia).
  by rewrite <- (ascii_nat_embedding x), Hxy, ascii_nat_embedding.
Qed.

(** ** Sorting

    [toSorted] is stable, so with a consistent comparator its result is the one
    stable sort of the input, computed here by insertion. *)

Section sorting.
Context {A : Type} (cmp : A → A → Z).

Fixpoint sort_insert (x : A) (l : list A) : list A :=
  match l with
  | [] => [x]
  | y :: l' => if cmp x y <=? 0 then x :: l else y :: sort_insert x l'
  end.

Definition to_sorted (l : list A) : list A := foldr sort_insert [] l.

Lemma sort_insert_perm x l : sort_insert x l ≡ₚ x :: l.
Proof.
  induction l as [|y l IH]; simpl; [done|]. case_match; [done|].
  rewrite IH. apply Permutation_swap.
Qed.

Lemma to_sorted_perm l : to_sorted l ≡ₚ l.
Proof. induction l as [|x l IH]; simpl; [done|]. by rewrite sort_insert_perm, IH. Qed.

Lemma elem_of_to_sorted x l : x ∈ to_sorted l ↔ x ∈ l.
Proof. by rewrite to_sorted_perm. Qed.

Lemma length_to_sorted l : length (to_sorted l) = length l.
Proof. by rewrite to_sorted_perm. Qed.

(** A comparator that orders the values in [P] as a total preorder. *)
Class ConsistentOn (P : A → Prop) : Prop := {
  cmp_total a b : P a → P b → cmp a b ≤ 0 ∨ cmp b a ≤ 0;
  cmp_trans a b c : P a → P b → P c → cmp a b ≤ 0 → cmp b c ≤ 0 → cmp a c ≤ 0;
}.

Context (P : A → Prop) `{!ConsistentOn P}.

Lemma sort_insert_sorted x l :
  P x → Forall P l → StronglySorted (λ a b, cmp a b ≤ 0) l →
  StronglySorted (λ a b, cmp a b ≤ 0) (sort_insert x l).
Proof.
  intros Hx HP. induction 1 as [|y l Hs IH Hall]; simpl; [repeat constructor|].
  apply Forall_cons in HP as [Hy HP].
  destruct (Z.leb_spec (cmp x y) 0) as [Hle|Hgt].
  - constructor; [by constructor|]. constructor; [done|].
    rewrite Forall_forall in Hall, HP |- *. intros z Hz. eapply (cmp_trans x y z); auto.
  - constructor; [by apply IH|]. rewrite sort_insert_perm. constructor; [|done].
    destruct (cmp_total x y); [done..|lia|done].
Qed.

Lemma Forall_to_sorted l : Forall P l → Forall P (to_sorted l).
Proof. by rewrite to_sorted_perm. Qed.

Lemma to_sorted_sorted l : Forall P l → StronglySorted (λ a b, cmp a b ≤ 0) (to_sorted l).
Proof.
  induction l as [|x l IH]; simpl; [constructor|]. intros [??]%Forall_cons.
  apply sort_insert_sorted; auto using Forall_to_sorted.
Qed.

(** The first element of the sorted list is a least one. *)
Lemma to_sorted_head l x :
  Forall P l → head (to_sorted l) = Some x → x ∈ l ∧ ∀ y, y ∈ l → cmp x y ≤ 0.
Proof.
  intros HP Hh. pose proof (to_sorted_sorted l HP) as Hs.
  destruct (to_sorted l) as [|z zs] eqn:E; simplify_eq/=.
  assert (∀ y, y ∈ l ↔ y ∈ x :: zs) as Hin by (intros; by rewrite <- E, elem_of_to_sorted).
  assert (P x) as Hx by (rewrite Forall_forall in HP; apply HP, Hin; left).
  split; [by apply Hin; left|]. intros y [->|Hy]%Hin%elem_of_cons.
  - destruct (cmp_total x x Hx Hx); lia.
  - inversion Hs as [|?? _ Hall]; simplify_eq. rewrite Forall_forall in Hall. by apply Hall.
Qed.
End sorting.

Abbreviation Consistent cmp := (ConsistentOn cmp (λ _, True)).


Lemma StronglySorted_weaken {A} (R R' : A → A → Prop) l :
  (∀ a b, R a b → R' a b) → StronglySorted R l → StronglySorted R' l.
Proof.
  intros HR. induction 1 as [|x l Hs IH Hall]; constructor; [done|].
  eapply Forall_impl; [exact Hall|]. intros; by apply HR.
Qed.

(** Sorting a list that is already in order leaves it as it is. *)
Lemma to_sorted_id {A} (cmp : A → A → Z) l :
  StronglySorted (λ a b, cmp a b ≤ 0) l → to_sorted cmp l = l.
Proof.
  induction 1 as [|x l Hs IH Hall]; simpl; [done|]. rewrite IH.
  destruct l as [|y l]; simpl; [done|]. inversion Hall; subst.
  by rewrite (proj2 (Z.leb_le _ _)).
Qed.

(** The default comparator of [toSorted] on strings. *)
Definition str_cmp (a b : string) : Z := if str_leb a b then 0 else 1.

#[export] Instance str_cmp_consistent : Consistent str_cmp.
Proof.
  split; unfold str_cmp, str_leb.
  - intros a b _ _. destruct (chars_leb_total (String.list_ascii_of_string a)
      (String.list_ascii_of_string b)) as [->| ->]; [left|right]; lia.
  - intros a b c _ _ _.
    pose proof (chars_leb_trans (String.list_ascii_of_string a) (String.list_ascii_of_string b)
      (String.list_ascii_of_string c)) as Ht.
    do 3 destruct (chars_leb _ _); intuition lia.
Qed.

Lemma str_sorted l : StronglySorted (λ a b, str_cmp a b ≤ 0) (to_sorted str_cmp l).
Proof. apply (to_sorted_sorted str_cmp (λ _, True)). by apply Forall_true. Qed.

(** ** [new Set(l)], iterated in insertion order *)

Fixpoint set_of `{EqDecision A} (l : list A) : list A :=
  match l with
  | [] => []
  | x :: l => x :: filter (λ y, y ≠ x) (set_of l)
  end.

Lemma elem_of_set_of `{EqDecision A} (l : list A) x : x ∈ set_of l ↔ x ∈ l.
Proof.
  induction l as [|y l IH]; simpl; [done|].
  rewrite !elem_of_cons, list_elem_of_filter, IH. destruct (decide (x = y)); tauto.
Qed.

Lemma NoDup_set_of `{EqDecision A} (l : list A) : NoDup (set_of l).
Proof.
  induction l as [|y l IH]; simpl; constructor.
  - rewrite list_elem_of_filter. by intros [? _].
  - by apply NoDup_filter.
Qed.

Lemma set_of_NoDup `{EqDecision A} (l : list A) : NoDup l → set_of l = l.
Proof.
  induction 1 as [|y l Hy Hnd IH]; simpl; [done|]. rewrite IH. f_equal.
  clear IH Hnd. induction l as [|z l IH]; [done|].
  apply not_elem_of_cons in Hy as [? ?]. rewrite filter_cons_True by done. f_equal. by apply IH.
Qed.

(** [left.every((v, i) => v === right[i])] of equally long lists *)
Definition same_list (l r : list string) : bool := bool_decide (l = r).

(** ** Splitting and joining *)

Definition no_char (sep : ascii) (s : string) : Prop := str_has sep s = false.

Lemma list_ascii_app a b :
  String.list_ascii_of_string (a +:+ b) =
  String.list_ascii_of_string a ++ String.list_ascii_of_string b.
Proof. induction a as [|c a IH]; simpl; [done|]. by f_equal. Qed.

Lemma split_chars_cons sep l : ∃ w ws, split_chars sep l = w :: ws.
Proof.
  induction l as [|c l (w & ws & E)]; simpl; [by eexists _, _|]. rewrite E. case_match; by eexists _, _.
Qed.

Lemma split_chars_word sep w : existsb (Ascii.eqb sep) w = false → split_chars sep w = [w].
Proof.
  induction w as [|c w IH]; simpl; [done|]. rewrite orb_false_iff, Ascii.eqb_sym.
  intros [-> Hw]. by rewrite IH.
Qed.

Lemma split_chars_app sep l l' :
  split_chars sep (l ++ sep :: l') = split_chars sep l ++ split_chars sep l'.
Proof.
  induction l as [|c l IH]; simpl; [by rewrite Ascii.eqb_refl|].
  case_match; [by rewrite IH|]. rewrite IH.
  destruct (split_chars_cons sep l) as (w & ws & ->). done.
Qed.

(** Splitting undoes joining when no piece holds the separator. *)
Lemma str_split_join sep ws :
  ws ≠ [] → Forall (no_char sep) ws → str_split sep (str_join (String sep "") ws) = ws.
Proof.
  unfold str_split. intros Hne Hall.
  induction Hall as [|w ws Hw Hall IH]; [done|]. destruct ws as [|w' ws].
  - simpl. rewrite split_chars_word by done. simpl.
    by rewrite String.string_of_list_ascii_of_string.
  - change (str_join (String sep "") (w :: w' :: ws))
      with (w +:+ String sep "" +:+ str_join (String sep "") (w' :: ws)).
    rewrite !list_ascii_app. simpl (String.list_ascii_of_string (String sep "") ++ _).
    rewrite split_chars_app, split_chars_word by done.
    simpl. rewrite String.string_of_list_ascii_of_string. f_equal. by apply IH.
Qed.

(** Every character of a string is the separator or part of a piece. *)
Lemma split_chars_elem sep l c :
  c ∈ l → c = sep ∨ ∃ w, w ∈ split_chars sep l ∧ c ∈ w.
Proof.
  induction l as [|d l IH]; [by intros ?%elem_of_nil|]. simpl.
  destruct (Ascii.eqb_spec d sep) as [->|Hd].
  - intros [->|Hc]%elem_of_cons; [by left|]. destruct (IH Hc) as [?|(w & ? & ?)]; [by left|].
    right. exists w. split; [by right|done].
  - destruct (split_chars_cons sep l) as (w & ws & E). rewrite E in *.
    intros [->|Hc]%elem_of_cons; [right; exists (d :: w); split; left|].
    destruct (IH Hc) as [?|(w' & Hw & ?)]; [by left|]. right.
    apply elem_of_cons in Hw as [->|?]; [exists (d :: w); split; [left|by right]|].
    exists w'. split; [by right|done].
Qed.

(** ** Normal forms under [trim] and [toLowerCase] *)

Definition str_chars (P : ascii → Prop) (s : string) : Prop := Forall P (String.list_ascii_of_string s).

Lemma drop_spaces_id l : Forall (λ c, is_space c = false) l → drop_spaces l = l.
Proof. destruct 1 as [|c l Hc _]; simpl; [done|]. by rewrite Hc. Qed.

Lemma trim_id s : str_chars (λ c, is_space c = false) s → trim s = s.
Proof.
  intros H. unfold trim. rewrite (drop_spaces_id _ H), drop_spaces_id by by rewrite Forall_reverse.
  by rewrite reverse_involutive, String.string_of_list_ascii_of_string.
Qed.

Lemma to_lower_id s : str_chars (λ c, lower_char c = c) s → to_lower s = s.
Proof.
  unfold to_lower, str_chars. induction s as [|c s IH]; simpl; [done|].
  intros [Hc Hs]%Forall_cons. by rewrite IH, Hc.
Qed.

Lemma str_chars_app P a b : str_chars P (a +:+ b) ↔ str_chars P a ∧ str_chars P b.
Proof. unfold str_chars. by rewrite list_ascii_app, Forall_app. Qed.

Lemma str_chars_join P sep ws :
  str_chars P sep → Forall (str_chars P) ws → str_chars P (str_join sep ws).
Proof.
  intros Hs. induction 1 as [|w ws Hw Hall IH]; [constructor|]. destruct ws as [|w' ws]; [done|].
  change (str_chars P (w +:+ sep +:+ str_join sep (w' :: ws))). by rewrite !str_chars_app.
Qed.

Lemma str_chars_all f s : str_all f s = true ↔ str_chars (λ c, f c = true) s.
Proof. unfold str_all, str_chars. by rewrite forallb_elem, Forall_forall. Qed.
