(* ===== verification/Schema.v ===== *)
(** The Convex data model of the CI control plane (packages/backend/convex/schema.ts):
    one record per table, one inductive type per union of literals, and the store
    [db] that the handlers of every component read and write. *)

From S2P Require Import Prelude JsLib.

(** ** Literal unions *)

Inductive executor := Docker | Firecracker | Tart | Hyperv.
Inductive boundary := GuestKernel | SharedKernel.
Inductive os_kind := Linux | Mac | Win.
Inductive slot_policy := SlotAuto | SlotFixed.
Inductive fit_policy := FitBalanced | FitCpu | FitNetwork | FitIo.
Inductive egress_mode := EgressPublic | EgressAudit | EgressAllowlist.
Inductive profile_state := ProfileActive | ProfilePaused.
Inductive readiness_state := RPreparing | RReady | RDegraded | RFailed.
Inductive attempt_state :=
  | Pending | Preparing | Ready | Running | Completed | Cancelled | FailedState.
Inductive experiment_state :=
  | XQueued | XPreparing | XRunning | XCompleted | XCancelled | XFailed.
Inductive retirement_outcome := RetireCancelled | RetireFailed.
Inductive credential := ControllerToken | MachineCredential.
Inductive session_state := SStarting | SStandby | SListening | SConflict | SStopped.
Inductive lease_role := LeaseHolder | LeaseStandby.
Inductive token_slot := SlotCurrent | SlotNext | SlotMachine.
Inductive job_status := JQueued | JAssigned | JRunning | JDone | JFailed.
Inductive command_status := CPending | CClaimed | CCancelled | CFinished.
Inductive delivery_status := DPending | DProcessed | DRejected | DFailed.
Inductive recovery_state := VRequested | VRecovered | VAbandoned.
Inductive egress_verdict := VerdictAllowed | VerdictBlocked | VerdictUnlisted.
Inductive protocol := Tcp | Udp.

#[export] Instance executor_eq_dec : EqDecision executor.
Proof. solve_decision. Defined.
#[export] Instance boundary_eq_dec : EqDecision boundary.
Proof. solve_decision. Defined.
#[export] Instance os_kind_eq_dec : EqDecision os_kind.
Proof. solve_decision. Defined.
#[export] Instance slot_policy_eq_dec : EqDecision slot_policy.
Proof. solve_decision. Defined.
#[export] Instance egress_mode_eq_dec : EqDecision egress_mode.
Proof. solve_decision. Defined.
#[export] Instance profile_state_eq_dec : EqDecision profile_state.
Proof. solve_decision. Defined.
#[export] Instance readiness_state_eq_dec : EqDecision readiness_state.
Proof. solve_decision. Defined.
#[export] Instance attempt_state_eq_dec : EqDecision attempt_state.
Proof. solve_decision. Defined.
#[export] Instance experiment_state_eq_dec : EqDecision experiment_state.
Proof. solve_decision. Defined.
#[export] Instance retirement_outcome_eq_dec : EqDecision retirement_outcome.
Proof. solve_decision. Defined.
#[export] Instance credential_eq_dec : EqDecision credential.
Proof. solve_decision. Defined.
#[export] Instance session_state_eq_dec : EqDecision session_state.
Proof. solve_decision. Defined.
#[export] Instance job_status_eq_dec : EqDecision job_status.
Proof. solve_decision. Defined.
#[export] Instance command_status_eq_dec : EqDecision command_status.
Proof. solve_decision. Defined.
#[export] Instance delivery_status_eq_dec : EqDecision delivery_status.
Proof. solve_decision. Defined.
#[export] Instance recovery_state_eq_dec : EqDecision recovery_state.
Proof. solve_decision. Defined.

(** ** Nested objects *)

(** [profileEgressValidator] (egress.ts). A preset is the literal "github". *)
Record profile_egress := ProfileEgress {
  eg_mode : egress_mode;
  eg_presets : list string;
  eg_domains : list string;
  eg_cidrs : list string;
}.

(** [egressEvidenceValidator] *)
Record egress_evidence := EgressEvidence {
  ee_mode : string;
  ee_hostMode : string;
  ee_profileMode : string;
  ee_presets : option (list string);
  ee_domains : option (list string);
  ee_cidrs : option (list string);
  ee_allowedDomainCount : Z;
}.

Record readiness_check := ReadinessCheck {
  ck_name : string;
  ck_passed : bool;
  ck_detail : option string;
}.

Record hardware_facts := HardwareFacts {
  hw_arch : option string;
  hw_cpus : option Z;
  hw_memoryMiB : option Z;
  hw_cpuModel : option string;
  hw_virtualization : option string;
  hw_kvm : option bool;
}.

Record storage_facts := StorageFacts {
  st_snapshotter : option string;
  st_poolName : option string;
  st_poolTotalMiB : option num;
  st_poolFreeMiB : option num;
}.

Record network_facts := NetworkFacts {
  nw_policyName : option string;
  nw_policyHash : option string;
  nw_subnet : option string;
  nw_egressMode : option string;
  nw_egress : option egress_evidence;
}.

(** The Agent counts its microVMs in integers. *)
Record warm_pool := WarmPool { wp_target : Z; wp_parked : Z; wp_claimed : Z }.

(** The isolation facts a readiness report carries, [ReadinessFacts] of isolation.ts; both
    [workerReadiness] (legacy inline evidence) and [readinessEvidence] rows hold them. *)
Record readiness_facts := ReadinessFacts {
  rf_isolation : option string;
  rf_boundary : option boundary;
  rf_checks : option (list readiness_check);
  rf_cacheScope : option string;
  rf_cacheSharedWritable : option bool;
  rf_hardware : option hardware_facts;
  rf_storage : option storage_facts;
  rf_network : option network_facts;
}.

Record benchmark_scores := BenchmarkScores {
  sc_cpu : Z; sc_memory : Z; sc_disk : Z; sc_network : Z; sc_balanced : Z;
}.

Inductive net_target := NetGithub | NetGhcr | NetNpm.
#[export] Instance net_target_eq_dec : EqDecision net_target.
Proof. solve_decision. Defined.

Record network_observation := NetworkObservation {
  no_target : net_target;
  no_ttfbMs : option num;
  no_throughputMbps : option num;
  no_bytes : option num;
  no_error : option string;
}.

(** [BenchmarkReport] (benchmark.ts), as a Worker sends it. *)
Record benchmark_report := BenchmarkReport {
  br_version : num;
  br_measuredAt : num;
  br_durationMs : num;
  br_sampleSize : num;
  br_cpuSha256MiBps : option num;
  br_memoryCopyMiBps : option num;
  br_diskWriteMiBps : option num;
  br_diskReadMiBps : option num;
  br_diskFsyncLatencyMs : option num;
  br_packageLinkOpsPerSec : option num;
  br_network : list network_observation;
  br_errors : list string;
}.

Inductive confidence := ConfComplete | ConfPartial | ConfFailed.

(** [StoredBenchmark]: the report, its validated measurement time, and the derived scores. *)
Record stored_benchmark := StoredBenchmark {
  sb_report : benchmark_report;
  sb_measuredAt : Z;
  sb_reportedAt : Z;
  sb_confidence : confidence;
  sb_scores : benchmark_scores;
}.

(** [machines.benchmark]: the compact summary, or the full report of an older row. *)
Inductive machine_benchmark :=
  | BenchSummary (measuredAt : Z) (scores : benchmark_scores)
  | BenchStored (b : stored_benchmark).

Record benchmark_evidence := BenchmarkEvidence {
  be_machineId : Id;
  be_benchmark : stored_benchmark;
}.
#[export] Instance benchmark_evidence_rebuild : Rebuild benchmark_evidence := λ b,
  BenchmarkEvidence (be_machineId b) (be_benchmark b).

Record retirement := Retirement {
  rt_outcome : retirement_outcome;
  rt_reason : string;
  rt_requestedAt : Z;
}.

Record lease_holder := LeaseHolderDoc {
  lh_credential : credential;
  lh_machineId : option Id;
  lh_hostname : string;
  lh_instance : string;
}.

Record egress_name := EgressName { en_name : string; en_verdict : egress_verdict; en_queries : num }.
Record egress_flow := EgressFlow {
  ef_destination : string;
  ef_protocol : protocol;
  ef_port : num;
  ef_name : option string;
  ef_verdict : egress_verdict;
}.

(** [egressRecordValidator] *)
Record egress_record := EgressRecord {
  er_mode : egress_mode;
  er_names : option (list egress_name);
  er_flows : option (list egress_flow);
  er_omittedNames : option num;
  er_omittedFlows : option num;
  er_error : option string;
}.

(** The text [placeInOrder] renders into [selectionReason], before rendering. *)
Record selection := Selection {
  se_pressure : num;
  se_policy : fit_policy;
  se_score : Z;
  se_source : string;
  se_eligible : nat;
}.

(** ** Documents *)

Record machine := Machine {
  mc_name : string;
  mc_os : os_kind;
  mc_labels : list string;
  mc_arch : option string;
  mc_cpus : option Z;
  mc_memoryMiB : option Z;
  mc_slotPolicy : option slot_policy;
  mc_configuredSlots : option Z;
  mc_resourceRecommendedSlots : option Z;
  mc_recommendedSlots : option Z;
  mc_benchmark : option machine_benchmark;
  mc_maxSlots : Z;
  mc_usedSlots : Z;
  mc_lastSeen : Z;
  mc_token : string;
}.
#[export] Instance machine_rebuild : Rebuild machine := λ m,
  Machine (mc_name m) (mc_os m) (mc_labels m) (mc_arch m) (mc_cpus m) (mc_memoryMiB m)
    (mc_slotPolicy m) (mc_configuredSlots m) (mc_resourceRecommendedSlots m)
    (mc_recommendedSlots m) (mc_benchmark m) (mc_maxSlots m) (mc_usedSlots m)
    (mc_lastSeen m) (mc_token m).

Record profile := Profile {
  pf_name : string;
  pf_scaleSetName : string;
  pf_executor : executor;
  pf_imageRelease : string;
  pf_vcpus : Z;
  pf_memoryMiB : Z;
  pf_warmPool : option Z;
  pf_fitPolicy : option fit_policy;
  pf_minRunners : Z;
  pf_maxRunners : Z;
  pf_egress : option profile_egress;
  pf_githubConfigUrl : option string;
  pf_githubCacheFacts : option bool;
  pf_runnerGroup : option string;
  pf_labels : option (list string);
  pf_workerLabels : option (list string);
  pf_state : profile_state;
  pf_updatedAt : Z;
}.
#[export] Instance profile_rebuild : Rebuild profile := λ p,
  Profile (pf_name p) (pf_scaleSetName p) (pf_executor p) (pf_imageRelease p) (pf_vcpus p)
    (pf_memoryMiB p) (pf_warmPool p) (pf_fitPolicy p) (pf_minRunners p) (pf_maxRunners p)
    (pf_egress p) (pf_githubConfigUrl p) (pf_githubCacheFacts p) (pf_runnerGroup p)
    (pf_labels p) (pf_workerLabels p) (pf_state p) (pf_updatedAt p).

Record attempt := Attempt {
  at_profile : string;
  at_executor : executor;
  at_imageRelease : string;
  at_vcpus : Z;
  at_memoryMiB : Z;
  at_runnerName : string;
  at_runnerId : Z;
  at_state : attempt_state;
  at_machineId : option Id;
  at_selectionReason : option selection;
  at_jitConfig : option string;
  at_createdAt : Z;
  at_claimedAt : option Z;
  at_readyAt : option Z;
  at_startedAt : option Z;
  at_finishedAt : option Z;
  at_executorFinishedAt : option Z;
  at_executorExitCode : option Z;
  at_runnerRequestId : option string;
  at_repo : option string;
  at_owner : option string;
  at_jobId : option string;
  at_workflowRef : option string;
  at_headBranch : option string;
  at_displayName : option string;
  at_workflowRunId : option Z;
  at_eventName : option string;
  at_queueTime : option Z;
  at_assignedAt : option Z;
  at_runnerAssignedAt : option Z;
  at_result : option string;
  at_lastError : option string;
  at_cancelReason : option string;
  at_runnerCleanupPending : option bool;
  at_retirement : option retirement;
}.
#[export] Instance attempt_rebuild : Rebuild attempt := λ a,
  Attempt (at_profile a) (at_executor a) (at_imageRelease a) (at_vcpus a) (at_memoryMiB a)
    (at_runnerName a) (at_runnerId a) (at_state a) (at_machineId a) (at_selectionReason a)
    (at_jitConfig a) (at_createdAt a) (at_claimedAt a) (at_readyAt a) (at_startedAt a)
    (at_finishedAt a) (at_executorFinishedAt a) (at_executorExitCode a)
    (at_runnerRequestId a) (at_repo a) (at_owner a) (at_jobId a) (at_workflowRef a)
    (at_headBranch a) (at_displayName a) (at_workflowRunId a) (at_eventName a)
    (at_queueTime a) (at_assignedAt a) (at_runnerAssignedAt a) (at_result a)
    (at_lastError a) (at_cancelReason a) (at_runnerCleanupPending a) (at_retirement a).

Record attempt_secret := AttemptSecret {
  as_attemptId : Id;
  as_jitConfig : string;
  as_createdAt : Z;
}.

Record experiment := Experiment {
  xp_name : string;
  xp_profile : string;
  xp_imageRelease : string;
  xp_vcpus : Z;
  xp_memoryMiB : Z;
  xp_command : list string;
  xp_timeoutSeconds : Z;
  xp_state : experiment_state;
  xp_machineId : option Id;
  xp_selectionReason : option selection;
  xp_createdBy : string;
  xp_createdAt : Z;
  xp_claimedAt : option Z;
  xp_startedAt : option Z;
  xp_finishedAt : option Z;
  xp_exitCode : option Z;
  xp_lastError : option string;
}.
#[export] Instance experiment_rebuild : Rebuild experiment := λ x,
  Experiment (xp_name x) (xp_profile x) (xp_imageRelease x) (xp_vcpus x) (xp_memoryMiB x)
    (xp_command x) (xp_timeoutSeconds x) (xp_state x) (xp_machineId x) (xp_selectionReason x)
    (xp_createdBy x) (xp_createdAt x) (xp_claimedAt x) (xp_startedAt x) (xp_finishedAt x)
    (xp_exitCode x) (xp_lastError x).

Record worker_readiness := WorkerReadiness {
  wr_machineId : Id;
  wr_profile : string;
  wr_executor : executor;
  wr_imageRelease : string;
  wr_vcpus : option Z;
  wr_memoryMiB : option Z;
  wr_state : readiness_state;
  wr_checkedAt : Z;
  wr_preparedAt : option Z;
  wr_warmPool : option warm_pool;
  wr_statusDetail : option string;
  wr_lastError : option string;
  wr_facts : readiness_facts;
}.

Record readiness_evidence := ReadinessEvidence {
  ev_machineId : Id;
  ev_profile : string;
  ev_executor : executor;
  ev_imageRelease : string;
  ev_vcpus : option Z;
  ev_memoryMiB : option Z;
  ev_checkedAt : Z;
  ev_warmPool : option warm_pool;
  ev_statusDetail : option string;
  ev_lastError : option string;
  ev_facts : readiness_facts;
  ev_runnerVersion : option string;
}.

Record attempt_egress := AttemptEgress {
  ae_attemptId : Id;
  ae_machineId : Id;
  ae_profile : string;
  ae_recordedAt : Z;
  ae_record : egress_record;
}.

Record controller_lease := ControllerLease {
  cl_profile : string;
  cl_epoch : Z;
  cl_holder : option lease_holder;
  cl_acquiredAt : option Z;
  cl_renewedAt : option Z;
  cl_expiresAt : Z;
}.
#[export] Instance controller_lease_rebuild : Rebuild controller_lease := λ l,
  ControllerLease (cl_profile l) (cl_epoch l) (cl_holder l) (cl_acquiredAt l)
    (cl_renewedAt l) (cl_expiresAt l).

Record controller_heartbeat := ControllerHeartbeat {
  hb_profile : string;
  hb_reporter : option string;
  hb_hostname : string;
  hb_version : string;
  hb_scaleSetId : option Z;
  hb_sessionState : session_state;
  hb_leaseRole : option lease_role;
  hb_leaseEpoch : option Z;
  hb_lastMessageAt : option Z;
  hb_startedAt : option Z;
  hb_assignedJobs : Z;
  hb_runningJobs : Z;
  hb_lastError : option string;
  hb_tokenSlot : token_slot;
  hb_firstSeenAt : Z;
  hb_receivedAt : Z;
  hb_lastListeningAt : option Z;
}.

Record job := Job {
  jb_ghJobId : Z;
  jb_githubInstallationId : option Z;
  jb_repo : string;
  jb_workflowName : string;
  jb_labels : list string;
  jb_status : job_status;
  jb_machineId : option Id;
  jb_runnerName : option string;
  jb_queuedAt : Z;
  jb_startedAt : option Z;
  jb_finishedAt : option Z;
  jb_conclusion : option string;
  jb_attempts : option Z;
  jb_lastError : option string;
  jb_nextAttemptAt : option Z;
  jb_lastFailedMachineId : option Id;
  jb_creationTime : Z;
}.
#[export] Instance job_rebuild : Rebuild job := λ j,
  Job (jb_ghJobId j) (jb_githubInstallationId j) (jb_repo j) (jb_workflowName j) (jb_labels j)
    (jb_status j) (jb_machineId j) (jb_runnerName j) (jb_queuedAt j) (jb_startedAt j)
    (jb_finishedAt j) (jb_conclusion j) (jb_attempts j) (jb_lastError j)
    (jb_nextAttemptAt j) (jb_lastFailedMachineId j) (jb_creationTime j).

Record command := Command {
  cm_machineId : Id;
  cm_jobId : Id;
  cm_jitConfig : option string;
  cm_image : option string;
  cm_runnerName : string;
  cm_runnerId : option Z;
  cm_status : command_status;
  cm_claimedAt : option Z;
  cm_cancelledAt : option Z;
  cm_exitCode : option Z;
  cm_creationTime : Z;
}.
#[export] Instance command_rebuild : Rebuild command := λ c,
  Command (cm_machineId c) (cm_jobId c) (cm_jitConfig c) (cm_image c) (cm_runnerName c)
    (cm_runnerId c) (cm_status c) (cm_claimedAt c) (cm_cancelledAt c) (cm_exitCode c)
    (cm_creationTime c).

Record runner_deletion := RunnerDeletion {
  rd_repo : string;
  rd_githubInstallationId : option Z;
  rd_runnerId : Z;
  rd_runnerName : string;
  rd_createdAt : Z;
  rd_attempts : Z;
  rd_lastError : option string;
}.
#[export] Instance runner_deletion_rebuild : Rebuild runner_deletion := λ r,
  RunnerDeletion (rd_repo r) (rd_githubInstallationId r) (rd_runnerId r) (rd_runnerName r)
    (rd_createdAt r) (rd_attempts r) (rd_lastError r).

Record registration_token := RegistrationToken {
  rg_token : string;
  rg_createdAt : Z;
  rg_usedAt : option Z;
}.
#[export] Instance registration_token_rebuild : Rebuild registration_token := λ r,
  RegistrationToken (rg_token r) (rg_createdAt r) (rg_usedAt r).

(** The [workflow_job] event as the webhook route narrows it. *)
Inductive job_action := ActQueued | ActInProgress | ActCompleted.
Record workflow_job := WorkflowJob {
  wj_action : job_action;
  wj_ghJobId : Z;
  wj_githubInstallationId : option Z;
  wj_repo : string;
  wj_repoIsPublic : bool;
  wj_workflowName : string;
  wj_labels : list string;
  wj_runnerName : option string;
  wj_conclusion : option string;
}.

Inductive push_outcome := PushQueued | PushNoBinding.
Record push_delivery := PushDelivery {
  pd_repo : string;
  pd_branch : string;
  pd_sha : string;
  pd_outcome : push_outcome;
  pd_deploymentId : option Id;
}.

Record webhook_delivery := WebhookDelivery {
  wd_deliveryId : string;
  wd_event : string;
  wd_receivedAt : Z;
  wd_status : delivery_status;
  wd_workflowJob : option workflow_job;
  wd_push : option push_delivery;
  wd_attempts : Z;
  wd_lastError : option string;
  wd_settledAt : option Z;
}.
#[export] Instance webhook_delivery_rebuild : Rebuild webhook_delivery := λ d,
  WebhookDelivery (wd_deliveryId d) (wd_event d) (wd_receivedAt d) (wd_status d) (wd_workflowJob d)
    (wd_push d) (wd_attempts d) (wd_lastError d) (wd_settledAt d).

Record webhook_recovery := WebhookRecovery {
  wv_guid : string;
  wv_githubDeliveryId : Z;
  wv_event : string;
  wv_deliveredAt : Z;
  wv_statusCode : Z;
  wv_attempts : Z;
  wv_firstRequestedAt : Z;
  wv_lastRequestedAt : Z;
  wv_nextAttemptAt : Z;
  wv_state : recovery_state;
  wv_lastError : option string;
}.
#[export] Instance webhook_recovery_rebuild : Rebuild webhook_recovery := λ r,
  WebhookRecovery (wv_guid r) (wv_githubDeliveryId r) (wv_event r) (wv_deliveredAt r)
    (wv_statusCode r) (wv_attempts r) (wv_firstRequestedAt r) (wv_lastRequestedAt r)
    (wv_nextAttemptAt r) (wv_state r) (wv_lastError r).

Inductive run_outcome := RunPending | RunOk | RunSkippedNoApp | RunSkippedBackoff | RunError.
Record recovery_run := RecoveryRun {
  rn_scannedThrough : Z;
  rn_lastRunAt : Z;
  rn_lastSuccessAt : option Z;
  rn_nextRunAt : Z;
  rn_consecutiveFailures : Z;
  rn_lastOutcome : run_outcome;
  rn_lastError : option string;
  rn_listed : Z;
  rn_missing : Z;
  rn_requested : Z;
}.
#[export] Instance recovery_run_rebuild : Rebuild recovery_run := λ r,
  RecoveryRun (rn_scannedThrough r) (rn_lastRunAt r) (rn_lastSuccessAt r) (rn_nextRunAt r)
    (rn_consecutiveFailures r) (rn_lastOutcome r) (rn_lastError r) (rn_listed r) (rn_missing r)
    (rn_requested r).

(** ** The store

    [scheduled] is the queue of [ctx.scheduler.runAfter(...)] calls a mutation made. *)

Inductive scheduled_call :=
  | CallAttemptTryAssign
  | CallLegacyTryAssign (delayMs : Z)
  | CallIssueJit (commandId jobId : Id) (repo : string) (githubInstallationId : option Z)
      (runnerName : string) (labels : list string)
  | CallDrainRunnerDeletions
  | CallProcessDelivery (deliveryId : Id).

Record db := Db {
  machines : table machine;
  profiles : table profile;
  attempts : table attempt;
  attemptSecrets : table attempt_secret;
  attemptEgress : table attempt_egress;
  experiments : table experiment;
  workerReadiness : table worker_readiness;
  readinessEvidence : table readiness_evidence;
  benchmarkEvidence : table benchmark_evidence;
  controllerLeases : table controller_lease;
  controllerHeartbeats : table controller_heartbeat;
  jobs : table job;
  commands : table command;
  runnerDeletions : table runner_deletion;
  registrationTokens : table registration_token;
  webhookDeliveries : table webhook_delivery;
  webhookRecovery : table webhook_recovery;
  webhookRecoveryState : table recovery_run;
  scheduled : list scheduled_call;
}.
#[export] Instance db_rebuild : Rebuild db := λ s,
  Db (machines s) (profiles s) (attempts s) (attemptSecrets s) (attemptEgress s)
    (experiments s) (workerReadiness s) (readinessEvidence s) (benchmarkEvidence s) (controllerLeases s)
    (controllerHeartbeats s) (jobs s) (commands s) (runnerDeletions s)
    (registrationTokens s) (webhookDeliveries s) (webhookRecovery s) (webhookRecoveryState s)
    (scheduled s).

Definition db_empty : db :=
  Db t_empty t_empty t_empty t_empty t_empty t_empty t_empty t_empty t_empty t_empty
    t_empty t_empty t_empty t_empty t_empty t_empty t_empty t_empty [].

(** [ctx.scheduler.runAfter(...)] *)
Definition run_after (c : scheduled_call) : tx db unit :=
  modify (λ s, s <| scheduled ::= λ q, q ++ [c] |>).

(** [a === b] for the literal unions and ids above. *)
Notation "a === b" := (bool_decide (a = b)) (at level 70, no associativity) : doc_scope.
Notation "a !== b" := (negb (bool_decide (a = b))) (at level 70, no associativity) : doc_scope.

(** [o ?? d] *)
Definition or_else {A} (d : A) (o : option A) : A := match o with Some a => a | None => d end.
Definition or_opt {A} (o o' : option A) : option A := match o with Some a => Some a | None => o' end.
Definition is_none {A} (o : option A) : bool := match o with Some _ => false | None => true end.
Definition is_some {A} (o : option A) : bool := negb (is_none o).
