(* ===== verification/JsText.v ===== *)
(** More of JavaScript's library: numbers as text and text as numbers, [Math.round], dates in ISO
    form, and [Map] with its insertion order. *)

From S2P Require Import Prelude JsLib Schema.
From Stdlib Require Import QArith.Qround.

Open Scope Z_scope.

(** ** Numbers as text

    ECMAScript's [Number::toString]: the fewest decimal digits that read back as the same double,
    and among those the nearest. *)

Definition zero_char : ascii := "0".
Definition zeros (n : Z) : string := String.string_of_list_ascii (replicate (Z.to_nat n) zero_char).

(** The decimal exponent [e] of a positive [q]: [10^(e-1) <= q < 10^e]. *)
Definition dec_exponent (q : Q) : Z :=
  let n := Qnum q in let d := QDen q in
  let guess := (Z.log2 n - Z.log2 d) * 30103 / 100000 in
  let reaches e := if 0 <=? e then 10 ^ e * d <=? n else d <=? n * 10 ^ (- e) in
  if reaches (guess + 1) then guess + 2 else if reaches guess then guess + 1
  else if reaches (guess - 1) then guess else guess - 1.

Definition scale10 (m k : Z) : Q := if 0 <=? k then inject_Z (m * 10 ^ k) else Qred (m # Z.to_pos (10 ^ (- k))).

(** The nearest integer to [q * 10^k]. *)
Definition nearest10 (q : Q) (k : Z) : Z :=
  let x := Qmult q (scale10 1 k) in Qfloor (Qplus x (1 # 2)).

Definition same_double (q : Q) (a : num) : bool := match a with Fin p => Qeq_bool p q | _ => false end.

(** Digits [k = 17 - n, ...] are tried in turn; seventeen always suffice. *)
Fixpoint shortest (n : nat) (q : Q) (e k : Z) : Z * Z :=
  let m := nearest10 q (k - e) in
  match n with
  | O => (m, k)
  | S n => if same_double q (round64 (scale10 m (e - k))) then (m, k) else shortest n q e (k + 1)
  end.

Definition digits_text (m k e : Z) : string :=
  let digits := pretty m in
  if (k <=? e) && (e <=? 21) then digits +:+ zeros (e - k)
  else if (0 <? e) && (e <=? 21) then slice0 (Z.to_nat e) digits +:+ "." +:+ slice_from (Z.to_nat e) digits
  else if (-6 <? e) && (e <=? 0) then "0." +:+ zeros (- e) +:+ digits
  else
    slice0 1 digits +:+ (if k =? 1 then "" else "." +:+ slice_from 1 digits) +:+ "e" +:+
    (if 0 <=? e - 1 then "+" else "-") +:+ pretty (Z.abs (e - 1)).

(** Carrying into the next power of ten leaves one digit. *)
Definition positive_text (q : Q) : string :=
  let e := dec_exponent q in
  let '(m, k) := shortest 16 q e 1 in
  if m =? 10 ^ k then digits_text 1 1 (e + 1) else digits_text m k e.

(** [`${a}`] *)
Definition num_text (a : num) : string :=
  match a with
  | NaN => "NaN"
  | PosInf => "Infinity"
  | NegInf => "-Infinity"
  | Fin q => if Qnum q =? 0 then "0" else if Qnum q <? 0 then "-" +:+ positive_text (Qopp q) else positive_text q
  end.

Example num_texts :
  num_text (num_of_Z 1440) = "1440" ∧ num_text (lit (1 # 10)) = "0.1" ∧ num_text (lit (25 # 2)) = "12.5" ∧
  num_text (f_add (lit (1 # 10)) (lit (2 # 10))) = "0.30000000000000004" ∧ num_text (f_div (num_of_Z 1) (num_of_Z 3)) = "0.3333333333333333" ∧
  num_text (f_div (num_of_Z (-2)) (num_of_Z 3)) = "-0.6666666666666666" ∧ num_text (num_of_Z (10 ^ 21)) = "1e+21" ∧
  num_text (lit (1 # 10000000)) = "1e-7" ∧ num_text (num_of_Z 100) = "100" ∧ num_text (lit (999 # 10)) = "99.9".
Proof. vm_compute. done. Qed.

(** [Math.round(a)]: half-way cases go up. *)
Definition math_round (a : num) : num := match a with Fin q => Fin (inject_Z (Qfloor (Qplus q (1 # 2)))) | x => x end.

(** ** Text as numbers

    [Number(s)]: the trimmed text is empty, an infinity, a prefixed integer or a decimal literal. *)

Definition digit_value (c : ascii) : option Z :=
  let n := ch c in
  if (48 <=? n) && (n <=? 57) then Some (n - 48)
  else if (97 <=? n) && (n <=? 102) then Some (n - 87)
  else if (65 <=? n) && (n <=? 70) then Some (n - 55) else None.

Fixpoint radix_digits (radix acc : Z) (l : list ascii) : option Z :=
  match l with
  | [] => Some acc
  | c :: l => d ← digit_value c; if d <? radix then radix_digits radix (radix * acc + d) l else None
  end.

Definition radix_number (radix : Z) (l : list ascii) : num :=
  match l with [] => NaN | _ => match radix_digits radix 0 l with Some z => round64 (inject_Z z) | None => NaN end end.

(** The leading decimal digits: value, count, rest. *)
Fixpoint take_digits (acc count : Z) (l : list ascii) : Z * Z * list ascii :=
  match l with
  | c :: l' => if is_digit c then take_digits (10 * acc + (ch c - 48)) (count + 1) l' else (acc, count, l)
  | [] => (acc, count, l)
  end.

Definition decimal_exponent (l : list ascii) : option Z :=
  match l with
  | [] => Some 0
  | c :: l =>
      if Ascii.eqb c "e" || Ascii.eqb c "E" then
        let '(negative, l) := match l with
          | s :: l' => if Ascii.eqb s "-" then (true, l') else if Ascii.eqb s "+" then (false, l') else (false, l)
          | [] => (false, l) end in
        match take_digits 0 0 l with
        | (x, n, []) => if n =? 0 then None else Some (if negative : bool then - x else x)
        | _ => None
        end
      else None
  end.

Definition decimal_number (l : list ascii) : num :=
  if bool_decide (String.string_of_list_ascii l = "Infinity") then PosInf
  else
    let '(whole, n, rest) := take_digits 0 0 l in
    let '(mantissa, fraction, rest) := match rest with
      | c :: rest' => if Ascii.eqb c "." then take_digits whole 0 rest' else (whole, 0, rest)
      | [] => (whole, 0, rest) end in
    if n + fraction =? 0 then NaN
    else match decimal_exponent rest with
    | Some x => round64 (scale10 mantissa (x - fraction))
    | None => NaN
    end.

Definition js_number (s : string) : num :=
  match String.list_ascii_of_string (trim s) with
  | [] => Fin 0
  | c :: l =>
      if Ascii.eqb c "-" then num_neg (decimal_number l)
      else if Ascii.eqb c "+" then decimal_number l
      else match c, l with
      | "0"%char, x :: l' =>
          if Ascii.eqb x "x" || Ascii.eqb x "X" then radix_number 16 l'
          else if Ascii.eqb x "o" || Ascii.eqb x "O" then radix_number 8 l'
          else if Ascii.eqb x "b" || Ascii.eqb x "B" then radix_number 2 l'
          else decimal_number (c :: l)
      | _, _ => decimal_number (c :: l)
      end
  end.

Example js_numbers :
  js_number "" = Fin 0 ∧ js_number " 120 " = num_of_Z 120 ∧ js_number "1.5" = Fin (3 # 2) ∧ js_number "2e3" = num_of_Z 2000 ∧
  js_number "0x10" = num_of_Z 16 ∧ js_number "Wed, 21 Oct" = NaN ∧ js_number "." = NaN ∧ js_number "-Infinity" = NegInf.
Proof. vm_compute. done. Qed.

(** ** Dates

    [new Date(ms).toISOString()], by the civil calendar. *)

Definition pad_left (n : nat) (s : string) : string := zeros (Z.of_nat n - Z.of_nat (String.length s)) +:+ s.

(** Days since 1970-01-01 as year, month and day: eras of 400 years that begin in March. *)
Definition civil_of_days (days : Z) : Z * Z * Z :=
  let z := days + 719468 in
  let era := z / 146097 in
  let doe := z mod 146097 in
  let yoe := (doe - doe / 1460 + doe / 36524 - doe / 146096) / 365 in
  let doy := doe - (365 * yoe + yoe / 4 - yoe / 100) in
  let mp := (5 * doy + 2) / 153 in
  let m := if mp <? 10 then mp + 3 else mp - 9 in
  (yoe + era * 400 + (if m <=? 2 then 1 else 0), m, doy - (153 * mp + 2) / 5 + 1).

Definition year_text (y : Z) : string :=
  if (0 <=? y) && (y <=? 9999) then pad_left 4 (pretty y)
  else (if y <? 0 then "-" else "+") +:+ pad_left 6 (pretty (Z.abs y)).

Definition iso_string (ms : Z) : string :=
  let days := ms / 86400000 in let t := ms mod 86400000 in
  let '(y, m, d) := civil_of_days days in
  year_text y +:+ "-" +:+ pad_left 2 (pretty m) +:+ "-" +:+ pad_left 2 (pretty d) +:+ "T" +:+
  pad_left 2 (pretty (t / 3600000)) +:+ ":" +:+ pad_left 2 (pretty (t / 60000 mod 60)) +:+ ":" +:+
  pad_left 2 (pretty (t / 1000 mod 60)) +:+ "." +:+ pad_left 3 (pretty (t mod 1000)) +:+ "Z".

Example iso_strings :
  iso_string 0 = "1970-01-01T00:00:00.000Z" ∧ iso_string 951782400000 = "2000-02-29T00:00:00.000Z" ∧
  iso_string 1753920123456 = "2025-07-31T00:02:03.456Z" ∧ iso_string (-1) = "1969-12-31T23:59:59.999Z".
Proof. vm_compute. done. Qed.

(** ** A [Map]: entries in insertion order, each key once *)

Section maps.
Context {K : Type} `{EqDecision K} {A : Type}.
Implicit Types (k : K) (m : list (K * A)).

Definition map_get k m : option A := snd <$> head (filter (λ e : K * A, e.1 = k) m).
Definition map_set k (v : A) m : list (K * A) :=
  if bool_decide (k ∈ m.*1) then (λ e : K * A, if e.1 === k then (k, v) else e) <$> m else m ++ [(k, v)].
(** [new Map(entries)] *)
Definition map_of (l : list (K * A)) : list (K * A) := foldl (λ m e, map_set e.1 e.2 m) [] l.

Lemma map_get_elem k m v : map_get k m = Some v → (k, v) ∈ m.
Proof.
  unfold map_get. intros ([k' v'] & H & ->)%fmap_Some.
  apply head_Some_elem_of, list_elem_of_filter in H as [Hk Hin]. simpl in Hk. by subst.
Qed.

Lemma map_get_none k m : map_get k m = None → k ∉ m.*1.
Proof.
  unfold map_get. intros H ([k' v] & -> & Hin)%list_elem_of_fmap. apply fmap_None, head_None in H.
  assert ((k', v) ∈ filter (λ e : K * A, e.1 = k') m) as Hf by (by apply list_elem_of_filter). simpl in *. rewrite H in Hf. by apply elem_of_nil in Hf.
Qed.

Lemma Forall_map_set (P : K * A → Prop) k v m : P (k, v) → Forall P m → Forall P (map_set k v m).
Proof.
  intros Hkv Hm. unfold map_set. destruct (bool_decide _); [|by apply Forall_app_2; [|constructor]].
  apply Forall_fmap. eapply Forall_impl; [done|]. intros e He. simpl. by destruct (bool_decide _).
Qed.

Lemma map_set_keys k v m : (map_set k v m).*1 = if bool_decide (k ∈ m.*1) then m.*1 else m.*1 ++ [k].
Proof.
  unfold map_set. destruct (bool_decide_reflect (k ∈ m.*1)); [|by rewrite fmap_app].
  rewrite <- list_fmap_compose. apply list_fmap_ext. intros i [k' v'] _. simpl. by destruct (bool_decide_reflect (k' = k)) as [->|].
Qed.

Lemma map_set_nodup k v m : NoDup m.*1 → NoDup (map_set k v m).*1.
Proof.
  rewrite map_set_keys. intros Hm. destruct (bool_decide_reflect (k ∈ m.*1)) as [|Hk]; [done|].
  apply NoDup_app. split; [done|]. split; [|apply NoDup_singleton]. by intros x Hx ->%list_elem_of_singleton.
Qed.

Lemma map_of_app l e : map_of (l ++ [e]) = map_set e.1 e.2 (map_of l).
Proof. unfold map_of. by rewrite foldl_app. Qed.

Lemma map_of_nodup l : NoDup (map_of l).*1.
Proof. induction l as [|e l IH] using rev_ind; [constructor|]. rewrite map_of_app. by apply map_set_nodup. Qed.

Lemma elem_of_map_of_keys k l : k ∈ (map_of l).*1 ↔ k ∈ l.*1.
Proof.
  induction l as [|e l IH] using rev_ind; [done|]. rewrite map_of_app, map_set_keys, fmap_app, elem_of_app, <- IH.
  destruct (bool_decide_reflect (e.1 ∈ (map_of l).*1)); set_solver.
Qed.

Lemma map_of_sound e l : e ∈ map_of l → e ∈ l.
Proof.
  revert e. induction l as [|e' l IH] using rev_ind; [done|]. intros e. rewrite map_of_app, elem_of_app.
  intros He. assert (Forall (λ x, x ∈ l ∨ x ∈ [e']) (map_set e'.1 e'.2 (map_of l))) as Hall.
  { apply Forall_map_set; [right; destruct e'; left|]. apply Forall_forall. intros x Hx. left. by apply IH. }
  rewrite Forall_forall in Hall. by apply Hall.
Qed.

(** Without repeated keys the map is the list. *)
Lemma map_of_id l : NoDup l.*1 → map_of l = l.
Proof.
  induction l as [|e l IH] using rev_ind; [done|]. rewrite fmap_app, NoDup_app. intros (Hl & Hne & _).
  rewrite map_of_app, IH by done. unfold map_set. rewrite bool_decide_eq_false_2; [by destruct e|].
  intros Hin. apply (Hne _ Hin). left.
Qed.
End maps.
