(* ===== verification/HostLabels.v ===== *)
(** Host labels and Profile pins (packages/backend/convex/hostLabels.ts), scale-set label
    conflicts (scaleSetLabels.ts), and the repository allowlist of the webhook path (policy.ts). *)

From S2P Require Import Prelude JsLib Schema.

(** ** hostLabels.ts *)

Definition label_head (c : ascii) : bool := is_lower_alpha c || is_digit c.
Definition label_tail (c : ascii) : bool :=
  label_head c || Ascii.eqb c "." || Ascii.eqb c "_" || Ascii.eqb c "-".

(** [/^[a-z0-9][a-z0-9._-]{0,62}$/] *)
Definition HOST_LABEL (s : string) : bool :=
  match String.list_ascii_of_string s with
  | [] => false
  | c :: l => label_head c && forallb label_tail l && Nat.leb (length l) 62
  end.

Definition MAX_HOST_LABELS : nat := 16.

Inductive labels_result :=
  | LabelsOk (labels : list string)
  | LabelsError (error : string).

Definition host_label_error (value : string) : string :=
  json_string value +:+ " is not a host label: lowercase letters, digits, '.', '_' and '-', starting with a letter or digit, at most 63 characters".

(** The loop of [normalizeHostLabels]: [acc] is the [Set] built so far, in insertion order. *)
Fixpoint collect_labels (acc raw : list string) : labels_result :=
  match raw with
  | [] =>
      if Nat.ltb MAX_HOST_LABELS (length acc) then LabelsError "at most 16 host labels"
      else LabelsOk (to_sorted str_cmp acc)
  | value :: raw =>
      let label := to_lower (trim value) in
      if HOST_LABEL label then
        collect_labels (if bool_decide (label ∈ acc) then acc else acc ++ [label]) raw
      else LabelsError (host_label_error value)
  end.

Definition normalizeHostLabels (raw : list string) : labels_result := collect_labels [] raw.

Definition missingHostLabels (required carried : option (list string)) : list string :=
  match required with
  | None | Some [] => []
  | Some req =>
      let have := (λ l, to_lower (trim l)) <$> or_else [] carried in
      filter (λ l, to_lower l ∉ have) req
  end.

Definition carriesHostLabels (required carried : option (list string)) : bool :=
  Nat.eqb (length (missingHostLabels required carried)) 0.

Definition missingHostLabelsDetail (missing : list string) : string :=
  "this Worker lacks the " +:+
  (if Nat.eqb (length missing) 1 then "host label" else "host labels") +:+
  " " +:+ str_join ", " missing +:+ " the Profile is pinned to".

Definition pinDetail (required carried : option (list string)) : option string :=
  match missingHostLabels required carried with
  | [] => None
  | missing => Some (missingHostLabelsDetail missing)
  end.

(** ** scaleSetLabels.ts *)

Record scale_set_profile := ScaleSetProfile {
  ss_name : string;
  ss_scaleSetName : string;
  ss_labels : option (list string);
}.

Definition scaleSetLabels (p : scale_set_profile) : list string :=
  to_lower <$>
  match ss_labels p with
  | Some (l :: ls) => l :: ls
  | _ => [ss_scaleSetName p]
  end.

Definition scaleSetConflict (p other : scale_set_profile) : option string :=
  if ss_name other === ss_name p then None
  else
    let mine := scaleSetLabels p in
    match filter (λ l, l = to_lower (ss_scaleSetName other) ∨ l = to_lower (ss_name other)) mine with
    | taken :: _ =>
        Some ("scale-set label " +:+ taken +:+ " is Profile " +:+ ss_name other +:+
              "'s name; its jobs could run on this Profile instead (ADR 0017)")
    | [] =>
        let theirs := scaleSetLabels other in
        if bool_decide (to_lower (ss_scaleSetName p) ∈ theirs)
           || bool_decide (to_lower (ss_name p) ∈ theirs)
        then Some ("Profile " +:+ ss_name other +:+ "'s scale set also answers to " +:+
                   ss_name p +:+ "; this Profile's jobs could run there instead (ADR 0017)")
        else None
    end.

Record label_conflict := LabelConflict { lc_profile : string; lc_other : string; lc_reason : string }.

Definition conflictsOf (p : scale_set_profile) (ps : list scale_set_profile) : list label_conflict :=
  omap (λ other, LabelConflict (ss_name p) (ss_name other) <$> scaleSetConflict p other) ps.

(** ** policy.ts *)

Record repository_policy := RepositoryPolicy {
  rp_allowedRepos : list string;
  rp_allowPublicRepos : bool;
}.

Inductive repository_decision := RepoAllowed | RepoDenied (reason : string).

Definition splitList (value : option string) : list string :=
  match value with
  | None => []
  | Some v => filter (λ e, e ≠ "") (trim <$> str_split "," v)
  end.

Definition isTruthyFlag (value : option string) : bool :=
  match value with
  | None => false
  | Some v => let n := to_lower (trim v) in (n === "1") || (n === "true") || (n === "yes")
  end.

Definition parseRepositoryPolicy (ALLOWED_REPOS ALLOW_PUBLIC_REPOS : option string) : repository_policy :=
  RepositoryPolicy (to_lower <$> splitList ALLOWED_REPOS) (isTruthyFlag ALLOW_PUBLIC_REPOS).

Definition matchesPattern (repo pattern : string) : bool :=
  if pattern === "*" then true
  else if pattern === repo then true
  else if ends_with "/*" pattern then
    let owner := slice0 (String.length pattern - 2) pattern in
    negb (owner === "") && starts_with (owner +:+ "/") repo
  else false.

Definition decideRepository (repo : string) (repoIsPublic : bool) (policy : repository_policy)
    : repository_decision :=
  let normalized := to_lower (trim repo) in
  if normalized === "" then RepoDenied "Webhook payload carried no repository name"
  else match rp_allowedRepos policy with
  | [] => RepoDenied ("ALLOWED_REPOS is not configured, so no repository may use this fleet. " +:+
            "Set it to a comma-separated list of owner/name entries (owner/* and * are supported).")
  | allowed =>
      if existsb (matchesPattern normalized) allowed then
        if repoIsPublic && negb (rp_allowPublicRepos policy) then
          RepoDenied ("Repository " +:+ repo +:+ " is public and ALLOW_PUBLIC_REPOS is not enabled. " +:+
            "Forks of a public repository can run untrusted code on your runner hosts.")
        else RepoAllowed
      else RepoDenied ("Repository " +:+ repo +:+ " is not in ALLOWED_REPOS")
  end.


(** ** Host labels: canonical form *)

Lemma label_tail_inert c : label_tail c = true → is_space c = false ∧ lower_char c = c.
Proof. destruct c as [[] [] [] [] [] [] [] []]; vm_compute; intuition congruence. Qed.

Lemma label_head_tail c : label_head c = true → label_tail c = true.
Proof. unfold label_tail. by intros ->. Qed.

Lemma HOST_LABEL_chars s :
  HOST_LABEL s = true → Forall (λ c, label_tail c = true) (String.list_ascii_of_string s).
Proof.
  unfold HOST_LABEL. destruct (String.list_ascii_of_string s) as [|c l]; [done|].
  rewrite !andb_true_iff. intros [[Hc Hl] _]. constructor; [by apply label_head_tail|].
  apply Forall_forall. intros x Hx. rewrite forallb_forall in Hl. by apply Hl, list_elem_of_In.
Qed.

Lemma HOST_LABEL_lower s : HOST_LABEL s = true → to_lower s = s.
Proof.
  intros H%HOST_LABEL_chars. apply to_lower_id. eapply Forall_impl; [exact H|].
  intros c Hc. by apply label_tail_inert.
Qed.

(** A host label is its own normal form. *)
Lemma HOST_LABEL_normal s : HOST_LABEL s = true → to_lower (trim s) = s.
Proof.
  intros H. rewrite trim_id; [by apply HOST_LABEL_lower|].
  eapply Forall_impl; [by apply HOST_LABEL_chars|]. intros c Hc. by apply label_tail_inert.
Qed.

Section collect.
Implicit Types (acc raw ls : list string).

Lemma collect_labels_ok acc raw ls :
  NoDup acc → collect_labels acc raw = LabelsOk ls →
  ∃ acc', ls = to_sorted str_cmp acc' ∧ NoDup acc' ∧ (length acc' ≤ MAX_HOST_LABELS)%nat ∧
    (∀ l, l ∈ acc' ↔ l ∈ acc ∨ ∃ v, v ∈ raw ∧ l = to_lower (trim v)) ∧
    (∀ v, v ∈ raw → HOST_LABEL (to_lower (trim v)) = true).
Proof.
  revert acc. induction raw as [|v raw IH]; intros acc Hnd; simpl.
  - destruct (Nat.ltb_spec MAX_HOST_LABELS (length acc)); [done|]. intros [= <-].
    exists acc. split_and!; [done..| |by intros ? ?%elem_of_nil].
    intros l. split; [by left|]. by intros [?|(? & ?%elem_of_nil & _)].
  - destruct (HOST_LABEL (to_lower (trim v))) eqn:Hv; [|done]. intros H.
    apply IH in H as (acc' & -> & Hnd' & Hlen & Hin & Hall).
    + exists acc'. split_and!; [done..| |].
      * intros l. rewrite Hin. case_bool_decide as Hacc.
        -- setoid_rewrite elem_of_cons. naive_solver.
        -- rewrite elem_of_app, list_elem_of_singleton. setoid_rewrite elem_of_cons. naive_solver.
      * intros w [->|?]%elem_of_cons; auto.
    + case_bool_decide as Hacc; [done|]. apply NoDup_app. split_and!; [done| |apply NoDup_singleton].
      by intros x Hx ->%list_elem_of_singleton.
Qed.

Lemma collect_labels_canonical acc raw :
  NoDup (acc ++ raw) → Forall (λ l, HOST_LABEL l = true) raw →
  (length (acc ++ raw) ≤ MAX_HOST_LABELS)%nat →
  collect_labels acc raw = LabelsOk (to_sorted str_cmp (acc ++ raw)).
Proof.
  revert acc. induction raw as [|v raw IH]; intros acc Hnd Hall Hlen; simpl.
  - rewrite app_nil_r in *. by rewrite (proj2 (Nat.ltb_ge _ _)).
  - apply Forall_cons in Hall as [Hv Hall]. rewrite HOST_LABEL_normal, Hv by done.
    rewrite bool_decide_false.
    + rewrite IH; rewrite <- ?app_assoc; done.
    + apply NoDup_app in Hnd as (_ & Hnd & _). intros Hin. by apply (Hnd v Hin); left.
Qed.
End collect.

(** What an accepted list of host labels is: the labels asked for, normalised, each a host
    label, without duplicates, in order, at most 16. *)
Lemma normalizeHostLabels_spec raw ls :
  normalizeHostLabels raw = LabelsOk ls →
  Forall (λ l, HOST_LABEL l = true) ls ∧ NoDup ls ∧
  StronglySorted (λ a b, str_cmp a b ≤ 0) ls ∧ (length ls ≤ MAX_HOST_LABELS)%nat ∧
  (∀ l, l ∈ ls ↔ ∃ v, v ∈ raw ∧ l = to_lower (trim v)).
Proof.
  intros H. apply collect_labels_ok in H as (acc & -> & Hnd & Hlen & Hin & Hall); [|constructor].
  assert (∀ l, l ∈ acc ↔ ∃ v, v ∈ raw ∧ l = to_lower (trim v)) as Hin'.
  { intros l. rewrite Hin. split; [|by right]. by intros [?%elem_of_nil|?]. }
  split_and!.
  - apply Forall_forall. intros l. rewrite elem_of_to_sorted, Hin'. intros (v & ? & ->). auto.
  - by rewrite to_sorted_perm.
  - apply str_sorted.
  - by rewrite length_to_sorted.
  - intros l. by rewrite elem_of_to_sorted.
Qed.

(** An accepted list of host labels holds exactly the labels asked for, trimmed and
    lowercased; each is a host label, none is repeated, they are in order and at most 16; and
    normalising the stored list again gives the same list. *)
Theorem normalizeHostLabels_canonical raw ls :
  normalizeHostLabels raw = LabelsOk ls →
  Forall (λ l, HOST_LABEL l = true) ls ∧ NoDup ls ∧ (length ls ≤ MAX_HOST_LABELS)%nat ∧
  StronglySorted (λ a b, str_cmp a b ≤ 0) ls ∧
  (∀ l, l ∈ ls ↔ ∃ v, v ∈ raw ∧ l = to_lower (trim v)) ∧
  normalizeHostLabels ls = LabelsOk ls.
Proof.
  intros (Hall & Hnd & Hs & Hlen & Hin)%normalizeHostLabels_spec. split_and!; [done..|].
  unfold normalizeHostLabels. rewrite collect_labels_canonical by done. simpl. by rewrite to_sorted_id.
Qed.

Lemma normalizeHostLabels_canonical_witness :
  normalizeHostLabels [" GPU"; "a100"; "gpu "] = LabelsOk ["a100"; "gpu"] ∧
  normalizeHostLabels ["a100"; "gpu"] = LabelsOk ["a100"; "gpu"].
Proof.
  split; [vm_compute; reflexivity|].
  apply (normalizeHostLabels_canonical [" GPU"; "a100"; "gpu "]). vm_compute. reflexivity.
Defined.

Lemma carriesHostLabels_spec req carried :
  carriesHostLabels (Some req) (Some carried) = true ↔
  ∀ l, l ∈ req → ∃ c, c ∈ carried ∧ to_lower (trim c) = to_lower l.
Proof.
  unfold carriesHostLabels. rewrite Nat.eqb_eq, length_zero_iff_nil.
  transitivity (∀ l, l ∈ req → to_lower l ∈ (λ l, to_lower (trim l)) <$> carried).
  - destruct req as [|r req']; [by split; [intros _ ? ?%elem_of_nil|]|].
    change (filter (λ l, to_lower l ∉ (λ l, to_lower (trim l)) <$> carried) (r :: req') = [] ↔
      ∀ l, l ∈ r :: req' → to_lower l ∈ (λ l, to_lower (trim l)) <$> carried).
    rewrite filter_nil_iff. split; intros H l Hl; [by apply dec_stable, H|]. intros Hn. by apply Hn, H.
  - setoid_rewrite list_elem_of_fmap. naive_solver.
Qed.

(** A Profile's pin as stored ([req] is an accepted list): a Worker may serve it exactly when it
    carries every label of the pin. *)
Lemma carriesHostLabels_pin raw req carried :
  normalizeHostLabels raw = LabelsOk req →
  carriesHostLabels (Some req) (Some carried) = true ↔
  ∀ l, l ∈ req → ∃ c, c ∈ carried ∧ to_lower (trim c) = l.
Proof.
  intros (Hall & _)%normalizeHostLabels_spec. rewrite carriesHostLabels_spec.
  rewrite Forall_forall in Hall.
  assert (∀ l, l ∈ req → to_lower l = l) as Hlow.
  { intros l Hl. apply HOST_LABEL_lower, Hall, Hl. }
  split; intros H l Hl; destruct (H l Hl) as (c & ? & E); exists c; (split; [done|]);
    by rewrite E, ?Hlow.
Qed.

(** A Worker's carried labels satisfy a Profile's stored pin exactly when every label of
    the pin is among them up to case and surrounding space, and the detail shown for a Worker
    that may not serve the Profile exists exactly when it may not. *)
Theorem host_pin_satisfied raw req carried :
  normalizeHostLabels raw = LabelsOk req →
  (carriesHostLabels (Some req) (Some carried) = true ↔
   ∀ l, l ∈ req → ∃ c, c ∈ carried ∧ to_lower (trim c) = l) ∧
  (pinDetail (Some req) (Some carried) = None ↔ carriesHostLabels (Some req) (Some carried) = true).
Proof.
  intros H. split; [by eapply carriesHostLabels_pin|].
  unfold pinDetail, carriesHostLabels. by destruct (missingHostLabels _ _).
Qed.

Lemma host_pin_satisfied_witness :
  carriesHostLabels (Some ["a100"; "gpu"]) (Some ["GPU"; "linux"]) = false ∧
  (pinDetail (Some ["a100"; "gpu"]) (Some ["GPU"; "linux"; "A100 "]) = None ↔
   carriesHostLabels (Some ["a100"; "gpu"]) (Some ["GPU"; "linux"; "A100 "]) = true).
Proof.
  split; [vm_compute; reflexivity|].
  apply (host_pin_satisfied ["gpu"; "A100"]). vm_compute. reflexivity.
Defined.

(** ** Scale-set labels *)

Definition answers_to (p : scale_set_profile) (l : string) : bool := bool_decide (l ∈ scaleSetLabels p).

Lemma scaleSetConflict_None p o :
  scaleSetConflict p o = None ↔
  ss_name o = ss_name p ∨
  (answers_to p (to_lower (ss_scaleSetName o)) = false ∧ answers_to p (to_lower (ss_name o)) = false ∧
   answers_to o (to_lower (ss_scaleSetName p)) = false ∧ answers_to o (to_lower (ss_name p)) = false).
Proof.
  unfold scaleSetConflict, answers_to. rewrite !bool_decide_eq_false.
  case_bool_decide as Hn; [by split; [left|]|].
  destruct (filter _ _) as [|x l] eqn:E.
  - rewrite filter_nil_iff in E.
    destruct (bool_decide_reflect (to_lower (ss_scaleSetName p) ∈ scaleSetLabels o));
    destruct (bool_decide_reflect (to_lower (ss_name p) ∈ scaleSetLabels o)); simpl;
      try (split; [done|naive_solver]).
    split; [|done]. intros _. right. split_and!; try done; intros Hin; eapply E; eauto.
  - assert (x ∈ filter (λ l, l = to_lower (ss_scaleSetName o) ∨ l = to_lower (ss_name o))
      (scaleSetLabels p)) as [Hx Hin]%list_elem_of_filter by (rewrite E; left).
    split; [done|]. intros [?|(? & ? & _)]; [done|]. by destruct Hx as [-> | ->].
Qed.

(** The label conflict check is symmetric, so it does not matter which of two Profiles is
    edited second; and a Profile without a conflict answers to no name of another Profile,
    nor the other to its names, so GitHub cannot route one's jobs to the other. *)
Theorem scaleSetConflict_symmetric p o :
  (scaleSetConflict p o = None ↔ scaleSetConflict o p = None) ∧
  (ss_name o ≠ ss_name p → scaleSetConflict p o = None →
   to_lower (ss_scaleSetName o) ∉ scaleSetLabels p ∧ to_lower (ss_name o) ∉ scaleSetLabels p ∧
   to_lower (ss_scaleSetName p) ∉ scaleSetLabels o ∧ to_lower (ss_name p) ∉ scaleSetLabels o).
Proof.
  rewrite !scaleSetConflict_None. unfold answers_to. rewrite !bool_decide_eq_false. naive_solver.
Qed.

Example scaleSetConflict_reserved_name :
  is_some (scaleSetConflict (ScaleSetProfile "a" "era-a" (Some ["Era-B"; "gpu"])) (ScaleSetProfile "b" "era-b" None)) = true ∧
  scaleSetConflict (ScaleSetProfile "a" "era-a" (Some ["gpu"])) (ScaleSetProfile "b" "era-b" (Some ["gpu"])) = None.
Proof. vm_compute. done. Qed.

(** ** The repository allowlist *)

Lemma substring_app_l a b : String.substring 0 (String.length a) (a +:+ b) = a.
Proof.
  induction a as [|c a IH]; simpl; [by destruct b|]. f_equal. exact IH.
Qed.

Lemma substring_full b : String.substring 0 (String.length b) b = b.
Proof. induction b as [|c b IH]; simpl; [done|]. by f_equal. Qed.

Lemma substring_app_r a b : String.substring (String.length a) (String.length b) (a +:+ b) = b.
Proof. induction a as [|c a IH]; [apply substring_full|exact IH]. Qed.

Lemma str_length_app a b : String.length (a +:+ b) = (String.length a + String.length b)%nat.
Proof. induction a as [|c a IH]; simpl; [done|]. by rewrite <- IH. Qed.

(** An [owner/*] entry matches exactly the repositories of that owner: [acme/*] does not
    match [acme-labs/x]. *)
Lemma matchesPattern_owner owner repo :
  owner ≠ "" →
  matchesPattern repo (owner +:+ "/*") = true ↔
  repo = owner +:+ "/*" ∨ starts_with (owner +:+ "/") repo = true.
Proof.
  intros Ho. unfold matchesPattern.
  rewrite bool_decide_false by (destruct owner as [|c [|]]; done).
  case_bool_decide as He; [by subst; split; [left|]|].
  unfold ends_with, slice0. rewrite str_length_app.
  replace (String.length owner + String.length "/*" - String.length "/*")%nat
    with (String.length owner) by lia.
  replace (String.length owner + String.length "/*" - 2)%nat
    with (String.length owner) by (simpl; lia).
  rewrite substring_app_r, substring_app_l, (proj2 (Nat.leb_le _ _)), String.eqb_refl by lia.
  simpl. rewrite bool_decide_false by done. simpl. split; [by right|]. intros [->|?]; done.
Qed.

(** A repository is allowed to use the fleet exactly when it has a name, some entry of
    ALLOWED_REPOS matches it, and it is not public unless ALLOW_PUBLIC_REPOS is set: an empty
    allowlist denies everything.  An [owner/*] entry matches that owner's repositories only. *)
Theorem decideRepository_allowed_iff repo isPublic policy :
  (decideRepository repo isPublic policy = RepoAllowed ↔
   to_lower (trim repo) ≠ "" ∧
   (∃ p, p ∈ rp_allowedRepos policy ∧ matchesPattern (to_lower (trim repo)) p = true) ∧
   (isPublic = true → rp_allowPublicRepos policy = true)) ∧
  (∀ owner name, owner ≠ "" →
   matchesPattern name (owner +:+ "/*") = true ↔
   name = owner +:+ "/*" ∨ starts_with (owner +:+ "/") name = true).
Proof.
  split; [|intros; by apply matchesPattern_owner].
  unfold decideRepository. case_bool_decide as Hn; [naive_solver|].
  destruct (rp_allowedRepos policy) as [|p0 ps] eqn:E.
  { split; [done|]. by intros (_ & (p & ?%elem_of_nil & _) & _). }
  rewrite <- E. rewrite <- existsb_elem. clear E.
  destruct (existsb _ _); [|naive_solver].
  destruct isPublic, (rp_allowPublicRepos policy); simpl; naive_solver.
Qed.

(** The environment as an operator sets it. *)
Example policy_from_env :
  let p := parseRepositoryPolicy (Some " Acme/*, other/Tool ,") (Some "no") in
  decideRepository "acme/api" false p = RepoAllowed ∧
  decideRepository "ACME/api " false p = RepoAllowed ∧
  decideRepository "acme-labs/api" false p = RepoDenied "Repository acme-labs/api is not in ALLOWED_REPOS" ∧
  decideRepository "other/tool" false p = RepoAllowed ∧
  decideRepository "other/tool" true p ≠ RepoAllowed ∧
  decideRepository "acme/api" false (parseRepositoryPolicy None None) ≠ RepoAllowed.
Proof. vm_compute. by split_and!. Qed.
