(* ===== verification/Egress.v ===== *)
(** A Profile's egress policy (packages/backend/convex/egress.ts): parsing and normalising it,
    the evidence a Worker must report before it may serve the Profile, and the bounds on the
    egress record of an Attempt. *)

From S2P Require Import Prelude JsLib Schema HostLabels.

Definition PUBLIC_EGRESS : profile_egress := ProfileEgress EgressPublic [] [] [].
Definition MAX_EGRESS_DOMAINS : nat := 256.
Definition MAX_EGRESS_CIDRS : nat := 256.

(** ** IPv4 destinations *)

(** [/^(0|[1-9][0-9]{0,k})$/] *)
Definition decimal_part (k : nat) (s : string) : bool :=
  match String.list_ascii_of_string s with
  | [] => false
  | c :: l =>
      forallb is_digit (c :: l) && Nat.leb (length l) k &&
      (Nat.eqb (length l) 0 || negb (Ascii.eqb c "0"))
  end.

(** [Number(s)] of a string of decimal digits *)
Definition digits_value (s : string) : Z :=
  fold_left (λ acc c, acc * 10 + (ch c - 48)) (String.list_ascii_of_string s) 0.

(** The loop of [parseIPv4] over the four parts. *)
Fixpoint parse_octets (value : Z) (parts : list string) : option Z :=
  match parts with
  | [] => Some value
  | part :: parts =>
      if decimal_part 2 part then
        let octet := digits_value part in
        if 255 <? octet then None else parse_octets (value * 256 + octet) parts
      else None
  end.

Definition parseIPv4 (text : string) : option Z :=
  let parts := str_split "." text in
  if Nat.eqb (length parts) 4 then parse_octets 0 parts else None.

(** [String(n)] of a non-negative integer *)
Definition show_int (z : Z) : string := pretty (Z.to_N z).

Definition formatIPv4 (value : Z) : string :=
  str_join "." ((λ shift, show_int ((value / 2 ^ shift) mod 256)) <$> [24; 16; 8; 0]).

Definition normalizeIPv4Destination (text : string) : option string :=
  match str_split "/" text with
  | [address] => parsed ← parseIPv4 address; Some (formatIPv4 parsed +:+ "/32")
  | [address; len] =>
      parsed ← parseIPv4 address;
      if decimal_part 1 len then
        let bits := digits_value len in
        if 32 <? bits then None
        else
          let size := 2 ^ (32 - bits) in
          Some (formatIPv4 (parsed / size * size) +:+ "/" +:+ show_int bits)
      else None
  | _ => None
  end.

(** ** Domains *)

Definition domain_edge (c : ascii) : bool := is_lower_alpha c || is_digit c || Ascii.eqb c "_".
Definition domain_char (c : ascii) : bool := domain_edge c || Ascii.eqb c "-".

(** [/^[a-z0-9_]([a-z0-9_-]{0,61}[a-z0-9_])?$/] *)
Definition DOMAIN_LABEL (s : string) : bool :=
  let l := String.list_ascii_of_string s in
  match head l, last l with
  | Some first, Some final =>
      domain_edge first && domain_edge final && forallb domain_char l && Nat.leb (length l) 63
  | _, _ => false
  end.

(** [s.replace(/\.$/, "")] *)
Definition drop_final_dot (s : string) : string :=
  if ends_with "." s then slice0 (String.length s - 1) s else s.

Definition normalizeDomain (domain : string) : string := drop_final_dot (to_lower (trim domain)).

Definition domainProblem (domain : string) : option string :=
  let name := if starts_with "*." domain then slice_from 2 domain else domain in
  if str_has "*" name then Some (domain +:+ ": a wildcard is allowed only as the whole first label")
  else if Nat.ltb 253 (String.length name) then Some (domain +:+ " is longer than 253 characters")
  else
    let labels := str_split "." name in
    if Nat.ltb (length labels) 2 then Some (domain +:+ " must have at least two labels")
    else if existsb (λ l, negb (DOMAIN_LABEL l)) labels then Some (domain +:+ " has an invalid label")
    else if is_some (parseIPv4 name) then Some (domain +:+ " is an address; list it as a CIDR")
    else None.

(** ** The policy payload *)

#[local] Set Warnings "-register-all".

(** A parsed JSON value; the members of an object have distinct keys. *)
Inductive json :=
  | JNull
  | JBool (b : bool)
  | JNum (n : num)
  | JStr (s : string)
  | JArr (l : list json)
  | JObj (fields : list (string * json)).

Definition json_field (key : string) (fields : list (string * json)) : option json :=
  snd <$> head (filter (λ f, f.1 = key) fields).

(** The strings of an array of strings. *)
Fixpoint json_strings (l : list json) : option (list string) :=
  match l with
  | [] => Some []
  | JStr s :: l => cons s <$> json_strings l
  | _ :: _ => None
  end.

(** [lists[key]] after the loop over the list fields; [None] is the refusal. *)
Definition list_field (key : string) (fields : list (string * json)) : option (list string) :=
  match json_field key fields with
  | None | Some JNull => Some []
  | Some (JArr l) => match json_strings l with
      | Some ss => Some (filter (λ e, e ≠ "") (trim <$> ss))
      | None => None
      end
  | Some _ => None
  end.

Definition sortedUnique (values : list string) : list string := to_sorted str_cmp (set_of values).

Inductive egress_result :=
  | EgressOk (egress : profile_egress)
  | EgressError (error : string).

Definition mode_name (m : egress_mode) : string :=
  match m with EgressPublic => "public" | EgressAudit => "audit" | EgressAllowlist => "allowlist" end.

Definition mode_of_name (s : string) : option egress_mode :=
  if s === "public" then Some EgressPublic
  else if s === "audit" then Some EgressAudit
  else if s === "allowlist" then Some EgressAllowlist
  else None.

(** The loop that normalises the CIDRs, reporting the first that is not one. *)
Fixpoint normalize_cidrs (cidrs : list string) : list string + string :=
  match cidrs with
  | [] => inl []
  | cidr :: cidrs =>
      match normalizeIPv4Destination cidr with
      | None => inr cidr
      | Some n =>
          match normalize_cidrs cidrs with inl ns => inl (n :: ns) | inr bad => inr bad end
      end
  end.

(** [parseProfileEgress] after the lists and the mode were read. *)
Definition check_egress (mode : egress_mode) (rawPresets rawDomains rawCidrs : list string)
    : egress_result :=
  let presets := sortedUnique (to_lower <$> rawPresets) in
  let domains := sortedUnique (filter (λ d, d ≠ "") (normalizeDomain <$> rawDomains)) in
  match normalize_cidrs rawCidrs with
  | inr cidr => EgressError (cidr +:+ " must be an IPv4 address or CIDR; guests have no IPv6 egress")
  | inl cidrs =>
      let uniqueCidrs := sortedUnique cidrs in
      let allowed := (length presets + length domains + length uniqueCidrs)%nat in
      if (mode === EgressPublic) && Nat.ltb 0 allowed then
        EgressError "public egress takes no allowlist; use audit or allowlist mode"
      else match filter (λ p, p ≠ "github") presets with
      | preset :: _ => EgressError ("unknown egress preset " +:+ preset)
      | [] =>
          if Nat.ltb MAX_EGRESS_DOMAINS (length domains) then
            EgressError "an egress allowlist holds at most 256 domains"
          else if Nat.ltb MAX_EGRESS_CIDRS (length uniqueCidrs) then
            EgressError "an egress allowlist holds at most 256 CIDRs"
          else match omap domainProblem domains with
          | problem :: _ => EgressError ("allowed domain " +:+ problem)
          | [] =>
              if (mode === EgressAllowlist) && Nat.eqb allowed 0 then
                EgressError "allowlist egress with nothing allowed denies GitHub itself; add the github preset"
              else EgressOk (ProfileEgress mode presets domains uniqueCidrs)
          end
      end
  end.

Definition egress_fields : list string := ["mode"; "presets"; "domains"; "cidrs"].

Definition parseProfileEgress (payload : option json) : egress_result :=
  match payload with
  | None | Some JNull => EgressOk PUBLIC_EGRESS
  | Some (JObj fields) =>
      match filter (λ f, f.1 ∉ egress_fields) fields with
      | f :: _ => EgressError ("egress has an unknown field " +:+ f.1)
      | [] =>
          match list_field "presets" fields with
          | None => EgressError "egress.presets must be a list of strings"
          | Some presets =>
          match list_field "domains" fields with
          | None => EgressError "egress.domains must be a list of strings"
          | Some domains =>
          match list_field "cidrs" fields with
          | None => EgressError "egress.cidrs must be a list of strings"
          | Some cidrs =>
              let rawMode := or_else (JStr "public") (json_field "mode" fields) in
              match (match rawMode with JStr s => mode_of_name s | _ => None end) with
              | None => EgressError "egress.mode must be public, audit, or allowlist"
              | Some mode => check_egress mode presets domains cidrs
              end
          end end end
      end
  | Some _ => EgressError "egress must be an object"
  end.

(** ** Stored policies and Worker evidence *)

Definition profileEgressOf (p : profile) : profile_egress := or_else PUBLIC_EGRESS (pf_egress p).

(** A policy as evidence names it: its mode is any string. *)
Record egress_view := EgressView {
  vw_mode : string; vw_presets : list string; vw_domains : list string; vw_cidrs : list string;
}.

Definition view_of (e : profile_egress) : egress_view :=
  EgressView (mode_name (eg_mode e)) (eg_presets e) (eg_domains e) (eg_cidrs e).

Definition sameEgress (l r : egress_view) : bool :=
  (vw_mode l === vw_mode r) && same_list (vw_presets l) (vw_presets r) &&
  same_list (vw_domains l) (vw_domains r) && same_list (vw_cidrs l) (vw_cidrs r).

Definition EGRESS_RANK (m : egress_mode) : Z :=
  match m with EgressPublic => 0 | EgressAudit => 1 | EgressAllowlist => 2 end.

Definition egressRank (mode : string) : Z :=
  match mode_of_name mode with Some m => EGRESS_RANK m | None => -1 end.

(** [checks.find(c => c.name === name)?.passed === true] *)
Definition check_passed (name : string) (checks : option (list readiness_check)) : bool :=
  match head (filter (λ c, ck_name c = name) (or_else [] checks)) with
  | Some c => ck_passed c
  | None => false
  end.

Definition egressEvidenceError (profile : profile_egress) (evidence : option egress_evidence)
    (checks : option (list readiness_check)) : option string :=
  match evidence with
  | None =>
      if eg_mode profile === EgressPublic then None
      else Some ("network.egress is required for a " +:+ mode_name (eg_mode profile) +:+ " Profile")
  | Some ev =>
      let enforced := EgressView (ee_profileMode ev) (or_else [] (ee_presets ev))
        (or_else [] (ee_domains ev)) (or_else [] (ee_cidrs ev)) in
      if negb (sameEgress enforced (view_of profile)) then
        Some "network.egress does not match the Profile's current egress policy"
      else if egressRank (ee_mode ev) <? EGRESS_RANK (eg_mode profile) then
        Some ("network.egress.mode " +:+ ee_mode ev +:+ " is weaker than the Profile's " +:+
              mode_name (eg_mode profile))
      else if (eg_mode profile !== EgressPublic) && negb (check_passed "egress-policy" checks) then
        Some "the egress-policy check must pass"
      else None
  end.

(** ** The egress record of an Attempt *)

Definition MAX_RECORD_NAMES : nat := 256.
Definition MAX_RECORD_FLOWS : nat := 512.

Definition at_least_zero (n : num) : num := num_max (num_of_Z 0) (num_floor n).

Definition boundedEgressRecord (r : egress_record) : egress_record :=
  let names := or_else [] (er_names r) in
  let flows := or_else [] (er_flows r) in
  EgressRecord (er_mode r)
    (Some ((λ e, EgressName (slice0 253 (en_name e)) (en_verdict e) (at_least_zero (en_queries e)))
             <$> take MAX_RECORD_NAMES names))
    (Some ((λ e, EgressFlow (slice0 64 (ef_destination e)) (ef_protocol e)
                   (num_min (num_of_Z 65535) (at_least_zero (ef_port e)))
                   (slice0 253 <$> ef_name e) (ef_verdict e))
             <$> take MAX_RECORD_FLOWS flows))
    (Some (num_add (at_least_zero (or_else (num_of_Z 0) (er_omittedNames r)))
             (num_of_Z (Z.max 0 (Z.of_nat (length names) - Z.of_nat MAX_RECORD_NAMES)))))
    (Some (num_add (at_least_zero (or_else (num_of_Z 0) (er_omittedFlows r)))
             (num_of_Z (Z.max 0 (Z.of_nat (length flows) - Z.of_nat MAX_RECORD_FLOWS)))))
    (slice0 1000 <$> er_error r).

Definition deleteAttemptEgress (attemptId : Id) : tx db unit :=
  record ← db_unique attemptEgress (λ r, ae_attemptId r === attemptId);
  match record with
  | Some r => db_delete attemptEgress r.1
  | None => mret tt
  end.

(** ** Properties: IPv4 *)

Definition no_space (s : string) : bool := str_all (λ c, negb (is_space c)) s.

Definition prints_as (k : nat) (z : Z) : bool :=
  decimal_part k (show_int z) && (digits_value (show_int z) =? z) &&
  negb (str_has "." (show_int z)) && negb (str_has "/" (show_int z)) && no_space (show_int z).

Lemma prints_as_range k n z :
  forallb (prints_as k) (seqZ 0 n) = true → 0 ≤ z < n →
  decimal_part k (show_int z) = true ∧ digits_value (show_int z) = z ∧
  str_has "." (show_int z) = false ∧ str_has "/" (show_int z) = false ∧
  no_space (show_int z) = true.
Proof.
  rewrite forallb_elem. intros H Hz. specialize (H z). rewrite elem_of_seqZ in H.
  specialize (H ltac:(lia)). unfold prints_as in H.
  rewrite !andb_true_iff, !negb_true_iff, Z.eqb_eq in H. tauto.
Qed.

Lemma octet_printing o :
  0 ≤ o < 256 →
  decimal_part 2 (show_int o) = true ∧ digits_value (show_int o) = o ∧
  str_has "." (show_int o) = false ∧ str_has "/" (show_int o) = false ∧
  no_space (show_int o) = true.
Proof. apply prints_as_range. vm_compute. reflexivity. Qed.

Lemma prefix_printing b :
  0 ≤ b ≤ 32 →
  decimal_part 1 (show_int b) = true ∧ digits_value (show_int b) = b ∧
  str_has "." (show_int b) = false ∧ str_has "/" (show_int b) = false ∧
  no_space (show_int b) = true.
Proof. intros. apply prints_as_range with 33; [vm_compute; reflexivity|lia]. Qed.

Lemma byte_range v k : 0 ≤ (v / 2 ^ k) mod 256 < 256.
Proof. apply Z.mod_pos_bound. lia. Qed.

(** The four octets of a 32-bit value, recombined. *)
Lemma octets_recombine v :
  0 ≤ v < 2 ^ 32 →
  (((v / 2 ^ 24) mod 256 * 256 + (v / 2 ^ 16) mod 256) * 256 + (v / 2 ^ 8) mod 256) * 256 +
  (v / 2 ^ 0) mod 256 = v.
Proof. intros. rewrite Z.pow_0_r, Z.div_1_r. change (2 ^ 32) with 4294967296 in *.
  change (2 ^ 24) with 16777216. change (2 ^ 16) with 65536. change (2 ^ 8) with 256.
  Z.div_mod_to_equations. lia.
Qed.

Lemma parse_formatIPv4 v : 0 ≤ v < 2 ^ 32 → parseIPv4 (formatIPv4 v) = Some v.
Proof.
  intros Hv. unfold parseIPv4, formatIPv4.
  rewrite str_split_join; [|done|].
  - simpl length. simpl fmap. cbn [parse_octets Nat.eqb].
    destruct (octet_printing _ (byte_range v 24)) as (-> & -> & _).
    destruct (octet_printing _ (byte_range v 16)) as (-> & -> & _).
    destruct (octet_printing _ (byte_range v 8)) as (-> & -> & _).
    destruct (octet_printing _ (byte_range v 0)) as (-> & -> & _).
    rewrite !(proj2 (Z.ltb_ge _ _)) by (match goal with |- (?v / 2 ^ ?k) mod 256 ≤ _ =>
      pose proof (byte_range v k) end; lia).
    f_equal. rewrite Z.mul_0_l, Z.add_0_l. by apply octets_recombine.
  - apply Forall_fmap, Forall_forall. intros k _. apply (octet_printing _ (byte_range v k)).
Qed.

Lemma digits_value_nonneg k s : decimal_part k s = true → 0 ≤ digits_value s.
Proof.
  unfold digits_value, decimal_part.
  destruct (String.list_ascii_of_string s) as [|c l]; [done|].
  rewrite !andb_true_iff, forallb_elem. intros [[Hp _] _].
  revert Hp. generalize (c :: l) as cs. intros cs Hcs.
  assert (∀ a, 0 ≤ a → 0 ≤ fold_left (λ acc c, acc * 10 + (ch c - 48)) cs a) as H; [|by apply H].
  induction cs as [|d cs IHc]; intros a Ha; simpl; [done|]. apply IHc.
  - intros x Hx. apply Hcs. by right.
  - assert (is_digit d = true) as Hd by (apply Hcs; left). unfold is_digit in Hd. lia.
Qed.

Lemma parse_octets_range v parts r :
  0 ≤ v → parse_octets v parts = Some r →
  v * 256 ^ Z.of_nat (length parts) ≤ r < (v + 1) * 256 ^ Z.of_nat (length parts).
Proof.
  revert v. induction parts as [|p parts IH]; intros v Hv; simpl.
  - intros [= <-]. lia.
  - destruct (decimal_part 2 p) eqn:Hp; [|done]. destruct (Z.ltb_spec 255 (digits_value p)); [done|].
    pose proof (digits_value_nonneg 2 p Hp).
    intros Hr. apply IH in Hr; [|lia].
    rewrite Nat2Z.inj_succ, Z.pow_succ_r by lia.
    assert (0 < 256 ^ Z.of_nat (length parts)) by (apply Z.pow_pos_nonneg; lia). nia.
Qed.

Lemma parseIPv4_range text v : parseIPv4 text = Some v → 0 ≤ v < 2 ^ 32.
Proof.
  unfold parseIPv4. destruct (Nat.eqb_spec (length (str_split "." text)) 4) as [E|]; [|done].
  intros H%parse_octets_range; [|lia]. rewrite E in H. simpl in H. lia.
Qed.

Lemma str_has_join c sep ws :
  Ascii.eqb c sep = false → Forall (λ w, str_has c w = false) ws →
  str_has c (str_join (String sep "") ws) = false.
Proof.
  intros Hc. unfold str_has. induction 1 as [|w ws Hw Hall IH]; [done|].
  destruct ws as [|w' ws]; [done|].
  change (str_join (String sep "") (w :: w' :: ws))
    with (w +:+ String sep "" +:+ str_join (String sep "") (w' :: ws)).
  rewrite !list_ascii_app, !existsb_app, Hw, IH. simpl. by rewrite Hc.
Qed.

Lemma formatIPv4_no_slash v : str_has "/" (formatIPv4 v) = false.
Proof.
  apply str_has_join; [done|]. apply Forall_fmap, Forall_forall. intros k _.
  apply (octet_printing _ (byte_range v k)).
Qed.

(** An aligned network prints to a text that normalises to itself. *)
Lemma normalizeIPv4Destination_aligned net bits :
  0 ≤ net < 2 ^ 32 → 0 ≤ bits ≤ 32 → (2 ^ (32 - bits) | net) →
  normalizeIPv4Destination (formatIPv4 net +:+ "/" +:+ show_int bits) =
  Some (formatIPv4 net +:+ "/" +:+ show_int bits).
Proof.
  intros Hnet Hbits Hdiv. unfold normalizeIPv4Destination.
  change (formatIPv4 net +:+ "/" +:+ show_int bits)
    with (str_join "/" [formatIPv4 net; show_int bits]).
  destruct (prefix_printing bits Hbits) as (Hd & Hv & _ & Hs & _).
  rewrite str_split_join; [|done|].
  - rewrite parse_formatIPv4 by done. simpl. rewrite Hd, Hv, (proj2 (Z.ltb_ge _ _)) by lia.
    destruct Hdiv as [k ->]. assert (0 < 2 ^ (32 - bits)) by (apply Z.pow_pos_nonneg; lia).
    by rewrite Z.div_mul by lia.
  - repeat constructor; [apply formatIPv4_no_slash|done].
Qed.

Lemma no_space_chars s : no_space s = true → str_chars (λ c, is_space c = false) s.
Proof.
  unfold no_space. rewrite str_chars_all. intros H. eapply Forall_impl; [exact H|].
  intros c. cbn. by rewrite negb_true_iff.
Qed.

Definition cidr_text (net bits : Z) : string := formatIPv4 net +:+ "/" +:+ show_int bits.

Lemma cidr_text_trim net bits : 0 ≤ bits ≤ 32 → trim (cidr_text net bits) = cidr_text net bits.
Proof.
  intros Hb. apply trim_id. unfold cidr_text, formatIPv4. rewrite !str_chars_app. split_and!.
  - apply str_chars_join; [by repeat constructor|]. apply Forall_fmap, Forall_forall. intros k _.
    apply no_space_chars, (octet_printing _ (byte_range net k)).
  - by repeat constructor.
  - apply no_space_chars, (prefix_printing _ Hb).
Qed.

(** What an accepted destination is: the aligned network of the address it names. *)
Lemma normalizeIPv4Destination_network text d :
  normalizeIPv4Destination text = Some d →
  ∃ addr bits net, d = cidr_text net bits ∧ 0 ≤ bits ≤ 32 ∧ 0 ≤ net < 2 ^ 32 ∧
    (2 ^ (32 - bits) | net) ∧ net ≤ addr < net + 2 ^ (32 - bits) ∧
    parseIPv4 (or_else "" (head (str_split "/" text))) = Some addr.
Proof.
  unfold normalizeIPv4Destination. destruct (str_split "/" text) as [|a [|len [|]]]; try done; simpl.
  - destruct (parseIPv4 a) as [v|] eqn:Ea; [|done]. intros [= <-].
    pose proof (parseIPv4_range _ _ Ea). exists v, 32, v. split_and!; try done; try lia.
    apply Z.divide_1_l.
  - destruct (parseIPv4 a) as [v|] eqn:Ea; [|done]. simpl.
    destruct (decimal_part 1 len) eqn:Hl; [|done].
    destruct (Z.ltb_spec 32 (digits_value len)); [done|]. intros [= <-].
    pose proof (parseIPv4_range _ _ Ea). pose proof (digits_value_nonneg _ _ Hl).
    assert (0 < 2 ^ (32 - digits_value len)) by (apply Z.pow_pos_nonneg; lia).
    exists v, (digits_value len), (v / 2 ^ (32 - digits_value len) * 2 ^ (32 - digits_value len)).
    pose proof (Z.div_mod v (2 ^ (32 - digits_value len)) ltac:(lia)).
    pose proof (Z.mod_pos_bound v (2 ^ (32 - digits_value len)) ltac:(lia)).
    pose proof (Z.div_pos v (2 ^ (32 - digits_value len)) ltac:(lia) ltac:(lia)).
    split_and!; try done; try nia. by apply Z.divide_factor_r.
Qed.

Lemma normalizeIPv4Destination_normal text d :
  normalizeIPv4Destination text = Some d → trim d = d ∧ normalizeIPv4Destination d = Some d.
Proof.
  intros (addr & bits & net & -> & Hb & Hnet & Hdiv & _ & _)%normalizeIPv4Destination_network.
  split; [by apply cidr_text_trim|]. by apply normalizeIPv4Destination_aligned.
Qed.

(** An accepted egress destination is printed as an aligned IPv4 network that contains the
    address it was written with, and normalising the printed form gives it back. *)
Theorem egress_destination_normal text d :
  normalizeIPv4Destination text = Some d →
  normalizeIPv4Destination d = Some d ∧
  ∃ addr bits net, d = formatIPv4 net +:+ "/" +:+ show_int bits ∧
    parseIPv4 (or_else "" (head (str_split "/" text))) = Some addr ∧
    parseIPv4 (formatIPv4 net) = Some net ∧ 0 ≤ bits ≤ 32 ∧
    (2 ^ (32 - bits) | net) ∧ net ≤ addr < net + 2 ^ (32 - bits).
Proof.
  intros H. split; [by eapply normalizeIPv4Destination_normal|].
  apply normalizeIPv4Destination_network in H as (addr & bits & net & -> & ? & ? & ? & ? & ?).
  exists addr, bits, net. split_and!; try done; try lia. by apply parse_formatIPv4.
Qed.

Lemma egress_destination_normal_witness :
  normalizeIPv4Destination "10.1.2.3/20" = Some "10.1.0.0/20" ∧
  normalizeIPv4Destination "10.1.0.0/20" = Some "10.1.0.0/20".
Proof.
  split; [vm_compute; reflexivity|].
  apply (egress_destination_normal "10.1.2.3/20"). vm_compute. reflexivity.
Defined.

(** ** Properties: domains *)

Lemma domain_char_inert c :
  domain_char c || Ascii.eqb c "." || Ascii.eqb c "*" = true → is_space c = false ∧ lower_char c = c.
Proof. destruct c as [[] [] [] [] [] [] [] []]; vm_compute; intuition congruence. Qed.

Lemma DOMAIN_LABEL_chars s :
  DOMAIN_LABEL s = true → s ≠ "" ∧ str_chars (λ c, domain_char c = true) s.
Proof.
  unfold DOMAIN_LABEL, str_chars. destruct s as [|c s]; [done|].
  cbv zeta. repeat case_match; try done.
  rewrite !andb_true_iff, forallb_elem.
  intros [[_ Hcs] _]. split; [done|]. by apply Forall_forall.
Qed.

Definition domain_name (domain : string) : string :=
  if starts_with "*." domain then slice_from 2 domain else domain.

Lemma prefix_slice p s : starts_with p s = true → s = p +:+ slice_from (String.length p) s.
Proof.
  unfold starts_with, slice_from. revert s. induction p as [|c p IH]; intros s; simpl.
  - intros _. rewrite Nat.sub_0_r. by rewrite substring_full.
  - destruct s as [|d s]; [done|]. simpl. destruct (Ascii.ascii_dec c d) as [->|]; [|done].
    intros H. exact (f_equal (String d) (IH s H)).
Qed.

Lemma domain_name_eq d : d = domain_name d ∨ d = "*." +:+ domain_name d.
Proof.
  unfold domain_name. destruct (starts_with "*." d) eqn:E; [right|by left].
  by apply (prefix_slice "*.") in E.
Qed.

Lemma labels_chars name :
  forallb DOMAIN_LABEL (str_split "." name) = true →
  str_chars (λ c, domain_char c || Ascii.eqb c "." || Ascii.eqb c "*" = true) name.
Proof.
  rewrite forallb_elem. intros Hall. apply Forall_forall. intros c Hc.
  apply (split_chars_elem ".") in Hc as [->|(w & Hw & Hc)]; [done|].
  destruct (DOMAIN_LABEL_chars (String.string_of_list_ascii w)) as [_ Hcs].
  - apply Hall, list_elem_of_fmap. by exists w.
  - unfold str_chars in Hcs. rewrite String.list_ascii_of_string_of_list_ascii, Forall_forall in Hcs.
    by rewrite Hcs.
Qed.

Lemma substring_suffix m n s :
  (m + n)%nat = String.length s → s = String.substring 0 m s +:+ String.substring m n s.
Proof.
  revert m n. induction s as [|c s IH]; intros m n; simpl.
  - destruct m, n; try (simpl; lia). done.
  - destruct m as [|m]; simpl.
    + intros ->. by rewrite substring_full.
    + intros [= H]. exact (f_equal (String c) (IH m n H)).
Qed.

Lemma ends_with_app p s : ends_with p s = true → ∃ a, s = a +:+ p.
Proof.
  unfold ends_with. rewrite andb_true_iff, Nat.leb_le, String.eqb_eq. intros [Hl Hs].
  exists (String.substring 0 (String.length s - String.length p) s).
  rewrite <- Hs at 2. apply substring_suffix. lia.
Qed.

Lemma wildcard_final_dot n a : "*." +:+ n = a +:+ "." → n ≠ "" → ∃ b, n = b +:+ ".".
Proof.
  destruct a as [|c1 [|c2 a]]; intros H Hn; simplify_eq/=; by exists a.
Qed.

Lemma domainProblem_None d :
  domainProblem d = None → d ≠ "" ∧ trim d = d ∧ normalizeDomain d = d.
Proof.
  unfold domainProblem. fold (domain_name d). destruct (str_has "*" _); [done|].
  destruct (Nat.ltb 253 _); [done|]. destruct (Nat.ltb _ 2) eqn:H2; [done|].
  destruct (existsb _ _) eqn:Hl; [done|]. intros _.
  assert (forallb DOMAIN_LABEL (str_split "." (domain_name d)) = true) as Hlab.
  { apply not_true_iff_false in Hl. rewrite existsb_elem in Hl. apply forallb_elem. intros l ?.
    destruct (DOMAIN_LABEL l) eqn:El; [done|]. destruct Hl. exists l. by rewrite El. }
  pose proof (labels_chars _ Hlab) as Hn.
  assert (str_chars (λ c, domain_char c || Ascii.eqb c "." || Ascii.eqb c "*" = true) d) as Hd.
  { destruct (domain_name_eq d) as [->| ->]; [done|]. apply str_chars_app. split; [|done].
    by repeat constructor. }
  assert (trim d = d) as Htrim.
  { apply trim_id. eapply Forall_impl; [exact Hd|]. intros. by apply domain_char_inert. }
  assert (ends_with "." d = false) as Hdot.
  { destruct (ends_with "." d) eqn:He; [|done]. exfalso. rewrite forallb_elem in Hlab.
    assert (∃ a, domain_name d = a +:+ ".") as [a Ha].
    { apply ends_with_app in He as [a Ha]. destruct (domain_name_eq d) as [Hd'|Hd'].
      - exists a. by rewrite <- Hd'.
      - apply (wildcard_final_dot _ a); [by rewrite <- Hd'|]. intros E. by rewrite E in H2. }
    specialize (Hlab ""). rewrite Ha in Hlab. unfold str_split in Hlab.
    rewrite list_ascii_app in Hlab. simpl in Hlab. rewrite split_chars_app in Hlab.
    rewrite fmap_app, elem_of_app in Hlab. discriminate Hlab. right. left. }
  split_and!; [|done|].
  - intros ->. by vm_compute in H2.
  - unfold normalizeDomain, drop_final_dot. rewrite Htrim, to_lower_id, Hdot; [done|].
    eapply Forall_impl; [exact Hd|]. intros. by apply domain_char_inert.
Qed.

(** ** Properties: the stored policy *)

Lemma sortedUnique_id l : NoDup l → StronglySorted (λ a b, str_cmp a b ≤ 0) l → sortedUnique l = l.
Proof. intros ??. unfold sortedUnique. by rewrite set_of_NoDup, to_sorted_id. Qed.

Lemma elem_of_sortedUnique x l : x ∈ sortedUnique l ↔ x ∈ l.
Proof. unfold sortedUnique. by rewrite elem_of_to_sorted, elem_of_set_of. Qed.

Lemma NoDup_sortedUnique l : NoDup (sortedUnique l).
Proof. unfold sortedUnique. rewrite to_sorted_perm. apply NoDup_set_of. Qed.

Lemma sortedUnique_idemp l : sortedUnique (sortedUnique l) = sortedUnique l.
Proof. apply sortedUnique_id; [apply NoDup_sortedUnique|apply str_sorted]. Qed.

Lemma fmap_id_on {A} (f : A → A) (l : list A) : (∀ x, x ∈ l → f x = x) → f <$> l = l.
Proof.
  induction l as [|x l IH]; intros Hall; [done|]. csimpl. rewrite (Hall x), IH; [done| |left].
  intros; apply Hall; by right.
Qed.

Lemma normalize_cidrs_elem raw cidrs c :
  normalize_cidrs raw = inl cidrs → c ∈ cidrs → ∃ t, t ∈ raw ∧ normalizeIPv4Destination t = Some c.
Proof.
  revert cidrs. induction raw as [|t raw IH]; intros cidrs; simpl.
  - intros [= <-] ?%elem_of_nil. done.
  - destruct (normalizeIPv4Destination t) as [n|] eqn:Et; [|done].
    destruct (normalize_cidrs raw) as [ns|]; [|done].
    intros [= <-] [->|Hc]%elem_of_cons; [exists t; split; [left|done]|].
    destruct (IH _ eq_refl Hc) as (u & ? & ?). exists u. split; [by right|done].
Qed.

Lemma normalize_cidrs_id cidrs :
  (∀ c, c ∈ cidrs → normalizeIPv4Destination c = Some c) → normalize_cidrs cidrs = inl cidrs.
Proof.
  induction cidrs as [|c cidrs IH]; intros Hall; simpl; [done|].
  rewrite (Hall c) by left. rewrite IH; [done|]. intros; apply Hall; by right.
Qed.

(** The well-formedness of a stored policy. *)
Record egress_wf (e : profile_egress) : Prop := {
  wf_public : eg_mode e = EgressPublic → eg_presets e = [] ∧ eg_domains e = [] ∧ eg_cidrs e = [];
  wf_allowlist : eg_mode e = EgressAllowlist →
    (0 < length (eg_presets e) + length (eg_domains e) + length (eg_cidrs e))%nat;
  wf_presets : ∀ p, p ∈ eg_presets e → p = "github";
  wf_domains : ∀ d, d ∈ eg_domains e → domainProblem d = None;
  wf_cidrs : ∀ c, c ∈ eg_cidrs e → trim c = c ∧ normalizeIPv4Destination c = Some c;
  wf_bounds : (length (eg_domains e) ≤ 256 ∧ length (eg_cidrs e) ≤ 256)%nat;
  wf_unique : sortedUnique (eg_presets e) = eg_presets e ∧
    sortedUnique (eg_domains e) = eg_domains e ∧ sortedUnique (eg_cidrs e) = eg_cidrs e;
}.

Lemma PUBLIC_EGRESS_wf : egress_wf PUBLIC_EGRESS.
Proof. split; simpl; try done; try lia; by intros ? ?%elem_of_nil. Qed.

Lemma check_egress_wf mode ps ds cs e : check_egress mode ps ds cs = EgressOk e → egress_wf e.
Proof.
  unfold check_egress. destruct (normalize_cidrs cs) as [cidrs|] eqn:Ec; [|done].
  set (presets := sortedUnique _). set (domains := sortedUnique _).
  set (uniq := sortedUnique _).
  destruct ((mode === EgressPublic) && _) eqn:Hpub; [done|].
  destruct (filter _ presets) eqn:Hpre; [|done].
  destruct (Nat.ltb_spec MAX_EGRESS_DOMAINS (length domains)); [done|].
  destruct (Nat.ltb_spec MAX_EGRESS_CIDRS (length uniq)); [done|].
  destruct (omap domainProblem domains) eqn:Hdom; [|done].
  destruct ((mode === EgressAllowlist) && _) eqn:Hall; [done|]. intros [= <-].
  split; cbn [eg_mode eg_presets eg_domains eg_cidrs].
  - intros ->. simpl in Hpub. apply Nat.ltb_ge in Hpub. split_and!; apply length_zero_iff_nil; lia.
  - intros ->. simpl in Hall. apply Nat.eqb_neq in Hall. lia.
  - intros p Hp. rewrite filter_nil_iff in Hpre. by apply dec_stable, Hpre.
  - intros d Hd. destruct (domainProblem d) as [x|] eqn:Ed; [|done].
    assert (x ∈ omap domainProblem domains) as Hx by (apply list_elem_of_omap; eauto).
    rewrite Hdom in Hx. by apply elem_of_nil in Hx.
  - intros c Hc. apply (elem_of_sortedUnique c cidrs) in Hc. destruct (normalize_cidrs_elem cs cidrs c Ec Hc) as (t & _ & Ht).
    by eapply normalizeIPv4Destination_normal.
  - unfold MAX_EGRESS_DOMAINS, MAX_EGRESS_CIDRS in *. lia.
  - unfold presets, domains, uniq. by rewrite !sortedUnique_idemp.
Qed.

(** A well-formed policy passes the checks as it is. *)
Lemma check_egress_id e :
  egress_wf e → check_egress (eg_mode e) (eg_presets e) (eg_domains e) (eg_cidrs e) = EgressOk e.
Proof.
  intros [Hpub Hallow Hpre Hdom Hcid [Hb1 Hb2] (U1 & U2 & U3)]. unfold check_egress.
  rewrite normalize_cidrs_id by (intros; by apply Hcid).
  rewrite (fmap_id_on to_lower) by (intros p ->%Hpre; done).
  rewrite (fmap_id_on normalizeDomain) by (intros d ?%Hdom%domainProblem_None; naive_solver).
  rewrite filter_id by (intros d ?%Hdom%domainProblem_None; naive_solver).
  rewrite U1, U2, U3.
  replace ((eg_mode e === EgressPublic) && _) with false.
  2:{ symmetry. case_bool_decide as Hm; [|done]. destruct (Hpub Hm) as (-> & -> & ->). done. }
  rewrite (proj2 (filter_nil_iff _ _)) by (intros p ->%Hpre; naive_solver).
  unfold MAX_EGRESS_DOMAINS, MAX_EGRESS_CIDRS. rewrite !(proj2 (Nat.ltb_ge _ _)) by lia.
  replace (omap domainProblem (eg_domains e)) with (@nil string).
  2:{ symmetry. clear - Hdom. induction (eg_domains e) as [|d ds IH]; [done|]. csimpl.
      rewrite Hdom by left. apply IH. intros; apply Hdom; by right. }
  replace ((eg_mode e === EgressAllowlist) && _) with false.
  2:{ symmetry. case_bool_decide as Hm; [|done]. apply Nat.eqb_neq. specialize (Hallow Hm). lia. }
  by destruct e.
Qed.

(** The stored policy written as the payload the controller publishes. *)
Definition egress_payload (e : profile_egress) : json :=
  JObj [("mode", JStr (mode_name (eg_mode e))); ("presets", JArr (JStr <$> eg_presets e));
        ("domains", JArr (JStr <$> eg_domains e)); ("cidrs", JArr (JStr <$> eg_cidrs e))].

Lemma json_strings_fmap l : json_strings (JStr <$> l) = Some l.
Proof. induction l as [|s l IH]; csimpl; [done|]. by rewrite IH. Qed.

Lemma parseProfileEgress_wf payload e : parseProfileEgress payload = EgressOk e → egress_wf e.
Proof.
  unfold parseProfileEgress. intros H.
  repeat case_match; simplify_eq; try apply PUBLIC_EGRESS_wf; by eapply check_egress_wf.
Qed.

Lemma list_field_payload key (l : list string) fields :
  json_field key fields = Some (JArr (JStr <$> l)) → (∀ s, s ∈ l → trim s = s ∧ s ≠ "") →
  list_field key fields = Some l.
Proof.
  intros Hf Hl. unfold list_field. rewrite Hf, json_strings_fmap. f_equal.
  rewrite fmap_id_on by (intros; by apply Hl). apply filter_id. intros; by apply Hl.
Qed.

(** C37: parsing a policy payload either refuses it or yields a policy that meets every rule of
    the contract (a public policy allows nothing, an allowlist allows something, presets are
    known, domains and CIDRs are valid, normalised, sorted, distinct and at most 256 each); and
    publishing a stored policy and parsing it again gives the same policy. *)
Theorem egress_policy_roundtrip payload e :
  parseProfileEgress payload = EgressOk e →
  egress_wf e ∧ parseProfileEgress (Some (egress_payload e)) = EgressOk e.
Proof.
  intros Hwf%parseProfileEgress_wf. split; [done|]. pose proof Hwf as [_ _ Hpre Hdom Hcid _ _].
  unfold parseProfileEgress, egress_payload.
  rewrite (proj2 (filter_nil_iff _ _)).
  2:{ intros [k j]. rewrite !elem_of_cons. set_solver. }
  rewrite (list_field_payload "presets" (eg_presets e)) by (done || by intros s ->%Hpre).
  rewrite (list_field_payload "domains" (eg_domains e))
    by (done || (intros d ?%Hdom%domainProblem_None; naive_solver)).
  rewrite (list_field_payload "cidrs" (eg_cidrs e)).
  - simpl. replace (mode_of_name (mode_name (eg_mode e))) with (Some (eg_mode e)) by by destruct (eg_mode e).
    by apply check_egress_id.
  - done.
  - intros c [? Hc]%Hcid. split; [done|]. intros ->. by vm_compute in Hc.
Qed.

Definition sample_payload : json :=
  JObj [("mode", JStr "allowlist"); ("presets", JArr [JStr " GitHub"]);
        ("domains", JArr [JStr "Registry.npmjs.org."; JStr "*.ghcr.io"]);
        ("cidrs", JArr [JStr "10.0.0.7/8"; JStr "1.1.1.1"])].

Lemma egress_policy_roundtrip_witness :
  let e := ProfileEgress EgressAllowlist ["github"] ["*.ghcr.io"; "registry.npmjs.org"]
    ["1.1.1.1/32"; "10.0.0.0/8"] in
  parseProfileEgress (Some sample_payload) = EgressOk e ∧
  parseProfileEgress (Some (egress_payload e)) = EgressOk e.
Proof.
  intros e. split; [vm_compute; reflexivity|].
  apply (egress_policy_roundtrip (Some sample_payload)). vm_compute. reflexivity.
Defined.

(** ** Properties: Worker evidence *)

Lemma mode_of_name_Some s m : mode_of_name s = Some m ↔ s = mode_name m.
Proof.
  unfold mode_of_name. repeat case_bool_decide; subst; destruct m; simpl; naive_solver.
Qed.

Lemma mode_name_inj m m' : mode_name m = mode_name m' → m = m'.
Proof. by destruct m, m'. Qed.

Lemma sameEgress_true l r : sameEgress l r = true ↔ l = r.
Proof.
  unfold sameEgress, same_list. rewrite !andb_true_iff, !bool_decide_eq_true.
  destruct l, r; simpl. naive_solver.
Qed.

Lemma egressRank_ge s m : EGRESS_RANK m ≤ egressRank s ↔
  ∃ m', s = mode_name m' ∧ EGRESS_RANK m ≤ EGRESS_RANK m'.
Proof.
  unfold egressRank. split.
  - destruct (mode_of_name s) as [m'|] eqn:E; [apply mode_of_name_Some in E; eauto|].
    destruct m; simpl; lia.
  - intros (m' & -> & ?). rewrite (proj2 (mode_of_name_Some _ m')); done.
Qed.

(** A Worker's evidence is accepted for a Profile's egress exactly when the evidence is
    absent and the Profile is public, or the evidence names the very policy the Profile has now,
    enforces a known mode at least as strict, and, unless the Profile is public, its
    egress-policy check passed.  So evidence about an older policy is never accepted. *)
Theorem egressEvidenceError_None_iff profile evidence checks :
  egressEvidenceError profile evidence checks = None ↔
  match evidence with
  | None => eg_mode profile = EgressPublic
  | Some ev =>
      ee_profileMode ev = mode_name (eg_mode profile) ∧
      or_else [] (ee_presets ev) = eg_presets profile ∧
      or_else [] (ee_domains ev) = eg_domains profile ∧
      or_else [] (ee_cidrs ev) = eg_cidrs profile ∧
      (∃ m, ee_mode ev = mode_name m ∧ EGRESS_RANK (eg_mode profile) ≤ EGRESS_RANK m) ∧
      (eg_mode profile ≠ EgressPublic → check_passed "egress-policy" checks = true)
  end.
Proof.
  destruct evidence as [ev|]; simpl; [|case_bool_decide; naive_solver].
  rewrite <- egressRank_ge. destruct (sameEgress _ _) eqn:Hs; simpl.
  - apply sameEgress_true in Hs. unfold view_of in Hs. simplify_eq.
    destruct (Z.ltb_spec (egressRank (ee_mode ev)) (EGRESS_RANK (eg_mode profile)));
      [split; [done|lia]|].
    case_bool_decide; destruct (check_passed _ _); simpl; naive_solver.
  - apply not_true_iff_false in Hs. rewrite sameEgress_true in Hs. unfold view_of in Hs.
    split; [done|]. intros (? & ? & ? & ? & _). destruct Hs. by f_equal.
Qed.

(** ** Properties: the bounded record *)

Definition num_between (lo hi : Z) (n : num) : Prop :=
  ∃ z, num_integer n = Some z ∧ lo ≤ z ≤ hi.

Lemma at_least_zero_cases n :
  (n = NaN ∧ at_least_zero n = NaN) ∨ (n = PosInf ∧ at_least_zero n = PosInf) ∨
  (∃ z q, at_least_zero n = Fin q ∧ (q == inject_Z z)%Q ∧ 0 ≤ z).
Proof.
  destruct n as [q| | |]; unfold at_least_zero; simpl; auto.
  - right. right. exists (Z.max 0 (Qfloor q)). eexists. split_and!; [done|apply Qmax_inject|lia].
  - right. right. exists 0. by eexists.
Qed.

Lemma bounded_port n :
  n ≠ NaN → num_between 0 65535 (num_min (num_of_Z 65535) (at_least_zero n)).
Proof.
  intros Hn. unfold num_between.
  destruct (at_least_zero_cases n) as [[? _]|[[_ ->]|(z & q & -> & Hq & Hz)]]; [done| |].
  - exists 65535. split; [apply num_integer_of_Z|lia].
  - exists (Z.min 65535 z). split; [|lia]. apply num_integer_eq. rewrite Hq. apply Qmin_inject.
Qed.

Lemma length_slice0 n s : (String.length (slice0 n s) ≤ n)%nat.
Proof.
  unfold slice0. revert n. induction s as [|c s IH]; intros [|n]; simpl; try lia. specialize (IH n). lia.
Qed.

(** Whatever a Worker reports, the stored egress record holds at most 256 names and 512
    flows with bounded texts, every port is an integer between 0 and 65535, the queries are not
    negative, and what was dropped is counted: the kept rows and the omitted count add up to
    the reported ones. *)
Theorem boundedEgressRecord_bounds r :
  ∃ names flows,
    er_names (boundedEgressRecord r) = Some names ∧ er_flows (boundedEgressRecord r) = Some flows ∧
    (length names ≤ 256)%nat ∧ (length flows ≤ 512)%nat ∧
    (∀ e, e ∈ names → (String.length (en_name e) ≤ 253)%nat ∧
      (en_queries e = NaN ∨ num_leb (num_of_Z 0) (en_queries e) = true)) ∧
    (∀ f, f ∈ flows → (String.length (ef_destination f) ≤ 64)%nat ∧
      (num_between 0 65535 (ef_port f) ∨ ef_port f = NaN ∧
        ∃ f', f' ∈ or_else [] (er_flows r) ∧ ef_port f' = NaN)) ∧
    (er_omittedNames r = None → ∃ k, er_omittedNames (boundedEgressRecord r) = Some (Fin k) ∧
      (k + inject_Z (Z.of_nat (length names)) == inject_Z (Z.of_nat (length (or_else [] (er_names r)))))%Q) ∧
    (er_omittedFlows r = None → ∃ k, er_omittedFlows (boundedEgressRecord r) = Some (Fin k) ∧
      (k + inject_Z (Z.of_nat (length flows)) == inject_Z (Z.of_nat (length (or_else [] (er_flows r)))))%Q).
Proof.
  eexists _, _. split_and!; [done|done|..].
  - rewrite length_fmap, length_take. unfold MAX_RECORD_NAMES. lia.
  - rewrite length_fmap, length_take. unfold MAX_RECORD_FLOWS. lia.
  - intros e (e0 & -> & _)%list_elem_of_fmap. simpl. split; [apply length_slice0|].
    destruct (at_least_zero_cases (en_queries e0)) as [[_ ->]|[[_ ->]|(z & q & -> & Hq & Hz)]]; auto.
    right. simpl. rewrite Qle_bool_iff, Hq. by rewrite <- Zle_Qle.
  - intros f (f0 & -> & Hf)%list_elem_of_fmap. simpl. split; [apply length_slice0|].
    destruct (ef_port f0) eqn:Hp; [left; by apply bounded_port..|].
    right. split; [done|]. exists f0. split; [|done]. eapply elem_of_take in Hf as (i & ? & _).
    by eapply list_elem_of_lookup_2.
  - intros E. simpl. rewrite E. unfold at_least_zero. simpl. eexists. split; [done|].
    rewrite Qmax_inject, length_fmap, length_take, <- !inject_Z_plus. apply inject_Z_injective.
    unfold MAX_RECORD_NAMES. change (0 / 1) with 0. lia.
  - intros E. simpl. rewrite E. unfold at_least_zero. simpl. eexists. split; [done|].
    rewrite Qmax_inject, length_fmap, length_take, <- !inject_Z_plus. apply inject_Z_injective.
    unfold MAX_RECORD_FLOWS. change (0 / 1) with 0. lia.
Qed.
