(* ===== verification/Isolation.v ===== *)
(** The isolation contract (packages/backend/convex/isolation.ts): what a Worker must have
    proved before a Profile's work may run on it, and the copy-on-write headroom it must have. *)

From S2P Require Import Prelude JsLib Schema HostLabels Egress.

Definition EXECUTOR_BOUNDARY (e : executor) : boundary :=
  match e with Docker => SharedKernel | Firecracker | Tart | Hyperv => GuestKernel end.

Definition isTrustedOnly (e : executor) : bool := EXECUTOR_BOUNDARY e === SharedKernel.

Definition FIRECRACKER_REQUIRED_CHECKS : list string :=
  ["firecracker-binary"; "guest-kernel-image"; "guest-kernel-arguments"; "kvm-device";
   "cni-plugins"; "cni-network-configuration"; "job-network-policy"; "containerd-snapshotter";
   "cni-address-reservations"; "snapshot-storage-headroom"; "cache-isolation"; "image-release";
   "warm-pool"].

Definition is_hex (c : ascii) : bool :=
  is_digit c || ((97 <=? ch c) && (ch c <=? 102)).

(** [/^sha256:[0-9a-f]{64}$/] *)
Definition POLICY_HASH (s : string) : bool :=
  starts_with "sha256:" s && Nat.eqb (String.length s) 71 && str_all is_hex (slice_from 7 s).

(** [value === undefined || value.trim() === ""] *)
Definition blank (value : option string) : bool :=
  match value with None => true | Some s => trim s === "" end.

(** [!Number.isSafeInteger(n) || (n ?? 0) <= 0] *)
Definition not_positive_integer (n : option num) : bool :=
  match n ≫= num_safe_integer with Some z => z <=? 0 | None => true end.

(** The names met a second time, in the order of their second occurrence. *)
Fixpoint duplicate_names (seen names : list string) : list string :=
  match names with
  | [] => []
  | n :: names =>
      if bool_decide (n ∈ seen) then n :: duplicate_names seen names
      else duplicate_names (n :: seen) names
  end.

Definition problem_if (b : bool) (text : string) : list string := if b then [text] else [].

(** The [problems] [firecrackerReadinessError] collects, in order. *)
Definition firecracker_problems (facts : readiness_facts) (profileEgress : profile_egress)
    : list string :=
  let checks := or_else [] (rf_checks facts) in
  let names := ck_name <$> checks in
  let poolTotal := rf_storage facts ≫= st_poolTotalMiB in
  let poolFree := rf_storage facts ≫= st_poolFreeMiB in
  let failed := ck_name <$> filter (λ c, ck_passed c = false) checks in
  let duplicates := set_of (duplicate_names [] names) in
  let missing := filter (λ n, n ∉ names) FIRECRACKER_REQUIRED_CHECKS in
  match egressEvidenceError profileEgress (rf_network facts ≫= nw_egress) (rf_checks facts) with
  | Some p => [p] | None => [] end ++
  problem_if (rf_isolation facts !== Some "firecracker-microvm") "isolation must be firecracker-microvm" ++
  problem_if (rf_boundary facts !== Some GuestKernel) "boundary must be guest-kernel" ++
  problem_if ((rf_hardware facts ≫= hw_kvm) !== Some true) "hardware.kvm must be true" ++
  problem_if ((rf_storage facts ≫= st_snapshotter) !== Some "devmapper")
    "storage.snapshotter must be devmapper" ++
  problem_if (blank (rf_storage facts ≫= st_poolName)) "storage.poolName is required" ++
  problem_if (not_positive_integer poolTotal) "storage.poolTotalMiB must be a positive integer" ++
  problem_if (not_positive_integer poolFree ||
      match poolTotal with
      | Some total => num_ltb total (or_else (num_of_Z 0) poolFree)
      | None => false
      end)
    "storage.poolFreeMiB must be positive headroom within the pool" ++
  problem_if (blank (rf_network facts ≫= nw_policyName)) "network.policyName is required" ++
  problem_if (negb (POLICY_HASH (or_else "" (rf_network facts ≫= nw_policyHash))))
    "network.policyHash must be an exact sha256 identity" ++
  problem_if (blank (rf_network facts ≫= nw_subnet)) "network.subnet is required" ++
  problem_if (match rf_network facts ≫= nw_egressMode with
      | Some m => egressRank m <? 0 | None => true end)
    "network.egressMode must be public, audit or allowlist" ++
  problem_if (rf_cacheScope facts !== Some "immutable-image") "cacheScope must be immutable-image" ++
  problem_if (rf_cacheSharedWritable facts !== Some false) "cacheSharedWritable must be false" ++
  problem_if (Nat.ltb 0 (length failed)) ("checks must pass: " +:+ str_join ", " failed) ++
  problem_if (Nat.ltb 0 (length duplicates)) ("checks must be unique: " +:+ str_join ", " duplicates) ++
  problem_if (Nat.ltb 0 (length missing)) ("required checks are missing: " +:+ str_join ", " missing).

Definition firecrackerReadinessError (facts : readiness_facts) (profileEgress : profile_egress)
    : option string :=
  match firecracker_problems facts profileEgress with
  | [] => None
  | problems => Some (str_join "; " problems)
  end.

(** The split evidence row is the one this readiness row was written with. *)
Definition exact_current_evidence (r : worker_readiness) (e : readiness_evidence) : bool :=
  (ev_machineId e === wr_machineId r) && (ev_profile e === wr_profile r) &&
  (ev_executor e === wr_executor r) && (ev_imageRelease e === wr_imageRelease r) &&
  (ev_vcpus e === wr_vcpus r) && (ev_memoryMiB e === wr_memoryMiB r) &&
  (ev_checkedAt e === wr_checkedAt r).

Definition readinessAdmissionError (readiness : worker_readiness)
    (evidence : option readiness_evidence) (profileEgress : profile_egress) : option string :=
  if wr_executor readiness !== Firecracker then None
  else
    let check facts :=
      match firecrackerReadinessError facts profileEgress with
      | None => None
      | Some problem => Some ("Firecracker readiness evidence is incomplete: " +:+ problem)
      end in
    match evidence with
    | None => check (wr_facts readiness)
    | Some e =>
        if exact_current_evidence readiness e then check (ev_facts e)
        else Some "current readinessEvidence does not match this Worker, Profile contract, and checkedAt"
    end.

Definition executor_name (e : executor) : string :=
  match e with Docker => "docker" | Firecracker => "firecracker" | Tart => "tart" | Hyperv => "hyperv" end.
Definition boundary_name (b : boundary) : string :=
  match b with GuestKernel => "guest-kernel" | SharedKernel => "shared-kernel" end.

Definition assertReadinessContract (state : readiness_state) (executor : executor)
    (facts : readiness_facts) (warmPool : option warm_pool) (profileEgress : profile_egress)
    : tx db unit :=
  if state !== RReady then mret tt
  else
    let checks := or_else [] (rf_checks facts) in
    match filter (λ c, ck_passed c = false) checks with
    | (_ :: _) as failed =>
        throw ("A Worker cannot be ready with failing checks: " +:+ str_join ", " (ck_name <$> failed))
    | [] =>
    if Nat.eqb (length checks) 0 && is_some (rf_boundary facts) then
      throw "A Worker reporting an isolation boundary must report its checks"
    else
    let expected := EXECUTOR_BOUNDARY executor in
    if is_some (rf_boundary facts) && (rf_boundary facts !== Some expected) then
      throw ("The " +:+ executor_name executor +:+ " executor provides a " +:+ boundary_name expected +:+
             " boundary; a Worker cannot report " +:+
             match rf_boundary facts with Some b => boundary_name b | None => "" end)
    else if rf_cacheSharedWritable facts === Some true then
      throw "A Worker sharing writable storage between Jobs cannot be ready: that is a cross-job path"
    else
    match (if executor === Firecracker then firecrackerReadinessError facts profileEgress else None) with
    | Some problem => throw ("Firecracker readiness evidence is incomplete: " +:+ problem)
    | None =>
    match warmPool with
    | None => mret tt
    | Some (WarmPool target parked claimed) =>
        if negb (is_safe target && is_safe parked && is_safe claimed) || (target <? 0) ||
           (parked <? 0) || (claimed <? 0) || negb (parked + claimed =? target)
        then throw "A ready warm pool must report target = parked + claimed"
        else mret tt
    end end end.

Definition SNAPSHOT_RESERVE_MIB : Z := 8 * 1024.

Definition hasSnapshotHeadroom (storage : option storage_facts) (concurrentAttempts : Z)
    (reserveMiB : Z) : bool :=
  match storage ≫= st_poolFreeMiB with
  | None => true
  | Some free => num_leb (num_of_Z (reserveMiB * (concurrentAttempts + 1))) free
  end.

Definition hasSnapshotHeadroomForGuests (storage : option storage_facts) (guests : Z) : bool :=
  match storage ≫= st_poolFreeMiB with
  | None => true
  | Some free => num_leb (num_of_Z (SNAPSHOT_RESERVE_MIB * guests)) free
  end.

(** ** What an accepted report proves *)

(** The complete evidence of a Firecracker Worker for a Profile's egress policy. *)
Record firecracker_evidence (facts : readiness_facts) (egress : profile_egress) : Prop := {
  fe_egress : egressEvidenceError egress (rf_network facts ≫= nw_egress) (rf_checks facts) = None;
  fe_isolation : rf_isolation facts = Some "firecracker-microvm";
  fe_boundary : rf_boundary facts = Some GuestKernel;
  fe_kvm : (rf_hardware facts ≫= hw_kvm) = Some true;
  fe_snapshotter : (rf_storage facts ≫= st_snapshotter) = Some "devmapper";
  fe_poolName : blank (rf_storage facts ≫= st_poolName) = false;
  fe_pool : ∃ free total nfree ntotal,
    (rf_storage facts ≫= st_poolFreeMiB) = Some nfree ∧ num_safe_integer nfree = Some free ∧
    (rf_storage facts ≫= st_poolTotalMiB) = Some ntotal ∧ num_safe_integer ntotal = Some total ∧
    0 < free ≤ total;
  fe_policyName : blank (rf_network facts ≫= nw_policyName) = false;
  fe_policyHash : ∃ h, (rf_network facts ≫= nw_policyHash) = Some h ∧ POLICY_HASH h = true;
  fe_subnet : blank (rf_network facts ≫= nw_subnet) = false;
  fe_mode : ∃ m, (rf_network facts ≫= nw_egressMode) = Some (mode_name m);
  fe_cacheScope : rf_cacheScope facts = Some "immutable-image";
  fe_cacheShared : rf_cacheSharedWritable facts = Some false;
  fe_passed : ∀ c, c ∈ or_else [] (rf_checks facts) → ck_passed c = true;
  fe_unique : NoDup (ck_name <$> or_else [] (rf_checks facts));
  fe_required : ∀ n, n ∈ FIRECRACKER_REQUIRED_CHECKS → n ∈ ck_name <$> or_else [] (rf_checks facts);
}.

Lemma problem_if_nil b t : problem_if b t = [] ↔ b = false.
Proof. by destruct b. Qed.

Lemma ne_literal {A} `{EqDecision A} (x y : A) : negb (bool_decide (x = y)) = false ↔ x = y.
Proof. case_bool_decide; naive_solver. Qed.

Lemma length_pos_false {A} (l : list A) : Nat.ltb 0 (length l) = false ↔ l = [].
Proof. by destruct l. Qed.

Lemma set_of_nil_iff (l : list string) : set_of l = [] ↔ l = [].
Proof. by destruct l. Qed.

Lemma duplicate_names_nil seen l :
  duplicate_names seen l = [] ↔ NoDup l ∧ ∀ n, n ∈ l → n ∉ seen.
Proof.
  revert seen. induction l as [|n l IH]; intros seen; simpl.
  - split; [|done]. intros _. split; [constructor|]. by intros ? ?%elem_of_nil.
  - case_bool_decide as Hn.
    + split; [done|]. intros [_ H]. by destruct (H n ltac:(left)).
    + rewrite IH, NoDup_cons. setoid_rewrite elem_of_cons. naive_solver.
Qed.

Lemma failed_nil (l : list readiness_check) :
  ck_name <$> filter (λ c, ck_passed c = false) l = [] ↔ ∀ c, c ∈ l → ck_passed c = true.
Proof.
  transitivity (filter (λ c, ck_passed c = false) l = []); [by destruct (filter _ l)|].
  rewrite filter_nil_iff. split; intros H c Hc; specialize (H c Hc);
    by destruct (ck_passed c).
Qed.

Lemma missing_nil (names required : list string) :
  filter (λ n : string, n ∉ names) required = [] ↔ ∀ n, n ∈ required → n ∈ names.
Proof.
  rewrite filter_nil_iff. split; intros H n Hn; specialize (H n Hn); [by apply dec_stable|naive_solver].
Qed.

Lemma num_ltb_safe a b x y :
  num_safe_integer a = Some x → num_safe_integer b = Some y → num_ltb a b = (x <? y).
Proof.
  unfold num_safe_integer. intros Ha Hb.
  destruct (num_integer a) as [x'|] eqn:Ea; [|done]. destruct (num_integer b) as [y'|] eqn:Eb; [|done].
  repeat case_match; simplify_eq.
  apply num_integer_Some in Ea as (p & -> & Hp). apply num_integer_Some in Eb as (q & -> & Hq).
  simpl. apply eq_true_iff_eq. rewrite negb_true_iff, <- not_true_iff_false, Qle_bool_iff, Hp, Hq.
  rewrite <- Zle_Qle, Z.ltb_lt. lia.
Qed.

Lemma pool_evidence (total free : option num) :
  not_positive_integer total = false ∧
  not_positive_integer free ||
    match total with Some t => num_ltb t (or_else (num_of_Z 0) free) | None => false end = false ↔
  ∃ f t nf nt, free = Some nf ∧ num_safe_integer nf = Some f ∧
    total = Some nt ∧ num_safe_integer nt = Some t ∧ 0 < f ≤ t.
Proof.
  unfold not_positive_integer. rewrite orb_false_iff.
  destruct total as [nt|]; [|naive_solver]. destruct free as [nf|]; [|naive_solver]. simpl.
  destruct (num_safe_integer nt) as [t|] eqn:Et; [|naive_solver].
  destruct (num_safe_integer nf) as [f|] eqn:Ef; [|naive_solver].
  rewrite (num_ltb_safe _ _ _ _ Et Ef), !Z.leb_gt, Z.ltb_ge. split.
  - intros (? & ? & ?). exists f, t, nf, nt. split_and!; done || lia.
  - intros (f' & t' & nf' & nt' & ? & ? & ? & ? & ?). simplify_eq. lia.
Qed.

Lemma mode_evidence (m : option string) :
  match m with Some m => egressRank m <? 0 | None => true end = false ↔ ∃ k, m = Some (mode_name k).
Proof.
  destruct m as [m|]; [|naive_solver]. rewrite Z.ltb_ge.
  change 0 with (EGRESS_RANK EgressPublic). rewrite egressRank_ge. split.
  - intros (k & -> & _). eauto.
  - intros (k & [= ->]). exists k. split; [done|]. by destruct k.
Qed.

Lemma hash_evidence (h : option string) :
  negb (POLICY_HASH (or_else "" h)) = false ↔ ∃ s, h = Some s ∧ POLICY_HASH s = true.
Proof. rewrite negb_false_iff. destruct h; simpl; naive_solver. Qed.

Lemma firecrackerReadinessError_nil facts egress :
  firecrackerReadinessError facts egress = None ↔ firecracker_problems facts egress = [].
Proof. unfold firecrackerReadinessError. by destruct (firecracker_problems facts egress). Qed.

Lemma firecracker_evidence_iff facts egress :
  firecrackerReadinessError facts egress = None ↔ firecracker_evidence facts egress.
Proof.
  rewrite firecrackerReadinessError_nil. unfold firecracker_problems.
  rewrite !app_nil, !problem_if_nil, !length_pos_false, !ne_literal, failed_nil, set_of_nil_iff,
    duplicate_names_nil, missing_nil, mode_evidence, hash_evidence.
  split.
  - intros (He & ? & ? & ? & ? & ? & Ht & Hf & ? & ? & ? & ? & ? & ? & ? & [? _] & ?).
    split; try done; [by destruct (egressEvidenceError _ _ _)|by apply pool_evidence].
  - intros [-> ????? Hp%pool_evidence ?????????]. destruct Hp. split_and!; try done.
    by intros n _ ?%elem_of_nil.
Qed.

(** A Firecracker Worker's facts raise no problem exactly when they are complete evidence:
    the Profile's egress is proved, a guest kernel over KVM, a devmapper pool with positive
    free space within it, an identified network policy, no shared writable cache, and every
    required check reported once and passing.  An absent fact is never read as a pass. *)
Theorem firecrackerReadinessError_None_iff facts egress :
  firecrackerReadinessError facts egress = None ↔ firecracker_evidence facts egress.
Proof. apply firecracker_evidence_iff. Qed.

(** Admission of a Firecracker readiness row rests on complete evidence that was written
    together with the row (or, for a historical row, on its inline facts). *)
Lemma readinessAdmissionError_sound r ev egress :
  wr_executor r = Firecracker → readinessAdmissionError r ev egress = None →
  firecracker_evidence (match ev with Some e => ev_facts e | None => wr_facts r end) egress ∧
  ∀ e, ev = Some e → exact_current_evidence r e = true.
Proof.
  intros Hx. unfold readinessAdmissionError. rewrite Hx. rewrite bool_decide_true by done. simpl.
  destruct ev as [e|].
  - destruct (exact_current_evidence r e) eqn:Ee; [|done].
    destruct (firecrackerReadinessError _ _) eqn:Ef; [done|]. intros _.
    split; [by apply firecracker_evidence_iff|]. by intros e' [= <-].
  - destruct (firecrackerReadinessError _ _) eqn:Ef; [done|]. intros _.
    split; [by apply firecracker_evidence_iff|done].
Qed.

Lemma readinessAdmissionError_complete r e egress :
  exact_current_evidence r e = true →
  (wr_executor r = Firecracker → firecrackerReadinessError (ev_facts e) egress = None) →
  readinessAdmissionError r (Some e) egress = None.
Proof.
  intros He Hf. unfold readinessAdmissionError. case_bool_decide; simpl; [|done].
  by rewrite He, Hf.
Qed.

(** What the write path guarantees about a report it accepts as ready. *)
Lemma assertReadinessContract_ready executor facts wp egress s u s' :
  assertReadinessContract RReady executor facts wp egress s = Done (u, s') →
  s' = s ∧
  (∀ c, c ∈ or_else [] (rf_checks facts) → ck_passed c = true) ∧
  (∀ b, rf_boundary facts = Some b → b = EXECUTOR_BOUNDARY executor) ∧
  rf_cacheSharedWritable facts ≠ Some true ∧
  (executor = Firecracker → firecrackerReadinessError facts egress = None) ∧
  (∀ w, wp = Some w → 0 ≤ wp_parked w ∧ 0 ≤ wp_claimed w ∧ wp_parked w + wp_claimed w = wp_target w).
Proof.
  unfold assertReadinessContract. simpl.
  destruct (filter _ _) eqn:Hf; [|done]. rewrite filter_nil_iff in Hf.
  destruct (Nat.eqb _ 0 && _); [done|]. destruct (is_some _ && _) eqn:Hb; [done|].
  destruct (bool_decide_reflect (rf_cacheSharedWritable facts = Some true)) as [|Hc]; [done|].
  destruct (if executor === Firecracker then _ else _) eqn:Hx; [done|]. intros Hw.
  assert (s' = s ∧ ∀ w, wp = Some w → 0 ≤ wp_parked w ∧ 0 ≤ wp_claimed w ∧
    wp_parked w + wp_claimed w = wp_target w) as [-> Hwp].
  { destruct wp as [[t p c]|]; [|by inversion Hw].
    destruct (_ || negb (p + c =? t)) eqn:Hcond; [done|]. inversion Hw; subst. split; [done|].
    intros w [= <-]. simpl. rewrite !orb_false_iff, !negb_false_iff, !Z.ltb_ge, Z.eqb_eq in Hcond.
    naive_solver. }
  split_and!; try done.
  - intros c Hin. specialize (Hf c Hin). by destruct (ck_passed c).
  - intros b Hbd. rewrite Hbd in Hb. simpl in Hb. rewrite negb_false_iff, bool_decide_eq_true in Hb. congruence.
  - intros ->. by rewrite bool_decide_true in Hx.
Qed.

(** Room for a number of guests is room for any smaller number. *)
Lemma headroom_mono storage g g' :
  g' ≤ g → hasSnapshotHeadroomForGuests storage g = true →
  hasSnapshotHeadroomForGuests storage g' = true.
Proof.
  unfold hasSnapshotHeadroomForGuests, SNAPSHOT_RESERVE_MIB. intros Hg.
  destruct (storage ≫= st_poolFreeMiB) as [[q| | |]|]; simpl; try done.
  rewrite !Qle_bool_iff. intros H. eapply Qle_trans; [|exact H]. rewrite <- Zle_Qle. lia.
Qed.
