(* ===== verification/Benchmark.v ===== *)
(** Worker benchmarks (packages/backend/convex/benchmark.ts): validating a report, scoring it,
    and the slot count it recommends.  Arithmetic is on doubles ([JsLib.round64]). *)

From S2P Require Import Prelude JsLib Schema.

Definition BENCHMARK_VERSION : Z := 1.
Definition BENCHMARK_STALE_AFTER_MS : Z := 7 * 24 * 60 * 60000.
Definition NEUTRAL_BENCHMARK_SCORE : Z := 50.

Definition is_finite (n : num) : bool := match n with Fin _ => true | _ => false end.

Definition boundedNumber (value : option num) (name : string) (minimum maximum : num) : tx db unit :=
  match value with
  | Some n =>
      if negb (is_finite n) || num_ltb n minimum || num_ltb maximum n
      then throw (name +:+ " is outside the accepted benchmark range") else mret tt
  | None => mret tt
  end.

Definition integer_between (n : num) (lo hi : Z) : bool :=
  match num_safe_integer n with Some z => (lo <=? z) && (z <=? hi) | None => false end.

Definition target_name (t : net_target) : string :=
  match t with NetGithub => "github" | NetGhcr => "ghcr" | NetNpm => "npm" end.

Definition check_observation (o : network_observation) : tx db unit :=
  boundedNumber (no_ttfbMs o) (target_name (no_target o) +:+ " TTFB") (lit 0) (lit 120000) ≫= λ _,
  boundedNumber (no_throughputMbps o) (target_name (no_target o) +:+ " throughput")
    (lit (1 # 10000)) (lit 1000000) ≫= λ _,
  boundedNumber (no_bytes o) (target_name (no_target o) +:+ " byte count") (lit 0) (lit 1048576) ≫= λ _,
  match no_bytes o with
  | Some b => when (is_none (num_safe_integer b)) (throw "Benchmark network byte counts must be integers")
  | None => mret tt
  end ≫= λ _,
  match no_error o with
  | Some e => when (Nat.ltb 256 (String.length e))
                (throw "Benchmark network errors must fit within 256 characters")
  | None => mret tt
  end.

Definition validateBenchmarkReport (report : benchmark_report) (now : Z) : tx db unit :=
  if num_integer (br_version report) !== Some BENCHMARK_VERSION then
    throw "Unsupported benchmark version"
  else if negb (integer_between (br_measuredAt report) 1 (now + 5 * 60000)) then
    throw "Invalid benchmark measurement time"
  else if negb (integer_between (br_durationMs report) 1 120000) ||
          negb (integer_between (br_sampleSize report) 1 16) then
    throw "Invalid benchmark duration or sample count"
  else
    boundedNumber (br_cpuSha256MiBps report) "CPU throughput" (lit (1 # 100)) (lit 1000000) ≫= λ _,
    boundedNumber (br_memoryCopyMiBps report) "memory throughput" (lit (1 # 100)) (lit 10000000) ≫= λ _,
    boundedNumber (br_diskWriteMiBps report) "disk write throughput" (lit (1 # 100)) (lit 1000000) ≫= λ _,
    boundedNumber (br_diskReadMiBps report) "disk read throughput" (lit (1 # 100)) (lit 1000000) ≫= λ _,
    boundedNumber (br_diskFsyncLatencyMs report) "disk fsync latency" (lit 0) (lit 120000) ≫= λ _,
    boundedNumber (br_packageLinkOpsPerSec report) "package-link throughput"
      (lit (1 # 100)) (lit 10000000) ≫= λ _,
    if Nat.ltb 3 (length (br_network report)) ||
       negb (Nat.eqb (length (set_of (no_target <$> br_network report))) (length (br_network report)))
    then throw "Benchmark network targets must be unique and bounded"
    else
      for_each (br_network report) check_observation ≫= λ _,
      when (Nat.ltb 8 (length (br_errors report)) ||
            existsb (λ e, Nat.ltb 256 (String.length e)) (br_errors report))
        (throw "Benchmark errors must contain at most 8 bounded messages").

(** [Math.round(Math.min(100, Math.max(0, value)))]; [None] is NaN. *)
Definition clampScore (value : num) : option Z :=
  match num_min (num_of_Z 100) (num_max (num_of_Z 0) value) with
  | Fin q => Some (Qfloor (q + (1 # 2)))
  | _ => None
  end.

Definition higherIsBetter (value : option num) (poor good : Z) : option Z :=
  match value with
  | None => Some NEUTRAL_BENCHMARK_SCORE
  | Some v =>
      clampScore (f_mul (f_div (f_sub v (num_of_Z poor)) (num_of_Z (good - poor))) (num_of_Z 100))
  end.

Definition lowerIsBetter (value : option num) (good poor : Z) : option Z :=
  match value with
  | None => Some NEUTRAL_BENCHMARK_SCORE
  | Some v =>
      clampScore (f_mul (f_div (f_sub (num_of_Z poor) v) (num_of_Z (poor - good))) (num_of_Z 100))
  end.

Definition average (values : list num) : num :=
  f_div (fold_left f_add values (num_of_Z 0)) (num_of_Z (Z.of_nat (length values))).

Definition average_scores (values : list Z) : num := average (num_of_Z <$> values).

Definition network_row_score (row : network_observation) : option num :=
  ttfb ← lowerIsBetter (no_ttfbMs row) 75 1500;
  throughput ← higherIsBetter (no_throughputMbps row) 1 100;
  Some (average_scores [ttfb; throughput]).

Definition measured_rows (report : benchmark_report) : list network_observation :=
  filter (λ r, is_some (no_ttfbMs r) || is_some (no_throughputMbps r) = true) (br_network report).

Definition network_score_of (rows : list network_observation) : option Z :=
  match rows with
  | [] => Some NEUTRAL_BENCHMARK_SCORE
  | rows => vs ← mapM network_row_score rows; clampScore (average vs)
  end.

(** The scores of a validated report; [None] only if some number is NaN. *)
Definition benchmark_scores_of (report : benchmark_report) : option benchmark_scores :=
  cpu ← higherIsBetter (br_cpuSha256MiBps report) 100 1500;
  memory ← higherIsBetter (br_memoryCopyMiBps report) 1000 20000;
  write ← higherIsBetter (br_diskWriteMiBps report) 25 1000;
  read ← higherIsBetter (br_diskReadMiBps report) 50 2000;
  fsync ← lowerIsBetter (br_diskFsyncLatencyMs report) 1 50;
  link ← higherIsBetter (br_packageLinkOpsPerSec report) 100 20000;
  disk ← clampScore (average_scores [write; read; fsync; link]);
  network ← network_score_of (measured_rows report);
  balanced ← clampScore (average_scores [cpu; memory; disk; network]);
  Some (BenchmarkScores cpu memory disk network balanced).

Definition confidence_of (report : benchmark_report) : confidence :=
  let hasDisk := is_some (br_diskWriteMiBps report) && is_some (br_diskReadMiBps report) &&
                 is_some (br_diskFsyncLatencyMs report) in
  let dimensions := filter (λ b, b = true)
    [is_some (br_cpuSha256MiBps report); is_some (br_memoryCopyMiBps report);
     hasDisk && is_some (br_packageLinkOpsPerSec report);
     Nat.leb 2 (length (measured_rows report))] in
  if Nat.eqb (length dimensions) 4 && Nat.eqb (length (br_errors report)) 0 then ConfComplete
  else if Nat.eqb (length dimensions) 0 then ConfFailed
  else ConfPartial.

(** The measurement time is an integer once validated; the scores are numbers once validated
    (shown below), so the two last refusals are unreachable. *)
Definition normalizeBenchmark (report : benchmark_report) (reportedAt : Z) : tx db stored_benchmark :=
  validateBenchmarkReport report reportedAt ≫= λ _,
  match num_safe_integer (br_measuredAt report), benchmark_scores_of report with
  | Some measuredAt, Some scores =>
      mret (StoredBenchmark report measuredAt reportedAt (confidence_of report) scores)
  | _, _ => throw "unreachable"
  end.

Definition summary_of (b : machine_benchmark) : Z * benchmark_scores :=
  match b with
  | BenchSummary measuredAt scores => (measuredAt, scores)
  | BenchStored b => (sb_measuredAt b, sb_scores b)
  end.

Definition benchmarkScore (benchmark : option machine_benchmark) (policy : fit_policy) (now : Z)
    : Z * string :=
  match benchmark with
  | None => (NEUTRAL_BENCHMARK_SCORE, "missing")
  | Some b =>
      let (measuredAt, scores) := summary_of b in
      if BENCHMARK_STALE_AFTER_MS <=? now - measuredAt then (NEUTRAL_BENCHMARK_SCORE, "stale")
      else (match policy with
            | FitCpu => sc_cpu scores
            | FitNetwork => sc_network scores
            | FitIo => sc_disk scores
            | FitBalanced => sc_balanced scores
            end, "fresh")
  end.

Definition resourceRecommendedSlots (os : os_kind) (cpus : Z) (memoryMiB : option Z) : Z :=
  let cpuSlots := Z.max 1 (cpus / 4) in
  let memorySlots := match memoryMiB with None => cpuSlots | Some m => Z.max 1 (m / 8192) end in
  match os with
  | Linux => Z.min 16 (Z.min cpuSlots memorySlots)
  | Mac => Z.min 2 (Z.min cpuSlots memorySlots)
  | Win => 1
  end.

(** The scores of the dimensions a stored report measured; the network is not one of them. *)
Definition capacity_scores (b : stored_benchmark) : list Z :=
  let r := sb_report b in
  (if is_some (br_cpuSha256MiBps r) then [sc_cpu (sb_scores b)] else []) ++
  (if is_some (br_memoryCopyMiBps r) then [sc_memory (sb_scores b)] else []) ++
  (if is_some (br_diskWriteMiBps r) || is_some (br_diskReadMiBps r) ||
      is_some (br_diskFsyncLatencyMs r) || is_some (br_packageLinkOpsPerSec r)
   then [sc_disk (sb_scores b)] else []).

(** [Math.floor(n)] clamped to an integer range: infinities and NaN do not arise from the
    integer scores and slot counts it is applied to. *)
Definition floor_or (d : Z) (n : num) : Z := match n with Fin q => Qfloor q | _ => d end.

Definition slot_factor (weakest : Z) : num :=
  f_add (lit (25 # 100)) (f_mul (f_div (num_of_Z weakest) (num_of_Z 100)) (lit (75 # 100))).

Definition benchmarkRecommendedSlots (resourceSlots : Z) (benchmark : option stored_benchmark)
    (now : Z) : Z :=
  match benchmark with
  | None => resourceSlots
  | Some b =>
      if BENCHMARK_STALE_AFTER_MS <=? now - sb_measuredAt b then resourceSlots
      else match capacity_scores b with
      | [] => resourceSlots
      | score :: scores =>
          let weakest := foldr Z.min score scores in
          Z.max 1 (Z.min resourceSlots
            (floor_or resourceSlots (f_mul (num_of_Z resourceSlots) (slot_factor weakest))))
      end
  end.

(** ** Scores *)

Definition not_nan (n : num) : Prop := n ≠ NaN.
Definition nonneg (n : num) : Prop :=
  match n with Fin q => (0 <= q)%Q | PosInf => True | _ => False end.

Lemma nonneg_not_nan n : nonneg n → not_nan n.
Proof. by destruct n. Qed.

Lemma round64_not_nan q : not_nan (round64 q).
Proof. unfold round64, not_nan. cbv zeta. repeat case_match; done. Qed.

Lemma num_round_not_nan n : not_nan n → not_nan (num_round n).
Proof. destruct n; simpl; [intros _; apply round64_not_nan|done..]. Qed.

Lemma div_half_even_nonneg n d : 0 ≤ n → 0 < d → 0 ≤ div_half_even n d.
Proof.
  intros. unfold div_half_even. pose proof (Z.div_pos n d). cbv zeta. repeat case_match; lia.
Qed.

Lemma scaled_nonneg m k : 0 ≤ m → (0 <= scaled m k)%Q.
Proof.
  intros Hm. unfold scaled. case_match.
  - change 0%Q with (inject_Z 0). rewrite <- Zle_Qle. nia.
  - rewrite Qred_correct. unfold Qle. simpl. lia.
Qed.

Lemma round64_nonneg q : (0 <= q)%Q → nonneg (round64 q).
Proof.
  intros Hq. assert (0 ≤ Qnum q) as Hn by (unfold Qle in Hq; simpl in Hq; lia).
  unfold round64. cbv zeta. case_match; [done|].
  assert (Qnum q <? 0 = false) as -> by lia. case_match; [done|]. simpl.
  apply scaled_nonneg, div_half_even_nonneg.
  - apply Z.mul_nonneg_nonneg; [lia|]. apply Z.pow_nonneg; lia.
  - apply Z.mul_pos_pos; [lia|]. apply Z.pow_pos_nonneg; lia.
Qed.

Lemma f_sub_fin p q : not_nan (f_sub (Fin p) (Fin q)).
Proof. by apply num_round_not_nan. Qed.

Lemma f_div_not_nan a z : not_nan a → z ≠ 0 → not_nan (f_div a (num_of_Z z)).
Proof.
  intros Ha Hz. apply num_round_not_nan. unfold num_of_Z, num_quot.
  assert (Qeq_bool (inject_Z z) 0 = false) as E.
  { destruct (Qeq_bool (inject_Z z) 0) eqn:E; [|done]. apply Qeq_bool_iff in E.
    unfold Qeq in E. simpl in E. lia. }
  destruct a; simpl; rewrite ?E; try done; destruct z; done.
Qed.

Lemma f_mul_not_nan a z : not_nan a → 0 < z → not_nan (f_mul a (num_of_Z z)).
Proof.
  intros Ha Hz. apply num_round_not_nan. unfold num_of_Z, num_times.
  destruct a; try done; destruct z; done.
Qed.

Lemma f_add_nonneg a b : nonneg a → nonneg b → nonneg (f_add a b).
Proof.
  destruct a as [p| | |], b as [q| | |]; try done. intros Hp Hq. apply round64_nonneg.
  change 0%Q with (0 + 0)%Q. by apply Qplus_le_compat.
Qed.

Lemma f_div_nonneg a z : nonneg a → 0 < z → nonneg (f_div a (num_of_Z z)).
Proof.
  intros Ha Hz. unfold f_div, num_of_Z, num_quot.
  destruct a as [p| | |]; try done; destruct z; try done.
  apply round64_nonneg. apply Qle_shift_div_l; [done|]. by rewrite Qmult_0_l.
Qed.

Lemma average_nonneg vs : vs ≠ [] → Forall nonneg vs → nonneg (average vs).
Proof.
  intros Hne Hall. apply f_div_nonneg; [|destruct vs; [done|simpl; lia]].
  assert (nonneg (num_of_Z 0)) as H0 by (simpl; apply Qle_refl).
  clear Hne. revert H0. generalize (num_of_Z 0). induction Hall as [|v vs Hv _ IH]; simpl; [done|].
  intros a Ha. apply IH. by apply f_add_nonneg.
Qed.

Definition is_score (o : option Z) : Prop := ∃ z, o = Some z ∧ 0 ≤ z ≤ 100.

Lemma clampScore_score v : not_nan v → is_score (clampScore v).
Proof.
  intros Hv. assert (∃ q, num_min (num_of_Z 100) (num_max (num_of_Z 0) v) = Fin q ∧
    (inject_Z 0 <= q)%Q ∧ (q <= inject_Z 100)%Q) as (q & E & H0 & H1).
  { destruct v as [q| | |]; [|by eexists..|done]. eexists. split; [done|]. split.
    - apply Q.min_glb; [by vm_compute|]. apply Q.le_max_l.
    - apply Q.le_min_l. }
  unfold is_score, clampScore. rewrite E. eexists. split; [done|]. split.
  - change 0 with (Qfloor (inject_Z 0 + (1 # 2))). apply Qfloor_resp_le.
    by apply Qplus_le_compat, Qle_refl.
  - change 100 with (Qfloor (inject_Z 100 + (1 # 2))) at 1. apply Qfloor_resp_le.
    by apply Qplus_le_compat, Qle_refl.
Qed.

Definition finite_opt (o : option num) : Prop := ∀ n, o = Some n → is_finite n = true.

Lemma higherIsBetter_score v poor good :
  finite_opt v → poor < good → is_score (higherIsBetter v poor good).
Proof.
  intros Hv ?. destruct v as [v|]; [|by exists 50]. specialize (Hv v eq_refl).
  destruct v; try done. apply clampScore_score, f_mul_not_nan, eq_refl.
  apply f_div_not_nan; [apply f_sub_fin|lia].
Qed.

Lemma lowerIsBetter_score v good poor :
  finite_opt v → good < poor → is_score (lowerIsBetter v good poor).
Proof.
  intros Hv ?. destruct v as [v|]; [|by exists 50]. specialize (Hv v eq_refl).
  destruct v; try done. apply clampScore_score, f_mul_not_nan, eq_refl.
  apply f_div_not_nan; [apply f_sub_fin|lia].
Qed.

Lemma average_scores_score zs :
  zs ≠ [] → Forall (λ z, 0 ≤ z) zs → is_score (clampScore (average_scores zs)).
Proof.
  intros Hne Hall. apply clampScore_score, nonneg_not_nan, average_nonneg; [by destruct zs|].
  apply Forall_fmap. eapply Forall_impl; [exact Hall|]. intros z Hz. simpl.
  change 0%Q with (inject_Z 0). by rewrite <- Zle_Qle.
Qed.

Record finite_report (r : benchmark_report) : Prop := {
  fin_cpu : finite_opt (br_cpuSha256MiBps r);
  fin_memory : finite_opt (br_memoryCopyMiBps r);
  fin_write : finite_opt (br_diskWriteMiBps r);
  fin_read : finite_opt (br_diskReadMiBps r);
  fin_fsync : finite_opt (br_diskFsyncLatencyMs r);
  fin_link : finite_opt (br_packageLinkOpsPerSec r);
  fin_rows : ∀ o, o ∈ br_network r → finite_opt (no_ttfbMs o) ∧ finite_opt (no_throughputMbps o);
}.

Lemma network_row_nonneg o :
  finite_opt (no_ttfbMs o) → finite_opt (no_throughputMbps o) →
  ∃ v, network_row_score o = Some v ∧ nonneg v.
Proof.
  intros H1 H2. unfold network_row_score.
  destruct (lowerIsBetter_score _ 75 1500 H1) as (a & -> & Ha); [lia|].
  destruct (higherIsBetter_score _ 1 100 H2) as (b & -> & Hb); [lia|]. simpl.
  eexists. split; [done|]. apply average_nonneg; [done|].
  repeat constructor; simpl; change 0%Q with (inject_Z 0); rewrite <- Zle_Qle; lia.
Qed.

Lemma network_score r :
  finite_report r →
  is_score (network_score_of (measured_rows r)).
Proof.
  intros Hf. assert (∀ o, o ∈ measured_rows r → ∃ v, network_row_score o = Some v ∧ nonneg v) as Hrow.
  { intros o [_ Ho]%list_elem_of_filter. apply (fin_rows _ Hf) in Ho as [??].
    by apply network_row_nonneg. }
  unfold network_score_of. destruct (measured_rows r) as [|o rows]; [by exists 50|].
  assert (∃ vs, mapM network_row_score (o :: rows) = Some vs ∧ Forall nonneg vs ∧ vs ≠ [])
    as (vs & -> & Hvs & Hne).
  { destruct (mapM_is_Some_2 network_row_score (o :: rows)) as [vs Hvs].
    - apply Forall_forall. intros x Hx. destruct (Hrow x Hx) as (v & Hv & _). by exists v.
    - exists vs. split; [done|]. apply mapM_Some_1 in Hvs. split.
      + apply Forall_forall. intros v (i & Hi)%list_elem_of_lookup_1.
        destruct (Forall2_lookup_r _ _ _ _ _ Hvs Hi) as (x & Hx & Hxv).
        destruct (Hrow x) as (v' & Hv' & ?); [by eapply list_elem_of_lookup_2|]. by simplify_eq.
      + by inversion Hvs. }
  simpl. by apply clampScore_score, nonneg_not_nan, average_nonneg.
Qed.

Definition scores_bounded (s : benchmark_scores) : Prop :=
  0 ≤ sc_cpu s ≤ 100 ∧ 0 ≤ sc_memory s ≤ 100 ∧ 0 ≤ sc_disk s ≤ 100 ∧ 0 ≤ sc_network s ≤ 100 ∧
  0 ≤ sc_balanced s ≤ 100.

Lemma benchmark_scores_bounded r :
  finite_report r → ∃ s, benchmark_scores_of r = Some s ∧ scores_bounded s.
Proof.
  intros Hf. pose proof (network_score r Hf) as (n & Hn & ?). destruct Hf as [H1 H2 H3 H4 H5 H6 _].
  unfold benchmark_scores_of.
  destruct (higherIsBetter_score _ 100 1500 H1) as (cpu & -> & ?); [lia|]. simpl.
  destruct (higherIsBetter_score _ 1000 20000 H2) as (mem & -> & ?); [lia|]. simpl.
  destruct (higherIsBetter_score _ 25 1000 H3) as (w & -> & ?); [lia|]. simpl.
  destruct (higherIsBetter_score _ 50 2000 H4) as (rd & -> & ?); [lia|]. simpl.
  destruct (lowerIsBetter_score _ 1 50 H5) as (fs & -> & ?); [lia|]. simpl.
  destruct (higherIsBetter_score _ 100 20000 H6) as (l & -> & ?); [lia|]. simpl.
  destruct (average_scores_score [w; rd; fs; l]) as (d & -> & ?);
    [done|repeat constructor; lia|]. simpl. rewrite Hn. simpl.
  destruct (average_scores_score [cpu; mem; d; n]) as (b & -> & ?);
    [done|repeat constructor; lia|]. simpl.
  eexists. split; [done|]. unfold scores_bounded. simpl. lia.
Qed.

Lemma boundedNumber_done v name lo hi s u s' :
  boundedNumber v name lo hi s = Done (u, s') → s' = s ∧ finite_opt v.
Proof.
  unfold boundedNumber, finite_opt. destruct v as [n|]; [|intros [= _ <-]; done].
  destruct (is_finite n) eqn:En; [|done]. simpl. case_match; [done|]. intros [= _ <-].
  split; [done|]. by intros ? [= <-].
Qed.

Lemma check_observation_done o s u s' :
  check_observation o s = Done (u, s') →
  s' = s ∧ finite_opt (no_ttfbMs o) ∧ finite_opt (no_throughputMbps o).
Proof.
  unfold check_observation. intros Hrun.
  do 3 (apply bind_done in Hrun as (? & ? & [-> ?]%boundedNumber_done & Hrun)).
  apply bind_done in Hrun as (? & s1 & Hb & He).
  assert (s1 = s) as -> by (unfold when in Hb; repeat case_match; by inversion Hb).
  split; [|done]. unfold when in He. repeat case_match; by inversion He.
Qed.

Lemma check_observations_done l s u s' :
  for_each l check_observation s = Done (u, s') →
  s' = s ∧ ∀ o, o ∈ l → finite_opt (no_ttfbMs o) ∧ finite_opt (no_throughputMbps o).
Proof.
  induction l as [|o l IH]; simpl; [intros [= _ <-]; split; [done|by intros ? ?%elem_of_nil]|].
  intros (? & ? & (-> & ? & ?)%check_observation_done & [-> Hrest]%IH)%bind_done.
  split; [done|]. intros o' [->|?]%elem_of_cons; auto.
Qed.

Lemma validateBenchmarkReport_done r now s u s' :
  validateBenchmarkReport r now s = Done (u, s') →
  s' = s ∧ finite_report r ∧ ∃ t, num_safe_integer (br_measuredAt r) = Some t ∧ 1 ≤ t ≤ now + 5 * 60000.
Proof.
  unfold validateBenchmarkReport. case_match; [done|].
  destruct (integer_between (br_measuredAt r) _ _) eqn:Ht; [|done]. simpl. case_match; [done|]. intros Hrun.
  do 6 (apply bind_done in Hrun as (? & ? & [-> ?]%boundedNumber_done & Hrun)).
  case_match; [done|]. apply bind_done in Hrun as (? & ? & [-> ?]%check_observations_done & Hrun).
  assert (s' = s) as -> by (unfold when in Hrun; case_match; by inversion Hrun).
  split_and!; [done|by constructor|]. unfold integer_between in Ht.
  destruct (num_safe_integer (br_measuredAt r)) as [t|]; [|done]. exists t. split; [done|]. lia.
Qed.

(** A benchmark report that passes validation always gets scores: no NaN or infinity can
    reach them, each is an integer between 0 and 100, and the stored measurement time is a
    positive integer at most five minutes ahead.  A report that fails validation is not stored. *)
Theorem normalizeBenchmark_scores report now s u s' :
  validateBenchmarkReport report now s = Done (u, s') →
  ∃ b, normalizeBenchmark report now s = Done (b, s) ∧ scores_bounded (sb_scores b) ∧
    sb_report b = report ∧ 1 ≤ sb_measuredAt b ≤ now + 5 * 60000.
Proof.
  intros H. pose proof H as (-> & Hf & t & Ht & Hr)%validateBenchmarkReport_done.
  destruct (benchmark_scores_bounded report Hf) as (sc & Hsc & Hb).
  unfold normalizeBenchmark, mbind, tx_bind. rewrite H, Ht, Hsc.
  eexists. split; [done|]. done.
Qed.

Definition sample_report : benchmark_report :=
  BenchmarkReport (num_of_Z 1) (num_of_Z 1000) (num_of_Z 900) (num_of_Z 3)
    (Some (Fin (4567 # 10))) None (Some (num_of_Z 26)) (Some (num_of_Z 100000)) (Some (Fin (1 # 2))) None
    [NetworkObservation NetGithub (Some (num_of_Z 200)) None None None] [].

Lemma normalizeBenchmark_scores_witness :
  ∃ b, normalizeBenchmark sample_report 5000 db_empty = Done (b, db_empty) ∧
    scores_bounded (sb_scores b) ∧ sb_scores b = BenchmarkScores 25 50 63 71 52.
Proof.
  destruct (normalizeBenchmark_scores sample_report 5000 db_empty tt db_empty) as (b & Hb & Hs & _ & _).
  - vm_compute. reflexivity.
  - exists b. split; [exact Hb|]. split; [exact Hs|]. vm_compute in Hb. injection Hb as <-. reflexivity.
Defined.

(** ** Slots *)

Lemma resourceRecommendedSlots_range os cpus mem :
  1 ≤ resourceRecommendedSlots os cpus mem ≤ 16.
Proof. unfold resourceRecommendedSlots. destruct os, mem; lia. Qed.

(** The automatic slot count never exceeds what the host's CPUs and memory carry, is never
    below one, and a benchmark can only lower it; a stale benchmark or one without a capacity
    dimension leaves it as it is. *)
Theorem recommended_slots_bounds os cpus mem benchmark now :
  let hard := resourceRecommendedSlots os cpus mem in
  let slots := benchmarkRecommendedSlots hard benchmark now in
  1 ≤ slots ≤ hard ∧ hard ≤ 16 ∧
  (os = Linux → hard ≤ Z.max 1 (cpus / 4)) ∧
  (∀ m, os ≠ Win → mem = Some m → hard ≤ Z.max 1 (m / 8192)) ∧
  (∀ b, benchmark = Some b → capacity_scores b = [] ∨ BENCHMARK_STALE_AFTER_MS ≤ now - sb_measuredAt b →
   slots = hard).
Proof.
  intros hard slots. pose proof (resourceRecommendedSlots_range os cpus mem) as Hr. fold hard in Hr.
  split_and!; try lia.
  - unfold slots, benchmarkRecommendedSlots. repeat case_match; lia.
  - unfold slots, benchmarkRecommendedSlots. repeat case_match; lia.
  - intros ->. unfold hard, resourceRecommendedSlots. destruct mem; lia.
  - intros m Hw ->. unfold hard, resourceRecommendedSlots. clear. destruct os; lia.
  - intros b -> Hb. unfold slots, benchmarkRecommendedSlots.
    destruct (Z.leb_spec BENCHMARK_STALE_AFTER_MS (now - sb_measuredAt b)); [done|].
    destruct Hb as [->|?]; [done|lia].
Qed.

Example slot_examples :
  resourceRecommendedSlots Linux 64 (Some 131072) = 16 ∧
  (let weak b := StoredBenchmark sample_report 0 0 ConfPartial (BenchmarkScores b 90 90 0 70) in
   benchmarkRecommendedSlots 16 (Some (weak 60)) 10 = 11 ∧
   benchmarkRecommendedSlots 16 (Some (weak 0)) 10 = 4).
Proof. vm_compute. done. Qed.
