(* ===== verification/Scheduler.v ===== *)
(** Placement of work on Workers (packages/backend/convex/attemptScheduler.ts) and the capacity
    probe that answers from the same snapshot (routing.ts). *)

From S2P Require Import Prelude JsLib Schema HostLabels Egress Isolation Benchmark.

Definition WORKER_OFFLINE_AFTER_MS : Z := 2 * 60000.
Definition READINESS_STALE_AFTER_MS : Z := 12 * 60 * 60000.
Definition RESERVED_ATTEMPT_STATES : list attempt_state := [Preparing; Ready; Running].
Definition RESERVED_EXPERIMENT_STATES : list experiment_state := [XPreparing; XRunning].
Definition READINESS_STATES : list readiness_state := [RPreparing; RReady; RDegraded; RFailed].

Definition releaseMachineSlot (machineId : option Id) : tx db unit :=
  match machineId with
  | None => mret tt
  | Some id =>
      machine ← db_get machines id;
      match machine with
      | None => mret tt
      | Some m => db_patch machines id (λ d, d <| mc_usedSlots := Z.max 0 (mc_usedSlots m - 1) |>)
      end
  end.

Definition releaseAttemptSlot (attempt : attempt) : tx db unit :=
  releaseMachineSlot (at_machineId attempt).

(** The part of a Profile or a work contract that readiness is checked against. *)
Record contract := Contract {
  ct_executor : executor;
  ct_imageRelease : string;
  ct_workerLabels : option (list string);
}.

Definition isSchedulableReadiness (readiness : worker_readiness) (evidence : option readiness_evidence)
    (machine : option machine) (c : contract) (profileEgress : profile_egress) (now : Z) : bool :=
  match machine with
  | None => false
  | Some m =>
      (wr_state readiness === RReady) &&
      carriesHostLabels (ct_workerLabels c) (Some (mc_labels m)) &&
      (wr_executor readiness === ct_executor c) &&
      (wr_imageRelease readiness === ct_imageRelease c) &&
      (now - wr_checkedAt readiness <? READINESS_STALE_AFTER_MS) &&
      is_none (readinessAdmissionError readiness evidence profileEgress) &&
      (now - mc_lastSeen m <? WORKER_OFFLINE_AFTER_MS)
  end.

(** [WorkContract] *)
Record work := Work {
  wk_profile : string;
  wk_executor : executor;
  wk_imageRelease : string;
  wk_vcpus : Z;
  wk_memoryMiB : Z;
  wk_createdAt : Z;
}.

Definition work_of_attempt (a : attempt) : work :=
  Work (at_profile a) (at_executor a) (at_imageRelease a) (at_vcpus a) (at_memoryMiB a) (at_createdAt a).

(** An Experiment's [executor] is the literal "firecracker". *)
Definition work_of_experiment (x : experiment) : work :=
  Work (xp_profile x) Firecracker (xp_imageRelease x) (xp_vcpus x) (xp_memoryMiB x) (xp_createdAt x).

Record reservation := Reservation { rs_vcpus : Z; rs_memoryMiB : Z; rs_count : Z }.
Definition no_reservation : reservation := Reservation 0 0 0.

(** The maps of the snapshot that placement consumes as it goes. *)
Record ledger := Ledger {
  lg_reserved : gmap Id reservation;
  lg_idleWarm : gmap (Id * string) Z;
  lg_usedSlots : gmap Id Z;
}.

Record snapshot := Snapshot {
  sn_now : Z;
  sn_pendingAttempts : list (Id * attempt);
  sn_queuedExperiments : list (Id * experiment);
  sn_activeProfileByName : gmap string profile;
  sn_machineById : gmap Id machine;
  sn_readyByProfile : gmap string (list worker_readiness);
  sn_evidenceByMachineProfile : gmap (Id * string) readiness_evidence;
  sn_ledger : ledger;
}.

(** A live unit of work: its machine, Profile and size. *)
Record live_work := LiveWork { lw_machineId : Id; lw_profile : string; lw_vcpus : Z; lw_memoryMiB : Z }.

Definition live_attempt (a : attempt) : option live_work :=
  match at_state a with
  | Completed | Cancelled | FailedState => None
  | _ => (λ m, LiveWork m (at_profile a) (at_vcpus a) (at_memoryMiB a)) <$> at_machineId a
  end.

Definition live_experiment (x : experiment) : option live_work :=
  match xp_state x with
  | XCompleted | XCancelled | XFailed => None
  | _ => (λ m, LiveWork m (xp_profile x) (xp_vcpus x) (xp_memoryMiB x)) <$> xp_machineId x
  end.

Definition reserved_of (r : gmap Id reservation) (id : Id) : reservation :=
  or_else no_reservation (r !! id).

Definition add_reservation (id : Id) (vcpus memoryMiB count : Z) (r : gmap Id reservation)
    : gmap Id reservation :=
  let old := reserved_of r id in
  <[id := Reservation (rs_vcpus old + vcpus) (rs_memoryMiB old + memoryMiB) (rs_count old + count)]> r.

(** The loop over live work: reservations per machine, active guests per machine and Profile. *)
Definition reserve_live (acc : gmap Id reservation * gmap (Id * string) Z) (w : live_work)
    : gmap Id reservation * gmap (Id * string) Z :=
  let key := (lw_machineId w, lw_profile w) in
  (add_reservation (lw_machineId w) (lw_vcpus w) (lw_memoryMiB w) 1 acc.1,
   <[key := or_else 0 (acc.2 !! key) + 1]> acc.2).

(** The loop over readiness rows: the idle part of each warm pool is reserved too. *)
Definition reserve_idle (profiles : gmap string profile) (machines : gmap Id machine)
    (active : gmap (Id * string) Z) (acc : gmap Id reservation * gmap (Id * string) Z)
    (r : worker_readiness) : gmap Id reservation * gmap (Id * string) Z :=
  match wr_warmPool r, machines !! wr_machineId r, profiles !! wr_profile r with
  | Some wp, Some _, Some p =>
      if (pf_executor p !== wr_executor r) || (pf_imageRelease p !== wr_imageRelease r) ||
         (is_some (wr_vcpus r) && (wr_vcpus r !== Some (pf_vcpus p))) ||
         (is_some (wr_memoryMiB r) && (wr_memoryMiB r !== Some (pf_memoryMiB p))) ||
         (wp_target wp !== or_else 0 (pf_warmPool p))
      then acc
      else
        let target := wp_parked wp + wp_claimed wp in
        let key := (wr_machineId r, wr_profile r) in
        let idle := Z.max 0 (target - or_else 0 (active !! key)) in
        if idle =? 0 then acc
        else (add_reservation (wr_machineId r) (idle * pf_vcpus p) (idle * pf_memoryMiB p) idle acc.1,
              <[key := idle]> acc.2)
  | _, _, _ => acc
  end.

(** [rows.push(readiness)] under the row's Profile *)
Definition push_ready (m : gmap string (list worker_readiness)) (r : worker_readiness)
    : gmap string (list worker_readiness) :=
  if wr_state r === RReady
  then <[wr_profile r := or_else [] (m !! wr_profile r) ++ [r]]> m else m.

(** [new Map(entries)]: a later entry replaces an earlier one with the same key. *)
Definition map_of {K V} `{Countable K} (entries : list (K * V)) : gmap K V :=
  fold_left (λ m e, <[e.1 := e.2]> m) entries ∅.

Definition loadSchedulerSnapshot (now : Z)
    (pending : option (list (Id * attempt) * list (Id * experiment))) : tx db snapshot :=
  pendingAttempts ← match pending with
    | None => db_where attempts (λ a, at_state a === Pending)
    | Some p => mret p.1 end;
  queuedExperiments ← match pending with
    | None => db_where experiments (λ x, xp_state x === XQueued)
    | Some p => mret p.2 end;
  attemptRanges ← map_tx (λ st, db_where attempts (λ a, at_state a === st)) RESERVED_ATTEMPT_STATES;
  experimentRanges ← map_tx (λ st, db_where experiments (λ x, xp_state x === st))
    RESERVED_EXPERIMENT_STATES;
  machineRows ← db_where machines (λ m, now - WORKER_OFFLINE_AFTER_MS <? mc_lastSeen m);
  profileRows ← db_where profiles (λ p, pf_state p === ProfileActive);
  readinessRanges ← map_tx (λ ps : profile * readiness_state,
      db_where workerReadiness (λ r, (wr_profile r === pf_name ps.1) && (wr_state r === ps.2)))
    (p ← snd <$> profileRows; st ← READINESS_STATES; [(p, st)]);
  let allReadiness := snd <$> concat readinessRanges in
  evidenceRows ← map_tx (λ r, db_unique readinessEvidence
      (λ e, (ev_machineId e === wr_machineId r) && (ev_profile e === wr_profile r)))
    (filter (λ r, wr_state r = RReady) allReadiness);
  let evidence := snd <$> omap id evidenceRows in
  let activeProfileByName := map_of ((λ p, (pf_name p.2, p.2)) <$> profileRows) in
  let machineById := map_of machineRows in
  let live := omap (live_attempt ∘ snd) (pendingAttempts ++ concat attemptRanges) ++
              omap (live_experiment ∘ snd) (queuedExperiments ++ concat experimentRanges) in
  let '(reserved, active) := fold_left reserve_live live (∅, ∅) in
  let '(reserved, idle) :=
    fold_left (reserve_idle activeProfileByName machineById active) allReadiness (reserved, ∅) in
  mret (Snapshot now pendingAttempts queuedExperiments activeProfileByName machineById
    (fold_left push_ready allReadiness ∅)
    (map_of ((λ e, ((ev_machineId e, ev_profile e), e)) <$> evidence))
    (Ledger reserved idle (map_of ((λ m, (m.1, mc_usedSlots m.2)) <$> machineRows)))).

Definition matchesActiveProfile (sn : snapshot) (w : work) : bool :=
  match sn_activeProfileByName sn !! wk_profile w with
  | Some p =>
      (pf_executor p === wk_executor w) && (pf_imageRelease p === wk_imageRelease w) &&
      (pf_vcpus p === wk_vcpus w) && (pf_memoryMiB p === wk_memoryMiB w)
  | None => false
  end.

(** What a Worker may give to work of this size: a tenth is kept back unless the work needs the
    whole host; [None] is no measured limit. *)
Definition usable (capacity : option Z) (need : Z) : option Z :=
  (λ c, if c <=? need then c else c * 9 / 10) <$> capacity.

(** [amount > limit] for a limit that may be infinite *)
Definition over (amount : Z) (limit : option Z) : bool :=
  match limit with Some l => l <? amount | None => false end.

Record candidate := Candidate {
  cd_id : Id;
  cd_machine : machine;
  cd_usesWarm : bool;
  cd_pressure : num;
  cd_benchmark : Z * string;
}.

Definition idle_warm (lg : ledger) (id : Id) (profile : string) : Z :=
  or_else 0 (lg_idleWarm lg !! (id, profile)).

Definition used_slots (lg : ledger) (id : Id) (m : machine) : Z :=
  or_else (mc_usedSlots m) (lg_usedSlots lg !! id).

Definition occupied_guests (lg : ledger) (id : Id) (m : machine) : Z :=
  Z.max (rs_count (reserved_of (lg_reserved lg) id)) (used_slots lg id m).

(** [a / b] in doubles, 0 when the limit is infinite *)
Definition pressure_of (amount : Z) (limit : option Z) : num :=
  match limit with Some l => f_div (num_of_Z amount) (num_of_Z l) | None => num_of_Z 0 end.

(** The room of a schedulable Worker for one more unit of work. *)
Definition evaluate (lg : ledger) (w : work) (policy : fit_policy) (now : Z)
    (r : worker_readiness) (id : Id) (m : machine) : option candidate :=
  let reserved := reserved_of (lg_reserved lg) id in
  let usableVCPUs := usable (mc_cpus m) (wk_vcpus w) in
  let usableMemoryMiB := usable (mc_memoryMiB m) (wk_memoryMiB w) in
  let usesWarm := 0 <? idle_warm lg id (wk_profile w) in
  let additionalVCPUs := if usesWarm then 0 else wk_vcpus w in
  let additionalMemoryMiB := if usesWarm then 0 else wk_memoryMiB w in
  let additionalGuests := if usesWarm then 0 else 1 in
  let occupiedGuests := occupied_guests lg id m in
  if (mc_maxSlots m <? occupiedGuests + additionalGuests) ||
     over (rs_vcpus reserved + additionalVCPUs) usableVCPUs ||
     over (rs_memoryMiB reserved + additionalMemoryMiB) usableMemoryMiB ||
     negb (hasSnapshotHeadroomForGuests (rf_storage (wr_facts r)) (occupiedGuests + additionalGuests))
  then None
  else Some (Candidate id m usesWarm
    (num_max (num_max (pressure_of (rs_vcpus reserved) usableVCPUs)
                      (pressure_of (rs_memoryMiB reserved) usableMemoryMiB))
             (f_div (num_of_Z occupiedGuests) (num_of_Z (mc_maxSlots m))))
    (benchmarkScore (mc_benchmark m) policy now)).

Definition work_contract (profile : option profile) (w : work) : contract :=
  Contract (wk_executor w) (wk_imageRelease w) (profile ≫= pf_workerLabels).

Definition egress_of_opt (profile : option profile) : profile_egress :=
  match profile with Some p => profileEgressOf p | None => PUBLIC_EGRESS end.

(** The readiness rows of the work's Profile whose Worker may take it now. *)
Definition schedulable_rows (sn : snapshot) (w : work) : list (worker_readiness * (Id * machine)) :=
  let profile := sn_activeProfileByName sn !! wk_profile w in
  omap (λ r,
    let m := sn_machineById sn !! wr_machineId r in
    if isSchedulableReadiness r (sn_evidenceByMachineProfile sn !! (wr_machineId r, wr_profile r)) m
         (work_contract profile w) (egress_of_opt profile) (sn_now sn)
    then (λ m, (r, (wr_machineId r, m))) <$> m else None)
  (or_else [] (sn_readyByProfile sn !! wk_profile w)).

Definition fit_of (sn : snapshot) (w : work) : fit_policy :=
  or_else FitBalanced (sn_activeProfileByName sn !! wk_profile w ≫= pf_fitPolicy).

Definition candidates (sn : snapshot) (lg : ledger) (w : work) : list candidate :=
  omap (λ e, evaluate lg w (fit_of sn w) (sn_now sn) e.1 e.2.1 e.2.2) (schedulable_rows sn w).

Section placement.
(** [String.prototype.localeCompare] *)
Context (localeCompare : string → string → Z).

(** The comparator of the candidates: pressure, then benchmark, then name. *)
Definition compare_candidates (l r : candidate) : Z :=
  let p := num_cmp (cd_pressure l) (cd_pressure r) in
  if p =? 0 then
    let b := (cd_benchmark r).1 - (cd_benchmark l).1 in
    if b =? 0 then localeCompare (mc_name (cd_machine l)) (mc_name (cd_machine r)) else b
  else p.

(** The reservations after placing [w] on a candidate. *)
Definition consume (lg : ledger) (w : work) (c : candidate) : ledger :=
  let id := cd_id c in
  let key := (id, wk_profile w) in
  Ledger
    (if cd_usesWarm c then add_reservation id 0 0 0 (lg_reserved lg)
     else add_reservation id (wk_vcpus w) (wk_memoryMiB w) 1 (lg_reserved lg))
    (if cd_usesWarm c then <[key := or_else 1 (lg_idleWarm lg !! key) - 1]> (lg_idleWarm lg)
     else lg_idleWarm lg)
    (<[id := or_else 0 (lg_usedSlots lg !! id) + 1]> (lg_usedSlots lg)).

Definition placement : Type := option (Id * machine * selection).

(** One round of [placeInOrder]. *)
Definition place_one (sn : snapshot) (lg : ledger) (w : work) : placement * ledger :=
  let cs := to_sorted compare_candidates (candidates sn lg w) in
  match cs with
  | [] => (None, lg)
  | c :: _ =>
      (Some (cd_id c, cd_machine c,
         Selection (cd_pressure c) (fit_of sn w) (cd_benchmark c).1 (cd_benchmark c).2 (length cs)),
       consume lg w c)
  end.

Fixpoint placeInOrder {I} (work_of : I → work) (sn : snapshot) (lg : ledger) (items : list I)
    : list (I * placement) * ledger :=
  match items with
  | [] => ([], lg)
  | item :: items =>
      let '(p, lg1) := place_one sn lg (work_of item) in
      let '(ps, lg2) := placeInOrder work_of sn lg1 items in
      ((item, p) :: ps, lg2)
  end.

(** Unassigned work. *)
Inductive queue_item :=
  | QAttempt (id : Id) (a : attempt)
  | QExperiment (id : Id) (x : experiment).

Definition item_work (q : queue_item) : work :=
  match q with QAttempt _ a => work_of_attempt a | QExperiment _ x => work_of_experiment x end.

Definition unassignedQueue (sn : snapshot) : list queue_item :=
  to_sorted (λ l r, wk_createdAt (item_work l) - wk_createdAt (item_work r))
    (filter (λ q, matchesActiveProfile sn (item_work q) = true)
      ((((λ r, QAttempt r.1 r.2) <$>
          filter (λ r, at_machineId r.2 = None) (sn_pendingAttempts sn)) ++
        ((λ r, QExperiment r.1 r.2) <$>
          filter (λ r, xp_machineId r.2 = None) (sn_queuedExperiments sn))))).

Definition assign (assigned : Z) (pl : queue_item * placement) : tx db Z :=
  match pl.2 with
  | None => mret assigned
  | Some (id, _, reason) =>
      match pl.1 with
      | QAttempt i _ => db_patch attempts i
          (λ a, a <| at_machineId := Some id |> <| at_selectionReason := Some reason |>)
      | QExperiment i _ => db_patch experiments i
          (λ x, x <| xp_machineId := Some id |> <| xp_selectionReason := Some reason |>)
      end ≫= λ _, mret (assigned + 1)
  end.

(** The write-back of one [usedSlotsByMachine] entry. *)
Definition store_slots (sn : snapshot) (e : Id * Z) : tx db unit :=
  match sn_machineById sn !! e.1 with
  | Some m => when (mc_usedSlots m !== e.2)
                (db_patch machines e.1 (λ d, d <| mc_usedSlots := e.2 |>))
  | None => mret tt
  end.

Definition tryAssign (now : Z) : tx db Z :=
  pendingAttempts ← db_where attempts (λ a, at_state a === Pending);
  queuedExperiments ← db_where experiments (λ x, xp_state x === XQueued);
  if negb (existsb (λ r, is_none (at_machineId r.2)) pendingAttempts) &&
     negb (existsb (λ r, is_none (xp_machineId r.2)) queuedExperiments)
  then mret 0
  else
    sn ← loadSchedulerSnapshot now (Some (pendingAttempts, queuedExperiments));
    let '(placements, lg) := placeInOrder item_work sn (sn_ledger sn) (unassignedQueue sn) in
    assigned ← fold_tx assign 0 placements;
    for_each (map_to_list (lg_usedSlots lg)) (store_slots sn) ≫= λ _,
    mret assigned.

(** ** routing.ts *)

Inductive fallback_reason := UnknownProfile | PausedProfile | NoReadyWorker | Saturated.
Inductive route :=
  | RouteProfile (e : executor)
  | RouteFallback (reason : fallback_reason) (e : option executor).

(** [.take(n)].length of the live Attempts of a Profile in one state *)
Definition live_count (s : db) (profile : string) (maxRunners : Z) (st : attempt_state) : Z :=
  Z.of_nat (length (take (Z.to_nat maxRunners)
    (t_where (λ a, (at_profile a === profile) && (at_state a === st)) (attempts s)))).

Definition probe_work (p : profile) (now : Z) : work :=
  Work (pf_name p) (pf_executor p) (pf_imageRelease p) (pf_vcpus p) (pf_memoryMiB p) now.

(** The dry run: the probe is the last item, behind the whole queue. *)
Definition probe_placed (sn : snapshot) (p : profile) (now : Z) : bool :=
  let items := (item_work <$> unassignedQueue sn) ++ [probe_work p now] in
  match last (placeInOrder id sn (sn_ledger sn) items).1 with
  | Some (_, Some _) => true
  | _ => false
  end.

Definition profile_contract (p : profile) : contract :=
  Contract (pf_executor p) (pf_imageRelease p) (pf_workerLabels p).

Definition profileRoute (name : string) (now : Z) : tx db route :=
  found ← db_unique profiles (λ p, pf_name p === name);
  match found with
  | None => mret (RouteFallback UnknownProfile None)
  | Some (_, p) =>
      if pf_state p !== ProfileActive then mret (RouteFallback PausedProfile (Some (pf_executor p)))
      else
        sn ← loadSchedulerSnapshot now None;
        let readyWorkers := filter (λ r,
          isSchedulableReadiness r
            (sn_evidenceByMachineProfile sn !! (wr_machineId r, wr_profile r))
            (sn_machineById sn !! wr_machineId r) (profile_contract p) (profileEgressOf p) now = true)
          (or_else [] (sn_readyByProfile sn !! pf_name p)) in
        if Nat.eqb (length readyWorkers) 0
        then mret (RouteFallback NoReadyWorker (Some (pf_executor p)))
        else
          pending ← read (λ s, live_count s (pf_name p) (pf_maxRunners p) Pending);
          preparing ← read (λ s, live_count s (pf_name p) (pf_maxRunners p) Preparing);
          ready ← read (λ s, live_count s (pf_name p) (pf_maxRunners p) Ready);
          running ← read (λ s, live_count s (pf_name p) (pf_maxRunners p) Running);
          let live := pending + preparing + ready + running in
          if pf_maxRunners p <=? live then mret (RouteFallback Saturated (Some (pf_executor p)))
          else
            let waitingJobs := Z.max 0 (live - pf_minRunners p - running) in
            if waitingJobs <? ready then mret (RouteProfile (pf_executor p))
            else if probe_placed sn p now then mret (RouteProfile (pf_executor p))
            else mret (RouteFallback Saturated (Some (pf_executor p)))
  end.
End placement.
