(* ===== verification/Fixtures.v ===== *)
(** A small fleet used as the concrete input of the witnesses: one Linux Worker with complete
    Firecracker evidence, one Profile with a warm pool, and waiting Attempts. *)

From S2P Require Import Prelude JsLib Schema HostLabels Egress Isolation.

Definition demo_checks : list readiness_check :=
  (λ n, ReadinessCheck n true None) <$> FIRECRACKER_REQUIRED_CHECKS.

Definition demo_facts : readiness_facts :=
  ReadinessFacts (Some "firecracker-microvm") (Some GuestKernel) (Some demo_checks)
    (Some "immutable-image") (Some false)
    (Some (HardwareFacts (Some "x86_64") (Some 8) (Some 32768) None None (Some true)))
    (Some (StorageFacts (Some "devmapper") (Some "pool") (Some (num_of_Z 200000)) (Some (num_of_Z 100000))))
    (Some (NetworkFacts (Some "jobs")
      (Some "sha256:0123456789abcdef0123456789abcdef0123456789abcdef0123456789abcdef")
      (Some "10.0.0.0/24") (Some "public") None)).

Definition demo_profile : profile :=
  Profile "linux" "era-linux" Firecracker "release-1" 2 4096 (Some 1) None 0 8 None
    (Some "https://github.com/acme") None None None None ProfileActive 0.

Definition demo_machine : machine :=
  Machine "worker-1" Linux ["linux"] (Some "x86_64") (Some 8) (Some 32768) None None None None None
    3 0 1000 "token-1".

Definition demo_readiness : worker_readiness :=
  WorkerReadiness 0 "linux" Firecracker "release-1" (Some 2) (Some 4096) RReady 900 None
    (Some (WarmPool 1 1 0)) None None demo_facts.

Definition demo_evidence : readiness_evidence :=
  ReadinessEvidence 0 "linux" Firecracker "release-1" (Some 2) (Some 4096) 900 None None None
    demo_facts None.

Definition demo_attempt (name : string) (runnerId createdAt : Z) : attempt :=
  Attempt "linux" Firecracker "release-1" 2 4096 name runnerId Pending None None None createdAt
    None None None None None None None None None None None None None None None None None None None
    None None None None.

Definition demo_db : db :=
  db_empty <| machines := t_of [demo_machine] |> <| profiles := t_of [demo_profile] |>
    <| attempts := t_of [demo_attempt "r-0" 70 20; demo_attempt "r-1" 71 10] |>
    <| workerReadiness := t_of [demo_readiness] |>
    <| readinessEvidence := t_of [demo_evidence] |>.
