(* ===== verification/Placement.v ===== *)
(** Correctness of placement: the ledger of reservations covers the live work of every machine,
    placement keeps it so, and no machine is given more than it has. *)

From S2P Require Import Prelude JsLib Schema HostLabels Egress Isolation Benchmark Scheduler.
From S2P Require Import Fixtures.

(** ** Sums over finite maps *)

Section map_sums.
Context {K : Type} `{Countable K} {V : Type} (F : K → V → Z).

Definition map_zsum (m : gmap K V) : Z := zsum (λ e, F e.1 e.2) (map_to_list m).

Lemma map_zsum_insert_none m k v : m !! k = None → map_zsum (<[k := v]> m) = F k v + map_zsum m.
Proof. intros Hk. unfold map_zsum. by rewrite map_to_list_insert. Qed.

Lemma map_zsum_insert_some m k v v0 :
  m !! k = Some v0 → map_zsum (<[k := v]> m) + F k v0 = map_zsum m + F k v.
Proof.
  intros Hk. assert (map_zsum m = F k v0 + map_zsum (delete k m)) as ->.
  { rewrite <- map_zsum_insert_none by apply lookup_delete_eq. by rewrite insert_delete_id. }
  rewrite <- insert_delete_eq, map_zsum_insert_none by apply lookup_delete_eq. lia.
Qed.

Lemma map_zsum_nonneg m : (∀ k v, m !! k = Some v → 0 ≤ F k v) → 0 ≤ map_zsum m.
Proof. intros Hall. apply zsum_nonneg. intros [k v] Hkv%elem_of_map_to_list. by apply Hall. Qed.
End map_sums.

(** ** Loads

    A machine's load is measured in three dimensions: guests, virtual CPUs and memory. *)

Inductive dim := Guests | Vcpus | Memory.

Definition size_of (d : dim) (vcpus memoryMiB : Z) : Z :=
  match d with Guests => 1 | Vcpus => vcpus | Memory => memoryMiB end.

Definition res_of (d : dim) (r : reservation) : Z :=
  match d with Guests => rs_count r | Vcpus => rs_vcpus r | Memory => rs_memoryMiB r end.

(** What a machine has of each; [None] is not measured. *)
Definition capacity (d : dim) (m : machine) : option Z :=
  match d with Guests => Some (mc_maxSlots m) | Vcpus => mc_cpus m | Memory => mc_memoryMiB m end.

Definition live_size (d : dim) (id : Id) (w : live_work) : Z :=
  if decide (lw_machineId w = id) then size_of d (lw_vcpus w) (lw_memoryMiB w) else 0.

Definition live_load (d : dim) (id : Id) (l : list live_work) : Z := zsum (live_size d id) l.

Definition profile_size (d : dim) (ps : gmap string profile) (name : string) : Z :=
  match ps !! name with Some p => size_of d (pf_vcpus p) (pf_memoryMiB p) | None => 0 end.

Definition idle_size (d : dim) (ps : gmap string profile) (id : Id) (k : Id * string) (v : Z) : Z :=
  if decide (k.1 = id) then v * profile_size d ps k.2 else 0.

Definition idle_load (d : dim) (ps : gmap string profile) (id : Id) (idle : gmap (Id * string) Z) : Z :=
  map_zsum (idle_size d ps id) idle.

(** The work of a placement, on the machine it went to. *)
Definition placed_size (d : dim) (id : Id) {I} (work_of : I → work) (pl : I * placement) : Z :=
  match pl.2 with
  | Some (i, _, _) =>
      if decide (i = id) then size_of d (wk_vcpus (work_of pl.1)) (wk_memoryMiB (work_of pl.1)) else 0
  | None => 0
  end.

Definition placed_load (d : dim) (id : Id) {I} (work_of : I → work) (pls : list (I * placement)) : Z :=
  zsum (placed_size d id work_of) pls.

Definition idle_nonneg (idle : gmap (Id * string) Z) : Prop := ∀ k v, idle !! k = Some v → 0 ≤ v.

Definition profiles_sane (ps : gmap string profile) : Prop :=
  ∀ n p, ps !! n = Some p → 0 ≤ pf_vcpus p ∧ 0 ≤ pf_memoryMiB p.

(** The ledger covers a live load [L] of the machine: reservations count the live work and the
    idle part of the warm pools. *)
Definition covers (d : dim) (ps : gmap string profile) (lg : ledger) (id : Id) (L : Z) : Prop :=
  L + idle_load d ps id (lg_idleWarm lg) ≤ res_of d (reserved_of (lg_reserved lg) id).

Lemma profile_size_nonneg d ps n : profiles_sane ps → 0 ≤ profile_size d ps n.
Proof.
  intros H. unfold profile_size. destruct (ps !! n) as [p|] eqn:E; [|lia].
  destruct (H n p E). destruct d; simpl; lia.
Qed.

Lemma idle_size_nonneg d ps id k v : profiles_sane ps → 0 ≤ v → 0 ≤ idle_size d ps id k v.
Proof.
  intros H ?. unfold idle_size. case_decide; [|lia]. pose proof (profile_size_nonneg d ps k.2 H). nia.
Qed.

Lemma idle_load_nonneg d ps id idle : profiles_sane ps → idle_nonneg idle → 0 ≤ idle_load d ps id idle.
Proof.
  intros Hp Hi. apply map_zsum_nonneg. intros k v Hk. by apply idle_size_nonneg, (Hi k).
Qed.

Lemma reserved_of_add r id v m c id' :
  reserved_of (add_reservation id v m c r) id' =
  if decide (id = id') then
    Reservation (rs_vcpus (reserved_of r id) + v) (rs_memoryMiB (reserved_of r id) + m)
      (rs_count (reserved_of r id) + c)
  else reserved_of r id'.
Proof.
  unfold add_reservation, reserved_of at 1. case_decide as E.
  - subst. by rewrite lookup_insert_eq.
  - by rewrite lookup_insert_ne.
Qed.

(** ** Candidates *)

Section candidate_facts.
Context (lg : ledger) (w : work) (policy : fit_policy) (now : Z).

Lemma evaluate_Some r id m c :
  evaluate lg w policy now r id m = Some c →
  cd_id c = id ∧ cd_machine c = m ∧
  cd_usesWarm c = (0 <? idle_warm lg id (wk_profile w)) ∧
  (let add := if cd_usesWarm c then 0 else 1 in
   occupied_guests lg id m + add ≤ mc_maxSlots m ∧
   hasSnapshotHeadroomForGuests (rf_storage (wr_facts r)) (occupied_guests lg id m + add) = true) ∧
  over (rs_vcpus (reserved_of (lg_reserved lg) id) + (if cd_usesWarm c then 0 else wk_vcpus w))
    (usable (mc_cpus m) (wk_vcpus w)) = false ∧
  over (rs_memoryMiB (reserved_of (lg_reserved lg) id) + (if cd_usesWarm c then 0 else wk_memoryMiB w))
    (usable (mc_memoryMiB m) (wk_memoryMiB w)) = false.
Proof.
  unfold evaluate. cbv zeta. destruct (_ || _) eqn:E; [done|]. intros [= <-]. simpl.
  rewrite !orb_false_iff, Z.ltb_ge, negb_false_iff in E. tauto.
Qed.
End candidate_facts.

Lemma schedulable_rows_elem sn w r id m :
  (r, (id, m)) ∈ schedulable_rows sn w →
  id = wr_machineId r ∧ sn_machineById sn !! id = Some m ∧
  r ∈ or_else [] (sn_readyByProfile sn !! wk_profile w) ∧
  isSchedulableReadiness r (sn_evidenceByMachineProfile sn !! (wr_machineId r, wr_profile r)) (Some m)
    (work_contract (sn_activeProfileByName sn !! wk_profile w) w)
    (egress_of_opt (sn_activeProfileByName sn !! wk_profile w)) (sn_now sn) = true.
Proof.
  unfold schedulable_rows. intros (r' & Hr & E)%list_elem_of_omap. cbv zeta in E.
  destruct (isSchedulableReadiness _ _ _ _ _ _) eqn:Es; [|done].
  destruct (sn_machineById sn !! wr_machineId r') as [m'|] eqn:Em; [|done]. simplify_eq/=. done.
Qed.

Lemma candidates_elem sn lg w c :
  c ∈ candidates sn lg w →
  ∃ r, (r, (cd_id c, cd_machine c)) ∈ schedulable_rows sn w ∧
    evaluate lg w (fit_of sn w) (sn_now sn) r (cd_id c) (cd_machine c) = Some c.
Proof.
  unfold candidates. intros ([r [id m]] & Hr & E)%list_elem_of_omap. simpl in E.
  pose proof E as (<- & <- & _)%evaluate_Some. by exists r.
Qed.

Lemma usable_le cap need u : 0 ≤ cap → usable (Some cap) need = Some u → u ≤ cap.
Proof. simpl. intros ? [= <-]. case_match; [lia|]. Z.div_mod_to_equations. lia. Qed.

Definition machine_sane (m : machine) : Prop :=
  0 < mc_maxSlots m ∧ (∀ c, mc_cpus m = Some c → 0 < c) ∧ (∀ c, mc_memoryMiB m = Some c → 0 < c).

Definition within (d : dim) (m : machine) (r : reservation) : Prop :=
  ∀ c, capacity d m = Some c → res_of d r ≤ c.

Lemma over_within amount cap need :
  (∀ c, cap = Some c → 0 < c) → over amount (usable cap need) = false →
  ∀ c, cap = Some c → amount ≤ c.
Proof.
  intros Hs Ho c ->. pose proof (Hs c eq_refl). destruct (usable (Some c) need) as [u|] eqn:Eu; [|done].
  apply usable_le in Eu; [|lia]. simpl in Ho. lia.
Qed.

(** ** Consuming the ledger *)

Section consume_facts.
Context (sn : snapshot) (lg : ledger) (w : work) (c : candidate) (r : worker_readiness).
Hypothesis Hev : evaluate lg w (fit_of sn w) (sn_now sn) r (cd_id c) (cd_machine c) = Some c.

Lemma consume_reserved id :
  reserved_of (lg_reserved (consume lg w c)) id =
  if decide (cd_id c = id) then
    let old := reserved_of (lg_reserved lg) id in
    Reservation (rs_vcpus old + if cd_usesWarm c then 0 else wk_vcpus w)
      (rs_memoryMiB old + if cd_usesWarm c then 0 else wk_memoryMiB w)
      (rs_count old + if cd_usesWarm c then 0 else 1)
  else reserved_of (lg_reserved lg) id.
Proof.
  unfold consume. simpl. destruct (cd_usesWarm c); rewrite reserved_of_add; case_decide; by subst.
Qed.

(** The chosen machine stays within its capacity. *)
Lemma consume_within d :
  machine_sane (cd_machine c) →
  within d (cd_machine c) (reserved_of (lg_reserved (consume lg w c)) (cd_id c)).
Proof.
  intros (_ & Hc & Hm) cap Hcap. apply evaluate_Some in Hev as (_ & _ & _ & [Hg _] & Hv & Hmem).
  rewrite consume_reserved, decide_True by done. destruct d; simpl in *.
  - simplify_eq. unfold occupied_guests in Hg. lia.
  - eapply over_within in Hv; eauto.
  - eapply over_within in Hmem; eauto.
Qed.

Lemma warm_lookup : cd_usesWarm c = true →
  ∃ v, lg_idleWarm lg !! (cd_id c, wk_profile w) = Some v ∧ 0 < v.
Proof.
  apply evaluate_Some in Hev as (_ & _ & -> & _). unfold idle_warm.
  destruct (lg_idleWarm lg !! _) as [v|]; simpl; [|done]. exists v. split; [done|]. lia.
Qed.

Lemma consume_idle_nonneg : idle_nonneg (lg_idleWarm lg) → idle_nonneg (lg_idleWarm (consume lg w c)).
Proof.
  intros Hi k v. unfold consume. simpl. destruct (cd_usesWarm c) eqn:Ew; [|apply Hi].
  destruct (warm_lookup Ew) as (v0 & -> & ?). simpl.
  rewrite lookup_insert_Some. intros [[<- <-]|[_ Hk]]; [lia|by apply Hi in Hk].
Qed.

(** A reservation covers the work placed: either it grew by the work's size, or an idle warm
    guest of that size became live. *)
Lemma consume_covers d ps id L :
  profile_size d ps (wk_profile w) = size_of d (wk_vcpus w) (wk_memoryMiB w) →
  covers d ps lg id L →
  covers d ps (consume lg w c) id
    (L + if decide (cd_id c = id) then size_of d (wk_vcpus w) (wk_memoryMiB w) else 0).
Proof.
  intros Hsz. unfold covers. rewrite consume_reserved.
  unfold consume. cbn [lg_idleWarm]. destruct (cd_usesWarm c) eqn:Ew.
  - destruct (warm_lookup Ew) as (v & Hv & _). rewrite Hv. simpl or_else.
    pose proof (map_zsum_insert_some (idle_size d ps id) _ _ (v - 1) _ Hv) as Hsum.
    unfold idle_load. unfold idle_size in Hsum at 2 4. cbn [fst snd] in Hsum.
    case_decide; [|lia]. rewrite Hsz in Hsum. destruct d; simpl in *; nia.
  - case_decide; [|lia]. destruct d; simpl; lia.
Qed.

Lemma consume_used id u :
  lg_usedSlots lg !! id = Some u →
  lg_usedSlots (consume lg w c) !! id = Some (u + if decide (cd_id c = id) then 1 else 0).
Proof.
  intros Hu. unfold consume. simpl. case_decide; subst.
  - by rewrite lookup_insert_eq, Hu.
  - rewrite lookup_insert_ne by done. rewrite Hu. f_equal. lia.
Qed.
End consume_facts.

(** ** Placing a queue *)

Section placing.
Context (localeCompare : string → string → Z) (sn : snapshot).
Context {I : Type} (work_of : I → work).
Implicit Types (items : list I) (pls : list (I * placement)).

Lemma place_one_None lg w lg' :
  place_one localeCompare sn lg w = (None, lg') → lg' = lg ∧ candidates sn lg w = [].
Proof.
  unfold place_one. destruct (to_sorted _ _) as [|c cs] eqn:E; [|done]. intros [= <-].
  split; [done|]. destruct (candidates sn lg w) as [|c cs]; [done|].
  pose proof (length_to_sorted (compare_candidates localeCompare) (c :: cs)) as Hl. by rewrite E in Hl.
Qed.

Lemma place_one_Some lg w id m sel lg' :
  place_one localeCompare sn lg w = (Some (id, m, sel), lg') →
  ∃ c r, head (to_sorted (compare_candidates localeCompare) (candidates sn lg w)) = Some c ∧
    c ∈ candidates sn lg w ∧ cd_id c = id ∧ cd_machine c = m ∧ lg' = consume lg w c ∧
    (r, (id, m)) ∈ schedulable_rows sn w ∧
    evaluate lg w (fit_of sn w) (sn_now sn) r (cd_id c) (cd_machine c) = Some c.
Proof.
  unfold place_one. destruct (to_sorted _ _) as [|c cs] eqn:E; [done|]. intros [= <- <- <- <-].
  assert (c ∈ candidates sn lg w) as Hc.
  { rewrite <- (elem_of_to_sorted (compare_candidates localeCompare)), E. left. }
  destruct (candidates_elem _ _ _ _ Hc) as (r & ? & ?). by exists c, r.
Qed.

Definition sizes_agree (w : work) : Prop :=
  ∀ d, profile_size d (sn_activeProfileByName sn) (wk_profile w) = size_of d (wk_vcpus w) (wk_memoryMiB w).

Lemma matches_sizes w : matchesActiveProfile sn w = true → sizes_agree w.
Proof.
  unfold matchesActiveProfile, sizes_agree, profile_size. intros H d. case_match; [|done].
  rewrite !andb_true_iff, !bool_decide_eq_true in H. destruct H as [[_ ->] ->]. done.
Qed.

Lemma placeInOrder_covers d id items lg L pls lg' :
  (∀ i, i ∈ items → sizes_agree (work_of i)) → idle_nonneg (lg_idleWarm lg) →
  covers d (sn_activeProfileByName sn) lg id L →
  placeInOrder localeCompare work_of sn lg items = (pls, lg') →
  idle_nonneg (lg_idleWarm lg') ∧
  covers d (sn_activeProfileByName sn) lg' id (L + placed_load d id work_of pls).
Proof.
  revert lg L pls lg'. induction items as [|i items IH]; intros lg L pls lg' Hm Hi Hc; simpl.
  { intros [= <- <-]. split; [done|]. by rewrite Z.add_0_r. }
  destruct (place_one localeCompare sn lg (work_of i)) as [p lg1] eqn:Ep.
  destruct (placeInOrder localeCompare work_of sn lg1 items) as [ps lg2] eqn:Eps.
  intros [= <- <-]. unfold placed_load. simpl. fold (placed_load d id work_of ps).
  rewrite Z.add_assoc. eapply IH; [|..|exact Eps].
  - intros; apply Hm; by right.
  - destruct p as [[[id1 m1] sel]|].
    + apply place_one_Some in Ep as (c & r & _ & _ & <- & <- & -> & _ & Hev).
      by eapply consume_idle_nonneg.
    + apply place_one_None in Ep as [-> _]. done.
  - destruct p as [[[id1 m1] sel]|].
    + apply place_one_Some in Ep as (c & r & _ & _ & <- & <- & -> & _ & Hev).
      unfold placed_size. simpl. eapply consume_covers; [done| |done]. apply Hm. left.
    + apply place_one_None in Ep as [-> _]. unfold placed_size. simpl. by rewrite Z.add_0_r.
Qed.

Lemma placeInOrder_within items lg pls lg' :
  (∀ id m, sn_machineById sn !! id = Some m → machine_sane m) →
  placeInOrder localeCompare work_of sn lg items = (pls, lg') →
  ∀ id, (reserved_of (lg_reserved lg') id = reserved_of (lg_reserved lg) id ∧
         ∀ i p, (i, p) ∈ pls → ∀ m sel, p ≠ Some (id, m, sel)) ∨
    (∃ m, sn_machineById sn !! id = Some m ∧ ∀ d, within d m (reserved_of (lg_reserved lg') id)).
Proof.
  intros Hsane. revert lg pls lg'. induction items as [|i items IH]; intros lg pls lg'; simpl.
  { intros [= <- <-] id. left. split; [done|]. by intros ?? ?%elem_of_nil. }
  destruct (place_one localeCompare sn lg (work_of i)) as [p lg1] eqn:Ep.
  destruct (placeInOrder localeCompare work_of sn lg1 items) as [ps lg2] eqn:Eps.
  intros [= <- <-] id. destruct (IH _ _ _ Eps id) as [[Hr Hps]|?]; [|by right].
  destruct p as [[[id1 m1] sel]|].
  - apply place_one_Some in Ep as (c & r & _ & _ & <- & <- & -> & Hrow & Hev).
    apply schedulable_rows_elem in Hrow as (_ & Hmach & _). rewrite Hr.
    destruct (decide (cd_id c = id)) as [<-|Hne].
    + right. exists (cd_machine c). split; [done|]. intros d. eapply consume_within; eauto.
    + left. split; [by rewrite consume_reserved, decide_False by done|].
      intros j p [[= -> ->]|?]%elem_of_cons m sel'; [naive_solver|by eapply Hps].
  - apply place_one_None in Ep as [-> _]. left. split; [done|].
    intros j p [[= -> ->]|?]%elem_of_cons m sel'; [done|by eapply Hps].
Qed.

Lemma placeInOrder_used items lg pls lg' id u :
  lg_usedSlots lg !! id = Some u →
  placeInOrder localeCompare work_of sn lg items = (pls, lg') →
  lg_usedSlots lg' !! id = Some (u + placed_load Guests id work_of pls).
Proof.
  revert lg pls lg' u. induction items as [|i items IH]; intros lg pls lg' u Hu; simpl.
  { intros [= <- <-]. rewrite Hu. f_equal. unfold placed_load. simpl. lia. }
  destruct (place_one localeCompare sn lg (work_of i)) as [p lg1] eqn:Ep.
  destruct (placeInOrder localeCompare work_of sn lg1 items) as [ps lg2] eqn:Eps.
  intros [= <- <-]. unfold placed_load. simpl. fold (placed_load Guests id work_of ps).
  rewrite Z.add_assoc. eapply IH; [|exact Eps]. destruct p as [[[id1 m1] sel]|].
  - apply place_one_Some in Ep as (c & r & _ & _ & <- & <- & -> & _ & _).
    rewrite (consume_used _ _ _ _ _ Hu). unfold placed_size. simpl. done.
  - apply place_one_None in Ep as [-> _]. rewrite Hu. unfold placed_size. simpl. f_equal. lia.
Qed.

Lemma placeInOrder_items items lg : (placeInOrder localeCompare work_of sn lg items).1.*1 = items.
Proof.
  revert lg. induction items as [|i items IH]; intros lg; simpl; [done|].
  destruct (place_one _ _ _ _) as [p lg1] eqn:Ep. specialize (IH lg1).
  destruct (placeInOrder _ _ _ _ _) as [ps lg2]. cbn [fst] in *.
  rewrite fmap_cons. by f_equal.
Qed.
End placing.

(** ** The choice among candidates *)

Lemma num_cmp_opp a b : not_nan a → not_nan b → num_cmp b a = - num_cmp a b.
Proof.
  destruct a as [p| | |], b as [q| | |]; try done. intros _ _. simpl.
  rewrite <- (Qcompare_antisym p q). by destruct (Qcompare p q).
Qed.

Lemma num_cmp_fin_le p q : num_cmp (Fin p) (Fin q) ≤ 0 ↔ (p <= q)%Q.
Proof. simpl. rewrite Qle_alt. destruct (Qcompare p q); split; try done; lia. Qed.

Lemma num_cmp_trans a b c :
  not_nan a → not_nan b → not_nan c → num_cmp a b ≤ 0 → num_cmp b c ≤ 0 → num_cmp a c ≤ 0.
Proof.
  destruct a, b, c; try done. intros _ _ _. rewrite !num_cmp_fin_le. apply Qle_trans.
Qed.

Lemma usable_positive cap need u :
  (∀ c, cap = Some c → 0 < c) → 1 ≤ need → usable cap need = Some u → 0 < u.
Proof.
  intros Hc Hn. destruct cap as [c|]; [|done]. specialize (Hc c eq_refl). simpl. intros [= <-].
  case_match; [lia|]. Z.div_mod_to_equations. lia.
Qed.

Lemma pressure_not_nan amount cap need :
  (∀ c, cap = Some c → 0 < c) → 1 ≤ need → not_nan (pressure_of amount (usable cap need)).
Proof.
  intros Hc Hn. unfold pressure_of. destruct (usable cap need) as [u|] eqn:E; [|done].
  apply f_div_not_nan; [done|]. apply usable_positive in E; [lia|done..].
Qed.

Lemma num_max_not_nan a b : not_nan a → not_nan b → not_nan (num_max a b).
Proof. by destruct a, b. Qed.

Lemma evaluate_pressure lg w policy now r id m c :
  machine_sane m → 1 ≤ wk_vcpus w → 1 ≤ wk_memoryMiB w →
  evaluate lg w policy now r id m = Some c → not_nan (cd_pressure c).
Proof.
  intros (Hs & Hc & Hm) ??. unfold evaluate. cbv zeta. case_match; [done|]. intros [= <-]. simpl.
  apply num_max_not_nan; [apply num_max_not_nan; by apply pressure_not_nan|].
  apply f_div_not_nan; [done|lia].
Qed.

Section choice.
Context (localeCompare : string → string → Z) `{!Consistent localeCompare}.

Definition comparable (c : candidate) : Prop := not_nan (cd_pressure c).

Lemma compare_candidates_le l r :
  compare_candidates localeCompare l r ≤ 0 ↔
  num_cmp (cd_pressure l) (cd_pressure r) < 0 ∨
  num_cmp (cd_pressure l) (cd_pressure r) = 0 ∧
    ((cd_benchmark r).1 < (cd_benchmark l).1 ∨
     (cd_benchmark r).1 = (cd_benchmark l).1 ∧
     localeCompare (mc_name (cd_machine l)) (mc_name (cd_machine r)) ≤ 0).
Proof.
  unfold compare_candidates. cbv zeta.
  destruct (Z.eqb_spec (num_cmp (cd_pressure l) (cd_pressure r)) 0);
  destruct (Z.eqb_spec ((cd_benchmark r).1 - (cd_benchmark l).1) 0); lia.
Qed.

#[export] Instance compare_candidates_consistent :
  ConsistentOn (compare_candidates localeCompare) comparable.
Proof.
  split; unfold comparable.
  - intros a b Ha Hb. rewrite !compare_candidates_le, (num_cmp_opp (cd_pressure a)) by done.
    destruct (@cmp_total _ localeCompare (λ _, True) _ (mc_name (cd_machine a)) (mc_name (cd_machine b))
      I I); lia.
  - intros a b c Ha Hb Hc. rewrite !compare_candidates_le.
    pose proof (num_cmp_trans _ _ _ Ha Hb Hc) as H1.
    pose proof (num_cmp_trans _ _ _ Hb Hc Ha) as H2.
    pose proof (num_cmp_trans _ _ _ Hc Ha Hb) as H3.
    rewrite (num_cmp_opp (cd_pressure a) (cd_pressure c)), (num_cmp_opp (cd_pressure b) (cd_pressure c)),
      (num_cmp_opp (cd_pressure a) (cd_pressure b)) in * by done.
    pose proof (@cmp_trans _ localeCompare (λ _, True) _ (mc_name (cd_machine a)) (mc_name (cd_machine b))
      (mc_name (cd_machine c)) I I I). lia.
Qed.
End choice.

(** A Worker with room for the work now, by the rules of the scheduler. *)
Definition has_room (sn : snapshot) (lg : ledger) (w : work) (r : worker_readiness) (id : Id)
    (m : machine) : Prop :=
  let add := if 0 <? idle_warm lg id (wk_profile w) then 0 else 1 in
  occupied_guests lg id m + add ≤ mc_maxSlots m ∧
  over (rs_vcpus (reserved_of (lg_reserved lg) id) + add * wk_vcpus w)
    (usable (mc_cpus m) (wk_vcpus w)) = false ∧
  over (rs_memoryMiB (reserved_of (lg_reserved lg) id) + add * wk_memoryMiB w)
    (usable (mc_memoryMiB m) (wk_memoryMiB w)) = false ∧
  hasSnapshotHeadroomForGuests (rf_storage (wr_facts r)) (occupied_guests lg id m + add) = true.

Lemma evaluate_has_room sn lg w r id m :
  (∃ c, evaluate lg w (fit_of sn w) (sn_now sn) r id m = Some c) ↔ has_room sn lg w r id m.
Proof.
  unfold evaluate, has_room. cbv zeta. split.
  - intros (c & H). destruct (_ || _) eqn:E in H; [done|]. clear H.
    rewrite !orb_false_iff, Z.ltb_ge, negb_false_iff in E.
    destruct (0 <? _); rewrite ?Z.mul_0_l, ?Z.mul_1_l; tauto.
  - intros (H1 & H2 & H3 & H4). destruct (_ || _) eqn:E; [exfalso|eauto].
    apply not_false_iff_true in E. apply E.
    rewrite !orb_false_iff, Z.ltb_ge, negb_false_iff.
    destruct (0 <? _); rewrite ?Z.mul_0_l, ?Z.mul_1_l in *; tauto.
Qed.

(** C35: a unit of work is left unplaced exactly when no Worker that is schedulable for it has
    room; otherwise it goes to a schedulable Worker with room whose resource pressure is least,
    the benchmark score breaking ties and the machine name breaking those. *)
Theorem placement_choice localeCompare (HL : Consistent localeCompare) sn lg w :
  (∀ id m, sn_machineById sn !! id = Some m → machine_sane m) →
  1 ≤ wk_vcpus w → 1 ≤ wk_memoryMiB w →
  match (place_one localeCompare sn lg w).1 with
  | None => ∀ r id m, (r, (id, m)) ∈ schedulable_rows sn w → ¬ has_room sn lg w r id m
  | Some (id, m, _) =>
      ∃ c r, (r, (id, m)) ∈ schedulable_rows sn w ∧ has_room sn lg w r id m ∧
        evaluate lg w (fit_of sn w) (sn_now sn) r id m = Some c ∧
        ∀ c', c' ∈ candidates sn lg w → compare_candidates localeCompare c c' ≤ 0
  end.
Proof.
  intros Hsane Hv Hm. destruct (place_one localeCompare sn lg w) as [[[[id m] sel]|] lg'] eqn:Ep; simpl.
  - apply place_one_Some in Ep as (c & r & Hh & Hc & <- & <- & _ & Hrow & Hev).
    exists c, r. split_and!; [done|apply evaluate_has_room; eauto|done|].
    apply (to_sorted_head (compare_candidates localeCompare) comparable (candidates sn lg w) c);
      [|exact Hh]. apply Forall_forall. intros c' Hc'.
    destruct (candidates_elem _ _ _ _ Hc') as (r' & Hrow' & Hev').
    apply schedulable_rows_elem in Hrow' as (_ & Hmach & _).
    eapply evaluate_pressure; [by eapply Hsane|done..].
  - apply place_one_None in Ep as [_ Hnil]. intros r id m Hrow Hroom.
    apply evaluate_has_room in Hroom as [c Hc].
    assert (c ∈ candidates sn lg w) as Hin.
    { apply list_elem_of_omap. by exists (r, (id, m)). }
    rewrite Hnil in Hin. by apply elem_of_nil in Hin.
Qed.

(** ** The snapshot *)

Section map_of_facts.
Context {K V : Type} `{Countable K}.
Implicit Types (l : list (K * V)).

Lemma map_of_list_to_map l : map_of l = list_to_map (M := gmap K V) (reverse l).
Proof.
  unfold map_of. rewrite <- (app_nil_r (reverse l)).
  change (∅ : gmap K V) with (list_to_map (M := gmap K V) (@nil (K * V))).
  generalize (@nil (K * V)). induction l as [|[k v] l IH]; intros acc; simpl.
  - done.
  - rewrite reverse_cons, <- app_assoc. simpl. by rewrite <- IH.
Qed.

Lemma map_of_elem l k v : map_of l !! k = Some v → (k, v) ∈ l.
Proof.
  rewrite map_of_list_to_map. intros Hk%elem_of_list_to_map_2. by rewrite elem_of_reverse in Hk.
Qed.

Lemma map_of_lookup l k v : NoDup l.*1 → (k, v) ∈ l → map_of l !! k = Some v.
Proof.
  intros Hnd Hin. rewrite map_of_list_to_map. apply elem_of_list_to_map_1.
  - by rewrite fmap_reverse, reverse_Permutation.
  - by rewrite elem_of_reverse.
Qed.
End map_of_facts.

(** The load the live work of the store puts on a machine. *)
Definition attempt_load (d : dim) (id : Id) (a : attempt) : Z :=
  match live_attempt a with Some w => live_size d id w | None => 0 end.

Definition experiment_load (d : dim) (id : Id) (x : experiment) : Z :=
  match live_experiment x with Some w => live_size d id w | None => 0 end.

Definition db_load (d : dim) (id : Id) (s : db) : Z :=
  t_sum (attempt_load d id) (attempts s) + t_sum (experiment_load d id) (experiments s).

Lemma live_load_app d id l l' : live_load d id (l ++ l') = live_load d id l + live_load d id l'.
Proof. apply zsum_app. Qed.

Lemma reserve_live_load d id live acc :
  res_of d (reserved_of (fold_left reserve_live live acc).1 id) =
  res_of d (reserved_of acc.1 id) + live_load d id live.
Proof.
  unfold live_load. revert acc. induction live as [|w live IH]; intros acc; simpl; [lia|].
  rewrite IH. simpl. rewrite reserved_of_add. unfold live_size at 2.
  case_decide; subst; destruct d; simpl; lia.
Qed.

Section idle.
Context (ps : gmap string profile) (ms : gmap Id machine) (active : gmap (Id * string) Z).
Hypothesis Hps : profiles_sane ps.

Definition idle_covered (d : dim) (id : Id) (L : Z)
    (acc : gmap Id reservation * gmap (Id * string) Z) : Prop :=
  idle_nonneg acc.2 ∧ L + idle_load d ps id acc.2 ≤ res_of d (reserved_of acc.1 id).

Lemma reserve_idle_covered d id L acc r :
  idle_covered d id L acc → idle_covered d id L (reserve_idle ps ms active acc r).
Proof.
  intros [Hi Hc]. unfold reserve_idle.
  destruct (wr_warmPool r) as [wp|]; [|done]. destruct (ms !! wr_machineId r); [|done].
  destruct (ps !! wr_profile r) as [p|] eqn:Ep; [|done]. case_match; [done|].
  set (idle := Z.max 0 _). case_match; [done|]. split; simpl.
  - intros k v. rewrite lookup_insert_Some. intros [[_ <-]|[_ ?%Hi]]; lia.
  - assert (idle_load d ps id (<[(wr_machineId r, wr_profile r) := idle]> acc.2) ≤
      idle_load d ps id acc.2 + idle_size d ps id (wr_machineId r, wr_profile r) idle) as Hle.
    { unfold idle_load. destruct (acc.2 !! (wr_machineId r, wr_profile r)) as [v0|] eqn:E0.
      - pose proof (map_zsum_insert_some (idle_size d ps id) _ _ idle _ E0).
        pose proof (idle_size_nonneg d ps id (wr_machineId r, wr_profile r) v0 Hps).
        apply Hi in E0. lia.
      - rewrite map_zsum_insert_none by done. lia. }
    unfold idle_size in Hle. simpl in Hle. rewrite reserved_of_add.
    unfold profile_size in Hle. rewrite Ep in Hle. case_decide; [|lia].
    subst id. destruct d; simpl in *; nia.
Qed.

Lemma reserve_idle_fold d id L rs acc :
  idle_covered d id L acc → idle_covered d id L (fold_left (reserve_idle ps ms active) rs acc).
Proof. revert acc. induction rs as [|r rs IH]; intros acc H; simpl; auto using reserve_idle_covered. Qed.
End idle.

Lemma live_attempts_load d id s :
  live_load d id (omap (live_attempt ∘ snd)
    (t_where (λ a, at_state a === Pending) (attempts s) ++
     concat ((λ st, t_where (λ a, at_state a === st) (attempts s)) <$> RESERVED_ATTEMPT_STATES))) =
  t_sum (attempt_load d id) (attempts s).
Proof.
  change (_ ++ concat _) with
    (concat ((λ st, t_where (λ a, at_state a === st) (attempts s)) <$> (Pending :: RESERVED_ATTEMPT_STATES))).
  unfold live_load. rewrite zsum_omap. unfold t_where, t_sum.
  rewrite (zsum_partition (λ r, at_state r.2)).
  - apply zsum_ext. intros [i a] _. simpl. unfold attempt_load. done.
  - repeat constructor; set_solver.
  - intros [i a] _ Hst. simpl in *. unfold live_attempt.
    destruct (at_state a); try done; exfalso; apply Hst; set_solver.
Qed.

Lemma live_experiments_load d id s :
  live_load d id (omap (live_experiment ∘ snd)
    (t_where (λ x, xp_state x === XQueued) (experiments s) ++
     concat ((λ st, t_where (λ x, xp_state x === st) (experiments s)) <$> RESERVED_EXPERIMENT_STATES))) =
  t_sum (experiment_load d id) (experiments s).
Proof.
  change (_ ++ concat _) with
    (concat ((λ st, t_where (λ x, xp_state x === st) (experiments s)) <$> (XQueued :: RESERVED_EXPERIMENT_STATES))).
  unfold live_load. rewrite zsum_omap. unfold t_where, t_sum.
  rewrite (zsum_partition (λ r, xp_state r.2)).
  - apply zsum_ext. intros [i a] _. simpl. unfold experiment_load. done.
  - repeat constructor; set_solver.
  - intros [i a] _ Hst. simpl in *. unfold live_experiment.
    destruct (xp_state a); try done; exfalso; apply Hst; set_solver.
Qed.

(** The queues a snapshot is loaded with are those of the store. *)
Definition queues_of (s : db) : list (Id * attempt) * list (Id * experiment) :=
  (t_where (λ a, at_state a === Pending) (attempts s), t_where (λ x, xp_state x === XQueued) (experiments s)).

Definition online (now : Z) (m : machine) : bool := now - WORKER_OFFLINE_AFTER_MS <? mc_lastSeen m.

Record snapshot_of (now : Z) (s : db) (sn : snapshot) : Prop := {
  so_now : sn_now sn = now;
  so_queues : (sn_pendingAttempts sn, sn_queuedExperiments sn) = queues_of s;
  so_machines : sn_machineById sn = map_of (t_where (online now) (machines s));
  so_profiles : sn_activeProfileByName sn =
    map_of ((λ p, (pf_name p.2, p.2)) <$> t_where (λ p, pf_state p === ProfileActive) (profiles s));
  so_used : lg_usedSlots (sn_ledger sn) =
    map_of ((λ m, (m.1, mc_usedSlots m.2)) <$> t_where (online now) (machines s));
  so_covers : profiles_sane (sn_activeProfileByName sn) →
    idle_nonneg (lg_idleWarm (sn_ledger sn)) ∧
    ∀ d id, covers d (sn_activeProfileByName sn) (sn_ledger sn) id (db_load d id s);
}.

Lemma loadSchedulerSnapshot_done now pending s sn s' :
  pending = None ∨ pending = Some (queues_of s) →
  loadSchedulerSnapshot now pending s = Done (sn, s') → s' = s ∧ snapshot_of now s sn.
Proof.
  intros Hp. unfold loadSchedulerSnapshot.
  intros (pa & s1 & Epa & H)%bind_done.
  assert (s1 = s ∧ pa = (queues_of s).1) as [-> ->] by (destruct Hp as [->| ->]; by inversion Epa).
  apply bind_done in H as (qx & s1 & Eqx & H).
  assert (s1 = s ∧ qx = (queues_of s).2) as [-> ->] by (destruct Hp as [->| ->]; by inversion Eqx).
  apply bind_done in H as (ar & s1 & Ear & H).
  rewrite (map_tx_where attempts (λ st a, at_state a === st)) in Ear. injection Ear as <- <-.
  apply bind_done in H as (xr & s1 & Exr & H).
  rewrite (map_tx_where experiments (λ st x, xp_state x === st)) in Exr. injection Exr as <- <-.
  apply bind_done in H as (ms & s1 & [= <- <-] & H).
  apply bind_done in H as (prs & s1 & [= <- <-] & H).
  apply bind_done in H as (rr & s1 & Err & H).
  rewrite (map_tx_where workerReadiness
    (λ ps r, (wr_profile r === pf_name ps.1) && (wr_state r === ps.2))) in Err. injection Err as <- <-.
  apply bind_done in H as (ev & s1 & Eev & H). cbv zeta in Eev.
  apply map_tx_pure in Eev as ->; [|by intros ???? [-> _]%db_unique_done].
  revert H. set (rows := snd <$> concat _). cbv zeta.
  set (live := omap _ _ ++ omap _ _).
  destruct (fold_left reserve_live live (∅, ∅)) as [res act] eqn:El.
  set (pmap := map_of _). set (mmap := map_of (t_where _ _)).
  destruct (fold_left (reserve_idle pmap mmap act) rows (res, ∅)) as [res' idle] eqn:Ei.
  intros [= <- <-]. split; [done|]. split; simpl; try done. intros Hsane.
  assert (∀ d id, idle_covered pmap d id (db_load d id s) (res', idle)) as Hall.
  { intros d id. rewrite <- Ei. apply reserve_idle_fold; [done|]. split; simpl; [done|].
    unfold idle_load, map_zsum. rewrite map_to_list_empty. simpl.
    change res with ((res, act).1). rewrite <- El, reserve_live_load. simpl.
    unfold live. rewrite live_load_app. unfold queues_of. simpl fst. simpl snd.
    rewrite live_attempts_load, live_experiments_load. unfold db_load.
    unfold reserved_of. rewrite lookup_empty. destruct d; simpl; lia. }
  split; [by destruct (Hall Guests 0%nat)|]. intros d id. by destruct (Hall d id).
Qed.

(** ** tryAssign *)

Definition item_key (q : queue_item) : Id + Id :=
  match q with QAttempt i _ => inl i | QExperiment i _ => inr i end.

(** The item is still in the store as the queue read it: waiting and unassigned. *)
Definition item_present (s : db) (q : queue_item) : Prop :=
  match q with
  | QAttempt i a => rows (attempts s) !! i = Some a ∧ at_state a = Pending ∧ at_machineId a = None
  | QExperiment i x => rows (experiments s) !! i = Some x ∧ xp_state x = XQueued ∧ xp_machineId x = None
  end.

Section queue.
Context (now : Z) (s : db) (sn : snapshot) (Hsn : snapshot_of now s sn).

Lemma unassignedQueue_elem q :
  q ∈ unassignedQueue sn → matchesActiveProfile sn (item_work q) = true ∧ item_present s q.
Proof.
  destruct Hsn as [_ Hq _ _ _ _]. unfold queues_of in Hq. injection Hq as Hp Hx.
  unfold unassignedQueue. rewrite elem_of_to_sorted, list_elem_of_filter, elem_of_app.
  intros [Hm [Hin|Hin]]; (split; [done|]); apply list_elem_of_fmap in Hin as ([i a] & -> & Hin);
    apply list_elem_of_filter in Hin as [Hn Hin]; simpl in Hn.
  - rewrite Hp in Hin. apply t_where_sound in Hin as [? Hst]. by apply bool_decide_eq_true in Hst.
  - rewrite Hx in Hin. apply t_where_sound in Hin as [? Hst]. by apply bool_decide_eq_true in Hst.
Qed.

Lemma NoDup_fmap_filter {A B} (f : A → B) (P : A → Prop) `{∀ x, Decision (P x)} (l : list A) :
  NoDup (f <$> l) → NoDup (f <$> filter P l).
Proof.
  induction l as [|x l IH]; [done|]. csimpl. intros [Hx Hnd]%NoDup_cons.
  rewrite filter_cons. case_decide; csimpl; [|by apply IH]. constructor; [|by apply IH].
  intros (y & ? & [_ ?]%list_elem_of_filter)%list_elem_of_fmap. apply Hx, list_elem_of_fmap. eauto.
Qed.

Lemma unassignedQueue_NoDup : NoDup (item_key <$> unassignedQueue sn).
Proof.
  destruct Hsn as [_ Hq _ _ _ _]. unfold queues_of in Hq. injection Hq as Hp Hx.
  unfold unassignedQueue. rewrite to_sorted_perm. apply NoDup_fmap_filter.
  rewrite fmap_app. apply NoDup_app. split_and!.
  - rewrite Hp, <- list_fmap_compose. change (item_key ∘ _) with (@inl Id Id ∘ @fst Id attempt).
    rewrite (list_fmap_compose fst inl). apply (NoDup_fmap_2 _), NoDup_fmap_filter, NoDup_t_where_ids.
  - intros k (q1 & -> & (r1 & -> & _)%list_elem_of_fmap)%list_elem_of_fmap
      (q2 & ? & (r2 & -> & _)%list_elem_of_fmap)%list_elem_of_fmap. done.
  - rewrite Hx, <- list_fmap_compose. change (item_key ∘ _) with (@inr Id Id ∘ @fst Id experiment).
    rewrite (list_fmap_compose fst inr). apply (NoDup_fmap_2 _), NoDup_fmap_filter, NoDup_t_where_ids.
Qed.
End queue.

(** The queue placement works through holds exactly the unassigned work whose Profile still
    describes it, each item once, oldest first. *)
Theorem unassignedQueue_oldest_first now s sn :
  t_wf (attempts s) → t_wf (experiments s) →
  loadSchedulerSnapshot now None s = Done (sn, s) →
  NoDup (item_key <$> unassignedQueue sn) ∧
  StronglySorted (λ l r, wk_createdAt (item_work l) ≤ wk_createdAt (item_work r)) (unassignedQueue sn) ∧
  ∀ q, q ∈ unassignedQueue sn ↔
    matchesActiveProfile sn (item_work q) = true ∧ item_present s q.
Proof.
  intros Hwa Hwx Hload. apply loadSchedulerSnapshot_done in Hload as [_ Hsn]; [|by left].
  split_and!.
  - by eapply unassignedQueue_NoDup.
  - unfold unassignedQueue.
    pose (cmp := λ l r : queue_item, wk_createdAt (item_work l) - wk_createdAt (item_work r)).
    assert (Consistent cmp) as Hc by (split; unfold cmp; intros; lia).
    eapply StronglySorted_weaken; [|apply (to_sorted_sorted cmp (λ _, True)); by apply Forall_true].
    intros a b. unfold cmp. lia.
  - intros q. split; [by eapply unassignedQueue_elem|]. intros [Hm Hp].
    destruct Hsn as [_ Hq _ _ _ _]. unfold queues_of in Hq. injection Hq as Hpa Hx.
    unfold unassignedQueue. rewrite elem_of_to_sorted, list_elem_of_filter, elem_of_app.
    split; [done|]. destruct q as [i a|i x]; [left|right]; destruct Hp as (Hr & Hs & Hn);
      apply list_elem_of_fmap; eexists (i, _); (split; [done|]); apply list_elem_of_filter; (split; [done|]).
    + rewrite Hpa. apply elem_of_t_where; [done|]. by rewrite bool_decide_true.
    + rewrite Hx. apply elem_of_t_where; [done|]. by rewrite bool_decide_true.
Qed.

(** What an assignment does to a row: waiting work gets a machine that exists. *)
Definition attempt_assigned (known : Id → Prop) (a a' : attempt) : Prop :=
  a' = a ∨ at_state a = Pending ∧ at_machineId a = None ∧
    ∃ id sel, known id ∧ a' = a <| at_machineId := Some id |> <| at_selectionReason := Some sel |>.

Definition experiment_assigned (known : Id → Prop) (x x' : experiment) : Prop :=
  x' = x ∨ xp_state x = XQueued ∧ xp_machineId x = None ∧
    ∃ id sel, known id ∧ x' = x <| xp_machineId := Some id |> <| xp_selectionReason := Some sel |>.

#[export] Instance attempt_assigned_preorder known : PreOrder (attempt_assigned known).
Proof.
  split; [by left|].
  intros a b c [->|(? & ? & id & sel & ? & ->)] [->|(? & Hm & ?)]; [by left|by right| |done].
  right. naive_solver.
Qed.

#[export] Instance experiment_assigned_preorder known : PreOrder (experiment_assigned known).
Proof.
  split; [by left|].
  intros a b c [->|(? & ? & id & sel & ? & ->)] [->|(? & Hm & ?)]; [by left|by right| |done].
  right. naive_solver.
Qed.

Section assigning.
Context (s0 : db) (known : Id → Prop).

(** What the assignment loop leaves alone, and how far it has come. *)
Record assigning (T : dim → Id → Z) (l : list (queue_item * placement)) (s : db) : Prop := {
  ag_attempts : t_wf (attempts s);
  ag_experiments : t_wf (experiments s);
  ag_frame : ∃ ta tx, s = s0 <| attempts := ta |> <| experiments := tx |>;
  ag_keys : NoDup (item_key <$> l.*1);
  ag_present : ∀ pl, pl ∈ l → item_present s pl.1;
  ag_known : ∀ q id m sel, (q, Some (id, m, sel)) ∈ l → known id;
  ag_attempt_rows : t_evolves (attempt_assigned known) (attempts s0) (attempts s);
  ag_experiment_rows : t_evolves (experiment_assigned known) (experiments s0) (experiments s);
  ag_load : ∀ d id, db_load d id s + placed_load d id item_work l = T d id;
}.

Lemma attempt_load_assigned d id0 a id sel :
  at_state a = Pending → at_machineId a = None →
  attempt_load d id0 a = 0 ∧
  attempt_load d id0 (a <| at_machineId := Some id |> <| at_selectionReason := Some sel |>) =
  if decide (id = id0) then size_of d (at_vcpus a) (at_memoryMiB a) else 0.
Proof.
  intros Hs Hm. unfold attempt_load, live_attempt, live_size. simpl. rewrite Hs, Hm. simpl. done.
Qed.

Lemma experiment_load_assigned d id0 x id sel :
  xp_state x = XQueued → xp_machineId x = None →
  experiment_load d id0 x = 0 ∧
  experiment_load d id0 (x <| xp_machineId := Some id |> <| xp_selectionReason := Some sel |>) =
  if decide (id = id0) then size_of d (xp_vcpus x) (xp_memoryMiB x) else 0.
Proof.
  intros Hs Hm. unfold experiment_load, live_experiment, live_size. simpl. rewrite Hs, Hm. simpl. done.
Qed.

Lemma assign_step T pl l n :
  triple (assigning T (pl :: l)) (assign n pl) (λ _, assigning T l).
Proof.
  intros s n' s' [Hwa Hwx (ta & tx & Hfr) Hk Hp Hkn Hra Hrx Hl].
  assert (∀ q id m sel, (q, Some (id, m, sel)) ∈ l → known id) as Hkn' by (intros; eapply Hkn; by right).
  destruct pl as [q [[[id m] sel]|]]; unfold assign; simpl.
  2:{ intros [= <- <-]. simpl in Hk. apply NoDup_cons in Hk as [_ Hk].
      split; [done|done|by eauto|done|intros; apply Hp; by right|done..|].
      intros d id. rewrite <- (Hl d id). unfold placed_load. simpl. done. }
  assert (item_present s q) as Hq by (apply (Hp (q, Some (id, m, sel))); left).
  simpl in Hk. apply NoDup_cons in Hk as [Hk Hnd].
  assert (∀ q', q' ∈ l.*1 → item_key q' ≠ item_key q) as Hne.
  { intros q' Hq' E. apply Hk. rewrite <- E. by apply list_elem_of_fmap_2. }
  destruct q as [i a|i x]; destruct Hq as (Hr & Hs & Hm); intros (u & s1 & Hpatch & [= <- <-])%bind_done;
    unfold db_patch in Hpatch; rewrite Hr in Hpatch; injection Hpatch as <- <-; simpl.
  - split; simpl.
    + by eapply t_wf_set.
    + done.
    + subst s. by eexists _, tx.
    + done.
    + intros [q' p'] Hin. specialize (Hp (q', p') ltac:(by right)). destruct q' as [j b|j y]; simpl in *; [|done].
      rewrite lookup_insert_ne; [done|]. intros ->. eapply (Hne (QAttempt j b)); [|done].
      by apply list_elem_of_fmap_2 with (f := fst) in Hin.
    + done.
    + etransitivity; [done|]. eapply t_evolves_set; [apply _|done|]. right.
      split_and!; [done..|]. exists id, sel. split; [|done]. eapply Hkn. left.
    + done.
    + intros d id0. rewrite <- (Hl d id0). unfold placed_load, db_load. simpl.
      destruct (attempt_load_assigned d id0 a id sel Hs Hm) as [E1 E2].
      pose proof (t_sum_set (attempt_load d id0) (attempts s) i a
        (a <| at_machineId := Some id |> <| at_selectionReason := Some sel |>) Hwa Hr) as Hset.
      rewrite E1, E2 in Hset. unfold placed_size at 2. simpl in *. lia.
  - split; simpl.
    + done.
    + by eapply t_wf_set.
    + subst s. by eexists ta, _.
    + done.
    + intros [q' p'] Hin. specialize (Hp (q', p') ltac:(by right)). destruct q' as [j b|j y]; simpl in *; [done|].
      rewrite lookup_insert_ne; [done|]. intros ->. eapply (Hne (QExperiment j y)); [|done].
      by apply list_elem_of_fmap_2 with (f := fst) in Hin.
    + done.
    + done.
    + etransitivity; [done|]. eapply t_evolves_set; [apply _|done|]. right.
      split_and!; [done..|]. exists id, sel. split; [|done]. eapply Hkn. left.
    + intros d id0. rewrite <- (Hl d id0). unfold placed_load, db_load. simpl.
      destruct (experiment_load_assigned d id0 x id sel Hs Hm) as [E1 E2].
      pose proof (t_sum_set (experiment_load d id0) (experiments s) i x
        (x <| xp_machineId := Some id |> <| xp_selectionReason := Some sel |>) Hwx Hr) as Hset.
      rewrite E1, E2 in Hset. unfold placed_size at 2. simpl in *. lia.
Qed.
End assigning.

Section storing.
Context (s0 : db) (sn : snapshot) (used : gmap Id Z).
Hypothesis Hms : ∀ id m, sn_machineById sn !! id = Some m → rows (machines s0) !! id = Some m.

(** A machine row after its [usedSlots] entry was written back. *)
Definition stored_row (id : Id) (m : machine) : machine :=
  match sn_machineById sn !! id, used !! id with
  | Some _, Some u => m <| mc_usedSlots := u |>
  | _, _ => m
  end.

Record storing (l : list (Id * Z)) (s : db) : Prop := {
  sg_wf : t_wf (machines s);
  sg_frame : ∃ tm, s = s0 <| machines := tm |>;
  sg_next : next_id (machines s) = next_id (machines s0);
  sg_keys : NoDup l.*1;
  sg_entries : ∀ e, e ∈ l → used !! e.1 = Some e.2;
  sg_pending : ∀ id, id ∈ l.*1 → rows (machines s) !! id = rows (machines s0) !! id;
  sg_done : ∀ id, id ∉ l.*1 → used !! id ≠ None →
    rows (machines s) !! id = stored_row id <$> rows (machines s0) !! id;
  sg_other : ∀ id, used !! id = None → rows (machines s) !! id = rows (machines s0) !! id;
}.

Lemma store_slots_step e l : triple (storing (e :: l)) (store_slots sn e) (λ _, storing l).
Proof.
  destruct e as [id u]. intros s [] s' [Hwf (tm & Hfr) Hn Hk He Hp Hd Ho].
  simpl in Hk. apply NoDup_cons in Hk as [Hid Hnd].
  assert (used !! id = Some u) as Hu by (apply (He (id, u)); left).
  assert (rows (machines s) !! id = rows (machines s0) !! id) as Hrow by (apply Hp; left).
  assert (∀ s1, next_id (machines s1) = next_id (machines s0) → t_wf (machines s1) →
    (∃ tm, s1 = s0 <| machines := tm |>) →
    rows (machines s1) !! id = stored_row id <$> rows (machines s0) !! id →
    (∀ j, j ≠ id → rows (machines s1) !! j = rows (machines s) !! j) → storing l s1) as Hfin.
  { intros s1 Hn1 Hwf1 Hfr1 Hr1 Hj. split; try done.
    - intros; apply He; by right.
    - intros j Hjl. rewrite Hj; [apply Hp; by right|]. by intros ->.
    - intros j Hjl Hju. destruct (decide (j = id)) as [->|Hne]; [done|].
      rewrite Hj by done. apply Hd; [|done]. simpl. by rewrite elem_of_cons; intros [?|?].
    - intros j Hju. rewrite Hj; [by apply Ho|]. intros ->. by simplify_eq. }
  unfold store_slots. simpl. destruct (sn_machineById sn !! id) as [m|] eqn:Em.
  - pose proof (Hms id m Em) as Hm0. unfold when. case_bool_decide as Heq; simpl.
    + intros [= <-]. apply Hfin; eauto. unfold stored_row. rewrite Em, Hu, Hrow, Hm0. simpl.
      rewrite <- Heq. by destruct m.
    + unfold db_patch. rewrite Hrow, Hm0. intros [= <-]. apply Hfin; simpl.
      * done.
      * eapply t_wf_set; [|done]. by rewrite Hrow.
      * subst s. by eexists.
      * rewrite lookup_insert_eq, Hm0. unfold stored_row. rewrite Em, Hu. done.
      * intros j ?. by rewrite lookup_insert_ne.
  - intros [= <-]. apply Hfin; eauto. unfold stored_row. rewrite Em, Hrow.
    by destruct (rows (machines s0) !! id).
Qed.

Lemma store_all s u s' :
  t_wf (machines s0) → s = s0 →
  for_each (map_to_list used) (store_slots sn) s = Done (u, s') →
  (∃ tm, s' = s0 <| machines := tm |>) ∧ t_wf (machines s') ∧
  next_id (machines s') = next_id (machines s0) ∧
  ∀ id, rows (machines s') !! id = stored_row id <$> rows (machines s0) !! id.
Proof.
  intros Hwf -> Hrun.
  assert (storing [] s') as [Hwf' Hfr Hn _ _ _ Hd Ho].
  { eapply (triple_for_each storing); [apply store_slots_step| |exact Hrun].
    split; [done| |done|apply NoDup_fst_map_to_list|..].
    - exists (machines s0). by destruct s0.
    - intros [i v] Hin%elem_of_map_to_list. done.
    - done.
    - intros id Hid Hu. destruct (used !! id) as [v|] eqn:E; [|done]. destruct Hid.
      apply list_elem_of_fmap. exists (id, v). split; [done|]. by apply elem_of_map_to_list.
    - done. }
  split_and!; [done..|]. intros id. destruct (used !! id) as [v|] eqn:E.
  - apply Hd; [apply not_elem_of_nil|]. by rewrite E.
  - rewrite Ho by done. unfold stored_row. rewrite E.
    by destruct (rows (machines s0) !! id), (sn_machineById sn !! id).
Qed.
End storing.

(** The store placement works on: tables are well formed, hosts and Profiles have positive
    sizes (the HTTP layer refuses others). *)
Record sane (s : db) : Prop := {
  sane_attempts : t_wf (attempts s);
  sane_experiments : t_wf (experiments s);
  sane_machines : t_wf (machines s);
  sane_hosts : ∀ i m, rows (machines s) !! i = Some m → machine_sane m;
  sane_profiles : ∀ i p, rows (profiles s) !! i = Some p → 0 < pf_vcpus p ∧ 0 < pf_memoryMiB p;
}.

(** What one run of [tryAssign] does to the loads and the slot counters. *)
Record assigned_run (s s' : db) (now : Z) : Prop := {
  ar_frame : ∃ ta tx tm, s' = s <| attempts := ta |> <| experiments := tx |> <| machines := tm |>;
  ar_grows : ∀ d id, db_load d id s' = db_load d id s ∨
    ∃ m, rows (machines s) !! id = Some m ∧ online now m = true ∧
      ∀ d' c, capacity d' m = Some c → db_load d' id s' ≤ c;
  ar_slots : ∀ id, rows (machines s') !! id =
    (λ m, m <| mc_usedSlots := mc_usedSlots m + (db_load Guests id s' - db_load Guests id s) |>)
      <$> rows (machines s) !! id;
  ar_machines : t_wf (machines s') ∧ next_id (machines s') = next_id (machines s);
  ar_attempts : t_evolves (attempt_assigned (λ id, is_Some (rows (machines s) !! id))) (attempts s) (attempts s');
  ar_experiments :
    t_evolves (experiment_assigned (λ id, is_Some (rows (machines s) !! id))) (experiments s) (experiments s');
}.

Lemma map_of_where_lookup {D} (P : D → bool) (t : table D) id d :
  t_wf t → map_of (t_where P t) !! id = Some d ↔ rows t !! id = Some d ∧ P d = true.
Proof.
  intros Hwf. rewrite <- elem_of_t_where by done. split; [apply map_of_elem|].
  apply map_of_lookup, NoDup_t_where_ids.
Qed.

Lemma snapshot_profiles_sane now s sn : sane s → snapshot_of now s sn → profiles_sane (sn_activeProfileByName sn).
Proof.
  intros Hs Hsn n p. rewrite (so_profiles _ _ _ Hsn).
  intros (r & [= -> ->] & Hr)%map_of_elem%list_elem_of_fmap. apply t_where_sound in Hr as [Hr _].
  destruct (sane_profiles _ Hs _ _ Hr). lia.
Qed.

Lemma snapshot_machine now s sn id m :
  sane s → snapshot_of now s sn →
  sn_machineById sn !! id = Some m ↔ rows (machines s) !! id = Some m ∧ online now m = true.
Proof. intros Hs Hsn. rewrite (so_machines _ _ _ Hsn). apply map_of_where_lookup, Hs. Qed.

Lemma snapshot_used now s sn id m :
  sane s → snapshot_of now s sn → sn_machineById sn !! id = Some m →
  lg_usedSlots (sn_ledger sn) !! id = Some (mc_usedSlots m).
Proof.
  intros Hs Hsn [Hm Ho]%(snapshot_machine _ _ _ _ _ Hs Hsn). rewrite (so_used _ _ _ Hsn).
  apply map_of_lookup.
  - rewrite <- list_fmap_compose. apply NoDup_t_where_ids.
  - apply list_elem_of_fmap. exists (id, m). split; [done|]. apply elem_of_t_where; [apply Hs|done].
Qed.

Lemma placed_load_none d id {I} (work_of : I → work) pls :
  (∀ i p, (i, p) ∈ pls → ∀ m sel, p ≠ Some (id, m, sel)) → placed_load d id work_of pls = 0.
Proof.
  intros H. apply zsum_zero. intros [i p] Hin. unfold placed_size. simpl.
  destruct p as [[[j m] sel]|]; [|done]. rewrite decide_False; [done|]. intros ->. by eapply H.
Qed.

Lemma assigned_run_refl s now : sane s → assigned_run s s now.
Proof.
  intros Hs. split; [..|split; [apply Hs|done]|reflexivity|reflexivity].
  - exists (attempts s), (experiments s), (machines s). by destruct s.
  - by left.
  - intros id. destruct (rows (machines s) !! id) as [m|]; simpl; [|done]. f_equal.
    destruct m; simpl. f_equal. lia.
Qed.

Section run.
Context (localeCompare : string → string → Z) (now : Z) (s : db) (sn : snapshot).
Context (Hs : sane s) (Hsn : snapshot_of now s sn).
Context (pls : list (queue_item * placement)) (lg' : ledger).
Hypothesis Hpl : placeInOrder localeCompare item_work sn (sn_ledger sn) (unassignedQueue sn) = (pls, lg').

Lemma run_items : pls.*1 = unassignedQueue sn.
Proof.
  rewrite <- (placeInOrder_items localeCompare sn item_work (unassignedQueue sn) (sn_ledger sn)).
  by rewrite Hpl.
Qed.

Lemma run_assigning :
  assigning s (λ id, is_Some (rows (machines s) !! id))
    (λ d id, db_load d id s + placed_load d id item_work pls) pls s.
Proof.
  split; [..|reflexivity|reflexivity|done].
  - apply Hs.
  - apply Hs.
  - exists (attempts s), (experiments s). by destruct s.
  - rewrite run_items. by eapply unassignedQueue_NoDup.
  - intros pl Hin. assert (pl.1 ∈ unassignedQueue sn) as Hq.
    { rewrite <- run_items. by apply list_elem_of_fmap_2. }
    by eapply unassignedQueue_elem.
  - intros q id m sel Hin.
    destruct (placeInOrder_within localeCompare sn item_work _ _ _ _
      (λ i m Hm, sane_hosts _ Hs i m (proj1 (proj1 (snapshot_machine _ _ _ _ _ Hs Hsn) Hm))) Hpl id)
      as [[_ Hno]|(m' & Hm & _)]; [by destruct (Hno q _ Hin m sel)|].
    apply (snapshot_machine _ _ _ _ _ Hs Hsn) in Hm as [Hm _]. by eexists.
Qed.

Lemma run_capacity id :
  (∀ d, placed_load d id item_work pls = 0) ∨
  ∃ m, rows (machines s) !! id = Some m ∧ online now m = true ∧
    ∀ d c, capacity d m = Some c → db_load d id s + placed_load d id item_work pls ≤ c.
Proof.
  pose proof (snapshot_profiles_sane _ _ _ Hs Hsn) as Hps.
  destruct (so_covers _ _ _ Hsn Hps) as [Hidle Hcov].
  destruct (placeInOrder_within localeCompare sn item_work _ _ _ _
    (λ i m Hm, sane_hosts _ Hs i m (proj1 (proj1 (snapshot_machine _ _ _ _ _ Hs Hsn) Hm))) Hpl id)
    as [[_ Hno]|(m & Hm & Hin)].
  - left. intros d. by apply placed_load_none.
  - right. exists m. apply (snapshot_machine _ _ _ _ _ Hs Hsn) in Hm as [Hm Ho].
    split_and!; [done..|]. intros d c Hc.
    destruct (placeInOrder_covers localeCompare sn item_work d id _ _ (db_load d id s) _ _
      (λ q Hq, matches_sizes _ _ (proj1 (unassignedQueue_elem _ _ _ Hsn q Hq))) Hidle (Hcov d id) Hpl)
      as [Hidle' Hcov'].
    pose proof (idle_load_nonneg d (sn_activeProfileByName sn) id _ Hps Hidle').
    specialize (Hin d c Hc). unfold covers in Hcov'. lia.
Qed.

Lemma run_row id m :
  rows (machines s) !! id = Some m →
  stored_row sn (lg_usedSlots lg') id m =
  m <| mc_usedSlots := mc_usedSlots m + placed_load Guests id item_work pls |>.
Proof.
  intros Hm. unfold stored_row. destruct (sn_machineById sn !! id) as [m'|] eqn:E.
  - pose proof E as [Hm' _]%(snapshot_machine _ _ _ _ _ Hs Hsn). simplify_eq.
    pose proof (snapshot_used _ _ _ _ _ Hs Hsn E) as Hu.
    by rewrite (placeInOrder_used localeCompare sn item_work _ _ _ _ _ _ Hu Hpl).
  - destruct (run_capacity id) as [H0|(m' & Hm' & Ho & _)].
    + rewrite H0, Z.add_0_r. by destruct m.
    + rewrite (proj2 (snapshot_machine _ _ _ _ _ Hs Hsn) (conj Hm' Ho)) in E. done.
Qed.
End run.

Lemma tryAssign_run localeCompare now s n s' :
  sane s → tryAssign localeCompare now s = Done (n, s') → assigned_run s s' now.
Proof.
  intros Hs. unfold tryAssign.
  intros (pa & s1 & [= <- <-] & (qx & s2 & [= <- <-] & H)%bind_done)%bind_done.
  destruct (_ && _) in H; [inversion H; subst; by apply assigned_run_refl|].
  apply bind_done in H as (sn & s3 & Hload & H).
  apply loadSchedulerSnapshot_done in Hload as [-> Hsn]; [|by right].
  destruct (placeInOrder _ _ _ _ _) as [pls lg'] eqn:Hpl.
  apply bind_done in H as (n' & s4 & Hasg & H). apply bind_done in H as (u & s5 & Hst & [= <- <-]).
  assert (assigning s (λ id, is_Some (rows (machines s) !! id))
      (λ d id, db_load d id s + placed_load d id item_work pls) [] s4)
    as [Hwa Hwx (ta & tx & Hfr) _ _ _ Hra Hrx Hload].
  { eapply (triple_fold (λ l _, assigning s _ _ l)); [intros; apply assign_step| |exact Hasg].
    by eapply run_assigning. }
  assert (machines s4 = machines s) as Hm4 by by rewrite Hfr.
  destruct (store_all s4 sn (lg_usedSlots lg')) with s4 u s5 as ((tm & ->) & Hwm & Hnm & Hrows); try done.
  { intros id m [? _]%(snapshot_machine _ _ _ _ _ Hs Hsn). by rewrite Hm4. }
  { rewrite Hm4. apply Hs. }
  rewrite Hfr in *.
  assert (∀ d id, db_load d id (s <| attempts := ta |> <| experiments := tx |> <| machines := tm |>) =
    db_load d id s + placed_load d id item_work pls) as Hl.
  { intros d id. rewrite <- Hload. unfold placed_load, db_load. simpl. lia. }
  split; [..|by split|done|done].
  - eauto.
  - intros d id. rewrite Hl. destruct (run_capacity _ _ _ _ Hs Hsn _ _ Hpl id) as [H0|(m & ? & ? & Hc)].
    + left. rewrite H0. lia.
    + right. exists m. split_and!; [done..|]. intros d' c. rewrite Hl. apply Hc.
  - intros id. rewrite Hl. replace (_ + _ - _) with (placed_load Guests id item_work pls) by lia.
    rewrite Hrows. simpl. destruct (rows (machines s) !! id) as [m|] eqn:Em; simpl; [|done].
    f_equal. by eapply run_row.
Qed.

(** C2: [tryAssign] never over-commits a Worker.  After a run, every machine whose live load
    grew is online and its live Attempts and Experiments, all of them together, fit within its
    slots, its CPUs and its memory; the loads of all other machines are unchanged. *)
Theorem tryAssign_no_overcommit localeCompare now s n s' :
  sane s → tryAssign localeCompare now s = Done (n, s') →
  ∀ id, (∀ d, db_load d id s' = db_load d id s) ∨
    ∃ m, rows (machines s) !! id = Some m ∧ online now m = true ∧
      db_load Guests id s' ≤ mc_maxSlots m ∧
      (∀ c, mc_cpus m = Some c → db_load Vcpus id s' ≤ c) ∧
      (∀ c, mc_memoryMiB m = Some c → db_load Memory id s' ≤ c).
Proof.
  intros Hs Hrun id. destruct (tryAssign_run _ _ _ _ _ Hs Hrun) as [_ Hg _].
  destruct (Hg Guests id) as [E1|(m & ? & ? & Hc)]; [|right; exists m; split_and!; auto].
  destruct (Hg Vcpus id) as [E2|(m & ? & ? & Hc)]; [|right; exists m; split_and!; auto].
  destruct (Hg Memory id) as [E3|(m & ? & ? & Hc)]; [|right; exists m; split_and!; auto].
  left. by intros [].
Qed.

(** [tryAssign] charges every machine one slot for each unit of work it gives it: the slot
    counter grows by exactly the growth of the number of live guests, and no other field of a
    machine and no other table changes. *)
Theorem tryAssign_slot_accounting localeCompare now s n s' :
  sane s → tryAssign localeCompare now s = Done (n, s') →
  (∃ ta tx tm, s' = s <| attempts := ta |> <| experiments := tx |> <| machines := tm |>) ∧
  ∀ id, rows (machines s') !! id =
    (λ m, m <| mc_usedSlots := mc_usedSlots m + (db_load Guests id s' - db_load Guests id s) |>)
      <$> rows (machines s) !! id.
Proof. intros Hs Hrun. destruct (tryAssign_run _ _ _ _ _ Hs Hrun) as [Hf _ Hr]. done. Qed.

(** ** Witnesses *)

Lemma demo_sane : sane demo_db.
Proof.
  split.
  - apply (t_of_inv [demo_attempt "r-0" 70 20; demo_attempt "r-1" 71 10]).
  - apply t_wf_empty.
  - apply (t_of_inv [demo_machine]).
  - intros i m. apply (t_of_Forall machine_sane [demo_machine]).
    repeat constructor; simpl; naive_solver.
  - intros i p. apply (t_of_Forall (λ p, 0 < pf_vcpus p ∧ 0 < pf_memoryMiB p) [demo_profile]).
    repeat constructor.
Qed.

Definition demo_assigned : db := commit (tryAssign str_cmp 1000) demo_db.

Definition demo_snapshot : snapshot :=
  Snapshot 1000 [] [] {["linux" := demo_profile]} {[0%nat := demo_machine]}
    {["linux" := [demo_readiness]]} {[(0%nat, "linux") := demo_evidence]} (Ledger ∅ ∅ ∅).

Lemma demo_snapshot_sane id m : sn_machineById demo_snapshot !! id = Some m → machine_sane m.
Proof.
  unfold demo_snapshot. cbn [sn_machineById]. intros [<- <-]%lookup_singleton_Some.
  repeat split; naive_solver.
Qed.

Lemma placement_choice_witness :
  (place_one str_cmp demo_snapshot (Ledger ∅ ∅ ∅) (work_of_attempt (demo_attempt "r" 1 1))).1 ≠ None ∧
  match (place_one str_cmp demo_snapshot (Ledger ∅ ∅ ∅) (work_of_attempt (demo_attempt "r" 1 1))).1 with
  | Some (id, m, _) =>
      ∃ r, (r, (id, m)) ∈ schedulable_rows demo_snapshot (work_of_attempt (demo_attempt "r" 1 1))
  | None => True
  end.
Proof.
  split; [by vm_compute|].
  pose proof (placement_choice str_cmp str_cmp_consistent demo_snapshot (Ledger ∅ ∅ ∅)
    (work_of_attempt (demo_attempt "r" 1 1)) demo_snapshot_sane
    ltac:(vm_compute; discriminate) ltac:(vm_compute; discriminate)) as H.
  destruct (place_one _ _ _ _).1 as [[[id m] sel]|]; [|done].
  destruct H as (c & r & Hr & _). by exists r.
Defined.

Lemma unassignedQueue_oldest_first_witness :
  ∃ sn, loadSchedulerSnapshot 1000 None demo_db = Done (sn, demo_db) ∧
    (item_key <$> unassignedQueue sn) = [inl 1%nat; inl 0%nat] ∧
    NoDup (item_key <$> unassignedQueue sn).
Proof.
  destruct (loadSchedulerSnapshot 1000 None demo_db) as [[sn s]|] eqn:E; [|by vm_compute in E].
  pose proof E as [-> _]%loadSchedulerSnapshot_done; [|by left].
  exists sn. split; [done|]. split.
  - vm_compute in E. injection E as <-. vm_compute. reflexivity.
  - apply (unassignedQueue_oldest_first 1000 demo_db sn);
      [apply (sane_attempts _ demo_sane)|apply t_wf_empty|exact E].
Defined.

Lemma tryAssign_no_overcommit_witness :
  tryAssign str_cmp 1000 demo_db = Done (2, demo_assigned) ∧
  db_load Guests 0 demo_assigned = 2 ∧ db_load Vcpus 0 demo_assigned = 4 ∧
  ((∀ d, db_load d 0 demo_assigned = db_load d 0 demo_db) ∨
    ∃ m, rows (machines demo_db) !! 0%nat = Some m ∧ online 1000 m = true ∧
      db_load Guests 0 demo_assigned ≤ mc_maxSlots m ∧
      (∀ c, mc_cpus m = Some c → db_load Vcpus 0 demo_assigned ≤ c) ∧
      (∀ c, mc_memoryMiB m = Some c → db_load Memory 0 demo_assigned ≤ c)).
Proof.
  assert (tryAssign str_cmp 1000 demo_db = Done (2, demo_assigned)) as E by (vm_compute; reflexivity).
  split; [exact E|]. split; [vm_compute; reflexivity|]. split; [vm_compute; reflexivity|].
  apply (tryAssign_no_overcommit str_cmp 1000 demo_db 2 demo_assigned demo_sane E).
Defined.

Lemma tryAssign_slot_accounting_witness :
  tryAssign str_cmp 1000 demo_db = Done (2, demo_assigned) ∧
  rows (machines demo_assigned) !! 0%nat = Some (demo_machine <| mc_usedSlots := 2 |>) ∧
  ∃ ta tx tm, demo_assigned = demo_db <| attempts := ta |> <| experiments := tx |> <| machines := tm |>.
Proof.
  assert (tryAssign str_cmp 1000 demo_db = Done (2, demo_assigned)) as E by (vm_compute; reflexivity).
  split; [exact E|]. split; [vm_compute; reflexivity|].
  apply (tryAssign_slot_accounting str_cmp 1000 demo_db 2 demo_assigned demo_sane E).
Defined.

(** ** Legacy jobs and warm pools

    [occupiedGuests] is the maximum of the reservations and the slot counter, not their sum:
    a slot held by a job of the legacy path is in the counter only, an idle warm guest is in
    the reservations only.  With a warm guest idle, a full machine is still given work. *)

Definition crowded_db : db :=
  demo_db <| machines := t_of [demo_machine <| mc_maxSlots := 2 |> <| mc_usedSlots := 2 |>] |>
    <| jobs := t_of (replicate 2 (Job 1 None "acme/api" "ci" ["linux"] JRunning (Some 0%nat) None 0
         None None None None None None None 0)) |>.

