(* ===== verification/Retirement.v ===== *)
(** Ending an Attempt whose GitHub Runner may be online (packages/backend/convex/
    attemptRetirement.ts), with the JIT secret (attemptSecrets.ts), the liveness of controllers
    (controllerLiveness.ts) and the retirement of Attempts off a Profile's pin
    (pinnedAttempts.ts). *)

From S2P Require Import Prelude JsLib Schema HostLabels Scheduler.

(** ** attemptSecrets.ts *)

Definition deleteAttemptSecret (attemptId : Id) : tx db unit :=
  secret ← db_unique attemptSecrets (λ r, as_attemptId r === attemptId);
  match secret with
  | Some r => db_delete attemptSecrets r.1
  | None => mret tt
  end.

(** ** controllerLiveness.ts *)

Definition CONTROLLER_OFFLINE_AFTER_MS : Z := 90000.

Inductive controller_status := StUnknown | StOnline | StWaiting | StOffline.

Record controller_liveness := ControllerLiveness {
  lv_status : controller_status;
  lv_primary : option controller_heartbeat;
  lv_lastHeartbeatAt : option Z;
  lv_lastListeningAt : option Z;
  lv_firstSeenAt : option Z;
  lv_live : nat;
  lv_controllers : list controller_heartbeat;
}.

Definition isLive (row : controller_heartbeat) (now : Z) : bool :=
  (hb_sessionState row !== SStopped) && (now - hb_receivedAt row <? CONTROLLER_OFFLINE_AFTER_MS).

(** [Math.max(...l)] and [Math.min(...l)] of a non-empty list *)
Definition max_of (l : list Z) : option Z :=
  match l with [] => None | x :: l => Some (foldr Z.max x l) end.
Definition min_of (l : list Z) : option Z :=
  match l with [] => None | x :: l => Some (foldr Z.min x l) end.

Definition controllerLiveness (rows : list controller_heartbeat) (now : Z) : controller_liveness :=
  match rows with
  | [] => ControllerLiveness StUnknown None None None None 0 []
  | _ =>
      let newestFirst := to_sorted (λ l r, hb_receivedAt r - hb_receivedAt l) rows in
      let live := filter (λ r, isLive r now = true) newestFirst in
      let listening := head (filter (λ r, hb_sessionState r = SListening) live) in
      let listenedAt := omap hb_lastListeningAt rows in
      ControllerLiveness
        (if is_some listening then StOnline
         else if Nat.ltb 0 (length live) then StWaiting else StOffline)
        (or_opt listening (or_opt (head live) (head newestFirst)))
        (hb_receivedAt <$> head newestFirst)
        (max_of listenedAt)
        (min_of (hb_firstSeenAt <$> rows))
        (length live)
        newestFirst
  end.

Definition controllerSilentForMs (l : controller_liveness) (now : Z) : option Z :=
  match lv_status l with
  | StOnline | StUnknown => None
  | _ => (λ since, Z.max 0 (now - since)) <$> or_opt (lv_lastListeningAt l) (lv_firstSeenAt l)
  end.

(** ** attemptRetirement.ts *)

Definition RETIREMENT_UNCONFIRMED_MS : Z := 6 * 60 * 60000.
Definition CONTROLLER_REPORT_LIMIT : nat := 50.

Definition runnerMayBeOnline (state : attempt_state) : bool :=
  match state with Preparing | Ready | Running => true | _ => false end.

Definition isRetiring (a : attempt) : bool := is_some (at_retirement a) && runnerMayBeOnline (at_state a).

Definition state_name (st : attempt_state) : string :=
  match st with
  | Pending => "pending" | Preparing => "preparing" | Ready => "ready" | Running => "running"
  | Completed => "completed" | Cancelled => "cancelled" | FailedState => "failed"
  end.

Definition retireAttempt (id : Id) (a : attempt) (outcome : retirement_outcome) (reason : string)
    (now : Z) : tx db bool :=
  if negb (runnerMayBeOnline (at_state a)) then
    throw ("retireAttempt on a " +:+ state_name (at_state a) +:+ " Attempt")
  else if is_some (at_retirement a) then mret false
  else
    deleteAttemptSecret id ≫= λ _,
    db_patch attempts id (λ d, d <| at_jitConfig := None |> <| at_runnerCleanupPending := Some true |>
      <| at_retirement := Some (Retirement outcome (slice0 500 reason) now) |>) ≫= λ _,
    mret true.

Definition workerReports (m : machine) (now : Z) : bool := now - mc_lastSeen m <=? WORKER_OFFLINE_AFTER_MS.

Definition retirementBackstopDue (a : attempt) (machine : option machine) (now : Z) : tx db bool :=
  match at_retirement a with
  | None => mret false
  | Some r =>
      if now - rt_requestedAt r <=? RETIREMENT_UNCONFIRMED_MS then mret false
      else if (at_state a === Running) &&
              match machine with Some m => workerReports m now | None => false end
      then mret false
      else
        reports ← db_where controllerHeartbeats (λ h, hb_profile h === at_profile a);
        mret (Nat.eqb (lv_live (controllerLiveness (snd <$> take CONTROLLER_REPORT_LIMIT reports) now)) 0)
  end.

Definition clear_retirement (a : attempt) : attempt :=
  a <| at_retirement := None |> <| at_runnerCleanupPending := None |>.

Definition keepForReturningWorker (id : Id) (a : attempt) : tx db bool :=
  if (at_state a !== Running) || is_none (at_retirement a) then mret false
  else db_patch attempts id clear_retirement ≫= λ _, mret true.

Definition keepRunningAttemptsOfReturningWorker (machineId : Id) : tx db Z :=
  running ← db_where attempts (λ a, (at_machineId a === Some machineId) && (at_state a === Running));
  fold_tx (λ kept r, keepForReturningWorker r.1 r.2 ≫= λ b : bool, mret (if b then kept + 1 else kept))
    0 running.

Definition outcome_state (o : retirement_outcome) : attempt_state :=
  match o with RetireCancelled => Cancelled | RetireFailed => FailedState end.

(** [{ cancelReason }] or [{ lastError }], as the outcome asks *)
Definition set_end_reason (o : retirement_outcome) (reason : string) (a : attempt) : attempt :=
  match o with
  | RetireCancelled => a <| at_cancelReason := Some reason |>
  | RetireFailed => a <| at_lastError := Some reason |>
  end.

Definition finishRetirement (id : Id) (a : attempt) (unconfirmed : bool) (now : Z) : tx db unit :=
  match at_retirement a with
  | None => throw "finishRetirement on an Attempt not retiring"
  | Some r =>
      let reason :=
        if unconfirmed then
          rt_reason r +:+ " (no controller confirmed the Runner was deleted within 6 hours)"
        else rt_reason r in
      releaseAttemptSlot a ≫= λ _,
      deleteAttemptSecret id ≫= λ _,
      db_patch attempts id (λ d, set_end_reason (rt_outcome r) (slice0 500 reason)
        (d <| at_state := outcome_state (rt_outcome r) |> <| at_jitConfig := None |>
           <| at_finishedAt := Some now |>
           <| at_runnerCleanupPending := if unconfirmed then Some true else None |>
           <| at_retirement := None |>))
  end.

Definition cancelUnclaimedAttempt (id : Id) (a : attempt) (reason : string) (now : Z) : tx db unit :=
  if at_state a !== Pending then
    throw ("cancelUnclaimedAttempt on a " +:+ state_name (at_state a) +:+ " Attempt")
  else
    releaseAttemptSlot a ≫= λ _,
    deleteAttemptSecret id ≫= λ _,
    db_patch attempts id (λ d, d <| at_state := Cancelled |> <| at_jitConfig := None |>
      <| at_cancelReason := Some (slice0 500 reason) |> <| at_finishedAt := Some now |>
      <| at_runnerCleanupPending := Some true |>).

Inductive ended_as := EndedCancelled | EndedRetiring.

Definition endIdleAttempt (id : Id) (a : attempt) (reason : string) (now : Z) : tx db ended_as :=
  if at_state a === Pending then
    cancelUnclaimedAttempt id a reason now ≫= λ _, mret EndedCancelled
  else retireAttempt id a RetireCancelled reason now ≫= λ _, mret EndedRetiring.

(** The fields to patch alongside the move to [running]. *)
Definition keepForJob (a : attempt) : attempt → attempt :=
  if is_none (at_retirement a) then id else clear_retirement.

(** ** pinnedAttempts.ts *)

Definition IDLE_STATES : list attempt_state := [Pending; Preparing; Ready].

Record pin_retirement := PinRetirement { pr_requeued : Z; pr_retired : Z }.

Definition retireIfOffPin (id : Id) (a : attempt) (profile : option profile) (machine : option machine)
    (tally : pin_retirement) (now : Z) : tx db pin_retirement :=
  match profile, machine with
  | Some p, Some m =>
      match missingHostLabels (pf_workerLabels p) (Some (mc_labels m)) with
      | [] => mret tally
      | missing =>
          let why := "Worker " +:+ mc_name m +:+ ": " +:+ missingHostLabelsDetail missing in
          if at_state a === Pending then
            releaseAttemptSlot a ≫= λ _,
            db_patch attempts id (λ d, d <| at_machineId := None |> <| at_selectionReason := None |>) ≫= λ _,
            mret (PinRetirement (pr_requeued tally + 1) (pr_retired tally))
          else
            retireAttempt id a RetireCancelled ("Retired before it took a job. " +:+ why) now ≫= λ started : bool,
            mret (if started then PinRetirement (pr_requeued tally) (pr_retired tally + 1) else tally)
      end
  | _, _ => mret tally
  end.

Definition profile_named (name : string) : tx db (option (Id * profile)) :=
  db_unique profiles (λ p, pf_name p === name).

(** The cache of Profiles by name is not modelled: this mutation does not write that table. *)
Definition retireOffPinOnWorker (machineId : Id) (m : machine) (now : Z) : tx db pin_retirement :=
  fold_tx (λ tally st,
    rows ← db_where attempts (λ a, (at_machineId a === Some machineId) && (at_state a === st));
    fold_tx (λ tally r,
      profile ← profile_named (at_profile r.2);
      retireIfOffPin r.1 r.2 (snd <$> profile) (Some m) tally now) tally rows)
    (PinRetirement 0 0) IDLE_STATES.

Definition retireOffPinForProfile (p : profile) (now : Z) : tx db pin_retirement :=
  match pf_workerLabels p with
  | None | Some [] => mret (PinRetirement 0 0)
  | Some _ =>
      fold_tx (λ tally st,
        rows ← db_where attempts (λ a, (at_profile a === pf_name p) && (at_state a === st));
        fold_tx (λ tally r,
          match at_machineId r.2 with
          | None => mret tally
          | Some mid =>
              machine ← db_get machines mid;
              retireIfOffPin r.1 r.2 (Some p) machine tally now
          end) tally rows)
        (PinRetirement 0 0) IDLE_STATES
  end.
