(* ===== verification/Lease.v ===== *)
(** The controller lease (packages/backend/convex/controllerLease.ts): which controller may
    serve a Profile, and the fencing that keeps any other one from acting on it. *)

From S2P Require Import Prelude JsLib Schema HostLabels Egress Isolation Benchmark Scheduler.
From S2P Require Import Fixtures.

Definition LEASE_RENEW_INTERVAL_MS : Z := 10000.
Definition LEASE_TTL_MS : Z := 30000.
Definition POOR_NETWORK_SCORE_BELOW : Z := 40.
Definition POOR_NETWORK_HEAD_START_MS : Z := 15000.
Definition LEASE_MIN_RETRY_MS : Z := 1000.

(** [ControllerCaller] *)
Inductive caller :=
  | CallerToken (slot : token_slot) (epoch : option Z)
  | CallerMachine (token : string) (epoch : option Z).

Definition caller_epoch (c : caller) : option Z :=
  match c with CallerToken _ e | CallerMachine _ e => e end.

(** The credential a caller was resolved to. *)
Inductive identity :=
  | IdToken
  | IdMachine (machineId : Id).
#[export] Instance identity_eq_dec : EqDecision identity.
Proof. solve_decision. Defined.

Definition leaseFor (profile : string) : tx db (option (Id * controller_lease)) :=
  db_unique controllerLeases (λ l, cl_profile l === profile).

Definition machineFor (token : string) : tx db (option (Id * machine)) :=
  if Nat.eqb (String.length token) 0 then mret None
  else db_unique machines (λ m, mc_token m === token).

Definition profileFor (name : string) : tx db (option (Id * profile)) :=
  db_unique profiles (λ p, pf_name p === name).

Definition readinessFor (machineId : Id) (profile : string) : tx db (option (Id * worker_readiness)) :=
  db_unique workerReadiness (λ r, (wr_machineId r === machineId) && (wr_profile r === profile)).

Definition holderMatches (h : lease_holder) (i : identity) : bool :=
  match i with
  | IdToken => lh_credential h === ControllerToken
  | IdMachine m => (lh_credential h === MachineCredential) && (lh_machineId h === Some m)
  end.

Definition authorizeController (profile : string) (c : caller) (now : Z) : tx db identity :=
  match c with
  | CallerMachine token epoch =>
      machine ← machineFor token;
      match machine with
      | None => refuse "unauthorized" "Unknown machine token"
      | Some (mid, _) =>
          lease ← leaseFor profile;
          let refusal := refuse "lease" "This Worker does not hold the Profile's controller lease" in
          match epoch, lease with
          | Some e, Some (_, l) =>
              match cl_holder l with
              | None => refusal
              | Some h =>
                  if negb (holderMatches h (IdMachine mid)) || (cl_epoch l !== e) || (cl_expiresAt l <=? now)
                  then refusal else mret (IdMachine mid)
              end
          | _, _ => refusal
          end
      end
  | CallerToken _ epoch =>
      match epoch with
      | None => refuse "lease" "Controllers must hold the Profile's lease and send its epoch"
      | Some e =>
          lease ← leaseFor profile;
          let refusal := refuse "lease" "The lease epoch is stale: another controller holds this Profile" in
          match lease with
          | None => refusal
          | Some (_, l) =>
              match cl_holder l with
              | None => refusal
              | Some h =>
                  if (lh_credential h !== ControllerToken) || (cl_epoch l !== e) || (cl_expiresAt l <=? now)
                  then refusal else mret IdToken
              end
          end
      end
  end.

Definition requireControllerToken (c : caller) : tx db unit :=
  match c with
  | CallerMachine _ _ =>
      refuse "forbidden" "A Worker's controller cannot change a Profile; use the controller token"
  | CallerToken _ _ => mret tt
  end.

Definition networkIsPoor (m : machine) (now : Z) : bool :=
  let (score, source) := benchmarkScore (mc_benchmark m) FitNetwork now in
  (source === "fresh") && (score <? POOR_NETWORK_SCORE_BELOW).

(** [profileSettings]: the settings a standby serves with, of a Profile with a GitHub URL *)
Record profile_settings := ProfileSettings {
  ps_name : string;
  ps_scaleSetName : string;
  ps_executor : executor;
  ps_imageRelease : string;
  ps_vcpus : Z;
  ps_memoryMiB : Z;
  ps_warmPool : Z;
  ps_fitPolicy : fit_policy;
  ps_minRunners : Z;
  ps_maxRunners : Z;
  ps_githubConfigUrl : string;
  ps_githubCacheFacts : option bool;
  ps_egress : option profile_egress;
  ps_runnerGroup : option string;
  ps_labels : option (list string);
  ps_workerLabels : option (list string);
}.

Definition profileSettings (p : profile) : option profile_settings :=
  match pf_githubConfigUrl p with
  | None => None
  | Some url => Some (ProfileSettings (pf_name p) (pf_scaleSetName p) (pf_executor p)
      (pf_imageRelease p) (pf_vcpus p) (pf_memoryMiB p) (or_else 0 (pf_warmPool p))
      (or_else FitBalanced (pf_fitPolicy p)) (pf_minRunners p) (pf_maxRunners p) url
      (pf_githubCacheFacts p) (pf_egress p) (pf_runnerGroup p) (pf_labels p) (pf_workerLabels p))
  end.

Inductive acquire_refusal :=
  | RHeld | RHeadStart | RProfileUnknown | RProfilePaused | RProfileIncomplete | RNotReady | RIncapable.

Inductive acquire_result :=
  | Granted (epoch ttlMs renewIntervalMs : Z) (networkPoor : bool) (settings : option profile_settings)
  | NotGranted (reason : acquire_refusal) (holder : option string) (retryAfterMs : Z) (networkPoor : bool).

Record acquire_args := AcquireArgs {
  aq_profile : string;
  aq_hostname : string;
  aq_instance : string;
  aq_activate : bool;
  aq_canPublishCacheFacts : bool;
  aq_caller : caller;
}.

(** The answer of the checks before the lease is looked at: a refusal, or who asks and whether
    its network is poor. *)
Inductive candidacy :=
  | Ineligible (r : acquire_result)
  | Eligible (i : identity) (networkPoor : bool).

Definition candidacy_of (args : acquire_args) (profile : option profile) (now : Z) : tx db candidacy :=
  let refusal networkPoor reason := mret (Ineligible (NotGranted reason None LEASE_TTL_MS networkPoor)) in
  match aq_caller args with
  | CallerMachine token _ =>
      machine ← machineFor token;
      match machine with
      | None => refuse "unauthorized" "Unknown machine token"
      | Some (mid, m) =>
          let poor := networkIsPoor m now in
          match profile with
          | None => refusal poor RProfileUnknown
          | Some p =>
              if pf_state p !== ProfileActive then refusal poor RProfilePaused
              else if is_none (pf_githubConfigUrl p) then refusal poor RProfileIncomplete
              else
                readiness ← readinessFor mid (aq_profile args);
                match readiness with
                | None => refusal poor RNotReady
                | Some (_, r) =>
                    if (wr_state r !== RReady) || (WORKER_OFFLINE_AFTER_MS <=? now - mc_lastSeen m) ||
                       (wr_executor r !== pf_executor p) || (wr_imageRelease r !== pf_imageRelease p) ||
                       (wr_vcpus r !== Some (pf_vcpus p)) || (wr_memoryMiB r !== Some (pf_memoryMiB p))
                    then refusal poor RNotReady
                    else if (pf_githubCacheFacts p === Some true) && negb (aq_canPublishCacheFacts args)
                    then refusal poor RIncapable
                    else mret (Eligible (IdMachine mid) poor)
                end
          end
      end
  | CallerToken _ _ =>
      if ((pf_state <$> profile) === Some ProfilePaused) && negb (aq_activate args)
      then refusal false RProfilePaused
      else mret (Eligible IdToken false)
  end.

(** The process asking holds the unexpired lease itself. *)
Definition own_lease (l : option (Id * controller_lease)) (i : identity) (instance : string) (now : Z)
    : bool :=
  match l with
  | Some (_, l) =>
      match cl_holder l with
      | Some h => (lh_instance h === instance) && holderMatches h i && (now <? cl_expiresAt l)
      | None => false
      end
  | None => false
  end.

(** Another process holds the unexpired lease: its hostname and the lease's expiry. *)
Definition held_by (l : option (Id * controller_lease)) (now : Z) : option (string * Z) :=
  match l with
  | Some (_, l) =>
      match cl_holder l with
      | Some h => if now <? cl_expiresAt l then Some (lh_hostname h, cl_expiresAt l) else None
      | None => None
      end
  | None => None
  end.

Definition new_holder (i : identity) (args : acquire_args) : lease_holder :=
  match i with
  | IdToken => LeaseHolderDoc ControllerToken None (aq_hostname args) (aq_instance args)
  | IdMachine m => LeaseHolderDoc MachineCredential (Some m) (aq_hostname args) (aq_instance args)
  end.

(** The grant itself, once nothing refuses it. *)
Definition grant_lease (args : acquire_args) (i : identity) (networkPoor ownLease : bool)
    (lease : option (Id * controller_lease)) (profile : option profile) (now : Z) : tx db acquire_result :=
  current ← match lease with Some l => mret (Some l) | None => leaseFor (aq_profile args) end;
  let epoch := match current with
    | Some (_, c) => if ownLease then cl_epoch c else cl_epoch c + 1
    | None => 1 end in
  let acquiredAt := match current with
    | Some (_, c) => if ownLease then or_else now (cl_acquiredAt c) else now
    | None => now end in
  match current with
  | None => db_insert controllerLeases (ControllerLease (aq_profile args) epoch
      (Some (new_holder i args)) (Some acquiredAt) (Some now) (now + LEASE_TTL_MS)) ≫= λ _, mret tt
  | Some (lid, _) => db_patch controllerLeases lid (λ l, l <| cl_epoch := epoch |>
      <| cl_holder := Some (new_holder i args) |> <| cl_acquiredAt := Some acquiredAt |>
      <| cl_renewedAt := Some now |> <| cl_expiresAt := now + LEASE_TTL_MS |>)
  end ≫= λ _,
  mret (Granted epoch LEASE_TTL_MS LEASE_RENEW_INTERVAL_MS networkPoor (profile ≫= profileSettings)).

(** [acquire] from the point the candidate is eligible. *)
Definition acquire_lease (args : acquire_args) (i : identity) (networkPoor : bool)
    (profile : option profile) (now : Z) : tx db acquire_result :=
  lease ← leaseFor (aq_profile args);
  let ownLease := own_lease lease i (aq_instance args) now in
  match (if ownLease then None else held_by lease now) with
  | Some (hostname, expiresAt) =>
      mret (NotGranted RHeld (Some hostname)
        (Z.max LEASE_MIN_RETRY_MS
          (expiresAt - now + if networkPoor then POOR_NETWORK_HEAD_START_MS else 0)) networkPoor)
  | None =>
      if negb ownLease && networkPoor then
        let freeSince := match lease with
          | None => now | Some (_, l) => Z.min (cl_expiresAt l) now end in
        when (is_none lease) (db_insert controllerLeases
          (ControllerLease (aq_profile args) 0 None None None now) ≫= λ _, mret tt) ≫= λ _,
        if now - freeSince <? POOR_NETWORK_HEAD_START_MS then
          mret (NotGranted RHeadStart None
            (Z.max LEASE_MIN_RETRY_MS (freeSince + POOR_NETWORK_HEAD_START_MS - now)) networkPoor)
        else grant_lease args i networkPoor ownLease lease profile now
      else grant_lease args i networkPoor ownLease lease profile now
  end.

Definition acquire (args : acquire_args) (now : Z) : tx db acquire_result :=
  profile ← profileFor (aq_profile args);
  candidate ← candidacy_of args (snd <$> profile) now;
  match candidate with
  | Ineligible r => mret r
  | Eligible i networkPoor => acquire_lease args i networkPoor (snd <$> profile) now
  end.

Definition renew (profile instance : string) (c : caller) (now : Z) : tx db (Z * Z * Z) :=
  i ← match c with
    | CallerMachine token _ =>
        machine ← machineFor token;
        match machine with
        | None => refuse "unauthorized" "Unknown machine token"
        | Some (mid, _) => mret (IdMachine mid)
        end
    | CallerToken _ _ => mret IdToken
    end;
  lease ← leaseFor profile;
  let refusal := refuse "lease" "The lease is held by another controller" in
  match lease with
  | None => refusal
  | Some (lid, l) =>
      match cl_holder l with
      | None => refusal
      | Some h =>
          if (lh_instance h !== instance) || (cl_expiresAt l <=? now) || negb (holderMatches h i) ||
             (Some (cl_epoch l) !== caller_epoch c)
          then refusal
          else
            db_patch controllerLeases lid (λ l, l <| cl_renewedAt := Some now |>
              <| cl_expiresAt := now + LEASE_TTL_MS |>) ≫= λ _,
            mret (cl_epoch l, LEASE_TTL_MS, LEASE_RENEW_INTERVAL_MS)
      end
  end.

Definition release (profile instance : string) (c : caller) (now : Z) : tx db unit :=
  lease ← leaseFor profile;
  match lease with
  | None => mret tt
  | Some (lid, l) =>
      match cl_holder l with
      | None => mret tt
      | Some h =>
          if (lh_instance h !== instance) || (Some (cl_epoch l) !== caller_epoch c) then mret tt
          else
            i ← match c with
              | CallerMachine token _ =>
                  machine ← machineFor token;
                  mret ((λ m, IdMachine m.1) <$> machine)
              | CallerToken _ _ => mret (Some IdToken)
              end;
            match i with
            | None => mret tt
            | Some i =>
                if negb (holderMatches h i) then mret tt
                else db_patch controllerLeases lid (λ d, d <| cl_epoch := cl_epoch l + 1 |>
                  <| cl_holder := None |> <| cl_acquiredAt := None |> <| cl_renewedAt := None |>
                  <| cl_expiresAt := Z.min (cl_expiresAt l) now |>)
            end
      end
  end.

Definition githubTokenTarget (profile : string) (c : caller) (now : Z) : tx db (option (string * bool)) :=
  authorizeController profile c now ≫= λ _,
  found ← profileFor profile;
  match found with
  | None => mret None
  | Some (_, p) =>
      mret ((λ url, (url, pf_githubCacheFacts p === Some true)) <$> pf_githubConfigUrl p)
  end.

Definition authorizeStandbyReport (profile : string) (c : caller) : tx db unit :=
  match c with
  | CallerToken _ _ => mret tt
  | CallerMachine token _ =>
      machine ← machineFor token;
      match machine with
      | None => refuse "unauthorized" "Unknown machine token"
      | Some (mid, _) =>
          readiness ← readinessFor mid profile;
          match readiness with
          | None => refuse "forbidden" "This Worker does not serve the Profile"
          | Some _ => mret tt
          end
      end
  end.

(** ** Reading the lease *)

Definition unique_leases (s : db) : Prop :=
  t_wf (controllerLeases s) ∧
  ∀ i j l l', rows (controllerLeases s) !! i = Some l → rows (controllerLeases s) !! j = Some l' →
    cl_profile l = cl_profile l' → i = j.

Definition lease_row (s : db) (p : string) (i : Id) (l : controller_lease) : Prop :=
  rows (controllerLeases s) !! i = Some l ∧ cl_profile l = p.

Lemma leaseFor_done p s r s' :
  t_wf (controllerLeases s) → leaseFor p s = Done (r, s') →
  s' = s ∧ match r with
           | Some (i, l) => lease_row s p i l
           | None => ∀ i l, rows (controllerLeases s) !! i = Some l → cl_profile l ≠ p
           end.
Proof.
  intros Hwf [-> Hr]%unique_row; [|done]. split; [done|]. destruct r as [[i l]|].
  - destruct Hr as [? Hp]. by apply bool_decide_eq_true in Hp.
  - intros i l Hi. specialize (Hr i l Hi). by apply bool_decide_eq_false in Hr.
Qed.

Lemma machineFor_done token s r s' : machineFor token s = Done (r, s') → s' = s.
Proof.
  unfold machineFor. case_match; [by intros [= _ <-]|]. by intros [-> _]%db_unique_done.
Qed.

(** Who a holder is: its credential, and for a Worker which machine. *)
Definition holder_identity (h : lease_holder) : option identity :=
  match lh_credential h with
  | ControllerToken => Some IdToken
  | MachineCredential => IdMachine <$> lh_machineId h
  end.

Definition same_party (h h' : lease_holder) : Prop :=
  holder_identity h = holder_identity h' ∧ lh_instance h = lh_instance h'.

Lemma holderMatches_identity h i : holderMatches h i = true ↔ holder_identity h = Some i.
Proof.
  unfold holderMatches, holder_identity. destruct i, (lh_credential h), (lh_machineId h); simpl;
    rewrite ?andb_true_iff, ?bool_decide_eq_true; naive_solver.
Qed.

Lemma new_holder_identity i args : holder_identity (new_holder i args) = Some i.
Proof. by destruct i. Qed.

(** What authorization establishes. *)
Lemma authorizeController_done p c now s i s' :
  t_wf (controllerLeases s) → authorizeController p c now s = Done (i, s') →
  s' = s ∧ ∃ lid l h, lease_row s p lid l ∧ cl_holder l = Some h ∧ holder_identity h = Some i ∧
    caller_epoch c = Some (cl_epoch l) ∧ now < cl_expiresAt l.
Proof.
  intros Hwf. unfold authorizeController. destruct c as [slot [e|]|token epoch].
  - intros H. tx_bind_in H lease s1 H1. apply leaseFor_done in H1 as [-> Hl]; [|done].
    destruct lease as [[lid l]|]; [|done]. destruct (cl_holder l) as [h|] eqn:Eh; [|done].
    destruct (_ || _) eqn:Ec; [done|]. injection H as <- <-. split; [done|].
    rewrite !orb_false_iff, !negb_false_iff, !bool_decide_eq_true, Z.leb_gt in Ec.
    destruct Ec as [[Hcred He] Hx]. exists lid, l, h. split_and!; try done.
    + unfold holder_identity. by rewrite Hcred.
    + simpl. by rewrite He.
  - done.
  - intros H. tx_bind_in H om s1 H1. apply machineFor_done in H1 as ->.
    destruct om as [[mid m]|]; [|done]. tx_bind_in H lease s1 H1.
    apply leaseFor_done in H1 as [-> Hl]; [|done].
    destruct epoch as [e|]; [|done]. destruct lease as [[lid l]|]; [|done].
    destruct (cl_holder l) as [h|] eqn:Eh; [|done].
    destruct (_ || _) eqn:Ec; [done|]. injection H as <- <-. split; [done|].
    rewrite !orb_false_iff, !negb_false_iff, !bool_decide_eq_true, Z.leb_gt in Ec.
    destruct Ec as [[Hm He] Hx]. exists lid, l, h. split_and!; try done.
    + by apply holderMatches_identity.
    + simpl. by rewrite He.
Qed.

(** ** Histories of grants *)

Record grant := Grant { gr_profile : string; gr_epoch : Z; gr_holder : lease_holder }.

(** The operations on leases, as steps of the store; every other mutation of the control plane
    leaves the leases alone. *)
Inductive lease_step : db → list grant → db → Prop :=
  | step_granted args now s s' e ttl rn poor st lid l h :
      acquire args now s = Done (Granted e ttl rn poor st, s') →
      lease_row s' (aq_profile args) lid l → cl_holder l = Some h →
      lease_step s [Grant (aq_profile args) e h] s'
  | step_refused args now s s' reason holder retry poor :
      acquire args now s = Done (NotGranted reason holder retry poor, s') → lease_step s [] s'
  | step_renew p instance c now s r s' : renew p instance c now s = Done (r, s') → lease_step s [] s'
  | step_release p instance c now s r s' : release p instance c now s = Done (r, s') → lease_step s [] s'
  | step_other s s' : controllerLeases s' = controllerLeases s → lease_step s [] s'.

Inductive lease_run : list grant → db → Prop :=
  | run_init s : controllerLeases s = t_empty → lease_run [] s
  | run_step H s ev s' : lease_run H s → lease_step s ev s' → lease_run (ev ++ H) s'.

Record lease_inv (H : list grant) (s : db) : Prop := {
  li_unique : unique_leases s;
  li_granted : ∀ g, g ∈ H → ∃ i l, lease_row s (gr_profile g) i l ∧ gr_epoch g ≤ cl_epoch l ∧
    (gr_epoch g = cl_epoch l → ∃ h, cl_holder l = Some h ∧ same_party (gr_holder g) h);
  li_one_party : ∀ g g', g ∈ H → g' ∈ H → gr_profile g = gr_profile g' → gr_epoch g = gr_epoch g' →
    same_party (gr_holder g) (gr_holder g');
  li_holder : ∀ i l h, rows (controllerLeases s) !! i = Some l → cl_holder l = Some h →
    ∃ g, g ∈ H ∧ gr_profile g = cl_profile l ∧ gr_epoch g = cl_epoch l ∧ same_party (gr_holder g) h;
}.

Lemma same_party_refl h : same_party h h.
Proof. done. Qed.
Lemma same_party_sym h h' : same_party h h' → same_party h' h.
Proof. unfold same_party. intuition congruence. Qed.
Lemma same_party_trans h1 h2 h3 : same_party h1 h2 → same_party h2 h3 → same_party h1 h3.
Proof. unfold same_party. intuition congruence. Qed.

Lemma lease_inv_same H s s' : controllerLeases s' = controllerLeases s → lease_inv H s → lease_inv H s'.
Proof.
  intros E [U G O Hh]. unfold unique_leases, lease_row in *.
  split; [unfold unique_leases|unfold lease_row|..]; rewrite ?E; auto; rewrite E; auto.
Qed.

(** ** The invariant *)

Section lease_preservation.
Context (H : list grant) (s : db) (Hinv : lease_inv H s).

(** A row was rewritten: its epoch grew, or it stayed with the same party. *)
Lemma lease_inv_set i l l' ev :
  rows (controllerLeases s) !! i = Some l → cl_profile l' = cl_profile l →
  (cl_epoch l < cl_epoch l' ∨
   cl_epoch l = cl_epoch l' ∧ ∃ h h', cl_holder l = Some h ∧ cl_holder l' = Some h' ∧ same_party h h') →
  (ev = [] ∧ (cl_epoch l < cl_epoch l' → cl_holder l' = None) ∨
   ∃ h', cl_holder l' = Some h' ∧ ev = [Grant (cl_profile l) (cl_epoch l') h']) →
  lease_inv (ev ++ H) (upd controllerLeases (t_set i l') s).
Proof.
  intros Hi Hp Hep Hev. destruct Hinv as [[Hwf U] G O Hh].
  assert (lease_row s (cl_profile l) i l) as Hrow by done.
  assert (∀ g, g ∈ H → gr_profile g = cl_profile l → gr_epoch g ≤ cl_epoch l ∧
    (gr_epoch g = cl_epoch l → ∃ h, cl_holder l = Some h ∧ same_party (gr_holder g) h)) as Hold.
  { intros g Hg Egp. destruct (G g Hg) as (j & lj & [Hj Ej] & Hle & Heq).
    assert (j = i) as -> by (eapply U; [done..|congruence]). by simplify_eq. }
  assert (∀ g, g ∈ ev → gr_profile g = cl_profile l ∧ gr_epoch g = cl_epoch l' ∧
    cl_holder l' = Some (gr_holder g)) as Hnew.
  { intros g Hg. destruct Hev as [[-> _]|(h' & E & ->)]; [by apply elem_of_nil in Hg|].
    apply list_elem_of_singleton in Hg as ->. done. }
  split.
  - split; simpl; [by eapply t_wf_set|]. intros j k lj lk.
    rewrite !lookup_insert_Some. intros [[<- <-]|[? ?]] [[<- <-]|[? ?]] E; try done.
    + eapply U; [done..|congruence].
    + eapply U; [done..|congruence].
    + by eapply U.
  - intros g [Hg|Hg]%elem_of_app.
    + destruct (Hnew g Hg) as (-> & -> & E). exists i, l'. unfold lease_row. simpl.
      rewrite lookup_insert_eq. split_and!; [done|done|lia|]. eauto using same_party_refl.
    + destruct (decide (gr_profile g = cl_profile l)) as [Eg|Ne].
      * destruct (Hold g Hg Eg) as [Hle Heq]. exists i, l'. unfold lease_row. simpl.
        rewrite lookup_insert_eq. split_and!; [done|congruence|lia|].
        intros E. destruct Hep as [?|(E' & h & h' & Eh & Eh' & Hs)]; [lia|].
        destruct Heq as (h0 & ? & ?); [lia|]. simplify_eq. eauto using same_party_trans.
      * destruct (G g Hg) as (j & lj & [Hj Ej] & Hle & Heq). exists j, lj. unfold lease_row. simpl.
        rewrite lookup_insert_ne; [done|]. intros ->. by simplify_eq.
  - assert (∀ g g', g ∈ ev → g' ∈ H → gr_profile g = gr_profile g' → gr_epoch g = gr_epoch g' →
      same_party (gr_holder g) (gr_holder g')) as Hmix.
    { intros g g' Hg Hg' E1 E2. destruct (Hnew g Hg) as (Ep & Ee & Eh).
      destruct (Hold g' Hg') as [Hle Heq]; [congruence|].
      destruct Hep as [?|(E' & h & h' & Eh1 & Eh2 & Hs)]; [lia|].
      destruct Heq as (h0 & ? & ?); [lia|]. simplify_eq.
      apply same_party_sym. by eapply same_party_trans. }
    intros g g' [Hg|Hg]%elem_of_app [Hg'|Hg']%elem_of_app E1 E2; eauto using same_party_sym.
    destruct (Hnew g Hg) as (_ & _ & Eh), (Hnew g' Hg') as (_ & _ & Eh').
    rewrite Eh in Eh'. injection Eh' as ->. apply same_party_refl.
  - intros j lj h Hj Ej. simpl in Hj. rewrite lookup_insert_Some in Hj. destruct Hj as [[<- <-]|[Hne Hj]].
    + destruct Hev as [[-> Hadv]|(h' & E & ->)].
      * destruct Hep as [Hlt|(E' & h1 & h2 & Eh1 & Eh2 & Hs)]; [by rewrite Hadv in Ej|].
        destruct (Hh i l h1 Hi Eh1) as (g & Hg & Eg1 & Eg2 & Hsg). simplify_eq. exists g.
        split_and!; [by apply elem_of_app; right|congruence|congruence|by eapply same_party_trans].
      * simplify_eq. eexists. split; [by apply elem_of_app; left; left|]. simpl.
        split_and!; [congruence|done|apply same_party_refl].
    + destruct (Hh j lj h Hj Ej) as (g & Hg & ?). exists g. split; [by apply elem_of_app; right|done].
Qed.

(** A row was created for a Profile that had none. *)
Lemma lease_inv_add l ev :
  (∀ i k, rows (controllerLeases s) !! i = Some k → cl_profile k ≠ cl_profile l) →
  (cl_holder l = None ∧ ev = [] ∨
   ∃ h, cl_holder l = Some h ∧ ev = [Grant (cl_profile l) (cl_epoch l) h]) →
  lease_inv (ev ++ H) (upd controllerLeases (t_add l) s).
Proof.
  intros Hno Hev. destruct Hinv as [[Hwf U] G O Hh].
  assert (∀ g, g ∈ H → gr_profile g ≠ cl_profile l) as Hng.
  { intros g Hg E. destruct (G g Hg) as (j & lj & [Hj Ej] & _). eapply Hno; [done|congruence]. }
  assert (∀ g, g ∈ ev → gr_profile g = cl_profile l ∧ gr_epoch g = cl_epoch l ∧
    cl_holder l = Some (gr_holder g)) as Hnew.
  { intros g Hg. destruct Hev as [[_ ->]|(h & E & ->)]; [by apply elem_of_nil in Hg|].
    by apply list_elem_of_singleton in Hg as ->. }
  assert (∀ j lj, rows (controllerLeases s) !! j = Some lj → j ≠ next_id (controllerLeases s)) as Hfresh.
  { intros j lj Hj ->. rewrite t_wf_fresh in Hj; done. }
  split.
  - split; simpl; [by apply t_wf_add|]. intros j k lj lk. rewrite !lookup_insert_Some.
    intros [[<- <-]|[? Hj]] [[<- <-]|[? Hk]] E; try done.
    + by destruct (Hno _ _ Hk).
    + by destruct (Hno _ _ Hj).
    + by eapply U.
  - intros g [Hg|Hg]%elem_of_app.
    + destruct (Hnew g Hg) as (-> & -> & E). exists (next_id (controllerLeases s)), l.
      unfold lease_row. simpl. rewrite lookup_insert_eq. split_and!; [done..|lia|].
      eauto using same_party_refl.
    + destruct (G g Hg) as (j & lj & [Hj Ej] & Hle & Heq). exists j, lj. unfold lease_row. simpl.
      rewrite lookup_insert_ne; [done|]. intros E. by eapply Hfresh.
  - intros g g' [Hg|Hg]%elem_of_app [Hg'|Hg']%elem_of_app E1 E2.
    + destruct (Hnew g Hg) as (_ & _ & Eh), (Hnew g' Hg') as (_ & _ & Eh').
      rewrite Eh in Eh'. injection Eh' as ->. apply same_party_refl.
    + destruct (Hnew g Hg) as (E & _). destruct (Hng g' Hg'). congruence.
    + destruct (Hnew g' Hg') as (E & _). destruct (Hng g Hg). congruence.
    + by apply O.
  - intros j lj h Hj Ej. simpl in Hj. rewrite lookup_insert_Some in Hj. destruct Hj as [[<- <-]|[Hne Hj]].
    + destruct Hev as [[E ->]|(h' & E & ->)]; [congruence|]. simplify_eq.
      eexists. split; [by apply elem_of_app; left; left|]. simpl. eauto using same_party_refl.
    + destruct (Hh j lj h Hj Ej) as (g & Hg & ?). exists g. split; [by apply elem_of_app; right|done].
Qed.
End lease_preservation.

(** ** What each operation does to the lease *)

Definition no_lease (s : db) (p : string) : Prop :=
  ∀ i l, rows (controllerLeases s) !! i = Some l → cl_profile l ≠ p.

Definition granted_row (l : controller_lease) (e : Z) (h : lease_holder) (acquiredAt now : Z) : controller_lease :=
  l <| cl_epoch := e |> <| cl_holder := Some h |> <| cl_acquiredAt := Some acquiredAt |>
    <| cl_renewedAt := Some now |> <| cl_expiresAt := now + LEASE_TTL_MS |>.

(** The lease a grant replaces: the asker's own, or one that is free. *)
Definition granted_from (l : controller_lease) (i : identity) (instance : string) (now e : Z) : Prop :=
  (e = cl_epoch l ∧ ∃ h, cl_holder l = Some h ∧ lh_instance h = instance ∧ holder_identity h = Some i ∧
     now < cl_expiresAt l) ∨
  (e = cl_epoch l + 1 ∧ (cl_holder l = None ∨ cl_expiresAt l ≤ now)).

Lemma own_lease_true lid l i instance now :
  own_lease (Some (lid, l)) i instance now = true ↔
  ∃ h, cl_holder l = Some h ∧ lh_instance h = instance ∧ holder_identity h = Some i ∧ now < cl_expiresAt l.
Proof.
  unfold own_lease. destruct (cl_holder l) as [h|]; [|naive_solver].
  rewrite !andb_true_iff, bool_decide_eq_true, holderMatches_identity, Z.ltb_lt. naive_solver.
Qed.

Lemma held_by_None lid l now :
  held_by (Some (lid, l)) now = None ↔ cl_holder l = None ∨ cl_expiresAt l ≤ now.
Proof.
  unfold held_by. destruct (cl_holder l) as [h|]; [|naive_solver].
  destruct (Z.ltb_spec now (cl_expiresAt l)); naive_solver lia.
Qed.

Lemma grant_lease_done args i poor own lease pr now s r s' :
  t_wf (controllerLeases s) →
  match lease with Some (lid, l) => lease_row s (aq_profile args) lid l | None => no_lease s (aq_profile args) end →
  grant_lease args i poor own lease pr now s = Done (r, s') →
  (∃ lid l e at_, lease = Some (lid, l) ∧ r = Granted e LEASE_TTL_MS LEASE_RENEW_INTERVAL_MS poor (pr ≫= profileSettings) ∧
     e = (if own then cl_epoch l else cl_epoch l + 1) ∧
     s' = upd controllerLeases (t_set lid (granted_row l e (new_holder i args) at_ now)) s) ∨
  (lease = None ∧ r = Granted 1 LEASE_TTL_MS LEASE_RENEW_INTERVAL_MS poor (pr ≫= profileSettings) ∧
     s' = upd controllerLeases (t_add (ControllerLease (aq_profile args) 1
       (Some (new_holder i args)) (Some now) (Some now) (now + LEASE_TTL_MS))) s).
Proof.
  intros Hwf Hl. unfold grant_lease. intros H. tx_bind_in H cur s1 H1. cbv zeta in H.
  destruct lease as [[lid l]|].
  - injection H1 as <- <-. tx_bind_in H u s1 H1. injection H as <- <-. destruct Hl as [Hl _].
    apply db_patch_done in H1 as (d & Hd & ->). simplify_eq. left. by eexists lid, l, _, _.
  - apply leaseFor_done in H1 as [-> Hc]; [|done]. destruct cur as [[lid l]|].
    { destruct Hc as [Hr Hp]. by destruct (Hl lid l Hr). }
    tx_bind_in H u s1 H1. injection H as <- <-. tx_bind_in H1 k s2 H2.
    injection H1 as <- <-. injection H2 as <- <-. by right.
Qed.

Lemma acquire_lease_done args i poor pr now s r s' :
  t_wf (controllerLeases s) → acquire_lease args i poor pr now s = Done (r, s') →
  (∃ reason holder retry, r = NotGranted reason holder retry poor ∧
     (s' = s ∨ no_lease s (aq_profile args) ∧
        s' = upd controllerLeases (t_add (ControllerLease (aq_profile args) 0 None None None now)) s)) ∨
  (∃ e st, r = Granted e LEASE_TTL_MS LEASE_RENEW_INTERVAL_MS poor st ∧
     ((∃ lid l at_, lease_row s (aq_profile args) lid l ∧ granted_from l i (aq_instance args) now e ∧
         s' = upd controllerLeases (t_set lid (granted_row l e (new_holder i args) at_ now)) s) ∨
      (no_lease s (aq_profile args) ∧ e = 1 ∧
         s' = upd controllerLeases (t_add (ControllerLease (aq_profile args) 1
           (Some (new_holder i args)) (Some now) (Some now) (now + LEASE_TTL_MS))) s))).
Proof.
  intros Hwf. unfold acquire_lease. intros H. tx_bind_in H lease s1 H1.
  apply leaseFor_done in H1 as [-> Hl]; [|done]. cbv zeta in H.
  assert (∀ own, own = own_lease lease i (aq_instance args) now →
    (own = false → held_by lease now = None) →
    grant_lease args i poor own lease pr now s = Done (r, s') →
    (∃ e st, r = Granted e LEASE_TTL_MS LEASE_RENEW_INTERVAL_MS poor st ∧
     ((∃ lid l at_, lease_row s (aq_profile args) lid l ∧ granted_from l i (aq_instance args) now e ∧
         s' = upd controllerLeases (t_set lid (granted_row l e (new_holder i args) at_ now)) s) ∨
      (no_lease s (aq_profile args) ∧ e = 1 ∧
         s' = upd controllerLeases (t_add (ControllerLease (aq_profile args) 1
           (Some (new_holder i args)) (Some now) (Some now) (now + LEASE_TTL_MS))) s)))) as Hgrant.
  { intros own Hown Hfree Hg. apply grant_lease_done in Hg as [(lid & l & e & a & -> & -> & -> & ->)|(-> & -> & ->)];
      [| |done|by destruct lease as [[? ?]|]].
    - eexists _, _. split; [done|]. left. exists lid, l, a. split_and!; [done| |done].
      symmetry in Hown. destruct own.
      + apply own_lease_true in Hown. left. split; [done|]. naive_solver.
      + right. split; [done|]. by apply (held_by_None lid), Hfree.
    - eexists _, _. split; [done|]. right. done. }
  destruct (own_lease lease i (aq_instance args) now) eqn:Eown.
  { right. apply (Hgrant true) in H; [done..|]. done. }
  destruct (held_by lease now) as [[hn ex]|] eqn:Eheld.
  { injection H as <- <-. left. eauto 10. }
  destruct poor; [|right; by apply (Hgrant false) in H].
  simpl in H. tx_bind_in H u s1 H1. destruct lease as [[lid l]|].
  - injection H1 as <- <-. case_match; [injection H as <- <-; left; eauto 10|]. right. by apply (Hgrant false) in H.
  - unfold when in H1. simpl in H1. tx_bind_in H1 k s2 H2. injection H1 as <- <-. injection H2 as <- <-.
    rewrite Z.sub_diag in H. injection H as <- <-. left. eexists _, _, _. split; [done|]. right. done.
Qed.

Lemma candidacy_of_done args pr now s r s' : candidacy_of args pr now s = Done (r, s') → s' = s.
Proof.
  unfold candidacy_of. destruct (aq_caller args) as [slot e|token e].
  - case_match; by intros [= _ <-].
  - intros H. tx_bind_in H om s1 H1. apply machineFor_done in H1 as ->.
    destruct om as [[mid m]|]; [|done]. destruct pr as [p|]; [|by inversion H].
    case_match; [by inversion H|]. case_match; [by inversion H|].
    tx_bind_in H rd s1 Hrd. apply db_unique_done in Hrd as [-> _].
    repeat case_match; by inversion H.
Qed.

(** [acquire] is the lease operation for some resolved candidate, or a refusal without effect. *)
Lemma acquire_done args now s r s' :
  acquire args now s = Done (r, s') →
  (∃ reason holder retry poor, r = NotGranted reason holder retry poor ∧ s' = s) ∨
  (∃ i poor pr, acquire_lease args i poor pr now s = Done (r, s')).
Proof.
  unfold acquire. intros H. tx_bind_in H pr s1 H1. apply db_unique_done in H1 as [-> _].
  tx_bind_in H cand s1 H1. pose proof (candidacy_of_done _ _ _ _ _ _ H1) as ->.
  destruct cand as [res|i poor]; [|right; eauto].
  injection H as <- <-. left.
  assert (∃ reason holder retry poor, res = NotGranted reason holder retry poor) as (? & ? & ? & ? & ->);
    [|by eauto 10].
  clear - H1. unfold candidacy_of in H1. destruct (aq_caller args) as [slot e|token e].
  - case_match; [injection H1 as <-; eauto|done].
  - tx_bind_in H1 om s1 H2. apply machineFor_done in H2 as ->.
    destruct om as [[mid m]|]; [|done]. destruct (snd <$> pr) as [p|]; [|injection H1 as <-; eauto].
    case_match; [injection H1 as <-; eauto|]. case_match; [injection H1 as <-; eauto|].
    tx_bind_in H1 rd s2 Hrd. apply db_unique_done in Hrd as [-> _].
    repeat case_match; first [done|injection H1 as <-; eauto].
Qed.

Lemma renew_done p instance c now s r s' :
  t_wf (controllerLeases s) → renew p instance c now s = Done (r, s') →
  ∃ lid l h, lease_row s p lid l ∧ cl_holder l = Some h ∧ now < cl_expiresAt l ∧
    s' = upd controllerLeases (t_set lid
      (l <| cl_renewedAt := Some now |> <| cl_expiresAt := now + LEASE_TTL_MS |>)) s.
Proof.
  intros Hwf. unfold renew. intros H. tx_bind_in H i s1 H1.
  assert (s1 = s) as ->.
  { destruct c; [by inversion H1|]. tx_bind_in H1 om s2 H2. apply machineFor_done in H2 as ->.
    destruct om as [[mid m]|]; [by inversion H1|done]. }
  tx_bind_in H lease s1 H2. apply leaseFor_done in H2 as [-> Hl]; [|done].
  destruct lease as [[lid l]|]; [|done]. destruct (cl_holder l) as [h|] eqn:Eh; [|done].
  destruct (_ || _) eqn:Ec; [done|]. tx_bind_in H u s1 H2. injection H as <- <-.
  apply db_patch_done in H2 as (d & Hd & ->). destruct Hl as [Hr Hp]. simplify_eq.
  rewrite !orb_false_iff, Z.leb_gt in Ec. destruct Ec as [[[_ ?] _] _]. by exists lid, l, h.
Qed.

Lemma release_done p instance c now s r s' :
  t_wf (controllerLeases s) → release p instance c now s = Done (r, s') →
  s' = s ∨ ∃ lid l h, lease_row s p lid l ∧ cl_holder l = Some h ∧ lh_instance h = instance ∧
    caller_epoch c = Some (cl_epoch l) ∧
    s' = upd controllerLeases (t_set lid (l <| cl_epoch := cl_epoch l + 1 |> <| cl_holder := None |>
      <| cl_acquiredAt := None |> <| cl_renewedAt := None |> <| cl_expiresAt := Z.min (cl_expiresAt l) now |>)) s.
Proof.
  intros Hwf. unfold release. intros H. tx_bind_in H lease s1 H1.
  apply leaseFor_done in H1 as [-> Hl]; [|done].
  destruct lease as [[lid l]|]; [|left; by inversion H]. destruct (cl_holder l) as [h|] eqn:Eh; [|left; by inversion H].
  destruct (_ || _) eqn:Ec; [left; by inversion H|]. tx_bind_in H i s1 H1.
  assert (s1 = s) as ->.
  { destruct c; [by inversion H1|]. tx_bind_in H1 om s2 H2. apply machineFor_done in H2 as ->. by inversion H1. }
  destruct i as [i|]; [|left; by inversion H]. destruct (negb (holderMatches h i)); [left; by inversion H|].
  apply db_patch_done in H as (d & Hd & ->). destruct Hl as [Hr Hp]. simplify_eq. right.
  rewrite orb_false_iff, !negb_false_iff, !bool_decide_eq_true in Ec. destruct Ec as [Ei Ee].
  by exists lid, l, h.
Qed.

Lemma lease_step_inv H s ev s' : lease_inv H s → lease_step s ev s' → lease_inv (ev ++ H) s'.
Proof.
  intros Hinv Hstep. pose proof (proj1 (li_unique _ _ Hinv)) as Hwf.
  destruct Hstep as [args now s s' e ttl rn poor st lid l h Hacq Hrow Hh
                    |args now s s' reason holder retry poor Hacq
                    |p instance c now s r s' Hr|p instance c now s r s' Hr|s s' E].
  - apply acquire_done in Hacq as [(? & ? & ? & ? & ? & _)|(i & poor' & pr & Hacq)]; [done|].
    apply acquire_lease_done in Hacq as [(? & ? & ? & ? & _)|(e' & st' & Hres & Hcase)]; [done| |done].
    injection Hres as <- _ _ <- <-.
    destruct Hcase as [(lid' & l0 & a & [Hl0 Hp] & Hfrom & ->)|(Hno & -> & ->)].
    + assert (h = new_holder i args) as ->.
      { destruct Hrow as [Hrow Hp']. simpl in Hrow. rewrite lookup_insert_Some in Hrow.
        destruct Hrow as [[<- <-]|[Hne Hrow]]; [by injection Hh as <-|].
        destruct (li_unique _ _ Hinv) as [_ U]. destruct Hne. symmetry. eapply U; [done..|congruence]. }
      rewrite <- Hp. eapply lease_inv_set; [done|done|done| |].
      * simpl. destruct Hfrom as [(-> & h0 & Eh0 & Ei & Eid & _)|(-> & _)]; [right|left; lia].
        split; [done|]. exists h0, (new_holder i args). split_and!; [done..|].
        split; [by rewrite new_holder_identity|]. rewrite Ei. by destruct i.
      * right. eexists. split; [done|]. done.
    + assert (h = new_holder i args) as ->.
      { destruct Hrow as [Hrow Hp']. simpl in Hrow. rewrite lookup_insert_Some in Hrow.
        destruct Hrow as [[<- <-]|[Hne Hrow]]; [by injection Hh as <-|]. by destruct (Hno lid l Hrow). }
      apply lease_inv_add; [done|done|]. right. by eexists.
  - apply acquire_done in Hacq as [(? & ? & ? & ? & _ & ->)|(i & poor' & pr & Hacq)]; [done|].
    apply acquire_lease_done in Hacq as [(? & ? & ? & _ & [->|[Hno ->]])|(e' & st' & Hres & _)]; [done| |done|done].
    apply (lease_inv_add H s Hinv _ []); [done|]. by left.
  - apply renew_done in Hr as (lid & l & h & [Hl Hp] & Hh & _ & ->); [|done].
    apply (lease_inv_set H s Hinv lid l _ []); [done|done| |].
    + right. split; [done|]. exists h, h. simpl. rewrite Hh. done.
    + left. split; [done|]. simpl. lia.
  - apply release_done in Hr as [->|(lid & l & h & [Hl Hp] & Hh & _ & _ & ->)]; [done| |done].
    apply (lease_inv_set H s Hinv lid l _ []); [done|done|left; simpl; lia|by left].
  - by eapply lease_inv_same.
Qed.

Lemma lease_run_inv H s : lease_run H s → lease_inv H s.
Proof.
  induction 1 as [s E|H s ev s' _ IH Hstep].
  - split; rewrite ?E; [split; rewrite E; [apply t_wf_empty|by intros i j l l' ?]|..].
    + by intros g ?%elem_of_nil.
    + by intros g g' ?%elem_of_nil.
    + by intros i l h Hi.
  - by eapply lease_step_inv.
Qed.

(** Over any sequence of acquisitions, renewals, releases and other mutations, a lease epoch
    of a Profile is only ever granted to one party: one process with one credential. *)
Theorem lease_epoch_single_party H s g g' :
  lease_run H s → g ∈ H → g' ∈ H → gr_profile g = gr_profile g' → gr_epoch g = gr_epoch g' →
  holder_identity (gr_holder g) = holder_identity (gr_holder g') ∧
  lh_instance (gr_holder g) = lh_instance (gr_holder g').
Proof. intros Hrun. apply (li_one_party _ _ (lease_run_inv _ _ Hrun)). Qed.

(** C4: fencing.  A controller request is authorised only under the newest epoch ever granted
    for the Profile, only before the lease expires, and only for the credential that epoch was
    granted to; the check changes nothing.  So a controller that lost the lease is refused. *)
Theorem lease_fencing H s p c now i s' :
  lease_run H s → authorizeController p c now s = Done (i, s') →
  s' = s ∧ ∃ e, caller_epoch c = Some e ∧
    (∃ g, g ∈ H ∧ gr_profile g = p ∧ gr_epoch g = e) ∧
    (∀ g, g ∈ H → gr_profile g = p →
       gr_epoch g ≤ e ∧ (gr_epoch g = e → holder_identity (gr_holder g) = Some i)) ∧
    ∃ lid l, lease_row s p lid l ∧ cl_epoch l = e ∧ now < cl_expiresAt l.
Proof.
  intros Hinv%lease_run_inv Hauth. destruct (li_unique _ _ Hinv) as [Hwf U].
  apply authorizeController_done in Hauth as (-> & lid & l & h & [Hl Hp] & Hh & Hid & He & Hx); [|done].
  split; [done|]. exists (cl_epoch l). split_and!; [done| | |by exists lid, l].
  - destruct (li_holder _ _ Hinv lid l h Hl Hh) as (g & Hg & Egp & Ege & _). exists g.
    split_and!; [done|congruence|done].
  - intros g Hg Egp. destruct (li_granted _ _ Hinv g Hg) as (j & lj & [Hj Ej] & Hle & Heq).
    assert (j = lid) as -> by (eapply U; [done..|congruence]). simplify_eq. split; [done|].
    intros E. destruct (Heq E) as (h' & Eh' & [Hs _]). rewrite Hs. by simplify_eq.
Qed.

(** ** Refused candidates are told when to come back *)

Lemma leaseFor_total s p : unique_leases s → ∃ r, leaseFor p s = Done (r, s).
Proof.
  intros [Hwf U]. unfold leaseFor, db_unique.
  pose proof (NoDup_t_where_ids (λ l, cl_profile l === p) (controllerLeases s)) as Hnd.
  destruct (t_where _ _) as [|[i l] [|[j l'] rs]] eqn:E; [by eexists..|exfalso].
  assert (∀ r, r ∈ [(i, l); (j, l')] → rows (controllerLeases s) !! r.1 = Some r.2 ∧ cl_profile r.2 = p) as Hin.
  { intros r Hr. assert (r ∈ t_where (λ l, cl_profile l === p) (controllerLeases s)) as Hw.
    { rewrite E. set_solver. }
    apply t_where_sound in Hw as [? Hp]. by apply bool_decide_eq_true in Hp. }
  destruct (Hin (i, l)) as [Hi Hp]; [left|]. destruct (Hin (j, l')) as [Hj Hp']; [right; left|].
  simpl in *. assert (i = j) as -> by (eapply U; [done..|congruence]).
  apply NoDup_cons in Hnd as [Hn _]. apply Hn. left.
Qed.

Lemma grant_lease_total args i poor own lease pr now s :
  unique_leases s →
  match lease with Some (lid, l) => lease_row s (aq_profile args) lid l | None => no_lease s (aq_profile args) end →
  ∃ e st s', grant_lease args i poor own lease pr now s =
    Done (Granted e LEASE_TTL_MS LEASE_RENEW_INTERVAL_MS poor st, s').
Proof.
  intros Hu Hl. unfold grant_lease. destruct lease as [[lid l]|].
  - destruct Hl as [Hl _]. unfold mbind, tx_bind, db_patch. simpl. rewrite Hl. by eexists _, _, _.
  - destruct (leaseFor_total s (aq_profile args) Hu) as [r Hr].
    unfold mbind, tx_bind. rewrite Hr. destruct r as [[lid l]|]; simpl; [|by eexists _, _, _].
    apply leaseFor_done in Hr as [_ [Hr Hp]]; [|apply Hu]. by destruct (Hl lid l).
Qed.

(** The row a refused candidate leaves behind, and the time from which it will be granted. *)
Definition free_for (s : db) (p : string) (poor : bool) (now' : Z) : Prop :=
  ∃ lid l, lease_row s p lid l ∧ cl_expiresAt l ≤ now' ∧
    (poor = true → cl_expiresAt l + POOR_NETWORK_HEAD_START_MS ≤ now').

Lemma acquire_lease_refused args i poor pr now s reason holder retry p' s' now' :
  unique_leases s →
  (∀ lid l, lease_row s (aq_profile args) lid l → cl_holder l = None → cl_expiresAt l ≤ now) →
  acquire_lease args i poor pr now s = Done (NotGranted reason holder retry p', s') →
  now + retry ≤ now' → p' = poor ∧ free_for s' (aq_profile args) poor now'.
Proof.
  intros [Hwf U] Hpast. unfold acquire_lease. intros H Hn. tx_bind_in H lease s1 H1.
  apply leaseFor_done in H1 as [-> Hl]; [|done]. cbv zeta in H.
  assert (∀ own, grant_lease args i poor own lease pr now s ≠ Done (NotGranted reason holder retry p', s')) as Hng.
  { intros own Hg. apply grant_lease_done in Hg as [(? & ? & ? & ? & _ & ? & _)|(_ & ? & _)];
      [done..|by destruct lease as [[? ?]|]]. }
  destruct (own_lease lease i (aq_instance args) now) eqn:Eown; [by apply Hng in H|].
  destruct (held_by lease now) as [[hn ex]|] eqn:Eheld.
  - injection H as <- <- <- <- <-. destruct lease as [[lid l]|]; [|done]. split; [done|].
    unfold held_by in Eheld. destruct (cl_holder l); [|done].
    destruct (Z.ltb_spec now (cl_expiresAt l)); [|done]. injection Eheld as <- <-.
    exists lid, l. split; [done|]. destruct poor; unfold POOR_NETWORK_HEAD_START_MS in *; naive_solver lia.
  - destruct poor; [|by apply Hng in H]. simpl in H. tx_bind_in H u s1 H1. destruct lease as [[lid l]|].
    + injection H1 as <- <-. case_match; [|by apply Hng in H]. injection H as <- <- <- <- <-.
      split; [done|]. exists lid, l. split; [done|].
      apply held_by_None in Eheld. assert (cl_expiresAt l ≤ now) by naive_solver.
      unfold POOR_NETWORK_HEAD_START_MS in *. naive_solver lia.
    + unfold when in H1. simpl in H1. tx_bind_in H1 k s2 H2. injection H1 as <- <-. injection H2 as <- <-.
      rewrite Z.sub_diag in H. injection H as <- <- <- <- <-. split; [done|].
      eexists (next_id (controllerLeases s)), _. split.
      * split; [apply lookup_insert_eq|done].
      * simpl. unfold POOR_NETWORK_HEAD_START_MS in *. naive_solver lia.
Qed.

Lemma acquire_lease_free args i poor pr now' s :
  unique_leases s → free_for s (aq_profile args) poor now' →
  ∃ e st s', acquire_lease args i poor pr now' s =
    Done (Granted e LEASE_TTL_MS LEASE_RENEW_INTERVAL_MS poor st, s').
Proof.
  intros Hu (lid & l & [Hr Hp] & Hx & Hpoor). unfold acquire_lease.
  destruct (leaseFor_total s (aq_profile args) Hu) as [r Hread].
  pose proof Hread as [_ Hrow]%leaseFor_done; [|apply Hu].
  destruct r as [[lid' l']|]; [|by destruct (Hrow lid l)].
  assert (lid' = lid) as -> by (destruct Hrow, Hu as [_ U]; eapply U; [done..|congruence]).
  destruct Hrow as [Hr' _]. simplify_eq.
  unfold mbind, tx_bind at 1. rewrite Hread. cbv zeta.
  assert (own_lease (Some (lid, l)) i (aq_instance args) now' = false) as ->.
  { destruct (own_lease _ _ _ _) eqn:E; [|done]. apply own_lease_true in E as (? & _ & _ & _ & ?). lia. }
  rewrite (proj2 (held_by_None lid l now')) by (right; done). simpl.
  destruct poor; simpl.
  - unfold mbind, tx_bind. simpl. rewrite (proj2 (Z.ltb_ge _ _)) by (specialize (Hpoor eq_refl); lia).
    apply grant_lease_total; done.
  - apply grant_lease_total; done.
Qed.

(** A candidate that is refused because the lease is held or in its head start is told how
    long to wait, and the wait is enough: if nothing else takes or renews the lease meanwhile and
    the candidate is still eligible when it asks again after [retryAfterMs], it is granted. *)
Theorem acquire_retry_granted args now s reason holder retry poor s1 now' s2 pr i poor' :
  unique_leases s →
  (∀ lid l, lease_row s (aq_profile args) lid l → cl_holder l = None → cl_expiresAt l ≤ now) →
  reason = RHeld ∨ reason = RHeadStart →
  acquire args now s = Done (NotGranted reason holder retry poor, s1) →
  controllerLeases s2 = controllerLeases s1 → now + retry ≤ now' →
  profileFor (aq_profile args) s2 = Done (pr, s2) →
  candidacy_of args (snd <$> pr) now' s2 = Done (Eligible i poor', s2) →
  (poor' = true → poor = true) →
  ∃ e st s3, acquire args now' s2 =
    Done (Granted e LEASE_TTL_MS LEASE_RENEW_INTERVAL_MS poor' st, s3).
Proof.
  intros Hu Hpast Hreason Hacq Hsame Hnow Hpr Hcand Hpoor.
  unfold acquire, mbind, tx_bind. rewrite Hpr. unfold tx_bind. rewrite Hcand.
  assert (∃ i0 poor0 pr0, acquire_lease args i0 poor0 pr0 now s = Done (NotGranted reason holder retry poor, s1))
    as (i0 & poor0 & pr0 & Hal).
  { unfold acquire in Hacq. tx_bind_in Hacq p0 s3 H1. apply db_unique_done in H1 as [-> _].
    tx_bind_in Hacq cand s3 H1. pose proof (candidacy_of_done _ _ _ _ _ _ H1) as ->.
    destruct cand as [r|i0 poor0]; [|eauto]. exfalso. injection Hacq as -> <-. clear - H1 Hreason.
    unfold candidacy_of in H1. destruct (aq_caller args) as [slot e|token e].
    - repeat case_match; inversion H1; subst; naive_solver.
    - tx_bind_in H1 om s1 H2. apply machineFor_done in H2 as ->.
      destruct om as [[mid m]|]; [|done]. destruct (snd <$> p0) as [p|]; [|inversion H1; naive_solver].
      case_match; [inversion H1; naive_solver|]. case_match; [inversion H1; naive_solver|].
      tx_bind_in H1 rd s2 Hrd. apply db_unique_done in Hrd as [-> _].
      repeat case_match; inversion H1; naive_solver. }
  pose proof Hal as Hfree. eapply acquire_lease_refused in Hfree as [-> (lid & l & [Hr Hp] & Hx & Hp')]; [|done..].
  assert (unique_leases s1) as Hu1.
  { apply acquire_lease_done in Hal as [(? & ? & ? & _ & [->|[Hno ->]])|(? & ? & ? & _)]; [done| |done|apply Hu].
    destruct Hu as [Hwf U]. split; simpl; [by apply t_wf_add|]. intros j k lj lk. rewrite !lookup_insert_Some.
    intros [[<- <-]|[? Hj]] [[<- <-]|[? Hk]] E; try done; [by destruct (Hno _ _ Hk)|by destruct (Hno _ _ Hj)|].
    by eapply U. }
  apply acquire_lease_free.
  - unfold unique_leases. by rewrite Hsame.
  - exists lid, l. unfold lease_row. rewrite Hsame. naive_solver.
Qed.

(** ** Witnesses *)

Definition demo_acquire (hostname instance : string) : acquire_args :=
  AcquireArgs "linux" hostname instance false false (CallerToken SlotCurrent None).

Definition demo_held : db := commit (acquire (demo_acquire "ctl-a" "p1") 1000) demo_db.
Definition demo_holder : lease_holder := LeaseHolderDoc ControllerToken None "ctl-a" "p1".
Definition demo_lease : controller_lease :=
  ControllerLease "linux" 1 (Some demo_holder) (Some 1000) (Some 1000) 31000.

Lemma demo_granted :
  ∃ st, acquire (demo_acquire "ctl-a" "p1") 1000 demo_db = Done (Granted 1 30000 10000 false st, demo_held).
Proof. eexists. vm_compute. reflexivity. Qed.

Lemma demo_lease_run : lease_run [Grant "linux" 1 demo_holder] demo_held.
Proof.
  destruct demo_granted as [st Hg]. apply (run_step [] demo_db [Grant "linux" 1 demo_holder] demo_held).
  - by apply run_init.
  - eapply (step_granted (demo_acquire "ctl-a" "p1") 1000 _ _ _ _ _ _ _ 0 demo_lease); [exact Hg| |done].
    split; vm_compute; reflexivity.
Qed.

Lemma lease_epoch_single_party_witness :
  holder_identity demo_holder = holder_identity demo_holder ∧ lh_instance demo_holder = lh_instance demo_holder.
Proof.
  apply (lease_epoch_single_party [Grant "linux" 1 demo_holder] demo_held
    (Grant "linux" 1 demo_holder) (Grant "linux" 1 demo_holder) demo_lease_run); (reflexivity || left).
Defined.

Lemma lease_fencing_witness :
  authorizeController "linux" (CallerToken SlotCurrent (Some 1)) 2000 demo_held = Done (IdToken, demo_held) ∧
  authorizeController "linux" (CallerToken SlotCurrent (Some 0)) 2000 demo_held =
    Failed (Refused "lease" "The lease epoch is stale: another controller holds this Profile") ∧
  (∀ g, g ∈ [Grant "linux" 1 demo_holder] → gr_profile g = "linux" → gr_epoch g ≤ 1).
Proof.
  assert (authorizeController "linux" (CallerToken SlotCurrent (Some 1)) 2000 demo_held =
    Done (IdToken, demo_held)) as E by (vm_compute; reflexivity).
  split; [exact E|]. split; [vm_compute; reflexivity|].
  destruct (lease_fencing _ _ _ _ _ _ _ demo_lease_run E) as (_ & e & He & _ & Hg & _).
  injection He as <-. intros g Hin Hp. apply (Hg g Hin Hp).
Defined.

Lemma acquire_retry_granted_witness :
  ∃ retry, acquire (demo_acquire "ctl-b" "p2") 2000 demo_held =
      Done (NotGranted RHeld (Some "ctl-a") retry false, demo_held) ∧
    ∃ e st s3, acquire (demo_acquire "ctl-b" "p2") (2000 + retry) demo_held =
      Done (Granted e LEASE_TTL_MS LEASE_RENEW_INTERVAL_MS false st, s3).
Proof.
  exists 29000. assert (acquire (demo_acquire "ctl-b" "p2") 2000 demo_held =
    Done (NotGranted RHeld (Some "ctl-a") 29000 false, demo_held)) as E by (vm_compute; reflexivity).
  split; [exact E|].
  apply (acquire_retry_granted (demo_acquire "ctl-b" "p2") 2000 demo_held RHeld (Some "ctl-a") 29000 false
    demo_held (2000 + 29000) demo_held (Some (0%nat, demo_profile)) IdToken false).
  - apply (li_unique _ _ (lease_run_inv _ _ demo_lease_run)).
  - intros lid l [Hr _].
    assert (controllerLeases demo_held = t_of [demo_lease]) as Et by (vm_compute; reflexivity).
    rewrite Et in Hr. apply (t_of_inv [demo_lease]), list_elem_of_singleton in Hr as ->. discriminate.
  - left. reflexivity.
  - exact E.
  - reflexivity.
  - lia.
  - vm_compute. reflexivity.
  - vm_compute. reflexivity.
  - discriminate.
Defined.
