(* ===== verification/ControllerApi.v ===== *)
(** The API a Profile's controller calls (packages/backend/convex/controllerApi.ts): registering
    Profiles, heartbeats, creating and cancelling Attempts, GitHub's JobStarted and JobCompleted,
    and the deletion of Runners. *)

From S2P Require Import Prelude JsLib Schema HostLabels Egress Isolation Benchmark Scheduler.
From S2P Require Import Retirement Lease.

(** A request without a caller is not a controller's: server code and tests pass none. *)
Definition authorize (profile : string) (c : option caller) (now : Z) : tx db unit :=
  match c with
  | None => mret tt
  | Some c => authorizeController profile c now ≫= λ _, mret tt
  end.

Definition terminal (st : attempt_state) : bool :=
  match st with Completed | Cancelled | FailedState => true | _ => false end.

Definition activeAttemptStates : list attempt_state := [Pending; Preparing; Ready; Running].

(** ** Profiles *)

Record register_args := RegisterArgs {
  ra_name : string;
  ra_scaleSetName : string;
  ra_executor : executor;
  ra_imageRelease : string;
  ra_vcpus : Z;
  ra_memoryMiB : Z;
  ra_warmPool : option Z;
  ra_fitPolicy : option fit_policy;
  ra_minRunners : Z;
  ra_maxRunners : Z;
  ra_egress : option profile_egress;
  ra_githubConfigUrl : option string;
  ra_githubCacheFacts : option bool;
  ra_runnerGroup : option string;
  ra_labels : option (list string);
  ra_workerLabels : option (list string);
}.

(** The row a registration writes. *)
Definition registered_profile (a : register_args) (existing : option profile) (now : Z) : profile :=
  Profile (ra_name a) (ra_scaleSetName a) (ra_executor a) (ra_imageRelease a) (ra_vcpus a)
    (ra_memoryMiB a) (Some (or_else 0 (ra_warmPool a))) (Some (or_else FitBalanced (ra_fitPolicy a)))
    (ra_minRunners a) (ra_maxRunners a)
    (match ra_egress a with
     | Some e => if eg_mode e === EgressPublic then None else Some e
     | None => None end)
    (or_opt (ra_githubConfigUrl a) (existing ≫= pf_githubConfigUrl))
    (if is_none (ra_githubConfigUrl a) then existing ≫= pf_githubCacheFacts
     else Some (ra_githubCacheFacts a === Some true))
    (if is_none (ra_githubConfigUrl a) then existing ≫= pf_runnerGroup else ra_runnerGroup a)
    (if is_none (ra_githubConfigUrl a) then existing ≫= pf_labels else ra_labels a)
    (match ra_workerLabels a with Some (l :: ls) => Some (l :: ls) | _ => None end)
    ProfileActive now.

Definition scale_set_of (p : profile) : scale_set_profile :=
  ScaleSetProfile (pf_name p) (pf_scaleSetName p) (pf_labels p).

(** The conflicts a registration adds, and those it keeps. *)
Definition introducedLabelConflicts (existing : option profile) (value : profile)
    : tx db (list label_conflict * list label_conflict) :=
  active ← db_where profiles (λ p, pf_state p === ProfileActive);
  let others := scale_set_of <$> filter (λ p, pf_name p ≠ pf_name value) (snd <$> active) in
  let before := match existing with
    | Some e => if pf_state e === ProfileActive then lc_other <$> conflictsOf (scale_set_of e) others else []
    | None => [] end in
  let now := conflictsOf (scale_set_of value) others in
  mret (filter (λ c, lc_other c ∉ before) now, filter (λ c, lc_other c ∈ before) now).

Definition registerProfile (a : register_args) (c : option caller) (now : Z) : tx db (option string) :=
  authorize (ra_name a) c now ≫= λ _,
  match c with Some c => requireControllerToken c | None => mret tt end ≫= λ _,
  existing ← profile_named (ra_name a);
  let value := registered_profile a (snd <$> existing) now in
  conflicts ← introducedLabelConflicts (snd <$> existing) value;
  match conflicts.1 with
  | conflict :: _ => mret (Some (lc_reason conflict))
  | [] =>
      profileId ← match existing with
        | None => db_insert profiles value
        | Some (id, _) => db_patch profiles id (λ _, value) ≫= λ _, mret id
        end;
      when ((str_join "," <$> (existing ≫= λ e, pf_workerLabels e.2)) !==
            (str_join "," <$> pf_workerLabels value))
        (stored ← db_get profiles profileId;
         match stored with
         | Some p => retireOffPinForProfile p now ≫= λ _, mret tt
         | None => mret tt
         end ≫= λ _,
         run_after CallAttemptTryAssign) ≫= λ _,
      mret None
  end.

Definition pauseProfile (name : string) (c : option caller) (now : Z) : tx db bool :=
  match c with
  | Some c => authorize name (Some c) now ≫= λ _, requireControllerToken c
  | None => mret tt
  end ≫= λ _,
  existing ← profile_named name;
  match existing with
  | None => mret false
  | Some (id, p) =>
      when (pf_state p !== ProfilePaused)
        (db_patch profiles id (λ d, d <| pf_state := ProfilePaused |> <| pf_updatedAt := now |>)) ≫= λ _,
      mret true
  end.

(** ** Heartbeats *)

Record heartbeat_args := HeartbeatArgs {
  ha_profile : string;
  ha_hostname : string;
  ha_version : string;
  ha_scaleSetId : option Z;
  ha_sessionState : session_state;
  ha_leaseRole : option lease_role;
  ha_leaseEpoch : option Z;
  ha_lastMessageAt : option Z;
  ha_startedAt : option Z;
  ha_assignedJobs : Z;
  ha_runningJobs : Z;
  ha_lastError : option string;
  ha_tokenSlot : token_slot;
}.

Definition authorize_report (a : heartbeat_args) (c : caller) (now : Z) : tx db unit :=
  match ha_leaseRole a with
  | Some LeaseHolder => authorizeController (ha_profile a) c now ≫= λ _, mret tt
  | Some LeaseStandby =>
      when (is_some (caller_epoch c)) (authorizeController (ha_profile a) c now ≫= λ _, mret tt) ≫= λ _,
      authorizeStandbyReport (ha_profile a) c
  | None => authorize (ha_profile a) (Some c) now
  end.

Definition recordHeartbeat (a : heartbeat_args) (c : option caller) (now : Z) : tx db unit :=
  match c with Some c => authorize_report a c now | None => mret tt end ≫= λ _,
  machine ← match c with
    | Some (CallerMachine token _) => db_unique machines (λ m, mc_token m === token)
    | _ => mret None
    end;
  let reporter := match machine with
    | None => "controller:" +:+ ha_hostname a
    | Some (id, _) => "machine:" +:+ pretty id end in
  found ← db_unique controllerHeartbeats
    (λ h, (hb_profile h === ha_profile a) && (hb_reporter h === Some reporter));
  existing ← match found, machine with
    | None, None => db_first controllerHeartbeats
        (λ h, (hb_profile h === ha_profile a) && (hb_hostname h === ha_hostname a) && is_none (hb_reporter h))
    | _, _ => mret found
    end;
  let report firstSeenAt := ControllerHeartbeat (ha_profile a) (Some reporter) (ha_hostname a)
    (ha_version a) (ha_scaleSetId a) (ha_sessionState a) (ha_leaseRole a) (ha_leaseEpoch a)
    (ha_lastMessageAt a) (ha_startedAt a) (ha_assignedJobs a) (ha_runningJobs a) (ha_lastError a)
    (ha_tokenSlot a) firstSeenAt now
    (if ha_sessionState a === SListening then Some now else existing ≫= λ h, hb_lastListeningAt h.2) in
  match existing with
  | None => db_insert controllerHeartbeats (report now) ≫= λ _, mret tt
  | Some (id, _) => db_patch controllerHeartbeats id (λ h, report (hb_firstSeenAt h))
  end.

(** ** Attempts *)

Definition listActiveAttempts (profile : string) (c : option caller) (now : Z)
    : tx db (list (string * Z * attempt_state * Z)) :=
  authorize profile c now ≫= λ _,
  ranges ← map_tx (λ st, db_where attempts (λ a, (at_profile a === profile) && (at_state a === st)))
    activeAttemptStates;
  mret ((λ r : Id * attempt, (at_runnerName r.2, at_runnerId r.2, at_state r.2, at_createdAt r.2)) <$>
    filter (λ r, isRetiring r.2 = false) (concat ranges)).

Definition listRunnerCleanups (profile : string) (c : option caller) (now : Z) : tx db (list (string * Z)) :=
  authorize profile c now ≫= λ _,
  rows ← db_where attempts (λ a, (at_profile a === profile) && (at_runnerCleanupPending a === Some true));
  mret ((λ r : Id * attempt, (at_runnerName r.2, at_runnerId r.2)) <$> rows).

Definition attempt_named (runnerName : string) : tx db (option (Id * attempt)) :=
  db_unique attempts (λ a, at_runnerName a === runnerName).

Definition completeRunnerCleanup (profile runnerName : string) (runnerId : Z) (c : option caller) (now : Z)
    : tx db bool :=
  authorize profile c now ≫= λ _,
  found ← attempt_named runnerName;
  match found with
  | None => mret false
  | Some (id, a) =>
      if (at_profile a !== profile) || (at_runnerId a !== runnerId) then mret false
      else if at_runnerCleanupPending a !== Some true then mret true
      else if isRetiring a then
        finishRetirement id a false now ≫= λ _,
        run_after CallAttemptTryAssign ≫= λ _,
        mret true
      else db_patch attempts id clear_retirement ≫= λ _, mret true
  end.

Record create_args := CreateArgs {
  ca_profile : string;
  ca_executor : executor;
  ca_imageRelease : string;
  ca_vcpus : Z;
  ca_memoryMiB : Z;
  ca_runnerName : string;
  ca_runnerId : Z;
  ca_encodedJITConfig : string;
}.

Definition new_attempt (a : create_args) (now : Z) : attempt :=
  Attempt (ca_profile a) (ca_executor a) (ca_imageRelease a) (ca_vcpus a) (ca_memoryMiB a)
    (ca_runnerName a) (ca_runnerId a) Pending None None None now None None None None None None None
    None None None None None None None None None None None None None None None None.

Definition createAttempt (a : create_args) (c : option caller) (now : Z) : tx db unit :=
  authorize (ca_profile a) c now ≫= λ _,
  profile ← profile_named (ca_profile a);
  let mismatch := match profile with
    | None => true
    | Some (_, p) =>
        (pf_state p !== ProfileActive) || (pf_executor p !== ca_executor a) ||
        (pf_imageRelease p !== ca_imageRelease a) || (pf_vcpus p !== ca_vcpus a) ||
        (pf_memoryMiB p !== ca_memoryMiB a) end in
  if mismatch then throw "Attempt does not match the registered Profile contract"
  else
    existing ← attempt_named (ca_runnerName a);
    match existing with
    | Some (_, e) =>
        if (at_profile e === ca_profile a) && (at_executor e === ca_executor a) &&
           (at_imageRelease e === ca_imageRelease a) && (at_vcpus e === ca_vcpus a) &&
           (at_memoryMiB e === ca_memoryMiB a) && (at_runnerId e === ca_runnerId a)
        then mret tt
        else throw "Runner name already belongs to another Attempt"
    | None =>
        attemptId ← db_insert attempts (new_attempt a now);
        db_insert attemptSecrets (AttemptSecret attemptId (ca_encodedJITConfig a) now) ≫= λ _,
        run_after CallAttemptTryAssign
    end.

Definition cancelAttempt (profile runnerName reason : string) (c : option caller) (now : Z) : tx db unit :=
  authorize profile c now ≫= λ _,
  found ← attempt_named runnerName;
  match found with
  | None => mret tt
  | Some (id, a) =>
      if (at_profile a !== profile) || terminal (at_state a) then mret tt
      else if at_state a === Running then
        throw "A running Attempt cannot be removed by a scale-down reconciliation"
      else
        ended ← endIdleAttempt id a reason now;
        match ended with
        | EndedCancelled => run_after CallAttemptTryAssign
        | EndedRetiring => mret tt
        end
  end.

Record started_args := StartedArgs {
  sa_profile : string;
  sa_runnerName : string;
  sa_runnerRequestId : option string;
  sa_repository : option string;
  sa_owner : option string;
  sa_jobId : option string;
  sa_workflowRef : option string;
  sa_headBranch : option string;
  sa_displayName : option string;
  sa_workflowRunId : option Z;
  sa_eventName : option string;
  sa_queueTime : option Z;
  sa_assignedAt : option Z;
  sa_runnerAssignedAt : option Z;
}.

(** The patch of JobStarted: an absent field is left as it is, but for the three times. *)
Definition started_patch (m : started_args) (a : attempt) (now : Z) (d : attempt) : attempt :=
  (if at_state a === Running then d else keepForJob a d)
    <| at_state := Running |> <| at_startedAt := Some (or_else now (at_startedAt a)) |>
    <| at_runnerRequestId ::= or_opt (sa_runnerRequestId m) |>
    <| at_repo ::= or_opt (sa_repository m) |>
    <| at_owner ::= or_opt (sa_owner m) |>
    <| at_jobId ::= or_opt (sa_jobId m) |>
    <| at_workflowRef ::= or_opt (sa_workflowRef m) |>
    <| at_headBranch ::= or_opt (sa_headBranch m) |>
    <| at_displayName ::= or_opt (sa_displayName m) |>
    <| at_workflowRunId ::= or_opt (sa_workflowRunId m) |>
    <| at_eventName ::= or_opt (sa_eventName m) |>
    <| at_queueTime := sa_queueTime m |> <| at_assignedAt := sa_assignedAt m |>
    <| at_runnerAssignedAt := sa_runnerAssignedAt m |>.

Definition markJobStarted (m : started_args) (c : option caller) (now : Z) : tx db unit :=
  authorize (sa_profile m) c now ≫= λ _,
  found ← attempt_named (sa_runnerName m);
  match found with
  | None => throw "Job started for an unknown Attempt"
  | Some (id, a) =>
      if at_profile a !== sa_profile m then throw "Job started for an unknown Attempt"
      else if terminal (at_state a) then
        when (is_some (sa_headBranch m) && is_some (at_startedAt a) && is_none (at_headBranch a))
          (db_patch attempts id (λ d, d <| at_headBranch := sa_headBranch m |>))
      else db_patch attempts id (started_patch m a now)
  end.

Definition acknowledgeRunnerlessJobCompleted (profile : string) (c : option caller) (now : Z) : tx db unit :=
  authorize profile c now.

Record completed_args := CompletedArgs {
  cp_profile : string;
  cp_runnerName : string;
  cp_runnerRequestId : option string;
  cp_jobId : option string;
  cp_result : option string;
  cp_finishedAt : Z;
}.

Definition completed_patch (m : completed_args) (d : attempt) : attempt :=
  d <| at_state := Completed |> <| at_jitConfig := None |> <| at_runnerCleanupPending := None |>
    <| at_retirement := None |>
    <| at_runnerRequestId ::= or_opt (cp_runnerRequestId m) |>
    <| at_jobId ::= or_opt (cp_jobId m) |> <| at_result ::= or_opt (cp_result m) |>
    <| at_finishedAt := Some (cp_finishedAt m) |>.

Definition markJobCompleted (m : completed_args) (c : option caller) (now : Z) : tx db unit :=
  authorize (cp_profile m) c now ≫= λ _,
  found ← attempt_named (cp_runnerName m);
  match found with
  | None => throw "Job completed for an unknown Attempt"
  | Some (id, a) =>
      if at_profile a !== cp_profile m then throw "Job completed for an unknown Attempt"
      else
        when (negb (terminal (at_state a))) (releaseAttemptSlot a) ≫= λ _,
        deleteAttemptSecret id ≫= λ _,
        db_patch attempts id (completed_patch m) ≫= λ _,
        run_after CallAttemptTryAssign
  end.
