(* ===== verification/WorkerApi.v ===== *)
(** The API a Worker's Agent calls (packages/backend/convex/workerApi.ts): host facts and
    benchmarks, claiming and reporting Attempts and Experiments, and readiness. *)

From S2P Require Import Prelude JsLib Schema HostLabels Egress Isolation Benchmark Scheduler.
From S2P Require Import Retirement.

Definition completedExecutorDrainMs : Z := 30000.
Definition liveAttemptStates : list attempt_state := [Pending; Preparing; Ready; Running].
Definition liveExperimentStates : list experiment_state := [XQueued; XPreparing; XRunning].

Definition machineForToken (token : string) : tx db (Id * machine) :=
  machine ← db_unique machines (λ m, mc_token m === token);
  match machine with
  | None => throw "Invalid machine token"
  | Some m => mret m
  end.

Definition claimEgress (profileName : string) : tx db profile_egress :=
  profile ← profile_named profileName;
  mret (match profile with None => PUBLIC_EGRESS | Some (_, p) => profileEgressOf p end).

Record profile_spec := ProfileSpec {
  sp_profile : string;
  sp_executor : executor;
  sp_imageRelease : string;
  sp_vcpus : Z;
  sp_memoryMiB : Z;
  sp_warmPool : Z;
  sp_egress : profile_egress;
}.

Definition compatibleExecutors (os : os_kind) : list executor :=
  match os with Linux => [Docker; Firecracker] | Mac => [Tart] | Win => [Hyperv] end.

(** The Profiles a Worker may prepare for. *)
Definition worker_profiles (localeCompare : string → string → Z) (token : string)
    : tx db (list profile_spec) :=
  machine ← machineForToken token;
  active ← db_where profiles (λ p, pf_state p === ProfileActive);
  let mine := filter (λ p, pf_executor p ∈ compatibleExecutors (mc_os machine.2) ∧
    carriesHostLabels (pf_workerLabels p) (Some (mc_labels machine.2)) = true) (snd <$> active) in
  mret ((λ p, ProfileSpec (pf_name p) (pf_executor p) (pf_imageRelease p) (pf_vcpus p)
      (pf_memoryMiB p) (or_else 0 (pf_warmPool p)) (profileEgressOf p)) <$>
    to_sorted (λ l r, localeCompare (pf_name l) (pf_name r)) mine).

(** ** Host facts and benchmarks *)

Definition positive_from (n : num) (least : Z) : option Z :=
  match num_integer n with Some z => if z <? least then None else Some z | None => None end.

(** The stored benchmark of a machine, in either shape. *)
Definition stored_benchmark_of (evidence : option benchmark_evidence) (m : machine)
    : option stored_benchmark :=
  match evidence with
  | Some e => Some (be_benchmark e)
  | None => match mc_benchmark m with Some (BenchStored b) => Some b | _ => None end
  end.

Definition slot_policy_of (m : machine) : slot_policy :=
  if mc_slotPolicy m === Some SlotFixed then SlotFixed else SlotAuto.

Definition configured_slots_of (m : machine) : option Z :=
  if slot_policy_of m === SlotFixed then Some (or_else (mc_maxSlots m) (mc_configuredSlots m)) else None.

Definition reportHostFacts (token arch : string) (cpus memoryMiB : num) (now : Z) : tx db (Z * Z) :=
  match positive_from cpus 1, positive_from memoryMiB 256 with
  | Some cpus, Some memoryMiB =>
      if Nat.eqb (String.length (trim arch)) 0 then throw "Invalid Worker host facts"
      else
        machine ← machineForToken token;
        let m := machine.2 in
        let resourceSlots := resourceRecommendedSlots (mc_os m) cpus (Some memoryMiB) in
        evidence ← db_unique benchmarkEvidence (λ b, be_machineId b === machine.1);
        let recommendedSlots :=
          benchmarkRecommendedSlots resourceSlots (stored_benchmark_of (snd <$> evidence) m) now in
        let maxSlots := if slot_policy_of m === SlotAuto then recommendedSlots else mc_maxSlots m in
        db_patch machines machine.1 (λ d, d <| mc_arch := Some (trim arch) |> <| mc_cpus := Some cpus |>
          <| mc_memoryMiB := Some memoryMiB |> <| mc_slotPolicy := Some (slot_policy_of m) |>
          <| mc_configuredSlots := configured_slots_of m |>
          <| mc_resourceRecommendedSlots := Some resourceSlots |>
          <| mc_recommendedSlots := Some recommendedSlots |> <| mc_maxSlots := maxSlots |>) ≫= λ _,
        run_after CallAttemptTryAssign ≫= λ _,
        mret (maxSlots, recommendedSlots)
  | _, _ => throw "Invalid Worker host facts"
  end.

Definition reportBenchmark (token : string) (report : benchmark_report) (now : Z)
    : tx db (Z * Z * benchmark_scores) :=
  machine ← machineForToken token;
  let m := machine.2 in
  benchmark ← normalizeBenchmark report now;
  let resourceSlots := match mc_cpus m, mc_memoryMiB m with
    | Some cpus, Some memoryMiB => resourceRecommendedSlots (mc_os m) cpus (Some memoryMiB)
    | _, _ => or_else (mc_maxSlots m) (or_opt (mc_resourceRecommendedSlots m) (mc_recommendedSlots m))
    end in
  let recommendedSlots := benchmarkRecommendedSlots resourceSlots (Some benchmark) now in
  let maxSlots := if slot_policy_of m === SlotAuto then recommendedSlots
                  else or_else (mc_maxSlots m) (configured_slots_of m) in
  existingEvidence ← db_unique benchmarkEvidence (λ b, be_machineId b === machine.1);
  match existingEvidence with
  | None => db_insert benchmarkEvidence (BenchmarkEvidence machine.1 benchmark) ≫= λ _, mret tt
  | Some (id, _) => db_patch benchmarkEvidence id (λ e, e <| be_benchmark := benchmark |>)
  end ≫= λ _,
  db_patch machines machine.1 (λ d,
    d <| mc_benchmark := Some (BenchSummary (sb_measuredAt benchmark) (sb_scores benchmark)) |>
      <| mc_slotPolicy := Some (slot_policy_of m) |> <| mc_configuredSlots := configured_slots_of m |>
      <| mc_resourceRecommendedSlots := Some resourceSlots |>
      <| mc_recommendedSlots := Some recommendedSlots |> <| mc_maxSlots := maxSlots |>) ≫= λ _,
  run_after CallAttemptTryAssign ≫= λ _,
  mret (maxSlots, recommendedSlots, sb_scores benchmark).

(** ** The Worker's queues *)

Record worker_queue := WorkerQueue {
  wq_maxSlots : Z;
  wq_pending : list (Id * string);
  wq_live : list Id;
}.

Definition on_machine (id : Id) (a : attempt) : bool := at_machineId a === Some id.

Definition pendingAttempts (token : string) (now : Z) : tx db worker_queue :=
  machine ← machineForToken token;
  live ← map_tx (λ st, db_where attempts (λ a, on_machine machine.1 a && (at_state a === st)))
    liveAttemptStates;
  drained ← db_where attempts (λ a, on_machine machine.1 a && (at_state a === Completed) &&
    match at_finishedAt a with Some t => now - completedExecutorDrainMs <? t | None => false end);
  let owned := concat live ++ drained in
  mret (WorkerQueue (mc_maxSlots machine.2)
    ((λ r, (r.1, at_runnerName r.2)) <$> filter (λ r, at_state r.2 = Pending) owned)
    (fst <$> filter (λ r, (match at_state r.2 with
        | Pending | Preparing | Ready | Running => true
        | Completed => is_none (at_executorFinishedAt r.2)
        | _ => false end) = true) owned)).

Definition pendingExperiments (token : string) : tx db worker_queue :=
  machine ← machineForToken token;
  ranges ← map_tx (λ st, db_where experiments (λ x,
    (xp_machineId x === Some machine.1) && (xp_state x === st))) liveExperimentStates;
  let owned := concat ranges in
  mret (WorkerQueue (mc_maxSlots machine.2)
    ((λ r, (r.1, xp_name r.2)) <$> filter (λ r, xp_state r.2 = XQueued) owned)
    (fst <$> filter (λ r, (match xp_state r.2 with
        | XQueued | XPreparing | XRunning => true | _ => false end) = true) owned)).

(** ** Experiments *)

Record experiment_claim := ExperimentClaim { xc_experiment : experiment; xc_egress : profile_egress }.

Definition claimExperiment (token : string) (experimentId : Id) (now : Z) : tx db (option experiment_claim) :=
  machine ← machineForToken token;
  experiment ← db_get experiments experimentId;
  match experiment with
  | None => mret None
  | Some x =>
      if (xp_machineId x !== Some machine.1) || (xp_state x !== XQueued) then mret None
      else
        db_patch experiments experimentId (λ d, d <| xp_state := XPreparing |> <| xp_claimedAt := Some now |>) ≫= λ _,
        egress ← claimEgress (xp_profile x);
        mret (Some (ExperimentClaim x egress))
  end.

Definition markExperimentRunning (token : string) (experimentId : Id) (now : Z) : tx db bool :=
  machine ← machineForToken token;
  experiment ← db_get experiments experimentId;
  match experiment with
  | None => mret false
  | Some x =>
      if (xp_machineId x !== Some machine.1) || (xp_state x !== XPreparing) then mret false
      else
        db_patch experiments experimentId (λ d, d <| xp_state := XRunning |> <| xp_startedAt := Some now |>) ≫= λ _,
        mret true
  end.

Definition experiment_terminal (st : experiment_state) : bool :=
  match st with XCompleted | XCancelled | XFailed => true | _ => false end.

(** [String(exitCode)] of an integer *)
Definition show_Z (z : Z) : string := pretty z.

Definition reportExperiment (token : string) (experimentId : Id) (exitCode : num) (now : Z) : tx db bool :=
  match num_integer exitCode with
  | None => throw "Exit code must be an integer"
  | Some code =>
      machine ← machineForToken token;
      experiment ← db_get experiments experimentId;
      match experiment with
      | None => mret false
      | Some x =>
          if xp_machineId x !== Some machine.1 then mret false
          else if experiment_terminal (xp_state x) then mret true
          else
            releaseMachineSlot (xp_machineId x) ≫= λ _,
            db_patch experiments experimentId (λ d, d <| xp_state := if code =? 0 then XCompleted else XFailed |>
              <| xp_exitCode := Some code |> <| xp_finishedAt := Some now |>
              <| xp_lastError := if code =? 0 then None else Some ("Experiment exited with code " +:+ show_Z code) |>) ≫= λ _,
            run_after CallAttemptTryAssign ≫= λ _,
            mret true
      end
  end.

(** ** Attempts *)

Record attempt_claim := AttemptClaim {
  ac_attempt : attempt;
  ac_jitConfig : string;
  ac_egress : profile_egress;
}.

Definition claimAttempt (token : string) (attemptId : Id) (now : Z) : tx db (option attempt_claim) :=
  machine ← machineForToken token;
  attempt ← db_get attempts attemptId;
  match attempt with
  | None => mret None
  | Some a =>
      if (at_machineId a !== Some machine.1) || (at_state a !== Pending) then mret None
      else
        secret ← db_unique attemptSecrets (λ r, as_attemptId r === attemptId);
        match or_opt (as_jitConfig <$> (snd <$> secret)) (at_jitConfig a) with
        | None => mret None
        | Some jitConfig =>
            match secret with Some r => db_delete attemptSecrets r.1 | None => mret tt end ≫= λ _,
            db_patch attempts attemptId (λ d, d <| at_state := Preparing |> <| at_claimedAt := Some now |>
              <| at_jitConfig := None |>) ≫= λ _,
            egress ← claimEgress (at_profile a);
            mret (Some (AttemptClaim a jitConfig egress))
        end
  end.

Definition markReady (token : string) (attemptId : Id) (now : Z) : tx db bool :=
  machine ← machineForToken token;
  attempt ← db_get attempts attemptId;
  match attempt with
  | None => mret false
  | Some a =>
      if (at_machineId a !== Some machine.1) || (at_state a !== Preparing) then mret false
      else
        db_patch attempts attemptId (λ d, d <| at_state := Ready |> <| at_readyAt := Some now |>) ≫= λ _,
        mret true
  end.

Definition runnerOutlivesExecutor (a : attempt) (exitCode : Z) : bool :=
  (at_state a !== Running) || negb (exitCode =? 0) || is_some (at_retirement a).

Record runner_exit := RunnerExit { rx_exitCode : num; rx_ranJob : bool; rx_diagnostic : option string }.

Definition MAX_RUNNER_DIAGNOSTIC_CHARS : nat := 300.

(** [.replace(/[\u0000-\u001f\u007f-\u009f]/g, " ")] *)
Definition blank_controls (s : string) : string :=
  str_map (λ c, let n := ch c in
    if (n <=? 31) || ((127 <=? n) && (n <=? 159)) then " "%char else c) s.

(** The exit code shown is the validated one. *)
Definition joblessRunnerFailure (a : attempt) (runnerExit : option (Z * runner_exit)) : option string :=
  match runnerExit with
  | None => None
  | Some (code, rx) =>
      if rx_ranJob rx || (at_state a === Running) then None
      else
        let diagnostic := slice0 MAX_RUNNER_DIAGNOSTIC_CHARS
          (trim (blank_controls (or_else "" (rx_diagnostic rx)))) in
        Some ("GitHub runner exited with code " +:+ show_Z code +:+ " without taking a job" +:+
              (if diagnostic === "" then "" else ": " +:+ diagnostic))
  end.

(** The validated exit code of the guest's runner; [None] is the refusal. *)
Definition runner_exit_code (rx : option runner_exit) : option (option (Z * runner_exit)) :=
  match rx with
  | None => Some None
  | Some rx =>
      match num_integer (rx_exitCode rx) with
      | Some z => if (0 <=? z) && (z <=? 255) then Some (Some (z, rx)) else None
      | None => None
      end
  end.

Definition store_egress (attemptId machineId : Id) (a : attempt) (egress : option egress_record) (now : Z)
    : tx db unit :=
  match egress with
  | None => mret tt
  | Some e =>
      existing ← db_unique attemptEgress (λ r, ae_attemptId r === attemptId);
      let row := AttemptEgress attemptId machineId (at_profile a) now (boundedEgressRecord e) in
      match existing with
      | None => db_insert attemptEgress row ≫= λ _, mret tt
      | Some (id, _) => db_patch attemptEgress id (λ _, row)
      end
  end.

Definition terminal_state (st : attempt_state) : bool :=
  match st with Completed | Cancelled | FailedState => true | _ => false end.

Definition reportAttempt (token : string) (attemptId : Id) (exitCode : num)
    (egress : option egress_record) (runnerExit : option runner_exit) (now : Z) : tx db bool :=
  match num_integer exitCode with
  | None => throw "Exit code must be an integer"
  | Some code =>
  match runner_exit_code runnerExit with
  | None => throw "runnerExit exit code must be an integer from 0 to 255"
  | Some runnerExit =>
      machine ← machineForToken token;
      attempt ← db_get attempts attemptId;
      match attempt with
      | None => mret false
      | Some a =>
          if at_machineId a !== Some machine.1 then mret false
          else
            store_egress attemptId machine.1 a egress now ≫= λ _,
            if terminal_state (at_state a) then
              deleteAttemptSecret attemptId ≫= λ _,
              db_patch attempts attemptId (λ d, d <| at_jitConfig := None |>
                <| at_executorFinishedAt := Some now |> <| at_executorExitCode := Some code |>) ≫= λ _,
              mret true
            else
              releaseAttemptSlot a ≫= λ _,
              deleteAttemptSecret attemptId ≫= λ _,
              match at_retirement a with
              | Some r =>
                  if at_state a !== Running then
                    db_patch attempts attemptId (λ d, set_end_reason (rt_outcome r) (rt_reason r)
                      (d <| at_state := outcome_state (rt_outcome r) |> <| at_jitConfig := None |>
                         <| at_executorFinishedAt := Some now |> <| at_executorExitCode := Some code |>
                         <| at_finishedAt := Some now |> <| at_runnerCleanupPending := Some true |>
                         <| at_retirement := None |>)) ≫= λ _,
                    run_after CallAttemptTryAssign ≫= λ _, mret (Some tt)
                  else mret None
              | None => mret None
              end ≫= λ settled,
              match settled with
              | Some _ => mret true
              | None =>
                  let runnerFailure := joblessRunnerFailure a runnerExit in
                  db_patch attempts attemptId (λ d,
                    d <| at_state := if (code =? 0) && is_none runnerFailure then Completed else FailedState |>
                      <| at_jitConfig := None |> <| at_executorFinishedAt := Some now |>
                      <| at_executorExitCode := Some code |> <| at_finishedAt := Some now |>
                      <| at_lastError := or_opt runnerFailure
                           (if code =? 0 then None else Some ("Executor exited with code " +:+ show_Z code)) |>
                      <| at_runnerCleanupPending := if runnerOutlivesExecutor a code then Some true else None |>
                      <| at_retirement := None |>) ≫= λ _,
                  run_after CallAttemptTryAssign ≫= λ _,
                  mret true
              end
      end
  end end.

(** ** Readiness *)

(** [/^(\d{1,6})\.(\d{1,6})\.(\d{1,6})$/] and [runnerVersionOf] (runnerReleaseModel.ts) *)
Definition version_part (s : string) : bool :=
  str_all is_digit s && Nat.leb 1 (String.length s) && Nat.leb (String.length s) 6.

Definition runnerVersionOf (value : option string) : option string :=
  match value with
  | None => None
  | Some v =>
      let trimmed := trim v in
      let parts := str_split "." trimmed in
      if Nat.eqb (length parts) 3 && forallb version_part parts then Some trimmed else None
  end.

Record readiness_args := ReadinessArgs {
  rr_profile : string;
  rr_executor : executor;
  rr_imageRelease : string;
  rr_vcpus : option Z;
  rr_memoryMiB : option Z;
  rr_state : readiness_state;
  rr_statusDetail : option string;
  rr_error : option string;
  rr_facts : readiness_facts;
  rr_warmPool : option warm_pool;
  rr_runnerVersion : option string;
}.

Definition contract_mismatch (a : readiness_args) (p : profile) : bool :=
  let pool := or_else 0 (pf_warmPool p) in
  (pf_state p !== ProfileActive) || (pf_executor p !== rr_executor a) ||
  (pf_imageRelease p !== rr_imageRelease a) ||
  (is_some (rr_vcpus a) && (rr_vcpus a !== Some (pf_vcpus p))) ||
  (is_some (rr_memoryMiB a) && (rr_memoryMiB a !== Some (pf_memoryMiB p))) ||
  ((0 <? pool) && (is_none (rr_vcpus a) || is_none (rr_memoryMiB a))) ||
  match rr_warmPool a with Some w => negb (wp_target w =? pool) | None => false end ||
  ((rr_state a === RReady) && (0 <? pool) && is_none (rr_warmPool a)).

(** The stored row was written for the contract this report is about. *)
Definition same_contract (a : readiness_args) (p : profile) (e : option worker_readiness) : bool :=
  match e with
  | None => false
  | Some e =>
      (wr_executor e === rr_executor a) && (wr_imageRelease e === rr_imageRelease a) &&
      (or_else (pf_vcpus p) (wr_vcpus e) =? pf_vcpus p) &&
      (or_else (pf_memoryMiB p) (wr_memoryMiB e) =? pf_memoryMiB p) &&
      (match wr_warmPool e with Some w => wp_target w | None => 0 end =? or_else 0 (pf_warmPool p))
  end.

Definition no_facts : readiness_facts := ReadinessFacts None None None None None None None None.

(** The hot row keeps only the pool's numbers of the facts. *)
Definition hot_facts (f : readiness_facts) : readiness_facts :=
  ReadinessFacts None None None None None None
    ((λ st, StorageFacts None None (st_poolTotalMiB st) (st_poolFreeMiB st)) <$> rf_storage f) None.

Definition evidence_facts (f : readiness_facts) : readiness_facts :=
  ReadinessFacts (rf_isolation f) (rf_boundary f) (take 32 <$> rf_checks f) (rf_cacheScope f)
    (rf_cacheSharedWritable f) (rf_hardware f) (rf_storage f) (rf_network f).

Definition reportReadiness (token : string) (a : readiness_args) (now : Z) : tx db readiness_state :=
  machine ← machineForToken token;
  found ← profile_named (rr_profile a);
  match found with
  | None => throw "Readiness does not match an active Profile contract"
  | Some (_, p) =>
  if contract_mismatch a p then throw "Readiness does not match an active Profile contract"
  else
  match missingHostLabels (pf_workerLabels p) (Some (mc_labels machine.2)) with
  | (_ :: _) as missing => throw ("Readiness refused: " +:+ missingHostLabelsDetail missing)
  | [] =>
      assertReadinessContract (rr_state a) (rr_executor a) (rr_facts a) (rr_warmPool a)
        (profileEgressOf p) ≫= λ _,
      existing ← db_unique workerReadiness
        (λ r, (wr_machineId r === machine.1) && (wr_profile r === rr_profile a));
      existingEvidence ← db_unique readinessEvidence
        (λ e, (ev_machineId e === machine.1) && (ev_profile e === rr_profile a));
      let checkedAt := now in
      let sameContract := same_contract a p (snd <$> existing) in
      let preparedAt := if rr_state a === RReady then Some checkedAt
        else if sameContract then existing ≫= (λ r, wr_preparedAt r.2) else None in
      let state := if (rr_state a === RFailed) && is_some preparedAt then RDegraded else rr_state a in
      let warmPool := or_opt (rr_warmPool a)
        (if sameContract then existing ≫= (λ r, wr_warmPool r.2) else None) in
      let row := WorkerReadiness machine.1 (rr_profile a) (rr_executor a) (rr_imageRelease a)
        (rr_vcpus a) (rr_memoryMiB a) state checkedAt preparedAt warmPool None None
        (hot_facts (rr_facts a)) in
      match existing with
      | None => db_insert workerReadiness row ≫= λ _, mret tt
      | Some (id, _) => db_patch workerReadiness id (λ _, row)
      end ≫= λ _,
      let runnerVersion := or_opt (runnerVersionOf (rr_runnerVersion a))
        (match existingEvidence with
         | Some (_, e) => if ev_imageRelease e === rr_imageRelease a then ev_runnerVersion e else None
         | None => None end) in
      let evidence := ReadinessEvidence machine.1 (rr_profile a) (rr_executor a) (rr_imageRelease a)
        (rr_vcpus a) (rr_memoryMiB a) checkedAt (rr_warmPool a) (slice0 1000 <$> rr_statusDetail a)
        (slice0 1000 <$> rr_error a) (evidence_facts (rr_facts a)) runnerVersion in
      match existingEvidence with
      | None => db_insert readinessEvidence evidence ≫= λ _, mret tt
      | Some (id, _) => db_patch readinessEvidence id (λ _, evidence)
      end ≫= λ _,
      when (rr_state a === RReady) (run_after CallAttemptTryAssign) ≫= λ _,
      mret state
  end end.
