(* ===== verification/Fleet.v ===== *)
(** Joining and keeping a Worker in the fleet, and the operator's Experiments: the Agent's
    heartbeat (packages/backend/convex/agentApi.ts), registration and host labels (machines.ts),
    and experiments.ts. *)

From S2P Require Import Prelude JsLib Schema HostLabels Egress Isolation Benchmark Scheduler.
From S2P Require Import Retirement WorkerApi.

(** ** agentApi.ts *)

Definition heartbeat (token : string) (now : Z) : tx db (os_kind * Z) :=
  machine ← machineForToken token;
  when (negb (workerReports machine.2 now))
    (keepRunningAttemptsOfReturningWorker machine.1 ≫= λ _, mret tt) ≫= λ _,
  db_patch machines machine.1 (λ d, d <| mc_lastSeen := now |>) ≫= λ _,
  run_after (CallLegacyTryAssign 0) ≫= λ _,
  run_after CallAttemptTryAssign ≫= λ _,
  mret (mc_os machine.2, mc_maxSlots machine.2).

(** ** machines.ts *)

Definition REGISTRATION_TOKEN_TTL_MS : Z := 15 * 60 * 1000.

Definition name_char (c : ascii) : bool :=
  let n := ch c in
  is_digit c || is_lower_alpha c || ((65 <=? n) && (n <=? 90)) || (n =? 46) || (n =? 95) || (n =? 45).

(** [.replace(/[^A-Za-z0-9._-]+/g, "-")]: [in_run] says a run is being replaced. *)
Fixpoint dash_runs (in_run : bool) (l : list ascii) : list ascii :=
  match l with
  | [] => []
  | c :: l =>
      if name_char c then c :: dash_runs false l
      else if in_run then dash_runs true l else "-"%char :: dash_runs true l
  end.

Fixpoint drop_dashes (l : list ascii) : list ascii :=
  match l with
  | c :: l' => if Ascii.eqb c "-" then drop_dashes l' else l
  | [] => []
  end.

Definition sanitizeMachineName (hostname : string) : string :=
  let dashed := dash_runs false (String.list_ascii_of_string (trim hostname)) in
  let sanitized := slice0 64
    (String.string_of_list_ascii (reverse (drop_dashes (reverse (drop_dashes dashed))))) in
  if Nat.ltb 0 (String.length sanitized) then sanitized else "runner".

(** The [while] loop that looks for a free name: [suffix] is the next one to try. *)
Fixpoint free_name (fuel : nat) (baseName name : string) (suffix : Z) : tx db string :=
  taken ← db_first machines (λ m, mc_name m === name);
  match taken, fuel with
  | None, _ => mret name
  | Some _, S fuel => free_name fuel baseName (baseName +:+ "-" +:+ show_Z suffix) (suffix + 1)
  | Some _, O => throw "free_name: out of fuel"
  end.

(** The [do ... while] loop over draws of [randomHex(32)]; the draws are an argument. *)
Fixpoint free_token (draws : list string) : tx db string :=
  match draws with
  | [] => throw "free_token: out of draws"
  | token :: draws =>
      taken ← db_unique machines (λ m, mc_token m === token);
      match taken with
      | None => mret token
      | Some _ => free_token draws
      end
  end.

(** The same loop over draws of [randomHex(24)]. *)
Fixpoint free_registration (draws : list string) : tx db string :=
  match draws with
  | [] => throw "free_registration: out of draws"
  | draw :: draws =>
      let token := "rcreg_" +:+ draw in
      taken ← db_unique registrationTokens (λ r, rg_token r === token);
      match taken with
      | None => mret token
      | Some _ => free_registration draws
      end
  end.

Definition issueRegistrationToken (draws : list string) (now : Z) : tx db (string * Z) :=
  token ← free_registration draws;
  db_insert registrationTokens (RegistrationToken token now None) ≫= λ _,
  mret (token, now + REGISTRATION_TOKEN_TTL_MS).

Record register_agent_args := RegisterAgentArgs {
  rga_registrationToken : string;
  rga_name : string;
  rga_os : os_kind;
  rga_arch : string;
  rga_cpus : Z;
  rga_memoryMiB : option Z;
  rga_labels : option (list string);
  rga_maxSlots : option Z;
}.

Inductive register_result :=
  | Registered (machineToken : string)
  | NotRegistered (status : Z) (error : string).

Definition new_machine (a : register_agent_args) (name : string) (labels : list string) (token : string)
    : machine :=
  let defaultSlots := resourceRecommendedSlots (rga_os a) (rga_cpus a) (rga_memoryMiB a) in
  Machine name (rga_os a) labels (Some (rga_arch a)) (Some (rga_cpus a)) (rga_memoryMiB a)
    (Some (if is_none (rga_maxSlots a) then SlotAuto else SlotFixed)) (rga_maxSlots a)
    (Some defaultSlots) (Some defaultSlots) None (or_else defaultSlots (rga_maxSlots a)) 0 0 token.

Definition registerAgent (a : register_agent_args) (draws : list string) (now : Z)
    : tx db register_result :=
  registration ← db_unique registrationTokens (λ r, rg_token r === rga_registrationToken a);
  match registration with
  | None => mret (NotRegistered 401 "Invalid registration token")
  | Some (rid, r) =>
      if is_some (rg_usedAt r) then mret (NotRegistered 409 "Registration token has already been used")
      else if REGISTRATION_TOKEN_TTL_MS <=? now - rg_createdAt r then
        mret (NotRegistered 410 "Registration token has expired")
      else match normalizeHostLabels (or_else [] (rga_labels a)) with
      | LabelsError error => mret (NotRegistered 400 error)
      | LabelsOk labels =>
          let baseName := sanitizeMachineName (rga_name a) in
          fuel ← read (λ s, length (t_scan (machines s)));
          name ← free_name fuel baseName baseName 2;
          machineToken ← free_token draws;
          db_patch registrationTokens rid (λ d, d <| rg_usedAt := Some now |>) ≫= λ _,
          db_insert machines (new_machine a name labels machineToken) ≫= λ _,
          mret (Registered machineToken)
      end
  end.

Inductive labels_set :=
  | LabelsSet (name : string) (labels : list string) (retiredRunners requeuedAttempts : Z)
  | LabelsRefused (status : Z) (error : string).

Definition setLabels (name : string) (raw : list string) (now : Z) : tx db labels_set :=
  match normalizeHostLabels raw with
  | LabelsError error => mret (LabelsRefused 400 error)
  | LabelsOk labels =>
      machine ← db_unique machines (λ m, mc_name m === name);
      match machine with
      | None => mret (LabelsRefused 404 "No Worker has that name")
      | Some (id, m) =>
          db_patch machines id (λ d, d <| mc_labels := labels |>) ≫= λ _,
          retired ← retireOffPinOnWorker id (m <| mc_labels := labels |>) now;
          run_after CallAttemptTryAssign ≫= λ _,
          mret (LabelsSet (mc_name m) labels (pr_retired retired) (pr_requeued retired))
      end
  end.

(** ** experiments.ts

    The signed-in account is an argument: [requireDashboardAuth] reads it from the session. *)

(** The length in bytes of [TextEncoder().encode(s)] *)
Definition utf8_length (s : string) : nat :=
  foldr (λ c n, (n + if (ch c <? 128)%Z then 1 else 2)%nat) 0%nat (String.list_ascii_of_string s).

Definition validateCommand (command : list string) : option string :=
  let bytes := foldr (λ v n, n + utf8_length v)%nat 0%nat command in
  if Nat.ltb (length command) 1 || Nat.ltb 32 (length command) || Nat.ltb (16 * 1024) bytes then
    Some "Experiment command must contain 1-32 arguments and fit within 16 KiB"
  else if existsb (λ v, Nat.eqb (String.length v) 0 || str_has (ascii_of_nat 0) v) command then
    Some "Experiment command arguments must be non-empty and contain no NUL bytes"
  else None.

Definition createExperiment (name0 profileName : string) (command : list string) (timeoutSeconds : num)
    (subject : string) (now : Z) : tx db Id :=
  let name := trim name0 in
  if Nat.ltb (String.length name) 1 || Nat.ltb 80 (String.length name) then
    throw "Experiment name must contain 1-80 characters"
  else match validateCommand command with
  | Some error => throw error
  | None =>
      match num_integer timeoutSeconds with
      | None => throw "Experiment timeout must be between 1 and 21600 seconds"
      | Some timeout =>
          if (timeout <? 1) || (21600 <? timeout) then
            throw "Experiment timeout must be between 1 and 21600 seconds"
          else
            found ← profile_named profileName;
            match found with
            | None => throw "Experiment Profile is not active"
            | Some (_, p) =>
                if pf_state p !== ProfileActive then throw "Experiment Profile is not active"
                else if pf_executor p !== Firecracker then
                  throw "Experiments currently require a Linux Firecracker Profile"
                else
                  id ← db_insert experiments (Experiment name (pf_name p) (pf_imageRelease p) (pf_vcpus p)
                    (pf_memoryMiB p) command timeout XQueued None None subject now None None None None None);
                  run_after CallAttemptTryAssign ≫= λ _,
                  mret id
            end
      end
  end.

Definition cancelExperiment (experimentId : Id) (now : Z) : tx db bool :=
  experiment ← db_get experiments experimentId;
  match experiment with
  | None => mret false
  | Some x =>
      if experiment_terminal (xp_state x) then mret true
      else
        releaseMachineSlot (xp_machineId x) ≫= λ _,
        db_patch experiments experimentId (λ d, d <| xp_state := XCancelled |>
          <| xp_finishedAt := Some now |> <| xp_lastError := Some "Cancelled by operator" |>) ≫= λ _,
        run_after CallAttemptTryAssign ≫= λ _,
        mret true
  end.
