(* ===== verification/LegacyJobs.v ===== *)
(** The legacy job queue: GitHub's workflow_job events become jobs, the scheduler hands each to a
    machine as a command, and the Agent claims and reports the command
    (packages/backend/convex/retry.ts, catalog.ts, runners.ts, scheduler.ts, jobs.ts, the command
    half of agentApi.ts, and the operator's interventions of admin.ts). *)

From S2P Require Import Prelude JsLib Schema HostLabels Egress Isolation Benchmark Scheduler.
From S2P Require Import Retirement WorkerApi.

(** ** retry.ts *)

Definition MAX_PROVISION_ATTEMPTS : Z := 3.
Definition BACKOFF_SCHEDULE_MS : list Z := [15000; 60000; 300000].

Definition backoffMs (tries : Z) : Z :=
  if tries <=? 0 then 0
  else
    let index := Z.min tries (Z.of_nat (length BACKOFF_SCHEDULE_MS)) - 1 in
    or_else 0 (BACKOFF_SCHEDULE_MS !! Z.to_nat index).

Definition MAX_ERROR_LENGTH : nat := 500.

(** [error.replace(/\s+/g, " ")]: every run of white space becomes one space. *)
Fixpoint collapse_spaces (in_run : bool) (l : list ascii) : list ascii :=
  match l with
  | [] => []
  | c :: l =>
      if is_space c then (if in_run then [] else [" "%char]) ++ collapse_spaces true l
      else c :: collapse_spaces false l
  end.

(** The ellipsis is outside Latin-1; it is written here as character 133, its Windows-1252 code. *)
Definition ellipsis : string := String (ascii_of_nat 133) "".

Definition summarizeError (error : string) : string :=
  let collapsed := trim (String.string_of_list_ascii
    (collapse_spaces false (String.list_ascii_of_string error))) in
  let message := if Nat.eqb (String.length collapsed) 0 then "Unknown error" else collapsed in
  if Nat.leb (String.length message) MAX_ERROR_LENGTH then message
  else slice0 (MAX_ERROR_LENGTH - 1) message +:+ ellipsis.

Inductive attempt_outcome :=
  | OutcomeRetry (tries nextAttemptAt : Z) (lastError : string)
  | OutcomeExhausted (tries : Z) (lastError : string).

Definition decideAttemptOutcome (tries now : Z) (error : string) : attempt_outcome :=
  let lastError := summarizeError error in
  if MAX_PROVISION_ATTEMPTS <=? tries then OutcomeExhausted tries lastError
  else OutcomeRetry tries (now + backoffMs tries) lastError.

(** ** catalog.ts *)

Record catalog_entry := CatalogEntry { ce_os : os_kind; ce_image : string; ce_preview : bool }.

Definition PREVIEW_OPT_IN_LABEL : string := "rc-preview".
Definition ACTIONS_RUNNER_IMAGE : string :=
  "ghcr.io/actions/actions-runner:2.338.2@sha256:759a1d94a15b05941aba5196974ff43fe15b4cbba29b694b35cbc32a1166b232".
Definition MACOS_SEQUOIA_IMAGE : string :=
  "ghcr.io/cirruslabs/macos-sequoia-base@sha256:fdd8b72a6ee46fc8ad35dc1b9f3b1f162b6607b82a584947d20bb28d3dcb99ed".
Definition MACOS_TAHOE_IMAGE : string := "ghcr.io/cirruslabs/macos-tahoe-base:latest".
Definition WINDOWS_2025_IMAGE : string := "rc-win2025".
Definition WINDOWS_2022_IMAGE : string := "rc-win2022".

(** The descriptions shown to operators are left out. *)
Definition IMAGE_CATALOG : list (string * catalog_entry) :=
  [("ubuntu-22.04", CatalogEntry Linux ACTIONS_RUNNER_IMAGE false);
   ("ubuntu-24.04", CatalogEntry Linux ACTIONS_RUNNER_IMAGE false);
   ("rc-linux", CatalogEntry Linux ACTIONS_RUNNER_IMAGE false);
   ("macos-15", CatalogEntry Mac MACOS_SEQUOIA_IMAGE false);
   ("macos-26", CatalogEntry Mac MACOS_TAHOE_IMAGE true);
   ("rc-mac", CatalogEntry Mac MACOS_SEQUOIA_IMAGE false);
   ("windows-2022", CatalogEntry Win WINDOWS_2022_IMAGE false);
   ("windows-2025", CatalogEntry Win WINDOWS_2025_IMAGE false);
   ("rc-win", CatalogEntry Win WINDOWS_2025_IMAGE false)].

Definition catalog_lookup (label : string) : option catalog_entry :=
  snd <$> find (λ e, String.eqb e.1 label) IMAGE_CATALOG.

Definition DEFAULT_IMAGE_LABEL_BY_OS (os : os_kind) : string :=
  match os with Linux => "rc-linux" | Mac => "rc-mac" | Win => "rc-win" end.

Definition findImageLabel (labels : list string) : option string :=
  find (λ l, is_some (catalog_lookup l)) labels.

Definition selectImageForMachine (jobLabels : list string) (m : machine) : option catalog_entry :=
  let imageLabel := findImageLabel jobLabels in
  match catalog_lookup (or_else (DEFAULT_IMAGE_LABEL_BY_OS (mc_os m)) imageLabel) with
  | None => None
  | Some e =>
      if ce_os e !== mc_os m then None
      else if ce_preview e && negb (bool_decide (PREVIEW_OPT_IN_LABEL ∈ mc_labels m)) then None
      else if forallb (λ l, String.eqb l "self-hosted" || (Some l === imageLabel) ||
                            bool_decide (l ∈ mc_labels m)) jobLabels
      then Some e else None
  end.

(** ** runners.ts *)

Definition MAX_DELETION_ATTEMPTS : Z := 5.

Definition enqueueRunnerDeletion (c : command) (j : option job) (now : Z) : tx db bool :=
  match cm_runnerId c, j with
  | Some runnerId, Some j =>
      db_insert runnerDeletions (RunnerDeletion (jb_repo j) (jb_githubInstallationId j) runnerId
        (cm_runnerName c) now 0 None) ≫= λ _, mret true
  | _, _ => mret false
  end.

Definition discardCommand (id : Id) (c : command) (j : option job) (now : Z) : tx db unit :=
  enqueueRunnerDeletion c j now ≫= λ _, db_delete commands id.

Definition enqueue (repo : string) (installation : option Z) (runnerId : Z) (runnerName : string)
    (now : Z) : tx db unit :=
  db_insert runnerDeletions (RunnerDeletion repo installation runnerId runnerName now 0 None)
    ≫= λ _, mret tt.

Definition claimDeletions (limit : nat) : tx db (list (Id * runner_deletion)) :=
  all ← db_where runnerDeletions (λ _, true);
  mret (take limit (to_sorted (λ l r, rd_createdAt l.2 - rd_createdAt r.2) all)).

Definition settleDeletion (deletionId : Id) (ok : bool) (error : option string) : tx db unit :=
  deletion ← db_get runnerDeletions deletionId;
  match deletion with
  | None => mret tt
  | Some d =>
      if ok then db_delete runnerDeletions deletionId
      else if MAX_DELETION_ATTEMPTS <=? rd_attempts d + 1 then db_delete runnerDeletions deletionId
      else db_patch runnerDeletions deletionId
        (λ r, r <| rd_attempts := rd_attempts d + 1 |> <| rd_lastError := error |>)
  end.

(** ** scheduler.ts *)

(** The machines a run works on, with the slots it has counted so far. *)
Record slot_machine := SlotMachine { sm_id : Id; sm_doc : machine; sm_usedSlots : Z }.

(** The inner loop: the first machine that can take the job and did not just fail it, or else the
    first one that can. *)
Fixpoint pick_machine (j : job) (fallback : option (slot_machine * catalog_entry))
    (ms : list slot_machine) : option (slot_machine * catalog_entry) :=
  match ms with
  | [] => fallback
  | m :: ms =>
      if mc_maxSlots (sm_doc m) <=? sm_usedSlots m then pick_machine j fallback ms
      else match selectImageForMachine (jb_labels j) (sm_doc m) with
      | None => pick_machine j fallback ms
      | Some entry =>
          if jb_lastFailedMachineId j === Some (sm_id m)
          then pick_machine j (or_opt fallback (Some (m, entry))) ms
          else Some (m, entry)
      end
  end.

Definition charge_slot (id : Id) (m : slot_machine) : slot_machine :=
  if sm_id m === id then SlotMachine (sm_id m) (sm_doc m) (sm_usedSlots m + 1) else m.

Definition runner_name (m : machine) (j : job) (tries : Z) : string :=
  "rc-" +:+ mc_name m +:+ "-" +:+ show_Z (jb_ghJobId j) +:+ "-" +:+ show_Z tries.

(** The outer loop's body for one eligible job. *)
Definition assign_job (now : Z) (acc : list slot_machine * Z) (r : Id * job)
    : tx db (list slot_machine * Z) :=
  let '(ms, assigned) := acc in
  match pick_machine r.2 None ms with
  | None => mret acc
  | Some (m, entry) =>
      let tries := or_else 0 (jb_attempts r.2) + 1 in
      let runnerName := runner_name (sm_doc m) r.2 tries in
      db_patch machines (sm_id m) (λ d, d <| mc_usedSlots := sm_usedSlots m + 1 |>) ≫= λ _,
      db_patch jobs r.1 (λ d, d <| jb_status := JAssigned |> <| jb_machineId := Some (sm_id m) |>
        <| jb_runnerName := Some runnerName |> <| jb_attempts := Some tries |>
        <| jb_nextAttemptAt := None |>) ≫= λ _,
      commandId ← db_insert commands (Command (sm_id m) r.1 None (Some (ce_image entry)) runnerName
        None CPending None None None now);
      run_after (CallIssueJit commandId r.1 (jb_repo r.2) (jb_githubInstallationId r.2) runnerName
        (jb_labels r.2)) ≫= λ _,
      mret (charge_slot (sm_id m) <$> ms, assigned + 1)
  end.

Definition legacyTryAssign (now : Z) : tx db Z :=
  queuedJobs ← db_where jobs (λ j, jb_status j === JQueued);
  machineDocs ← db_where machines (λ m, now - WORKER_OFFLINE_AFTER_MS <? mc_lastSeen m);
  let eligibleJobs := to_sorted (λ l r, jb_queuedAt l.2 - jb_queuedAt r.2)
    (filter (λ r, (or_else 0 (jb_nextAttemptAt r.2) <=? now) = true) queuedJobs) in
  let ms := (λ r, SlotMachine r.1 r.2 (mc_usedSlots r.2)) <$>
    to_sorted (λ l r, mc_lastSeen l.2 - mc_lastSeen r.2) machineDocs in
  res ← fold_tx (assign_job now) (ms, 0) eligibleJobs;
  mret res.2.

Definition storeJitConfig (commandId : Id) (jitConfig : string) (runnerId : option Z) : tx db bool :=
  command ← db_get commands commandId;
  match command with
  | None => mret false
  | Some c =>
      if cm_status c !== CPending then mret false
      else db_patch commands commandId
        (λ d, d <| cm_jitConfig := Some jitConfig |> <| cm_runnerId := runnerId |>) ≫= λ _, mret true
  end.

(** [patch(machine._id, { usedSlots: Math.max(0, machine.usedSlots - 1) })] if it exists is
    [releaseMachineSlot]. *)
Definition failAttempt (commandId : option Id) (jobId : Id) (error : string) (now : Z) : tx db unit :=
  command ← match commandId with None => mret None | Some c => db_get commands c end;
  let owner := match command with None => jobId | Some c => cm_jobId c end in
  job ← db_get jobs owner;
  match commandId, command with
  | Some cid, Some c => discardCommand cid c job now
  | _, _ => mret tt
  end ≫= λ _,
  match job with
  | None => mret tt
  | Some j =>
      if jb_status j !== JAssigned then mret tt
      else
        let machineId := or_opt (jb_machineId j) (cm_machineId <$> command) in
        releaseMachineSlot machineId ≫= λ _,
        match decideAttemptOutcome (or_else 1 (jb_attempts j)) now error with
        | OutcomeExhausted _ lastError =>
            db_patch jobs owner (λ d, d <| jb_status := JFailed |>
              <| jb_conclusion := Some "provision-failed" |> <| jb_finishedAt := Some now |>
              <| jb_lastError := Some lastError |> <| jb_machineId := None |>
              <| jb_runnerName := None |> <| jb_nextAttemptAt := None |>)
        | OutcomeRetry _ nextAttemptAt lastError =>
            db_patch jobs owner (λ d, d <| jb_status := JQueued |> <| jb_machineId := None |>
              <| jb_runnerName := None |> <| jb_lastError := Some lastError |>
              <| jb_nextAttemptAt := Some nextAttemptAt |>
              <| jb_lastFailedMachineId := machineId |>) ≫= λ _,
            run_after (CallLegacyTryAssign (Z.max 0 (nextAttemptAt - now)))
        end
  end.

Definition recordJobError (jobId : Id) (error : string) : tx db unit :=
  job ← db_get jobs jobId;
  match job with
  | None => mret tt
  | Some _ => db_patch jobs jobId (λ d, d <| jb_lastError := Some (summarizeError error) |>)
  end.

(** ** jobs.ts *)

Definition commandsForJob (jobId : Id) : tx db (list (Id * command)) :=
  db_where commands (λ c, cm_jobId c === jobId).

Definition discard_all (cs : list (Id * command)) (j : job) (now : Z) : tx db unit :=
  for_each cs (λ c, discardCommand c.1 c.2 (Some j) now).

Definition settled_job (st : job_status) : bool :=
  match st with JDone | JFailed => true | _ => false end.

(** The command of [actual]'s own current assignment, if it is still live. *)
Definition current_command (actual : job) (cs : list (Id * command)) : option (Id * command) :=
  find (λ c, (Some (cm_runnerName c.2) === jb_runnerName actual) &&
             (Some (cm_machineId c.2) === jb_machineId actual) &&
             ((cm_status c.2 === CPending) || (cm_status c.2 === CClaimed))) cs.

(** The runner was minted for another job: move it, and swap or requeue what it displaces. *)
Definition displace (cid : Id) (pid : Id) (aid : Id) (actual : job) (now : Z) : tx db unit :=
  previousCommands ← commandsForJob aid;
  let previousCommand := current_command actual previousCommands in
  db_patch commands cid (λ d, d <| cm_jobId := aid |>) ≫= λ _,
  match (if jb_status actual === JAssigned then previousCommand else None) with
  | Some (prid, prev) =>
      db_patch commands prid (λ d, d <| cm_jobId := pid |>) ≫= λ _,
      db_patch jobs pid (λ d, d <| jb_machineId := Some (cm_machineId prev) |>
        <| jb_runnerName := Some (cm_runnerName prev) |> <| jb_nextAttemptAt := None |>)
  | None =>
      discard_all previousCommands actual now ≫= λ _,
      when ((jb_status actual === JAssigned) && is_some (jb_machineId actual))
        (releaseMachineSlot (jb_machineId actual) ≫= λ _, run_after CallDrainRunnerDeletions) ≫= λ _,
      db_patch jobs pid (λ d, d <| jb_status := JQueued |> <| jb_machineId := None |>
        <| jb_runnerName := None |> <| jb_nextAttemptAt := None |>)
  end.

(** The fields of [adopted]: those of [actual] with the assignment of the command. *)
Definition adopted_job (actual : job) (same : bool) (c : command) (runnerName : string) (now : Z)
    : job → job := λ d,
  d <| jb_status := JRunning |> <| jb_machineId := Some (cm_machineId c) |>
    <| jb_runnerName := Some runnerName |> <| jb_startedAt := Some (or_else now (jb_startedAt actual)) |>
    <| jb_attempts := if same then jb_attempts actual else Some (or_else 0 (jb_attempts actual) + 1) |>
    <| jb_nextAttemptAt := None |>.

Definition adoptRunnerAssignment (aid : Id) (actual : job) (runnerName : option string) (now : Z)
    : tx db job :=
  match runnerName with
  | None => mret actual
  | Some runnerName =>
      if settled_job (jb_status actual) then mret actual
      else
        command ← db_unique commands (λ c, cm_runnerName c === runnerName);
        match command with
        | None => mret actual
        | Some (cid, c) =>
            if cm_status c === CCancelled then mret actual
            else
              provisioned ← db_get jobs (cm_jobId c);
              match provisioned with
              | None => mret actual
              | Some p =>
                  if (jb_repo p !== jb_repo actual) || (jb_status p !== JAssigned) then mret actual
                  else
                    let same := cm_jobId c === aid in
                    if negb same && (jb_status actual === JRunning) &&
                       (is_some (jb_runnerName actual) || is_some (jb_machineId actual))
                    then mret actual
                    else
                      when (negb same) (displace cid (cm_jobId c) aid actual now) ≫= λ _,
                      db_patch jobs aid (adopted_job actual same c runnerName now) ≫= λ _,
                      mret (adopted_job actual same c runnerName now actual)
              end
        end
  end.

Definition new_job (e : workflow_job) (st : job_status) (started finished : option Z)
    (conclusion : option string) (now : Z) : job :=
  Job (wj_ghJobId e) (wj_githubInstallationId e) (wj_repo e) (wj_workflowName e) (wj_labels e) st
    None None now started finished conclusion (Some 0) None None None now.

Definition applyQueued (e : workflow_job) (existing : option (Id * job)) (now : Z) : tx db unit :=
  match existing with
  | Some (id, j) =>
      when ((jb_status j === JQueued) && is_none (jb_githubInstallationId j) &&
            is_some (wj_githubInstallationId e))
        (db_patch jobs id (λ d, d <| jb_githubInstallationId := wj_githubInstallationId e |>))
  | None =>
      db_insert jobs (new_job e JQueued None None None now) ≫= λ _,
      run_after (CallLegacyTryAssign 0)
  end.

Definition applyInProgress (e : workflow_job) (existing : option (Id * job)) (now : Z) : tx db unit :=
  row ← match existing with
        | Some r => mret r
        | None =>
            id ← db_insert jobs (new_job e JRunning (Some now) None None now);
            mret (id, new_job e JRunning (Some now) None None now)
        end;
  j ← adoptRunnerAssignment row.1 row.2 (wj_runnerName e) now;
  when ((jb_status j === JAssigned) || (jb_status j === JQueued))
    (db_patch jobs row.1 (λ d, d <| jb_status := JRunning |> <| jb_startedAt := Some now |>)).

(** Cancels the commands of a settled job, and hands back the Runners that never took work. *)
Definition cancel_command (neverStarted : bool) (j : job) (now : Z) (r : Id * command) : tx db unit :=
  if (cm_status r.2 === CFinished) || (cm_status r.2 === CCancelled) then mret tt
  else
    db_patch commands r.1 (λ d, d <| cm_status := CCancelled |> <| cm_cancelledAt := Some now |>) ≫= λ _,
    when neverStarted (enqueueRunnerDeletion r.2 (Some j) now ≫= λ _, mret tt).

Definition applyCompleted (e : workflow_job) (existing : option (Id * job)) (now : Z) : tx db unit :=
  let conclusion := or_else "unknown" (wj_conclusion e) in
  let terminalStatus := if String.eqb conclusion "success" then JDone else JFailed in
  match existing, wj_runnerName e with
  | None, None =>
      db_insert jobs (new_job e terminalStatus None (Some now) (Some conclusion) now) ≫= λ _, mret tt
  | _, _ =>
      row ← match existing with
            | Some r => mret r
            | None =>
                id ← db_insert jobs (new_job e JRunning (Some now) None None now);
                mret (id, new_job e JRunning (Some now) None None now)
            end;
      j ← adoptRunnerAssignment row.1 row.2 (wj_runnerName e) now;
      if settled_job (jb_status j) then mret tt
      else
        let neverStarted := jb_status j !== JRunning in
        db_patch jobs row.1 (λ d, d <| jb_status := terminalStatus |>
          <| jb_conclusion := Some conclusion |> <| jb_finishedAt := Some now |>
          <| jb_nextAttemptAt := None |>) ≫= λ _,
        releaseMachineSlot (jb_machineId j) ≫= λ _,
        cs ← commandsForJob row.1;
        for_each cs (cancel_command neverStarted j now) ≫= λ _,
        run_after (CallLegacyTryAssign 0)
  end.

Definition applyWorkflowJob (e : workflow_job) (now : Z) : tx db unit :=
  existing ← db_first jobs (λ j, jb_ghJobId j === wj_ghJobId e);
  if is_none existing && negb (bool_decide ("self-hosted" ∈ wj_labels e)) then mret tt
  else match wj_action e with
  | ActQueued => applyQueued e existing now
  | ActInProgress => applyInProgress e existing now
  | ActCompleted => applyCompleted e existing now
  end.

(** ** agentApi.ts *)

Definition pendingCommands (token : string) : tx db (os_kind * Z * list (Id * string) * list Id) :=
  machine ← machineForToken token;
  pending ← db_where commands (λ c, (cm_machineId c === machine.1) && (cm_status c === CPending));
  claimed ← db_where commands (λ c, (cm_machineId c === machine.1) && (cm_status c === CClaimed));
  mret (mc_os machine.2, mc_maxSlots machine.2,
    (λ r, (r.1, cm_runnerName r.2)) <$> filter (λ r, is_some (cm_jitConfig r.2) = true) pending,
    (pending ++ claimed).*1).

Record command_claim := CommandClaim {
  cc_jitConfig : string;
  cc_image : option string;
  cc_runnerName : string;
  cc_os : os_kind;
}.

Definition claimCommand (token : string) (commandId : Id) (now : Z) : tx db (option command_claim) :=
  machine ← machineForToken token;
  command ← db_get commands commandId;
  match command with
  | None => mret None
  | Some c =>
      if (cm_machineId c !== machine.1) || (cm_status c !== CPending) then mret None
      else match cm_jitConfig c with
      | None => mret None
      | Some jitConfig =>
          db_patch commands commandId (λ d, d <| cm_status := CClaimed |>
            <| cm_claimedAt := Some now |> <| cm_jitConfig := None |>) ≫= λ _,
          mret (Some (CommandClaim jitConfig (cm_image c) (cm_runnerName c) (mc_os machine.2)))
      end
  end.

Definition reportCommand (token : string) (commandId : Id) (exitCode : num) (now : Z) : tx db bool :=
  match num_integer exitCode with
  | None => throw "Exit code must be an integer"
  | Some code =>
      machine ← machineForToken token;
      command ← db_get commands commandId;
      match command with
      | None => mret false
      | Some c =>
          if (cm_machineId c !== machine.1) || (cm_status c === CPending) then mret false
          else
            job ← db_get jobs (cm_jobId c);
            let wasCancelled := cm_status c === CCancelled in
            let provisioning := match job with Some j => jb_status j === JAssigned | None => false end in
            if negb wasCancelled && provisioning && negb (code =? 0) then
              failAttempt (Some commandId) (cm_jobId c)
                ("Provisioner exited with code " +:+ show_Z code) now ≫= λ _,
              mret true
            else
              db_patch commands commandId (λ d, d <| cm_status := CFinished |>
                <| cm_exitCode := Some code |>) ≫= λ _,
              mret true
      end
  end.

(** ** admin.ts *)

Definition setMachineMaxSlots (machineId : Id) (maxSlots : num) : tx db unit :=
  match num_integer maxSlots with
  | None => throw "maxSlots must be an integer between 1 and 128"
  | Some n =>
      if (n <? 1) || (128 <? n) then throw "maxSlots must be an integer between 1 and 128"
      else
        machine ← db_get machines machineId;
        match machine with
        | None => throw "Machine not found"
        | Some m =>
            if n <? mc_usedSlots m then
              throw ("maxSlots cannot be lower than the machine's " +:+ show_Z (mc_usedSlots m) +:+
                     " active slot(s)")
            else
              db_patch machines machineId (λ d, d <| mc_slotPolicy := Some SlotFixed |>
                <| mc_configuredSlots := Some n |> <| mc_maxSlots := n |>) ≫= λ _,
              run_after (CallLegacyTryAssign 0)
        end
  end.

Definition deleteMachine (machineId : Id) (now : Z) : tx db unit :=
  for_each [CPending; CClaimed; CCancelled; CFinished] (λ st,
    cs ← db_where commands (λ c, (cm_machineId c === machineId) && (cm_status c === st));
    for_each cs (λ r,
      job ← db_get jobs (cm_jobId r.2);
      discardCommand r.1 r.2 job now)) ≫= λ _,
  db_delete machines machineId ≫= λ _,
  run_after CallDrainRunnerDeletions.

Definition dropJob (jobId : Id) (now : Z) : tx db unit :=
  job ← db_get jobs jobId;
  match job with
  | None => mret tt
  | Some j =>
      cs ← commandsForJob jobId;
      discard_all cs j now ≫= λ _,
      when ((jb_status j === JAssigned) || (jb_status j === JRunning))
        (releaseMachineSlot (jb_machineId j)) ≫= λ _,
      db_delete jobs jobId ≫= λ _,
      run_after (CallLegacyTryAssign 0) ≫= λ _,
      run_after CallDrainRunnerDeletions
  end.

Definition requeueJob (jobId : Id) (now : Z) : tx db unit :=
  job ← db_get jobs jobId;
  match job with
  | None => mret tt
  | Some j =>
      if jb_status j !== JAssigned then mret tt
      else
        cs ← commandsForJob jobId;
        discard_all cs j now ≫= λ _,
        releaseMachineSlot (jb_machineId j) ≫= λ _,
        db_patch jobs jobId (λ d, d <| jb_status := JQueued |> <| jb_machineId := None |>
          <| jb_runnerName := None |> <| jb_attempts := Some 0 |> <| jb_nextAttemptAt := None |>
          <| jb_lastFailedMachineId := None |>) ≫= λ _,
        run_after (CallLegacyTryAssign 0) ≫= λ _,
        run_after CallDrainRunnerDeletions
  end.
