(* ===== verification/Webhooks.v ===== *)
(** Durable webhook intake (packages/backend/convex/webhooks.ts) and the recovery of deliveries
    that never arrived (recovery.ts). *)

From S2P Require Import Prelude JsLib Schema HostLabels Egress Isolation Benchmark Scheduler.
From S2P Require Import Retirement WorkerApi LegacyJobs.

(** ** Intake (webhooks.ts) *)

Definition MAX_DELIVERY_ATTEMPTS : Z := 5.
Definition DELIVERY_RETRY_AFTER_MS : Z := 60000.

Definition deliveryRetryDueAt (d : webhook_delivery) : Z :=
  wd_receivedAt d + (wd_attempts d + 1) * DELIVERY_RETRY_AFTER_MS.

Definition RECENT_FAILURE_LIMIT : nat := 50.

(** [toFailedDeliveryView] *)
Record failed_delivery := FailedDelivery {
  fd_id : Id;
  fd_deliveryId : string;
  fd_event : string;
  fd_repo : option string;
  fd_status : delivery_status;
  fd_receivedAt : Z;
  fd_settledAt : option Z;
  fd_attempts : Z;
  fd_lastError : option string;
}.

Definition toFailedDeliveryView (st : delivery_status) (r : Id * webhook_delivery) : failed_delivery :=
  let d := r.2 in
  FailedDelivery r.1 (wd_deliveryId d) (wd_event d) (wj_repo <$> wd_workflowJob d) st
    (wd_receivedAt d) (wd_settledAt d) (wd_attempts d) (wd_lastError d).

(** [.order("desc").take(n)] of an equality range *)
Definition newest_rows {D} (n : nat) (l : list (Id * D)) : list (Id * D) := take n (reverse l).

Definition recentFailures : tx db (list failed_delivery) :=
  rejected ← db_where webhookDeliveries (λ d, wd_status d === DRejected);
  failed ← db_where webhookDeliveries (λ d, wd_status d === DFailed);
  mret (take RECENT_FAILURE_LIMIT (to_sorted (λ l r, fd_receivedAt r - fd_receivedAt l)
    ((toFailedDeliveryView DRejected <$> newest_rows RECENT_FAILURE_LIMIT rejected) ++
     (toFailedDeliveryView DFailed <$> newest_rows RECENT_FAILURE_LIMIT failed)))).

Definition recordDelivery (deliveryId event : string) (job : option workflow_job) (now : Z)
    : tx db bool :=
  existing ← db_unique webhookDeliveries (λ d, wd_deliveryId d === deliveryId);
  match existing with
  | Some _ => mret true
  | None =>
      id ← db_insert webhookDeliveries
        (WebhookDelivery deliveryId event now DPending job None 0 None None);
      run_after (CallProcessDelivery id) ≫= λ _, mret false
  end.

(** [process.env] gives the two settings of the repository policy. *)
Definition processDelivery (ALLOWED_REPOS ALLOW_PUBLIC_REPOS : option string) (deliveryId : Id)
    (now : Z) : tx db unit :=
  delivery ← db_get webhookDeliveries deliveryId;
  match delivery with
  | None => mret tt
  | Some d =>
      if wd_status d !== DPending then mret tt
      else match wd_workflowJob d with
      | None =>
          db_patch webhookDeliveries deliveryId (λ r, r <| wd_status := DRejected |>
            <| wd_lastError := Some "Delivery carried no workflow_job payload" |>
            <| wd_settledAt := Some now |>)
      | Some event =>
          match decideRepository (wj_repo event) (wj_repoIsPublic event)
                  (parseRepositoryPolicy ALLOWED_REPOS ALLOW_PUBLIC_REPOS) with
          | RepoDenied reason =>
              db_patch webhookDeliveries deliveryId (λ r, r <| wd_status := DRejected |>
                <| wd_lastError := Some reason |> <| wd_settledAt := Some now |>)
          | RepoAllowed =>
              applyWorkflowJob event now ≫= λ _,
              db_patch webhookDeliveries deliveryId (λ r, r <| wd_status := DProcessed |>
                <| wd_attempts := wd_attempts d + 1 |> <| wd_settledAt := Some now |>)
          end
      end
  end.

Record delivery_retries := DeliveryRetries { dr_retried : Z; dr_abandoned : Z }.

Definition retry_delivery (now : Z) (acc : delivery_retries) (r : Id * webhook_delivery)
    : tx db delivery_retries :=
  if now <? deliveryRetryDueAt r.2 then mret acc
  else
    let tries := wd_attempts r.2 + 1 in
    if MAX_DELIVERY_ATTEMPTS <=? tries then
      db_patch webhookDeliveries r.1 (λ d, d <| wd_status := DFailed |> <| wd_attempts := tries |>
        <| wd_lastError := Some ("Gave up after " +:+ show_Z tries +:+ " attempts") |>
        <| wd_settledAt := Some now |>) ≫= λ _,
      mret (DeliveryRetries (dr_retried acc) (dr_abandoned acc + 1))
    else
      db_patch webhookDeliveries r.1 (λ d, d <| wd_attempts := tries |>) ≫= λ _,
      run_after (CallProcessDelivery r.1) ≫= λ _,
      mret (DeliveryRetries (dr_retried acc + 1) (dr_abandoned acc)).

Definition retryStalledDeliveries (now : Z) : tx db delivery_retries :=
  pending ← db_where webhookDeliveries (λ d, wd_status d === DPending);
  fold_tx (retry_delivery now) (DeliveryRetries 0 0) (take 50 pending).

(** ** Recovery decisions (recovery.ts) *)

Definition RECOVERY_WINDOW_MS : Z := 3 * 24 * 60 * 60 * 1000.
Definition MAX_RECOVERABLE_AGE_MS : Z := 24 * 60 * 60 * 1000.
Definition RECOVERY_SEED_MS : Z := 60 * 60 * 1000.
Definition WATERMARK_OVERLAP_MS : Z := 10 * 60 * 1000.
Definition MAX_PAGES : nat := 3.
Definition MAX_REDELIVERIES_PER_RUN : nat := 20.
Definition MAX_RECOVERY_ATTEMPTS : Z := 3.
Definition RECOVERY_BACKOFF_MS : list Z := [60000; 300000; 1800000].
Definition RUN_BACKOFF_MS : list Z := [60000; 300000; 900000; 3600000].

Record delivery_item := DeliveryItem {
  di_id : Z;
  di_guid : string;
  di_delivered_at : string;
  di_status_code : Z;
  di_event : string;
}.

Record recovery_candidate := RecoveryCandidate {
  rc_guid : string;
  rc_githubDeliveryId : Z;
  rc_event : string;
  rc_deliveredAt : Z;
  rc_statusCode : Z;
}.

Definition isFailedDelivery (i : delivery_item) : bool :=
  (di_status_code i <? 200) || (300 <=? di_status_code i).

(** The delays of [recoveryBackoffMs] and [nextRunDelayMs]; their tables have no gap. *)
Definition backoff_of (schedule : list Z) (n : Z) : Z :=
  if n <=? 0 then 0
  else or_else 0 (schedule !! Z.to_nat (Z.min n (Z.of_nat (length schedule)) - 1)).

Definition recoveryBackoffMs (tries : Z) : Z := backoff_of RECOVERY_BACKOFF_MS tries.
Definition nextRunDelayMs (consecutiveFailures : Z) : Z := backoff_of RUN_BACKOFF_MS consecutiveFailures.

Inductive recovery_decision :=
  | RecRequest (tries nextAttemptAt : Z)
  | RecSkip
  | RecAbandon (tries : Z) (lastError : string).

Definition never_arrived (tries : Z) : string :=
  "GitHub accepted " +:+ show_Z tries +:+ " redelivery requests but the delivery never arrived".

Definition decideRecovery (existing : option webhook_recovery) (now : Z) : recovery_decision :=
  match existing with
  | None => RecRequest 1 (now + recoveryBackoffMs 1)
  | Some r =>
      if wv_state r !== VRequested then RecSkip
      else if now <? wv_nextAttemptAt r then RecSkip
      else
        let tries := wv_attempts r + 1 in
        if MAX_RECOVERY_ATTEMPTS <? tries then RecAbandon (wv_attempts r) (never_arrived (wv_attempts r))
        else RecRequest tries (now + recoveryBackoffMs tries)
  end.

(** What a failed GitHub call carries: a finite [status], or the message of an [Error], or
    neither. *)
Inductive gh_error := GhStatus (status : Z) | GhMessage (message : string) | GhOther.

Definition statusOf (e : gh_error) : Z := match e with GhStatus n => n | _ => 0 end.

Definition describeRecoveryFailure (e : gh_error) (action : string) : string :=
  if 0 <? statusOf e then "GitHub responded " +:+ show_Z (statusOf e) +:+ " while " +:+ action
  else summarizeError (match e with
    | GhMessage m => "Could not reach GitHub while " +:+ action +:+ ": " +:+ m
    | _ => "Could not reach GitHub while " +:+ action end).

Definition clampWatermark (previous now : Z) : Z := Z.min (Z.max previous (now - RECOVERY_WINDOW_MS)) now.

Definition advanceWatermark (previous newestDeliveredAt now : Z) : Z :=
  clampWatermark (Z.max previous (newestDeliveredAt - WATERMARK_OVERLAP_MS)) now.

(** ** Recovery bookkeeping (webhooks.ts) *)

Definition RECOVERY_SCAN_LIMIT : nat := 100.

Definition missingGuids (guids : list string) : tx db (list string) :=
  fold_tx (λ missing guid,
    existing ← db_unique webhookDeliveries (λ d, wd_deliveryId d === guid);
    mret (if is_none existing then missing ++ [guid] else missing)) [] guids.

Definition claim_candidate (now : Z) (claimed : list (string * Z)) (c : recovery_candidate)
    : tx db (list (string * Z)) :=
  existing ← db_unique webhookRecovery (λ r, wv_guid r === rc_guid c);
  match decideRecovery (snd <$> existing) now with
  | RecSkip => mret claimed
  | RecAbandon _ lastError =>
      match existing with
      | Some (id, _) => db_patch webhookRecovery id
          (λ r, r <| wv_state := VAbandoned |> <| wv_lastError := Some lastError |>)
      | None => mret tt
      end ≫= λ _, mret claimed
  | RecRequest tries nextAttemptAt =>
      match existing with
      | None =>
          db_insert webhookRecovery (WebhookRecovery (rc_guid c) (rc_githubDeliveryId c) (rc_event c)
            (rc_deliveredAt c) (rc_statusCode c) tries now now nextAttemptAt VRequested None)
            ≫= λ _, mret tt
      | Some (id, _) =>
          db_patch webhookRecovery id (λ r, r <| wv_githubDeliveryId := rc_githubDeliveryId c |>
            <| wv_statusCode := rc_statusCode c |> <| wv_attempts := tries |>
            <| wv_lastRequestedAt := now |> <| wv_nextAttemptAt := nextAttemptAt |>)
      end ≫= λ _, mret (claimed ++ [(rc_guid c, rc_githubDeliveryId c)])
  end.

Definition claimRecovery (now : Z) (cs : list recovery_candidate) : tx db (list (string * Z)) :=
  fold_tx (claim_candidate now) [] cs.

Definition settleRecovery (guid : string) (ok : bool) (error : option string) : tx db unit :=
  row ← db_unique webhookRecovery (λ r, wv_guid r === guid);
  match row with
  | None => mret tt
  | Some (id, _) => db_patch webhookRecovery id (λ r, r <| wv_lastError := if ok then None else error |>)
  end.

Record recovery_counts := RecoveryCounts { rk_recovered : Z; rk_abandoned : Z }.

Definition reconcile_recovery (now : Z) (acc : recovery_counts) (row : Id * webhook_recovery)
    : tx db recovery_counts :=
  delivery ← db_unique webhookDeliveries (λ d, wd_deliveryId d === wv_guid row.2);
  if is_some delivery then
    db_patch webhookRecovery row.1 (λ r, r <| wv_state := VRecovered |> <| wv_lastError := None |>)
      ≫= λ _, mret (RecoveryCounts (rk_recovered acc + 1) (rk_abandoned acc))
  else if (MAX_RECOVERY_ATTEMPTS <=? wv_attempts row.2) && (wv_nextAttemptAt row.2 <=? now) then
    db_patch webhookRecovery row.1 (λ r, r <| wv_state := VAbandoned |>
      <| wv_lastError := or_opt (wv_lastError row.2) (Some (never_arrived (wv_attempts row.2))) |>)
      ≫= λ _, mret (RecoveryCounts (rk_recovered acc) (rk_abandoned acc + 1))
  else mret acc.

Definition reconcileRecovered (now : Z) : tx db recovery_counts :=
  outstanding ← db_where webhookRecovery (λ r, wv_state r === VRequested);
  fold_tx (reconcile_recovery now) (RecoveryCounts 0 0) (take RECOVERY_SCAN_LIMIT outstanding).

(** [None] is the refusal while the circuit breaker is open; otherwise the watermark. *)
Definition beginRecoveryRun (now : Z) : tx db (option Z) :=
  state ← db_first webhookRecoveryState (λ _, true);
  match state with
  | None =>
      db_insert webhookRecoveryState (RecoveryRun (now - RECOVERY_SEED_MS) now None now 0 RunPending
        None 0 0 0) ≫= λ _, mret (Some (now - RECOVERY_SEED_MS))
  | Some (id, st) =>
      if now <? rn_nextRunAt st then
        db_patch webhookRecoveryState id (λ r, r <| rn_lastRunAt := now |>
          <| rn_lastOutcome := RunSkippedBackoff |>) ≫= λ _, mret None
      else
        db_patch webhookRecoveryState id (λ r, r <| rn_lastRunAt := now |>) ≫= λ _,
        mret (Some (clampWatermark (rn_scannedThrough st) now))
  end.

(** [{ now, outcome, newestDeliveredAt, listed, missing, requested, error }]; the outcome is ok,
    skipped-no-app or error. *)
Record finish_run := FinishRun {
  fr_outcome : run_outcome;
  fr_newestDeliveredAt : option Z;
  fr_listed : Z;
  fr_missing : Z;
  fr_requested : Z;
  fr_error : option string;
}.

Definition finishRecoveryRun (f : finish_run) (now : Z) : tx db unit :=
  state ← db_first webhookRecoveryState (λ _, true);
  match state with
  | None => mret tt
  | Some (id, st) =>
      match fr_outcome f with
      | RunError =>
          let failures := rn_consecutiveFailures st + 1 in
          db_patch webhookRecoveryState id (λ r, r <| rn_lastOutcome := RunError |>
            <| rn_lastError := fr_error f |> <| rn_consecutiveFailures := failures |>
            <| rn_nextRunAt := now + nextRunDelayMs failures |>
            <| rn_scannedThrough := clampWatermark (rn_scannedThrough st) now |>)
      | outcome =>
          db_patch webhookRecoveryState id (λ r, r <| rn_lastOutcome := outcome |>
            <| rn_lastError := None |>
            <| rn_lastSuccessAt := match outcome with RunOk => Some now | _ => rn_lastSuccessAt st end |>
            <| rn_consecutiveFailures := 0 |> <| rn_nextRunAt := now |>
            <| rn_scannedThrough := match fr_newestDeliveredAt f with
                 | None => clampWatermark (rn_scannedThrough st) now
                 | Some newest => advanceWatermark (rn_scannedThrough st) newest now end |>
            <| rn_listed := fr_listed f |> <| rn_missing := fr_missing f |>
            <| rn_requested := fr_requested f |>)
      end
  end.

(** ** One recovery run (recovery.ts)

    [Date.parse] ([None] when the text is no date), [localeCompare] and the [cursor] parameter of
    a URL ([None] when the text is no URL) are parameters. *)

Section recovery.
Context (dateParse : string → option Z) (localeCompare : string → string → Z).
Context (urlCursor : string → option (option string)).

(** The [Map] from GUID to its newest failed attempt keeps the order of first insertion. *)
Fixpoint note_newest (c : recovery_candidate) (l : list recovery_candidate) : list recovery_candidate :=
  match l with
  | [] => [c]
  | p :: l =>
      if String.eqb (rc_guid p) (rc_guid c)
      then (if rc_deliveredAt c <=? rc_deliveredAt p then p else c) :: l
      else p :: note_newest c l
  end.

(** The attempt of one listed item that is worth repeating. *)
Definition recoverable_item (delivered : list string) (now scannedThrough : Z) (i : delivery_item)
    : option recovery_candidate :=
  if bool_decide (di_guid i ∈ delivered) || negb (isFailedDelivery i) then None
  else if negb (String.eqb (di_event i) "workflow_job") then None
  else match dateParse (di_delivered_at i) with
  | None => None
  | Some deliveredAt =>
      if deliveredAt <=? scannedThrough then None
      else if MAX_RECOVERABLE_AGE_MS <? now - deliveredAt then None
      else Some (RecoveryCandidate (di_guid i) (di_id i) (di_event i) deliveredAt (di_status_code i))
  end.

Definition delivered_guids (items : list delivery_item) : list string :=
  set_of (di_guid <$> filter (λ i, isFailedDelivery i = false) items).

Definition newest_candidates (delivered : list string) (items : list delivery_item)
    (now scannedThrough : Z) : list recovery_candidate :=
  foldl (λ l i, match recoverable_item delivered now scannedThrough i with
                | Some c => note_newest c l
                | None => l
                end) [] items.

Definition older_first (l r : recovery_candidate) : Z :=
  if rc_deliveredAt l - rc_deliveredAt r =? 0 then localeCompare (rc_guid l) (rc_guid r)
  else rc_deliveredAt l - rc_deliveredAt r.

Definition selectRecoverable (items : list delivery_item) (now scannedThrough : Z)
    : list recovery_candidate :=
  take MAX_REDELIVERIES_PER_RUN (to_sorted older_first
    (newest_candidates (delivered_guids items) items now scannedThrough)).

(** The two optional quotes of the regular expression allow [rel=next] and [rel=] followed by a
    quoted [next]. *)
Definition strip_prefix (p : string) (s : string) : option string :=
  if starts_with p s then Some (slice_from (String.length p) s) else None.

Definition trim_start (s : string) : string :=
  String.string_of_list_ascii (drop_spaces (String.list_ascii_of_string s)).

Definition quote : string := String quote_char "".

(** The URL of a part of a Link header that matches the regular expression of the next page. *)
Definition next_link (part : string) : option string :=
  match strip_prefix "<" (trim_start part) with
  | None => None
  | Some rest =>
      match str_split ">" rest with
      | url :: after :: more =>
          let after := str_join ">" (after :: more) in
          match strip_prefix ";" (trim_start after) with
          | None => None
          | Some rel =>
              match strip_prefix "rel=" (trim_start rel) with
              | None => None
              | Some v =>
                  if (starts_with "next" v || starts_with (quote +:+ "next") v) &&
                     negb (String.eqb url "")
                  then Some url else None
              end
          end
      | _ => None
      end
  end.

Fixpoint first_cursor (parts : list string) : option string :=
  match parts with
  | [] => None
  | part :: parts =>
      match next_link part with
      | None => first_cursor parts
      | Some url =>
          match urlCursor url with
          | Some (Some cursor) => if String.eqb cursor "" then None else Some cursor
          | _ => None
          end
      end
  end.

Definition parseNextCursor (link : option string) : option string :=
  match link with
  | None => None
  | Some link => if String.eqb link "" then None else first_cursor (str_split "," link)
  end.

Definition pageIsExhausted (items : list delivery_item) (scannedThrough : Z) : bool :=
  forallb (λ i, match dateParse (di_delivered_at i) with
                | None => true
                | Some t => t <=? scannedThrough
                end) items.

Definition newestDeliveryTime (items : list delivery_item) : option Z :=
  foldl (λ newest i, match dateParse (di_delivered_at i) with
                     | Some t => match newest with
                                 | Some n => if n <? t then Some t else newest
                                 | None => Some t
                                 end
                     | None => newest
                     end) None items.

(** *** The orchestration

    An action is not a transaction: each mutation it runs commits on its own, so what was
    written stays written when a later call fails. *)

Definition act (A : Type) : Type := db → (A + gh_error) * db.

Definition act_ret {A} (a : A) : act A := λ s, (inl a, s).
Definition act_bind {A B} (m : act A) (f : A → act B) : act B := λ s,
  match m s with
  | (inl a, s') => f a s'
  | (inr e, s') => (inr e, s')
  end.
Definition act_catch {A} (m : act A) (handler : gh_error → act A) : act A := λ s,
  match m s with
  | (inl a, s') => (inl a, s')
  | (inr e, s') => handler e s'
  end.

(** [ctx.runMutation(...)] *)
Definition mutation {A} (m : tx db A) : act A := λ s,
  match m s with
  | Done (a, s') => (inl a, s')
  | Failed (Thrown msg) | Failed (Refused _ msg) => (inr (GhMessage msg), s)
  end.

(** The two GitHub calls. *)
Record recovery_client := RecoveryClient {
  listDeliveries : option string → (list delivery_item * option string) + gh_error;
  redeliver : Z → option gh_error;
}.

(** The loop over pages; the flag says that the page cap cut it short. *)
Fixpoint list_pages (client : recovery_client) (scannedThrough : Z) (pages : nat)
    (cursor : option string) (items : list delivery_item) : (list delivery_item * bool) + gh_error :=
  match pages with
  | O => inl (items, is_some cursor)
  | S pages =>
      match listDeliveries client cursor with
      | inr e => inr e
      | inl (page, nextCursor) =>
          let items := items ++ page in
          if is_none nextCursor || pageIsExhausted page scannedThrough then inl (items, false)
          else list_pages client scannedThrough pages nextCursor items
      end
  end.

Definition act_throw {A} (e : gh_error) : act A := λ s, (inr e, s).

(** One claimed delivery: a refusal is recorded and does not stop the batch. *)
Definition redeliver_one (client : recovery_client) (requested : Z) (c : string * Z) : act Z :=
  act_catch
    (act_bind match redeliver client c.2 with None => act_ret tt | Some e => act_throw e end (λ _,
     act_bind (mutation (settleRecovery c.1 true None)) (λ _, act_ret (requested + 1))))
    (λ e, act_bind (mutation (settleRecovery c.1 false
       (Some (describeRecoveryFailure e "requesting a redelivery")))) (λ _, act_ret requested)).

Fixpoint redeliver_all (client : recovery_client) (requested : Z) (cs : list (string * Z)) : act Z :=
  match cs with
  | [] => act_ret requested
  | c :: cs => act_bind (redeliver_one client requested c) (λ n, redeliver_all client n cs)
  end.

Record run_result := RunResult { rr_listed : Z; rr_missing : Z; rr_requested : Z; rr_outcome : run_outcome }.

(** The body of the [try]. *)
Definition scan (client : recovery_client) (scannedThrough now : Z) : act run_result :=
  match list_pages client scannedThrough MAX_PAGES None [] with
  | inr e => act_throw e
  | inl (items, pagesTruncated) =>
      let cs := selectRecoverable items now scannedThrough in
      let candidatesCapped := Nat.eqb (length cs) MAX_REDELIVERIES_PER_RUN in
      let truncated := pagesTruncated || candidatesCapped in
      act_bind (mutation (missingGuids (rc_guid <$> cs))) (λ missing,
      act_bind (mutation (claimRecovery now (filter (λ c, rc_guid c ∈ missing) cs))) (λ claimed,
      act_bind (redeliver_all client 0 claimed) (λ requested,
      let listed := Z.of_nat (length items) in
      let missed := Z.of_nat (length (set_of missing)) in
      act_bind (mutation (finishRecoveryRun (FinishRun RunOk
        (if truncated then None else newestDeliveryTime items) listed missed requested None) now))
        (λ _, act_ret (RunResult listed missed requested RunOk)))))
  end.

(** [openClient] yields no client when no GitHub App is configured. *)
Definition runRecovery (openClient : option recovery_client) (now : Z) : act run_result :=
  act_bind (mutation (reconcileRecovered now)) (λ _,
  act_bind (mutation (beginRecoveryRun now)) (λ gate,
  match gate with
  | None => act_ret (RunResult 0 0 0 RunSkippedBackoff)
  | Some scannedThrough =>
      match openClient with
      | None =>
          act_bind (mutation (finishRecoveryRun (FinishRun RunSkippedNoApp None 0 0 0 None) now))
            (λ _, act_ret (RunResult 0 0 0 RunSkippedNoApp))
      | Some client =>
          act_catch (scan client scannedThrough now) (λ e,
            act_bind (mutation (finishRecoveryRun (FinishRun RunError None 0 0 0
              (Some (describeRecoveryFailure e "scanning webhook deliveries"))) now))
              (λ _, act_ret (RunResult 0 0 0 RunError)))
      end
  end)).
End recovery.
