(* ===== verification/Reconcile.v ===== *)
(** The reconciliation cron (packages/backend/convex/reconcile.ts): recovery from silent Workers
    and stuck work, the backstop of retirements, retention, and the repair of slot counters. *)

From S2P Require Import Prelude JsLib Schema HostLabels Egress Isolation Benchmark Scheduler.
From S2P Require Import Retirement WorkerApi LegacyJobs Webhooks.

Definition ASSIGNMENT_STUCK_MS : Z := 45 * 60000.
Definition RUNNING_ABANDONED_MS : Z := 10 * 60000.
Definition QUEUE_EXPIRED_MS : Z := 24 * 60 * 60000.
Definition REGISTRATION_TOKEN_RETENTION_MS : Z := 60 * 60000.
Definition FINISHED_JOB_RETENTION_MS : Z := 30 * 24 * 60 * 60000.
Definition TERMINAL_WORK_RETENTION_MS : Z := FINISHED_JOB_RETENTION_MS.
Definition DELIVERY_RETENTION_MS : Z := 7 * 24 * 60 * 60000.
Definition RECOVERY_RETENTION_MS : Z := DELIVERY_RETENTION_MS.
Definition ACTIVE_ATTEMPT_STATES : list attempt_state := [Pending; Preparing; Ready; Running].
Definition ACTIVE_EXPERIMENT_STATES : list experiment_state := [XQueued; XPreparing; XRunning].
Definition ACTIVE_COMMAND_STATES : list command_status := [CPending; CClaimed; CCancelled].
Definition TERMINAL_ATTEMPT_STATES : list attempt_state := [Completed; Cancelled; FailedState].
Definition TERMINAL_EXPERIMENT_STATES : list experiment_state := [XCompleted; XCancelled; XFailed].

(** The local variables of the handler: [machineSlots] and the counters. *)
Record tally := Tally {
  ta_slots : gmap Id Z;
  ta_requeued : Z;
  ta_abandoned : Z;
  ta_expired : Z;
}.
#[export] Instance tally_rebuild : Rebuild tally := λ t,
  Tally (ta_slots t) (ta_requeued t) (ta_abandoned t) (ta_expired t).

(** *** What the run reads first *)

Definition active_attempts : tx db (list (Id * attempt)) :=
  ranges ← map_tx (λ st, db_where attempts (λ a, at_state a === st)) ACTIVE_ATTEMPT_STATES;
  mret (concat ranges).

Definition active_experiments : tx db (list (Id * experiment)) :=
  ranges ← map_tx (λ st, db_where experiments (λ x, xp_state x === st)) ACTIVE_EXPERIMENT_STATES;
  mret (concat ranges).

Definition active_commands : tx db (list (Id * command)) :=
  ranges ← map_tx (λ st, db_where commands (λ c, cm_status c === st)) ACTIVE_COMMAND_STATES;
  mret (concat ranges).

Definition jobs_with (st : job_status) : tx db (list (Id * job)) :=
  db_where jobs (λ j, jb_status j === st).

(** The machines the active work names that exist, then the machines with slots in use: each
    once, as read now. *)
Definition machines_of (referenced : list Id) : tx db (list (Id * machine)) :=
  found ← map_tx (λ id, db_get machines id) (set_of referenced);
  withSlots ← db_where machines (λ m, 0 <? mc_usedSlots m);
  let known := omap (λ r : Id * option machine, pair r.1 <$> r.2) (zip (set_of referenced) found) in
  let sorted := to_sorted (λ l r, mc_usedSlots l.2 - mc_usedSlots r.2) withSlots in
  mret (known ++ filter (λ r, r.1 ∉ known.*1) sorted).

(** *** Slots *)

(** [Math.max(0, (machineSlots.get(id) ?? machine.usedSlots) - 1)], stored in both places *)
Definition free_slot (ta : tally) (m : option (Id * machine)) : tx db tally :=
  match m with
  | None => mret ta
  | Some (id, d) =>
      let usedSlots := Z.max 0 (or_else (mc_usedSlots d) (ta_slots ta !! id) - 1) in
      db_patch machines id (λ r, r <| mc_usedSlots := usedSlots |>) ≫= λ _,
      mret (ta <| ta_slots ::= <[id := usedSlots]> |>)
  end.

(** How long a Worker has been silent; [None] is forever, for a machine that is gone. *)
Definition silent_over (m : option (Id * machine)) (now limit : Z) : bool :=
  match m with None => true | Some (_, d) => limit <? now - mc_lastSeen d end.

(** *** Legacy jobs *)

Section jobs.
Context (now : Z) (ms : gmap Id machine) (cs : list (Id * command)).

Definition machine_of (id : option Id) : option (Id * machine) :=
  match id with None => None | Some i => pair i <$> ms !! i end.

Definition commands_of (jobId : Id) : list (Id * command) :=
  filter (λ r, cm_jobId r.2 = jobId) cs.

(** When the current command of an assigned job started, 0 when there is none. *)
Definition assignment_started (id : Id) (j : job) : Z :=
  foldl (λ latest (r : Id * command), Z.max latest (or_else (cm_creationTime r.2) (cm_claimedAt r.2))) 0
    (filter (λ r : Id * command, Some (cm_runnerName r.2) = jb_runnerName j ∧
                                 Some (cm_machineId r.2) = jb_machineId j) (commands_of id)).

Definition reconcile_assigned (ta : tally) (r : Id * job) : tx db tally :=
  let '(id, j) := r in
  let machine := machine_of (jb_machineId j) in
  let agentOffline := silent_over machine now WORKER_OFFLINE_AFTER_MS in
  let startedAt := assignment_started id j in
  let assignmentStuck := (0 <? startedAt) && (ASSIGNMENT_STUCK_MS <? now - startedAt) in
  if negb agentOffline && negb assignmentStuck then mret ta
  else
    discard_all (commands_of id) j now ≫= λ _,
    ta ← free_slot ta machine;
    let reason :=
      if agentOffline then
        "Agent for " +:+ or_else "the assigned machine" (mc_name ∘ snd <$> machine) +:+ " stopped reporting"
      else "Provisioning did not start within 45 minutes" in
    match decideAttemptOutcome (or_else 1 (jb_attempts j)) now reason with
    | OutcomeExhausted _ lastError =>
        db_patch jobs id (λ d, d <| jb_status := JFailed |>
          <| jb_conclusion := Some "provision-failed" |> <| jb_finishedAt := Some now |>
          <| jb_lastError := Some lastError |> <| jb_machineId := None |> <| jb_runnerName := None |>
          <| jb_nextAttemptAt := None |>) ≫= λ _,
        mret ta
    | OutcomeRetry _ nextAttemptAt lastError =>
        db_patch jobs id (λ d, d <| jb_status := JQueued |> <| jb_machineId := None |>
          <| jb_runnerName := None |> <| jb_lastError := Some lastError |>
          <| jb_nextAttemptAt := Some nextAttemptAt |>
          <| jb_lastFailedMachineId := jb_machineId j |>) ≫= λ _,
        mret (ta <| ta_requeued ::= Z.add 1 |>)
    end.

Definition reconcile_running (ta : tally) (r : Id * job) : tx db tally :=
  let '(id, j) := r in
  let machine := machine_of (jb_machineId j) in
  if negb (silent_over machine now RUNNING_ABANDONED_MS) then mret ta
  else
    db_patch jobs id (λ d, d <| jb_status := JFailed |> <| jb_conclusion := Some "abandoned" |>
      <| jb_finishedAt := Some now |>) ≫= λ _,
    for_each (commands_of id) (λ c : Id * command,
      when (cm_status c.2 !== CFinished)
        (db_patch commands c.1 (λ d, d <| cm_status := CFinished |>)) ≫= λ _,
      enqueueRunnerDeletion c.2 (Some j) now ≫= λ _, mret tt) ≫= λ _,
    ta ← free_slot ta machine;
    mret (ta <| ta_abandoned ::= Z.add 1 |>).

Definition reconcile_queued (ta : tally) (r : Id * job) : tx db tally :=
  if now - jb_queuedAt r.2 <=? QUEUE_EXPIRED_MS then mret ta
  else
    db_patch jobs r.1 (λ d, d <| jb_status := JFailed |> <| jb_conclusion := Some "expired" |>
      <| jb_finishedAt := Some now |> <| jb_nextAttemptAt := None |>) ≫= λ _,
    mret (ta <| ta_expired ::= Z.add 1 |>).

(** *** Attempts *)

Definition reconcile_attempt (ta : tally) (r : Id * attempt) : tx db tally :=
  let '(id, a) := r in
  match at_machineId a with
  | None =>
      if QUEUE_EXPIRED_MS <? now - at_createdAt a then
        deleteAttemptSecret id ≫= λ _,
        db_patch attempts id (λ d, d <| at_state := Cancelled |> <| at_jitConfig := None |>
          <| at_cancelReason := Some "No compatible Worker became ready within 24 hours" |>
          <| at_finishedAt := Some now |> <| at_runnerCleanupPending := Some true |>) ≫= λ _,
        mret (ta <| ta_expired ::= Z.add 1 |>)
      else mret ta
  | Some mid =>
      let machine := machine_of (Some mid) in
      if (at_state a === Pending) && silent_over machine now WORKER_OFFLINE_AFTER_MS then
        db_patch attempts id (λ d, d <| at_machineId := None |>) ≫= λ _,
        mret (ta <| ta_requeued ::= Z.add 1 |>)
      else if is_some (at_retirement a) then
        kept ← (if match machine with Some (_, d) => workerReports d now | None => false end
                then keepForReturningWorker id a else mret false);
        if kept : bool then mret ta
        else
          due ← retirementBackstopDue a (snd <$> machine) now;
          if due : bool then
            finishRetirement id a true now ≫= λ _,
            ta ← match machine with
                 | None => mret ta
                 | Some (mi, _) =>
                     current ← db_get machines mi;
                     mret (match current with
                           | Some d => ta <| ta_slots ::= <[mi := mc_usedSlots d]> |>
                           | None => ta
                           end)
                 end;
            mret (ta <| ta_abandoned ::= Z.add 1 |>)
          else mret ta
      else
        let executorOnly := (at_state a === Preparing) || (at_state a === Ready) in
        let stuckPreparing := executorOnly &&
          (ASSIGNMENT_STUCK_MS <? now - or_else (at_createdAt a) (at_claimedAt a)) in
        let abandonedRunning := (at_state a === Running) && silent_over machine now RUNNING_ABANDONED_MS in
        if (executorOnly && silent_over machine now WORKER_OFFLINE_AFTER_MS) || stuckPreparing ||
           abandonedRunning then
          retireAttempt id a RetireFailed
            (if abandonedRunning then "Worker stopped reporting during the GitHub job"
             else if stuckPreparing then "Executor did not become usable within 45 minutes"
             else "Worker stopped reporting while preparing the runner") now ≫= λ _,
          mret (ta <| ta_abandoned ::= Z.add 1 |>)
        else mret ta
  end.

(** *** Experiments *)

Definition reconcile_experiment (ta : tally) (r : Id * experiment) : tx db tally :=
  let '(id, x) := r in
  match xp_machineId x with
  | None =>
      if QUEUE_EXPIRED_MS <? now - xp_createdAt x then
        db_patch experiments id (λ d, d <| xp_state := XFailed |> <| xp_finishedAt := Some now |>
          <| xp_lastError := Some "No compatible Worker became ready within 24 hours" |>) ≫= λ _,
        mret (ta <| ta_expired ::= Z.add 1 |>)
      else mret ta
  | Some mid =>
      let machine := machine_of (Some mid) in
      if (xp_state x === XQueued) && silent_over machine now WORKER_OFFLINE_AFTER_MS then
        db_patch experiments id (λ d, d <| xp_machineId := None |>) ≫= λ _,
        mret (ta <| ta_requeued ::= Z.add 1 |>)
      else
        let stuckPreparing := (xp_state x === XPreparing) &&
          (ASSIGNMENT_STUCK_MS <? now - or_else (xp_createdAt x) (xp_claimedAt x)) in
        let exceededDeadline := (xp_state x === XRunning) &&
          (xp_timeoutSeconds x * 1000 + 5 * 60000 <?
           now - or_else (or_else (xp_createdAt x) (xp_claimedAt x)) (xp_startedAt x)) in
        let abandonedRunning := (xp_state x === XRunning) && silent_over machine now RUNNING_ABANDONED_MS in
        if ((xp_state x === XPreparing) && silent_over machine now WORKER_OFFLINE_AFTER_MS) ||
           stuckPreparing || exceededDeadline || abandonedRunning then
          db_patch experiments id (λ d, d <| xp_state := XFailed |> <| xp_finishedAt := Some now |>
            <| xp_lastError := Some
                 (if exceededDeadline then "Experiment exceeded its timeout without exiting"
                  else if abandonedRunning then "Worker stopped reporting during the Experiment"
                  else if stuckPreparing then "Experiment executor did not start within 45 minutes"
                  else "Worker stopped reporting while preparing the Experiment") |>) ≫= λ _,
          mret (ta <| ta_abandoned ::= Z.add 1 |>)
        else mret ta
  end.
End jobs.

(** *** Retention *)

(** The oldest rows of a range, by the last column of its index. *)
Definition oldest {D} (key : D → Z) (n : nat) (l : list (Id * D)) : list (Id * D) :=
  take n (to_sorted (λ l r, key l.2 - key r.2) l).

Definition retain_registrations (now : Z) : tx db unit :=
  expired ← db_where registrationTokens
    (λ r, rg_createdAt r <=? now - REGISTRATION_TOKEN_RETENTION_MS);
  used ← db_where registrationTokens
    (λ r, match rg_usedAt r with Some t => 0 <? t | None => false end);
  for_each (set_of ((oldest rg_createdAt 200 expired).*1 ++
                    (oldest (λ r, or_else 0 (rg_usedAt r)) 200 used).*1))
    (λ id, db_delete registrationTokens id).

Definition retain_deliveries (now : Z) : tx db unit :=
  for_each [DProcessed; DRejected; DFailed] (λ st,
    settled ← db_where webhookDeliveries
      (λ d, (wd_status d === st) && (wd_receivedAt d <=? now - DELIVERY_RETENTION_MS));
    for_each (oldest wd_receivedAt 200 settled) (λ r : Id * webhook_delivery,
      when (DELIVERY_RETENTION_MS <=? now - or_else (wd_receivedAt r.2) (wd_settledAt r.2))
        (db_delete webhookDeliveries r.1))).

Definition retain_recoveries (now : Z) : tx db unit :=
  for_each [VRecovered; VAbandoned] (λ st,
    settled ← db_where webhookRecovery
      (λ d, (wv_state d === st) && (wv_lastRequestedAt d <=? now - RECOVERY_RETENTION_MS));
    for_each (oldest wv_lastRequestedAt 200 settled) (λ r : Id * webhook_recovery,
      when (RECOVERY_RETENTION_MS <=? now - wv_lastRequestedAt r.2) (db_delete webhookRecovery r.1))).

Definition retain_jobs (now : Z) : tx db unit :=
  for_each [JDone; JFailed] (λ st,
    finished ← db_where jobs
      (λ j, (jb_status j === st) && (jb_queuedAt j <=? now - FINISHED_JOB_RETENTION_MS));
    for_each (oldest jb_queuedAt 100 finished) (λ r : Id * job,
      when (FINISHED_JOB_RETENTION_MS <=? now - or_else (jb_creationTime r.2) (jb_finishedAt r.2))
        (db_delete jobs r.1))).

(** The finished Attempts of one state that no controller still has to clean up, and that are old
    enough; rows without a finish time are dated by their creation. *)
Definition expired_attempts (st : attempt_state) (now : Z) : tx db (list (Id * attempt)) :=
  let cut := now - TERMINAL_WORK_RETENTION_MS in
  finished ← db_where attempts (λ a, (at_state a === st) && is_none (at_runnerCleanupPending a) &&
    match at_finishedAt a with Some t => (0 <? t) && (t <=? cut) | None => false end);
  legacy ← db_where attempts (λ a, (at_state a === st) && is_none (at_runnerCleanupPending a) &&
    is_none (at_finishedAt a));
  mret (oldest (λ a, or_else 0 (at_finishedAt a)) 100 finished ++
        filter (λ r : Id * attempt, (TERMINAL_WORK_RETENTION_MS <=? now - at_createdAt r.2) = true)
          (take 100 legacy)).

Definition forget_attempt (r : Id * attempt) : tx db unit :=
  deleteAttemptSecret r.1 ≫= λ _, deleteAttemptEgress r.1 ≫= λ _, db_delete attempts r.1.

Definition retain_attempts (now : Z) : tx db unit :=
  for_each TERMINAL_ATTEMPT_STATES (λ st,
    old ← expired_attempts st now; for_each old forget_attempt).

Definition expired_experiments (st : experiment_state) (now : Z) : tx db (list (Id * experiment)) :=
  let cut := now - TERMINAL_WORK_RETENTION_MS in
  finished ← db_where experiments (λ x, (xp_state x === st) &&
    match xp_finishedAt x with Some t => (0 <? t) && (t <=? cut) | None => false end);
  legacy ← db_where experiments (λ x, (xp_state x === st) && is_none (xp_finishedAt x));
  mret (oldest (λ x, or_else 0 (xp_finishedAt x)) 100 finished ++
        filter (λ r : Id * experiment, (TERMINAL_WORK_RETENTION_MS <=? now - xp_createdAt r.2) = true)
          (take 100 legacy)).

Definition retain_experiments (now : Z) : tx db unit :=
  for_each TERMINAL_EXPERIMENT_STATES (λ st,
    old ← expired_experiments st now;
    for_each old (λ r : Id * experiment, db_delete experiments r.1)).

(** *** Slot repair *)

Definition count_slot (id : option Id) (m : gmap Id Z) : gmap Id Z :=
  match id with
  | None => m
  | Some id => <[id := or_else 0 (m !! id) + 1]> m
  end.

Definition expected_slots : tx db (gmap Id Z) :=
  jobRanges ← map_tx jobs_with [JAssigned; JRunning];
  currentAttempts ← active_attempts;
  currentExperiments ← active_experiments;
  mret (foldl (λ m id, count_slot id m) ∅
    ((jb_machineId ∘ snd <$> concat jobRanges) ++ (at_machineId ∘ snd <$> currentAttempts) ++
     (xp_machineId ∘ snd <$> currentExperiments))).

Definition repair_slot (expected : gmap Id Z) (acc : tally * Z) (r : Id * machine) : tx db (tally * Z) :=
  let '(ta, repaired) := acc in
  let expectedSlots := or_else 0 (expected !! r.1) in
  let currentSlots := or_else (mc_usedSlots r.2) (ta_slots ta !! r.1) in
  if currentSlots =? expectedSlots then mret acc
  else
    db_patch machines r.1 (λ d, d <| mc_usedSlots := expectedSlots |>) ≫= λ _,
    mret (ta <| ta_slots ::= <[r.1 := expectedSlots]> |>, repaired + 1).

(** *** The run *)

Record reconcile_result := ReconcileResult {
  rs_requeued : Z;
  rs_abandoned : Z;
  rs_expired : Z;
  rs_slotsRepaired : Z;
  rs_deliveriesRetried : Z;
}.

(** The recovery phase: everything up to retention. *)
Definition recover_work (now : Z) : tx db (list (Id * machine) * tally) :=
  assignedJobs ← jobs_with JAssigned;
  runningJobs ← jobs_with JRunning;
  queuedJobs ← jobs_with JQueued;
  cs ← active_commands;
  finishedCommands ← db_where commands (λ c, cm_status c === CFinished);
  liveAttempts ← active_attempts;
  liveExperiments ← active_experiments;
  ms ← machines_of (omap (jb_machineId ∘ snd) (assignedJobs ++ runningJobs ++ queuedJobs) ++
                    omap (at_machineId ∘ snd) liveAttempts ++
                    omap (xp_machineId ∘ snd) liveExperiments);
  let byId := map_of ms in
  let start := Tally (mc_usedSlots <$> byId) 0 0 0 in
  for_each (take 200 finishedCommands) (λ c : Id * command, db_delete commands c.1) ≫= λ _,
  ta ← fold_tx (reconcile_assigned now byId cs) start assignedJobs;
  ta ← fold_tx (reconcile_running now byId cs) ta runningJobs;
  ta ← fold_tx (reconcile_queued now) ta queuedJobs;
  ta ← fold_tx (reconcile_attempt now byId) ta liveAttempts;
  ta ← fold_tx (reconcile_experiment now byId) ta liveExperiments;
  mret (ms, ta).

Definition retain (now : Z) : tx db unit :=
  retain_registrations now ≫= λ _,
  retain_deliveries now ≫= λ _,
  retain_recoveries now ≫= λ _,
  retain_jobs now ≫= λ _,
  retain_attempts now ≫= λ _,
  retain_experiments now.

Definition reconcile (now : Z) : tx db reconcile_result :=
  work ← recover_work now;
  retain now ≫= λ _,
  expected ← expected_slots;
  repaired ← fold_tx (repair_slot expected) (work.2, 0) work.1;
  deliveries ← retryStalledDeliveries now;
  let ta := repaired.1 in
  when ((0 <? ta_requeued ta) || (0 <? ta_abandoned ta) || (0 <? ta_expired ta) || (0 <? repaired.2))
    (run_after (CallLegacyTryAssign 0) ≫= λ _, run_after CallAttemptTryAssign) ≫= λ _,
  orphanedRunners ← db_first runnerDeletions (λ _, true);
  when (is_some orphanedRunners) (run_after CallDrainRunnerDeletions) ≫= λ _,
  mret (ReconcileResult (ta_requeued ta) (ta_abandoned ta) (ta_expired ta) repaired.2
    (dr_retried deliveries)).
