(* ===== verification/Lifecycle.v ===== *)
(** The life of an Attempt as an abstract state machine, the elementary moves of the store, and
    the invariant of the scale-set side of the control plane with its preservation by every
    move.  System.v shows that the handlers are sequences of these moves. *)

From S2P Require Import Prelude JsLib Schema HostLabels Egress Isolation Benchmark Scheduler.
From S2P Require Import Placement Retirement ControllerApi.

(** ** The abstract state machine *)

(** What the life cycle sees of an Attempt. *)
Record phase := Phase {
  ph_state : attempt_state;
  ph_machine : option Id;
  ph_retiring : option retirement_outcome;
  ph_cleanup : bool;
}.

Definition phase_of (a : attempt) : phase :=
  Phase (at_state a) (at_machineId a) (rt_outcome <$> at_retirement a)
    (at_runnerCleanupPending a === Some true).

Inductive event :=
  | EvAssign | EvRequeue | EvClaim | EvReady | EvStart | EvRetire | EvKeep | EvConfirm | EvCancel
  | EvExit | EvComplete | EvCleaned | EvExpire | EvBackstop
  (** not steps of an Attempt: the operation may delete old rows, write Profiles, or write the
      slot counters, jobs and commands of the legacy queue *)
  | EvForget | EvProfile | EvLegacy.

Inductive lifecycle : event → phase → phase → Prop :=
  | lc_assign m r c : lifecycle EvAssign (Phase Pending None r c) (Phase Pending (Some m) r c)
  | lc_requeue m r c : lifecycle EvRequeue (Phase Pending (Some m) r c) (Phase Pending None r c)
  | lc_claim m r c : lifecycle EvClaim (Phase Pending (Some m) r c) (Phase Preparing (Some m) r c)
  | lc_ready m r c : lifecycle EvReady (Phase Preparing (Some m) r c) (Phase Ready (Some m) r c)
  (** GitHub gave the Runner a job: a pending retirement is called off. *)
  | lc_start st m r c :
      terminal st = false → st ≠ Running →
      lifecycle EvStart (Phase st m r c) (Phase Running m None (if is_some r then false else c))
  | lc_retire st m o c :
      runnerMayBeOnline st = true →
      lifecycle EvRetire (Phase st m None c) (Phase st m (Some o) true)
  (** The silent Worker reports again: its running job goes on. *)
  | lc_keep m o c : lifecycle EvKeep (Phase Running m (Some o) c) (Phase Running m None false)
  (** GitHub deleted the Runner of a retiring Attempt. *)
  | lc_confirm st m o c :
      runnerMayBeOnline st = true →
      lifecycle EvConfirm (Phase st m (Some o) c) (Phase (outcome_state o) m None false)
  | lc_cancel m r c : lifecycle EvCancel (Phase Pending m r c) (Phase Cancelled m r true)
  | lc_exit_retired st m o c :
      terminal st = false → st ≠ Running →
      lifecycle EvExit (Phase st m (Some o) c) (Phase (outcome_state o) m None true)
  (** The executor is gone; only a Runner that is certainly gone too needs no deletion. *)
  | lc_exit st m r c st' c' :
      terminal st = false → (r = None ∨ st = Running) → st' = Completed ∨ st' = FailedState →
      (c' = false → st = Running ∧ r = None) →
      lifecycle EvExit (Phase st m r c) (Phase st' m None c')
  | lc_complete st m r c : lifecycle EvComplete (Phase st m r c) (Phase Completed m None false)
  | lc_cleaned st m r c :
      is_some r && runnerMayBeOnline st = false →
      lifecycle EvCleaned (Phase st m r c) (Phase st m None false)
  (** No Worker took it within a day. *)
  | lc_expire st r c :
      terminal st = false → lifecycle EvExpire (Phase st None r c) (Phase Cancelled None r true)
  (** No controller confirmed the deletion of the Runner for hours. *)
  | lc_backstop st m o c :
      runnerMayBeOnline st = true →
      lifecycle EvBackstop (Phase st m (Some o) c) (Phase (outcome_state o) m None true).

(** ** Well-formed Attempts *)

Definition awaiting (a : attempt) : bool :=
  match at_state a with Pending | Running => is_none (at_retirement a) | _ => false end.

Record phase_ok (p : phase) : Prop := {
  po_retiring : is_some (ph_retiring p) = true →
    runnerMayBeOnline (ph_state p) = true ∧ ph_cleanup p = true ∧ is_some (ph_machine p) = true;
  po_executor : ph_state p = Preparing ∨ ph_state p = Ready → is_some (ph_machine p) = true;
}.

Record attempt_ok (a : attempt) : Prop := {
  ao_phase : phase_ok (phase_of a);
  ao_jit : awaiting a = false → at_jitConfig a = None;
  ao_finished : terminal (at_state a) = true → is_some (at_finishedAt a) = true;
}.

Lemma is_some_fmap {A B} (f : A → B) (o : option A) : is_some (f <$> o) = is_some o.
Proof. by destruct o. Qed.

(** An Attempt only retires once a Worker claimed it. *)
Definition retire_guard (e : event) (p : phase) : Prop :=
  e = EvRetire → is_some (ph_machine p) = true.

Lemma lifecycle_ok e p p' : lifecycle e p p' → retire_guard e p → phase_ok p → phase_ok p'.
Proof.
  intros Hl Hg [Hr Hx]. destruct Hl; simpl in *; split; simpl in *; try naive_solver.
Qed.

(** ** Slots held by work *)

Definition holds (a : attempt) : option Id := if terminal (at_state a) then None else at_machineId a.
Definition xholds (x : experiment) : option Id :=
  match xp_state x with XCompleted | XCancelled | XFailed => None | _ => xp_machineId x end.

Lemma attempt_load_holds id a : attempt_load Guests id a = b2z (holds a === Some id).
Proof.
  unfold attempt_load, live_attempt, holds.
  destruct (at_state a), (at_machineId a); simpl; unfold live_size; simpl;
    repeat case_decide; repeat case_bool_decide; by simplify_eq/=.
Qed.

Lemma experiment_load_holds id x : experiment_load Guests id x = b2z (xholds x === Some id).
Proof.
  unfold experiment_load, live_experiment, xholds.
  destruct (xp_state x), (xp_machineId x); simpl; unfold live_size; simpl;
    repeat case_decide; repeat case_bool_decide; by simplify_eq/=.
Qed.

(** Legacy jobs hold a slot of their machine while assigned or running. *)
Definition job_load (id : Id) (j : job) : Z :=
  b2z (((jb_status j === JAssigned) || (jb_status j === JRunning)) && (jb_machineId j === Some id)).
Definition legacy_load (id : Id) (s : db) : Z := t_sum (job_load id) (jobs s).

Definition slot_load (id : Id) (s : db) : Z := db_load Guests id s + legacy_load id s.

(** ** Elementary moves *)

(** The tables the invariant reads. *)
Definition core (s : db) :=
  (machines s, attempts s, attemptSecrets s, experiments s, jobs s, commands s).

(** The effect of [releaseMachineSlot] and [deleteAttemptSecret] on their tables. *)
Definition release_slot (m : option Id) (t : table machine) : table machine :=
  match m with
  | None => t
  | Some id =>
      match rows t !! id with
      | None => t
      | Some d => t_set id (d <| mc_usedSlots := Z.max 0 (mc_usedSlots d - 1) |>) t
      end
  end.

Definition drop_secret (i : Id) (t : table attempt_secret) : table attempt_secret :=
  match t_where (λ r, as_attemptId r === i) t with
  | [r] => t_del r.1 t
  | _ => t
  end.

(** The slot a row gives back when its holder changes. *)
Definition freed (h h' : option Id) : option Id := if is_none h' then h else None.

Definition same_identity (a a' : attempt) : Prop :=
  at_runnerName a' = at_runnerName a ∧ at_runnerId a' = at_runnerId a ∧ at_profile a' = at_profile a ∧
  at_executor a' = at_executor a ∧ at_imageRelease a' = at_imageRelease a ∧
  at_vcpus a' = at_vcpus a ∧ at_memoryMiB a' = at_memoryMiB a ∧ at_createdAt a' = at_createdAt a.

(** A host's sizes and slot counts are positive. *)
Definition positive_opt (o : option Z) : Prop := ∀ z, o = Some z → 0 < z.

Record host_ok (m : machine) : Prop := {
  ho_sane : machine_sane m;
  ho_configured : positive_opt (mc_configuredSlots m);
  ho_resource : positive_opt (mc_resourceRecommendedSlots m);
  ho_recommended : positive_opt (mc_recommendedSlots m);
}.

(** The machines that jobs and commands name were registered at some time. *)
Record legacy_ok (s : db) : Prop := {
  lo_jobs : t_wf (jobs s);
  lo_commands : t_wf (commands s);
  lo_job_refs : ∀ i j m, rows (jobs s) !! i = Some j → jb_machineId j = Some m →
    (m < next_id (machines s))%nat;
  lo_command_refs : ∀ i c, rows (commands s) !! i = Some c → (cm_machineId c < next_id (machines s))%nat;
}.

Definition profiles_ok (s : db) : Prop :=
  ∀ i p, rows (profiles s) !! i = Some p → 0 < pf_vcpus p ∧ 0 < pf_memoryMiB p.

Section moves.
(** The life-cycle events the running operation may cause. *)
Context (E : event → Prop).

Definition attempt_moves (a a' : attempt) : Prop :=
  phase_of a' = phase_of a ∨ ∃ e, E e ∧ retire_guard e (phase_of a) ∧ lifecycle e (phase_of a) (phase_of a').

Inductive move : db → db → Prop :=
  | MvFrame s s' : core s' = core s → profiles s' = profiles s → move s s'
  | MvProfiles s t :
      E EvProfile → (profiles_ok s → profiles_ok (s <| profiles := t |>)) → move s (s <| profiles := t |>)
  | MvAttempt s i a a' (drop : bool) :
      rows (attempts s) !! i = Some a → same_identity a a' → attempt_moves a a' →
      (attempt_ok a → attempt_ok a') →
      holds a' = holds a ∨ holds a' = None →
      (drop = false → awaiting a = true → awaiting a' = true) →
      move s (s <| machines ::= release_slot (freed (holds a) (holds a')) |>
                <| attemptSecrets ::= if drop then drop_secret i else id |>
                <| attempts ::= t_set i a' |>)
  | MvCreate s a secret :
      (∀ j b, rows (attempts s) !! j = Some b → at_runnerName b ≠ at_runnerName a) →
      phase_of a = Phase Pending None None false → at_retirement a = None →
      as_attemptId secret = next_id (attempts s) →
      move s (s <| attempts ::= t_add a |> <| attemptSecrets ::= t_add secret |>)
  | MvAssign s s' now : E EvAssign → assigned_run s s' now → move s s'
  | MvExperiment s i x x' :
      rows (experiments s) !! i = Some x → xholds x' = xholds x ∨ xholds x' = None →
      move s (s <| machines ::= release_slot (freed (xholds x) (xholds x')) |>
                <| experiments ::= t_set i x' |>)
  | MvNewExperiment s x : xholds x = None → move s (s <| experiments ::= t_add x |>)
  | MvMachine s i m m' :
      rows (machines s) !! i = Some m → mc_usedSlots m' = mc_usedSlots m → (host_ok m → host_ok m') →
      move s (s <| machines ::= t_set i m' |>)
  | MvNewMachine s m : mc_usedSlots m = 0 → host_ok m → move s (s <| machines ::= t_add m |>)
  | MvForget s i a :
      E EvForget → rows (attempts s) !! i = Some a → terminal (at_state a) = true →
      at_runnerCleanupPending a ≠ Some true →
      move s (s <| attemptSecrets ::= drop_secret i |> <| attempts ::= t_del i |>)
  | MvForgetExperiment s i x :
      rows (experiments s) !! i = Some x → xholds x = None → move s (s <| experiments ::= t_del i |>)
  | MvLegacy s tj tc :
      E EvLegacy → (legacy_ok s → legacy_ok (s <| jobs := tj |> <| commands := tc |>)) →
      move s (s <| jobs := tj |> <| commands := tc |>)
  | MvSlots s i m n :
      E EvLegacy → rows (machines s) !! i = Some m → 0 ≤ n →
      move s (s <| machines ::= t_set i (m <| mc_usedSlots := n |>) |>)
  | MvDelMachine s i : E EvLegacy → move s (s <| machines ::= t_del i |>).

Definition moves : relation db := rtc move.
End moves.

(** ** The invariant

    [base] holds whatever runs; [inv] adds that the slot counters are exact, which the legacy
    queue may disturb until the next reconciliation. *)

Record base (s : db) : Prop := {
  iv_machines : t_wf (machines s);
  iv_attempts_wf : t_wf (attempts s);
  iv_experiments : t_wf (experiments s);
  iv_secrets_wf : t_wf (attemptSecrets s);
  iv_hosts : ∀ i m, rows (machines s) !! i = Some m → host_ok m;
  iv_profiles : profiles_ok s;
  iv_attempts : ∀ i a, rows (attempts s) !! i = Some a → attempt_ok a;
  iv_names : ∀ i j a b, rows (attempts s) !! i = Some a → rows (attempts s) !! j = Some b →
    at_runnerName a = at_runnerName b → i = j;
  iv_secrets : ∀ j r, rows (attemptSecrets s) !! j = Some r →
    ∃ a, rows (attempts s) !! as_attemptId r = Some a ∧ awaiting a = true;
  iv_secret_once : ∀ j k r q, rows (attemptSecrets s) !! j = Some r →
    rows (attemptSecrets s) !! k = Some q → as_attemptId r = as_attemptId q → j = k;
  iv_refs : ∀ id, (next_id (machines s) ≤ id)%nat → slot_load id s = 0;
  iv_used : ∀ id m, rows (machines s) !! id = Some m → 0 ≤ mc_usedSlots m;
  iv_legacy : legacy_ok s;
}.

Definition slots_exact (s : db) : Prop :=
  ∀ id m, rows (machines s) !! id = Some m → mc_usedSlots m = slot_load id s.

Record inv (s : db) : Prop := {
  iv_base :> base s;
  iv_slots : slots_exact s;
}.

(** ** Preservation *)

Lemma release_slot_rows m t id :
  rows (release_slot m t) !! id =
  (λ d, if decide (m = Some id) then d <| mc_usedSlots := Z.max 0 (mc_usedSlots d - 1) |> else d)
    <$> rows t !! id.
Proof.
  unfold release_slot. destruct m as [k|].
  2:{ rewrite option_fmap_ext with (g := λ d, d); [by destruct (rows t !! id)|by intros ?]. }
  destruct (rows t !! k) as [d|] eqn:Hk; simpl.
  - destruct (decide (k = id)) as [->|Hne].
    + rewrite lookup_insert_eq, Hk. simpl. by rewrite decide_True.
    + rewrite lookup_insert_ne by done. destruct (rows t !! id); simpl; [|done].
      rewrite decide_False; [done|]. congruence.
  - destruct (rows t !! id) as [d|] eqn:Hi; simpl; [|done]. rewrite decide_False; [done|]. congruence.
Qed.

Lemma release_slot_next m t : next_id (release_slot m t) = next_id t.
Proof. unfold release_slot. by repeat case_match. Qed.

Lemma release_slot_wf m t : t_wf t → t_wf (release_slot m t).
Proof.
  intros Hwf id d. rewrite release_slot_next, release_slot_rows.
  destruct (rows t !! id) eqn:E; [|done]. intros _. by eapply Hwf.
Qed.

(** A row that changes holder takes its slot from the old machine to the new one. *)
Definition moves_slot (h h' : option Id) (id : Id) (n n' : Z) : Prop :=
  n' + b2z (h === Some id) = n + b2z (h' === Some id).

Lemma attempt_slot_moves s i a a' id :
  t_wf (attempts s) → rows (attempts s) !! i = Some a →
  moves_slot (holds a) (holds a') id (slot_load id s) (slot_load id (s <| attempts ::= t_set i a' |>)).
Proof.
  intros Hwf Hi. unfold moves_slot, slot_load, db_load, legacy_load. simpl.
  pose proof (t_sum_set (attempt_load Guests id) _ i a a' Hwf Hi) as H.
  rewrite !attempt_load_holds in H. lia.
Qed.

Lemma experiment_slot_moves s i x x' id :
  t_wf (experiments s) → rows (experiments s) !! i = Some x →
  moves_slot (xholds x) (xholds x') id (slot_load id s) (slot_load id (s <| experiments ::= t_set i x' |>)).
Proof.
  intros Hwf Hi. unfold moves_slot, slot_load, db_load, legacy_load. simpl.
  pose proof (t_sum_set (experiment_load Guests id) _ i x x' Hwf Hi) as H.
  rewrite !experiment_load_holds in H. lia.
Qed.

Lemma slot_load_nonneg id s : 0 ≤ slot_load id s.
Proof.
  unfold slot_load, db_load, legacy_load.
  rewrite (t_sum_ext (attempt_load Guests id) (λ a, b2z (holds a === Some id)))
    by (intros; apply attempt_load_holds).
  rewrite (t_sum_ext (experiment_load Guests id) (λ x, b2z (xholds x === Some id)))
    by (intros; apply experiment_load_holds).
  pose proof (t_count_nonneg (λ a, holds a === Some id) (attempts s)).
  pose proof (t_count_nonneg (λ x, xholds x === Some id) (experiments s)).
  pose proof (t_count_nonneg (λ j, ((jb_status j === JAssigned) || (jb_status j === JRunning)) &&
    (jb_machineId j === Some id)) (jobs s)).
  unfold t_count, job_load in *. lia.
Qed.

(** The slot counters stay right when a row keeps or gives up its slot and the counter of the
    machine it leaves is lowered. *)
Lemma slots_after_release (t : table machine) (L L' : Id → Z) h h' :
  h' = h ∨ h' = None → (∀ id, 0 ≤ L' id) → (∀ id, moves_slot h h' id (L id) (L' id)) →
  (∀ id m, rows t !! id = Some m → mc_usedSlots m = L id) →
  ∀ id m, rows (release_slot (freed h h') t) !! id = Some m → mc_usedSlots m = L' id.
Proof.
  intros Hh Hn Hm Ht id m. rewrite release_slot_rows.
  intros (d & Hd & ->)%fmap_Some. specialize (Ht id d Hd). specialize (Hm id). specialize (Hn id).
  unfold moves_slot in Hm. destruct Hh as [->| ->].
  - rewrite decide_False; [lia|]. unfold freed. by destruct h.
  - unfold freed. simpl. rewrite (bool_decide_false (None = _)) in Hm by done. simpl in Hm.
    case_bool_decide; case_decide; simplify_eq/=; lia.
Qed.

Lemma refs_after_move (L L' : Id → Z) h h' id :
  h' = h ∨ h' = None → 0 ≤ L' id → moves_slot h h' id (L id) (L' id) → L id = 0 → L' id = 0.
Proof.
  unfold moves_slot. intros [->| ->] Hn Hm H0; [lia|].
  rewrite (bool_decide_false (None = _)) in Hm by done. simpl in Hm.
  destruct (h === Some id); simpl in *; lia.
Qed.

Section secrets.
Context (t : table attempt_secret) (i : Id).
Hypothesis Hwf : t_wf t.
Hypothesis Honce : ∀ j k r q, rows t !! j = Some r → rows t !! k = Some q →
  as_attemptId r = as_attemptId q → j = k.

Lemma secret_rows_unique :
  t_where (λ r, as_attemptId r === i) t = [] ∨
  ∃ r, t_where (λ r, as_attemptId r === i) t = [r].
Proof.
  pose proof (NoDup_t_where_ids (λ r, as_attemptId r === i) t) as Hnd.
  destruct (t_where _ t) as [|r1 [|r2 l]] eqn:Hw; [by left|by right; eexists|exfalso].
  assert (∀ r, r ∈ r1 :: r2 :: l → rows t !! r.1 = Some r.2 ∧ as_attemptId r.2 = i) as Hin.
  { intros r. rewrite <- Hw. intros [? ?%bool_decide_eq_true]%t_where_sound. done. }
  destruct (Hin r1) as [H1 E1]; [left|]. destruct (Hin r2) as [H2 E2]; [right; left|].
  assert (r1.1 = r2.1) as E by (eapply Honce; [done..|congruence]).
  simpl in Hnd. rewrite E in Hnd. inversion Hnd as [|?? Hni]. apply Hni. left.
Qed.

Lemma drop_secret_rows j r :
  rows (drop_secret i t) !! j = Some r ↔ rows t !! j = Some r ∧ as_attemptId r ≠ i.
Proof.
  unfold drop_secret. destruct secret_rows_unique as [Hw|[[k q] Hw]]; rewrite Hw.
  - split; [|naive_solver]. intros Hj. split; [done|]. intros E.
    assert ((j, r) ∈ t_where (λ r, as_attemptId r === i) t) as Hin
      by (apply elem_of_t_where; [done|]; by rewrite bool_decide_true).
    rewrite Hw in Hin. by apply elem_of_nil in Hin.
  - destruct (t_where_sound t (λ r, as_attemptId r === i) (k, q)) as [Hk Hq]; [rewrite Hw; left|].
    apply bool_decide_eq_true in Hq. simpl in Hk, Hq.
    simpl. rewrite lookup_delete_Some. split; intros [H1 H2]; split; try done.
    + intros E. destruct H1. eapply Honce; [done..|congruence].
    + intros ->. congruence.
Qed.

Lemma drop_secret_wf : t_wf (drop_secret i t).
Proof. unfold drop_secret. repeat case_match; auto with tx. Qed.
End secrets.

Lemma base_frame s s' : core s' = core s → (profiles_ok s → profiles_ok s') → base s → base s'.
Proof.
  unfold core. intros [= Em Ea Es Ex Ej Ec] Hp [Wm Wa Wx Ws Hho Hpo Ha Hn Hsec Honce Href Hu [L1 L1' L2 L3]].
  split; unfold slot_load, db_load, legacy_load in *; rewrite ?Em, ?Ea, ?Es, ?Ex, ?Ej; auto.
  split; rewrite ?Em, ?Ej, ?Ec; auto.
Qed.

Lemma host_ok_slots m n : host_ok m → host_ok (m <| mc_usedSlots := n |>).
Proof. by intros []; split. Qed.

(** What the tables say about machines is kept when machines only change in place or appear. *)
Lemma legacy_ok_machines s t :
  (next_id (machines s) ≤ next_id t)%nat → legacy_ok s → legacy_ok (s <| machines := t |>).
Proof.
  intros Hle [L1 L1' L2 L3]. split; simpl; [done..| |].
  - intros i j m Hi Hm. specialize (L2 i j m Hi Hm). lia.
  - intros i c Hi. specialize (L3 i c Hi). lia.
Qed.

Lemma legacy_ok_same s s' :
  next_id (machines s') = next_id (machines s) → jobs s' = jobs s → commands s' = commands s →
  legacy_ok s → legacy_ok s'.
Proof. intros Em Ej Ec [L1 L1' L2 L3]. split; rewrite ?Em, ?Ej, ?Ec; auto. Qed.

(** Jobs hold slots of registered machines only. *)
Lemma legacy_load_fresh s id : legacy_ok s → (next_id (machines s) ≤ id)%nat → legacy_load id s = 0.
Proof.
  intros [L1 L1' L2 L3] Hid. apply zsum_zero. intros [i j] Hj%t_scan_sound. simpl in *.
  unfold job_load. destruct (jb_machineId j === Some id) eqn:Em; [|by rewrite andb_false_r].
  apply bool_decide_eq_true in Em. specialize (L2 i j id Hj Em). lia.
Qed.

(** Rows of the two machine tables that only differ in slots given back. *)
Lemma release_slot_hosts (P : machine → Prop) h t :
  (∀ m n, P m → P (m <| mc_usedSlots := n |>)) →
  (∀ id m, rows t !! id = Some m → P m) → ∀ id m, rows (release_slot h t) !! id = Some m → P m.
Proof.
  intros Hn Ht id m. rewrite release_slot_rows. intros (d & Hd & ->)%fmap_Some.
  apply Ht in Hd. case_decide; auto.
Qed.

Lemma release_slot_used h t :
  (∀ id m, rows t !! id = Some m → 0 ≤ mc_usedSlots m) →
  ∀ id m, rows (release_slot h t) !! id = Some m → 0 ≤ mc_usedSlots m.
Proof.
  intros Ht id m. rewrite release_slot_rows. intros (d & Hd & ->)%fmap_Some.
  apply Ht in Hd. case_decide; simpl; lia.
Qed.

(** Placement only adds work. *)
Lemma t_sum_evolves {D} (R : relation D) f t t' :
  t_evolves R t t' → (∀ d d', R d d' → f d ≤ f d') → t_sum f t ≤ t_sum f t'.
Proof.
  intros [_ Hn Hr] Hf. rewrite !t_sum_seq, Hn. induction (seq 0 (next_id t)) as [|i l IH]; simpl; [lia|].
  specialize (Hr i). destruct Hr as [d d' HR|]; [specialize (Hf d d' HR)|]; lia.
Qed.

Lemma assigned_grows s s' now id : assigned_run s s' now → db_load Guests id s ≤ db_load Guests id s'.
Proof.
  intros [_ _ _ _ Hat Hxp]. unfold db_load.
  pose proof (t_sum_evolves _ (attempt_load Guests id) _ _ Hat) as H1.
  pose proof (t_sum_evolves _ (experiment_load Guests id) _ _ Hxp) as H2.
  apply Z.add_le_mono; [apply H1|apply H2]; clear H1 H2.
  - intros a a' [->|(Hst & Hm & k & sel & _ & ->)]; [lia|]. rewrite !attempt_load_holds.
    unfold holds. simpl. rewrite Hst, Hm. simpl. by destruct (Some k === Some id).
  - intros x x' [->|(Hst & Hm & k & sel & _ & ->)]; [lia|]. rewrite !experiment_load_holds.
    unfold xholds. simpl. rewrite Hst, Hm. simpl. by destruct (Some k === Some id).
Qed.

Section preservation.
Context (s : db) (Hbase : base s).

Lemma base_attempt i a a' (drop : bool) :
  rows (attempts s) !! i = Some a → same_identity a a' → (attempt_ok a → attempt_ok a') →
  holds a' = holds a ∨ holds a' = None →
  (drop = false → awaiting a = true → awaiting a' = true) →
  base (s <| machines ::= release_slot (freed (holds a) (holds a')) |>
         <| attemptSecrets ::= if drop then drop_secret i else id |> <| attempts ::= t_set i a' |>).
Proof.
  intros Hi Hid Hok Hh Hs. pose proof Hbase as [Wm Wa Wx Ws Hho Hp Ha Hn Hsec Honce Href Hu Hlo].
  pose proof (λ id, attempt_slot_moves s i a a' id Wa Hi) as Hmv.
  assert (∀ j r, rows ((if drop then drop_secret i else id) (attemptSecrets s)) !! j = Some r →
    rows (attemptSecrets s) !! j = Some r ∧ (as_attemptId r = i → drop = false)) as Hsr.
  { destruct drop; simpl; [|naive_solver]. intros j r ?%drop_secret_rows; naive_solver. }
  assert (∀ j b, rows (t_set i a' (attempts s)) !! j = Some b →
    ∃ c, rows (attempts s) !! j = Some c ∧ at_runnerName b = at_runnerName c ∧ attempt_ok b) as Hrow.
  { intros j b. simpl. rewrite lookup_insert_Some. destruct Hid as (Hid & _).
    intros [[<- <-]|[_ Hj]]; eauto 6. }
  split; simpl; try done.
  - by apply release_slot_wf.
  - by eapply t_wf_set.
  - destruct drop; simpl; [by apply drop_secret_wf|done].
  - by apply release_slot_hosts; [intros; apply host_ok_slots|].
  - intros j b Hj. destruct (Hrow j b Hj) as (? & ? & ? & ?). done.
  - intros j k b c Hj Hk Hbc. destruct (Hrow j b Hj) as (b0 & Hb0 & Eb & _), (Hrow k c Hk) as (c0 & Hc0 & Ec & _).
    eapply Hn; [done..|congruence].
  - intros j r [Hj Hd]%Hsr. destruct (Hsec j r Hj) as (b & Hb & Haw).
    destruct (decide (i = as_attemptId r)) as [Ei|Hne].
    + rewrite Ei, lookup_insert_eq. exists a'. split; [done|].
      rewrite <- Ei in Hb. simplify_eq. apply Hs; auto.
    + exists b. by rewrite lookup_insert_ne.
  - intros j k r q [Hj _]%Hsr [Hk _]%Hsr. by apply Honce.
  - intros id. rewrite release_slot_next. intros Hid'.
    exact (refs_after_move (λ id, slot_load id s) (λ id, slot_load id (s <| attempts ::= t_set i a' |>))
      _ _ id Hh (slot_load_nonneg _ _) (Hmv id) (Href id Hid')).
  - by apply release_slot_used.
  - by eapply legacy_ok_same; [apply release_slot_next|..].
Qed.

Lemma slots_attempt i a a' (drop : bool) :
  slots_exact s → rows (attempts s) !! i = Some a → holds a' = holds a ∨ holds a' = None →
  slots_exact (s <| machines ::= release_slot (freed (holds a) (holds a')) |>
         <| attemptSecrets ::= if drop then drop_secret i else id |> <| attempts ::= t_set i a' |>).
Proof.
  intros Hsl Hi Hh. pose proof (λ id, attempt_slot_moves s i a a' id (iv_attempts_wf _ Hbase) Hi) as Hmv.
  exact (slots_after_release (machines s) (λ id, slot_load id s)
    (λ id, slot_load id (s <| attempts ::= t_set i a' |>)) (holds a) (holds a') Hh
    (λ id, slot_load_nonneg _ _) Hmv Hsl).
Qed.

Lemma base_experiment i x x' :
  rows (experiments s) !! i = Some x → xholds x' = xholds x ∨ xholds x' = None →
  base (s <| machines ::= release_slot (freed (xholds x) (xholds x')) |> <| experiments ::= t_set i x' |>).
Proof.
  intros Hi Hh. pose proof Hbase as [Wm Wa Wx Ws Hho Hp Ha Hn Hsec Honce Href Hu Hlo].
  pose proof (λ id, experiment_slot_moves s i x x' id Wx Hi) as Hmv.
  split; simpl; try done.
  - by apply release_slot_wf.
  - by eapply t_wf_set.
  - by apply release_slot_hosts; [intros; apply host_ok_slots|].
  - intros id. rewrite release_slot_next. intros Hid'.
    exact (refs_after_move (λ id, slot_load id s) (λ id, slot_load id (s <| experiments ::= t_set i x' |>))
      _ _ id Hh (slot_load_nonneg _ _) (Hmv id) (Href id Hid')).
  - by apply release_slot_used.
  - by eapply legacy_ok_same; [apply release_slot_next|..].
Qed.

Lemma slots_experiment i x x' :
  slots_exact s → rows (experiments s) !! i = Some x → xholds x' = xholds x ∨ xholds x' = None →
  slots_exact (s <| machines ::= release_slot (freed (xholds x) (xholds x')) |>
                 <| experiments ::= t_set i x' |>).
Proof.
  intros Hsl Hi Hh. pose proof (λ id, experiment_slot_moves s i x x' id (iv_experiments _ Hbase) Hi) as Hmv.
  exact (slots_after_release (machines s) (λ id, slot_load id s)
    (λ id, slot_load id (s <| experiments ::= t_set i x' |>)) (xholds x) (xholds x') Hh
    (λ id, slot_load_nonneg _ _) Hmv Hsl).
Qed.

(** *** New and forgotten rows hold no slot *)

Lemma create_load a secret id :
  holds a = None →
  slot_load id (s <| attempts ::= t_add a |> <| attemptSecrets ::= t_add secret |>) = slot_load id s.
Proof.
  intros Hh. unfold slot_load, db_load, legacy_load. simpl. rewrite t_sum_add by apply Hbase.
  rewrite attempt_load_holds, Hh, bool_decide_false by done. simpl. lia.
Qed.

Lemma forget_load i a t id :
  rows (attempts s) !! i = Some a → holds a = None →
  slot_load id (s <| attemptSecrets ::= t |> <| attempts ::= t_del i |>) = slot_load id s.
Proof.
  intros Hi Hh. unfold slot_load, db_load, legacy_load. simpl.
  pose proof (t_sum_del (attempt_load Guests id) _ i a (iv_attempts_wf _ Hbase) Hi) as H.
  rewrite attempt_load_holds, Hh, bool_decide_false in H by done. simpl in H. lia.
Qed.

Lemma new_experiment_load x id :
  xholds x = None → slot_load id (s <| experiments ::= t_add x |>) = slot_load id s.
Proof.
  intros Hx. unfold slot_load, db_load, legacy_load. simpl. rewrite t_sum_add by apply Hbase.
  rewrite experiment_load_holds, Hx, bool_decide_false by done. simpl. lia.
Qed.

Lemma forget_experiment_load i x id :
  rows (experiments s) !! i = Some x → xholds x = None →
  slot_load id (s <| experiments ::= t_del i |>) = slot_load id s.
Proof.
  intros Hi Hx. unfold slot_load, db_load, legacy_load. simpl.
  pose proof (t_sum_del (experiment_load Guests id) _ i x (iv_experiments _ Hbase) Hi) as H.
  rewrite experiment_load_holds, Hx, bool_decide_false in H by done. simpl in H. lia.
Qed.

(** *** The other moves *)

Lemma base_create a secret :
  (∀ j b, rows (attempts s) !! j = Some b → at_runnerName b ≠ at_runnerName a) →
  phase_of a = Phase Pending None None false → at_retirement a = None →
  as_attemptId secret = next_id (attempts s) →
  base (s <| attempts ::= t_add a |> <| attemptSecrets ::= t_add secret |>).
Proof.
  intros Hname [= Est Em Er Ec] Hret Hsid.
  pose proof Hbase as [Wm Wa Wx Ws Hho Hp Ha Hn Hsec Honce Href Hu Hlo].
  pose proof (t_wf_fresh _ Wa) as Hfa. pose proof (t_wf_fresh _ Ws) as Hfs.
  assert (awaiting a = true) as Haw by (unfold awaiting; by rewrite Est, Hret).
  split; simpl; auto with tx.
  - intros j b. rewrite lookup_insert_Some. intros [[<- <-]|[_ Hj]]; [|eauto].
    split; [|congruence|by rewrite Est].
    split; unfold phase_of; simpl; rewrite Est, ?Hret; naive_solver.
  - intros j k b c. rewrite !lookup_insert_Some.
    intros [[<- <-]|[_ Hj]] [[<- <-]|[_ Hk]] E; [done|..|by eapply Hn].
    + by destruct (Hname k c Hk).
    + by destruct (Hname j b Hj).
  - intros j r. rewrite lookup_insert_Some. intros [[<- <-]|[_ Hj]].
    + exists a. by rewrite Hsid, lookup_insert_eq.
    + destruct (Hsec j r Hj) as (b & Hb & ?). exists b. split; [|done].
      rewrite lookup_insert_ne; [done|]. congruence.
  - intros j k r q. rewrite !lookup_insert_Some.
    intros [[<- <-]|[_ Hj]] [[<- <-]|[_ Hk]] E; [done|..|by eapply Honce].
    + destruct (Hsec k q Hk) as (b & Hb & _). rewrite <- E, Hsid in Hb. congruence.
    + destruct (Hsec j r Hj) as (b & Hb & _). rewrite E, Hsid in Hb. congruence.
  - intros id Hid. etrans; [|by apply (Href id)]. apply (create_load a secret id).
    unfold holds. by rewrite Est, Em.
  - by apply (legacy_ok_same s).
Qed.

Lemma base_forget i a :
  rows (attempts s) !! i = Some a → terminal (at_state a) = true →
  base (s <| attemptSecrets ::= drop_secret i |> <| attempts ::= t_del i |>).
Proof.
  intros Hi Ht. pose proof Hbase as [Wm Wa Wx Ws Hho Hp Ha Hn Hsec Honce Href Hu Hlo].
  assert (∀ j r, rows (drop_secret i (attemptSecrets s)) !! j = Some r →
    rows (attemptSecrets s) !! j = Some r ∧ as_attemptId r ≠ i) as Hd by (intros j r; by apply drop_secret_rows).
  split; simpl; try done; auto with tx.
  - by apply drop_secret_wf.
  - intros j b [_ Hj]%lookup_delete_Some. eauto.
  - intros j k b c [_ Hj]%lookup_delete_Some [_ Hk]%lookup_delete_Some. eauto.
  - intros j r [Hj Hne]%Hd. destruct (Hsec j r Hj) as (b & Hb & ?). exists b. by rewrite lookup_delete_ne.
  - intros j k r q [Hj _]%Hd [Hk _]%Hd. eauto.
  - intros id Hid. etrans; [|by apply (Href id)]. apply (forget_load i a (drop_secret i) id Hi).
    unfold holds. by rewrite Ht.
  - by apply (legacy_ok_same s).
Qed.

Lemma base_new_experiment x : xholds x = None → base (s <| experiments ::= t_add x |>).
Proof.
  intros Hx. pose proof Hbase as [Wm Wa Wx Ws Hho Hp Ha Hn Hsec Honce Href Hu Hlo].
  split; simpl; auto with tx.
  - intros id Hid. etrans; [|by apply (Href id)]. by apply (new_experiment_load x id).
  - by apply (legacy_ok_same s).
Qed.

Lemma base_forget_experiment i x :
  rows (experiments s) !! i = Some x → xholds x = None → base (s <| experiments ::= t_del i |>).
Proof.
  intros Hi Hx. pose proof Hbase as [Wm Wa Wx Ws Hho Hp Ha Hn Hsec Honce Href Hu Hlo].
  split; simpl; auto with tx.
  - intros id Hid. etrans; [|by apply (Href id)]. by apply (forget_experiment_load i x id).
  - by apply (legacy_ok_same s).
Qed.

(** Rows of machines written in place, added or deleted. *)
Lemma base_machines t :
  t_wf t → (next_id (machines s) ≤ next_id t)%nat →
  (∀ i m, rows t !! i = Some m → host_ok m ∧ 0 ≤ mc_usedSlots m) → base (s <| machines := t |>).
Proof.
  intros Wt Hnext Hrow. pose proof Hbase as [Wm Wa Wx Ws Hho Hp Ha Hn Hsec Honce Href Hu Hlo].
  split; simpl; try done.
  - intros i m Hi. by apply Hrow in Hi as [].
  - intros id Hid. apply (Href id). lia.
  - intros i m Hi. by apply Hrow in Hi as [].
  - by apply legacy_ok_machines.
Qed.

Lemma base_machine i m m' :
  rows (machines s) !! i = Some m → 0 ≤ mc_usedSlots m' → (host_ok m → host_ok m') →
  base (s <| machines ::= t_set i m' |>).
Proof.
  intros Hi Hu Hok. pose proof Hbase as [Wm _ _ _ Hho _ _ _ _ _ _ Hu' _].
  apply (base_machines (t_set i m' (machines s))); [by eapply t_wf_set|done|].
  intros j d. simpl. rewrite lookup_insert_Some. intros [[<- <-]|[_ Hj]]; eauto.
Qed.

Lemma slots_machine i m m' :
  slots_exact s → rows (machines s) !! i = Some m → mc_usedSlots m' = mc_usedSlots m →
  slots_exact (s <| machines ::= t_set i m' |>).
Proof.
  intros Hsl Hi Hu id d. simpl. rewrite lookup_insert_Some. intros [[<- <-]|[_ Hj]]; [|by apply Hsl].
  rewrite Hu. by apply Hsl.
Qed.

Lemma base_new_machine m : mc_usedSlots m = 0 → host_ok m → base (s <| machines ::= t_add m |>).
Proof.
  intros Hu Hok. pose proof Hbase as [Wm _ _ _ Hho _ _ _ _ _ _ Hu' _].
  apply (base_machines (t_add m (machines s))); [by apply t_wf_add|simpl; lia|].
  intros j d. simpl. rewrite lookup_insert_Some. intros [[<- <-]|[_ Hj]]; [|eauto]. by rewrite Hu.
Qed.

Lemma slots_new_machine m :
  slots_exact s → mc_usedSlots m = 0 → slots_exact (s <| machines ::= t_add m |>).
Proof.
  intros Hsl Hu id d. simpl. rewrite lookup_insert_Some. intros [[<- <-]|[_ Hj]]; [|by apply Hsl].
  rewrite Hu. symmetry. by apply (iv_refs _ Hbase).
Qed.

Lemma base_del_machine i : base (s <| machines ::= t_del i |>).
Proof.
  pose proof Hbase as [Wm _ _ _ Hho _ _ _ _ _ _ Hu' _].
  apply (base_machines (t_del i (machines s))); [by apply t_wf_del|done|].
  intros j d. simpl. intros [_ Hj]%lookup_delete_Some. eauto.
Qed.

Lemma db_load_fresh id : (next_id (machines s) ≤ id)%nat → db_load Guests id s = 0.
Proof.
  intros Hid. pose proof (iv_refs _ Hbase id Hid) as H. unfold slot_load in H.
  rewrite legacy_load_fresh in H; [lia|apply Hbase|done].
Qed.

Lemma base_legacy tj tc :
  legacy_ok (s <| jobs := tj |> <| commands := tc |>) → base (s <| jobs := tj |> <| commands := tc |>).
Proof.
  intros Hl. pose proof Hbase as [Wm Wa Wx Ws Hho Hp Ha Hn Hsec Honce Href Hu Hlo].
  split; try done. intros id Hid. unfold slot_load. rewrite legacy_load_fresh; [|done..].
  pose proof (db_load_fresh id Hid) as H. unfold db_load in *. simpl. lia.
Qed.

Lemma base_sane : sane s.
Proof.
  pose proof Hbase as [Wm Wa Wx Ws Hho Hp Ha Hn Hsec Honce Href Hu Hlo]. split; try done.
  intros i m Hm. by apply Hho in Hm as [].
Qed.

Lemma base_assigned s' now : assigned_run s s' now → base s'.
Proof.
  pose proof Hbase as [Wm Wa Wx Ws Hho Hp Ha Hn Hsec Honce Href Hu Hlo]. intros Hrun.
  pose proof (λ id, assigned_grows s s' now id Hrun) as Hgrow.
  destruct Hrun as [(ta & tx & tm & ->) Hg Hm [Wm' Nm'] Hat Hxp]. simpl in *.
  assert (∀ i a', rows ta !! i = Some a' → ∃ a, rows (attempts s) !! i = Some a ∧
    at_runnerName a' = at_runnerName a ∧ awaiting a' = awaiting a ∧ attempt_ok a') as Hrow.
  { intros i a' (a & Hi & Ha')%(t_evolves_some _ _ _ _ _ Hat). exists a.
    specialize (Ha i a Hi). destruct Ha' as [->|(Hst & Hmi & id & sel & _ & ->)]; [done|].
    split_and!; try done. destruct Ha as [[] ? ?]. split; [split|..]; simpl in *; try done.
    all: rewrite ?Hst in *; naive_solver. }
  split; simpl; try done.
  - by apply Hat.
  - by apply Hxp.
  - intros i m'. rewrite Hm. intros (m & Hi & ->)%fmap_Some. by eapply host_ok_slots, Hho.
  - intros i a' (a & ? & ? & ? & ?)%Hrow. done.
  - intros i j a b (a0 & Hi & Ea & _)%Hrow (b0 & Hj & Eb & _)%Hrow E. eapply Hn; [done..|congruence].
  - intros j r (a & Hi & Haw)%Hsec.
    pose proof (te_rows _ _ _ Hat (as_attemptId r)) as Hr. rewrite Hi in Hr.
    inversion Hr as [? a' _ Ea Ea'|]. exists a'. split; [done|].
    symmetry in Ea'. apply Hrow in Ea' as (a0 & Hi' & _ & -> & _). congruence.
  - intros id Hid. rewrite Nm' in Hid. specialize (Href id Hid). revert Href.
    unfold slot_load, legacy_load. simpl. destruct (Hg Guests id) as [->|(m & Hmi & _)]; [done|].
    apply Wm in Hmi. lia.
  - intros id m'. rewrite Hm. intros (m & Hi & ->)%fmap_Some. simpl.
    specialize (Hu id m Hi). specialize (Hgrow id). lia.
  - by eapply legacy_ok_same; [apply Nm'|..].
Qed.

Lemma slots_assigned s' now : slots_exact s → assigned_run s s' now → slots_exact s'.
Proof.
  intros Hsl [(ta & tx & tm & ->) Hg Hm _ _ _] id m'. simpl in *. rewrite Hm.
  intros (m & Hi & ->)%fmap_Some. simpl. rewrite (Hsl id m Hi).
  unfold slot_load, db_load, legacy_load. simpl. lia.
Qed.
End preservation.

Lemma base_move E s s' : move E s s' → base s → base s'.
Proof.
  destruct 1 as [s s' Hc Hp|s t HE Hp| | | | | | | | | | | |]; intros Hbase.
  - eapply base_frame; [done| |done]. unfold profiles_ok. by rewrite Hp.
  - by apply (base_frame s (s <| profiles := t |>)).
  - by apply base_attempt.
  - by apply base_create.
  - by eapply base_assigned.
  - by apply base_experiment.
  - by apply base_new_experiment.
  - eapply base_machine; [done..| |done]. rewrite H0. by eapply iv_used.
  - by apply base_new_machine.
  - by eapply base_forget.
  - by eapply base_forget_experiment.
  - apply base_legacy; auto. apply H0, Hbase.
  - eapply base_machine; [done..|]. apply host_ok_slots.
  - by apply base_del_machine.
Qed.

Lemma base_moves E s s' : moves E s s' → base s → base s'.
Proof. induction 1; eauto using base_move. Qed.

(** Only the operations of the legacy queue disturb the slot counters. *)
Lemma slots_move E s s' : ¬ E EvLegacy → move E s s' → base s → slots_exact s → slots_exact s'.
Proof.
  intros HE Hmv Hbase Hsl. destruct Hmv as [s s' Hc _| | | | | | | | | | | | |]; try done.
  - unfold core in Hc. injection Hc as Em Ea Es Ex Ej Ec.
    intros id m. unfold slot_load, db_load, legacy_load. rewrite Em, Ea, Ex, Ej. apply Hsl.
  - by apply slots_attempt.
  - intros id m Hm. rewrite create_load; [by apply Hsl|done|]. injection H0 as Est Em _ _.
    unfold holds. by rewrite Est, Em.
  - by eapply slots_assigned.
  - by apply slots_experiment.
  - intros id m Hm. rewrite new_experiment_load by done. by apply Hsl.
  - by eapply slots_machine.
  - by apply slots_new_machine.
  - intros id m Hm. erewrite forget_load; [by apply Hsl|done..|]. unfold holds. by rewrite H1.
  - intros id m Hm. erewrite forget_experiment_load by done. by apply Hsl.
Qed.

Lemma inv_moves E s s' : ¬ E EvLegacy → moves E s s' → inv s → inv s'.
Proof.
  intros HE Hm. induction Hm as [|s1 s2 s3 H12 _ IH]; [done|]. intros [Hb Hs]. apply IH.
  split; [by eapply base_move|by eapply slots_move].
Qed.

Lemma moves_profiles E s s' : ¬ E EvProfile → moves E s s' → profiles s' = profiles s.
Proof.
  intros HE Hm. induction Hm as [|s1 s2 s3 H12 _ IH]; [done|]. rewrite IH. clear IH.
  destruct H12 as [| | | |s s' now _ [(ta & tx & tm & ->) _ _ _ _ _]| | | | | | | | |]; done.
Qed.
