(* ===== verification/Handlers.v ===== *)
(** Every mutation of the scale-set side of the control plane as a sequence of the moves of
    Lifecycle.v: the handlers a controller, a Worker, an operator or the scheduler can run. *)

From S2P Require Import Prelude JsLib Schema HostLabels Egress Isolation Benchmark Scheduler.
From S2P Require Import Fixtures Placement Retirement Lease ControllerApi WorkerApi Fleet.
From S2P Require Import Lifecycle.

(** ** Read-only and inert transactions *)

Section effects.
(** A transaction that reads, and one that leaves the tables of the invariant alone. *)
Definition reads {A} (m : tx db A) : Prop := ∀ s a s', m s = Done (a, s') → s' = s.
Definition inert {A} (m : tx db A) : Prop :=
  ∀ s a s', m s = Done (a, s') → core s' = core s ∧ profiles s' = profiles s.

Lemma reads_ret {A} (a : A) : reads (mret a).
Proof. by intros s a' s' [= _ <-]. Qed.
Lemma reads_read {A} (f : db → A) : reads (read f).
Proof. by intros s a' s' [= _ <-]. Qed.
Lemma reads_throw {A} msg : reads (throw (A := A) msg).
Proof. by intros s a' s'. Qed.
Lemma reads_refuse {A} c msg : reads (refuse (A := A) c msg).
Proof. by intros s a' s'. Qed.
Lemma reads_unique {D} (tbl : db → table D) P : reads (db_unique tbl P).
Proof. by intros s a s' [-> _]%db_unique_done. Qed.
Lemma reads_bind {A B} (m : tx db A) (f : A → tx db B) : reads m → (∀ a, reads (f a)) → reads (m ≫= f).
Proof. by intros Hm Hf s b s' (a & s1 & ->%Hm & ->%Hf)%bind_done. Qed.

Lemma reads_for_each {A} (l : list A) body : (∀ x, reads (body x)) → reads (for_each l body).
Proof.
  intros Hb. induction l as [|x l IH]; simpl; [apply reads_ret|]. by apply reads_bind.
Qed.

Lemma inert_reads {A} (m : tx db A) : reads m → inert m.
Proof. by intros Hm s a s' ->%Hm. Qed.
Lemma inert_bind {A B} (m : tx db A) (f : A → tx db B) : inert m → (∀ a, inert (f a)) → inert (m ≫= f).
Proof.
  intros Hm Hf s b s' (a & s1 & H1%Hm & H2%Hf)%bind_done. destruct H1, H2. split; congruence.
Qed.
Lemma inert_modify f :
  (∀ s, core (f s) = core s ∧ profiles (f s) = profiles s) → inert (modify f).
Proof. intros Hf s u s' [= _ <-]. apply Hf. Qed.

Context {D : Type} (tbl : db → table D) `{!Updater tbl}.
Hypothesis Htbl : ∀ f s, core (upd tbl f s) = core s ∧ profiles (upd tbl f s) = profiles s.

Lemma inert_patch i f : inert (db_patch tbl i f).
Proof. intros s u s' (d & _ & ->)%db_patch_done. apply Htbl. Qed.
Lemma inert_insert d : inert (db_insert tbl d).
Proof. intros s u s' [= _ <-]. apply Htbl. Qed.
Lemma inert_delete i : inert (db_delete tbl i).
Proof. intros s u s' (d & _ & ->)%db_delete_done. apply Htbl. Qed.
End effects.

Create HintDb effects discriminated.
#[export] Hint Resolve reads_ret reads_read reads_throw reads_refuse reads_unique : effects.

(** Walks over the binds and branches of a handler that does not write. *)
Ltac reads_tac :=
  repeat first
    [ by auto with effects
    | apply reads_bind; [|intros ?]
    | apply reads_for_each; intros ?
    | progress unfold db_get, db_where, db_first, when
    | case_match ].

(** The same for a handler that writes other tables only. *)
Ltac inert_tac :=
  repeat first
    [ by apply inert_reads; auto with effects
    | by apply inert_patch
    | by apply inert_insert
    | by apply inert_delete
    | by apply inert_modify
    | apply inert_bind; [|intros ?]
    | progress unfold db_get, db_where, db_first, when, run_after
    | case_match ].

Lemma reads_machineForToken token : reads (machineForToken token).
Proof. unfold machineForToken. reads_tac. Qed.
Lemma reads_profile_named n : reads (profile_named n).
Proof. unfold profile_named. reads_tac. Qed.
Lemma reads_attempt_named n : reads (attempt_named n).
Proof. unfold attempt_named. reads_tac. Qed.
Lemma reads_machineFor n : reads (machineFor n).
Proof. unfold machineFor. reads_tac. Qed.
Lemma reads_leaseFor n : reads (leaseFor n).
Proof. unfold leaseFor. reads_tac. Qed.
Lemma reads_profileFor n : reads (profileFor n).
Proof. unfold profileFor. reads_tac. Qed.
Lemma reads_readinessFor m n : reads (readinessFor m n).
Proof. unfold readinessFor. reads_tac. Qed.
#[export] Hint Resolve reads_machineForToken reads_profile_named reads_attempt_named
  reads_machineFor reads_leaseFor reads_profileFor reads_readinessFor : effects.
Lemma reads_claimEgress n : reads (claimEgress n).
Proof. unfold claimEgress. reads_tac. Qed.
Lemma reads_authorizeController p c now : reads (authorizeController p c now).
Proof. unfold authorizeController. cbv zeta. reads_tac. Qed.
#[export] Hint Resolve reads_claimEgress reads_authorizeController : effects.
Lemma reads_authorize p c now : reads (authorize p c now).
Proof. unfold authorize. reads_tac. Qed.
Lemma reads_requireControllerToken c : reads (requireControllerToken c).
Proof. unfold requireControllerToken. reads_tac. Qed.
Lemma reads_authorizeStandbyReport p c : reads (authorizeStandbyReport p c).
Proof. unfold authorizeStandbyReport. reads_tac. Qed.
#[export] Hint Resolve reads_authorize reads_requireControllerToken reads_authorizeStandbyReport : effects.
Lemma reads_introduced e v : reads (introducedLabelConflicts e v).
Proof. unfold introducedLabelConflicts. reads_tac. Qed.
Lemma reads_assertReadiness st e f w p : reads (assertReadinessContract st e f w p).
Proof. unfold assertReadinessContract. reads_tac. Qed.
Lemma reads_normalizeBenchmark r now : reads (normalizeBenchmark r now).
Proof.
  unfold normalizeBenchmark, validateBenchmarkReport, check_observation, boundedNumber. reads_tac.
Qed.
#[export] Hint Resolve reads_introduced reads_assertReadiness reads_normalizeBenchmark : effects.

(** ** The shared steps of the handlers *)

Lemma db_eta (s : db) :
  Db (machines s) (profiles s) (attempts s) (attemptSecrets s) (attemptEgress s) (experiments s)
    (workerReadiness s) (readinessEvidence s) (benchmarkEvidence s) (controllerLeases s)
    (controllerHeartbeats s) (jobs s) (commands s) (runnerDeletions s) (registrationTokens s)
    (webhookDeliveries s) (webhookRecovery s) (webhookRecoveryState s) (scheduled s) = s.
Proof. by destruct s. Qed.

Lemma releaseMachineSlot_run m s :
  releaseMachineSlot m s = Done (tt, s <| machines ::= release_slot m |>).
Proof.
  unfold releaseMachineSlot, release_slot. destruct m as [id|]; [|by destruct s].
  unfold mbind, tx_bind. simpl. destruct (rows (machines s) !! id) as [d|] eqn:E; [|by destruct s].
  unfold db_patch. by rewrite E.
Qed.

Lemma deleteAttemptSecret_done i s u s' :
  deleteAttemptSecret i s = Done (u, s') → s' = s <| attemptSecrets ::= drop_secret i |>.
Proof.
  unfold deleteAttemptSecret, drop_secret. intros H. tx_bind_in H r s1 H1.
  apply db_unique_done in H1 as [-> Hr]. destruct r as [r|].
  - apply db_delete_done in H as (d & _ & ->). simpl. by rewrite Hr.
  - injection H as _ <-. simpl. rewrite Hr. by destruct s.
Qed.

(** Under the invariant the handlers' look-ups find one row and never throw. *)
Lemma attempt_named_total s i a :
  base s → rows (attempts s) !! i = Some a → attempt_named (at_runnerName a) s = Done (Some (i, a), s).
Proof.
  intros Hbase Hi. unfold attempt_named, db_unique.
  rewrite (t_where_singleton _ (attempts s) i a); [done|apply Hbase|done|by rewrite bool_decide_true|].
  intros j b Hj Hb%bool_decide_eq_true. by eapply (iv_names _ Hbase).
Qed.

Definition secret_once (s : db) : Prop := ∀ j k r q, rows (attemptSecrets s) !! j = Some r →
  rows (attemptSecrets s) !! k = Some q → as_attemptId r = as_attemptId q → j = k.

Lemma deleteAttemptSecret_total i s :
  secret_once s → deleteAttemptSecret i s = Done (tt, s <| attemptSecrets ::= drop_secret i |>).
Proof.
  intros Honce. destruct (deleteAttemptSecret i s) as [[[] s']|e] eqn:E.
  { by rewrite <- (deleteAttemptSecret_done _ _ _ _ E). }
  exfalso. revert E. unfold deleteAttemptSecret, mbind, tx_bind, db_unique.
  destruct (secret_rows_unique (attemptSecrets s) i Honce) as [Hw|[r Hw]]; rewrite Hw; [done|].
  destruct (t_where_sound (attemptSecrets s) (λ r, as_attemptId r === i) r) as [Hr _]; [rewrite Hw; left|].
  unfold db_delete. by rewrite Hr.
Qed.

Lemma db_patch_total {D} (tbl : db → table D) `{!Updater tbl} i d f s :
  rows (tbl s) !! i = Some d → db_patch tbl i f s = Done (tt, upd tbl (t_set i (f d)) s).
Proof. intros Hi. unfold db_patch. by rewrite Hi. Qed.

Section derived_moves.
Context (E : event → Prop) (s : db) (i : Id) (a a' : attempt).
Context (Hi : rows (attempts s) !! i = Some a) (Hid : same_identity a a').
Context (Hmv : attempt_moves E a a') (Hok : attempt_ok a → attempt_ok a').

Lemma freed_same h : freed h h = None.
Proof. by destruct h. Qed.

Lemma mv_keep :
  holds a' = holds a → (awaiting a = true → awaiting a' = true) →
  move E s (s <| attempts ::= t_set i a' |>).
Proof.
  intros Hh Haw. pose proof (MvAttempt E s i a a' false Hi Hid Hmv Hok (or_introl Hh) (λ _, Haw)) as H.
  rewrite Hh, freed_same in H. exact H.
Qed.

Lemma mv_drop :
  holds a' = holds a →
  move E s (s <| attemptSecrets ::= drop_secret i |> <| attempts ::= t_set i a' |>).
Proof.
  intros Hh. pose proof (MvAttempt E s i a a' true Hi Hid Hmv Hok (or_introl Hh)) as H.
  rewrite Hh, freed_same in H. apply H. done.
Qed.

Lemma mv_end :
  terminal (at_state a) = false → holds a' = None →
  move E s (s <| machines ::= release_slot (at_machineId a) |> <| attemptSecrets ::= drop_secret i |>
              <| attempts ::= t_set i a' |>).
Proof.
  intros Ht Hh. pose proof (MvAttempt E s i a a' true Hi Hid Hmv Hok (or_intror Hh)) as H.
  rewrite Hh in H. unfold freed, holds in H. rewrite Ht in H. apply H. done.
Qed.

Lemma mv_requeue :
  terminal (at_state a) = false → holds a' = None → (awaiting a = true → awaiting a' = true) →
  move E s (s <| machines ::= release_slot (at_machineId a) |> <| attempts ::= t_set i a' |>).
Proof.
  intros Ht Hh Haw. pose proof (MvAttempt E s i a a' false Hi Hid Hmv Hok (or_intror Hh) (λ _, Haw)) as H.
  rewrite Hh in H. unfold freed, holds in H. rewrite Ht in H. exact H.
Qed.
End derived_moves.

(** A step of the life cycle keeps an Attempt well formed, given what it does to the JIT config
    and the finish time. *)
Lemma attempt_ok_step E a a' :
  attempt_moves E a a' → (awaiting a' = false → at_jitConfig a' = None ∨
    awaiting a = false ∧ at_jitConfig a' = at_jitConfig a) →
  (terminal (at_state a') = true → is_some (at_finishedAt a') = true ∨
    terminal (at_state a) = true ∧ at_finishedAt a' = at_finishedAt a) →
  attempt_ok a → attempt_ok a'.
Proof.
  intros Hmv Hj Hf [Hp Hjit Hfin]. split.
  - destruct Hmv as [->|(e & _ & Hg & Hl)]; [done|]. by eapply lifecycle_ok.
  - intros Haw. destruct (Hj Haw) as [?|[? ->]]; auto.
  - intros Ht. destruct (Hf Ht) as [?|[? ->]]; auto.
Qed.

Lemma inert_moves E {A} (m : tx db A) s a s' : inert m → m s = Done (a, s') → moves E s s'.
Proof.
  intros Hm [Hc Hp]%Hm. by apply rtc_once, MvFrame.
Qed.

Lemma inert_run_after c : inert (run_after c).
Proof. inert_tac. Qed.

(** ** Handlers as moves: ending Attempts *)

Definition only_row (i : Id) (s s' : db) : Prop :=
  ∀ j, j ≠ i → rows (attempts s') !! j = rows (attempts s) !! j.

Lemma only_row_refl i s : only_row i s s.
Proof. done. Qed.

Lemma only_row_set i a s s' : attempts s' = t_set i a (attempts s) → only_row i s s'.
Proof. intros E j Hj. rewrite E. simpl. by rewrite lookup_insert_ne. Qed.

(** Discharges the side conditions of a move on concrete patches. *)
Ltac phase_tac :=
  unfold awaiting, holds, phase_of, same_identity, retire_guard in *; simpl in *; simplify_eq/=;
  repeat match goal with H : at_state _ = _ |- _ => rewrite H in * end; simpl in *;
  try done; try naive_solver.

Lemma online_live st : runnerMayBeOnline st = true → terminal st = false.
Proof. by destruct st. Qed.

(** Names the row a patch wrote. *)
Ltac name_patched x :=
  lazymatch goal with |- context [upd attempts (t_set _ ?r) _] => set (x := r) end.

Section ending.
Context (E : event → Prop).

Lemma retireAttempt_moves i a o reason now s b s' :
  E EvRetire → rows (attempts s) !! i = Some a → is_some (at_machineId a) = true →
  retireAttempt i a o reason now s = Done (b, s') → moves E s s' ∧ only_row i s s'.
Proof.
  intros HE Hi Hm. unfold retireAttempt. destruct (runnerMayBeOnline (at_state a)) eqn:Hon; simpl; [|done].
  destruct (at_retirement a) as [r|] eqn:Hr; simpl.
  { intros [= _ <-]. split; [apply rtc_refl|apply only_row_refl]. }
  intros H. tx_bind_in H u s1 H1. apply deleteAttemptSecret_done in H1 as ->.
  tx_bind_in H u2 s2 H2. injection H as _ <-. apply db_patch_done in H2 as (d & Hd & ->).
  simpl in Hd. simplify_eq. split; [|by eapply only_row_set].
  assert (attempt_moves E a (a <| at_jitConfig := None |> <| at_runnerCleanupPending := Some true |>
    <| at_retirement := Some (Retirement o (slice0 500 reason) now) |>)) as Hmv.
  { right. exists EvRetire. split_and!; [done|by intros ?|]. unfold phase_of. simpl. rewrite Hr. by constructor. }
  apply rtc_once, mv_drop with a; try done.
  apply (attempt_ok_step E); [done|by left|]. simpl. by rewrite (online_live _ Hon).
Qed.

Lemma finishRetirement_moves i a (unconfirmed : bool) now s u s' :
  E (if unconfirmed then EvBackstop else EvConfirm) → rows (attempts s) !! i = Some a →
  runnerMayBeOnline (at_state a) = true →
  finishRetirement i a unconfirmed now s = Done (u, s') → moves E s s' ∧ only_row i s s'.
Proof.
  intros HE Hi Hon. unfold finishRetirement. destruct (at_retirement a) as [r|] eqn:Hr; [|done].
  unfold releaseAttemptSlot. intros H. tx_bind_in H u1 s1 H1. rewrite releaseMachineSlot_run in H1.
  injection H1 as _ <-. tx_bind_in H u2 s2 H2. apply deleteAttemptSecret_done in H2 as ->.
  apply db_patch_done in H as (d & Hd & ->). simpl in Hd. simplify_eq.
  split; [|by eapply only_row_set].
  set (a' := set_end_reason _ _ _).
  assert (attempt_moves E a a') as Hmv.
  { right. eexists. split_and!; [exact HE|by destruct unconfirmed; intros ?|]. unfold phase_of, a'.
    pose proof (lc_confirm (at_state a) (at_machineId a) (rt_outcome r)
      (at_runnerCleanupPending a === Some true) Hon) as Hc.
    pose proof (lc_backstop (at_state a) (at_machineId a) (rt_outcome r)
      (at_runnerCleanupPending a === Some true) Hon) as Hb.
    rewrite Hr. simpl. by destruct unconfirmed, (rt_outcome r). }
  apply rtc_once, mv_end; try done.
  - unfold a'. by destruct (rt_outcome r).
  - apply (attempt_ok_step E); [done|..]; unfold a'; destruct (rt_outcome r); by left.
  - by apply online_live.
  - unfold a', holds. by destruct (rt_outcome r).
Qed.

Lemma cancelUnclaimedAttempt_moves i a reason now s u s' :
  E EvCancel → rows (attempts s) !! i = Some a →
  cancelUnclaimedAttempt i a reason now s = Done (u, s') → moves E s s' ∧ only_row i s s'.
Proof.
  intros HE Hi. unfold cancelUnclaimedAttempt. case_bool_decide as Hst; simpl; [|done].
  unfold releaseAttemptSlot. intros H. tx_bind_in H u1 s1 H1. rewrite releaseMachineSlot_run in H1.
  injection H1 as _ <-. tx_bind_in H u2 s2 H2. apply deleteAttemptSecret_done in H2 as ->.
  apply db_patch_done in H as (d & Hd & ->). simpl in Hd. simplify_eq.
  split; [|by eapply only_row_set].
  name_patched a'.
  assert (attempt_moves E a a') as Hmv.
  { right. exists EvCancel. split_and!; [done|by intros ?|]. unfold phase_of. simpl. rewrite Hst. constructor. }
  apply rtc_once, mv_end; try done.
  - apply (attempt_ok_step E); [done|by left..].
  - by rewrite Hst.
Qed.

Lemma keepForReturningWorker_moves i a s b s' :
  E EvKeep → rows (attempts s) !! i = Some a →
  keepForReturningWorker i a s = Done (b, s') → moves E s s' ∧ only_row i s s'.
Proof.
  intros HE Hi. unfold keepForReturningWorker. case_bool_decide as Hst; simpl.
  2:{ intros [= _ <-]. split; [apply rtc_refl|apply only_row_refl]. }
  destruct (at_retirement a) as [r|] eqn:Hr; simpl.
  2:{ intros [= _ <-]. split; [apply rtc_refl|apply only_row_refl]. }
  intros H. tx_bind_in H u s1 H1. injection H as _ <-. apply db_patch_done in H1 as (d & Hd & ->).
  simplify_eq. split; [|by eapply only_row_set].
  assert (attempt_moves E a (clear_retirement a)) as Hmv.
  { right. exists EvKeep. split_and!; [done|by intros ?|]. unfold phase_of. simpl. rewrite Hst, Hr. constructor. }
  apply rtc_once, (mv_keep E s i a); try done.
  - apply (attempt_ok_step E); [done|..].
    + right. unfold awaiting. by rewrite Hst, Hr.
    + simpl. by rewrite Hst.
  - unfold awaiting. by rewrite Hst, Hr.
Qed.

(** A placed Attempt that no Worker claimed goes back to the queue. *)
Lemma requeue_moves i a s :
  E EvRequeue → rows (attempts s) !! i = Some a → at_state a = Pending → is_some (at_machineId a) = true →
  moves E s (s <| machines ::= release_slot (at_machineId a) |>
    <| attempts ::= t_set i (a <| at_machineId := None |> <| at_selectionReason := None |>) |>).
Proof.
  intros HE Hi Hst Hm.
  assert (attempt_moves E a (a <| at_machineId := None |> <| at_selectionReason := None |>)) as Hmv.
  { right. exists EvRequeue. split_and!; [done|by intros ?|]. unfold phase_of. simpl. rewrite Hst.
    destruct (at_machineId a); [constructor|done]. }
  apply rtc_once, mv_requeue; try done.
  - intros Ha. pose proof Ha as [_ Hj _]. revert Ha.
    apply (attempt_ok_step E); [done|..]; simpl.
    + intros Haw. left. by apply Hj.
    + by rewrite Hst.
  - by rewrite Hst.
  - unfold holds. simpl. by rewrite Hst.
Qed.
End ending.

(** ** Loops over rows read at their start *)

Lemma fold_rows {D B} (tbl : db → table D) (I : B → db → Prop) (body : B → Id * D → tx db B) l :
  NoDup l.*1 →
  (∀ b r s b' s', r ∈ l → I b s → rows (tbl s) !! r.1 = Some r.2 → body b r s = Done (b', s') →
    I b' s' ∧ ∀ j, j ≠ r.1 → rows (tbl s') !! j = rows (tbl s) !! j) →
  ∀ b s b' s', I b s → (∀ r, r ∈ l → rows (tbl s) !! r.1 = Some r.2) →
  fold_tx body b l s = Done (b', s') → I b' s'.
Proof.
  intros Hnd Hbody. induction l as [|r l IH]; simpl; intros b s b' s' HI Hl; [by intros [= <- <-]|].
  apply NoDup_cons in Hnd as [Hr Hnd]. intros H. tx_bind_in H b1 s1 H1.
  destruct (Hbody b r s b1 s1) as [HI1 Ho]; [left|done|apply Hl; left|done|].
  eapply IH; [done| |done| |done].
  - intros. eapply Hbody; [by right|done..].
  - intros q Hq. rewrite Ho; [apply Hl; by right|].
    intros Eq. apply Hr. rewrite <- Eq. by apply list_elem_of_fmap_2.
Qed.

(** The rows of a range, as the loop over them finds them. *)
Lemma range_rows P s :
  NoDup (t_where P (attempts s)).*1 ∧
  ∀ r, r ∈ t_where P (attempts s) → rows (attempts s) !! r.1 = Some r.2 ∧ P r.2 = true.
Proof. split; [apply NoDup_t_where_ids|apply t_where_sound]. Qed.

Section loops.
Context (E : event → Prop).

Lemma moves_trans s1 s2 s3 : moves E s1 s2 → moves E s2 s3 → moves E s1 s3.
Proof. exact (rtc_trans s1 s2 s3). Qed.

Lemma fold_moves {A B} (body : B → A → tx db B) l :
  (∀ b x s b' s', body b x s = Done (b', s') → moves E s s') →
  ∀ b s b' s', fold_tx body b l s = Done (b', s') → moves E s s'.
Proof.
  intros Hb. induction l as [|x l IH]; simpl; intros b s b' s' H; [injection H as _ <-; apply rtc_refl|].
  tx_bind_in H b1 s1 H1. eapply moves_trans; [by eapply Hb|by eapply IH].
Qed.

Lemma retireIfOffPin_moves i a p m tally now s b s' :
  E EvRetire → E EvRequeue → rows (attempts s) !! i = Some a → is_some (at_machineId a) = true →
  retireIfOffPin i a p m tally now s = Done (b, s') → moves E s s' ∧ only_row i s s'.
Proof.
  intros HR HQ Hi Hm. unfold retireIfOffPin.
  destruct p as [p|]; [|intros [= _ <-]; split; [apply rtc_refl|done]].
  destruct m as [m|]; [|intros [= _ <-]; split; [apply rtc_refl|done]].
  destruct (missingHostLabels _ _) as [|x l]; [intros [= _ <-]; split; [apply rtc_refl|done]|].
  case_bool_decide as Hst; intros H.
  - tx_bind_in H u1 s1 H1. unfold releaseAttemptSlot in H1. rewrite releaseMachineSlot_run in H1.
    injection H1 as _ <-. tx_bind_in H u2 s2 H2. injection H as _ <-.
    apply db_patch_done in H2 as (d & Hd & ->). simpl in Hd. simplify_eq.
    split; [by apply requeue_moves|by eapply only_row_set].
  - tx_bind_in H st s1 H1. injection H as _ <-. by eapply retireAttempt_moves.
Qed.

Lemma retireOffPinOnWorker_moves mid m now s b s' :
  E EvRetire → E EvRequeue → retireOffPinOnWorker mid m now s = Done (b, s') → moves E s s'.
Proof.
  intros HR HQ. apply fold_moves. clear s b s'. intros t0 st s t1 s' H1.
  tx_bind_in H1 l s2 Hl. injection Hl as <- <-.
  destruct (range_rows (λ a, (at_machineId a === Some mid) && (at_state a === st)) s) as [Hnd Hrows].
  eapply (fold_rows attempts (λ _ s', moves E s s')); [exact Hnd| |apply rtc_refl|intros r Hr; by apply Hrows|exact H1].
  intros b0 r s2 b2 s3 Hr Hs2 Hrow H. tx_bind_in H p s4 Hp. apply reads_profile_named in Hp as ->.
  apply Hrows in Hr as [_ [Hmid _]%andb_true_iff]. apply bool_decide_eq_true in Hmid.
  eapply retireIfOffPin_moves in H as [? ?]; [|done..|by rewrite Hmid].
  split; [by eapply moves_trans|done].
Qed.

Lemma retireOffPinForProfile_moves p now s b s' :
  E EvRetire → E EvRequeue → retireOffPinForProfile p now s = Done (b, s') → moves E s s'.
Proof.
  intros HR HQ. unfold retireOffPinForProfile.
  destruct (pf_workerLabels p) as [[|x l]|]; [by intros [= _ <-]; apply rtc_refl| |by intros [= _ <-]; apply rtc_refl].
  apply fold_moves. clear s b s'. intros t0 st s t1 s' H1.
  tx_bind_in H1 q s2 Hl. injection Hl as <- <-.
  destruct (range_rows (λ a, (at_profile a === pf_name p) && (at_state a === st)) s) as [Hnd Hrows].
  eapply (fold_rows attempts (λ _ s', moves E s s')); [exact Hnd| |apply rtc_refl|intros r Hr; by apply Hrows|exact H1].
  intros b0 r s2 b2 s3 Hr Hs2 Hrow H. cbn beta in H. destruct (at_machineId r.2) as [mid|] eqn:Hmid.
  2:{ injection H as _ <-. split; [done|apply only_row_refl]. }
  tx_bind_in H mm s4 Hp. injection Hp as _ <-.
  eapply retireIfOffPin_moves in H as [? ?]; [|done..|by rewrite Hmid].
  split; [by eapply moves_trans|done].
Qed.

Lemma keepRunning_moves mid s b s' :
  E EvKeep → keepRunningAttemptsOfReturningWorker mid s = Done (b, s') → moves E s s'.
Proof.
  intros HK. unfold keepRunningAttemptsOfReturningWorker. intros H. tx_bind_in H l s1 Hl.
  injection Hl as <- <-.
  destruct (range_rows (λ a, (at_machineId a === Some mid) && (at_state a === Running)) s) as [Hnd Hrows].
  eapply (fold_rows attempts (λ _ s', moves E s s')); [exact Hnd| |apply rtc_refl|intros r Hr; by apply Hrows|exact H].
  intros b0 r s2 b2 s3 Hr Hs2 Hrow H0. tx_bind_in H0 k s4 Hk. injection H0 as _ <-.
  eapply keepForReturningWorker_moves in Hk as [? ?]; [|done..].
  split; [by eapply moves_trans|done].
Qed.
End loops.

(** ** The controller's operations *)

Lemma attempt_named_done n s r s' :
  attempt_named n s = Done (r, s') →
  s' = s ∧ match r with
           | Some (i, a) => rows (attempts s) !! i = Some a ∧ at_runnerName a = n
           | None => t_wf (attempts s) → ∀ i a, rows (attempts s) !! i = Some a → at_runnerName a ≠ n
           end.
Proof.
  unfold attempt_named. intros H. pose proof H as [-> Hr]%db_unique_done. split; [done|].
  destruct r as [[i a]|].
  - destruct (t_where_sound (attempts s) (λ a, at_runnerName a === n) (i, a)) as [Hi Hn];
      [rewrite Hr; left|]. by apply bool_decide_eq_true in Hn.
  - intros Hwf i a Hi E. apply (unique_row attempts _ _ _ _ Hwf) in H as [_ H].
    specialize (H i a Hi). by rewrite bool_decide_true in H.
Qed.

Section controller.
Context (E : event → Prop).

Lemma createAttempt_moves a c now s u s' :
  base s → createAttempt a c now s = Done (u, s') → moves E s s'.
Proof.
  intros Hbase H. unfold createAttempt in H. tx_bind_in H u1 s1 H1. apply reads_authorize in H1 as ->.
  tx_bind_in H p s1 H1. apply reads_profile_named in H1 as ->. cbv zeta in H.
  destruct (match p with Some _ => _ | None => _ end); [done|].
  tx_bind_in H e s1 H1. apply attempt_named_done in H1 as [-> He]. destruct e as [[i e]|].
  { case_match; [|done]. injection H as _ <-. apply rtc_refl. }
  tx_bind_in H i s1 H1. injection H1 as <- <-. tx_bind_in H j s2 H2. injection H2 as _ <-.
  eapply moves_trans; [|by eapply inert_moves; [apply inert_run_after|]].
  apply rtc_once. eapply MvCreate; [|done..]. intros k b Hk. apply He in Hk; [done|apply Hbase].
Qed.

Lemma cancelAttempt_moves profile n reason c now s u s' :
  E EvCancel → E EvRetire → base s →
  cancelAttempt profile n reason c now s = Done (u, s') → moves E s s'.
Proof.
  intros HC HR Hbase H. unfold cancelAttempt in H. tx_bind_in H u1 s1 H1. apply reads_authorize in H1 as ->.
  tx_bind_in H e s1 H1. apply attempt_named_done in H1 as [-> He].
  destruct e as [[i a]|]; [|injection H as _ <-; apply rtc_refl]. destruct He as [Hi _].
  destruct (at_profile a !== profile); simpl in H; [injection H as _ <-; apply rtc_refl|].
  destruct (terminal (at_state a)) eqn:Ht; [injection H as _ <-; apply rtc_refl|].
  case_bool_decide as Hrun; [done|]. tx_bind_in H en s1 H1. unfold endIdleAttempt in H1.
  case_bool_decide as Hp; tx_bind_in H1 u2 s2 H2; injection H1 as <- <-.
  - eapply cancelUnclaimedAttempt_moves in H2 as [Hm _]; [|done..].
    eapply moves_trans; [done|]. by eapply inert_moves; [apply inert_run_after|].
  - injection H as _ <-. eapply retireAttempt_moves in H2 as [Hm _]; [done..|].
    destruct (iv_attempts _ Hbase i a Hi) as [[_ Hx] _ _]. simpl in Hx.
    apply Hx. destruct (at_state a); naive_solver.
Qed.

Lemma started_patch_keep m a now :
  same_identity a (started_patch m a now a) ∧ at_state (started_patch m a now a) = Running ∧
  at_machineId (started_patch m a now a) = at_machineId a ∧
  at_jitConfig (started_patch m a now a) = at_jitConfig a ∧
  at_retirement (started_patch m a now a) =
    (if at_state a === Running then at_retirement a else None) ∧
  at_runnerCleanupPending (started_patch m a now a) =
    (if (at_state a === Running) || is_none (at_retirement a) then at_runnerCleanupPending a else None).
Proof.
  unfold started_patch, keepForJob, same_identity.
  case_bool_decide; destruct (at_retirement a) eqn:E0; simpl; rewrite ?E0; done.
Qed.

Lemma markJobStarted_moves m c now s u s' :
  E EvStart → markJobStarted m c now s = Done (u, s') → moves E s s'.
Proof.
  intros HS H. unfold markJobStarted in H. tx_bind_in H u1 s1 H1. apply reads_authorize in H1 as ->.
  tx_bind_in H e s1 H1. apply attempt_named_done in H1 as [-> He]. destruct e as [[i a]|]; [|done].
  destruct He as [Hi _]. case_bool_decide; simpl in H; [|done].
  destruct (terminal (at_state a)) eqn:Ht.
  - unfold when in H. case_match; [|injection H as _ <-; apply rtc_refl].
    apply db_patch_done in H as (d & Hd & ->). simplify_eq.
    apply rtc_once, (mv_keep E s i a); try done; [by left|]. intros []. by split.
  - apply db_patch_done in H as (d & Hd & ->). simplify_eq.
    destruct (started_patch_keep m a now) as (Hid & Hst & Hmc & Hj & Hr & Hcl).
    set (a' := started_patch m a now a) in *.
    assert (attempt_moves E a a') as Hmv.
    { unfold attempt_moves, phase_of. rewrite Hst, Hmc, Hr, Hcl. case_bool_decide as Hrun; simpl.
      - left. by rewrite Hrun.
      - right. exists EvStart. split_and!; [done|by intros ?|].
        pose proof (lc_start (at_state a) (at_machineId a) (rt_outcome <$> at_retirement a)
          (at_runnerCleanupPending a === Some true) Ht Hrun) as Hl.
        destruct (at_retirement a); exact Hl. }
    apply rtc_once, (mv_keep E s i a); try done.
    + apply (attempt_ok_step E); [done|..].
      * intros Haw. right. split; [|done]. revert Haw. unfold awaiting. rewrite Hst, Hr.
        case_bool_decide as Hrun; [by rewrite Hrun|done].
      * by rewrite Hst.
    + unfold holds. by rewrite Hst, Hmc, Ht.
    + unfold awaiting. rewrite Hst, Hr. case_bool_decide as Hrun; [by rewrite Hrun|done].
Qed.

Lemma markJobCompleted_moves m c now s u s' :
  E EvComplete → markJobCompleted m c now s = Done (u, s') → moves E s s'.
Proof.
  intros HC H. unfold markJobCompleted in H. tx_bind_in H u1 s1 H1. apply reads_authorize in H1 as ->.
  tx_bind_in H e s1 H1. apply attempt_named_done in H1 as [-> He]. destruct e as [[i a]|]; [|done].
  destruct He as [Hi _]. case_bool_decide; simpl in H; [|done].
  tx_bind_in H u2 s2 H2. tx_bind_in H u3 s3 H3. apply deleteAttemptSecret_done in H3 as ->.
  tx_bind_in H u4 s4 H4. apply db_patch_done in H4 as (d & Hd & ->).
  eapply moves_trans; [|by eapply inert_moves; [apply inert_run_after|]]. clear H.
  assert (attempt_moves E a (completed_patch m a)) as Hmv.
  { right. exists EvComplete. split_and!; [done|by intros ?|]. constructor. }
  assert (attempt_ok a → attempt_ok (completed_patch m a)) as Hok
    by (apply (attempt_ok_step E); [done|by left..]).
  unfold when in H2. destruct (terminal (at_state a)) eqn:Ht; simpl in H2.
  - injection H2 as _ <-. simpl in Hd. simplify_eq. apply rtc_once, mv_drop with a; try done.
    unfold holds. simpl. by rewrite Ht.
  - unfold releaseAttemptSlot in H2. rewrite releaseMachineSlot_run in H2. injection H2 as _ <-.
    simpl in Hd. simplify_eq. by apply rtc_once, mv_end.
Qed.

Lemma completeRunnerCleanup_moves profile n rid c now s b s' :
  E EvConfirm → E EvCleaned → completeRunnerCleanup profile n rid c now s = Done (b, s') → moves E s s'.
Proof.
  intros HF HC H. unfold completeRunnerCleanup in H. tx_bind_in H u1 s1 H1. apply reads_authorize in H1 as ->.
  tx_bind_in H e s1 H1. apply attempt_named_done in H1 as [-> He].
  destruct e as [[i a]|]; [|injection H as _ <-; apply rtc_refl]. destruct He as [Hi _].
  destruct (_ || _); [injection H as _ <-; apply rtc_refl|].
  case_bool_decide as Hp; simpl in H; [|injection H as _ <-; apply rtc_refl].
  destruct (isRetiring a) eqn:Hret.
  - tx_bind_in H u2 s2 H2. tx_bind_in H u3 s3 H3. injection H as _ <-.
    apply andb_true_iff in Hret as [_ Hon]. eapply (finishRetirement_moves E _ _ false) in H2 as [? _]; [|done..].
    eapply moves_trans; [done|]. by eapply inert_moves; [apply inert_run_after|].
  - tx_bind_in H u2 s2 H2. injection H as _ <-. apply db_patch_done in H2 as (d & Hd & ->). simplify_eq.
    assert (attempt_moves E a (clear_retirement a)) as Hmv.
    { right. exists EvCleaned. split_and!; [done|by intros ?|].
      apply (lc_cleaned _ _ _ _). unfold isRetiring in Hret. by destruct (at_retirement a). }
    apply rtc_once, (mv_keep E s i a); try done.
    + intros Ha. pose proof Ha as [_ Hj _]. revert Ha. apply (attempt_ok_step E); [done|..].
      * intros Haw. left. apply Hj. revert Haw. unfold awaiting. simpl. by destruct (at_state a), (at_retirement a).
      * intros. by right.
    + unfold awaiting. simpl. by destruct (at_state a).
Qed.
End controller.

(** ** Profiles, heartbeats and leases *)

Lemma profiles_move E (f : table profile → table profile) s :
  E EvProfile → (profiles_ok s → profiles_ok (s <| profiles ::= f |>)) → moves E s (s <| profiles ::= f |>).
Proof. intros HE Hp. by apply rtc_once, MvProfiles. Qed.

Lemma profiles_ok_set s i p : 0 < pf_vcpus p ∧ 0 < pf_memoryMiB p →
  profiles_ok s → profiles_ok (s <| profiles ::= t_set i p |>).
Proof. intros Hp Hs j q. simpl. rewrite lookup_insert_Some. intros [[<- <-]|[_ Hj]]; eauto. Qed.

Lemma profiles_ok_add s p : 0 < pf_vcpus p ∧ 0 < pf_memoryMiB p →
  profiles_ok s → profiles_ok (s <| profiles ::= t_add p |>).
Proof. intros Hp Hs j q. simpl. rewrite lookup_insert_Some. intros [[<- <-]|[_ Hj]]; eauto. Qed.

Lemma registerProfile_moves E a c now s r s' :
  E EvProfile → E EvRetire → E EvRequeue → 0 < ra_vcpus a ∧ 0 < ra_memoryMiB a →
  registerProfile a c now s = Done (r, s') → moves E s s'.
Proof.
  intros HP HR HQ Hpos H. unfold registerProfile in H. tx_bind_in H u1 s1 H1. apply reads_authorize in H1 as ->.
  tx_bind_in H u2 s1 H2.
  assert (s1 = s) as -> by (destruct c; [by apply reads_requireControllerToken in H2|by injection H2]).
  tx_bind_in H old s1 H1. apply reads_profile_named in H1 as ->. cbv zeta in H.
  tx_bind_in H cf s1 H1. apply reads_introduced in H1 as ->.
  destruct (cf.1) as [|x l]; [|injection H as _ <-; apply rtc_refl].
  tx_bind_in H pid s1 H1. tx_bind_in H u3 s2 H3. injection H as _ <-.
  assert (moves E s s1) as Hm1.
  { destruct old as [[i p]|].
    - tx_bind_in H1 u4 s3 H4. injection H1 as _ <-. apply db_patch_done in H4 as (d & _ & ->).
      by apply (profiles_move E), profiles_ok_set.
    - injection H1 as _ <-. by apply (profiles_move E), profiles_ok_add. }
  eapply moves_trans; [exact Hm1|]. unfold when in H3.
  destruct (_ !== _); [|injection H3 as _ <-; apply rtc_refl].
  tx_bind_in H3 sp s3 H4. injection H4 as _ <-. tx_bind_in H3 u4 s4 H4.
  eapply moves_trans; [|by eapply inert_moves; [apply inert_run_after|]].
  destruct sp as [p|]; [|injection H4 as _ <-; apply rtc_refl].
  tx_bind_in H4 u5 s5 H5. injection H4 as _ <-. by eapply retireOffPinForProfile_moves.
Qed.

Lemma pauseProfile_moves E n c now s r s' :
  E EvProfile → pauseProfile n c now s = Done (r, s') → moves E s s'.
Proof.
  intros HP H. unfold pauseProfile in H. tx_bind_in H u1 s1 H1.
  assert (s1 = s) as ->.
  { destruct c; [|by injection H1]. tx_bind_in H1 u2 s2 H2. apply reads_authorize in H2 as ->.
    by apply reads_requireControllerToken in H1. }
  tx_bind_in H old s1 H2. unfold profile_named in H2. apply db_unique_done in H2 as [-> Hr].
  destruct old as [[i p]|]; [|injection H as _ <-; apply rtc_refl].
  tx_bind_in H u2 s2 H2. injection H as _ <-. unfold when in H2.
  destruct (_ !== _); [|injection H2 as _ <-; apply rtc_refl].
  apply db_patch_done in H2 as (d & Hd & ->). apply profiles_move; [done|]. intros Hok.
  apply profiles_ok_set; [|done]. simpl. by apply (Hok i).
Qed.

Lemma inert_recordHeartbeat a c now : inert (recordHeartbeat a c now).
Proof. unfold recordHeartbeat, authorize_report. inert_tac. Qed.

Lemma inert_acquire args now : inert (acquire args now).
Proof. unfold acquire, candidacy_of, acquire_lease, grant_lease. cbv zeta. inert_tac. Qed.

Lemma inert_renew p i c now : inert (renew p i c now).
Proof. unfold renew. cbv zeta. inert_tac. Qed.

Lemma inert_release p i c now : inert (release p i c now).
Proof. unfold release. inert_tac. Qed.

Lemma inert_reportReadiness token a now : inert (reportReadiness token a now).
Proof. unfold reportReadiness. cbv zeta. inert_tac. Qed.

Lemma inert_store_egress i m a e now : inert (store_egress i m a e now).
Proof. unfold store_egress. cbv zeta. inert_tac. Qed.

(** ** The Worker's operations *)

Lemma machineForToken_done token s r s' :
  machineForToken token s = Done (r, s') →
  s' = s ∧ rows (machines s) !! r.1 = Some r.2 ∧ mc_token r.2 = token.
Proof.
  unfold machineForToken. intros H. tx_bind_in H q s1 H1. apply db_unique_done in H1 as [-> Hq].
  destruct q as [q|]; [|done]. injection H as <- <-. split; [done|].
  destruct (t_where_sound (machines s) (λ m, mc_token m === token) q) as [Hi Hn]; [rewrite Hq; left|].
  by apply bool_decide_eq_true in Hn.
Qed.

(** What a committed claim did: nothing, or it handed out the JIT config. *)
Lemma claimAttempt_run token i now s r s' :
  claimAttempt token i now s = Done (r, s') →
  r = None ∧ s' = s ∨
  ∃ mid m a jit egress, rows (machines s) !! mid = Some m ∧ mc_token m = token ∧
    rows (attempts s) !! i = Some a ∧ at_machineId a = Some mid ∧ at_state a = Pending ∧
    r = Some (AttemptClaim a jit egress) ∧
    (at_jitConfig a = Some jit ∨
     ∃ j q, rows (attemptSecrets s) !! j = Some q ∧ as_attemptId q = i ∧ as_jitConfig q = jit) ∧
    s' = s <| attemptSecrets ::= drop_secret i |>
           <| attempts ::= t_set i (a <| at_state := Preparing |> <| at_claimedAt := Some now |>
                                      <| at_jitConfig := None |>) |>.
Proof.
  unfold claimAttempt. intros H. tx_bind_in H mc s1 H1. apply machineForToken_done in H1 as (-> & Hrow & Htok).
  tx_bind_in H oa s1 H1. injection H1 as Hi <-. destruct oa as [a|]; [|injection H as <- <-; auto].
  case_bool_decide as Hm; cbn [negb orb] in H; [|injection H as <- <-; auto].
  case_bool_decide as Hst; cbn [negb orb] in H; [|injection H as <- <-; auto].
  tx_bind_in H sec s1 H1. pose proof H1 as [-> Hsec]%db_unique_done.
  destruct (or_opt _ _) as [jit|] eqn:Hjit; [|injection H as <- <-; auto].
  tx_bind_in H u2 s2 H2. tx_bind_in H u3 s3 H3. tx_bind_in H eg s4 H4.
  apply reads_claimEgress in H4 as ->. injection H as <- <-. right.
  assert (s2 = s <| attemptSecrets ::= drop_secret i |>) as ->.
  { apply (deleteAttemptSecret_done i s u2). unfold deleteAttemptSecret, mbind, tx_bind. by rewrite H1. }
  apply db_patch_done in H3 as (d & Hd & ->). simpl in Hd. simplify_eq.
  exists mc.1, mc.2, a, jit, eg. split_and!; try done.
  destruct sec as [[j q]|]; simpl in Hjit; [right|by left]. exists j, q.
  destruct (t_where_sound (attemptSecrets s) (λ r, as_attemptId r === i) (j, q)) as [Hj Hq]; [rewrite Hsec; left|].
  apply bool_decide_eq_true in Hq. by injection Hjit as <-.
Qed.

Lemma markReady_run token i now s r s' :
  markReady token i now s = Done (r, s') →
  r = false ∧ s' = s ∨
  ∃ mid m a, rows (machines s) !! mid = Some m ∧ mc_token m = token ∧ rows (attempts s) !! i = Some a ∧
    at_machineId a = Some mid ∧ at_state a = Preparing ∧ r = true ∧
    s' = s <| attempts ::= t_set i (a <| at_state := Ready |> <| at_readyAt := Some now |>) |>.
Proof.
  unfold markReady. intros H. tx_bind_in H mc s1 H1. apply machineForToken_done in H1 as (-> & Hrow & Htok).
  tx_bind_in H oa s1 H1. injection H1 as Hi <-. destruct oa as [a|]; [|injection H as <- <-; auto].
  case_bool_decide as Hm; cbn [negb orb] in H; [|injection H as <- <-; auto].
  case_bool_decide as Hst; cbn [negb orb] in H; [|injection H as <- <-; auto].
  tx_bind_in H u2 s2 H2. injection H as <- <-. apply db_patch_done in H2 as (d & Hd & ->). simplify_eq.
  right. by exists mc.1, mc.2, a.
Qed.

Section worker.
Context (E : event → Prop).

Lemma claimAttempt_moves token i now s r s' :
  E EvClaim → claimAttempt token i now s = Done (r, s') → moves E s s'.
Proof.
  intros HC [[_ ->]|(mid & m & a & jit & eg & _ & _ & Hi & Hm & Hst & _ & _ & ->)]%claimAttempt_run;
    [apply rtc_refl|]. name_patched a'.
  assert (attempt_moves E a a') as Hmv.
  { right. exists EvClaim. split_and!; [done|by intros ?|]. unfold phase_of. simpl. rewrite Hst, Hm. constructor. }
  apply rtc_once, mv_drop with a; try done.
  - apply (attempt_ok_step E); [done|by left|done].
  - unfold holds. simpl. by rewrite Hst.
Qed.

Lemma markReady_moves token i now s r s' :
  E EvReady → markReady token i now s = Done (r, s') → moves E s s'.
Proof.
  intros HC [[_ ->]|(mid & m & a & _ & _ & Hi & Hm & Hst & _ & ->)]%markReady_run; [apply rtc_refl|].
  name_patched a'.
  assert (attempt_moves E a a') as Hmv.
  { right. exists EvReady. split_and!; [done|by intros ?|]. unfold phase_of. simpl. rewrite Hst, Hm. constructor. }
  apply rtc_once, (mv_keep E s i a); try done.
  - apply (attempt_ok_step E); [done|..]; [|done]. intros _. right. unfold awaiting. by rewrite Hst.
  - unfold holds. simpl. by rewrite Hst.
  - unfold awaiting. by rewrite Hst.
Qed.

Lemma reportAttempt_moves token i code egress rx now s r s' :
  E EvExit → base s → reportAttempt token i code egress rx now s = Done (r, s') → moves E s s'.
Proof.
  intros HX Hbase H. unfold reportAttempt in H. destruct (num_integer code) as [z|]; [|done].
  destruct (runner_exit_code rx) as [rx'|]; [|done].
  tx_bind_in H mc s1 H1. apply machineForToken_done in H1 as (-> & _).
  tx_bind_in H oa s1 H1. injection H1 as Hi <-. destruct oa as [a|]; [|injection H as _ <-; apply rtc_refl].
  case_bool_decide as Hm; cbn [negb orb] in H; [|injection H as _ <-; apply rtc_refl].
  tx_bind_in H u1 s1 H1. assert (moves E s s1) as Hm1 by (by eapply inert_moves; [apply inert_store_egress|]).
  apply inert_store_egress in H1 as [[= _ Ha1 _ _ _ _] _].
  rewrite <- Ha1 in Hi. eapply moves_trans; [exact Hm1|]. clear Hm1 Ha1 Hbase s.
  change (terminal_state (at_state a)) with (terminal (at_state a)) in H.
  destruct (terminal (at_state a)) eqn:Ht.
  { tx_bind_in H u2 s2 H2. apply deleteAttemptSecret_done in H2 as ->. tx_bind_in H u3 s3 H3.
    injection H as _ <-. apply db_patch_done in H3 as (d & Hd & ->). simpl in Hd. simplify_eq.
    name_patched a'. assert (attempt_moves E a a') as Hmv by by left.
    apply rtc_once, mv_drop with a; try done.
    apply (attempt_ok_step E); [done|by left|]. intros _. by right. }
  tx_bind_in H u2 s2 H2. unfold releaseAttemptSlot in H2. rewrite releaseMachineSlot_run in H2.
  injection H2 as _ <-. tx_bind_in H u3 s3 H3. apply deleteAttemptSecret_done in H3 as ->.
  tx_bind_in H st s4 H4.
  assert (∀ (f : attempt → attempt) u s5,
    db_patch attempts i f (s1 <| machines ::= release_slot (at_machineId a) |>
      <| attemptSecrets ::= drop_secret i |>) = Done (u, s5) →
    same_identity a (f a) → attempt_moves E a (f a) → terminal (at_state (f a)) = true →
    at_jitConfig (f a) = None → is_some (at_finishedAt (f a)) = true → moves E s1 s5) as Hend.
  { intros f u s5 Hp Hid Hmv Ht' Hj Hf. apply db_patch_done in Hp as (d & Hd & ->). simpl in Hd. simplify_eq.
    apply rtc_once, mv_end; try done.
    - apply (attempt_ok_step E); [done|by left..].
    - unfold holds. by rewrite Ht'. }
  assert (∀ c u sa sb, run_after c sa = Done (u, sb) → moves E s1 sa → moves E s1 sb) as Hafter.
  { intros c u sa sb Hr Hs. eapply moves_trans; [done|]. by eapply inert_moves; [apply inert_run_after|]. }
  assert (st = None ∧ s4 = s1 <| machines ::= release_slot (at_machineId a) |>
      <| attemptSecrets ::= drop_secret i |> ∧ (at_retirement a = None ∨ at_state a = Running) ∨
    is_some st = true ∧ moves E s1 s4) as Hst.
  { destruct (at_retirement a) as [rt|] eqn:Hr; [|injection H4 as <- <-; auto].
    case_bool_decide as Hrun; simpl in H4; [injection H4 as <- <-; auto|]. right.
    tx_bind_in H4 u5 s5 H5. tx_bind_in H4 u6 s6 H6. injection H4 as <- <-. split; [done|].
    eapply Hafter; [exact H6|]. eapply Hend; [exact H5|..]; try (by destruct (rt_outcome rt)).
    right. exists EvExit. split_and!; [done|by intros ?|]. unfold phase_of. rewrite Hr. simpl.
    pose proof (lc_exit_retired (at_state a) (at_machineId a) (rt_outcome rt)
      (at_runnerCleanupPending a === Some true) Ht Hrun) as Hl.
    by destruct (rt_outcome rt). }
  destruct Hst as [(-> & -> & Hrt)|[Hs Hmv]].
  2:{ destruct st; [|done]. by injection H as _ <-. }
  tx_bind_in H u5 s5 H5. tx_bind_in H u6 s6 H6. injection H as _ <-. eapply Hafter; [exact H6|].
  eapply Hend; [exact H5|done| |by destruct (_ && _)|done|done].
  right. exists EvExit. split_and!; [done|by intros ?|]. unfold phase_of. simpl.
  apply lc_exit; [done|by destruct Hrt as [-> | ?]; auto|destruct (_ && _); auto|].
  unfold runnerOutlivesExecutor. case_bool_decide as Hrun; simpl; [|done].
  destruct (z =? 0); simpl; [|done]. by destruct (at_retirement a).
Qed.

(** Host reports change capacity fields only, and keep them positive. *)
Lemma machine_patch_moves i f m s u s' :
  rows (machines s) !! i = Some m → db_patch machines i f s = Done (u, s') →
  mc_usedSlots (f m) = mc_usedSlots m → (host_ok m → host_ok (f m)) → moves E s s'.
Proof.
  intros Hi (d & Hd & ->)%db_patch_done Hu Hok. simplify_eq. apply rtc_once. by eapply MvMachine.
Qed.

Lemma benchmarkRecommendedSlots_pos n b now : 0 < n → 0 < benchmarkRecommendedSlots n b now.
Proof. intros. unfold benchmarkRecommendedSlots. repeat case_match; lia. Qed.

Lemma resource_slots_pos os cpus mem : 0 < resourceRecommendedSlots os cpus mem.
Proof. pose proof (resourceRecommendedSlots_range os cpus mem). lia. Qed.

Lemma configured_slots_pos m : host_ok m → positive_opt (configured_slots_of m).
Proof.
  intros [[Hs _] Hc _ _] z. unfold configured_slots_of. case_match; [|done]. intros [= <-].
  destruct (mc_configuredSlots m) as [c|] eqn:Ec; simpl; [by apply Hc|done].
Qed.

Lemma positive_from_pos n lo z : 0 < lo → positive_from n lo = Some z → 0 < z.
Proof.
  unfold positive_from. intros Hlo. destruct (num_integer n) as [y|]; [|done].
  destruct (Z.ltb_spec y lo); [done|]. intros [= <-]. lia.
Qed.

Lemma reportHostFacts_moves token arch cpus mem now s r s' :
  reportHostFacts token arch cpus mem now s = Done (r, s') → moves E s s'.
Proof.
  unfold reportHostFacts. destruct (positive_from cpus 1) as [c|] eqn:Hc; [|done].
  destruct (positive_from mem 256) as [mm|] eqn:Hmm; [|done].
  apply positive_from_pos in Hc, Hmm; [|lia..]. destruct (Nat.eqb _ _); [done|]. intros H.
  tx_bind_in H mc s1 H1. apply machineForToken_done in H1 as (-> & Hrow & _). cbv zeta in H.
  tx_bind_in H ev s1 H1. apply reads_unique in H1 as ->.
  tx_bind_in H u s2 H2. tx_bind_in H u3 s3 H3. injection H as _ <-.
  eapply moves_trans; [|by eapply inert_moves; [apply inert_run_after|]].
  eapply machine_patch_moves; [exact Hrow|exact H2|done|].
  intros Hok. pose proof (configured_slots_pos _ Hok) as Hcf. destruct Hok as [[Hs [Hcp Hmp]] _ _ _].
  pose proof (resource_slots_pos (mc_os mc.2) c (Some mm)) as Hrs.
  split; [|done|by intros ? [= <-]|].
  - split_and!; simpl; [|by intros ? [= <-]..]. destruct (slot_policy_of mc.2 === SlotAuto); [|done]. by apply benchmarkRecommendedSlots_pos.
  - intros ? [= <-]. by apply benchmarkRecommendedSlots_pos.
Qed.

Lemma reportBenchmark_moves token report now s r s' :
  reportBenchmark token report now s = Done (r, s') → moves E s s'.
Proof.
  intros H. unfold reportBenchmark in H.
  tx_bind_in H mc s1 H1. apply machineForToken_done in H1 as (-> & Hrow & _). cbv zeta in H.
  tx_bind_in H bm s1 H1. apply reads_normalizeBenchmark in H1 as ->.
  tx_bind_in H ev s1 H1. apply reads_unique in H1 as ->.
  tx_bind_in H u1 s2 H2. tx_bind_in H u2 s3 H3. tx_bind_in H u3 s4 H4. injection H as _ <-.
  assert (inert (match ev with
    | Some (id, _) => db_patch benchmarkEvidence id (λ e, e <| be_benchmark := bm |>)
    | None => db_insert benchmarkEvidence (BenchmarkEvidence mc.1 bm) ≫= λ _, mret tt end)) as Hin
    by inert_tac.
  assert (moves E s s2) as Hm2 by (eapply inert_moves; [exact Hin|]; by destruct ev as [[]|]).
  assert (rows (machines s2) !! mc.1 = Some mc.2) as Hrow2.
  { destruct (Hin s u1 s2) as [[= -> _ _ _ _ _] _]; [by destruct ev as [[]|]|done]. }
  eapply moves_trans; [exact Hm2|].
  eapply moves_trans; [|by eapply inert_moves; [apply inert_run_after|]].
  eapply machine_patch_moves; [exact Hrow2|exact H3|done|].
  intros Hok. pose proof (configured_slots_pos _ Hok) as Hcf. destruct Hok as [[Hs [Hcp Hmp]] _ Hr Hrec].
  set (rs := match mc_cpus mc.2 with Some _ => _ | None => _ end).
  assert (0 < rs) as Hrs.
  { unfold rs. destruct (mc_resourceRecommendedSlots mc.2) as [z|] eqn:Ez,
      (mc_recommendedSlots mc.2) as [z'|] eqn:Ez'; simpl;
      destruct (mc_cpus mc.2), (mc_memoryMiB mc.2); simpl; auto using resource_slots_pos. }
  assert (0 < benchmarkRecommendedSlots rs (Some bm) now) as Hb by by apply benchmarkRecommendedSlots_pos.
  split; [|exact Hcf|by intros ? [= <-]|by intros ? [= <-]]. split_and!; [|exact Hcp|exact Hmp].
  change (0 < if slot_policy_of mc.2 === SlotAuto then benchmarkRecommendedSlots rs (Some bm) now
              else or_else (mc_maxSlots mc.2) (configured_slots_of mc.2)).
  destruct (slot_policy_of mc.2 === SlotAuto); [done|].
  destruct (configured_slots_of mc.2) as [z|] eqn:Ez; [by apply Hcf|done].
Qed.
End worker.

(** ** Experiments, registration and labels *)

Section fleet.
Context (E : event → Prop).

Lemma experiment_keep i x x' s :
  rows (experiments s) !! i = Some x → xholds x' = xholds x → move E s (s <| experiments ::= t_set i x' |>).
Proof.
  intros Hi Hh. pose proof (MvExperiment E s i x x' Hi (or_introl Hh)) as H.
  rewrite Hh, freed_same in H. exact H.
Qed.

Lemma experiment_end i x x' s :
  rows (experiments s) !! i = Some x → experiment_terminal (xp_state x) = false → xholds x' = None →
  move E s (s <| machines ::= release_slot (xp_machineId x) |> <| experiments ::= t_set i x' |>).
Proof.
  intros Hi Ht Hh. pose proof (MvExperiment E s i x x' Hi (or_intror Hh)) as H.
  rewrite Hh in H. assert (freed (xholds x) None = xp_machineId x) as Hf.
  { unfold freed, xholds. by destruct (xp_state x). }
  by rewrite Hf in H.
Qed.

Lemma claimExperiment_moves token i now s r s' :
  claimExperiment token i now s = Done (r, s') → moves E s s'.
Proof.
  intros H. unfold claimExperiment in H. tx_bind_in H mc s1 H1. apply machineForToken_done in H1 as (-> & _).
  tx_bind_in H ox s1 H1. injection H1 as Hi <-. destruct ox as [x|]; [|injection H as _ <-; apply rtc_refl].
  case_bool_decide as Hm; cbn [negb orb] in H; [|injection H as _ <-; apply rtc_refl].
  case_bool_decide as Hst; cbn [negb orb] in H; [|injection H as _ <-; apply rtc_refl].
  tx_bind_in H u2 s2 H2. tx_bind_in H u3 s3 H3. apply reads_claimEgress in H3 as ->. injection H as _ <-.
  apply db_patch_done in H2 as (d & Hd & ->). simplify_eq.
  eapply rtc_once, experiment_keep; [done|]. unfold xholds. simpl. by rewrite Hst.
Qed.

Lemma markExperimentRunning_moves token i now s r s' :
  markExperimentRunning token i now s = Done (r, s') → moves E s s'.
Proof.
  intros H. unfold markExperimentRunning in H. tx_bind_in H mc s1 H1.
  apply machineForToken_done in H1 as (-> & _).
  tx_bind_in H ox s1 H1. injection H1 as Hi <-. destruct ox as [x|]; [|injection H as _ <-; apply rtc_refl].
  case_bool_decide as Hm; cbn [negb orb] in H; [|injection H as _ <-; apply rtc_refl].
  case_bool_decide as Hst; cbn [negb orb] in H; [|injection H as _ <-; apply rtc_refl].
  tx_bind_in H u2 s2 H2. injection H as _ <-. apply db_patch_done in H2 as (d & Hd & ->). simplify_eq.
  eapply rtc_once, experiment_keep; [done|]. unfold xholds. simpl. by rewrite Hst.
Qed.

Lemma reportExperiment_moves token i code now s r s' :
  reportExperiment token i code now s = Done (r, s') → moves E s s'.
Proof.
  unfold reportExperiment. destruct (num_integer code) as [z|]; [|done]. intros H.
  tx_bind_in H mc s1 H1. apply machineForToken_done in H1 as (-> & _).
  tx_bind_in H ox s1 H1. injection H1 as Hi <-. destruct ox as [x|]; [|injection H as _ <-; apply rtc_refl].
  case_bool_decide as Hm; cbn [negb orb] in H; [|injection H as _ <-; apply rtc_refl].
  destruct (experiment_terminal (xp_state x)) eqn:Ht; [injection H as _ <-; apply rtc_refl|].
  tx_bind_in H u2 s2 H2. rewrite releaseMachineSlot_run in H2. injection H2 as _ <-.
  tx_bind_in H u3 s3 H3. tx_bind_in H u4 s4 H4. injection H as _ <-.
  eapply moves_trans; [|by eapply inert_moves; [apply inert_run_after|]].
  apply db_patch_done in H3 as (d & Hd & ->). simpl in Hd. simplify_eq.
  apply rtc_once, experiment_end; [done..|]. unfold xholds. simpl. by destruct (z =? 0).
Qed.

Lemma cancelExperiment_moves i now s r s' :
  cancelExperiment i now s = Done (r, s') → moves E s s'.
Proof.
  intros H. unfold cancelExperiment in H. tx_bind_in H ox s1 H1. injection H1 as Hi <-.
  destruct ox as [x|]; [|injection H as _ <-; apply rtc_refl].
  destruct (experiment_terminal (xp_state x)) eqn:Ht; [injection H as _ <-; apply rtc_refl|].
  tx_bind_in H u2 s2 H2. rewrite releaseMachineSlot_run in H2. injection H2 as _ <-.
  tx_bind_in H u3 s3 H3. tx_bind_in H u4 s4 H4. injection H as _ <-.
  eapply moves_trans; [|by eapply inert_moves; [apply inert_run_after|]].
  apply db_patch_done in H3 as (d & Hd & ->). simpl in Hd. simplify_eq.
  by apply rtc_once, experiment_end.
Qed.

Lemma createExperiment_moves n p cmd t subj now s r s' :
  createExperiment n p cmd t subj now s = Done (r, s') → moves E s s'.
Proof.
  unfold createExperiment. cbv zeta. destruct (_ || _); [done|]. destruct (validateCommand cmd); [done|].
  destruct (num_integer t) as [z|]; [|done]. destruct (_ || _); [done|]. intros H.
  tx_bind_in H f s1 H1. apply reads_profile_named in H1 as ->. destruct f as [[k pf]|]; [|done].
  destruct (_ !== _); [done|]. destruct (_ !== _); [done|].
  tx_bind_in H i s1 H1. injection H1 as _ <-. tx_bind_in H u s2 H2. injection H as _ <-.
  eapply moves_trans; [|by eapply inert_moves; [apply inert_run_after|]].
  by apply rtc_once, MvNewExperiment.
Qed.

Lemma heartbeat_moves token now s r s' :
  E EvKeep → heartbeat token now s = Done (r, s') → moves E s s'.
Proof.
  intros HK H. unfold heartbeat in H. tx_bind_in H mc s1 H1. apply machineForToken_done in H1 as (-> & Hrow & _).
  tx_bind_in H u1 s1 H1. tx_bind_in H u2 s2 H2. tx_bind_in H u3 s3 H3. tx_bind_in H u4 s4 H4.
  injection H as _ <-.
  assert (moves E s s1 ∧ machines s1 = machines s) as [Hm1 Em].
  { unfold when in H1. destruct (negb _); [|injection H1 as _ <-; split; [apply rtc_refl|done]].
    tx_bind_in H1 k s5 H5. injection H1 as _ <-. split; [by eapply keepRunning_moves|].
    revert H5. unfold keepRunningAttemptsOfReturningWorker. intros H. tx_bind_in H l s6 Hl.
    injection Hl as _ <-. eapply (triple_fold (λ _ _ s', machines s' = machines s)); [|done|exact H].
    intros x l' b t c t' Ht Hb. tx_bind_in Hb k2 s7 H7. injection Hb as _ <-.
    unfold keepForReturningWorker in H7. destruct (_ || _); [by injection H7 as _ <-|].
    tx_bind_in H7 u6 s8 H8. injection H7 as _ <-. apply db_patch_done in H8 as (? & _ & ->). done. }
  rewrite <- Em in Hrow.
  eapply moves_trans; [exact Hm1|].
  eapply moves_trans; [|by eapply inert_moves; [apply inert_run_after|]].
  eapply moves_trans; [|by eapply inert_moves; [apply inert_run_after|]].
  eapply machine_patch_moves; [exact Hrow|exact H2|done|]. by intros []; split.
Qed.

Lemma setLabels_moves n raw now s r s' :
  E EvRetire → E EvRequeue → setLabels n raw now s = Done (r, s') → moves E s s'.
Proof.
  intros HR HQ. unfold setLabels. destruct (normalizeHostLabels raw) as [labels|err].
  2:{ intros [= _ <-]. apply rtc_refl. }
  intros H. tx_bind_in H mc s1 H1. pose proof H1 as [-> Hr]%db_unique_done.
  destruct mc as [[i m]|]; [|injection H as _ <-; apply rtc_refl].
  destruct (t_where_sound (machines s) (λ m, mc_name m === n) (i, m)) as [Hi _]; [rewrite Hr; left|].
  tx_bind_in H u1 s1 H2. tx_bind_in H rt s2 H3. tx_bind_in H u3 s3 H4. injection H as _ <-.
  eapply moves_trans; [|by eapply inert_moves; [apply inert_run_after|]].
  eapply moves_trans; [|by eapply retireOffPinOnWorker_moves].
  eapply machine_patch_moves; [exact Hi|exact H2|done|]. by intros []; split.
Qed.

(** What the HTTP layer guarantees of a registration. *)
Definition register_valid (a : register_agent_args) : Prop :=
  0 < rga_cpus a ∧ positive_opt (rga_memoryMiB a) ∧ positive_opt (rga_maxSlots a).

Lemma reads_free_name fuel b n k : reads (free_name fuel b n k).
Proof.
  revert n k. induction fuel as [|fuel IH]; intros n k; simpl; apply reads_bind; try apply reads_read;
    intros [q|]; try apply IH; auto with effects.
Qed.

Lemma reads_free_token draws : reads (free_token draws).
Proof. induction draws as [|t draws IH]; simpl; reads_tac. Qed.

Lemma inert_issueRegistrationToken draws now : inert (issueRegistrationToken draws now).
Proof.
  unfold issueRegistrationToken. apply inert_bind; [|intros token; inert_tac].
  apply inert_reads. induction draws as [|d draws IH]; simpl; reads_tac.
Qed.

Lemma registerAgent_moves a draws now s r s' :
  register_valid a → registerAgent a draws now s = Done (r, s') → moves E s s'.
Proof.
  intros (Hc & Hm & Hs) H. unfold registerAgent in H. tx_bind_in H rg s1 H1. apply reads_unique in H1 as ->.
  destruct rg as [[rid rg]|]; [|injection H as _ <-; apply rtc_refl].
  destruct (is_some _); [injection H as _ <-; apply rtc_refl|].
  destruct (_ <=? _); [injection H as _ <-; apply rtc_refl|].
  destruct (normalizeHostLabels _) as [labels|err]; [|injection H as _ <-; apply rtc_refl].
  tx_bind_in H fuel s1 H1. injection H1 as _ <-. tx_bind_in H nm s1 H1. apply reads_free_name in H1 as ->.
  tx_bind_in H tok s1 H1. apply reads_free_token in H1 as ->.
  tx_bind_in H u1 s1 H1. tx_bind_in H mid s2 H2. injection H2 as _ <-. injection H as _ <-.
  eapply moves_trans; [eapply inert_moves; [|exact H1]; by apply inert_patch|].
  apply rtc_once, MvNewMachine; [done|].
  pose proof (resource_slots_pos (rga_os a) (rga_cpus a) (rga_memoryMiB a)) as Hp.
  split; [split_and!|..]; simpl; try done; try (by intros ? [= <-]).
  destruct (rga_maxSlots a) as [z|] eqn:Ez; simpl; [by apply Hs|done].
Qed.
End fleet.
