(* ===== verification/LegacyMoves.v ===== *)
(** The legacy job queue as moves of the store: what its handlers may write, shown for every
    operation of LegacyJobs.v and for the processing of webhook deliveries. *)

From S2P Require Import Prelude JsLib Schema HostLabels Egress Isolation Benchmark Scheduler.
From S2P Require Import Placement Retirement ControllerApi WorkerApi Fleet LegacyJobs Webhooks.
From S2P Require Import Lifecycle Handlers.

(** The queue never writes Attempts, their secrets or Experiments. *)
Definition same_work (s s' : db) : Prop :=
  attempts s' = attempts s ∧ attemptSecrets s' = attemptSecrets s ∧ experiments s' = experiments s.

#[export] Instance same_work_preorder : PreOrder same_work.
Proof. split; [done|]. unfold same_work. intros s1 s2 s3. intuition congruence. Qed.

Section queue.
Context (E : event → Prop) (HE : E EvLegacy).

(** A transaction of the queue, run where [N] machines were ever registered: a sequence of moves
    that leaves the scale-set work alone and registers no machine, with [Q] of its result. *)
Definition queue {A} (N : nat) (Q : A → Prop) (m : tx db A) : Prop :=
  ∀ s a s', base s → next_id (machines s) = N → m s = Done (a, s') →
    moves E s s' ∧ same_work s s' ∧ next_id (machines s') = N ∧ Q a.

Definition anything {A} : A → Prop := λ _, True.

Context (N : nat).

Lemma queue_ret {A} (Q : A → Prop) a : Q a → queue N Q (mret a).
Proof. intros HQ s a' s' _ HN [= <- <-]. split_and!; [apply rtc_refl|reflexivity|done..]. Qed.

Lemma queue_throw {A} (Q : A → Prop) msg : queue N Q (throw msg).
Proof. by intros s a' s' _ _. Qed.

Lemma queue_bind {A B} (Q : A → Prop) (R : B → Prop) m f :
  queue N Q m → (∀ a, Q a → queue N R (f a)) → queue N R (m ≫= f).
Proof.
  intros Hm Hf s b s' Hb HN H. tx_bind_in H a s1 H1.
  destruct (Hm s a s1 Hb HN H1) as (M1 & W1 & N1 & Ha).
  destruct (Hf a Ha s1 b s') as (M2 & W2 & N2 & Hr); [by eapply base_moves|done..|].
  split_and!; [by eapply moves_trans|by etrans|done..].
Qed.

Lemma queue_weaken {A} (Q R : A → Prop) m : (∀ a, Q a → R a) → queue N Q m → queue N R m.
Proof. intros HQ Hm s a s' Hb HN H. destruct (Hm s a s' Hb HN H) as (? & ? & ? & ?). auto. Qed.

Lemma queue_inert {A} (m : tx db A) : inert m → queue N anything m.
Proof.
  intros Hm s a s' _ HN H. pose proof (Hm s a s' H) as [Hc _]. unfold core in Hc.
  injection Hc as Em Ea Es Ex _ _. split_and!; try done; [by eapply inert_moves|congruence].
Qed.

Lemma queue_when b (m : tx db unit) : queue N anything m → queue N anything (when b m).
Proof. intros Hm. unfold when. destruct b; [done|by apply queue_ret]. Qed.

Lemma queue_fold {A B} (I : B → Prop) (body : B → A → tx db B) l b :
  (∀ b x, I b → x ∈ l → queue N I (body b x)) → I b → queue N I (fold_tx body b l).
Proof.
  revert b. induction l as [|x l IH]; intros b Hbody Hb; simpl; [by apply queue_ret|].
  eapply queue_bind; [apply Hbody; [done|left]|]. intros b' Hb'. apply IH; [|done].
  intros. apply Hbody; [done|by right].
Qed.

Lemma queue_for_each {A} (l : list A) body :
  (∀ x, x ∈ l → queue N anything (body x)) → queue N anything (for_each l body).
Proof.
  induction l as [|x l IH]; intros Hb; simpl; [by apply queue_ret|].
  eapply queue_bind; [apply Hb; left|]. intros _ _. apply IH. intros. apply Hb. by right.
Qed.

(** *** Reads that tell which machines exist *)

Definition known_machine (c : command) : Prop := (cm_machineId c < N)%nat.

Lemma queue_get_command i :
  queue N (λ o, ∀ c, o = Some c → known_machine c) (db_get commands i).
Proof.
  intros s o s' Hb HN [= <- <-]. split_and!; [apply rtc_refl|reflexivity|done|].
  intros c Hc. unfold known_machine. rewrite <- HN. by eapply lo_command_refs; [apply Hb|].
Qed.

Lemma queue_where_command P :
  queue N (λ l, ∀ r : Id * command, r ∈ l → known_machine r.2) (db_where commands P).
Proof.
  intros s o s' Hb HN [= <- <-]. split_and!; [apply rtc_refl|reflexivity|done|].
  intros r [Hr _]%t_where_sound. unfold known_machine. rewrite <- HN. by eapply lo_command_refs; [apply Hb|].
Qed.

Lemma queue_unique_command P :
  queue N (λ o, ∀ r : Id * command, o = Some r → known_machine r.2) (db_unique commands P).
Proof.
  intros s o s' Hb HN [-> Ho]%db_unique_done. split_and!; [apply rtc_refl|reflexivity|done|].
  intros r ->. destruct (t_where_sound (commands s) P r) as [Hr _]; [rewrite Ho; left|].
  unfold known_machine. rewrite <- HN. by eapply lo_command_refs; [apply Hb|].
Qed.

(** *** Writes *)

Definition known_opt (o : option Id) : Prop := ∀ k, o = Some k → (k < N)%nat.

Lemma write_jobs s t :
  base s → next_id (machines s) = N → t_wf t →
  (∀ i d, rows t !! i = Some d → rows (jobs s) !! i = Some d ∨
     (∃ d0, rows (jobs s) !! i = Some d0 ∧ jb_machineId d = jb_machineId d0) ∨ known_opt (jb_machineId d)) →
  moves E s (s <| jobs := t |>) ∧ same_work s (s <| jobs := t |>) ∧
  next_id (machines (s <| jobs := t |>)) = N.
Proof.
  intros Hb HN Hwf Ht. split_and!; [|done..]. apply rtc_once.
  pose proof (MvLegacy E s t (commands s) HE) as Hmv. apply Hmv.
  intros [L1 L1' L2 L3]. split; simpl; [done|done| |done]. intros i d m Hi Hm.
  destruct (Ht i d Hi) as [Hd|[(d0 & Hd0 & Em)|Hk]].
  - by eapply L2.
  - eapply L2; [exact Hd0|]. congruence.
  - rewrite HN. by apply Hk.
Qed.

Lemma write_commands s t :
  base s → next_id (machines s) = N → t_wf t →
  (∀ i d, rows t !! i = Some d → (∃ d0, rows (commands s) !! i = Some d0 ∧ cm_machineId d = cm_machineId d0) ∨
     known_machine d) →
  moves E s (s <| commands := t |>) ∧ same_work s (s <| commands := t |>) ∧
  next_id (machines (s <| commands := t |>)) = N.
Proof.
  intros Hb HN Hwf Ht. split_and!; [|done..]. apply rtc_once.
  pose proof (MvLegacy E s (jobs s) t HE) as Hmv. apply Hmv.
  intros [L1 L1' L2 L3]. split; simpl; [done..|]. intros i d Hi.
  destruct (Ht i d Hi) as [(d0 & Hd0 & Em)|Hk].
  - rewrite Em. by eapply L3.
  - rewrite HN. apply Hk.
Qed.

Lemma queue_patch_job i f :
  (∀ d, jb_machineId (f d) = jb_machineId d ∨ known_opt (jb_machineId (f d))) →
  queue N anything (db_patch jobs i f).
Proof.
  intros Hf s u s' Hb HN (d & Hd & ->)%db_patch_done.
  destruct (write_jobs s (t_set i (f d) (jobs s))) as (? & ? & ?); [done..| | |done].
  - eapply t_wf_set; [done|]. by apply Hb.
  - intros j e. simpl. rewrite lookup_insert_Some. intros [[<- <-]|[_ Hj]]; [right|by left].
    destruct (Hf d) as [?|?]; [left; by exists d|by right].
Qed.

Lemma queue_insert_job d : known_opt (jb_machineId d) → queue N anything (db_insert jobs d).
Proof.
  intros Hd s u s' Hb HN [= _ <-].
  destruct (write_jobs s (t_add d (jobs s))) as (? & ? & ?); [done..| | |done].
  - apply t_wf_add. by apply Hb.
  - intros j e. simpl. rewrite lookup_insert_Some. intros [[<- <-]|[_ Hj]]; auto.
Qed.

Lemma queue_delete_job i : queue N anything (db_delete jobs i).
Proof.
  intros s u s' Hb HN (d & Hd & ->)%db_delete_done.
  destruct (write_jobs s (t_del i (jobs s))) as (? & ? & ?); [done..| | |done].
  - apply t_wf_del. by apply Hb.
  - intros j e. simpl. intros [_ Hj]%lookup_delete_Some. by left.
Qed.

Lemma queue_patch_command i f :
  (∀ d, cm_machineId (f d) = cm_machineId d) → queue N anything (db_patch commands i f).
Proof.
  intros Hf s u s' Hb HN (d & Hd & ->)%db_patch_done.
  destruct (write_commands s (t_set i (f d) (commands s))) as (? & ? & ?); [done..| | |done].
  { eapply t_wf_set; [done|]. by apply Hb. }
  intros j e. simpl. rewrite lookup_insert_Some. intros [[<- <-]|[_ Hj]]; left; eauto.
Qed.

Lemma queue_insert_command d : known_machine d → queue N anything (db_insert commands d).
Proof.
  intros Hd s u s' Hb HN [= _ <-].
  destruct (write_commands s (t_add d (commands s))) as (? & ? & ?); [done..| | |done].
  { apply t_wf_add. by apply Hb. }
  intros j e. simpl. rewrite lookup_insert_Some. intros [[<- <-]|[_ Hj]]; eauto.
Qed.

Lemma queue_delete_command i : queue N anything (db_delete commands i).
Proof.
  intros s u s' Hb HN (d & Hd & ->)%db_delete_done.
  destruct (write_commands s (t_del i (commands s))) as (? & ? & ?); [done..| | |done].
  { apply t_wf_del. by apply Hb. }
  intros j e. simpl. intros [_ Hj]%lookup_delete_Some. left. eauto.
Qed.

Lemma queue_slots i n :
  0 ≤ n → queue N (λ _, (i < N)%nat) (db_patch machines i (λ d, d <| mc_usedSlots := n |>)).
Proof.
  intros Hn s u s' Hb HN (d & Hd & ->)%db_patch_done. split_and!; [|done..|].
  - by eapply rtc_once, MvSlots.
  - rewrite <- HN. by eapply (iv_machines _ Hb).
Qed.

Lemma queue_release m : queue N anything (releaseMachineSlot m).
Proof.
  intros s u s' Hb HN H. rewrite releaseMachineSlot_run in H. injection H as _ <-.
  unfold release_slot. destruct m as [id|]; [|by split_and!; [|done..]; simpl; rewrite db_eta; apply rtc_refl].
  destruct (rows (machines s) !! id) as [d|] eqn:Hd.
  - split_and!; [|done..]. eapply rtc_once, MvSlots; [done..|]. lia.
  - split_and!; [|done..]. simpl. rewrite db_eta. apply rtc_refl.
Qed.

Lemma queue_machine i f :
  (∀ m, mc_usedSlots (f m) = mc_usedSlots m) → (∀ m, host_ok m → host_ok (f m)) →
  queue N anything (db_patch machines i f).
Proof.
  intros Hu Hh s u s' Hb HN (d & Hd & ->)%db_patch_done. split_and!; [|done..].
  by eapply rtc_once, MvMachine; [|apply Hu|apply Hh].
Qed.

Lemma queue_delete_machine i : queue N anything (db_delete machines i).
Proof.
  intros s u s' Hb HN (d & Hd & ->)%db_delete_done. split_and!; [|done..]. by apply rtc_once, MvDelMachine.
Qed.
End queue.

(** Walks over the binds and branches of a handler of the queue. *)
Ltac queue_step :=
  lazymatch goal with
  | |- queue _ _ _ (mret _) => by apply queue_ret
  | |- queue _ _ _ (throw _) => apply queue_throw
  | |- queue _ _ _ (when _ _) => apply queue_when
  | |- queue _ _ _ (for_each _ _) => apply queue_for_each; intros ??
  | |- queue _ _ _ (db_get commands _) => by apply queue_get_command
  | |- queue _ _ _ (db_where commands _) => by apply queue_where_command
  | |- queue _ _ _ (db_unique commands _) => by apply queue_unique_command
  | |- queue _ _ _ (db_patch jobs _ _) => apply queue_patch_job; [done|intros ?]
  | |- queue _ _ _ (db_insert jobs _) => apply queue_insert_job; [done|]
  | |- queue _ _ _ (db_delete jobs _) => by apply queue_delete_job
  | |- queue _ _ _ (db_patch commands _ _) => by apply queue_patch_command
  | |- queue _ _ _ (db_insert commands _) => apply queue_insert_command; [done|]
  | |- queue _ _ _ (db_delete commands _) => by apply queue_delete_command
  | |- queue _ _ _ (releaseMachineSlot _) => by apply queue_release
  | |- queue _ _ _ (_ ≫= _) => eapply queue_bind; [|intros ??]
  | |- queue _ _ _ (match ?x with _ => _ end) => destruct x eqn:?
  | |- queue _ _ _ (let '(_, _) := ?x in _) => destruct x eqn:?
  | |- queue _ _ _ _ => apply queue_inert; inert_tac
  end.

Section handlers.
Context (E : event → Prop) (HE : E EvLegacy) (N : nat).

Lemma queue_enqueueRunnerDeletion c j now : queue E N anything (enqueueRunnerDeletion c j now).
Proof. apply queue_inert. unfold enqueueRunnerDeletion. inert_tac. Qed.

Lemma queue_discardCommand i c j now : queue E N anything (discardCommand i c j now).
Proof.
  eapply queue_bind; [apply queue_enqueueRunnerDeletion|]. intros _ _. by apply queue_delete_command.
Qed.

Lemma queue_discard_all cs j now : queue E N anything (discard_all cs j now).
Proof. apply queue_for_each. intros c _. apply queue_discardCommand. Qed.

Lemma queue_failAttempt cid jid error now : queue E N anything (failAttempt cid jid error now).
Proof.
  unfold failAttempt.
  eapply queue_bind; [apply queue_inert; inert_tac|intros c _].
  eapply queue_bind; [apply queue_inert; inert_tac|intros j _].
  eapply queue_bind with anything.
  { destruct cid, c; try (by apply queue_ret). apply queue_discardCommand. }
  intros _ _. destruct j as [j|]; [|by apply queue_ret].
  case_match; [by apply queue_ret|]. eapply queue_bind; [by apply queue_release|intros _ _].
  case_match; repeat queue_step; by right.
Qed.

Lemma queue_recordJobError jid error : queue E N anything (recordJobError jid error).
Proof. unfold recordJobError. repeat queue_step. by left. Qed.

Lemma queue_storeJitConfig cid jit rid : queue E N anything (storeJitConfig cid jit rid).
Proof. unfold storeJitConfig. repeat queue_step. Qed.

(** The slots a run of the scheduler has counted are never negative. *)
Definition counted (acc : list slot_machine * Z) : Prop := Forall (λ m, 0 ≤ sm_usedSlots m) acc.1.

Lemma pick_machine_in j fb ms m e :
  pick_machine j fb ms = Some (m, e) → m ∈ ms ∨ fb = Some (m, e).
Proof.
  revert fb. induction ms as [|x ms IH]; intros fb; simpl; [by right|].
  assert (m ∈ ms → m ∈ x :: ms) as Hx by (by right).
  destruct (_ <=? _); [intros []%IH; auto|]. destruct (selectImageForMachine _ _); [|intros []%IH; auto].
  case_match.
  - intros [?|Hf]%IH; [auto|]. destruct fb as [p|]; simpl in Hf; [by right|]. left. simplify_eq. left.
  - intros [= <- <-]. left. left.
Qed.

Lemma queue_assign_job now acc r : counted acc → queue E N counted (assign_job now acc r).
Proof.
  intros Hacc. destruct acc as [ms n]. unfold assign_job.
  destruct (pick_machine r.2 None ms) as [[m e]|] eqn:Hp; [|by apply queue_ret].
  destruct (pick_machine_in _ _ _ _ _ Hp) as [Hm|?]; [|done].
  pose proof (proj1 (Forall_forall _ _) Hacc m Hm) as Hge. simpl in Hge.
  eapply queue_bind; [apply queue_slots; [done|lia]|intros u Hid].
  eapply queue_bind; [apply queue_patch_job; [done|]|].
  { intros d. right. intros k [= <-]. done. }
  intros _ _. eapply queue_bind; [by apply queue_insert_command|intros cid _].
  eapply queue_bind; [apply queue_inert; inert_tac|intros _ _].
  apply queue_ret. unfold counted. simpl. apply Forall_fmap.
  eapply Forall_impl; [exact Hacc|]. intros x Hx. simpl in *. unfold charge_slot. case_match; simpl; lia.
Qed.

Lemma queue_legacyTryAssign now : queue E N anything (legacyTryAssign now).
Proof.
  intros s a s' Hb HN H. unfold legacyTryAssign in H.
  tx_bind_in H qs s1 H1. injection H1 as <- <-. tx_bind_in H docs s1 H1. injection H1 as <- <-.
  revert H. apply (queue_bind E N counted).
  - apply queue_fold; [intros b x Hx _; by apply queue_assign_job|]. unfold counted. simpl.
    apply Forall_fmap, Forall_forall. intros r Hr.
    apply elem_of_to_sorted in Hr. apply t_where_sound in Hr as [Hr _]. by eapply iv_used.
  - intros acc _. by apply queue_ret.
  - done.
  - done.
Qed.

Lemma queue_displace cid pid aid actual now : queue E N anything (displace cid pid aid actual now).
Proof.
  unfold displace, commandsForJob.
  eapply queue_bind; [by apply queue_where_command|intros cs Hcs].
  eapply queue_bind; [by apply queue_patch_command|intros _ _].
  destruct (if jb_status actual === JAssigned then _ else _) as [[prid prev]|] eqn:Hprev.
  - assert (known_machine N prev) as Hk.
    { case_match; [|done]. unfold current_command in Hprev. apply find_some in Hprev as [Hin _].
      apply list_elem_of_In in Hin. exact (Hcs _ Hin). }
    eapply queue_bind; [by apply queue_patch_command|intros _ _].
    apply queue_patch_job; [done|]. intros d. right. by intros k [= <-].
  - eapply queue_bind; [apply queue_discard_all|intros _ _].
    repeat queue_step. by right.
Qed.

Lemma queue_adopt aid actual rn now : queue E N anything (adoptRunnerAssignment aid actual rn now).
Proof.
  unfold adoptRunnerAssignment. destruct rn as [rn|]; [|by apply queue_ret].
  case_match; [by apply queue_ret|].
  eapply queue_bind; [by apply queue_unique_command|intros oc Hoc].
  destruct oc as [[cid c]|]; [|by apply queue_ret]. specialize (Hoc _ eq_refl). simpl in Hoc.
  case_match; [by apply queue_ret|].
  eapply queue_bind; [apply queue_inert; inert_tac|intros p _].
  destruct p as [p|]; [|by apply queue_ret]. case_match; [by apply queue_ret|]. cbv zeta.
  case_match; [by apply queue_ret|].
  eapply queue_bind; [apply queue_when, queue_displace|intros _ _].
  eapply queue_bind; [apply queue_patch_job; [done|]|intros _ _; by apply queue_ret].
  intros d. right. by intros k [= <-].
Qed.

(** The row an event is about, created as running if it is new. *)
Lemma queue_row e existing now :
  queue E N anything (match existing with
    | Some r => mret r
    | None => id ← db_insert jobs (new_job e JRunning (Some now) None None now);
              mret (id, new_job e JRunning (Some now) None None now)
    end).
Proof. repeat queue_step. done. Qed.

Lemma queue_applyQueued e existing now : queue E N anything (applyQueued e existing now).
Proof. unfold applyQueued. repeat queue_step; [by left|done]. Qed.

Lemma queue_applyInProgress e existing now : queue E N anything (applyInProgress e existing now).
Proof.
  unfold applyInProgress. eapply queue_bind; [apply queue_row|intros row _].
  eapply queue_bind; [apply queue_adopt|intros j _]. repeat queue_step. by left.
Qed.

Lemma queue_complete_row e row now terminalStatus conclusion :
  queue E N anything (j ← adoptRunnerAssignment row.1 row.2 (wj_runnerName e) now;
      if settled_job (jb_status j) then mret tt
      else
        let neverStarted := jb_status j !== JRunning in
        db_patch jobs row.1 (λ d, d <| jb_status := terminalStatus |>
          <| jb_conclusion := Some conclusion |> <| jb_finishedAt := Some now |>
          <| jb_nextAttemptAt := None |>) ≫= λ _,
        releaseMachineSlot (jb_machineId j) ≫= λ _,
        cs ← commandsForJob row.1;
        for_each cs (cancel_command neverStarted j now) ≫= λ _,
        run_after (CallLegacyTryAssign 0)).
Proof.
  eapply queue_bind; [apply queue_adopt|intros j _]. case_match; [by apply queue_ret|]. cbv zeta.
  eapply queue_bind; [apply queue_patch_job; [done|by left]|intros _ _].
  eapply queue_bind; [by apply queue_release|intros _ _].
  eapply queue_bind; [by apply queue_where_command|intros cs _].
  eapply queue_bind; [apply queue_for_each|intros _ _; apply queue_inert; inert_tac].
  intros c _. unfold cancel_command. case_match; [by apply queue_ret|].
  eapply queue_bind; [by apply queue_patch_command|intros _ _]. apply queue_when.
  eapply queue_bind; [apply queue_enqueueRunnerDeletion|]. intros _ _. by apply queue_ret.
Qed.

Lemma queue_applyCompleted e existing now : queue E N anything (applyCompleted e existing now).
Proof.
  unfold applyCompleted. destruct existing as [row|]; [|destruct (wj_runnerName e) eqn:Hrn].
  - apply (queue_bind E N anything); [by apply queue_ret|intros row' _]. apply queue_complete_row.
  - eapply queue_bind; [apply (queue_row e None)|intros row _]. rewrite <- Hrn. apply queue_complete_row.
  - eapply queue_bind; [by apply queue_insert_job|intros _ _]. by apply queue_ret.
Qed.

Lemma queue_applyWorkflowJob e now : queue E N anything (applyWorkflowJob e now).
Proof.
  unfold applyWorkflowJob. eapply queue_bind; [apply queue_inert; inert_tac|intros existing _].
  case_match; [by apply queue_ret|]. case_match.
  - apply queue_applyQueued.
  - apply queue_applyInProgress.
  - apply queue_applyCompleted.
Qed.

Lemma queue_processDelivery repos pub did now : queue E N anything (processDelivery repos pub did now).
Proof.
  unfold processDelivery. eapply queue_bind; [apply queue_inert; inert_tac|intros d _].
  destruct d as [d|]; [|by apply queue_ret]. case_match; [by apply queue_ret|].
  destruct (wd_workflowJob d); [|apply queue_inert; inert_tac]. case_match; [|apply queue_inert; inert_tac].
  eapply queue_bind; [apply queue_applyWorkflowJob|intros _ _]. apply queue_inert; inert_tac.
Qed.

Lemma queue_claimCommand token cid now : queue E N anything (claimCommand token cid now).
Proof.
  unfold claimCommand. eapply queue_bind; [apply queue_inert, inert_reads, reads_machineForToken|intros m _].
  repeat queue_step.
Qed.

Lemma queue_reportCommand token cid code now : queue E N anything (reportCommand token cid code now).
Proof.
  unfold reportCommand. destruct (num_integer code); [|apply queue_throw].
  eapply queue_bind; [apply queue_inert, inert_reads, reads_machineForToken|intros m _].
  eapply queue_bind; [apply queue_inert; inert_tac|intros c _]. destruct c as [c|]; [|by apply queue_ret].
  case_match; [by apply queue_ret|]. eapply queue_bind; [apply queue_inert; inert_tac|intros j _]. cbv zeta.
  case_match.
  - eapply queue_bind; [apply queue_failAttempt|intros _ _]. by apply queue_ret.
  - eapply queue_bind; [by apply queue_patch_command|intros _ _]. by apply queue_ret.
Qed.

Lemma queue_setMachineMaxSlots mid n : queue E N anything (setMachineMaxSlots mid n).
Proof.
  unfold setMachineMaxSlots. destruct (num_integer n) as [z|]; [|apply queue_throw].
  destruct ((z <? 1) || (128 <? z)) eqn:Hz; [apply queue_throw|].
  eapply queue_bind; [apply queue_inert; inert_tac|intros m _]. destruct m as [m|]; [|apply queue_throw].
  case_match; [apply queue_throw|].
  eapply queue_bind; [apply queue_machine; [done|]|intros _ _; apply queue_inert; inert_tac].
  apply orb_false_iff in Hz as [Hz%Z.ltb_ge _].
  intros d [[? ?] ? ? ?]. split; [split|..]; simpl in *; try done; try lia. intros ? [= <-]. lia.
Qed.

Lemma queue_deleteMachine mid now : queue E N anything (deleteMachine mid now).
Proof.
  unfold deleteMachine. eapply queue_bind; [apply queue_for_each; intros st _|intros _ _].
  - eapply queue_bind; [by apply queue_where_command|intros cs _]. apply queue_for_each. intros r _.
    eapply queue_bind; [apply queue_inert; inert_tac|intros j _]. apply queue_discardCommand.
  - eapply queue_bind; [by apply queue_delete_machine|intros _ _]. apply queue_inert; inert_tac.
Qed.

Lemma queue_dropJob jid now : queue E N anything (dropJob jid now).
Proof.
  unfold dropJob, commandsForJob. eapply queue_bind; [apply queue_inert; inert_tac|intros j _].
  destruct j as [j|]; [|by apply queue_ret]. eapply queue_bind; [by apply queue_where_command|intros cs _].
  eapply queue_bind; [apply queue_discard_all|intros _ _]. repeat queue_step.
Qed.

Lemma queue_requeueJob jid now : queue E N anything (requeueJob jid now).
Proof.
  unfold requeueJob, commandsForJob. eapply queue_bind; [apply queue_inert; inert_tac|intros j _].
  destruct j as [j|]; [|by apply queue_ret]. case_match; [by apply queue_ret|].
  eapply queue_bind; [by apply queue_where_command|intros cs _].
  eapply queue_bind; [apply queue_discard_all|intros _ _]. repeat queue_step. by right.
Qed.
End handlers.

Lemma queue_moves {A} E N Q (m : tx db A) s a s' :
  base s → next_id (machines s) = N → queue E N Q m → m s = Done (a, s') → moves E s s'.
Proof. intros Hb HN Hm H. by apply (Hm s a s' Hb HN H). Qed.

(** *** The rest of the intake and of the recovery writes tables of their own *)

Lemma inert_settleDeletion i ok e : inert (settleDeletion i ok e).
Proof. unfold settleDeletion. inert_tac. Qed.
Lemma inert_enqueue r i n rn now : inert (enqueue r i n rn now).
Proof. unfold enqueue. inert_tac. Qed.
Lemma inert_recordDelivery d e j now : inert (recordDelivery d e j now).
Proof. unfold recordDelivery. inert_tac. Qed.
Lemma inert_claimRecovery now cs : inert (claimRecovery now cs).
Proof.
  unfold claimRecovery. generalize (@nil (string * Z)). induction cs as [|c cs IH]; intros l; simpl; [inert_tac|].
  apply inert_bind; [|intros l'; apply IH]. unfold claim_candidate. inert_tac.
Qed.
Lemma inert_settleRecovery g ok e : inert (settleRecovery g ok e).
Proof. unfold settleRecovery. inert_tac. Qed.
Lemma inert_beginRecoveryRun now : inert (beginRecoveryRun now).
Proof. unfold beginRecoveryRun. inert_tac. Qed.
Lemma inert_finishRecoveryRun f now : inert (finishRecoveryRun f now).
Proof. unfold finishRecoveryRun. inert_tac. Qed.
Lemma inert_fold {A B} (body : B → A → tx db B) l b : (∀ b x, inert (body b x)) → inert (fold_tx body b l).
Proof.
  intros Hb. revert b. induction l as [|x l IH]; intros b; simpl; [inert_tac|]. apply inert_bind; auto.
Qed.
Lemma inert_reconcileRecovered now : inert (reconcileRecovered now).
Proof.
  unfold reconcileRecovered. apply inert_bind; [inert_tac|intros l]. apply inert_fold. intros b x.
  unfold reconcile_recovery. inert_tac.
Qed.
Lemma inert_retryStalledDeliveries now : inert (retryStalledDeliveries now).
Proof.
  unfold retryStalledDeliveries. apply inert_bind; [inert_tac|intros l]. apply inert_fold. intros b x.
  unfold retry_delivery. inert_tac.
Qed.
