(* ===== verification/ReconcileMoves.v ===== *)
(** The reconciliation run as moves of the store, and the proof that it leaves every slot counter
    exact. *)

From S2P Require Import Prelude JsLib Schema HostLabels Egress Isolation Benchmark Scheduler.
From S2P Require Import Placement Retirement ControllerApi WorkerApi Fleet LegacyJobs Webhooks.
From S2P Require Import Reconcile Lifecycle Handlers LegacyMoves.

(** ** Transactions that keep a part of the store *)

Section keeps.
Context {T : Type} (f : db → T).

Definition keeps {A} (m : tx db A) : Prop := ∀ s a s', m s = Done (a, s') → f s' = f s.

Lemma keeps_reads {A} (m : tx db A) : reads m → keeps m.
Proof. by intros Hm s a s' ->%Hm. Qed.
Lemma keeps_bind {A B} (m : tx db A) (k : A → tx db B) : keeps m → (∀ a, keeps (k a)) → keeps (m ≫= k).
Proof. intros Hm Hk s b s' H. tx_bind_in H a s1 H1. apply Hm in H1. apply Hk in H. congruence. Qed.
Lemma keeps_for_each {A} (l : list A) body : (∀ x, keeps (body x)) → keeps (for_each l body).
Proof.
  intros Hb. induction l as [|x l IH]; simpl; [by intros s a s' [= _ <-]|]. by apply keeps_bind.
Qed.
Lemma keeps_fold {A B} (body : B → A → tx db B) l b : (∀ b x, keeps (body b x)) → keeps (fold_tx body b l).
Proof.
  intros Hb. revert b. induction l as [|x l IH]; intros b; simpl; [by intros s a s' [= _ <-]|].
  by apply keeps_bind.
Qed.

Context {D : Type} (tbl : db → table D) `{!Updater tbl} (Htbl : ∀ g s, f (upd tbl g s) = f s).

Lemma keeps_patch i g : keeps (db_patch tbl i g).
Proof. by intros s u s' (d & _ & ->)%db_patch_done. Qed.
Lemma keeps_insert d : keeps (db_insert tbl d).
Proof. by intros s u s' [= _ <-]. Qed.
Lemma keeps_delete i : keeps (db_delete tbl i).
Proof. by intros s u s' (d & _ & ->)%db_delete_done. Qed.
End keeps.

Lemma keeps_modify {T} (f : db → T) g : (∀ s, f (g s) = f s) → keeps f (modify g).
Proof. intros Hg s u s' [= _ <-]. apply Hg. Qed.

(** What holds before a loop and is kept by its body on every element holds after it. *)
Lemma for_each_inv {A} (I : db → Prop) (l : list A) body :
  (∀ x s u s', x ∈ l → I s → body x s = Done (u, s') → I s') →
  ∀ s u s', I s → for_each l body s = Done (u, s') → I s'.
Proof.
  induction l as [|x l IH]; simpl; intros Hb s u s' HI H; [by injection H as _ <-|].
  tx_bind_in H u1 s1 H1. eapply IH; [|by eapply Hb; [left|..]|exact H]. intros. eapply Hb; [by right|done..].
Qed.

Lemma fold_inv {A B} (I : B → db → Prop) (l : list A) body :
  (∀ x b s b' s', x ∈ l → I b s → body b x s = Done (b', s') → I b' s') →
  ∀ b s b' s', I b s → fold_tx body b l s = Done (b', s') → I b' s'.
Proof.
  induction l as [|x l IH]; simpl; intros Hb b s b' s' HI H; [by injection H as <- <-|].
  tx_bind_in H b1 s1 H1. eapply IH; [|by eapply Hb; [left|..]|exact H]. intros. eapply Hb; [by right|done..].
Qed.

(** Walks over the binds and branches of a handler that leaves a table alone. *)
Ltac keeps_tac :=
  repeat first
    [ by apply keeps_reads; auto with effects
    | by apply keeps_patch
    | by apply keeps_insert
    | by apply keeps_delete
    | by apply keeps_modify
    | apply keeps_bind; [|intros ?]
    | apply keeps_for_each; intros ?
    | apply keeps_fold; intros ??
    | progress unfold db_get, db_where, db_first, when, run_after
    | case_match ].

(** ** Ranges of an index, one per value of its column *)

Section ranges.
Context {D K : Type} `{EqDecision K} (key : D → K).

Definition ranges (ks : list K) (t : table D) : list (Id * D) :=
  concat ((λ k, t_where (λ d, key d === k) t) <$> ks).

Lemma elem_of_ranges ks t r :
  r ∈ ranges ks t → rows t !! r.1 = Some r.2 ∧ key r.2 ∈ ks.
Proof.
  unfold ranges. intros (l & Hr & (k & -> & Hk)%list_elem_of_fmap)%elem_of_concat.
  apply t_where_sound in Hr as [Hr <-%bool_decide_eq_true]. done.
Qed.

Lemma ranges_complete ks t i d : t_wf t → rows t !! i = Some d → key d ∈ ks → (i, d) ∈ ranges ks t.
Proof.
  intros Hwf Hi Hk. apply elem_of_concat. exists (t_where (λ e, key e === key d) t).
  split; [|by apply list_elem_of_fmap; exists (key d)]. apply elem_of_t_where; [done|].
  by rewrite bool_decide_true.
Qed.

Lemma NoDup_ranges ks t : NoDup ks → NoDup (ranges ks t).*1.
Proof.
  intros Hnd. induction Hnd as [|k ks Hk _ IH]; [constructor|]. unfold ranges. csimpl.
  rewrite fmap_app, NoDup_app. split_and!; [apply NoDup_t_where_ids| |exact IH].
  intros i (r & -> & [Hr Hkr%bool_decide_eq_true]%t_where_sound)%list_elem_of_fmap (q & Eq & [Hq Hkq]%elem_of_ranges)%list_elem_of_fmap.
  rewrite Eq in Hr. rewrite Hr in Hq. injection Hq as Eq2. rewrite <- Eq2, Hkr in Hkq. done.
Qed.

Lemma map_tx_ranges (tbl : db → table D) ks s :
  (l ← map_tx (λ k, db_where tbl (λ d, key d === k)) ks; mret (concat l)) s =
  Done (ranges ks (tbl s), s).
Proof. unfold mbind, tx_bind. by rewrite (map_tx_where tbl (λ k d, key d === k)). Qed.
End ranges.

Definition live_attempts (s : db) : list (Id * attempt) := ranges at_state ACTIVE_ATTEMPT_STATES (attempts s).
Definition live_experiments (s : db) : list (Id * experiment) :=
  ranges xp_state ACTIVE_EXPERIMENT_STATES (experiments s).

Lemma active_attempts_run s : active_attempts s = Done (live_attempts s, s).
Proof. apply map_tx_ranges. Qed.
Lemma active_experiments_run s : active_experiments s = Done (live_experiments s, s).
Proof. apply map_tx_ranges. Qed.

Lemma live_attempt_state st : st ∈ ACTIVE_ATTEMPT_STATES ↔ terminal st = false.
Proof. by destruct st; split; intros H; try done; try set_solver; vm_compute in H; set_solver. Qed.

Lemma live_experiment_state st : st ∈ ACTIVE_EXPERIMENT_STATES ↔ experiment_terminal st = false.
Proof. by destruct st; split; intros H; try done; try set_solver; vm_compute in H; set_solver. Qed.

Lemma NoDup_live_attempts s : NoDup (live_attempts s).*1.
Proof. apply NoDup_ranges. repeat constructor; set_solver. Qed.
Lemma NoDup_live_experiments s : NoDup (live_experiments s).*1.
Proof. apply NoDup_ranges. repeat constructor; set_solver. Qed.

(** ** Work given up without touching the slot counter *)

Lemma t_set_twice {D} i (d e : D) t : rows t !! i = Some d → t_set i d (t_set i e t) = t.
Proof.
  intros Hi. destruct t as [r n]. unfold t_set. simpl in *. f_equal.
  by rewrite insert_insert_eq, insert_id.
Qed.

Section steps.
Context (E : event → Prop) (HL : E EvLegacy) (HQ : E EvRequeue) (HX : E EvExpire) (HR : E EvRetire).
Context (HK : E EvKeep) (HB : E EvBackstop) (HF : E EvForget).

Lemma restore_slot h t s :
  (∀ i d, rows t !! i = Some d → 0 ≤ mc_usedSlots d) →
  machines s = release_slot h t → moves E s (s <| machines := t |>).
Proof.
  intros Hu Hm. assert (machines s = t → moves E s (s <| machines := t |>)) as Hsame.
  { intros <-. simpl. rewrite db_eta. apply rtc_refl. }
  unfold release_slot in Hm. destruct h as [id|]; [|auto].
  destruct (rows t !! id) as [d|] eqn:Hd; [|auto]. apply rtc_once.
  assert (rows (machines s) !! id = Some (d <| mc_usedSlots := Z.max 0 (mc_usedSlots d - 1) |>)) as Hrow.
  { rewrite Hm. apply lookup_insert_eq. }
  pose proof (MvSlots E s id _ (mc_usedSlots d) HL Hrow (Hu id d Hd)) as Hmv.
  assert (t_set id (d <| mc_usedSlots := mc_usedSlots d |>) (machines s) = t) as Et.
  { rewrite Hm. etrans; [|exact (t_set_twice id d (d <| mc_usedSlots := Z.max 0 (mc_usedSlots d - 1) |>) t Hd)].
    by destruct d. }
  rewrite <- Et. exact Hmv.
Qed.

Lemma unassign_moves i a s :
  base s → rows (attempts s) !! i = Some a → at_state a = Pending → is_some (at_machineId a) = true →
  moves E s (s <| attempts ::= t_set i (a <| at_machineId := None |>) |>).
Proof.
  intros Hb Hi Hst Hm.
  assert (attempt_moves E a (a <| at_machineId := None |>)) as Hmv.
  { right. exists EvRequeue. split_and!; [done|by intros ?|]. unfold phase_of. simpl. rewrite Hst.
    destruct (at_machineId a); [constructor|done]. }
  eapply moves_trans.
  - apply rtc_once, (mv_requeue E s i a (a <| at_machineId := None |>)); try done.
    + intros Ha. pose proof Ha as [_ Hj _]. revert Ha.
      apply (attempt_ok_step E); [done|..]; simpl.
      * intros Haw. left. by apply Hj.
      * by rewrite Hst.
    + by rewrite Hst.
    + unfold holds. simpl. by rewrite Hst.
  - by eapply (restore_slot (at_machineId a) (machines s)); [apply Hb|].
Qed.

Lemma drop_experiment_moves i x x' s :
  base s → rows (experiments s) !! i = Some x → xholds x' = xholds x ∨ xholds x' = None →
  moves E s (s <| experiments ::= t_set i x' |>).
Proof.
  intros Hb Hi Hx. eapply moves_trans; [by apply rtc_once, (MvExperiment E s i x x')|].
  by eapply (restore_slot (freed (xholds x) (xholds x')) (machines s)); [apply Hb|].
Qed.

(** *** One job *)

Lemma queue_free_slot N ta m : queue E N anything (free_slot ta m).
Proof.
  destruct m as [[id d]|]; simpl; [|by apply queue_ret].
  eapply queue_bind; [apply queue_slots; [done|lia]|]. intros u _. by apply queue_ret.
Qed.

Lemma queue_reconcile_assigned N now ms cs ta r : queue E N anything (reconcile_assigned now ms cs ta r).
Proof.
  destruct r as [id j]. unfold reconcile_assigned. cbv zeta. case_match; [by apply queue_ret|].
  eapply queue_bind; [by apply queue_discard_all|intros _ _].
  eapply queue_bind; [apply queue_free_slot|intros ta' _].
  case_match; (eapply queue_bind; [apply queue_patch_job; [done|by right]|intros _ _; by apply queue_ret]).
Qed.

Lemma queue_reconcile_running N now ms cs ta r : queue E N anything (reconcile_running now ms cs ta r).
Proof.
  destruct r as [id j]. unfold reconcile_running. cbv zeta. case_match; [by apply queue_ret|].
  eapply queue_bind; [apply queue_patch_job; [done|by left]|intros _ _].
  eapply queue_bind; [apply queue_for_each|intros _ _].
  - intros c _. eapply queue_bind; [by apply queue_when, queue_patch_command|intros _ _].
    eapply queue_bind; [apply queue_enqueueRunnerDeletion|intros _ _]. by apply queue_ret.
  - eapply queue_bind; [apply queue_free_slot|intros ta' _]. by apply queue_ret.
Qed.

Lemma queue_reconcile_queued N now ta r : queue E N anything (reconcile_queued now ta r).
Proof.
  unfold reconcile_queued. case_match; [by apply queue_ret|].
  eapply queue_bind; [apply queue_patch_job; [done|by left]|intros _ _]. by apply queue_ret.
Qed.

Lemma queue_fold_any {A B} N (body : B → A → tx db B) l b :
  (∀ b x, queue E N anything (body b x)) → queue E N anything (fold_tx body b l).
Proof. intros Hb. by apply queue_fold. Qed.

(** *** One Attempt *)

Lemma reads_retirementBackstopDue a m now : reads (retirementBackstopDue a m now).
Proof. unfold retirementBackstopDue. reads_tac. Qed.

Lemma expire_moves i a a' s u s1 s' :
  rows (attempts s) !! i = Some a → terminal (at_state a) = false → at_machineId a = None →
  deleteAttemptSecret i s = Done (u, s1) → s' = s1 <| attempts ::= t_set i a' |> →
  same_identity a a' → phase_of a' = Phase Cancelled None (rt_outcome <$> at_retirement a) true →
  at_jitConfig a' = None → is_some (at_finishedAt a') = true →
  moves E s s' ∧ only_row i s s'.
Proof.
  intros Hi Ht Hm ->%deleteAttemptSecret_done -> Hid Hph Hj Hf. split; [|by eapply only_row_set].
  assert (attempt_moves E a a') as Hmv.
  { right. exists EvExpire. split_and!; [done|by intros ?|]. rewrite Hph. unfold phase_of. rewrite Hm. by constructor. }
  apply rtc_once, mv_drop with a; try done.
  - by apply (attempt_ok_step E); [done|by left..].
  - unfold holds. injection Hph as -> -> _ _. simpl. by rewrite Ht.
Qed.

Lemma reconcile_attempt_moves now ms ta i a s ta' s' :
  base s → rows (attempts s) !! i = Some a → terminal (at_state a) = false →
  reconcile_attempt now ms ta (i, a) s = Done (ta', s') → moves E s s' ∧ only_row i s s'.
Proof.
  intros Hb Hi Ht. unfold reconcile_attempt.
  assert (moves E s s ∧ only_row i s s) as Hrefl by (split; [apply rtc_refl|apply only_row_refl]).
  destruct (at_machineId a) as [mid|] eqn:Hmid.
  2:{ case_match; [|by intros [= _ <-]]. intros H1. tx_bind_in H1 u1 s1 H2. tx_bind_in H1 u2 s2 H3.
      injection H1 as _ <-. apply db_patch_done in H3 as (d & Hd & ->).
      pose proof H2 as Es%deleteAttemptSecret_done. rewrite Es in Hd. simpl in Hd. simplify_eq.
      eapply expire_moves; [exact Hi|exact Ht|exact Hmid|exact H2|reflexivity|..]; try done.
      unfold phase_of. simpl. by rewrite Hmid. }
  cbv zeta. case_match eqn:Hpend.
  { intros H1. tx_bind_in H1 u1 s1 H2. injection H1 as _ <-. apply db_patch_done in H2 as (d & Hd & ->).
    simplify_eq. apply andb_true_iff in Hpend as [Hst%bool_decide_eq_true _].
    split; [|by eapply only_row_set]. apply unassign_moves; try done. by rewrite Hmid. }
  case_match eqn:Hret.
  - intros H. tx_bind_in H kept s1 H1.
    assert (moves E s s1 ∧ only_row i s s1 ∧ (kept = false → s1 = s)) as (M1 & O1 & K1).
    { lazymatch type of H1 with (if ?b then _ else _) _ = _ => destruct b end; [|by injection H1 as <- <-].
      pose proof (keepForReturningWorker_moves E i a s kept s1 HK Hi H1) as [? ?].
      split_and!; [done..|]. intros ->. unfold keepForReturningWorker in H1.
      destruct (_ || _); [by injection H1 as <-|]. tx_bind_in H1 u s2 Hu. discriminate. }
    destruct kept; [by injection H as _ <-|]. rewrite (K1 eq_refl) in *.
    tx_bind_in H due s2 H2.
    apply reads_retirementBackstopDue in H2 as ->.
    destruct due; [|by injection H as _ <-].
    tx_bind_in H u3 s3 H3. tx_bind_in H ta3 s4 H4. injection H as _ <-.
    assert (s4 = s3) as ->.
    { revert H4. lazymatch goal with |- ?m s3 = _ → _ => assert (reads m) as Hm by reads_tac; apply Hm end. }
    eapply (finishRetirement_moves E i a true); [done..| |exact H3].
    destruct (iv_attempts _ Hb i a Hi) as [[Hr _] _ _]. apply Hr. simpl. by rewrite is_some_fmap.
  - case_match; [|by intros [= _ <-]]. intros H1. tx_bind_in H1 u1 s1 H2. injection H1 as _ <-.
    eapply retireAttempt_moves; [done|exact Hi|by rewrite Hmid|exact H2].
Qed.

(** When the run may end a live Attempt: no Worker took it for a day, or its retirement has been
    unconfirmed for hours with no live controller to confirm it, and its Worker is silent if a job
    runs there. *)
Definition abandon_due (now : Z) (ms : gmap Id machine) (reports : table controller_heartbeat)
    (a : attempt) : Prop :=
  match at_machineId a with
  | None => QUEUE_EXPIRED_MS < now - at_createdAt a
  | Some mid => ∃ rt, at_retirement a = Some rt ∧ RETIREMENT_UNCONFIRMED_MS < now - rt_requestedAt rt ∧
      (at_state a = Running → ∀ m, ms !! mid = Some m → workerReports m now = false) ∧
      lv_live (controllerLiveness (snd <$> take CONTROLLER_REPORT_LIMIT
        (t_where (λ h, hb_profile h === at_profile a) reports)) now) = 0%nat
  end.

Lemma backstop_due_done a m now s s' :
  retirementBackstopDue a m now s = Done (true, s') →
  ∃ rt, at_retirement a = Some rt ∧ RETIREMENT_UNCONFIRMED_MS < now - rt_requestedAt rt ∧
    (at_state a = Running → ∀ d, m = Some d → workerReports d now = false) ∧
    lv_live (controllerLiveness (snd <$> take CONTROLLER_REPORT_LIMIT
      (t_where (λ h, hb_profile h === at_profile a) (controllerHeartbeats s))) now) = 0%nat.
Proof.
  unfold retirementBackstopDue. destruct (at_retirement a) as [rt|]; [|done].
  destruct (Z.leb_spec (now - rt_requestedAt rt) RETIREMENT_UNCONFIRMED_MS) as [|Hlt]; [done|].
  destruct (_ && _) eqn:Hw; [done|]. intros [= Hl%Nat.eqb_eq _]. exists rt. split_and!; try done.
  intros Hrun d ->. rewrite Hrun in Hw. simpl in Hw. done.
Qed.

(** The row that one step of the loop leaves. *)
Lemma reconcile_attempt_row now ms ta i a s ta' s' :
  rows (attempts s) !! i = Some a → terminal (at_state a) = false →
  reconcile_attempt now ms ta (i, a) s = Done (ta', s') →
  ∃ a', rows (attempts s') !! i = Some a' ∧
    (terminal (at_state a') = true → abandon_due now ms (controllerHeartbeats s) a).
Proof.
  intros Hi Ht H. unfold reconcile_attempt in H. cbv zeta in H.
  assert (∀ f t u t', attempts t = attempts s → db_patch attempts i f t = Done (u, t') →
    rows (attempts t') !! i = Some (f a)) as Hpatch.
  { intros f t u t' Et (d & Hd & ->)%db_patch_done. rewrite Et, Hi in Hd. injection Hd as <-.
    apply lookup_insert_eq. }
  assert (∀ u t, deleteAttemptSecret i s = Done (u, t) → attempts t = attempts s) as Hsec.
  { by intros u t ->%deleteAttemptSecret_done. }
  assert (∀ a', at_state a' = at_state a → terminal (at_state a') = true → abandon_due now ms (controllerHeartbeats s) a)
    as Hlive by (intros a' ->; by rewrite Ht).
  unfold abandon_due in *. destruct (at_machineId a) as [mid|] eqn:Hmid.
  2:{ destruct (Z.ltb_spec QUEUE_EXPIRED_MS (now - at_createdAt a)) as [Hlt|]; [|injection H as _ <-; eauto].
      tx_bind_in H u1 s1 H1. tx_bind_in H u2 s2 H2. injection H as _ <-. eexists.
      split; [by eapply Hpatch; [eapply Hsec|]|done]. }
  destruct ((at_state a === Pending) && _).
  { tx_bind_in H u1 s1 H1. injection H as _ <-. eexists. split; [by eapply Hpatch|]. by apply Hlive. }
  destruct (is_some (at_retirement a)).
  - tx_bind_in H kept s1 H1.
    assert (∃ a1, rows (attempts s1) !! i = Some a1 ∧ at_state a1 = at_state a ∧ (kept = false → s1 = s))
      as (a1 & Ha1 & Est & Hs1).
    { lazymatch type of H1 with (if ?b then _ else _) _ = _ => destruct b end; [|injection H1 as <- <-; eauto].
      unfold keepForReturningWorker in H1. destruct (_ || _); [injection H1 as <- <-; eauto|].
      tx_bind_in H1 u s2 H2. injection H1 as <- <-. eexists. split; [by eapply Hpatch|done]. }
    destruct kept; [injection H as _ <-; eauto|]. rewrite (Hs1 eq_refl) in *. tx_bind_in H due s2 H2.
    pose proof H2 as ->%reads_retirementBackstopDue. destruct due; [|injection H as _ <-; eauto].
    apply backstop_due_done in H2 as (rt & Hrt & Hlt & Hw & Hc).
    tx_bind_in H u3 s3 H3. tx_bind_in H ta4 s4 H4. injection H as _ <-.
    assert (s4 = s3) as ->.
    { revert H4. lazymatch goal with |- ?m s3 = _ → _ => assert (reads m) as Hm by reads_tac; apply Hm end. }
    unfold finishRetirement in H3. rewrite Hrt in H3. cbv zeta in H3. tx_bind_in H3 u5 s5 H5.
    unfold releaseAttemptSlot in H5. rewrite releaseMachineSlot_run in H5. injection H5 as _ <-.
    tx_bind_in H3 u6 s6 H6. apply deleteAttemptSecret_done in H6 as ->. eexists.
    split; [by eapply Hpatch; [|exact H3]|]. intros _. exists rt. split_and!; try done.
    intros Hrun m Hm. apply (Hw Hrun). simpl. by rewrite Hm.
  - destruct (_ || _); [|injection H as _ <-; eauto]. tx_bind_in H b s1 H1. injection H as _ <-.
    unfold retireAttempt in H1. destruct (negb _); [done|]. destruct (is_some _); [injection H1 as _ <-; eauto|].
    tx_bind_in H1 u2 s2 H2. tx_bind_in H1 u3 s3 H3. injection H1 as _ <-.
    eexists. split; [by eapply Hpatch; [eapply Hsec|]|]. by apply Hlive.
Qed.

(** *** One Experiment *)

Lemma reconcile_experiment_moves now ms ta i x s ta' s' :
  base s → rows (experiments s) !! i = Some x →
  reconcile_experiment now ms ta (i, x) s = Done (ta', s') →
  moves E s s' ∧ ∀ j, j ≠ i → rows (experiments s') !! j = rows (experiments s) !! j.
Proof.
  intros Hb Hi. unfold reconcile_experiment. cbv zeta.
  assert (∀ f u s1, db_patch experiments i f s = Done (u, s1) → xholds (f x) = None →
    moves E s s1 ∧ ∀ j, j ≠ i → rows (experiments s1) !! j = rows (experiments s) !! j) as Hpatch.
  { intros f u s1 (d & Hd & ->)%db_patch_done Hx. simplify_eq. split.
    - apply (drop_experiment_moves i x (f x)); auto.
    - intros j Hj. simpl. by rewrite lookup_insert_ne. }
  assert (moves E s s ∧ ∀ j, j ≠ i → rows (experiments s) !! j = rows (experiments s) !! j) as Hrefl
    by (split; [apply rtc_refl|done]).
  destruct (xp_machineId x) as [mid|] eqn:Hmid.
  - case_match.
    { intros H1. tx_bind_in H1 u1 s1 H2. injection H1 as _ <-. eapply Hpatch; [exact H2|].
      unfold xholds. simpl. by destruct (xp_state x). }
    case_match; [|by intros [= _ <-]]. intros H1. tx_bind_in H1 u1 s1 H2. injection H1 as _ <-.
    by eapply Hpatch.
  - case_match; [|by intros [= _ <-]]. intros H1. tx_bind_in H1 u1 s1 H2. injection H1 as _ <-.
    by eapply Hpatch.
Qed.
End steps.

(** ** The slots the run expects *)

Section counting.
Context {D K : Type} `{EqDecision K} (key : D → K).

Lemma zsum_ranges (g f : D → Z) ks t :
  NoDup ks → (∀ d, key d ∈ ks → g d = f d) → (∀ d, key d ∉ ks → f d = 0) →
  zsum (g ∘ snd) (ranges key ks t) = t_sum f t.
Proof.
  intros Hnd Hg Hf. rewrite (zsum_ext _ (f ∘ snd)).
  - apply (zsum_partition (key ∘ snd) (f ∘ snd)); [done|]. intros r _. apply Hf.
  - intros r [_ Hr]%elem_of_ranges. by apply Hg.
Qed.
End counting.

Lemma count_slots id (l : list (option Id)) m :
  or_else 0 (foldl (λ m o, count_slot o m) m l !! id) = or_else 0 (m !! id) + zcount (λ o, o === Some id) l.
Proof.
  revert m. induction l as [|o l IH]; intros m; simpl; [unfold zcount; simpl; lia|].
  rewrite IH. unfold zcount at 2. simpl. fold (zcount (λ o, o === Some id) l). destruct o as [k|]; simpl.
  - destruct (decide (k = id)) as [->|Hne].
    + rewrite lookup_insert_eq, bool_decide_true by done. simpl. lia.
    + rewrite lookup_insert_ne, bool_decide_false by congruence. simpl. lia.
  - lia.
Qed.

Lemma expected_slots_run s :
  ∃ ex, expected_slots s = Done (ex, s) ∧ ∀ id, or_else 0 (ex !! id) = slot_load id s.
Proof.
  unfold expected_slots, jobs_with. unfold mbind, tx_bind.
  rewrite (map_tx_where jobs (λ k d, jb_status d === k)), active_attempts_run, active_experiments_run.
  eexists. split; [done|]. intros id. rewrite count_slots, lookup_empty. simpl.
  unfold zcount. rewrite !zsum_app, !zsum_fmap.
  unfold slot_load, db_load, legacy_load, live_attempts, live_experiments.
  pose proof (zsum_ranges jb_status (λ j, b2z (jb_machineId j === Some id)) (job_load id)
    [JAssigned; JRunning] (jobs s)) as Hj.
  pose proof (zsum_ranges at_state (λ a, b2z (at_machineId a === Some id)) (attempt_load Guests id)
    ACTIVE_ATTEMPT_STATES (attempts s)) as Ha.
  pose proof (zsum_ranges xp_state (λ x, b2z (xp_machineId x === Some id)) (experiment_load Guests id)
    ACTIVE_EXPERIMENT_STATES (experiments s)) as Hx.
  change (t_where _ _ ++ t_where _ _ ++ []) with (ranges jb_status [JAssigned; JRunning] (jobs s)).
  unfold compose in *. rewrite Hj, Ha, Hx; [lia|..].
  - repeat constructor; set_solver.
  - intros x Hl%live_experiment_state. rewrite experiment_load_holds. unfold xholds.
    by destruct (xp_state x).
  - intros x Hl. rewrite live_experiment_state in Hl. rewrite experiment_load_holds. unfold xholds.
    by destruct (xp_state x).
  - repeat constructor; set_solver.
  - intros a Hl%live_attempt_state. rewrite attempt_load_holds. unfold holds. by rewrite Hl.
  - intros a Hl. rewrite live_attempt_state in Hl. rewrite attempt_load_holds. unfold holds.
    by destruct (terminal (at_state a)).
  - repeat constructor; set_solver.
  - intros j Hl. unfold job_load. destruct (jb_status j); try done; set_solver.
  - intros j Hl. unfold job_load. destruct (jb_status j); try done; set_solver.
Qed.

(** ** Retention *)

Lemma inert_for_each {A} (l : list A) body : (∀ x, inert (body x)) → inert (for_each l body).
Proof. intros Hb. induction l as [|x l IH]; simpl; [inert_tac|]. by apply inert_bind. Qed.

Lemma inert_retain_registrations now : inert (retain_registrations now).
Proof.
  unfold retain_registrations. apply inert_bind; [inert_tac|intros ?]. apply inert_bind; [inert_tac|intros ?].
  apply inert_for_each. intros ?. inert_tac.
Qed.

Lemma inert_retain_deliveries now : inert (retain_deliveries now).
Proof.
  apply inert_for_each. intros st. apply inert_bind; [inert_tac|intros ?]. apply inert_for_each. intros ?. inert_tac.
Qed.

Lemma inert_retain_recoveries now : inert (retain_recoveries now).
Proof.
  apply inert_for_each. intros st. apply inert_bind; [inert_tac|intros ?]. apply inert_for_each. intros ?. inert_tac.
Qed.

Lemma elem_of_take_sub {A} (x : A) n l : x ∈ take n l → x ∈ l.
Proof. intros Hx. rewrite <- (take_drop n l), elem_of_app. by left. Qed.

Lemma elem_of_oldest {D} (key : D → Z) n l r : r ∈ oldest key n l → r ∈ l.
Proof.
  unfold oldest. intros Hr%elem_of_take_sub. by eapply elem_of_to_sorted.
Qed.

(** Only finished Attempts that nobody has to clean up, and that finished (or, with no finish
    time, were created) long enough ago, are forgotten. *)
Definition forgettable (now : Z) (a : attempt) : Prop :=
  terminal (at_state a) = true ∧ at_runnerCleanupPending a = None ∧
  or_else (at_createdAt a) (at_finishedAt a) ≤ now - TERMINAL_WORK_RETENTION_MS.

Lemma expired_attempts_done st now s l s' :
  st ∈ TERMINAL_ATTEMPT_STATES → expired_attempts st now s = Done (l, s') →
  s' = s ∧ ∀ r, r ∈ l → rows (attempts s) !! r.1 = Some r.2 ∧ forgettable now r.2.
Proof.
  intros Hst H. unfold expired_attempts in H. tx_bind_in H l1 s1 H1. injection H1 as <- <-.
  tx_bind_in H l2 s1 H1. injection H1 as <- <-. injection H as <- <-. split; [done|].
  assert (terminal st = true) as Ht by (by destruct st; try done; vm_compute in Hst; set_solver).
  intros r [Hr%elem_of_oldest|Hr]%elem_of_app.
  - apply t_where_sound in Hr as [Hr Hp]. split; [done|].
    apply andb_true_iff in Hp as [[<-%bool_decide_eq_true Hc]%andb_true_iff Hf].
    unfold forgettable. destruct (at_runnerCleanupPending r.2); [done|].
    destruct (at_finishedAt r.2) as [t|]; [|done]. apply andb_true_iff in Hf as [_ Hf%Z.leb_le]. simpl. auto.
  - apply list_elem_of_filter in Hr as [Hage%Z.leb_le Hr].
    apply elem_of_take_sub, t_where_sound in Hr as [Hr Hp]. split; [done|].
    apply andb_true_iff in Hp as [[<-%bool_decide_eq_true Hc]%andb_true_iff Hf].
    unfold forgettable. destruct (at_runnerCleanupPending r.2); [done|].
    destruct (at_finishedAt r.2); [done|]. simpl. split_and!; [done..|lia].
Qed.

(** A store whose Attempts are rows of an earlier one. *)
Definition fewer_attempts (s0 s : db) : Prop :=
  ∀ i a, rows (attempts s) !! i = Some a → rows (attempts s0) !! i = Some a.

Lemma inert_deleteAttemptEgress i : inert (deleteAttemptEgress i).
Proof. unfold deleteAttemptEgress. inert_tac. Qed.

Section retention.
Context (E : event → Prop) (HL : E EvLegacy) (HF : E EvForget).

Lemma forget_attempt_moves r s u s' :
  (∀ a, rows (attempts s) !! r.1 = Some a → terminal (at_state a) = true ∧ at_runnerCleanupPending a = None) →
  forget_attempt r s = Done (u, s') → moves E s s' ∧ attempts s' = t_del r.1 (attempts s).
Proof.
  intros Hr H. unfold forget_attempt in H. tx_bind_in H u1 s1 H1. apply deleteAttemptSecret_done in H1 as ->.
  tx_bind_in H u2 s2 H2. pose proof (inert_deleteAttemptEgress _ _ _ _ H2) as [Hc Hp].
  apply db_delete_done in H as (a & Ha & ->). unfold core in Hc. injection Hc as Em Ea Es Ex Ej Ec. simpl in *.
  rewrite Ea in Ha. destruct (Hr a Ha) as [Ht Hcl]. split; [|by rewrite Ea].
  eapply moves_trans.
  - eapply rtc_once, (MvForget E s r.1 a); [done..|]. by rewrite Hcl.
  - apply rtc_once, MvFrame; [|by simpl; rewrite Hp]. unfold core. simpl. by rewrite Em, Ea, Es, Ex, Ej, Ec.
Qed.

Lemma retain_attempts_moves now s u s' :
  retain_attempts now s = Done (u, s') →
  moves E s s' ∧ fewer_attempts s s' ∧
  ∀ i a, rows (attempts s) !! i = Some a → rows (attempts s') !! i = None → forgettable now a.
Proof.
  set (P s' := moves E s s' ∧ fewer_attempts s s' ∧
    ∀ i a, rows (attempts s) !! i = Some a → rows (attempts s') !! i = None → forgettable now a).
  apply (for_each_inv P); [|by unfold P; split_and!; [apply rtc_refl|intros ??|intros ?? ->]].
  intros st s1 u1 s2 Hst H1 H. tx_bind_in H l s3 H3.
  apply expired_attempts_done in H3 as [-> Hl]; [|done].
  cut (P s2 ∧ fewer_attempts s1 s2); [by intros []|].
  revert H. apply (for_each_inv (λ s2, P s2 ∧ fewer_attempts s1 s2)); [|by split; [|intros ??]].
  intros r s3 u3 s4 Hr [(M3 & F3 & G3) F13] H. destruct (Hl r Hr) as [Hrow Hfg].
  assert (∀ a, rows (attempts s3) !! r.1 = Some a → a = r.2) as Heq
    by (intros a Ha%F13; congruence).
  eapply forget_attempt_moves in H as [M4 E4].
  2:{ intros a ->%Heq. by destruct Hfg as (? & ? & _). }
  assert (∀ i a, rows (attempts s4) !! i = Some a → rows (attempts s3) !! i = Some a) as Hsub.
  { intros i a. rewrite E4. simpl. by intros [_ ?]%lookup_delete_Some. }
  split; [|by intros i a ?%Hsub%F13]. split_and!; [by eapply moves_trans|by intros i a ?%Hsub%F3|].
  intros i a Hi. rewrite E4. simpl. rewrite lookup_delete_None. intros [<-|Hn]; [|by eapply G3].
  destruct (rows (attempts s3) !! r.1) as [b|] eqn:Hb; [|by eapply G3].
  pose proof (F3 _ _ Hb) as Hb0. rewrite Hi in Hb0. injection Hb0 as ->. by rewrite (Heq b eq_refl).
Qed.

Lemma queue_retain_jobs N now : queue E N anything (retain_jobs now).
Proof.
  apply queue_for_each. intros st _. eapply queue_bind; [apply queue_inert; inert_tac|intros l _].
  apply queue_for_each. intros r _. by apply queue_when, queue_delete_job.
Qed.

Lemma expired_experiments_done st now s l s' :
  experiment_terminal st = true → expired_experiments st now s = Done (l, s') →
  s' = s ∧ ∀ r, r ∈ l → rows (experiments s) !! r.1 = Some r.2 ∧ xholds r.2 = None.
Proof.
  intros Hst H. unfold expired_experiments in H. tx_bind_in H l1 s1 H1. injection H1 as <- <-.
  tx_bind_in H l2 s1 H1. injection H1 as <- <-. injection H as <- <-. split; [done|].
  assert (∀ r P, r ∈ t_where (λ x, (xp_state x === st) && P x) (experiments s) →
    rows (experiments s) !! r.1 = Some r.2 ∧ xholds r.2 = None) as Hw.
  { intros r P [Hr [<-%bool_decide_eq_true _]%andb_true_iff]%t_where_sound. split; [done|].
    unfold xholds. by destruct (xp_state r.2). }
  intros r [Hr%elem_of_oldest|Hr]%elem_of_app; [exact (Hw r _ Hr)|].
  apply list_elem_of_filter in Hr as [_ Hr]. apply elem_of_take_sub in Hr. exact (Hw r _ Hr).
Qed.

Lemma retain_experiments_moves now s u s' :
  retain_experiments now s = Done (u, s') → moves E s s' ∧ attempts s' = attempts s.
Proof.
  apply (for_each_inv (λ s1, moves E s s1 ∧ attempts s1 = attempts s)); [|by split; [apply rtc_refl|]].
  intros st s1 u1 s2 Hst H1 H. tx_bind_in H l s3 H3.
  assert (experiment_terminal st = true) as Ht by (by destruct st; try done; vm_compute in Hst; set_solver).
  apply expired_experiments_done in H3 as [-> Hl]; [|done].
  cut ((moves E s s2 ∧ attempts s2 = attempts s) ∧
    ∀ i x, rows (experiments s2) !! i = Some x → rows (experiments s1) !! i = Some x); [by intros []|].
  revert H. apply (for_each_inv (λ s2, (moves E s s2 ∧ attempts s2 = attempts s) ∧
    ∀ i x, rows (experiments s2) !! i = Some x → rows (experiments s1) !! i = Some x)); [|done].
  intros r s3 u3 s4 Hr [[M3 A3] F3] (x & Hx & ->)%db_delete_done. destruct (Hl r Hr) as [Hrow Hh].
  assert (x = r.2) as -> by (apply F3 in Hx; congruence). split.
  - split; [|done]. eapply moves_trans; [exact M3|]. by eapply rtc_once, MvForgetExperiment.
  - intros i y. simpl. intros [_ Hy]%lookup_delete_Some. by apply F3.
Qed.

Lemma retain_moves now s u s' :
  base s → retain now s = Done (u, s') →
  moves E s s' ∧ fewer_attempts s s' ∧
  ∀ i a, rows (attempts s) !! i = Some a → rows (attempts s') !! i = None → forgettable now a.
Proof.
  intros Hb H. unfold retain in H. tx_bind_in H u1 s1 H1. tx_bind_in H u2 s2 H2. tx_bind_in H u3 s3 H3.
  tx_bind_in H u4 s4 H4. tx_bind_in H u5 s5 H5.
  assert (∀ s s', core s' = core s → attempts s' = attempts s) as Hat by (by unfold core; intros ?? [=]).
  assert (moves E s s3 ∧ attempts s3 = attempts s) as [M3 A3].
  { pose proof (inert_retain_registrations _ _ _ _ H1) as [C1%Hat _].
    pose proof (inert_retain_deliveries _ _ _ _ H2) as [C2%Hat _].
    pose proof (inert_retain_recoveries _ _ _ _ H3) as [C3%Hat _]. split; [|congruence].
    eapply moves_trans; [by eapply inert_moves, H1; apply inert_retain_registrations|].
    eapply moves_trans; [by eapply inert_moves, H2; apply inert_retain_deliveries|].
    by eapply inert_moves, H3; apply inert_retain_recoveries. }
  assert (base s3) as Hb3 by (by eapply base_moves).
  destruct (queue_retain_jobs _ now _ _ _ Hb3 eq_refl H4) as (M4 & (A4 & _) & _).
  apply retain_attempts_moves in H5 as (M5 & F5 & G5). apply retain_experiments_moves in H as [M6 A6].
  assert (attempts s4 = attempts s) as A4s by congruence. split_and!.
  - repeat (eapply moves_trans; [eassumption|]). done.
  - intros i a. rewrite A6. intros Hi%F5. by rewrite <- A4s.
  - intros i a. rewrite A6, <- A4s. apply G5.
Qed.
End retention.
