(* ===== verification/SlotRepair.v ===== *)
(** Reconciliation leaves every slot counter exact: the run's own tally follows the counters it
    writes, work only goes away, and the last loop repairs what is still off. *)

From S2P Require Import Prelude JsLib Schema HostLabels Egress Isolation Benchmark Scheduler.
From S2P Require Import Placement Retirement ControllerApi WorkerApi Fleet LegacyJobs Webhooks.
From S2P Require Import Reconcile Lifecycle Handlers LegacyMoves ReconcileMoves.

(** ** The machines the run knows *)

Lemma map_of_none {K V} `{Countable K} (l : list (K * V)) k : map_of l !! k = None → k ∉ l.*1.
Proof.
  rewrite map_of_list_to_map. intros Hk%not_elem_of_list_to_map_2. by rewrite fmap_reverse, elem_of_reverse in Hk.
Qed.

Lemma map_tx_get (l : list Id) s :
  map_tx (λ id, db_get machines id) l s = Done ((λ id, rows (machines s) !! id) <$> l, s).
Proof.
  induction l as [|i l IH]; [done|]. csimpl. unfold mbind, tx_bind at 1. simpl.
  unfold mbind, tx_bind. by rewrite IH.
Qed.

(** Every machine that work names or that counts a slot is in the list, as it is stored. *)
Lemma machines_of_run refs s :
  t_wf (machines s) →
  ∃ ms, machines_of refs s = Done (ms, s) ∧
    (∀ r, r ∈ ms → rows (machines s) !! r.1 = Some r.2) ∧
    ∀ id m, rows (machines s) !! id = Some m → id ∉ ms.*1 → id ∉ refs ∧ mc_usedSlots m ≤ 0.
Proof.
  intros Hwf. unfold machines_of, mbind, tx_bind. rewrite map_tx_get. simpl.
  eexists. split; [done|]. set (known := omap _ _). set (sorted := to_sorted _ _).
  assert (∀ r, r ∈ known ↔ r.1 ∈ refs ∧ rows (machines s) !! r.1 = Some r.2) as Hknown.
  { intros [id d]. unfold known. rewrite list_elem_of_omap. simpl. split.
    - intros ([id' o] & Hin & Ho). simpl in Ho. destruct o as [d'|]; [|done]. injection Ho as <- <-.
      rewrite zip_with_fmap_r, zip_with_diag in Hin. apply list_elem_of_fmap in Hin as (k & [= <- Hk] & Hin).
      rewrite elem_of_set_of in Hin. split; [done|congruence].
    - intros [Hin Hd]. exists (id, Some d). split; [|done].
      rewrite zip_with_fmap_r, zip_with_diag. apply list_elem_of_fmap. exists id.
      rewrite Hd. by rewrite elem_of_set_of. }
  split.
  - intros r [Hr%Hknown|Hr]%elem_of_app; [by destruct Hr|].
    apply list_elem_of_filter in Hr as [_ Hr%elem_of_to_sorted]. by apply t_where_sound in Hr as [? _].
  - intros id m Hm. rewrite fmap_app, elem_of_app. intros Hni.
    assert (id ∉ known.*1) as Hk by tauto. split.
    + intros Hin. apply Hk. apply list_elem_of_fmap. exists (id, m). split; [done|]. by apply Hknown.
    + destruct (Z.le_gt_cases (mc_usedSlots m) 0) as [|Hpos]; [done|]. destruct Hni. right.
      apply list_elem_of_fmap. exists (id, m). split; [done|]. apply list_elem_of_filter. split; [done|].
      apply elem_of_to_sorted, elem_of_t_where; [done..|]. split; [done|]. by apply Z.ltb_lt.
Qed.

(** ** The invariant of the recovery phase *)

(** What the slot counters depend on. *)
Definition slot_view (s : db) := (machines s, jobs s, attempts s, experiments s).

Section run.
Context (s0 : db) (ms : list (Id * machine)).

(** The tally holds the counters of the machines the run knows. *)
Definition in_sync (ta : tally) (s : db) : Prop :=
  ∀ r, r ∈ ms → ∃ m, rows (machines s) !! r.1 = Some m ∧ ta_slots ta !! r.1 = Some (mc_usedSlots m).

Record keeping (ta : tally) (s : db) : Prop := {
  kp_jobs : t_wf (jobs s);
  kp_attempts : t_wf (attempts s);
  kp_experiments : t_wf (experiments s);
  kp_load : ∀ id, slot_load id s ≤ slot_load id s0;
  kp_other : ∀ id, id ∉ ms.*1 → rows (machines s) !! id = rows (machines s0) !! id;
  kp_sync : in_sync ta s;
}.

Lemma keeping_view ta s s' : slot_view s' = slot_view s → keeping ta s → keeping ta s'.
Proof.
  intros [= Em Ej Ea Ex] [H1 H2 H3 H4 H5 H6].
  split; unfold slot_load, db_load, legacy_load, in_sync in *; rewrite ?Em, ?Ej, ?Ea, ?Ex; auto.
Qed.

Lemma keeping_keeps {A} ta (m : tx db A) s a s' :
  keeps slot_view m → m s = Done (a, s') → keeping ta s → keeping ta s'.
Proof. intros Hm ?%Hm. by apply keeping_view. Qed.

Lemma keeping_tally ta ta' s : ta_slots ta' = ta_slots ta → keeping ta s → keeping ta' s.
Proof. intros E []. split; try done. unfold in_sync in *. by rewrite E. Qed.

(** *** Rows written or deleted *)

Lemma keeping_tables ta s s' :
  machines s' = machines s → t_wf (jobs s') → t_wf (attempts s') → t_wf (experiments s') →
  (∀ id, slot_load id s' ≤ slot_load id s) → keeping ta s → keeping ta s'.
Proof.
  intros Em Hj Ha Hx Hl []. split; try done.
  - intros id. etrans; [apply Hl|done].
  - by rewrite Em.
  - unfold in_sync. by rewrite Em.
Qed.

Lemma keeping_job ta i f s u s' :
  (∀ id d, job_load id (f d) ≤ job_load id d) → db_patch jobs i f s = Done (u, s') →
  keeping ta s → keeping ta s'.
Proof.
  intros Hf (d & Hd & ->)%db_patch_done Hk. pose proof Hk as [Hj Ha Hx _ _ _].
  apply (keeping_tables ta s); try done; [by eapply t_wf_set|]. intros id. specialize (Hf id d).
  pose proof (t_sum_set (job_load id) _ i d (f d) Hj Hd) as H.
  unfold slot_load, db_load, legacy_load. simpl. lia.
Qed.

Lemma keeping_del_job ta i s u s' : db_delete jobs i s = Done (u, s') → keeping ta s → keeping ta s'.
Proof.
  intros (d & Hd & ->)%db_delete_done Hk. pose proof Hk as [Hj Ha Hx _ _ _].
  apply (keeping_tables ta s); try done; [by apply t_wf_del|]. intros id.
  pose proof (t_sum_del (job_load id) _ i d Hj Hd) as H.
  assert (0 ≤ job_load id d) by (unfold job_load; by destruct (_ && _)).
  unfold slot_load, db_load, legacy_load. simpl. lia.
Qed.

Lemma holds_load id a a' :
  holds a' = holds a ∨ holds a' = None → attempt_load Guests id a' ≤ attempt_load Guests id a.
Proof.
  rewrite !attempt_load_holds. intros [->| ->]; [lia|]. rewrite (bool_decide_false (None = _)) by done.
  by destruct (holds a === Some id).
Qed.

Lemma keeping_attempt_set ta i a a' s :
  rows (attempts s) !! i = Some a → holds a' = holds a ∨ holds a' = None → keeping ta s →
  keeping ta (s <| attempts ::= t_set i a' |>).
Proof.
  intros Hd Hh Hk. pose proof Hk as [Hj Ha Hx _ _ _].
  apply (keeping_tables ta s); try done; [by eapply t_wf_set|]. intros id.
  pose proof (holds_load id a a' Hh) as Hf.
  pose proof (t_sum_set (attempt_load Guests id) _ i a a' Ha Hd) as H.
  unfold slot_load, db_load, legacy_load. simpl. lia.
Qed.

Lemma keeping_attempt ta i f s u s' :
  (∀ a, rows (attempts s) !! i = Some a → holds (f a) = holds a ∨ holds (f a) = None) →
  db_patch attempts i f s = Done (u, s') → keeping ta s → keeping ta s'.
Proof. intros Hf (a & Ha & ->)%db_patch_done Hk. by eapply keeping_attempt_set; [|apply Hf|]. Qed.

Lemma keeping_del_attempt ta i s u s' : db_delete attempts i s = Done (u, s') → keeping ta s → keeping ta s'.
Proof.
  intros (d & Hd & ->)%db_delete_done Hk. pose proof Hk as [Hj Ha Hx _ _ _].
  apply (keeping_tables ta s); try done; [by apply t_wf_del|]. intros id.
  pose proof (t_sum_del (attempt_load Guests id) _ i d Ha Hd) as H.
  assert (0 ≤ attempt_load Guests id d) by (rewrite attempt_load_holds; by destruct (_ === _)).
  unfold slot_load, db_load, legacy_load. simpl. lia.
Qed.

Lemma keeping_experiment ta i f s u s' :
  (∀ x, rows (experiments s) !! i = Some x → xholds (f x) = xholds x ∨ xholds (f x) = None) →
  db_patch experiments i f s = Done (u, s') → keeping ta s → keeping ta s'.
Proof.
  intros Hf (x & Hd & ->)%db_patch_done Hk. pose proof Hk as [Hj Ha Hx _ _ _].
  apply (keeping_tables ta s); try done; [by eapply t_wf_set|]. intros id.
  assert (experiment_load Guests id (f x) ≤ experiment_load Guests id x) as Hl.
  { rewrite !experiment_load_holds. destruct (Hf x Hd) as [->| ->]; [lia|].
    rewrite (bool_decide_false (None = _)) by done. by destruct (xholds x === Some id). }
  pose proof (t_sum_set (experiment_load Guests id) _ i x (f x) Hx Hd) as H.
  unfold slot_load, db_load, legacy_load. simpl. lia.
Qed.

Lemma keeping_del_experiment ta i s u s' :
  db_delete experiments i s = Done (u, s') → keeping ta s → keeping ta s'.
Proof.
  intros (d & Hd & ->)%db_delete_done Hk. pose proof Hk as [Hj Ha Hx _ _ _].
  apply (keeping_tables ta s); try done; [by apply t_wf_del|]. intros id.
  pose proof (t_sum_del (experiment_load Guests id) _ i d Hx Hd) as H.
  assert (0 ≤ experiment_load Guests id d) by (rewrite experiment_load_holds; by destruct (_ === _)).
  unfold slot_load, db_load, legacy_load. simpl. lia.
Qed.

(** *** The counter and the tally, written together *)

Lemma keeping_slot ta i m n s :
  (i, m) ∈ ms → keeping ta s → (∃ d, rows (machines s) !! i = Some d) →
  ∀ ta', ta_slots ta' = <[i := n]> (ta_slots ta) →
  ∀ t, (∀ d, rows (machines s) !! i = Some d → t = t_set i (d <| mc_usedSlots := n |>) (machines s)) →
  keeping ta' (s <| machines := t |>).
Proof.
  intros Hi [H1 H2 H3 H4 H5 H6] [d Hd] ta' Eta t Ht. specialize (Ht d Hd) as ->.
  split; simpl; try done.
  - intros id Hid. rewrite lookup_insert_ne; [by apply H5|]. intros <-. apply Hid.
    apply list_elem_of_fmap. by exists (i, m).
  - intros r Hr. simpl. rewrite Eta. destruct (decide (i = r.1)) as [->|Hne].
    + rewrite !lookup_insert_eq. by eexists.
    + rewrite !lookup_insert_ne by done. by apply H6.
Qed.

Lemma keeping_free_slot ta m s ta' s' :
  (∀ r, m = Some r → r ∈ ms) → free_slot ta m s = Done (ta', s') → keeping ta s → keeping ta' s'.
Proof.
  intros Hm H Hk. destruct m as [[id d]|]; simpl in H; [|by injection H as <- <-].
  tx_bind_in H u s1 H1. injection H as <- <-. apply db_patch_done in H1 as (e & He & ->).
  eapply (keeping_slot ta id d); [by apply Hm|done|eauto|done|]. intros ? Hd. by simplify_eq.
Qed.

(** *** The recovery phase *)

Context (now : Z) (cs : list (Id * command)).
Let byId := map_of ms.

Lemma machine_of_known o r : machine_of byId o = Some r → r ∈ ms ∧ o = Some r.1.
Proof.
  unfold machine_of. destruct o as [i|]; [|done]. intros (d & Hd & ->)%fmap_Some. split; [|done].
  by apply map_of_elem.
Qed.

Lemma keeps_discard_all l j : keeps slot_view (discard_all l j now).
Proof. unfold discard_all, discardCommand, enqueueRunnerDeletion. keeps_tac. Qed.

Lemma ended_job_load id j d :
  jb_status d ≠ JAssigned → jb_status d ≠ JRunning → job_load id d ≤ job_load id j.
Proof.
  intros H1 H2. unfold job_load at 1. rewrite !bool_decide_false by done. simpl.
  unfold job_load. by destruct (_ && _).
Qed.

Lemma keeping_assigned ta r s ta' s' :
  reconcile_assigned now byId cs ta r s = Done (ta', s') → keeping ta s → keeping ta' s'.
Proof.
  destruct r as [id j]. unfold reconcile_assigned. cbv zeta.
  destruct (_ && _); [by intros [= <- <-]|]. intros H Hk. tx_bind_in H u1 s1 H1.
  apply (keeping_keeps ta) in H1; [|apply keeps_discard_all|done]. tx_bind_in H ta2 s2 H2.
  apply keeping_free_slot in H2; [|by intros r Hr; apply machine_of_known in Hr as []|done].
  destruct (decideAttemptOutcome _ _ _); tx_bind_in H u3 s3 H3; injection H as <- <-.
  - apply (keeping_tally ta2); [done|]. eapply keeping_job; [|exact H3|exact H2]. intros. by apply ended_job_load.
  - eapply keeping_job; [|exact H3|exact H2]. intros. by apply ended_job_load.
Qed.

Lemma keeping_running ta r s ta' s' :
  reconcile_running now byId cs ta r s = Done (ta', s') → keeping ta s → keeping ta' s'.
Proof.
  destruct r as [id j]. unfold reconcile_running. cbv zeta.
  destruct (negb _); [by intros [= <- <-]|]. intros H Hk. tx_bind_in H u1 s1 H1.
  eapply (keeping_job ta) in H1; [|by intros; apply ended_job_load|done]. tx_bind_in H u2 s2 H2.
  apply (keeping_keeps ta) in H2; [|unfold enqueueRunnerDeletion; keeps_tac|done].
  tx_bind_in H ta3 s3 H3. injection H as <- <-. apply (keeping_tally ta3); [done|].
  eapply keeping_free_slot; [|exact H3|done]. by intros r Hr; apply machine_of_known in Hr as [].
Qed.

Lemma keeping_queued ta r s ta' s' :
  reconcile_queued now ta r s = Done (ta', s') → keeping ta s → keeping ta' s'.
Proof.
  unfold reconcile_queued. destruct (_ <=? _); [by intros [= <- <-]|]. intros H Hk. tx_bind_in H u1 s1 H1.
  injection H as <- <-. apply (keeping_tally ta); [done|]. eapply keeping_job; [|exact H1|done].
  intros. by apply ended_job_load.
Qed.

Lemma keeps_deleteAttemptSecret i : keeps slot_view (deleteAttemptSecret i).
Proof. unfold deleteAttemptSecret. keeps_tac. Qed.

Lemma keeping_retire ta i a o reason s b s' :
  retireAttempt i a o reason now s = Done (b, s') → keeping ta s → keeping ta s'.
Proof.
  unfold retireAttempt. destruct (negb _); [done|]. destruct (is_some _); [by intros [= _ <-]|].
  intros H Hk. tx_bind_in H u1 s1 H1. apply (keeping_keeps ta) in H1; [|apply keeps_deleteAttemptSecret|done].
  tx_bind_in H u2 s2 H2. injection H as _ <-. eapply keeping_attempt; [|exact H2|done]. by left.
Qed.

Lemma keeping_keep ta i a s b s' :
  keepForReturningWorker i a s = Done (b, s') → keeping ta s → keeping ta s'.
Proof.
  unfold keepForReturningWorker. destruct (_ || _); [by intros [= _ <-]|].
  intros H Hk. tx_bind_in H u s1 H1. injection H as _ <-. eapply keeping_attempt; [|exact H1|done]. by left.
Qed.

(** A retirement given up on: the slot goes back first, and the tally reads it again. *)
Lemma keeping_backstop ta i a mid s u s1 :
  at_machineId a = Some mid → (byId !! mid = None → rows (machines s0) !! mid = None) →
  keeping ta s → finishRetirement i a true now s = Done (u, s1) →
  ∀ ta' s', (match machine_of byId (Some mid) with
    | None => mret ta
    | Some (mi, _) =>
        current ← db_get machines mi;
        mret (match current with
              | Some d => ta <| ta_slots ::= <[mi := mc_usedSlots d]> |>
              | None => ta
              end)
    end) s1 = Done (ta', s') → keeping ta' s'.
Proof.
  intros Hmid Hgone Hk H ta' s' H'. unfold finishRetirement in H.
  destruct (at_retirement a) as [rt|]; [|done]. cbv zeta in H. tx_bind_in H u1 s2 H1.
  unfold releaseAttemptSlot in H1. rewrite Hmid, releaseMachineSlot_run in H1. injection H1 as _ <-.
  tx_bind_in H u2 s3 H2. apply keeps_deleteAttemptSecret in H2.
  assert (∀ ta', keeping ta' s3 → keeping ta' s1) as Hpatch.
  { intros ta2 Hk2. eapply keeping_attempt; [|exact H|exact Hk2]. intros d _. right. unfold holds.
    by destruct (rt_outcome rt). }
  assert (machines s1 = release_slot (Some mid) (machines s)) as Em1.
  { apply db_patch_done in H as (d & _ & ->). simpl. by injection H2. }
  destruct (machine_of byId (Some mid)) as [[mi d]|] eqn:Hm.
  - apply machine_of_known in Hm as [Hin [= ->]].
    destruct (kp_sync _ _ Hk _ Hin) as (m & Hrow & _). simpl in Hrow.
    tx_bind_in H' o s4 H4. injection H4 as <- <-. injection H' as <- <-. apply Hpatch.
    rewrite Em1. simpl. rewrite Hrow. simpl. rewrite lookup_insert_eq.
    eapply keeping_view; [exact H2|]. simpl. rewrite Hrow.
    eapply (keeping_slot ta mi d); [done..|eauto|done|]. intros ? ?. by simplify_eq.
  - injection H' as <- <-. apply Hpatch. eapply keeping_view; [exact H2|].
    assert (byId !! mid = None) as Hnone by (by destruct (byId !! mid) eqn:E; simpl in Hm; rewrite ?E in Hm).
    assert (rows (machines s) !! mid = None) as Hrow.
    { rewrite (kp_other _ _ Hk mid); [by apply Hgone|]. by apply map_of_none. }
    simpl. rewrite Hrow. simpl. by rewrite db_eta.
Qed.

Lemma keeping_attempts ta i a s ta' s' :
  rows (attempts s) !! i = Some a →
  (∀ mid, at_machineId a = Some mid → byId !! mid = None → rows (machines s0) !! mid = None) →
  reconcile_attempt now byId ta (i, a) s = Done (ta', s') → keeping ta s → keeping ta' s'.
Proof.
  intros Hi Hgone H Hk. unfold reconcile_attempt in H. cbv zeta in H.
  destruct (at_machineId a) as [mid|] eqn:Hmid.
  2:{ destruct (_ <? _); [|by injection H as <- <-]. tx_bind_in H u1 s1 H1.
      apply (keeping_keeps ta) in H1; [|apply keeps_deleteAttemptSecret|done].
      tx_bind_in H u2 s2 H2. injection H as <- <-. apply (keeping_tally ta); [done|].
      eapply keeping_attempt; [|exact H2|done]. by right. }
  destruct ((at_state a === Pending) && _).
  { tx_bind_in H u1 s1 H1. injection H as <- <-. apply (keeping_tally ta); [done|].
    eapply keeping_attempt; [|exact H1|done]. intros d _. right. unfold holds. simpl. by destruct (terminal _). }
  destruct (is_some (at_retirement a)).
  - tx_bind_in H kept s1 H1.
    assert (keeping ta s1) as Hk1.
    { lazymatch type of H1 with (if ?b then _ else _) _ = _ => destruct b end; [by eapply keeping_keep|].
      by injection H1 as _ <-. }
    destruct kept; [by injection H as <- <-|]. tx_bind_in H due s2 H2.
    apply reads_retirementBackstopDue in H2 as ->. destruct due; [|by injection H as <- <-].
    tx_bind_in H u3 s3 H3. tx_bind_in H ta4 s4 H4. injection H as <- <-. apply (keeping_tally ta4); [done|].
    eapply (keeping_backstop ta i a mid); [done|by apply Hgone|exact Hk1|exact H3|exact H4].
  - destruct (_ || _); [|by injection H as <- <-]. tx_bind_in H b s1 H1. injection H as <- <-.
    apply (keeping_tally ta); [done|]. by eapply keeping_retire.
Qed.

Lemma keeping_experiments ta r s ta' s' :
  reconcile_experiment now byId ta r s = Done (ta', s') → keeping ta s → keeping ta' s'.
Proof.
  destruct r as [i x]. intros H Hk. unfold reconcile_experiment in H. cbv zeta in H.
  destruct (xp_machineId x).
  - destruct (_ && _).
    + tx_bind_in H u1 s1 H1. injection H as <- <-. apply (keeping_tally ta); [done|].
      eapply keeping_experiment; [|exact H1|done]. intros d _. right. unfold xholds. simpl. by destruct (xp_state d).
    + destruct (_ || _); [|by injection H as <- <-]. tx_bind_in H u1 s1 H1. injection H as <- <-.
      apply (keeping_tally ta); [done|]. eapply keeping_experiment; [|exact H1|done]. by right.
  - destruct (_ <? _); [|by injection H as <- <-]. tx_bind_in H u1 s1 H1. injection H as <- <-.
    apply (keeping_tally ta); [done|]. eapply keeping_experiment; [|exact H1|done]. by right.
Qed.

(** *** Retention *)

Lemma keeping_retain ta s u s' : retain now s = Done (u, s') → keeping ta s → keeping ta s'.
Proof.
  intros H Hk. unfold retain in H. tx_bind_in H u1 s1 H1. tx_bind_in H u2 s2 H2. tx_bind_in H u3 s3 H3.
  tx_bind_in H u4 s4 H4. tx_bind_in H u5 s5 H5.
  apply (keeping_keeps ta) in H1; [|unfold retain_registrations; keeps_tac|done].
  apply (keeping_keeps ta) in H2; [|unfold retain_deliveries; keeps_tac|done].
  apply (keeping_keeps ta) in H3; [|unfold retain_recoveries; keeps_tac|done].
  assert (keeping ta s4) as Hk4.
  { revert H3 H4. apply (for_each_inv (keeping ta)). intros st t u6 t' _ Ht H6.
    tx_bind_in H6 l t1 H7. injection H7 as _ <-. revert Ht H6. apply (for_each_inv (keeping ta)).
    intros r t2 u7 t3 _ Ht. unfold when. destruct (_ <=? _); [|by intros [= _ <-]].
    intros H6. by eapply keeping_del_job. }
  assert (keeping ta s5) as Hk5.
  { revert Hk4 H5. apply (for_each_inv (keeping ta)). intros st t u6 t' Hst Ht H6.
    tx_bind_in H6 l t1 H7. apply expired_attempts_done in H7 as [-> _]; [|done].
    revert Ht H6. apply (for_each_inv (keeping ta)). intros r t2 u7 t3 _ Ht H8. unfold forget_attempt in H8.
    tx_bind_in H8 u8 t4 H9. apply (keeping_keeps ta) in H9; [|apply keeps_deleteAttemptSecret|done].
    tx_bind_in H8 u9 t5 H10. apply (keeping_keeps ta) in H10; [|unfold deleteAttemptEgress; keeps_tac|done].
    by eapply keeping_del_attempt. }
  revert Hk5 H. apply (for_each_inv (keeping ta)). intros st t u6 t' Hst Ht H6.
  tx_bind_in H6 l t1 H7. assert (reads (expired_experiments st now)) as Hr by (unfold expired_experiments; reads_tac).
  apply Hr in H7 as ->. revert Ht H6. apply (for_each_inv (keeping ta)). intros r t2 u7 t3 _ Ht H8.
  by eapply keeping_del_experiment.
Qed.
End run.

(** ** The run *)

Lemma active_commands_run s :
  active_commands s = Done (ranges cm_status ACTIVE_COMMAND_STATES (commands s), s).
Proof. apply map_tx_ranges. Qed.

(** The machines that work of the store names. *)
Definition referenced (s : db) : list Id :=
  omap (jb_machineId ∘ snd) (t_where (λ j, jb_status j === JAssigned) (jobs s) ++
    t_where (λ j, jb_status j === JRunning) (jobs s) ++ t_where (λ j, jb_status j === JQueued) (jobs s)) ++
  omap (at_machineId ∘ snd) (live_attempts s) ++ omap (xp_machineId ∘ snd) (live_experiments s).

Lemma unreferenced_load s id : base s → id ∉ referenced s → slot_load id s = 0.
Proof.
  intros Hb Hid. pose proof Hb as [_ Wa Wx _ _ _ _ _ _ _ _ _ [Wj _ _ _]].
  unfold referenced in Hid. rewrite !elem_of_app, !list_elem_of_omap in Hid.
  unfold slot_load, db_load, legacy_load, t_sum.
  rewrite !zsum_zero; [done|..].
  - intros [i j] Hj%t_scan_sound. simpl in *. unfold job_load.
    destruct (jb_machineId j === Some id) eqn:Em; [|by rewrite andb_false_r].
    apply bool_decide_eq_true in Em. destruct (jb_status j) eqn:Est; try done; destruct Hid; left;
      exists (i, j); (split; [|done]); rewrite !elem_of_app; [left|right; left];
      (apply elem_of_t_where; [done|]; by rewrite Est).
  - intros [i x] Hx%t_scan_sound. simpl in *. rewrite experiment_load_holds.
    destruct (xholds x === Some id) eqn:Ex; [|done]. apply bool_decide_eq_true in Ex. destruct Hid. right; right.
    assert (experiment_terminal (xp_state x) = false ∧ xp_machineId x = Some id) as [Hl Hm].
    { unfold xholds in Ex. by destruct (xp_state x). }
    exists (i, x). split; [|done]. apply ranges_complete; [done..|]. by apply live_experiment_state.
  - intros [i a] Ha%t_scan_sound. simpl in *. rewrite attempt_load_holds.
    destruct (holds a === Some id) eqn:Ex; [|done]. apply bool_decide_eq_true in Ex. destruct Hid. right; left.
    unfold holds in Ex. destruct (terminal (at_state a)) eqn:Hl; [done|].
    exists (i, a). split; [|done]. apply ranges_complete; [done..|]. by apply live_attempt_state.
Qed.

Lemma keeping_start s ms n1 n2 n3 :
  base s → (∀ r, r ∈ ms → rows (machines s) !! r.1 = Some r.2) →
  keeping s ms (Tally (mc_usedSlots <$> map_of ms) n1 n2 n3) s.
Proof.
  intros Hb Hms. split; try apply Hb; try done. intros [id d] Hin. simpl. exists d. split; [by apply (Hms (id, d))|].
  rewrite lookup_fmap. destruct (map_of ms !! id) as [e|] eqn:He; simpl.
  - apply map_of_elem in He. apply Hms in He, Hin. simpl in *. by simplify_eq.
  - apply map_of_none in He. destruct He. apply list_elem_of_fmap. by exists (id, d).
Qed.

Section reconciling.
Context (E : event → Prop) (HL : E EvLegacy) (HQ : E EvRequeue) (HX : E EvExpire) (HR : E EvRetire).
Context (HK : E EvKeep) (HB : E EvBackstop) (HF : E EvForget).

(** What became of each Attempt of [s0]: nothing, or the step of its own row. *)
Definition stepped (now : Z) (ms : list (Id * machine)) (s0 s : db) : Prop :=
  ∀ i a, rows (attempts s0) !! i = Some a →
    ∃ a', rows (attempts s) !! i = Some a' ∧
      (a' = a ∨ (terminal (at_state a') = true → abandon_due now (map_of ms) (controllerHeartbeats s0) a)).

(** The loop over the live Attempts of [s0]. *)
Lemma attempts_loop s0 ms now ta s ta' s' :
  base s0 → moves E s0 s → same_work s0 s → keeping s0 ms ta s →
  controllerHeartbeats s = controllerHeartbeats s0 →
  (∀ mid, mid ∈ omap (at_machineId ∘ snd) (live_attempts s0) → map_of ms !! mid = None →
     rows (machines s0) !! mid = None) →
  fold_tx (reconcile_attempt now (map_of ms)) ta (live_attempts s0) s = Done (ta', s') →
  moves E s0 s' ∧ keeping s0 ms ta' s' ∧ experiments s' = experiments s0 ∧ stepped now ms s0 s'.
Proof.
  intros Hb Hm (Ea & _ & Ex) Hk Ec Hgone H.
  assert (∀ ta r, keeps (λ s, (experiments s, controllerHeartbeats s)) (reconcile_attempt now (map_of ms) ta r)) as Hke.
  { intros ta1 [i a]. unfold reconcile_attempt, keepForReturningWorker, retirementBackstopDue, finishRetirement,
      retireAttempt, releaseAttemptSlot, releaseMachineSlot, deleteAttemptSecret. cbv zeta. keeps_tac. }
  set (I ta s' := moves E s0 s' ∧ keeping s0 ms ta s' ∧
    (experiments s', controllerHeartbeats s') = (experiments s0, controllerHeartbeats s0) ∧ stepped now ms s0 s').
  assert (I ta' s') as (? & ? & [= ? ?] & ?); [|done].
  eapply (fold_rows attempts I); [apply NoDup_live_attempts| | | |exact H].
  - intros ta1 [i a] s1 ta2 s2 Hin (M1 & K1 & X1 & T1) Hrow H1. simpl in Hrow.
    pose proof Hin as [Hrow0 Hlive%live_attempt_state]%elem_of_ranges. simpl in Hrow0, Hlive.
    assert (base s1) as Hb1 by (by eapply base_moves).
    pose proof (reconcile_attempt_moves E HL HQ HX HR HK HB now _ ta1 i a s1 ta2 s2 Hb1 Hrow Hlive H1) as [M2 O2].
    split; [|exact O2]. unfold I. split_and!; [by eapply moves_trans| | |].
    + eapply (keeping_attempts s0 ms now ta1 i a s1); [exact Hrow| |exact H1|done]. intros mid Hmid Hnone.
      apply Hgone; [|done]. apply list_elem_of_omap. by exists (i, a).
    + rewrite <- X1. by eapply Hke.
    + intros j b Hj. destruct (decide (j = i)) as [->|Hne]; [|rewrite (O2 j Hne); by apply T1].
      rewrite Hrow0 in Hj. injection Hj as <-.
      apply reconcile_attempt_row in H1 as (a' & Ha' & Hend); [|done..]. exists a'.
      split; [done|]. right. by injection X1 as _ <-.
  - unfold I. split_and!; try done; [by rewrite Ex, Ec|]. intros i a Hi. exists a. rewrite Ea. auto.
  - intros r [Hr _]%elem_of_ranges. by rewrite Ea.
Qed.

Lemma experiments_loop s0 ms now ta s ta' s' :
  base s0 → moves E s0 s → experiments s = experiments s0 → keeping s0 ms ta s →
  fold_tx (reconcile_experiment now (map_of ms)) ta (live_experiments s0) s = Done (ta', s') →
  moves E s0 s' ∧ keeping s0 ms ta' s' ∧ attempts s' = attempts s.
Proof.
  intros Hb Hm Ex Hk H.
  assert (∀ ta r, keeps attempts (reconcile_experiment now (map_of ms) ta r)) as Hke.
  { intros ta1 [i x]. unfold reconcile_experiment. cbv zeta. keeps_tac. }
  eapply (fold_rows experiments (λ ta s', moves E s0 s' ∧ keeping s0 ms ta s' ∧ attempts s' = attempts s));
    [apply NoDup_live_experiments| |done| |exact H].
  - intros ta1 [i x] s1 ta2 s2 Hin (M1 & K1 & A1) Hrow H1. simpl in Hrow.
    assert (base s1) as Hb1 by (by eapply base_moves).
    pose proof (reconcile_experiment_moves E HL now _ ta1 i x s1 ta2 s2 Hb1 Hrow H1) as [M2 O2].
    split; [|exact O2]. split_and!; [by eapply moves_trans|by eapply keeping_experiments|].
    rewrite <- A1. by eapply Hke.
  - intros r [Hr _]%elem_of_ranges. by rewrite Ex.
Qed.

(** A loop of the queue that also keeps the tally in sync. *)
Definition queued_state (s0 : db) (ms : list (Id * machine)) (ta : tally) (s : db) : Prop :=
  moves E s0 s ∧ same_work s0 s ∧ keeping s0 ms ta s ∧ controllerHeartbeats s = controllerHeartbeats s0.

Lemma jobs_loop {A} s0 ms (body : tally → A → tx db tally) l ta s ta' s' :
  (∀ N ta x, queue E N anything (body ta x)) →
  (∀ ta x s ta' s', body ta x s = Done (ta', s') → keeping s0 ms ta s → keeping s0 ms ta' s') →
  (∀ ta x, keeps controllerHeartbeats (body ta x)) →
  base s0 → queued_state s0 ms ta s → fold_tx body ta l s = Done (ta', s') → queued_state s0 ms ta' s'.
Proof.
  intros Hq Hkeep Hc Hb (M & W & K & C) H. assert (base s) as Hbs by (by eapply base_moves).
  destruct (queue_fold_any E (next_id (machines s)) body l ta (Hq _) s ta' s' Hbs eq_refl H) as (M1 & W1 & _ & _).
  split_and!; [by eapply moves_trans|by etrans| |].
  - revert K H. apply (fold_inv (keeping s0 ms)). intros x b t b' t' _ Hk Hb'. by eapply Hkeep.
  - rewrite <- C. eapply keeps_fold; [|exact H]. exact Hc.
Qed.

Lemma keeps_reports_assigned now ms cs ta r : keeps controllerHeartbeats (reconcile_assigned now ms cs ta r).
Proof.
  destruct r. unfold reconcile_assigned, discard_all, discardCommand, enqueueRunnerDeletion, free_slot.
  cbv zeta. keeps_tac.
Qed.

Lemma keeps_reports_running now ms cs ta r : keeps controllerHeartbeats (reconcile_running now ms cs ta r).
Proof. destruct r. unfold reconcile_running, enqueueRunnerDeletion, free_slot. cbv zeta. keeps_tac. Qed.

Lemma keeps_reports_queued now ta r : keeps controllerHeartbeats (reconcile_queued now ta r).
Proof. unfold reconcile_queued. keeps_tac. Qed.

Lemma recover_work_done now s ms ta s' :
  base s → recover_work now s = Done ((ms, ta), s') →
  moves E s s' ∧ keeping s ms ta s' ∧ stepped now ms s s' ∧
  (∀ id m, rows (machines s) !! id = Some m → id ∉ ms.*1 → mc_usedSlots m ≤ 0 ∧ slot_load id s = 0) ∧
  ∀ id m, rows (machines s) !! id = Some m → id ∈ referenced s → map_of ms !! id = Some m.
Proof.
  intros Hb H. unfold recover_work, jobs_with in H.
  do 3 (tx_bind_in H l sx Hx; injection Hx as <- <-).
  tx_bind_in H cs sx Hx. rewrite active_commands_run in Hx. injection Hx as <- <-.
  tx_bind_in H fc sx Hx. injection Hx as <- <-.
  tx_bind_in H la sx Hx. rewrite active_attempts_run in Hx. injection Hx as <- <-.
  tx_bind_in H lx sx Hx. rewrite active_experiments_run in Hx. injection Hx as <- <-.
  tx_bind_in H ms' sx Hx. change (machines_of (referenced s) s = Done (ms', sx)) in Hx.
  destruct (machines_of_run (referenced s) s (iv_machines _ Hb)) as (ms1 & Erun & Hms & Hother).
  rewrite Erun in Hx. injection Hx as <- <-. cbv zeta in H.
  tx_bind_in H u1 s1 H1. tx_bind_in H ta2 s2 H2. tx_bind_in H ta3 s3 H3. tx_bind_in H ta4 s4 H4.
  tx_bind_in H ta5 s5 H5. tx_bind_in H ta6 s6 H6. injection H as <- <- <-.
  assert (queued_state s ms1 (Tally (mc_usedSlots <$> map_of ms1) 0 0 0) s1) as I1.
  { destruct (queue_for_each E (next_id (machines s)) _ _ (λ x _, queue_delete_command E HL _ x.1) s u1 s1 Hb eq_refl H1)
      as (M1 & W1 & _). split_and!; [done..| |].
    - eapply keeping_keeps; [|exact H1|by apply keeping_start]. keeps_tac.
    - revert H1. lazymatch goal with |- ?m s = _ → _ => assert (keeps controllerHeartbeats m) as Hm by keeps_tac end.
      apply Hm. }
  apply (jobs_loop s ms1) in H2; [|intros; by apply queue_reconcile_assigned|apply keeping_assigned|
    intros; apply keeps_reports_assigned|done|exact I1].
  apply (jobs_loop s ms1) in H3; [|intros; by apply queue_reconcile_running|apply keeping_running|
    intros; apply keeps_reports_running|done|exact H2].
  apply (jobs_loop s ms1) in H4 as (M4 & W4 & K4 & C4); [|intros; by apply queue_reconcile_queued|
    apply keeping_queued|intros; apply keeps_reports_queued|done|exact H3].
  assert (∀ mid, mid ∈ referenced s → map_of ms1 !! mid = None → rows (machines s) !! mid = None) as Hgone.
  { intros mid Hin Hnone%map_of_none. destruct (rows (machines s) !! mid) as [m|] eqn:Hm; [|done].
    destruct (Hother mid m Hm Hnone) as [? _]. done. }
  apply (attempts_loop s ms1) in H5 as (M5 & K5 & X5 & T5); [|done..|].
  2:{ intros mid Hin. apply Hgone. unfold referenced. rewrite !elem_of_app. auto. }
  apply (experiments_loop s ms1) in H6 as (M6 & K6 & A6); [|done..]. split_and!; [done..| | |].
  - intros i a Hi. rewrite A6. by apply T5.
  - intros id m Hm Hid. destruct (Hother id m Hm Hid) as [Hnr Hu]. split; [done|]. by apply unreferenced_load.
  - intros id m Hm Hin. destruct (map_of ms1 !! id) as [d|] eqn:Hd; [|rewrite (Hgone id Hin Hd) in Hm; done].
    apply map_of_elem, Hms in Hd. simpl in Hd. by simplify_eq.
Qed.

(** *** The last loop *)

Definition exact_at (s : db) (id : Id) : Prop :=
  ∃ m, rows (machines s) !! id = Some m ∧ mc_usedSlots m = slot_load id s.

Lemma repair_loop s0 ms ex ta rep s acc s' :
  base s → keeping s0 ms ta s → (∀ id, or_else 0 (ex !! id) = slot_load id s) →
  fold_tx (repair_slot ex) (ta, rep) ms s = Done (acc, s') →
  moves E s s' ∧ (∀ id, id ∉ ms.*1 → rows (machines s') !! id = rows (machines s) !! id) ∧
  attempts s' = attempts s ∧
  (∀ id, slot_load id s' = slot_load id s) ∧ ∀ id, id ∈ ms.*1 → exact_at s' id.
Proof.
  intros Hb Hk Hex H.
  set (J (l : list (Id * machine)) (b : tally * Z) s1 := moves E s s1 ∧
    (∀ id, id ∉ ms.*1 → rows (machines s1) !! id = rows (machines s) !! id) ∧ attempts s1 = attempts s ∧
    (∀ id, slot_load id s1 = slot_load id s) ∧ in_sync ms b.1 s1 ∧ (∀ r, r ∈ l → r ∈ ms) ∧
    ∀ r, r ∈ ms → r ∈ l ∨ exact_at s1 r.1).
  assert (J [] acc s') as (M & Ho & Ha & Hl & _ & _ & Hx).
  { eapply (triple_fold J); [| |exact H].
    2:{ unfold J. split_and!; try done; [apply Hk|auto]. }
    intros r l [ta1 n1] s1 [ta2 n2] s2 (M1 & O1 & A1 & L1 & S1 & I1 & X1) H1. cbn in S1.
    assert (r ∈ ms) as Hr by (apply I1; left). destruct (S1 r Hr) as (m & Hm & Hta).
    unfold repair_slot in H1. rewrite Hta in H1. simpl in H1. rewrite Hex in H1.
    assert (∀ q, q ∈ l → q ∈ ms) as I2 by (intros; apply I1; by right).
    destruct (Z.eqb_spec (mc_usedSlots m) (slot_load r.1 s)) as [Heq|Hne].
    - injection H1 as <- <- <-. unfold J. split_and!; try done. intros q [Hq|?]%X1; [|by right].
      apply elem_of_cons in Hq as [->|?]; [|by left]. right. exists m. by rewrite L1.
    - tx_bind_in H1 u s3 H3. injection H1 as <- <- <-. apply db_patch_done in H3 as (d & Hd & ->).
      rewrite Hm in Hd. injection Hd as <-.
      assert (∀ id, slot_load id (s1 <| machines ::= t_set r.1 (m <| mc_usedSlots := slot_load r.1 s |>) |>) =
        slot_load id s) as L2 by exact L1.
      unfold J. split_and!; try done.
      + eapply moves_trans; [exact M1|]. eapply rtc_once, MvSlots; [done..|]. apply slot_load_nonneg.
      + intros id Hid. simpl. rewrite lookup_insert_ne; [by apply O1|]. intros <-. apply Hid.
        apply list_elem_of_fmap. by exists r.
      + intros q Hq. simpl. destruct (decide (r.1 = q.1)) as [Eq|Hneq].
        * rewrite <- Eq, !lookup_insert_eq. by eexists.
        * rewrite !lookup_insert_ne by done. by apply S1.
      + intros q Hq. destruct (decide (r.1 = q.1)) as [Eq|Hneq].
        * right. rewrite <- Eq. eexists. split; [apply lookup_insert_eq|]. symmetry. apply L2.
        * destruct (X1 q Hq) as [Hql|(e & He & Hu)].
          -- apply elem_of_cons in Hql as [->|?]; [done|by left].
          -- right. exists e. simpl. rewrite lookup_insert_ne by done. split; [done|].
             rewrite Hu. etrans; [apply L1|]. symmetry. apply L2. }
  split_and!; try done. intros id (r & -> & Hr)%list_elem_of_fmap. destruct (Hx r Hr) as [?%elem_of_nil|?]; done.
Qed.

Lemma core_exact s s' : core s' = core s → slots_exact s → slots_exact s'.
Proof.
  unfold core. intros [= Em Ea Es Ex Ej Ec] Hs id m. unfold slot_load, db_load, legacy_load.
  rewrite Em, Ea, Ex, Ej. apply Hs.
Qed.

(** A run that commits is a sequence of moves, every slot counter is exact after it, and it ended
    a live Attempt only when it was time to give up on it. *)
Lemma reconcile_done now s r s' :
  base s → reconcile now s = Done (r, s') →
  moves E s s' ∧ slots_exact s' ∧
  ∀ i a a', rows (attempts s) !! i = Some a → rows (attempts s') !! i = Some a' →
    terminal (at_state a) = false → terminal (at_state a') = true →
    abandon_due now (rows (machines s)) (controllerHeartbeats s) a.
Proof.
  intros Hb H. unfold reconcile in H. tx_bind_in H wk s1 H1. destruct wk as [ms ta].
  apply recover_work_done in H1 as (M1 & K1 & T1 & Hother & Hknown); [|done].
  assert (base s1) as Hb1 by (by eapply base_moves).
  tx_bind_in H u2 s2 H2. pose proof (keeping_retain _ _ _ _ _ _ _ H2 K1) as K2.
  apply (retain_moves E HL HF) in H2 as (M2 & F2 & _); [|done].
  assert (base s2) as Hb2 by (by eapply base_moves).
  tx_bind_in H exp s3 H3. destruct (expected_slots_run s2) as (ex' & Erun & Hex).
  rewrite Erun in H3. injection H3 as <- <-. tx_bind_in H acc s4 H4.
  eapply repair_loop in H4 as (M4 & O4 & A4 & L4 & X4); [|done|exact K2|exact Hex].
  assert (slots_exact s4) as Hs4.
  { intros id m Hm. destruct (decide (id ∈ ms.*1)) as [Hin|Hout].
    { destruct (X4 id Hin) as (m' & Hm' & Hu). by simplify_eq. }
    rewrite O4, (kp_other _ _ _ _ K2) in Hm by done. destruct (Hother id m Hm Hout) as [Hle Hzero].
    pose proof (iv_used _ Hb id m Hm). pose proof (kp_load _ _ _ _ K2 id). pose proof (slot_load_nonneg id s2).
    rewrite L4. lia. }
  assert (inert (deliveries ← retryStalledDeliveries now;
    when ((0 <? ta_requeued acc.1) || (0 <? ta_abandoned acc.1) || (0 <? ta_expired acc.1) || (0 <? acc.2))
      (run_after (CallLegacyTryAssign 0) ≫= λ _, run_after CallAttemptTryAssign) ≫= λ _,
    orphanedRunners ← db_first runnerDeletions (λ _, true);
    when (is_some orphanedRunners) (run_after CallDrainRunnerDeletions) ≫= λ _,
    mret (ReconcileResult (ta_requeued acc.1) (ta_abandoned acc.1) (ta_expired acc.1) acc.2
      (dr_retried deliveries)))) as Hin.
  { apply inert_bind; [apply inert_retryStalledDeliveries|intros d]. inert_tac. }
  pose proof (Hin _ _ _ H) as [Hcore _]. split_and!.
  - eapply moves_trans; [exact M1|]. eapply moves_trans; [exact M2|]. eapply moves_trans; [exact M4|].
    by eapply inert_moves.
  - by eapply core_exact.
  - intros i a a' Hi Hi' Hl Ht. unfold core in Hcore. injection Hcore as _ Ea _ _ _ _.
    rewrite Ea, A4 in Hi'. apply F2 in Hi'. destruct (T1 i a Hi) as (a1 & Ha1 & [->|Hend]); simplify_eq.
    + by rewrite Hl in Ht.
    + specialize (Hend Ht). unfold abandon_due in *. destruct (at_machineId a) as [mid|] eqn:Hmid; [|done].
      destruct Hend as (rt & Hrt & Hlt & Hw & Hc). exists rt. split_and!; try done. intros Hrun m Hm.
      apply (Hw Hrun m). apply Hknown; [done|]. unfold referenced. rewrite !elem_of_app, !list_elem_of_omap.
      right; left. exists (i, a). split; [|done]. apply ranges_complete; [apply Hb|done|].
      by apply live_attempt_state.
Qed.
End reconciling.
