(* ===== verification/System.v ===== *)
(** The control plane as one system: every mutation a controller, a Worker, an Agent, GitHub, an
    operator, the scheduler or the reconciliation cron can run, the stores they reach, the
    invariant of those stores, and what becomes of the rows of Attempts. *)

From S2P Require Import Prelude JsLib Schema HostLabels Egress Isolation Benchmark Scheduler.
From S2P Require Import Fixtures Placement Retirement Lease ControllerApi WorkerApi Fleet.
From S2P Require Import LegacyJobs Webhooks Reconcile Lifecycle Handlers LegacyMoves.
From S2P Require Import ReconcileMoves SlotRepair.

(** ** The system *)

Inductive op :=
  | OpRegisterProfile (a : register_args) (c : option caller)
  | OpPauseProfile (name : string) (c : option caller)
  | OpControllerHeartbeat (a : heartbeat_args) (c : option caller)
  | OpAcquire (a : acquire_args)
  | OpRenew (profile instance : string) (c : caller)
  | OpRelease (profile instance : string) (c : caller)
  | OpCreateAttempt (a : create_args) (c : option caller)
  | OpCancelAttempt (profile runnerName reason : string) (c : option caller)
  | OpJobStarted (m : started_args) (c : option caller)
  | OpJobCompleted (m : completed_args) (c : option caller)
  | OpRunnerDeleted (profile runnerName : string) (runnerId : Z) (c : option caller)
  | OpTryAssign
  | OpHostFacts (token arch : string) (cpus memoryMiB : num)
  | OpBenchmark (token : string) (report : benchmark_report)
  | OpReadiness (token : string) (a : readiness_args)
  | OpClaimAttempt (token : string) (attemptId : Id)
  | OpReady (token : string) (attemptId : Id)
  | OpReport (token : string) (attemptId : Id) (exitCode : num) (egress : option egress_record)
      (runnerExit : option runner_exit)
  | OpClaimExperiment (token : string) (experimentId : Id)
  | OpExperimentRunning (token : string) (experimentId : Id)
  | OpReportExperiment (token : string) (experimentId : Id) (exitCode : num)
  | OpWorkerHeartbeat (token : string)
  | OpIssueRegistrationToken (draws : list string)
  | OpRegisterAgent (a : register_agent_args) (draws : list string)
  | OpSetLabels (name : string) (labels : list string)
  | OpCreateExperiment (name profile : string) (command : list string) (timeoutSeconds : num)
      (subject : string)
  | OpCancelExperiment (experimentId : Id)
  (** the legacy queue *)
  | OpLegacyTryAssign
  | OpStoreJitConfig (commandId : Id) (jitConfig : string) (runnerId : option Z)
  | OpFailAttempt (commandId : option Id) (jobId : Id) (error : string)
  | OpRecordJobError (jobId : Id) (error : string)
  | OpWorkflowJob (e : workflow_job)
  | OpClaimCommand (token : string) (commandId : Id)
  | OpReportCommand (token : string) (commandId : Id) (exitCode : num)
  | OpSetMaxSlots (machineId : Id) (maxSlots : num)
  | OpDeleteMachine (machineId : Id)
  | OpDropJob (jobId : Id)
  | OpRequeueJob (jobId : Id)
  | OpEnqueueDeletion (repo : string) (installation : option Z) (runnerId : Z) (runnerName : string)
  | OpSettleDeletion (deletionId : Id) (ok : bool) (error : option string)
  (** webhooks, their recovery and the cron *)
  | OpRecordDelivery (deliveryId event : string) (job : option workflow_job)
  | OpProcessDelivery (allowedRepos allowPublicRepos : option string) (deliveryId : Id)
  | OpClaimRecovery (candidates : list recovery_candidate)
  | OpSettleRecovery (guid : string) (ok : bool) (error : option string)
  | OpReconcileRecovered
  | OpBeginRecoveryRun
  | OpFinishRecoveryRun (f : finish_run)
  | OpReconcile.

(** The life-cycle events an operation may cause. *)
Definition causes (o : op) (e : event) : bool :=
  match o, e with
  | OpRegisterProfile _ _, (EvProfile | EvRetire | EvRequeue)
  | OpPauseProfile _ _, EvProfile
  | OpSetLabels _ _, (EvRetire | EvRequeue)
  | OpCancelAttempt _ _ _ _, (EvCancel | EvRetire)
  | OpJobStarted _ _, EvStart
  | OpJobCompleted _ _, EvComplete
  | OpRunnerDeleted _ _ _ _, (EvConfirm | EvCleaned)
  | OpTryAssign, EvAssign
  | OpClaimAttempt _ _, EvClaim
  | OpReady _ _, EvReady
  | OpReport _ _ _ _ _, EvExit
  | OpWorkerHeartbeat _, EvKeep
  | (OpLegacyTryAssign | OpStoreJitConfig _ _ _ | OpFailAttempt _ _ _ | OpRecordJobError _ _
     | OpWorkflowJob _ | OpClaimCommand _ _ | OpReportCommand _ _ _ | OpSetMaxSlots _ _
     | OpDeleteMachine _ | OpDropJob _ | OpRequeueJob _ | OpProcessDelivery _ _ _), EvLegacy
  | OpReconcile, (EvRequeue | EvExpire | EvRetire | EvKeep | EvBackstop | EvForget | EvLegacy) => true
  | _, _ => false
  end.

(** Sizes reach the control plane through HTTP routes that refuse any but positive integers. *)
Definition op_valid (o : op) : Prop :=
  match o with
  | OpRegisterProfile a _ => 0 < ra_vcpus a ∧ 0 < ra_memoryMiB a
  | OpRegisterAgent a _ => register_valid a
  | _ => True
  end.

Definition ignore {A} (m : tx db A) : tx db unit := m ≫= λ _, mret tt.

Lemma ignore_done {A} (m : tx db A) s u s' : ignore m s = Done (u, s') → ∃ a, m s = Done (a, s').
Proof. intros H. unfold ignore in H. tx_bind_in H a s1 H1. injection H as _ <-. eauto. Qed.

Section system.
Context (localeCompare : string → string → Z).

Definition run_op (o : op) (now : Z) : tx db unit :=
  match o with
  | OpRegisterProfile a c => ignore (registerProfile a c now)
  | OpPauseProfile n c => ignore (pauseProfile n c now)
  | OpControllerHeartbeat a c => recordHeartbeat a c now
  | OpAcquire a => ignore (acquire a now)
  | OpRenew p i c => ignore (renew p i c now)
  | OpRelease p i c => release p i c now
  | OpCreateAttempt a c => createAttempt a c now
  | OpCancelAttempt p n r c => cancelAttempt p n r c now
  | OpJobStarted m c => markJobStarted m c now
  | OpJobCompleted m c => markJobCompleted m c now
  | OpRunnerDeleted p n i c => ignore (completeRunnerCleanup p n i c now)
  | OpTryAssign => ignore (tryAssign localeCompare now)
  | OpHostFacts t a c m => ignore (reportHostFacts t a c m now)
  | OpBenchmark t r => ignore (reportBenchmark t r now)
  | OpReadiness t a => ignore (reportReadiness t a now)
  | OpClaimAttempt t i => ignore (claimAttempt t i now)
  | OpReady t i => ignore (markReady t i now)
  | OpReport t i c e r => ignore (reportAttempt t i c e r now)
  | OpClaimExperiment t i => ignore (claimExperiment t i now)
  | OpExperimentRunning t i => ignore (markExperimentRunning t i now)
  | OpReportExperiment t i c => ignore (reportExperiment t i c now)
  | OpWorkerHeartbeat t => ignore (heartbeat t now)
  | OpIssueRegistrationToken d => ignore (issueRegistrationToken d now)
  | OpRegisterAgent a d => ignore (registerAgent a d now)
  | OpSetLabels n l => ignore (setLabels n l now)
  | OpCreateExperiment n p c t subj => ignore (createExperiment n p c t subj now)
  | OpCancelExperiment i => ignore (cancelExperiment i now)
  | OpLegacyTryAssign => ignore (legacyTryAssign now)
  | OpStoreJitConfig c j r => ignore (storeJitConfig c j r)
  | OpFailAttempt c j e => failAttempt c j e now
  | OpRecordJobError j e => recordJobError j e
  | OpWorkflowJob e => applyWorkflowJob e now
  | OpClaimCommand t c => ignore (claimCommand t c now)
  | OpReportCommand t c e => ignore (reportCommand t c e now)
  | OpSetMaxSlots m n => setMachineMaxSlots m n
  | OpDeleteMachine m => deleteMachine m now
  | OpDropJob j => dropJob j now
  | OpRequeueJob j => requeueJob j now
  | OpEnqueueDeletion r i n rn => enqueue r i n rn now
  | OpSettleDeletion d ok e => settleDeletion d ok e
  | OpRecordDelivery d e j => ignore (recordDelivery d e j now)
  | OpProcessDelivery a p d => processDelivery a p d now
  | OpClaimRecovery cs => ignore (claimRecovery now cs)
  | OpSettleRecovery g ok e => settleRecovery g ok e
  | OpReconcileRecovered => ignore (reconcileRecovered now)
  | OpBeginRecoveryRun => ignore (beginRecoveryRun now)
  | OpFinishRecoveryRun f => finishRecoveryRun f now
  | OpReconcile => ignore (reconcile now)
  end.

Lemma run_op_moves o now s u s' :
  op_valid o → base s → run_op o now s = Done (u, s') → moves (λ e, causes o e = true) s s'.
Proof.
  intros Hv Hbase H. pose proof (base_sane s Hbase) as Hsane.
  destruct o; simpl in H; try (apply ignore_done in H as [x H]).
  - by eapply registerProfile_moves.
  - by eapply pauseProfile_moves.
  - by eapply inert_moves; [apply inert_recordHeartbeat|].
  - by eapply inert_moves; [apply inert_acquire|].
  - by eapply inert_moves; [apply inert_renew|].
  - by eapply inert_moves; [apply inert_release|].
  - by eapply createAttempt_moves.
  - by eapply cancelAttempt_moves.
  - by eapply markJobStarted_moves.
  - by eapply markJobCompleted_moves.
  - by eapply completeRunnerCleanup_moves.
  - apply tryAssign_run in H; [|done]. by apply rtc_once, MvAssign with now.
  - by eapply reportHostFacts_moves.
  - by eapply reportBenchmark_moves.
  - by eapply inert_moves; [apply inert_reportReadiness|].
  - by eapply claimAttempt_moves.
  - by eapply markReady_moves.
  - by eapply reportAttempt_moves.
  - by eapply claimExperiment_moves.
  - by eapply markExperimentRunning_moves.
  - by eapply reportExperiment_moves.
  - by eapply heartbeat_moves.
  - by eapply inert_moves; [apply inert_issueRegistrationToken|].
  - by eapply registerAgent_moves.
  - by eapply setLabels_moves.
  - by eapply createExperiment_moves.
  - by eapply cancelExperiment_moves.
  - by eapply queue_moves; [| |apply queue_legacyTryAssign|].
  - by eapply queue_moves; [| |apply queue_storeJitConfig|].
  - by eapply queue_moves; [| |apply queue_failAttempt|].
  - by eapply queue_moves; [| |apply queue_recordJobError|].
  - by eapply queue_moves; [| |apply queue_applyWorkflowJob|].
  - by eapply queue_moves; [| |apply queue_claimCommand|].
  - by eapply queue_moves; [| |apply queue_reportCommand|].
  - by eapply queue_moves; [| |apply queue_setMachineMaxSlots|].
  - by eapply queue_moves; [| |apply queue_deleteMachine|].
  - by eapply queue_moves; [| |apply queue_dropJob|].
  - by eapply queue_moves; [| |apply queue_requeueJob|].
  - eapply inert_moves; [|exact H]. by apply inert_insert.
  - by eapply inert_moves; [apply inert_settleDeletion|].
  - by eapply inert_moves; [apply inert_recordDelivery|].
  - by eapply queue_moves; [| |apply queue_processDelivery|].
  - by eapply inert_moves; [apply inert_claimRecovery|].
  - by eapply inert_moves; [apply inert_settleRecovery|].
  - by eapply inert_moves; [apply inert_reconcileRecovered|].
  - by eapply inert_moves; [apply inert_beginRecoveryRun|].
  - by eapply inert_moves; [apply inert_finishRecoveryRun|].
  - by eapply reconcile_done.
Qed.

(** One operation, at some time; a throw leaves the store as it was. *)
Inductive sys_step : db → db → Prop :=
  | sys_op o now s : op_valid o → sys_step s (commit (run_op o now) s).

Definition reachable (s : db) : Prop := rtc sys_step db_empty s.

Lemma sys_step_base s s' : sys_step s s' → base s → base s'.
Proof.
  intros [o now s0 Hv] Hb. unfold commit. destruct (run_op o now s0) as [[u s1]|] eqn:H; [|done].
  eapply base_moves; [by eapply run_op_moves|done].
Qed.

Lemma sys_steps_base s s' : rtc sys_step s s' → base s → base s'.
Proof. induction 1; eauto using sys_step_base. Qed.

Lemma inv_empty : inv db_empty.
Proof. split; [|done]. split; try done; try apply t_wf_empty. Qed.

Lemma reachable_base s : reachable s → base s.
Proof. intros H. eapply sys_steps_base; [exact H|apply inv_empty]. Qed.

(** The stores in which the slot counters are exact: the empty one, any store a committed
    reconciliation leaves, and what the scale-set side makes of them. *)
Inductive settled : db → Prop :=
  | settled_empty : settled db_empty
  | settled_reconciled s now r s' : reachable s → reconcile now s = Done (r, s') → settled s'
  | settled_op s o now :
      settled s → op_valid o → causes o EvLegacy = false → settled (commit (run_op o now) s).

Lemma settled_inv s : settled s → inv s.
Proof.
  induction 1 as [|s now r s' Hr H|s o now _ IH Hv Hc]; [apply inv_empty|..].
  - apply reachable_base in Hr as Hb.
    destruct (reconcile_done (λ _, True) I I I I I I I now s r s' Hb H) as (Hm & Hs & _).
    split; [by eapply base_moves|done].
  - unfold commit. destruct (run_op o now s) as [[u s1]|] eqn:H; [|done].
    eapply inv_moves; [|eapply run_op_moves; [done|apply IH|exact H]|exact IH]. simpl. by rewrite Hc.
Qed.
End system.

(** ** Rows of Attempts along the moves *)

Definition phase_step (E : event → Prop) (p p' : phase) : Prop := ∃ e, E e ∧ lifecycle e p p'.

Lemma same_identity_refl a : same_identity a a.
Proof. done. Qed.

Lemma same_identity_trans a b c : same_identity a b → same_identity b c → same_identity a c.
Proof. unfold same_identity. intuition congruence. Qed.

(** What a row has become. *)
Definition became (E : event → Prop) (a a' : attempt) : Prop :=
  same_identity a a' ∧ rtc (phase_step E) (phase_of a) (phase_of a').

#[export] Instance became_preorder E : PreOrder (became E).
Proof.
  split.
  - intros a. split; [apply same_identity_refl|apply rtc_refl].
  - intros a b c [? ?] [? ?]. split; [by eapply same_identity_trans|by eapply rtc_trans].
Qed.

Definition fresh_phase : phase := Phase Pending None None false.

(** Why a row may be gone: it had finished, with nothing left to clean up. *)
Definition forgotten (E : event → Prop) (a : attempt) : Prop :=
  E EvForget ∧ ∃ b, became E a b ∧ terminal (at_state b) = true ∧ at_runnerCleanupPending b ≠ Some true.

(** Rows go on living or are forgotten; a row that was not there was created pending and
    unassigned; ids are not used again. *)
Record rows_became (E : event → Prop) (s s' : db) : Prop := {
  rb_old : ∀ i a, rows (attempts s) !! i = Some a →
    (∃ a', rows (attempts s') !! i = Some a' ∧ became E a a') ∨
    rows (attempts s') !! i = None ∧ (i < next_id (attempts s'))%nat ∧ forgotten E a;
  rb_new : ∀ i a', rows (attempts s) !! i = None → rows (attempts s') !! i = Some a' →
    rtc (phase_step E) fresh_phase (phase_of a');
  rb_gone : ∀ i, rows (attempts s) !! i = None → (i < next_id (attempts s))%nat →
    rows (attempts s') !! i = None ∧ (i < next_id (attempts s'))%nat;
}.

Lemma rows_became_same E s s' : attempts s' = attempts s → rows_became E s s'.
Proof.
  intros Ha. split; rewrite Ha; [|congruence|done]. intros i a Hi. left. by exists a.
Qed.

Lemma rows_became_trans E s1 s2 s3 : rows_became E s1 s2 → rows_became E s2 s3 → rows_became E s1 s3.
Proof.
  intros [H1 N1 G1] [H2 N2 G2]. split.
  - intros i a [(b & Hb & Hab)|(Hn & Hlt & Hf)]%H1.
    + destruct (H2 i b Hb) as [(c & Hc & Hbc)|(Hn & Hlt & HE & c & Hbc & Ht)].
      * left. exists c. split; [done|]. by transitivity b.
      * right. split_and!; [done..|]. split; [done|]. exists c. split; [by transitivity b|done].
    + destruct (G2 i Hn Hlt) as [? ?]. by right.
  - intros i c Hi Hc. destruct (rows (attempts s2) !! i) as [b|] eqn:Hb; [|by eapply N2].
    destruct (H2 i b Hb) as [(c' & Hc' & [_ Hbc])|(Hn & _)]; [|congruence].
    simplify_eq. eapply rtc_trans; [by eapply N1|done].
  - intros i Hi Hlt. destruct (G1 i Hi Hlt) as [? ?]. by apply G2.
Qed.

(** Rows written in place. *)
Lemma rows_became_evolves (E : event → Prop) s s' :
  (∀ i, option_Forall2 (became E) (rows (attempts s) !! i) (rows (attempts s') !! i)) →
  next_id (attempts s') = next_id (attempts s) → rows_became E s s'.
Proof.
  intros Hr Hn. split.
  - intros i a Hi. specialize (Hr i). rewrite Hi in Hr. inversion Hr as [? a' Ha Ea Ea'|]. left. eauto.
  - intros i a' Hi Ha'. specialize (Hr i). rewrite Hi, Ha' in Hr. inversion Hr.
  - intros i Hi Hlt. specialize (Hr i). rewrite Hi in Hr. inversion Hr. by rewrite Hn.
Qed.

Lemma move_rows E s s' : base s → move E s s' → rows_became E s s'.
Proof.
  intros Hbase Hmove.
  destruct Hmove as [s s' Hc _| |s i a a' drop Hi Hid Hmv _ _ _|s a secret _ Hph _ _|s s' now HE Hrun| | | | |
    s i a HE Hi Ht Hcl| | | |]; try (by apply rows_became_same).
  - apply rows_became_same. unfold core in Hc. by injection Hc.
  - apply rows_became_evolves; [|done]. intros j. simpl.
    destruct (decide (i = j)) as [<-|Hne].
    + rewrite lookup_insert_eq, Hi. constructor. split; [done|].
      destruct Hmv as [->|(e & He & _ & Hl)]; [apply rtc_refl|]. apply rtc_once. by exists e.
    + rewrite lookup_insert_ne by done. by destruct (rows (attempts s) !! j); constructor.
  - pose proof (t_wf_fresh _ (iv_attempts_wf _ Hbase)) as Hfresh. split; simpl.
    + intros j b Hj. left. exists b. split; [|done]. rewrite lookup_insert_ne; [done|]. congruence.
    + intros j b Hj. destruct (decide (next_id (attempts s) = j)) as [<-|Hne].
      * rewrite lookup_insert_eq. intros [= <-]. rewrite Hph. apply rtc_refl.
      * rewrite lookup_insert_ne by done. congruence.
    + intros j Hj Hlt. rewrite lookup_insert_ne by lia. split; [done|lia].
  - pose proof (ar_attempts _ _ _ Hrun) as [_ Hnext Hev]. apply rows_became_evolves; [|done].
    intros i. specialize (Hev i). destruct Hev as [a a' Ha|]; constructor.
    destruct Ha as [->|(Hst & Hm & id & sel & _ & ->)]; [done|].
    split; [done|]. apply rtc_once. exists EvAssign. split; [done|]. unfold phase_of. simpl.
    rewrite Hst, Hm. constructor.
  - pose proof (iv_attempts_wf _ Hbase) as Hwf. split; simpl.
    + intros j b Hj. destruct (decide (i = j)) as [<-|Hne].
      * right. rewrite lookup_delete_eq. simplify_eq. split; [done|]. split; [by eapply Hwf|].
        split; [done|]. eexists. split; [reflexivity|done].
      * left. exists b. by rewrite lookup_delete_ne.
    + intros j b Hj [_ Hb]%lookup_delete_Some. congruence.
    + intros j Hj Hlt. split; [|done]. apply lookup_delete_None. by right.
Qed.

Lemma moves_rows E s s' : base s → moves E s s' → rows_became E s s'.
Proof.
  intros Hbase Hm. induction Hm as [s|s1 s2 s3 H12 _ IH]; [by apply rows_became_same|].
  eapply rows_became_trans; [by apply move_rows|]. apply IH. by eapply base_move.
Qed.
