(* ===== verification/Properties.v ===== *)
(** What holds in every store the control plane can reach, and what each operation may do to an
    Attempt: consequences of the moves of System.v, with a concrete fleet as their witness. *)

From S2P Require Import Prelude JsLib Schema HostLabels Egress Isolation Benchmark Scheduler.
From S2P Require Import Fixtures Placement Retirement Lease ControllerApi WorkerApi Fleet.
From S2P Require Import LegacyJobs Webhooks Reconcile Lifecycle Handlers LegacyMoves.
From S2P Require Import ReconcileMoves SlotRepair System.

(** ** A concrete run *)

Definition run_all (l : list (op * Z)) : db :=
  fold_left (λ s o, commit (run_op str_cmp o.1 o.2) s) l db_empty.

Definition demo_registration : register_agent_args :=
  RegisterAgentArgs "rcreg_a" "worker one" Linux "x86_64" 8 (Some 32768) (Some ["GPU"]) (Some 3).

Definition demo_contract : register_args :=
  RegisterArgs "linux" "era-linux" Firecracker "release-1" 2 4096 None None 0 8 None
    (Some "https://github.com/acme") None None None (Some ["gpu"]).

Definition demo_report : readiness_args :=
  ReadinessArgs "linux" Firecracker "release-1" (Some 2) (Some 4096) RReady None None demo_facts None
    (Some "2.330.0").

Definition demo_create (name : string) (runnerId : Z) : create_args :=
  CreateArgs "linux" Firecracker "release-1" 2 4096 name runnerId ("jit-" +:+ name).

(** A Worker joins, becomes ready for a pinned Profile, and is given two Attempts. *)
Definition demo_start : list (op * Z) :=
  [(OpIssueRegistrationToken ["a"], 10); (OpRegisterAgent demo_registration ["token-1"], 20);
   (OpRegisterProfile demo_contract None, 30); (OpWorkerHeartbeat "token-1", 40);
   (OpReadiness "token-1" demo_report, 50); (OpCreateAttempt (demo_create "r-0" 70) None, 60);
   (OpCreateAttempt (demo_create "r-1" 71) None, 61); (OpTryAssign, 70)].

(** It claims and starts the first, then loses the label that the Profile is pinned to. *)
Definition demo_run : list (op * Z) :=
  demo_start ++ [(OpClaimAttempt "token-1" 0, 80); (OpReady "token-1" 0, 90)].

Definition demo_valid (l : list (op * Z)) : Prop := Forall (λ o, op_valid o.1) l.

Lemma run_all_app l l' :
  demo_valid l' → rtc (sys_step str_cmp) (run_all l) (run_all (l ++ l')).
Proof.
  unfold run_all. rewrite fold_left_app. generalize (fold_left (λ s o, commit (run_op str_cmp o.1 o.2) s) l db_empty).
  intros s Hv. revert s. induction Hv as [|[o now] l' Ho _ IH]; intros s; simpl; [apply rtc_refl|].
  eapply rtc_l; [by apply sys_op|apply IH].
Qed.

Lemma run_all_reachable l : demo_valid l → reachable str_cmp (run_all l).
Proof. apply (run_all_app []). Qed.

Lemma demo_run_valid : demo_valid demo_run.
Proof.
  repeat constructor; simpl; repeat split; try lia; by intros ? [= <-].
Qed.

(** ** Invariants of reachable stores *)

Section reachable.
Context (localeCompare : string → string → Z).

(** C1: in every settled store the slot counter of a machine is exactly the number of live
    Attempts, live Experiments and active legacy jobs placed on it: from an empty store through
    any operations of the scale-set side, and again, whatever the legacy queue did to the
    counters, from the next reconciliation that commits. *)
Theorem settled_slots s id m :
  settled localeCompare s → rows (machines s) !! id = Some m → mc_usedSlots m = slot_load id s.
Proof. intros Hr. apply (iv_slots _ (settled_inv _ _ Hr)). Qed.

(** C8: in every reachable store a retiring Attempt has a Runner that may be online, a Worker
    and a cleanup its controller will be asked for; an Attempt being prepared has a Worker; a
    finished one has no JIT config and a finish time; and no two Attempts share a Runner name. *)
Theorem reachable_attempts s i a :
  reachable localeCompare s → rows (attempts s) !! i = Some a →
  (is_some (at_retirement a) = true →
    runnerMayBeOnline (at_state a) = true ∧ at_runnerCleanupPending a = Some true ∧
    is_some (at_machineId a) = true) ∧
  (at_state a = Preparing ∨ at_state a = Ready → is_some (at_machineId a) = true) ∧
  (terminal (at_state a) = true →
    at_retirement a = None ∧ at_jitConfig a = None ∧ is_some (at_finishedAt a) = true) ∧
  (∀ j b, rows (attempts s) !! j = Some b → at_runnerName b = at_runnerName a → j = i).
Proof.
  intros Hr%reachable_base Hi. destruct (iv_attempts _ Hr i a Hi) as [[Hret Hx] Hj Hf]. simpl in *.
  rewrite is_some_fmap in Hret. split_and!.
  - intros (? & ?%bool_decide_eq_true & ?)%Hret. done.
  - done.
  - intros Ht. assert (at_retirement a = None) as Hn.
    { destruct (at_retirement a); [|done]. destruct (Hret eq_refl) as [Hon _].
      by rewrite (online_live _ Hon) in Ht. }
    split_and!; [done| |by apply Hf]. apply Hj. unfold awaiting. by destruct (at_state a).
  - intros j b Hb E. by eapply (iv_names _ Hr).
Qed.

(** In every reachable store a stored JIT secret belongs to an existing Attempt that no
    Worker claimed and that is not retiring (or that GitHub started without a claim), and an
    Attempt has at most one. *)
Theorem reachable_secrets s j r :
  reachable localeCompare s → rows (attemptSecrets s) !! j = Some r →
  (∃ a, rows (attempts s) !! as_attemptId r = Some a ∧ at_retirement a = None ∧
     (at_state a = Pending ∨ at_state a = Running)) ∧
  ∀ k q, rows (attemptSecrets s) !! k = Some q → as_attemptId q = as_attemptId r → k = j.
Proof.
  intros Hr%reachable_base Hj. split.
  - destruct (iv_secrets _ Hr j r Hj) as (a & Ha & Haw). exists a. split; [done|].
    unfold awaiting in Haw. destruct (at_state a), (at_retirement a); naive_solver.
  - intros k q Hk E. by eapply (iv_secret_once _ Hr).
Qed.

(** ** The life cycle *)

(** C6: the handlers implement the life cycle.  Whatever operation commits, every Attempt keeps
    its Runner, Profile contract and creation time, and its phase moved along steps of the state
    machine that this operation is allowed to cause; only a reconciliation deletes rows, and only
    those of Attempts that ended with no cleanup pending; rows that appear start as pending and
    unassigned. *)
Theorem operations_follow_lifecycle s o now u s' :
  reachable localeCompare s → op_valid o → run_op localeCompare o now s = Done (u, s') →
  (∀ i a, rows (attempts s) !! i = Some a →
    (∃ a', rows (attempts s') !! i = Some a' ∧ same_identity a a' ∧
      rtc (phase_step (λ e, causes o e = true)) (phase_of a) (phase_of a')) ∨
    o = OpReconcile ∧ rows (attempts s') !! i = None ∧
      ∃ b, rtc (phase_step (λ e, causes o e = true)) (phase_of a) (phase_of b) ∧
        terminal (at_state b) = true ∧ at_runnerCleanupPending b ≠ Some true) ∧
  (∀ i a', rows (attempts s) !! i = None → rows (attempts s') !! i = Some a' →
    rtc (phase_step (λ e, causes o e = true)) fresh_phase (phase_of a')).
Proof.
  intros Hr%reachable_base Hv H. eapply run_op_moves in H; [|done..].
  apply moves_rows in H as [Hold Hnew _]; [|done]. split; [|done]. intros i a Hi.
  destruct (Hold i a Hi) as [(a' & Ha' & ?)|(Hn & _ & HE & b & [_ Hb] & Ht & Hc)]; [left; by exists a'|right].
  split; [by destruct o|]. split; [done|]. by exists b.
Qed.

(** The steps of one row that an operation left in place. *)
Lemma op_row s o now u s' i a a' :
  base s → op_valid o → run_op localeCompare o now s = Done (u, s') →
  rows (attempts s) !! i = Some a → rows (attempts s') !! i = Some a' →
  rtc (phase_step (λ e, causes o e = true)) (phase_of a) (phase_of a').
Proof.
  intros Hb Hv H Hi Hi'. eapply run_op_moves in H; [|done..]. apply moves_rows in H as [H _ _]; [|done].
  destruct (H i a Hi) as [(a1 & Ha1 & _ & ?)|(Hn & _)]; [by simplify_eq|congruence].
Qed.

(** Steps from a phase whose Runner may be online. *)
Lemma online_step E p p' :
  phase_step E p p' → runnerMayBeOnline (ph_state p) = true →
  runnerMayBeOnline (ph_state p') = true ∨ E EvConfirm ∧ is_some (ph_retiring p) = true ∨
  E EvExit ∨ E EvComplete ∨ E EvExpire ∨ E EvBackstop.
Proof. intros (e & He & Hl) Hon. destruct Hl; simpl in *; auto 7; try done; by destruct st. Qed.

Lemma online_steps E p p' :
  rtc (phase_step E) p p' → runnerMayBeOnline (ph_state p) = true →
  runnerMayBeOnline (ph_state p') = true ∨ E EvConfirm ∨ E EvExit ∨ E EvComplete ∨ E EvExpire ∨ E EvBackstop.
Proof.
  induction 1 as [|p p1 p' Hs _ IH]; intros Hon; [by left|].
  destruct (online_step _ _ _ Hs Hon) as [?|[[? _]|[?|[?|[?|?]]]]]; auto 7.
Qed.

Lemma deleted_steps p p' profile n rid c :
  rtc (phase_step (λ e, causes (OpRunnerDeleted profile n rid c) e = true)) p p' →
  runnerMayBeOnline (ph_state p) = true → ph_retiring p = None →
  runnerMayBeOnline (ph_state p') = true.
Proof.
  induction 1 as [|p p1 p' Hs _ IH]; intros Hon Hn; [done|].
  destruct Hs as (e & He & Hl). destruct Hl; simpl in *; try done; auto.
Qed.

(** C5: GitHub first, executor last.  An Attempt whose Runner may be online is ended only by
    GitHub's JobCompleted, by a Worker's report that its executor exited, or, when it is
    retiring, by the controller's confirmation that GitHub deleted the Runner, or by the
    reconciliation cron: no cancellation, placement, label, Profile, heartbeat or legacy
    operation ends it. *)
Theorem online_attempt_ends s o now u s' i a a' :
  reachable localeCompare s → op_valid o → run_op localeCompare o now s = Done (u, s') →
  rows (attempts s) !! i = Some a → rows (attempts s') !! i = Some a' →
  runnerMayBeOnline (at_state a) = true → terminal (at_state a') = true →
  match o with
  | OpJobCompleted _ _ | OpReport _ _ _ _ _ | OpReconcile => True
  | OpRunnerDeleted _ _ _ _ => is_some (at_retirement a) = true
  | _ => False
  end.
Proof.
  intros Hr%reachable_base Hv H Hi Hi' Hon Ht.
  assert (runnerMayBeOnline (at_state a') = true → False) as Hoff.
  { intros E. by rewrite (online_live _ E) in Ht. }
  assert (rtc (phase_step (λ e, causes o e = true)) (phase_of a) (phase_of a')) as Hst.
  { eapply op_row; done. }
  destruct (online_steps _ _ _ Hst Hon) as [?|[?|[?|[?|[?|?]]]]]; [by destruct Hoff|destruct o; try done..].
  destruct (at_retirement a) eqn:Er; [done|]. destruct Hoff.
  apply (deleted_steps _ _ _ _ _ _ Hst Hon). simpl. by rewrite Er.
Qed.

Lemma terminal_steps E p p' :
  rtc (phase_step E) p p' → terminal (ph_state p) = true →
  ph_state p' = ph_state p ∨ E EvComplete ∧ ph_state p' = Completed.
Proof.
  induction 1 as [|p p1 p' Hs _ IH]; intros Ht; [by left|]. destruct Hs as (e & He & Hl).
  destruct Hl; simpl in *; try done; try (by destruct st); try (by destruct IH as [->|[? ->]]; auto).
Qed.

(** Finished is final.  A completed, cancelled or failed Attempt stays as it ended whatever
    operation runs, except that GitHub's JobCompleted turns any of them into completed. *)
Theorem finished_is_final s o now u s' i a a' :
  reachable localeCompare s → op_valid o → run_op localeCompare o now s = Done (u, s') →
  rows (attempts s) !! i = Some a → rows (attempts s') !! i = Some a' → terminal (at_state a) = true →
  at_state a' = at_state a ∨ at_state a' = Completed ∧ ∃ m c, o = OpJobCompleted m c.
Proof.
  intros Hr%reachable_base Hv H Hi Hi' Ht.
  assert (rtc (phase_step (λ e, causes o e = true)) (phase_of a) (phase_of a')) as Hst by (by eapply op_row).
  destruct (terminal_steps _ _ _ Hst Ht) as [?|[He ?]]; [by left|]. right. split; [done|].
  destruct o; try done. eauto.
Qed.
End reachable.

(** ** JIT configs *)

Section delivery.
Context (localeCompare : string → string → Z).

Lemma never_pending_again E p p' :
  rtc (phase_step E) p p' → ph_state p ≠ Pending → ph_state p' ≠ Pending.
Proof.
  induction 1 as [|p p1 p' Hs _ IH]; intros Hp; [done|]. destruct Hs as (e & He & Hl).
  apply IH. destruct Hl; simpl in *; try done; try (by destruct o); naive_solver.
Qed.

(** A row that left the queue never comes back to it, even when it is forgotten. *)
Definition never_pending (i : Id) (s : db) : Prop :=
  (i < next_id (attempts s))%nat ∧ ∀ a, rows (attempts s) !! i = Some a → at_state a ≠ Pending.

Lemma sys_steps_never_pending s s' i :
  rtc (sys_step localeCompare) s s' → base s → never_pending i s → never_pending i s'.
Proof.
  induction 1 as [s|s s1 s' Hs _ IH]; intros Hb Hi; [done|].
  apply IH; [by eapply sys_step_base|]. clear IH.
  destruct Hs as [o now s Hv]. unfold commit.
  destruct (run_op localeCompare o now s) as [[u s1]|] eqn:E; [|done].
  eapply run_op_moves in E; [|done..]. pose proof (base_moves _ _ _ E Hb) as Hb1.
  apply moves_rows in E as [Hold _ Hgone]; [|done]. destruct Hi as [Hlt Hst].
  destruct (rows (attempts s) !! i) as [a|] eqn:Ha.
  - destruct (Hold i a Ha) as [(b & Hb' & _ & Hsteps)|(Hn & ? & _)].
    + split; [by eapply (iv_attempts_wf _ Hb1)|]. intros c Hc. simplify_eq.
      apply (never_pending_again _ _ _ Hsteps). by apply (Hst a).
    + split; [done|]. intros c Hc. congruence.
  - destruct (Hgone i Ha Hlt) as [Hn ?]. split; [done|]. intros c Hc. congruence.
Qed.

(** C3: an Attempt's JIT config is delivered once.  After a claim returned it, no operation or
    sequence of operations makes a claim of the same Attempt return a config again. *)
Theorem jit_delivered_once s token i now c s1 s2 :
  reachable localeCompare s → claimAttempt token i now s = Done (Some c, s1) →
  rtc (sys_step localeCompare) s1 s2 →
  ∀ token' now' c' s3, claimAttempt token' i now' s2 ≠ Done (Some c', s3).
Proof.
  intros Hr%reachable_base Hclaim Hsteps token' now' c' s3 H.
  assert (base s1) as Hbase1.
  { eapply base_moves; [|exact Hr]. by apply (claimAttempt_moves (λ _, True)) with token i now (Some c). }
  apply claimAttempt_run in H as [[? _]|(_ & _ & b & _ & _ & _ & _ & Hb & _ & Hst & _)]; [done|].
  apply claimAttempt_run in Hclaim as [[? _]|(_ & _ & a & _ & _ & _ & _ & _ & _ & _ & _ & _ & Es)]; [done|].
  assert (never_pending i s1) as Hnp.
  { assert (rows (attempts s1) !! i = Some (a <| at_state := Preparing |> <| at_claimedAt := Some now |>
      <| at_jitConfig := None |>)) as Hrow by (rewrite Es; apply lookup_insert_eq).
    split; [by eapply (iv_attempts_wf _ Hbase1)|]. intros c0 Hc0. by simplify_eq. }
  destruct (sys_steps_never_pending _ _ _ Hsteps Hbase1 Hnp) as [_ Hn]. by apply (Hn b).
Qed.

(** A claim hands out the JIT config only to the Worker the Attempt was placed on, and it is
    the config its controller created the Attempt with: the secret stored for it. *)
Theorem jit_to_assigned_worker s token i now c s' :
  reachable localeCompare s → claimAttempt token i now s = Done (Some c, s') →
  ∃ a mid m, rows (attempts s) !! i = Some a ∧ at_state a = Pending ∧ at_machineId a = Some mid ∧
    rows (machines s) !! mid = Some m ∧ mc_token m = token ∧
    (at_jitConfig a = Some (ac_jitConfig c) ∨
     ∃ j r, rows (attemptSecrets s) !! j = Some r ∧ as_attemptId r = i ∧ as_jitConfig r = ac_jitConfig c) ∧
    ∀ j r, rows (attemptSecrets s') !! j = Some r → as_attemptId r ≠ i.
Proof.
  intros Hr%reachable_base Hclaim. assert (base s') as Hbase'.
  { eapply base_moves; [|exact Hr]. by apply (claimAttempt_moves (λ _, True)) with token i now (Some c). }
  apply claimAttempt_run in Hclaim
    as [[? _]|(mid & m & a & jit & eg & Hm & Htok & Ha & Hmid & Hst & [= ->] & Hjit & ->)]; [done|].
  exists a, mid, m. split_and!; try done.
  intros j r Hj <-. destruct (iv_secrets _ Hbase' j r Hj) as (b & Hb & Haw). simpl in Hb.
  rewrite lookup_insert_eq in Hb. by injection Hb as <-.
Qed.
End delivery.

(** ** Who acts on an Attempt *)

Definition worker_token (o : op) : option string :=
  match o with
  | OpClaimAttempt t _ | OpReady t _ | OpReport t _ _ _ _ => Some t
  | _ => None
  end.

(** An Attempt's row changed, if at all, only where [P] held before. *)
Definition changed_where (P : attempt → Prop) (s s' : db) : Prop :=
  ∀ i, rows (attempts s') !! i = rows (attempts s) !! i ∨ ∃ a, rows (attempts s) !! i = Some a ∧ P a.

Lemma changed_where_patch (P : attempt → Prop) i a f s1 s2 u s :
  rows (attempts s) !! i = Some a → P a → attempts s1 = attempts s →
  db_patch attempts i f s1 = Done (u, s2) → changed_where P s s2.
Proof.
  intros Hi HP Ha (d & Hd & ->)%db_patch_done j. simpl. rewrite Ha. destruct (decide (i = j)) as [<-|Hne].
  - right. eauto.
  - left. by rewrite lookup_insert_ne.
Qed.

(** The Attempts placed on the machine a token belongs to. *)
Definition owned_by (token : string) (s : db) (a : attempt) : Prop :=
  ∃ mid m, at_machineId a = Some mid ∧ rows (machines s) !! mid = Some m ∧ mc_token m = token.

Lemma changed_where_refl P s : changed_where P s s.
Proof. by left. Qed.

Lemma claimAttempt_changes token i now s r s' :
  claimAttempt token i now s = Done (r, s') → changed_where (owned_by token s) s s'.
Proof.
  intros [[_ ->]|(mid & m & a & jit & eg & Hm & Ht & Ha & Hmid & _ & _ & _ & ->)]%claimAttempt_run;
    [apply changed_where_refl|].
  intros j. simpl. destruct (decide (i = j)) as [<-|Hne]; [right|left; by rewrite lookup_insert_ne].
  exists a. split; [done|]. by exists mid, m.
Qed.

Lemma markReady_changes token i now s r s' :
  markReady token i now s = Done (r, s') → changed_where (owned_by token s) s s'.
Proof.
  intros [[_ ->]|(mid & m & a & Hm & Ht & Ha & Hmid & _ & _ & ->)]%markReady_run; [apply changed_where_refl|].
  intros j. simpl. destruct (decide (i = j)) as [<-|Hne]; [right|left; by rewrite lookup_insert_ne].
  exists a. split; [done|]. by exists mid, m.
Qed.

Lemma reportAttempt_changes token i code egress rx now s r s' :
  reportAttempt token i code egress rx now s = Done (r, s') → changed_where (owned_by token s) s s'.
Proof.
  unfold reportAttempt. destruct (num_integer code) as [z|]; [|done].
  destruct (runner_exit_code rx) as [rx'|]; [|done]. intros H.
  tx_bind_in H mc s1 H1. apply machineForToken_done in H1 as (-> & Hrow & Htok).
  tx_bind_in H oa s1 H1. injection H1 as Hi <-. destruct oa as [a|]; [|injection H as _ <-; by left].
  case_bool_decide as Hm; cbn [negb orb] in H; [|injection H as _ <-; by left].
  assert (owned_by token s a) as HPa by by exists mc.1, mc.2.
  tx_bind_in H u1 s1 H1. apply inert_store_egress in H1 as [[= _ Ha1 _ _ _] _].
  destruct (terminal_state (at_state a)).
  { tx_bind_in H u2 s2 H2. apply deleteAttemptSecret_done in H2 as ->. tx_bind_in H u3 s3 H3.
    injection H as _ <-. by eapply changed_where_patch; [..|exact H3]. }
  tx_bind_in H u2 s2 H2. unfold releaseAttemptSlot in H2. rewrite releaseMachineSlot_run in H2.
  injection H2 as _ <-. tx_bind_in H u3 s3 H3. apply deleteAttemptSecret_done in H3 as ->.
  tx_bind_in H st s4 H4.
  assert (changed_where (owned_by token s) s s4 ∧ (st = None → attempts s4 = attempts s)) as [Hc4 Hn4].
  { destruct (at_retirement a) as [rt|]; [|injection H4 as <- <-; split; [left|]; simpl; congruence].
    destruct (_ !== _); [|injection H4 as <- <-; split; [left|]; simpl; congruence].
    tx_bind_in H4 u5 s5 H5. tx_bind_in H4 u6 s6 H6. injection H4 as <- <-. split; [|done].
    injection H6 as _ <-. by eapply changed_where_patch in H5. }
  destruct st; [by injection H as _ <-|].
  tx_bind_in H u5 s5 H5. tx_bind_in H u6 s6 H6. injection H as _ <-. injection H6 as _ <-.
  eapply changed_where_patch in H5; [exact H5|done..|by apply Hn4].
Qed.

(** A Worker acts only on Attempts placed on it.  Whatever claim, ready or exit report a
    machine token sends, the only Attempt that can change is one assigned to the machine that
    token belongs to. *)
Theorem worker_acts_on_its_own localeCompare s o now u s' token :
  worker_token o = Some token → run_op localeCompare o now s = Done (u, s') →
  ∀ i, rows (attempts s') !! i = rows (attempts s) !! i ∨
    ∃ a mid m, rows (attempts s) !! i = Some a ∧ at_machineId a = Some mid ∧
      rows (machines s) !! mid = Some m ∧ mc_token m = token.
Proof.
  intros Ho H. cut (changed_where (owned_by token s) s s').
  { intros Hc i. destruct (Hc i) as [?|(a & Ha & mid & m & ?)]; [by left|right]. exists a, mid, m. naive_solver. }
  destruct o; try done; injection Ho as ->; simpl in H; apply ignore_done in H as [x H].
  - by eapply claimAttempt_changes.
  - by eapply markReady_changes.
  - by eapply reportAttempt_changes.
Qed.

(** ** What the controller's operations do, branch by branch *)

Section controller_ops.
Context (s : db) (i : Id) (a : attempt).
Context (Hbase : base s) (Hi : rows (attempts s) !! i = Some a).

Lemma secret_gone : deleteAttemptSecret i s = Done (tt, s <| attemptSecrets ::= drop_secret i |>).
Proof. apply deleteAttemptSecret_total. exact (iv_secret_once _ Hbase). Qed.

Lemma secret_gone_released m :
  deleteAttemptSecret i (s <| machines ::= release_slot m |>) =
  Done (tt, s <| machines ::= release_slot m |> <| attemptSecrets ::= drop_secret i |>).
Proof. apply deleteAttemptSecret_total. exact (iv_secret_once _ Hbase). Qed.

Lemma retiring_facts r : at_retirement a = Some r →
  runnerMayBeOnline (at_state a) = true ∧ at_runnerCleanupPending a = Some true.
Proof.
  intros Er. destruct (iv_attempts _ Hbase i a Hi) as [[Hret _] _ _]. simpl in Hret.
  rewrite Er in Hret. destruct (Hret eq_refl) as (? & ?%bool_decide_eq_true & _). done.
Qed.

(** A claimed, idle Attempt asked to end starts retiring, or is retiring already. *)
Lemma retire_idle reason now :
  runnerMayBeOnline (at_state a) = true →
  ∃ b s' a', retireAttempt i a RetireCancelled reason now s = Done (b, s') ∧
    rows (attempts s') !! i = Some a' ∧ at_state a' = at_state a ∧ is_some (at_retirement a') = true ∧
    at_runnerCleanupPending a' = Some true ∧ machines s' = machines s.
Proof.
  intros Hon. unfold retireAttempt. rewrite Hon. simpl. destruct (at_retirement a) as [r|] eqn:Er; simpl.
  - exists false, s, a. destruct (retiring_facts r Er) as [_ ?]. rewrite Er. done.
  - unfold mbind, tx_bind. rewrite secret_gone. unfold db_patch. simpl. rewrite Hi.
    eexists true, _, _. split; [done|]. simpl. split; [apply lookup_insert_eq|]. done.
Qed.

(** Once nothing is left to delete, confirming a deletion changes nothing. *)
Lemma cleanup_again s1 a1 now :
  base s1 → rows (attempts s1) !! i = Some a1 → at_runnerCleanupPending a1 ≠ Some true → same_identity a a1 →
  completeRunnerCleanup (at_profile a) (at_runnerName a) (at_runnerId a) None now s1 = Done (true, s1).
Proof.
  intros Hbase1 Hi1 Hc (En & Eid & Epr & _). unfold completeRunnerCleanup, mbind, tx_bind. simpl.
  rewrite <- En, (attempt_named_total s1 i a1 Hbase1 Hi1). simpl.
  rewrite (bool_decide_true (at_profile a1 = _)), (bool_decide_true (at_runnerId a1 = _)) by done. simpl.
  by rewrite bool_decide_false.
Qed.

(** The store after the confirmation. *)
Lemma cleanup_run now :
  ∃ s' a', completeRunnerCleanup (at_profile a) (at_runnerName a) (at_runnerId a) None now s = Done (true, s') ∧
    rows (attempts s') !! i = Some a' ∧ at_runnerCleanupPending a' ≠ Some true ∧ at_retirement a' = None ∧
    (at_state a' = match at_retirement a with Some r => outcome_state (rt_outcome r) | None => at_state a end) ∧
    machines s' = release_slot (if isRetiring a then at_machineId a else None) (machines s) ∧
    same_identity a a'.
Proof.
  unfold completeRunnerCleanup, mbind, tx_bind. simpl. rewrite (attempt_named_total s i a Hbase Hi). simpl.
  rewrite (bool_decide_true (at_profile a = _)), (bool_decide_true (at_runnerId a = _)) by done. simpl.
  unfold isRetiring. destruct (at_retirement a) as [r|] eqn:Er; simpl.
  - destruct (retiring_facts r Er) as [Hon Hc]. rewrite Hc, Hon. simpl.
    unfold finishRetirement, releaseAttemptSlot, mbind, tx_bind. rewrite Er.
    rewrite releaseMachineSlot_run, secret_gone_released. unfold db_patch. simpl. rewrite Hi. simpl.
    eexists _, _. split; [done|]. simpl. split; [apply lookup_insert_eq|]. by destruct (rt_outcome r).
  - case_bool_decide as Hc; simpl; [|by exists s, a]. unfold db_patch. rewrite Hi.
    eexists _, _. split; [done|]. simpl. split; [apply lookup_insert_eq|]. done.
Qed.
End controller_ops.

(** Cancelling an Attempt on every branch.  A running one is refused; a pending one is
    cancelled at once and its Runner left for the controller to delete; one that a Worker claimed
    keeps its slot and only starts retiring; a finished one is left alone. *)
Theorem cancel_attempt_branches localeCompare s i a now reason :
  reachable localeCompare s → rows (attempts s) !! i = Some a →
  match at_state a with
  | Running => ∃ e, cancelAttempt (at_profile a) (at_runnerName a) reason None now s = Failed e
  | Pending => ∃ s' a', cancelAttempt (at_profile a) (at_runnerName a) reason None now s = Done (tt, s') ∧
      rows (attempts s') !! i = Some a' ∧ at_state a' = Cancelled ∧
      at_runnerCleanupPending a' = Some true ∧ at_finishedAt a' = Some now ∧
      machines s' = release_slot (at_machineId a) (machines s)
  | Preparing | Ready => ∃ s' a', cancelAttempt (at_profile a) (at_runnerName a) reason None now s = Done (tt, s') ∧
      rows (attempts s') !! i = Some a' ∧ at_state a' = at_state a ∧ is_some (at_retirement a') = true ∧
      at_runnerCleanupPending a' = Some true ∧ machines s' = machines s
  | _ => cancelAttempt (at_profile a) (at_runnerName a) reason None now s = Done (tt, s)
  end.
Proof.
  intros Hbase%reachable_base Hi.
  unfold cancelAttempt, mbind, tx_bind. simpl. rewrite (attempt_named_total s i a Hbase Hi). simpl.
  rewrite (bool_decide_true (at_profile a = at_profile a)) by done. simpl.
  pose proof (retire_idle s i a Hbase Hi reason now) as Hidle.
  destruct (at_state a) eqn:Hst; simpl; try done; [..|by eexists].
  - unfold endIdleAttempt, cancelUnclaimedAttempt, releaseAttemptSlot, mbind, tx_bind.
    rewrite Hst. simpl. rewrite releaseMachineSlot_run, (secret_gone_released s i Hbase).
    unfold db_patch. simpl. rewrite Hi. simpl. eexists _, _. split; [done|]. simpl.
    split; [apply lookup_insert_eq|]. done.
  - unfold endIdleAttempt, mbind, tx_bind. rewrite Hst. simpl.
    destruct Hidle as (b & s' & a' & -> & ?); [done|]. by exists s', a'.
  - unfold endIdleAttempt, mbind, tx_bind. rewrite Hst. simpl.
    destruct Hidle as (b & s' & a' & -> & ?); [done|]. by exists s', a'.
Qed.


(** The controller's confirmation that GitHub deleted the Runner ends a retiring Attempt with
    the outcome it was retired for and frees its slot; on any other Attempt it only withdraws the
    request to delete the Runner.  Asking again answers the same. *)
Theorem runner_deletion_confirmed localeCompare s i a now :
  reachable localeCompare s → rows (attempts s) !! i = Some a →
  ∃ s' a', completeRunnerCleanup (at_profile a) (at_runnerName a) (at_runnerId a) None now s = Done (true, s') ∧
    rows (attempts s') !! i = Some a' ∧ at_runnerCleanupPending a' ≠ Some true ∧ at_retirement a' = None ∧
    (at_state a' = match at_retirement a with Some r => outcome_state (rt_outcome r) | None => at_state a end) ∧
    machines s' = release_slot (if isRetiring a then at_machineId a else None) (machines s) ∧
    ∀ now', completeRunnerCleanup (at_profile a) (at_runnerName a) (at_runnerId a) None now' s' = Done (true, s').
Proof.
  intros Hbase%reachable_base Hi. destruct (cleanup_run s i a Hbase Hi now) as (s' & a' & E & ? & ? & ? & ? & ? & ?).
  exists s', a'. split_and!; try done. intros now'. apply (cleanup_again i a s' a'); [|done..].
  eapply base_moves; [|exact Hbase]. by eapply (completeRunnerCleanup_moves (λ _, True)).
Qed.

(** A job beats a retirement.  When GitHub starts a job on the Runner of an idle Attempt, the
    Attempt runs, whatever retirement was asked for; a confirmation of the Runner's deletion that
    arrives afterwards does not end it. *)
Theorem job_start_beats_retirement localeCompare s i a m now :
  reachable localeCompare s → rows (attempts s) !! i = Some a →
  sa_profile m = at_profile a → sa_runnerName m = at_runnerName a →
  terminal (at_state a) = false → at_state a ≠ Running →
  ∃ s' a', markJobStarted m None now s = Done (tt, s') ∧ rows (attempts s') !! i = Some a' ∧
    at_state a' = Running ∧ at_retirement a' = None ∧ machines s' = machines s ∧
    ∀ now', ∃ s'' a'',
      completeRunnerCleanup (at_profile a) (at_runnerName a) (at_runnerId a) None now' s' = Done (true, s'') ∧
      rows (attempts s'') !! i = Some a'' ∧ at_state a'' = Running ∧ machines s'' = machines s.
Proof.
  intros Hbase%reachable_base Hi Hp Hn Ht Hrun.
  destruct (started_patch_keep m a now) as (Hid & Hst & Hmc & Hj & Hr & Hcl).
  assert (markJobStarted m None now s = Done (tt, s <| attempts ::= t_set i (started_patch m a now a) |>)) as E.
  { unfold markJobStarted, mbind, tx_bind. simpl. rewrite Hn, (attempt_named_total s i a Hbase Hi). simpl.
    rewrite bool_decide_true, Ht by done. simpl. by rewrite (db_patch_total attempts i a). }
  eexists _, _. split; [exact E|]. simpl. split; [apply lookup_insert_eq|]. split; [done|].
  rewrite bool_decide_false in Hr by done. split; [done|]. split; [done|]. intros now'.
  assert (base (s <| attempts ::= t_set i (started_patch m a now a) |>)) as Hbase'.
  { eapply base_moves; [|exact Hbase]. by eapply (markJobStarted_moves (λ _, True)). }
  destruct (cleanup_run _ i (started_patch m a now a) Hbase' (lookup_insert_eq _ _ _) now')
    as (s'' & a'' & E'' & ? & _ & _ & Hs'' & Hm'' & _).
  destruct Hid as (-> & -> & -> & _) in E''. exists s'', a''. split_and!; try done.
  - by rewrite Hs'', Hr.
  - rewrite Hm''. unfold isRetiring. by rewrite Hr.
Qed.

(** ** A Worker that reports again *)

Lemma keepForReturningWorker_run i a s :
  rows (attempts s) !! i = Some a →
  ∃ b, keepForReturningWorker i a s = Done (b, s <| attempts ::= t_set i
    (if at_state a === Running then if is_some (at_retirement a) then clear_retirement a else a else a) |>).
Proof.
  intros Hi. assert (s = s <| attempts ::= t_set i a |>) as Eid.
  { destruct s as [? ? [r n]]; simpl in *. f_equal. unfold t_set. simpl. by rewrite insert_id. }
  unfold keepForReturningWorker. case_bool_decide as Hst; cbn [negb orb]; [|exists false; by rewrite <- Eid].
  destruct (at_retirement a) as [rt|] eqn:Hr; cbn [is_none is_some negb]; [|exists false; by rewrite <- Eid].
  exists true. unfold mbind, tx_bind. by rewrite (db_patch_total attempts i a).
Qed.

(** The Attempts a returning Worker keeps: running on it. *)
Definition kept_running (mid : Id) (a a' : attempt) : Prop :=
  a' = if (at_machineId a === Some mid) && (at_state a === Running) && is_some (at_retirement a)
       then clear_retirement a else a.

Lemma keep_loop mid l s :
  NoDup l.*1 → (∀ r, r ∈ l → rows (attempts s) !! r.1 = Some r.2 ∧
    (at_machineId r.2 === Some mid) && (at_state r.2 === Running) = true) →
  ∀ n, ∃ n' t', fold_tx (λ kept r, keepForReturningWorker r.1 r.2 ≫= λ b : bool, mret (if b then kept + 1 else kept))
    n l s = Done (n', s <| attempts := t' |>) ∧ next_id t' = next_id (attempts s) ∧
    ∀ j, match rows (attempts s) !! j, rows t' !! j with
         | Some a, Some a' => if decide (j ∈ l.*1) then kept_running mid a a' else a' = a
         | None, None => True
         | _, _ => False
         end.
Proof.
  revert s. induction l as [|[i a] l IH]; intros s Hnd Hl n; cbn [fold_tx].
  { exists n, (attempts s). split; [by destruct s|]. split; [done|]. intros j.
    destruct (rows (attempts s) !! j); [|done]. rewrite decide_False; [done|apply not_elem_of_nil]. }
  apply NoDup_cons in Hnd as [Hni Hnd]. destruct (Hl (i, a)) as [Hi HP]; [left|]. simpl in Hi, HP.
  destruct (keepForReturningWorker_run i a s Hi) as (b & Hk). set (a1 := if at_state a === Running then _ else _) in Hk.
  assert (kept_running mid a a1) as Ha1.
  { unfold kept_running, a1. apply andb_true_iff in HP as [-> ->]. done. }
  destruct (IH (s <| attempts ::= t_set i a1 |>) Hnd) with (n := if b then n + 1 else n) as (n' & t' & Hf & Hn & Hrows).
  { intros r Hr. simpl. rewrite lookup_insert_ne; [apply Hl; by right|].
    intros Eq. apply Hni. simpl. rewrite Eq. by apply list_elem_of_fmap_2. }
  exists n', t'. split; [|split; [done|]].
  - apply bind_done. eexists _, _. split; [|exact Hf]. apply bind_done. by eexists _, _.
  - intros j. specialize (Hrows j). simpl in Hrows. destruct (decide (i = j)) as [<-|Hne].
    + rewrite lookup_insert_eq in Hrows. rewrite Hi. destruct (rows t' !! i) as [a'|]; [|done].
      rewrite decide_True by left. rewrite decide_False in Hrows by done. by subst.
    + rewrite lookup_insert_ne in Hrows by done. destruct (rows (attempts s) !! j), (rows t' !! j); try done.
      repeat case_decide; try done; set_solver.
Qed.

(** A Worker back from a silence keeps its jobs.  Its heartbeat commits; if it had been silent
    past the limit, every retirement of an Attempt running on it is called off, and no other
    Attempt changes; its last-seen time is now. *)
Theorem returning_worker_keeps_jobs s mid m now :
  t_wf (attempts s) → t_where (λ m', mc_token m' === mc_token m) (machines s) = [(mid, m)] →
  ∃ s', heartbeat (mc_token m) now s = Done ((mc_os m, mc_maxSlots m), s') ∧
    rows (machines s') !! mid = Some (m <| mc_lastSeen := now |>) ∧
    ∀ j, match rows (attempts s) !! j, rows (attempts s') !! j with
         | Some a, Some a' =>
             if workerReports m now then a' = a
             else a' = if (at_machineId a === Some mid) && (at_state a === Running) && is_some (at_retirement a)
                       then clear_retirement a else a
         | None, None => True
         | _, _ => False
         end.
Proof.
  intros Hwf Hm. destruct (t_where_sound (machines s) (λ m', mc_token m' === mc_token m) (mid, m)) as [Hrow _];
    [rewrite Hm; left|]. simpl in Hrow.
  set (P a := (at_machineId a === Some mid) && (at_state a === Running)).
  destruct (keep_loop mid (t_where P (attempts s)) s (NoDup_t_where_ids _ _)
    (λ r Hr, t_where_sound _ _ r Hr) 0) as (n' & t' & Hf & _ & Hrows).
  assert (keepRunningAttemptsOfReturningWorker mid s = Done (n', s <| attempts := t' |>)) as Hkeep.
  { apply bind_done. by eexists _, _. }
  unfold heartbeat, machineForToken, mbind, tx_bind, db_unique. rewrite Hm. simpl. unfold when.
  destruct (workerReports m now); simpl.
  - rewrite (db_patch_total machines mid m) by done. eexists. split; [done|]. simpl.
    split; [apply lookup_insert_eq|]. intros j. by destruct (rows (attempts s) !! j).
  - rewrite Hkeep. simpl. rewrite (db_patch_total machines mid m) by done. eexists. split; [done|]. simpl.
    split; [apply lookup_insert_eq|]. intros j. specialize (Hrows j).
    destruct (rows (attempts s) !! j) as [a|] eqn:Ha, (rows t' !! j) as [a'|]; try done.
    case_decide as Hin; [done|]. subst a'. destruct (P a) eqn:HP; unfold P in HP; rewrite HP; [|done].
    destruct Hin. apply list_elem_of_fmap. exists (j, a). split; [done|]. by apply elem_of_t_where.
Qed.

(** ** Witnesses: the demo fleet *)

Definition demo_db1 : db := run_all demo_run.
Definition demo_cancelled : db := commit (cancelAttempt "linux" "r-0" "scale down" None 100) demo_db1.

Lemma demo_db1_reachable : reachable str_cmp demo_db1.
Proof. apply run_all_reachable, demo_run_valid. Qed.

(** The fleet after the controller asked to remove its idle Runner. *)
Definition demo_retiring : list (op * Z) := demo_run ++ [(OpCancelAttempt "linux" "r-0" "scale down" None, 100)].
Definition demo_db2 : db := run_all demo_retiring.

Lemma demo_db2_reachable : reachable str_cmp demo_db2.
Proof. apply run_all_reachable. unfold demo_retiring. apply Forall_app. split; [apply demo_run_valid|]. by repeat constructor. Qed.

Definition the_attempt (s : db) (i : Id) : attempt := or_else (demo_attempt "none" 0 0) (rows (attempts s) !! i).

(** The fleet after a reconciliation. *)
Definition demo_reconciled : db := commit (reconcile 200) demo_db1.

Lemma demo_reconciled_settled : settled str_cmp demo_reconciled.
Proof.
  destruct (reconcile 200 demo_db1) as [[r s']|] eqn:E; [|vm_compute in E; discriminate].
  assert (demo_reconciled = s') as -> by (unfold demo_reconciled, commit; rewrite E; reflexivity).
  exact (settled_reconciled str_cmp demo_db1 200 r s' demo_db1_reachable E).
Qed.

Lemma settled_slots_witness :
  settled str_cmp demo_reconciled ∧ (mc_usedSlots <$> rows (machines demo_reconciled) !! 0%nat) = Some 2 ∧
  slot_load 0 demo_reconciled = 2.
Proof.
  split; [exact demo_reconciled_settled|]. split; [vm_compute; reflexivity|].
  destruct (rows (machines demo_reconciled) !! 0%nat) as [m|] eqn:E; [|vm_compute in E; discriminate].
  rewrite <- (settled_slots str_cmp demo_reconciled 0%nat m demo_reconciled_settled E).
  vm_compute in E. injection E as <-. reflexivity.
Defined.

Lemma reachable_attempts_witness :
  is_some (at_retirement (the_attempt demo_db2 0)) = true ∧
  at_runnerCleanupPending (the_attempt demo_db2 0) = Some true ∧
  runnerMayBeOnline (at_state (the_attempt demo_db2 0)) = true.
Proof.
  assert (rows (attempts demo_db2) !! 0%nat = Some (the_attempt demo_db2 0)) as E by (vm_compute; reflexivity).
  assert (is_some (at_retirement (the_attempt demo_db2 0)) = true) as Hr by (vm_compute; reflexivity).
  destruct (reachable_attempts str_cmp demo_db2 0%nat _ demo_db2_reachable E) as [H _].
  destruct (H Hr) as (H1 & H2 & _). split; [exact Hr|]. split; [exact H2|exact H1].
Defined.

Lemma reachable_secrets_witness :
  ∃ r, rows (attemptSecrets demo_db1) !! 1%nat = Some r ∧ as_attemptId r = 1%nat ∧
    ∃ a, rows (attempts demo_db1) !! 1%nat = Some a ∧ at_state a = Pending.
Proof.
  destruct (rows (attemptSecrets demo_db1) !! 1%nat) as [r|] eqn:E; [|vm_compute in E; discriminate].
  destruct (reachable_secrets str_cmp demo_db1 1%nat r demo_db1_reachable E) as [(a & Ha & _) _].
  exists r. split; [reflexivity|]. assert (as_attemptId r = 1%nat) as Er by (vm_compute in E; injection E as <-; reflexivity).
  split; [exact Er|]. rewrite Er in Ha. exists a. split; [exact Ha|]. vm_compute in Ha. injection Ha as <-. reflexivity.
Defined.

Lemma operations_follow_lifecycle_witness :
  ∃ a', rows (attempts demo_cancelled) !! 0%nat = Some a' ∧ same_identity (the_attempt demo_db1 0) a' ∧
    ph_retiring (phase_of a') = Some RetireCancelled ∧
    rtc (phase_step (λ e, causes (OpCancelAttempt "linux" "r-0" "scale down" None) e = true))
      (phase_of (the_attempt demo_db1 0)) (phase_of a').
Proof.
  assert (run_op str_cmp (OpCancelAttempt "linux" "r-0" "scale down" None) 100 demo_db1 = Done (tt, demo_cancelled))
    as E by (vm_compute; reflexivity).
  destruct (operations_follow_lifecycle str_cmp demo_db1
    (OpCancelAttempt "linux" "r-0" "scale down" None) 100 tt demo_cancelled demo_db1_reachable I E) as [H _].
  destruct (H 0%nat (the_attempt demo_db1 0)) as [(a' & Ha' & Hid & Hst)|[Hno _]];
    [vm_compute; reflexivity| |discriminate].
  exists a'. split; [exact Ha'|]. split; [exact Hid|]. split; [|exact Hst].
  vm_compute in Ha'. injection Ha' as <-. reflexivity.
Defined.

(** GitHub confirmed the deletion: the Attempt ends, because it was retiring. *)
Lemma online_attempt_ends_witness :
  at_state (the_attempt (run_all (demo_retiring ++ [(OpRunnerDeleted "linux" "r-0" 70 None, 110)])) 0) = Cancelled ∧
  is_some (at_retirement (the_attempt demo_db2 0)) = true.
Proof.
  set (s' := run_all (demo_retiring ++ _)).
  assert (run_op str_cmp (OpRunnerDeleted "linux" "r-0" 70 None) 110 demo_db2 = Done (tt, s')) as E
    by (vm_compute; reflexivity).
  split; [vm_compute; reflexivity|].
  apply (online_attempt_ends str_cmp demo_db2 (OpRunnerDeleted "linux" "r-0" 70 None) 110 tt s' 0%nat
    (the_attempt demo_db2 0) (the_attempt s' 0) demo_db2_reachable I E); vm_compute; reflexivity.
Defined.

Definition demo_completed : completed_args := CompletedArgs "linux" "r-0" None None (Some "succeeded") 300.

Lemma finished_is_final_witness :
  ∃ s s', reachable str_cmp s ∧ at_state (the_attempt s 0) = Cancelled ∧
    run_op str_cmp (OpJobCompleted demo_completed None) 120 s = Done (tt, s') ∧
    at_state (the_attempt s' 0) = Completed ∧
    (at_state (the_attempt s' 0) = at_state (the_attempt s 0) ∨
     at_state (the_attempt s' 0) = Completed ∧ ∃ m c, OpJobCompleted demo_completed None = OpJobCompleted m c).
Proof.
  set (l := demo_retiring ++ [(OpRunnerDeleted "linux" "r-0" 70 None, 110)]).
  assert (reachable str_cmp (run_all l)) as Hr.
  { apply run_all_reachable. unfold l, demo_retiring. rewrite <- app_assoc. apply Forall_app.
    split; [apply demo_run_valid|]. by repeat constructor. }
  set (s' := run_all (l ++ [(OpJobCompleted demo_completed None, 120)])).
  assert (run_op str_cmp (OpJobCompleted demo_completed None) 120 (run_all l) = Done (tt, s')) as E
    by (vm_compute; reflexivity).
  exists (run_all l), s'. split; [exact Hr|]. split; [vm_compute; reflexivity|]. split; [exact E|].
  split; [vm_compute; reflexivity|].
  apply (finished_is_final str_cmp (run_all l) (OpJobCompleted demo_completed None) 120 tt s' 0%nat _ _ Hr I E); vm_compute; reflexivity.
Defined.

(** The claim of the second Attempt, and every claim after it. *)
Definition demo_claimed : db := commit (claimAttempt "token-1" 1 110) demo_db1.

Lemma jit_delivered_once_witness :
  ∃ c, claimAttempt "token-1" 1 110 demo_db1 = Done (Some c, demo_claimed) ∧ ac_jitConfig c = "jit-r-1" ∧
    ∀ token' now' c' s3, claimAttempt token' 1 now' demo_claimed ≠ Done (Some c', s3).
Proof.
  destruct (claimAttempt "token-1" 1 110 demo_db1) as [[[c|] s1]|] eqn:E; try (vm_compute in E; discriminate).
  assert (s1 = demo_claimed) as -> by (unfold demo_claimed, commit; rewrite E; reflexivity).
  exists c. split; [reflexivity|]. split; [vm_compute in E; injection E as <-; reflexivity|].
  apply (jit_delivered_once str_cmp demo_db1 "token-1" 1%nat 110 c demo_claimed demo_claimed demo_db1_reachable E).
  apply rtc_refl.
Defined.

Lemma jit_to_assigned_worker_witness :
  ∃ c a mid m, claimAttempt "token-1" 1 110 demo_db1 = Done (Some c, demo_claimed) ∧
    rows (attempts demo_db1) !! 1%nat = Some a ∧ at_machineId a = Some mid ∧
    rows (machines demo_db1) !! mid = Some m ∧ mc_token m = "token-1".
Proof.
  destruct (claimAttempt "token-1" 1 110 demo_db1) as [[[c|] s1]|] eqn:E; try (vm_compute in E; discriminate).
  assert (s1 = demo_claimed) as -> by (unfold demo_claimed, commit; rewrite E; reflexivity).
  destruct (jit_to_assigned_worker str_cmp demo_db1 "token-1" 1%nat 110 c demo_claimed demo_db1_reachable E)
    as (a & mid & m & Ha & _ & Hm & Hr & Ht & _).
  exists c, a, mid, m. split; [reflexivity|]. split; [exact Ha|]. split; [exact Hm|]. split; [exact Hr|exact Ht].
Defined.

Lemma worker_acts_on_its_own_witness :
  rows (attempts demo_claimed) !! 1%nat ≠ rows (attempts demo_db1) !! 1%nat ∧
  ∃ a mid m, rows (attempts demo_db1) !! 1%nat = Some a ∧ at_machineId a = Some mid ∧
      rows (machines demo_db1) !! mid = Some m ∧ mc_token m = "token-1".
Proof.
  assert (run_op str_cmp (OpClaimAttempt "token-1" 1) 110 demo_db1 = Done (tt, demo_claimed)) as E
    by (vm_compute; reflexivity).
  assert (rows (attempts demo_claimed) !! 1%nat ≠ rows (attempts demo_db1) !! 1%nat) as Hne
    by (vm_compute; discriminate).
  split; [exact Hne|].
  destruct (worker_acts_on_its_own str_cmp demo_db1 (OpClaimAttempt "token-1" 1) 110 tt demo_claimed "token-1"
    eq_refl E 1%nat) as [H|H];
    [by destruct Hne|exact H].
Defined.

Lemma cancel_attempt_branches_witness :
  at_state (the_attempt demo_db1 0) = Ready ∧
  ∃ s' a', cancelAttempt "linux" "r-0" "scale down" None 100 demo_db1 = Done (tt, s') ∧
      rows (attempts s') !! 0%nat = Some a' ∧ is_some (at_retirement a') = true.
Proof.
  assert (rows (attempts demo_db1) !! 0%nat = Some (the_attempt demo_db1 0)) as E by (vm_compute; reflexivity).
  pose proof (cancel_attempt_branches str_cmp demo_db1 0%nat _ 100 "scale down" demo_db1_reachable E) as H.
  assert (at_state (the_attempt demo_db1 0) = Ready) as Hst by (vm_compute; reflexivity).
  split; [exact Hst|]. rewrite Hst in H. destruct H as (s' & a' & H1 & H2 & _ & H3 & _).
  exists s', a'. split; [exact H1|]. split; [exact H2|exact H3].
Defined.


Lemma runner_deletion_confirmed_witness :
  ∃ s' a', completeRunnerCleanup "linux" "r-0" 70 None 120 demo_db2 = Done (true, s') ∧
    rows (attempts s') !! 0%nat = Some a' ∧ at_state a' = Cancelled ∧
    (mc_usedSlots <$> rows (machines s') !! 0%nat) = Some 1.
Proof.
  assert (rows (attempts demo_db2) !! 0%nat = Some (the_attempt demo_db2 0)) as E by (vm_compute; reflexivity).
  destruct (runner_deletion_confirmed str_cmp demo_db2 0%nat _ 120 demo_db2_reachable E)
    as (s' & a' & H1 & H2 & _ & _ & H3 & H4 & _).
  exists s', a'. split; [exact H1|]. split; [exact H2|]. split; [rewrite H3; vm_compute; reflexivity|].
  rewrite H4. vm_compute. reflexivity.
Defined.

Definition demo_started : started_args :=
  StartedArgs "linux" "r-0" None (Some "api") (Some "acme") None None None None None None None None None.

Lemma job_start_beats_retirement_witness :
  is_some (at_retirement (the_attempt demo_db2 0)) = true ∧
  ∃ s' a', markJobStarted demo_started None 120 demo_db2 = Done (tt, s') ∧
    rows (attempts s') !! 0%nat = Some a' ∧ at_state a' = Running ∧ at_retirement a' = None.
Proof.
  assert (rows (attempts demo_db2) !! 0%nat = Some (the_attempt demo_db2 0)) as E by (vm_compute; reflexivity).
  split; [vm_compute; reflexivity|].
  destruct (job_start_beats_retirement str_cmp demo_db2 0%nat _ demo_started 120 demo_db2_reachable E)
    as (s' & a' & H1 & H2 & H3 & H4 & _); [vm_compute; reflexivity..|vm_compute; discriminate|].
  exists s', a'. split; [exact H1|]. split; [exact H2|]. split; [exact H3|exact H4].
Defined.

Definition silent_machine : machine := demo_machine <| mc_lastSeen := 0 |>.
Definition silent_attempt : attempt :=
  (demo_attempt "r-0" 70 1) <| at_state := Running |> <| at_machineId := Some 0%nat |>
    <| at_runnerCleanupPending := Some true |> <| at_retirement := Some (Retirement RetireFailed "silent" 5) |>.
Definition silent_db : db :=
  db_empty <| machines := t_of [silent_machine] |> <| attempts := t_of [silent_attempt] |>.

Lemma returning_worker_keeps_jobs_witness :
  ∃ s', heartbeat "token-1" 1000000 silent_db = Done ((Linux, 3), s') ∧
    rows (attempts s') !! 0%nat = Some (clear_retirement silent_attempt).
Proof.
  destruct (returning_worker_keeps_jobs silent_db 0%nat silent_machine 1000000) as (s' & H1 & _ & H2).
  - apply (t_of_inv [silent_attempt]).
  - vm_compute. reflexivity.
  - exists s'. split; [exact H1|]. specialize (H2 0%nat).
    assert (rows (attempts silent_db) !! 0%nat = Some silent_attempt) as E by (vm_compute; reflexivity).
    rewrite E in H2. destruct (rows (attempts s') !! 0%nat) as [a'|]; [|destruct H2].
    assert (workerReports silent_machine 1000000 = false) as Ew by (vm_compute; reflexivity).
    rewrite Ew in H2. rewrite H2. vm_compute. reflexivity.
Defined.
