(* ===== verification/Contracts.v ===== *)
(** Profiles stay free of label conflicts, and an accepted readiness report makes a Worker
    schedulable: properties of registerProfile (controllerApi.ts) and reportReadiness
    (workerApi.ts) against the scheduler's admission. *)

From S2P Require Import Prelude JsLib Schema HostLabels Egress Isolation Benchmark Scheduler.
From S2P Require Import Fixtures Placement Retirement Lease ControllerApi WorkerApi Fleet.
From S2P Require Import Lifecycle Handlers System Properties.

(** ** Label conflicts *)

Record profiles_inv (t : table profile) : Prop := {
  pi_wf : t_wf t;
  pi_names : ∀ i j p q, rows t !! i = Some p → rows t !! j = Some q → pf_name p = pf_name q → i = j;
  pi_free : ∀ i j p q, rows t !! i = Some p → rows t !! j = Some q → i ≠ j →
    pf_state p = ProfileActive → pf_state q = ProfileActive →
    scaleSetConflict (scale_set_of p) (scale_set_of q) = None;
}.

Lemma conflict_free_sym p q : scaleSetConflict p q = None → scaleSetConflict q p = None.
Proof. rewrite !scaleSetConflict_None. naive_solver. Qed.

(** Writing one row that conflicts with no active row of another name. *)
Lemma profiles_inv_set t i p :
  profiles_inv t → (is_Some (rows t !! i) ∨ i = next_id t) →
  (∀ j q, rows t !! j = Some q → j ≠ i → pf_name q ≠ pf_name p ∧
    (pf_state p = ProfileActive → pf_state q = ProfileActive →
     scaleSetConflict (scale_set_of p) (scale_set_of q) = None)) →
  ∀ t', rows t' = <[i := p]> (rows t) → (next_id t ≤ next_id t')%nat → (i < next_id t')%nat → profiles_inv t'.
Proof.
  intros [Hwf Hn Hf] Hi Hp t' Hr Hle Hlt. split.
  - intros j q. rewrite Hr, lookup_insert_Some. intros [[<- _]|[_ Hj%Hwf]]; lia.
  - intros j k q q'. rewrite Hr, !lookup_insert_Some.
    intros [[<- <-]|[Hne Hj]] [[<- <-]|[Hne' Hk]] E; [done|..|by eapply Hn].
    + by destruct (Hp k q' Hk) as [[] _].
    + by destruct (Hp j q Hj) as [[] _].
  - intros j k q q'. rewrite Hr, !lookup_insert_Some.
    intros [[<- <-]|[Hne Hj]] [[<- <-]|[Hne' Hk]] Hjk Ha Ha'; [done|..|by eapply Hf].
    + by apply (Hp k q' Hk).
    + apply conflict_free_sym. by apply (Hp j q Hj).
Qed.

(** A registration that is not refused has no conflict it did not have before. *)
Lemma introduced_none s existing value s1 old :
  introducedLabelConflicts existing value s = Done (([], old), s1) →
  ∀ r, r ∈ t_where (λ p, pf_state p === ProfileActive) (profiles s) → pf_name r.2 ≠ pf_name value →
  scaleSetConflict (scale_set_of value) (scale_set_of r.2) = None ∨
  ∃ e r', existing = Some e ∧ pf_state e = ProfileActive ∧
    r' ∈ t_where (λ p, pf_state p === ProfileActive) (profiles s) ∧ pf_name r'.2 = pf_name r.2 ∧
    scaleSetConflict (scale_set_of e) (scale_set_of r'.2) ≠ None.
Proof.
  unfold introducedLabelConflicts. intros H r Hr Hne. tx_bind_in H act s2 H2. injection H2 as <- <-.
  injection H as Hnil _ _. rewrite filter_nil_iff in Hnil.
  set (act := t_where (λ p, pf_state p === ProfileActive) (profiles s)) in *.
  destruct (scaleSetConflict (scale_set_of value) (scale_set_of r.2)) as [reason|] eqn:E; [right|by left].
  assert (LabelConflict (pf_name value) (pf_name r.2) reason ∈
    conflictsOf (scale_set_of value) (scale_set_of <$> filter (λ p, pf_name p ≠ pf_name value) (snd <$> act))) as Hin.
  { unfold conflictsOf. apply list_elem_of_omap. exists (scale_set_of r.2). split; [|by rewrite E].
    apply list_elem_of_fmap_2, list_elem_of_filter. split; [done|]. by apply list_elem_of_fmap_2. }
  specialize (Hnil _ Hin). simpl in Hnil. destruct existing as [e|]; [|set_solver].
  case_bool_decide as He; [|set_solver]. apply dec_stable in Hnil. exists e.
  apply list_elem_of_fmap in Hnil as (c & Hc & Hin').
  unfold conflictsOf in Hin'. apply list_elem_of_omap in Hin' as (o & Ho & Hoc).
  apply list_elem_of_fmap in Ho as (q & -> & [_ Hq]%list_elem_of_filter).
  apply list_elem_of_fmap in Hq as (r' & -> & Hr').
  exists r'. destruct (scaleSetConflict (scale_set_of e) (scale_set_of r'.2)) eqn:Ec; [|done].
  injection Hoc as <-. split_and!; try done.
Qed.

(** The row a registration writes, against every other row. *)
Lemma registered_free s name old value s1 kept :
  profiles_inv (profiles s) → pf_name value = name →
  match old with
  | Some (k, p) => rows (profiles s) !! k = Some p ∧ (pf_name p === name) = true
  | None => ∀ i p, rows (profiles s) !! i = Some p → (pf_name p === name) = false
  end →
  introducedLabelConflicts (snd <$> old) value s = Done (([], kept), s1) →
  ∀ i j q, match old with Some (k, _) => i = k | None => True end →
    rows (profiles s) !! j = Some q → j ≠ i → pf_name q ≠ pf_name value ∧
    (pf_state value = ProfileActive → pf_state q = ProfileActive →
     scaleSetConflict (scale_set_of value) (scale_set_of q) = None).
Proof.
  intros Hpi Hval Hold H1 i j q Hik Hj Hne. assert (pf_name q ≠ pf_name value) as Hname.
  { intros Eq. destruct old as [[k p]|].
    - subst k. destruct Hold as [Hk Hkn%bool_decide_eq_true]. apply Hne. eapply (pi_names _ Hpi); [done..|]. congruence.
    - specialize (Hold j q Hj). rewrite bool_decide_true in Hold; [done|]. congruence. }
  split; [done|]. intros _ Hact. assert ((j, q) ∈ t_where (λ p, pf_state p === ProfileActive) (profiles s)) as Hin.
  { apply elem_of_t_where; [apply Hpi|]. by rewrite bool_decide_true. }
  destruct (introduced_none _ _ _ _ _ H1 (j, q) Hin Hname) as [?|(e & [j' q'] & He & Hea & Hin' & Hqq & Hc)]; [done|].
  destruct Hc. destruct old as [[k p]|]; [|done]. injection He as <-. destruct Hold as [Hk _].
  apply elem_of_t_where in Hin' as [Hj' Ha'%bool_decide_eq_true]; [|apply Hpi]. simpl in Hqq.
  assert (j' = j) as -> by by eapply (pi_names _ Hpi). eapply (pi_free _ Hpi k j); try done. by subst k.
Qed.

Lemma registerProfile_profiles a c now s r s' :
  profiles_inv (profiles s) → registerProfile a c now s = Done (r, s') → profiles_inv (profiles s').
Proof.
  intros Hpi H. unfold registerProfile in H. tx_bind_in H u1 s1 H1. apply reads_authorize in H1 as ->.
  tx_bind_in H u2 s1 H2.
  assert (s1 = s) as -> by (destruct c; [by apply reads_requireControllerToken in H2|by injection H2]).
  tx_bind_in H old s1 H1. unfold profile_named in H1.
  apply (unique_row profiles _ _ _ _ (pi_wf _ Hpi)) in H1 as [-> Hold]. cbv zeta in H.
  set (value := registered_profile a (snd <$> old) now) in *.
  tx_bind_in H cf s1 H1. pose proof H1 as ->%reads_introduced.
  destruct cf as [[|x l] kept]; cbn [fst] in H; [|by injection H as _ <-].
  tx_bind_in H pid s1 Hw. tx_bind_in H u3 s2 H3. injection H as _ <-.
  assert (profiles s2 = profiles s1) as ->.
  { apply (moves_profiles (λ e, e ≠ EvProfile)); [naive_solver|]. unfold when in H3.
    destruct (_ !== _); [|injection H3 as _ <-; apply rtc_refl].
    tx_bind_in H3 sp s3 H4. injection H4 as _ <-. tx_bind_in H3 u4 s4 H4.
    eapply moves_trans; [|by eapply inert_moves; [apply inert_run_after|]].
    destruct sp as [p|]; [|injection H4 as _ <-; apply rtc_refl].
    tx_bind_in H4 u5 s5 H5. injection H4 as _ <-. by eapply retireOffPinForProfile_moves. }
  pose proof (registered_free s (ra_name a) old value s kept Hpi eq_refl Hold H1) as Hfree.
  destruct old as [[k p]|].
  - tx_bind_in Hw u4 s3 H4. injection Hw as _ <-. apply db_patch_done in H4 as (d & Hd & ->). simpl.
    eapply (profiles_inv_set _ k value Hpi); [by left|intros; by eapply (Hfree k)|done|done|].
    by apply (pi_wf _ Hpi) in Hd.
  - injection Hw as _ <-. simpl.
    eapply (profiles_inv_set _ (next_id (profiles s)) value Hpi);
      [by right|intros; by eapply (Hfree (next_id (profiles s)))|done|simpl; lia..].
Qed.

Lemma pauseProfile_profiles n c now s r s' :
  profiles_inv (profiles s) → pauseProfile n c now s = Done (r, s') → profiles_inv (profiles s').
Proof.
  intros Hpi H. unfold pauseProfile in H. tx_bind_in H u1 s1 H1.
  assert (s1 = s) as ->.
  { destruct c; [|by injection H1]. tx_bind_in H1 u2 s2 H2. apply reads_authorize in H2 as ->.
    by apply reads_requireControllerToken in H1. }
  tx_bind_in H old s1 H2. apply reads_profile_named in H2 as ->.
  destruct old as [[i p]|]; [|by injection H as _ <-].
  tx_bind_in H u2 s2 H2. injection H as _ <-. unfold when in H2.
  destruct (_ !== _); [|by injection H2 as _ <-].
  apply db_patch_done in H2 as (d & Hd & ->). simpl.
  eapply (profiles_inv_set _ i); [exact Hpi|by left; eexists| |done|done|by apply (pi_wf _ Hpi) in Hd].
  intros j q Hj Hne. split; [|done]. intros E. apply Hne. by eapply (pi_names _ Hpi).
Qed.

Section reachable_profiles.
Context (localeCompare : string → string → Z).

Lemma sys_step_profiles s s' :
  sys_step localeCompare s s' → base s → profiles_inv (profiles s) → profiles_inv (profiles s').
Proof.
  intros [o now s0 Hv] Hinv Hpi. unfold commit.
  destruct (run_op localeCompare o now s0) as [[u s1]|] eqn:H; [|done].
  destruct (decide (causes o EvProfile = true)) as [Hc|Hc].
  - destruct o; try done; simpl in H; apply ignore_done in H as [x H].
    + by eapply registerProfile_profiles.
    + by eapply pauseProfile_profiles.
  - apply run_op_moves in H; [|done..]. by rewrite (moves_profiles _ _ _ Hc H).
Qed.

Lemma reachable_profiles_inv s : reachable localeCompare s → profiles_inv (profiles s).
Proof.
  intros H. assert (base db_empty ∧ profiles_inv (profiles db_empty)) as [Hi Hp].
  { split; [apply inv_empty|]. split; [apply t_wf_empty|done..]. }
  revert Hi Hp. induction H as [|s1 s2 s3 Hs _ IH]; intros Hi Hp; [done|].
  apply IH; [by eapply sys_step_base|by eapply sys_step_profiles].
Qed.

(** In every reachable store Profile names are unique, and no two active Profiles conflict:
    neither scale set carries a label that names the other Profile or its scale set, so GitHub
    cannot hand one's jobs to the other. *)
Theorem active_profiles_never_conflict s i j p q :
  reachable localeCompare s → rows (profiles s) !! i = Some p → rows (profiles s) !! j = Some q → i ≠ j →
  pf_name p ≠ pf_name q ∧
  (pf_state p = ProfileActive → pf_state q = ProfileActive →
   to_lower (pf_name q) ∉ scaleSetLabels (scale_set_of p) ∧
   to_lower (pf_scaleSetName q) ∉ scaleSetLabels (scale_set_of p)).
Proof.
  intros Hpi%reachable_profiles_inv Hi Hj Hne.
  assert (pf_name p ≠ pf_name q) as Hn by (intros E; apply Hne; by eapply (pi_names _ Hpi)).
  split; [done|]. intros Ha Hb. pose proof (pi_free _ Hpi i j p q Hi Hj Hne Ha Hb) as Hf.
  apply scaleSetConflict_None in Hf as [?|(? & ? & _)]; [by destruct Hn|].
  unfold answers_to in *. by rewrite !bool_decide_eq_false in *.
Qed.
End reachable_profiles.

(** ** Readiness *)

(** What a committed report wrote. *)
Lemma reportReadiness_run token a now s st s' :
  reportReadiness token a now s = Done (st, s') →
  ∃ mid m pid p i j r e,
    rows (machines s) !! mid = Some m ∧ mc_token m = token ∧
    rows (profiles s) !! pid = Some p ∧ pf_name p = rr_profile a ∧ contract_mismatch a p = false ∧
    missingHostLabels (pf_workerLabels p) (Some (mc_labels m)) = [] ∧
    assertReadinessContract (rr_state a) (rr_executor a) (rr_facts a) (rr_warmPool a) (profileEgressOf p) s =
      Done (tt, s) ∧
    rows (workerReadiness s') !! i = Some r ∧ rows (readinessEvidence s') !! j = Some e ∧
    r = WorkerReadiness mid (rr_profile a) (rr_executor a) (rr_imageRelease a) (rr_vcpus a) (rr_memoryMiB a)
          st now (wr_preparedAt r) (wr_warmPool r) None None (hot_facts (rr_facts a)) ∧
    (st = RReady → rr_state a = RReady) ∧
    exact_current_evidence r e = true ∧ ev_facts e = evidence_facts (rr_facts a).
Proof.
  intros H. unfold reportReadiness in H. tx_bind_in H mc s1 H1. apply machineForToken_done in H1 as (-> & Hm & Ht).
  tx_bind_in H f s1 H1. unfold profile_named in H1. apply db_unique_done in H1 as [-> Hf].
  destruct f as [[pid p]|]; [|done].
  destruct (t_where_sound (profiles s) (λ p, pf_name p === rr_profile a) (pid, p)) as [Hp Hn]; [rewrite Hf; left|].
  apply bool_decide_eq_true in Hn. simpl in Hp, Hn.
  destruct (contract_mismatch a p) eqn:Hcm; [done|].
  destruct (missingHostLabels _ _) as [|x l] eqn:Hml; [|done].
  tx_bind_in H u1 s1 H1. destruct u1. pose proof H1 as ->%reads_assertReadiness.
  tx_bind_in H old s1 H2. apply reads_unique in H2 as ->. tx_bind_in H oev s1 H2. apply reads_unique in H2 as ->.
  cbv zeta in H. tx_bind_in H u2 s2 H2. tx_bind_in H u3 s3 H3. tx_bind_in H u4 s4 H4.
  injection H as <- <-.
  apply (upsert_done workerReadiness) in H2 as (i & f & -> & Hi).
  apply (upsert_done readinessEvidence) in H3 as (j & g & -> & Hj).
  assert (workerReadiness s4 = f (workerReadiness s) ∧ readinessEvidence s4 = g (readinessEvidence s)) as [Ew Ee].
  { unfold when in H4. destruct (rr_state a === RReady); by injection H4 as _ <-. }
  eexists mc.1, mc.2, pid, p, i, j, _, _. rewrite Ew, Ee. split_and!; try done.
  - destruct (_ && _); [done|]. by intros.
  - unfold exact_current_evidence. simpl. by rewrite !bool_decide_true.
Qed.

Lemma evidence_facts_id f : (length (or_else [] (rf_checks f)) ≤ 32)%nat → evidence_facts f = f.
Proof.
  destruct f as [? ? [c|] ? ? ? ? ?]; unfold evidence_facts; simpl; [|done]. intros H. by rewrite take_ge.
Qed.

(** A readiness report that the control plane accepts as ready makes the Worker schedulable.
    If it lists at most 32 checks and the Worker's heartbeat is current, the rows it wrote pass
    every test the scheduler applies to place that Profile's work there. *)
Theorem ready_report_is_schedulable token a now s s' :
  reportReadiness token a now s = Done (RReady, s') →
  (length (or_else [] (rf_checks (rr_facts a))) ≤ 32)%nat →
  ∃ mid m pid p i j r e,
    rows (machines s) !! mid = Some m ∧ mc_token m = token ∧
    rows (profiles s) !! pid = Some p ∧ pf_name p = rr_profile a ∧
    rows (workerReadiness s') !! i = Some r ∧ wr_machineId r = mid ∧ wr_profile r = rr_profile a ∧
    rows (readinessEvidence s') !! j = Some e ∧
    (now - mc_lastSeen m < WORKER_OFFLINE_AFTER_MS →
     isSchedulableReadiness r (Some e) (Some m) (profile_contract p) (profileEgressOf p) now = true).
Proof.
  intros H Hlen.
  apply reportReadiness_run in H as (mid & m & pid & p & i & j & r & e & Hm & Ht & Hp & Hn & Hcm & Hml & Hass &
    Hr & He & Er & Hst & Hex & Hfe).
  exists mid, m, pid, p, i, j, r, e. specialize (Hst eq_refl). rewrite Hst in Hass.
  apply assertReadinessContract_ready in Hass as (_ & _ & _ & _ & Hfc & _).
  assert (wr_executor r = rr_executor a ∧ wr_imageRelease r = rr_imageRelease a ∧ wr_state r = RReady ∧
    wr_checkedAt r = now ∧ wr_machineId r = mid ∧ wr_profile r = rr_profile a) as (Ex & Ei & Es & Ec & Emid & Epr)
    by (by rewrite Er).
  unfold contract_mismatch in Hcm. cbv zeta in Hcm. rewrite !orb_false_iff, !negb_false_iff, !bool_decide_eq_true in Hcm.
  destruct Hcm as (((((((_ & Hpx) & Hpi) & _) & _) & _) & _) & _).
  split_and!; try done. intros Hseen. unfold isSchedulableReadiness, profile_contract. simpl.
  rewrite Es, Ex, Ei, Ec, Hpx, Hpi. rewrite !bool_decide_true by done. simpl.
  unfold carriesHostLabels. rewrite Hml. simpl.
  rewrite (readinessAdmissionError_complete r e); [|done|].
  2:{ intros Hfire. rewrite Hfe, evidence_facts_id by done. apply Hfc. congruence. }
  rewrite (proj2 (Z.ltb_lt _ _)); [|unfold READINESS_STALE_AFTER_MS; lia]. simpl. by apply Z.ltb_lt.
Qed.

(** A second Profile that asks for a label the first one's scale set is named by. *)
Definition demo_greedy : register_args :=
  RegisterArgs "mac" "era-mac" Tart "release-1" 2 4096 None None 0 8 None
    (Some "https://github.com/acme") None None (Some ["Era-Linux"]) None.
Definition demo_modest : register_args :=
  RegisterArgs "mac" "era-mac" Tart "release-1" 2 4096 None None 0 8 None
    (Some "https://github.com/acme") None None (Some ["mini"]) None.

Definition demo_profiles : list (op * Z) :=
  demo_run ++ [(OpRegisterProfile demo_greedy None, 100); (OpRegisterProfile demo_modest None, 101)].

Lemma active_profiles_never_conflict_witness :
  ∃ p q, rows (profiles (run_all demo_profiles)) !! 0%nat = Some p ∧
    rows (profiles (run_all demo_profiles)) !! 1%nat = Some q ∧
    pf_state p = ProfileActive ∧ pf_state q = ProfileActive ∧ pf_labels q = Some ["mini"] ∧
    to_lower (pf_scaleSetName p) ∉ scaleSetLabels (scale_set_of q).
Proof.
  assert (reachable str_cmp (run_all demo_profiles)) as Hr.
  { apply run_all_reachable, Forall_app. split; [apply demo_run_valid|]. repeat constructor. }
  destruct (rows (profiles (run_all demo_profiles)) !! 0%nat) as [p|] eqn:Ep; [|vm_compute in Ep; discriminate].
  destruct (rows (profiles (run_all demo_profiles)) !! 1%nat) as [q|] eqn:Eq; [|vm_compute in Eq; discriminate].
  assert (pf_state p = ProfileActive) as Hp by (vm_compute in Ep; injection Ep as <-; reflexivity).
  assert (pf_state q = ProfileActive) as Hq by (vm_compute in Eq; injection Eq as <-; reflexivity).
  exists p, q. split; [reflexivity|]. split; [reflexivity|]. split; [exact Hp|]. split; [exact Hq|].
  split; [vm_compute in Eq; injection Eq as <-; reflexivity|].
  destruct (active_profiles_never_conflict str_cmp (run_all demo_profiles) 1%nat 0%nat q p Hr Eq Ep) as [_ H]; [lia|].
  apply (H Hq Hp).
Defined.

(** The demo fleet before its Worker reported readiness. *)
Definition demo_joined : db := run_all (take 4 demo_start).

Lemma ready_report_is_schedulable_witness :
  ∃ s' r e m p, reportReadiness "token-1" demo_report 50 demo_joined = Done (RReady, s') ∧
    isSchedulableReadiness r (Some e) (Some m) (profile_contract p) (profileEgressOf p) 50 = true.
Proof.
  set (s' := commit (reportReadiness "token-1" demo_report 50) demo_joined).
  assert (reportReadiness "token-1" demo_report 50 demo_joined = Done (RReady, s')) as E by (vm_compute; reflexivity).
  assert (map_Forall (λ _ m, 50 - mc_lastSeen m < WORKER_OFFLINE_AFTER_MS) (rows (machines demo_joined))) as Hseen
    by (apply (bool_decide_unpack _); vm_compute; exact I).
  destruct (ready_report_is_schedulable "token-1" demo_report 50 demo_joined s' E)
    as (mid & m & pid & p & i & j & r & e & Hm & _ & _ & _ & Hr & Hid & _ & He & Hsch); [vm_compute; lia|].
  exists s', r, e, m, p. split; [exact E|]. apply Hsch. exact (Hseen mid m Hm).
Defined.

(** A report of 32 further passing checks before the required ones. *)
Definition long_report : readiness_args :=
  ReadinessArgs "linux" Firecracker "release-1" (Some 2) (Some 4096) RReady None None
    (ReadinessFacts (rf_isolation demo_facts) (rf_boundary demo_facts)
       (Some (((λ n, ReadinessCheck ("extra-" +:+ pretty n) true None) <$> seq 0 32) ++ demo_checks))
       (rf_cacheScope demo_facts) (rf_cacheSharedWritable demo_facts) (rf_hardware demo_facts)
       (rf_storage demo_facts) (rf_network demo_facts)) None None.

Definition long_db : db := commit (reportReadiness "token-1" long_report 50) demo_joined.
Definition long_row : worker_readiness := or_else demo_readiness (rows (workerReadiness long_db) !! 0%nat).
Definition long_evidence : readiness_evidence := or_else demo_evidence (rows (readinessEvidence long_db) !! 0%nat).

(** The bound on stored checks is not checked on the way in.  A report with 32 passing checks
    before the required ones is accepted as ready, but only the first 32 are stored, so the
    scheduler finds the required checks missing and the Worker gets no work. *)
Theorem long_ready_report_is_not_schedulable :
  reportReadiness "token-1" long_report 50 demo_joined = Done (RReady, long_db) ∧
  rows (workerReadiness long_db) !! 0%nat = Some long_row ∧ wr_state long_row = RReady ∧
  rows (readinessEvidence long_db) !! 0%nat = Some long_evidence ∧
  ∀ m c now, isSchedulableReadiness long_row (Some long_evidence) m c PUBLIC_EGRESS now = false.
Proof.
  split; [vm_compute; reflexivity|]. split; [vm_compute; reflexivity|]. split; [vm_compute; reflexivity|].
  split; [vm_compute; reflexivity|].
  intros m c now. destruct m as [m|]; [|reflexivity]. unfold isSchedulableReadiness.
  assert (is_none (readinessAdmissionError long_row (Some long_evidence) PUBLIC_EGRESS) = false) as ->
    by (vm_compute; reflexivity).
  rewrite andb_false_r. reflexivity.
Qed.
