(* ===== verification/CronProperties.v ===== *)
(** What the reconciliation cron may do to Attempts: when it gives up on a live one, and which
    rows retention deletes (reconcile.ts). *)

From S2P Require Import Prelude JsLib Schema HostLabels Egress Isolation Benchmark Scheduler.
From S2P Require Import Fixtures Placement Retirement Lease ControllerApi WorkerApi Fleet.
From S2P Require Import LegacyJobs Webhooks Reconcile Lifecycle Handlers LegacyMoves.
From S2P Require Import ReconcileMoves SlotRepair System Properties.

Lemma no_live_controller l now h :
  lv_live (controllerLiveness l now) = 0%nat → h ∈ l → isLive h now = false.
Proof.
  intros Hl Hin. destruct (isLive h now) eqn:Hlive; [exfalso|done].
  unfold controllerLiveness in Hl. destruct l as [|x l]; [by apply elem_of_nil in Hin|].
  cbn [lv_live] in Hl. apply length_zero_iff_nil in Hl.
  assert (h ∈ filter (λ r, isLive r now = true) (to_sorted (λ l r, hb_receivedAt r - hb_receivedAt l) (x :: l))) as Hf.
  { apply list_elem_of_filter. split; [done|]. by apply elem_of_to_sorted. }
  rewrite Hl in Hf. by apply elem_of_nil in Hf.
Qed.

Section cron.
Context (localeCompare : string → string → Z).


(** Retention deletes only the rows of Attempts that ended, whose Runner nobody has to clean
    up, and that finished (or, without a finish time, were created) at least thirty days ago; the
    Attempts it leaves are unchanged. *)
Theorem retention_forgets_only_finished s now u s' :
  reachable localeCompare s → retain now s = Done (u, s') →
  (∀ i a, rows (attempts s') !! i = Some a → rows (attempts s) !! i = Some a) ∧
  ∀ i a, rows (attempts s) !! i = Some a → rows (attempts s') !! i = None →
    terminal (at_state a) = true ∧ at_runnerCleanupPending a = None ∧
    or_else (at_createdAt a) (at_finishedAt a) ≤ now - 30 * 24 * 60 * 60000.
Proof.
  intros Hr%reachable_base H. apply (retain_moves (λ _, True) I I) in H as (_ & Hf & Hg); [|done].
  split; [exact Hf|]. intros i a Hi Hn. exact (Hg i a Hi Hn).
Qed.
End cron.

(** ** Witnesses *)

(** Hours later no controller has confirmed the deletion of the idle Runner. *)
Definition demo_given_up : db := commit (reconcile 30000000) demo_db2.


(** The fleet whose first Attempt completed, more than thirty days later. *)
Definition demo_done : db := run_all (demo_run ++ [(OpJobCompleted demo_completed None, 120)]).

Lemma demo_done_reachable : reachable str_cmp demo_done.
Proof.
  apply run_all_reachable. apply Forall_app. split; [apply demo_run_valid|]. by repeat constructor.
Qed.

Lemma retention_forgets_only_finished_witness :
  ∃ s', retain 3000000000 demo_done = Done (tt, s') ∧ rows (attempts s') !! 0%nat = None ∧
    at_runnerCleanupPending (the_attempt demo_done 0) = None.
Proof.
  destruct (retain 3000000000 demo_done) as [[[] s']|] eqn:E; [|vm_compute in E; discriminate].
  exists s'. split; [reflexivity|].
  assert (rows (attempts s') !! 0%nat = None) as Hn
    by (vm_compute in E; injection E as <-; vm_compute; reflexivity).
  split; [exact Hn|].
  destruct (retention_forgets_only_finished str_cmp demo_done 3000000000 tt s' demo_done_reachable E) as [_ H].
  apply (H 0%nat (the_attempt demo_done 0)); [vm_compute; reflexivity|exact Hn].
Defined.
