(* ===== verification/QueueProperties.v ===== *)
(** Properties of the legacy job queue (scheduler.ts, jobs.ts, agentApi.ts): a command's JIT
    config is handed out once, a scheduling run respects every machine's slots, and what a failed
    provisioning does to its job. *)

From S2P Require Import Prelude JsLib Schema HostLabels Egress Isolation Benchmark Scheduler.
From S2P Require Import Fixtures Placement Retirement Lease ControllerApi WorkerApi Fleet.
From S2P Require Import LegacyJobs Webhooks Reconcile Lifecycle Handlers LegacyMoves.
From S2P Require Import ReconcileMoves SlotRepair System Properties.

(** ** Commands leave the pending state for good *)

Record commands_age (s s' : db) : Prop := {
  ca_next : (next_id (commands s) ≤ next_id (commands s'))%nat;
  ca_pending : ∀ i c', rows (commands s') !! i = Some c' → cm_status c' = CPending →
    (next_id (commands s) ≤ i)%nat ∨ ∃ c, rows (commands s) !! i = Some c ∧ cm_status c = CPending;
}.

#[export] Instance commands_age_preorder : PreOrder commands_age.
Proof.
  split.
  - intros s. split; [done|]. intros i c Hi Hp. right. eauto.
  - intros s1 s2 s3 [N1 P1] [N2 P2]. split; [lia|]. intros i c Hi Hp.
    destruct (P2 i c Hi Hp) as [?|(c2 & H2 & Hp2)]; [left; lia|]. by eapply P1.
Qed.

Lemma commands_age_same s s' : commands s' = commands s → commands_age s s'.
Proof. intros E. split; rewrite E; [done|]. intros i c Hi Hp. right. eauto. Qed.

Definition ages {A} (m : tx db A) : Prop := ∀ s a s', m s = Done (a, s') → commands_age s s'.

Lemma ages_keeps {A} (m : tx db A) : keeps commands m → ages m.
Proof. intros Hm s a s' H%Hm. by apply commands_age_same. Qed.
Lemma ages_bind {A B} (m : tx db A) (k : A → tx db B) : ages m → (∀ a, ages (k a)) → ages (m ≫= k).
Proof. intros Hm Hk s b s' H. tx_bind_in H a s1 H1. apply Hm in H1. apply Hk in H. by etrans. Qed.
Lemma ages_for_each {A} (l : list A) body : (∀ x, ages (body x)) → ages (for_each l body).
Proof.
  intros Hb. induction l as [|x l IH]; simpl; [by intros s a s' [= _ <-]|]. by apply ages_bind.
Qed.
Lemma ages_fold {A B} (body : B → A → tx db B) l b : (∀ b x, ages (body b x)) → ages (fold_tx body b l).
Proof.
  intros Hb. revert b. induction l as [|x l IH]; intros b; simpl; [by intros s a s' [= _ <-]|].
  by apply ages_bind.
Qed.

Lemma ages_patch i f :
  (∀ c, cm_status (f c) = CPending → cm_status c = CPending) → ages (db_patch commands i f).
Proof.
  intros Hf s u s' (c & Hc & ->)%db_patch_done. split; simpl; [done|]. intros j d.
  rewrite lookup_insert_Some. intros [[<- <-]|[_ Hj]] Hp; right; eauto.
Qed.
Lemma ages_insert c : ages (db_insert commands c).
Proof.
  intros s u s' [= _ <-]. split; simpl; [lia|]. intros j d.
  rewrite lookup_insert_Some. intros [[<- <-]|[_ Hj]] Hp; [by left|right; eauto].
Qed.
Lemma ages_delete i : ages (db_delete commands i).
Proof.
  intros s u s' (c & Hc & ->)%db_delete_done. split; simpl; [done|]. intros j d.
  intros [_ Hj]%lookup_delete_Some Hp. right. eauto.
Qed.

Create HintDb ages discriminated.

(** Walks over the binds and branches of a handler of the queue. *)
Ltac ages_tac :=
  repeat first
    [ by auto with ages
    | by apply ages_keeps; first [by apply keeps_patch|by apply keeps_insert|by apply keeps_delete|
        by apply keeps_modify|by apply keeps_reads; auto with effects]
    | by apply ages_delete
    | apply ages_insert
    | by apply ages_patch
    | apply ages_bind; [|intros ?]
    | apply ages_for_each; intros ?
    | apply ages_fold; intros ??
    | progress unfold db_get, db_where, db_first, when, run_after
    | case_match ].

Lemma ages_discardCommand i c j now : ages (discardCommand i c j now).
Proof. unfold discardCommand, enqueueRunnerDeletion. ages_tac. Qed.
Lemma ages_discard_all cs j now : ages (discard_all cs j now).
Proof. apply ages_for_each. intros c. apply ages_discardCommand. Qed.
Lemma ages_release m : ages (releaseMachineSlot m).
Proof. unfold releaseMachineSlot. ages_tac. Qed.
#[export] Hint Resolve ages_discardCommand ages_discard_all ages_release : ages.

Lemma ages_failAttempt c j e now : ages (failAttempt c j e now).
Proof. unfold failAttempt. ages_tac. Qed.
Lemma ages_displace cid pid aid a now : ages (displace cid pid aid a now).
Proof. unfold displace, commandsForJob. ages_tac. Qed.
#[export] Hint Resolve ages_failAttempt ages_displace : ages.
Lemma ages_adopt aid a rn now : ages (adoptRunnerAssignment aid a rn now).
Proof. unfold adoptRunnerAssignment. ages_tac. Qed.
#[export] Hint Resolve ages_adopt : ages.
Lemma ages_applyWorkflowJob e now : ages (applyWorkflowJob e now).
Proof.
  unfold applyWorkflowJob, applyQueued, applyInProgress, applyCompleted, commandsForJob, cancel_command,
    enqueueRunnerDeletion.
  ages_tac.
Qed.
Lemma ages_processDelivery r p d now : ages (processDelivery r p d now).
Proof.
  unfold processDelivery. apply ages_bind; [ages_tac|intros x].
  destruct x as [x|]; [|ages_tac]. destruct (_ !== _); [ages_tac|].
  destruct (wd_workflowJob x); [|ages_tac]. destruct (decideRepository _ _ _); [|ages_tac].
  apply ages_bind; [apply ages_applyWorkflowJob|intros _]. ages_tac.
Qed.
Lemma ages_legacyTryAssign now : ages (legacyTryAssign now).
Proof. unfold legacyTryAssign, assign_job. ages_tac. Qed.
Lemma ages_storeJitConfig c j r : ages (storeJitConfig c j r).
Proof. unfold storeJitConfig. ages_tac. Qed.
Lemma ages_claimCommand t c now : ages (claimCommand t c now).
Proof. unfold claimCommand. ages_tac. Qed.
Lemma ages_reportCommand t c e now : ages (reportCommand t c e now).
Proof. unfold reportCommand. ages_tac. Qed.
Lemma ages_deleteMachine m now : ages (deleteMachine m now).
Proof. unfold deleteMachine. ages_tac. Qed.
Lemma ages_dropJob j now : ages (dropJob j now).
Proof. unfold dropJob, commandsForJob. ages_tac. Qed.
Lemma ages_requeueJob j now : ages (requeueJob j now).
Proof. unfold requeueJob, commandsForJob. ages_tac. Qed.
#[export] Hint Resolve ages_processDelivery ages_legacyTryAssign ages_storeJitConfig ages_claimCommand
  ages_reportCommand ages_deleteMachine ages_dropJob ages_requeueJob ages_applyWorkflowJob : ages.

Lemma ages_reconcile_assigned now ms cs ta r : ages (reconcile_assigned now ms cs ta r).
Proof. destruct r. unfold reconcile_assigned, free_slot. cbv zeta. ages_tac. Qed.
Lemma ages_reconcile_running now ms cs ta r : ages (reconcile_running now ms cs ta r).
Proof. destruct r. unfold reconcile_running, free_slot, enqueueRunnerDeletion. cbv zeta. ages_tac. Qed.
Lemma ages_reconcile_queued now ta r : ages (reconcile_queued now ta r).
Proof. unfold reconcile_queued. ages_tac. Qed.
Lemma ages_reconcile_attempt now ms ta r : ages (reconcile_attempt now ms ta r).
Proof.
  apply ages_keeps. destruct r. unfold reconcile_attempt, keepForReturningWorker, retirementBackstopDue,
    finishRetirement, retireAttempt, releaseAttemptSlot, releaseMachineSlot, deleteAttemptSecret.
  cbv zeta. keeps_tac.
Qed.
Lemma ages_reconcile_experiment now ms ta r : ages (reconcile_experiment now ms ta r).
Proof. apply ages_keeps. destruct r. unfold reconcile_experiment. cbv zeta. keeps_tac. Qed.
Lemma ages_map {A B} (f : A → tx db B) l : (∀ x, reads (f x)) → ages (map_tx f l).
Proof.
  intros Hf. apply ages_keeps, keeps_reads. induction l as [|x l IH]; simpl; [reads_tac|].
  apply reads_bind; [done|intros ?]. apply reads_bind; [done|intros ?]. reads_tac.
Qed.
#[export] Hint Resolve ages_reconcile_assigned ages_reconcile_running ages_reconcile_queued
  ages_reconcile_attempt ages_reconcile_experiment : ages.
#[export] Hint Extern 5 (ages (map_tx _ _)) => (apply ages_map; intros ?; apply reads_read) : ages.

Lemma ages_reconcile now : ages (reconcile now).
Proof.
  unfold reconcile, recover_work, expected_slots, jobs_with, active_commands, active_attempts,
    active_experiments, machines_of, repair_slot, retain, retain_registrations, retain_deliveries,
    retain_recoveries, retain_jobs, retain_attempts, expired_attempts, forget_attempt, deleteAttemptSecret,
    deleteAttemptEgress, retain_experiments, expired_experiments, retryStalledDeliveries, retry_delivery.
  ages_tac.
Qed.
#[export] Hint Resolve ages_reconcile : ages.

Lemma moves_commands E s s' : ¬ E EvLegacy → moves E s s' → commands s' = commands s.
Proof.
  intros HE Hm. induction Hm as [|s1 s2 s3 H12 _ IH]; [done|]. rewrite IH. clear IH.
  destruct H12 as [s s' Hc| | | |s s' now _ [(ta & tx & tm & ->) _ _ _ _ _]| | | | | | | | |]; try done.
  unfold core in Hc. by injection Hc.
Qed.

Section delivery.
Context (localeCompare : string → string → Z).

Lemma run_op_ages o now s u s' :
  op_valid o → base s → run_op localeCompare o now s = Done (u, s') → commands_age s s'.
Proof.
  intros Hv Hb H. destruct (causes o EvLegacy) eqn:Hc.
  2:{ apply commands_age_same. eapply moves_commands; [|by eapply run_op_moves]. simpl. congruence. }
  destruct o; try done; simpl in H; try (apply ignore_done in H as [x H]); revert H;
    (lazymatch goal with |- ?m s = _ → _ => assert (ages m) as Hm; [|apply Hm] end); auto with ages.
  - unfold recordJobError. ages_tac.
  - unfold setMachineMaxSlots. ages_tac.
Qed.

(** A command that left the queue never comes back to it, even when it is deleted. *)
Definition taken (i : Id) (s : db) : Prop :=
  (i < next_id (commands s))%nat ∧ ∀ c, rows (commands s) !! i = Some c → cm_status c ≠ CPending.

Lemma taken_age i s s' : commands_age s s' → taken i s → taken i s'.
Proof.
  intros [Hn Hp] [Hi Ht]. split; [lia|]. intros c Hc Hst.
  destruct (Hp i c Hc Hst) as [?|(c0 & H0 & Hs0)]; [lia|by eapply Ht].
Qed.

Lemma sys_steps_taken i s s' :
  rtc (sys_step localeCompare) s s' → base s → taken i s → taken i s'.
Proof.
  induction 1 as [s|s s1 s' Hs _ IH]; intros Hb Ht; [done|]. apply IH; [by eapply sys_step_base|].
  destruct Hs as [o now s Hv]. unfold commit.
  destruct (run_op localeCompare o now s) as [[u s1]|] eqn:E; [|done].
  eapply taken_age; [by eapply run_op_ages|done].
Qed.

(** What a claim that hands out a config found and did. *)
Lemma claimCommand_run token i now s c s' :
  claimCommand token i now s = Done (Some c, s') →
  ∃ mid m cmd, rows (machines s) !! mid = Some m ∧ mc_token m = token ∧
    rows (commands s) !! i = Some cmd ∧ cm_machineId cmd = mid ∧ cm_status cmd = CPending ∧
    cm_jitConfig cmd = Some (cc_jitConfig c) ∧ cc_runnerName c = cm_runnerName cmd ∧
    rows (commands s') !! i = Some (cmd <| cm_status := CClaimed |> <| cm_claimedAt := Some now |>
      <| cm_jitConfig := None |>).
Proof.
  intros H. unfold claimCommand in H. tx_bind_in H mc s1 H1.
  apply machineForToken_done in H1 as (-> & Hrow & Htok). tx_bind_in H oc s1 H1. injection H1 as Hcmd <-.
  destruct oc as [cmd|]; [|done]. destruct (_ || _) eqn:Hg; [done|].
  apply orb_false_iff in Hg as [Hm%negb_false_iff%bool_decide_eq_true Hs%negb_false_iff%bool_decide_eq_true].
  destruct (cm_jitConfig cmd) as [jit|] eqn:Hj; [|done].
  tx_bind_in H u s2 H2. injection H as <- <-. apply db_patch_done in H2 as (d & Hd & ->). simplify_eq.
  exists (cm_machineId cmd), mc.2, cmd. rewrite <- Hm in Hrow. split_and!; try done. apply lookup_insert_eq.
Qed.

(** A command's JIT config is delivered once, and to its machine.  A claim that returns a
    config is made with the token of the machine the command was assigned to, and after it no
    operation or sequence of operations makes a claim of the same command return a config again. *)
Theorem command_jit_delivered_once s token i now c s1 s2 :
  reachable localeCompare s → claimCommand token i now s = Done (Some c, s1) →
  rtc (sys_step localeCompare) s1 s2 →
  (∃ cmd m, rows (commands s) !! i = Some cmd ∧ rows (machines s) !! cm_machineId cmd = Some m ∧
     mc_token m = token ∧ cm_jitConfig cmd = Some (cc_jitConfig c)) ∧
  ∀ token' now' c' s3, claimCommand token' i now' s2 ≠ Done (Some c', s3).
Proof.
  intros Hr%reachable_base Hclaim Hsteps.
  assert (base s1) as Hb1.
  { eapply base_moves; [|exact Hr]. by eapply queue_moves; [| |by apply (queue_claimCommand (λ _, True))|]. }
  apply claimCommand_run in Hclaim as (mid & m & cmd & Hm & Htok & Hcmd & <- & Hst & Hjit & _ & Hrow).
  split; [by exists cmd, m|]. intros token' now' c' s3 H.
  assert (taken i s1) as Htk.
  { split; [by eapply (lo_commands _ (iv_legacy _ Hb1))|]. intros d Hd. by simplify_eq. }
  destruct (sys_steps_taken _ _ _ Hsteps Hb1 Htk) as [_ Hn].
  apply claimCommand_run in H as (? & ? & cmd' & _ & _ & Hcmd' & _ & Hst' & _). by eapply Hn.
Qed.
End delivery.

(** ** A scheduling run *)

Lemma pick_machine_spec j fb ms m e :
  pick_machine j fb ms = Some (m, e) →
  fb = Some (m, e) ∨
  m ∈ ms ∧ sm_usedSlots m < mc_maxSlots (sm_doc m) ∧ selectImageForMachine (jb_labels j) (sm_doc m) = Some e.
Proof.
  revert fb. induction ms as [|x ms IH]; intros fb; simpl; [by left|].
  assert (m ∈ ms → m ∈ x :: ms) as Hx by (by right).
  destruct (Z.leb_spec (mc_maxSlots (sm_doc x)) (sm_usedSlots x)) as [|Hlt]; [intros [?|(? & ? & ?)]%IH; auto|].
  destruct (selectImageForMachine (jb_labels j) (sm_doc x)) as [e'|] eqn:He; [|intros [?|(? & ? & ?)]%IH; auto].
  case_match.
  - intros [Hf|(? & ? & ?)]%IH; [|auto]. destruct fb as [p|]; simpl in Hf; [by left|right].
    injection Hf as <- <-. split_and!; [left|done..].
  - intros [= <- <-]. right. split_and!; [left|done..].
Qed.

(** What a run did with a job that it assigned. *)
Definition assigned_by (now : Z) (s0 : db) (j j' : job) : Prop :=
  jb_status j = JQueued ∧ or_else 0 (jb_nextAttemptAt j) ≤ now ∧ jb_status j' = JAssigned ∧
  jb_attempts j' = Some (or_else 0 (jb_attempts j) + 1) ∧
  ∃ k m, jb_machineId j' = Some k ∧ rows (machines s0) !! k = Some m ∧ mc_usedSlots m < mc_maxSlots m ∧
    now - mc_lastSeen m < WORKER_OFFLINE_AFTER_MS ∧ is_some (selectImageForMachine (jb_labels j) m) = true.

Record slot_machine_ok (now : Z) (s0 s1 : db) (sm : slot_machine) : Prop := {
  sk_doc : rows (machines s0) !! sm_id sm = Some (sm_doc sm);
  sk_row : rows (machines s1) !! sm_id sm = Some ((sm_doc sm) <| mc_usedSlots := sm_usedSlots sm |>);
  sk_online : now - mc_lastSeen (sm_doc sm) < WORKER_OFFLINE_AFTER_MS;
  sk_grows : mc_usedSlots (sm_doc sm) ≤ sm_usedSlots sm;
  sk_fits : sm_usedSlots sm = mc_usedSlots (sm_doc sm) ∨ sm_usedSlots sm ≤ mc_maxSlots (sm_doc sm);
}.

Record assigning (now : Z) (s0 : db) (acc : list slot_machine * Z) (s1 : db) : Prop := {
  ag_jobs : t_wf (jobs s1);
  ag_rows : ∀ sm, sm ∈ acc.1 → slot_machine_ok now s0 s1 sm;
  ag_other : ∀ id, id ∉ sm_id <$> acc.1 → rows (machines s1) !! id = rows (machines s0) !! id;
  ag_load : ∀ id m0 m1, rows (machines s0) !! id = Some m0 → rows (machines s1) !! id = Some m1 →
    mc_usedSlots m1 - mc_usedSlots m0 = slot_load id s1 - slot_load id s0;
  ag_assigned : ∀ i j', rows (jobs s1) !! i = Some j' → rows (jobs s0) !! i = Some j' ∨
    ∃ j, rows (jobs s0) !! i = Some j ∧ assigned_by now s0 j j';
}.

Lemma NoDup_ids_filter {D} (P : Id * D → Prop) `{∀ r, Decision (P r)} (l : list (Id * D)) :
  NoDup l.*1 → NoDup (filter P l).*1.
Proof.
  induction l as [|r l IH]; intros Hnd; [done|]. rewrite filter_cons. csimpl in Hnd.
  apply NoDup_cons in Hnd as [Hr Hnd]. case_decide; [|auto]. csimpl. apply NoDup_cons. split; [|auto].
  intros (q & Eq & [_ Hq]%list_elem_of_filter)%list_elem_of_fmap. apply Hr. rewrite Eq. by apply list_elem_of_fmap_2.
Qed.

Section assign.
Context (now : Z) (s0 : db).

Lemma charge_ids id (ms : list slot_machine) : sm_id <$> (charge_slot id <$> ms) = sm_id <$> ms.
Proof. rewrite <- list_fmap_compose. apply list_fmap_ext. intros i x _. simpl. unfold charge_slot. by case_match. Qed.

Lemma assign_job_step acc i j s1 acc' s2 :
  assigning now s0 acc s1 → rows (jobs s0) !! i = Some j → rows (jobs s1) !! i = Some j →
  jb_status j = JQueued → or_else 0 (jb_nextAttemptAt j) ≤ now →
  assign_job now acc (i, j) s1 = Done (acc', s2) →
  assigning now s0 acc' s2 ∧ ∀ k, k ≠ i → rows (jobs s2) !! k = rows (jobs s1) !! k.
Proof.
  intros Hag Hi0 Hi Hq Hdue H. destruct acc as [ms n]. unfold assign_job in H. simpl in H.
  destruct (pick_machine j None ms) as [[m e]|] eqn:Hp; [|by injection H as <- <-].
  apply pick_machine_spec in Hp as [?|(Hin & Hcap & Himg)]; [done|].
  destruct Hag as [Wj Hrows Hother Hload Hjobs]. simpl in *. destruct (Hrows m Hin) as [Hdoc Hrow Hon Hge Hfit].
  tx_bind_in H u1 t1 H1. apply db_patch_done in H1 as (d & Hd & ->). rewrite Hrow in Hd. injection Hd as <-.
  tx_bind_in H u2 t2 H2. apply db_patch_done in H2 as (j1 & Hj1 & ->). simpl in Hj1. rewrite Hi in Hj1. injection Hj1 as <-.
  tx_bind_in H cid t3 H3. injection H3 as _ <-. tx_bind_in H u4 t4 H4. injection H4 as _ <-. injection H as <- <-.
  set (j' := j <| jb_status := JAssigned |> <| jb_machineId := Some (sm_id m) |>
    <| jb_runnerName := Some (runner_name (sm_doc m) j (or_else 0 (jb_attempts j) + 1)) |>
    <| jb_attempts := Some (or_else 0 (jb_attempts j) + 1) |> <| jb_nextAttemptAt := None |>).
  assert (∀ id, t_sum (job_load id) (t_set i j' (jobs s1)) = t_sum (job_load id) (jobs s1) + b2z (sm_id m === id)) as Hsum.
  { intros id. pose proof (t_sum_set (job_load id) (jobs s1) i j j' Wj Hi) as Hs. unfold job_load in Hs at 2 4.
    rewrite Hq in Hs. simpl in Hs.
    assert (bool_decide (Some (sm_id m) = Some id) = (sm_id m === id)) as Eb by (apply bool_decide_ext; split; congruence).
    rewrite Eb in Hs. lia. }
  split.
  2:{ intros k Hk. simpl. by rewrite lookup_insert_ne. }
  split; simpl.
  - by eapply t_wf_set.
  - intros sm (x & -> & Hx)%list_elem_of_fmap. destruct (Hrows x Hx) as [Hdx Hrx Hox Hgx Hfx].
    unfold charge_slot. destruct (decide (sm_id x = sm_id m)) as [Eid|Hne].
    + rewrite bool_decide_true by done. rewrite Eid in Hdx. rewrite Hdoc in Hdx. injection Hdx as Edoc.
      rewrite Eid, Hrow, Edoc in Hrx. injection Hrx as Eu.
      split; simpl; [congruence| |done|lia|right; rewrite <- Edoc; lia].
      by rewrite Eid, lookup_insert_eq, Edoc, Eu.
    + rewrite bool_decide_false by done. split; simpl; [done| |done..]. by rewrite lookup_insert_ne.
  - intros id. rewrite charge_ids. intros Hid. rewrite lookup_insert_ne; [by apply Hother|].
    intros <-. apply Hid. by apply list_elem_of_fmap_2.
  - intros id m0 m1 Hm0. rewrite lookup_insert_Some. unfold slot_load, db_load, legacy_load in *. simpl.
    rewrite Hsum. intros [[<- <-]|[Hne Hm1]].
    + specialize (Hload _ _ _ Hm0 Hrow). rewrite bool_decide_true by done. simpl in *. lia.
    + specialize (Hload _ _ _ Hm0 Hm1). rewrite bool_decide_false by done. simpl. lia.
  - intros k jk. rewrite lookup_insert_Some. intros [[<- <-]|[_ Hk]]; [right|by apply Hjobs].
    exists j. split; [done|]. split_and!; try done. exists (sm_id m), (sm_doc m).
    split_and!; try done; [lia|]. by rewrite Himg.
Qed.

(** A run of the legacy scheduler respects every machine's slots.  A machine's counter grows by
    exactly the jobs the run put on it, and past its slots only if it was there before; machines
    change in nothing else; a job changes only if it was queued and due, and is then assigned once,
    to a reporting machine with a free slot that runs its image. *)
Theorem legacyTryAssign_capacity n s' :
  base s0 → legacyTryAssign now s0 = Done (n, s') →
  (∀ id m, rows (machines s0) !! id = Some m →
    ∃ used, rows (machines s') !! id = Some (m <| mc_usedSlots := used |>) ∧ mc_usedSlots m ≤ used ∧
      (used = mc_usedSlots m ∨ used ≤ mc_maxSlots m) ∧
      used - mc_usedSlots m = slot_load id s' - slot_load id s0) ∧
  ∀ i j', rows (jobs s') !! i = Some j' →
    rows (jobs s0) !! i = Some j' ∨ ∃ j, rows (jobs s0) !! i = Some j ∧ assigned_by now s0 j j'.
Proof.
  intros Hb H. unfold legacyTryAssign in H. tx_bind_in H qs s1 H1. injection H1 as <- <-.
  tx_bind_in H docs s1 H1. injection H1 as <- <-. cbv zeta in H. tx_bind_in H acc s1 H1. injection H as _ <-.
  assert (assigning now s0 acc s1) as Hag.
  { eapply (fold_rows jobs (assigning now s0)); [| | | |exact H1].
    - rewrite to_sorted_perm. eapply NoDup_ids_filter. apply NoDup_t_where_ids.
    - intros acc1 [i j] t1 acc2 t2 Hin Hag Hrow Hstep. simpl in Hrow.
      apply elem_of_to_sorted, list_elem_of_filter in Hin as [Hdue%Z.leb_le [Hi0 Hq]%t_where_sound].
      simpl in *. apply bool_decide_eq_true in Hq. by eapply assign_job_step.
    - split; [apply Hb| |done|intros; simplify_eq; lia|auto].
      intros sm (r & -> & Hr)%list_elem_of_fmap. apply elem_of_to_sorted, t_where_sound in Hr as [Hr Ho%Z.ltb_lt].
      split; simpl; [done| |lia|lia|by left]. rewrite Hr. by destruct r.2.
    - intros r Hr. apply elem_of_to_sorted, list_elem_of_filter in Hr as [_ [? _]%t_where_sound]. done. }
  destruct Hag as [_ Hrows Hother Hload Hjobs]. split; [|done]. intros id m Hm.
  destruct (decide (id ∈ sm_id <$> acc.1)) as [(sm & -> & Hin)%list_elem_of_fmap|Hout].
  - destruct (Hrows sm Hin) as [Hdoc Hrow _ Hge Hfit]. rewrite Hm in Hdoc. injection Hdoc as ->.
    exists (sm_usedSlots sm). split_and!; try done. by specialize (Hload _ _ _ Hm Hrow).
  - exists (mc_usedSlots m). rewrite (Hother id Hout), Hm.
    assert (rows (machines s1) !! id = Some m) as Hm1 by (by rewrite (Hother id Hout)).
    specialize (Hload id m m Hm Hm1). split_and!; [by destruct m|lia|by left|lia].
Qed.
End assign.

(** ** A failed provisioning *)

Lemma summarizeError_length e : (1 ≤ String.length (summarizeError e) ≤ MAX_ERROR_LENGTH)%nat.
Proof.
  unfold summarizeError. set (collapsed := trim _).
  set (message := if Nat.eqb (String.length collapsed) 0 then _ else _).
  assert (1 ≤ String.length message)%nat as Hpos.
  { unfold message. destruct (Nat.eqb_spec (String.length collapsed) 0); simpl; lia. }
  destruct (Nat.leb_spec (String.length message) MAX_ERROR_LENGTH) as [|Hlong]; [lia|].
  rewrite str_length_app. pose proof (length_slice0 (MAX_ERROR_LENGTH - 1) message) as Hs.
  unfold ellipsis. simpl String.length at 2 4. unfold MAX_ERROR_LENGTH in *. lia.
Qed.

(** A failed provisioning always settles its command and bounds the retries.  The command is
    gone, its Runner (if it was minted) is queued for deletion, the slot is given back, and the job
    is queued again, 15 seconds after its first attempt and a minute after its second, or has
    failed for good once it was tried three times; the stored error is not empty and at most 500
    characters long. *)
Theorem failAttempt_outcome s cid c j jobId error now :
  rows (commands s) !! cid = Some c → rows (jobs s) !! cm_jobId c = Some j → jb_status j = JAssigned →
  ∃ s' j', failAttempt (Some cid) jobId error now s = Done (tt, s') ∧
    rows (commands s') !! cid = None ∧ rows (jobs s') !! cm_jobId c = Some j' ∧
    machines s' = release_slot (or_opt (jb_machineId j) (Some (cm_machineId c))) (machines s) ∧
    (is_some (cm_runnerId c) = true → ∃ d, rows (runnerDeletions s') !! next_id (runnerDeletions s) = Some d ∧
       Some (rd_runnerId d) = cm_runnerId c ∧ rd_repo d = jb_repo j) ∧
    jb_machineId j' = None ∧ jb_runnerName j' = None ∧ jb_attempts j' = jb_attempts j ∧
    (∃ e, jb_lastError j' = Some e ∧ (1 ≤ String.length e ≤ 500)%nat) ∧
    if 3 <=? or_else 1 (jb_attempts j)
    then jb_status j' = JFailed ∧ jb_finishedAt j' = Some now ∧ jb_nextAttemptAt j' = None
    else jb_status j' = JQueued ∧ ∃ delay, jb_nextAttemptAt j' = Some (now + delay) ∧
           delay = match or_else 1 (jb_attempts j) with 1 => 15000 | 2 => 60000 | _ => 0 end.
Proof.
  intros Hc Hj Hst. pose proof (summarizeError_length error) as Hlen.
  assert (∃ s1, discardCommand cid c (Some j) now s = Done (tt, s1) ∧ rows (commands s1) !! cid = None ∧
    machines s1 = machines s ∧ jobs s1 = jobs s ∧
    (is_some (cm_runnerId c) = true → ∃ d, rows (runnerDeletions s1) !! next_id (runnerDeletions s) = Some d ∧
       Some (rd_runnerId d) = cm_runnerId c ∧ rd_repo d = jb_repo j)) as (s1 & Hd & Hgone & Em & Ej & Hdel).
  { unfold discardCommand, enqueueRunnerDeletion, mbind, tx_bind. destruct (cm_runnerId c) as [rid|] eqn:Hr; simpl.
    - unfold db_delete. simpl. rewrite Hc. eexists. split; [done|]. simpl.
      split_and!; [apply lookup_delete_eq|done..|]. intros _. eexists. split; [apply lookup_insert_eq|done].
    - unfold db_delete. rewrite Hc. eexists. split; [done|]. simpl. split_and!; [apply lookup_delete_eq|done..]. }
  unfold failAttempt, mbind, tx_bind. simpl. rewrite Hc, Hj, Hd, Hst. cbn [negb bool_decide decide].
  rewrite bool_decide_true by done. cbn [negb]. rewrite releaseMachineSlot_run.
  unfold decideAttemptOutcome, MAX_PROVISION_ATTEMPTS.
  destruct (Z.leb_spec 3 (or_else 1 (jb_attempts j))) as [Hge|Hlt].
  - unfold db_patch. simpl. rewrite Ej, Hj. eexists _, _. split; [done|]. simpl. rewrite Em.
    split; [done|]. split; [apply lookup_insert_eq|]. split_and!; try done. by eexists.
  - unfold db_patch. simpl. rewrite Ej, Hj. eexists _, _. split; [done|]. simpl. rewrite Em.
    split; [done|]. split; [apply lookup_insert_eq|]. split_and!; try done; [by eexists|].
    eexists. split; [done|].
    unfold backoffMs. destruct (Z.leb_spec (or_else 1 (jb_attempts j)) 0) as [Hle|Hpos].
    + by destruct (or_else 1 (jb_attempts j)).
    + assert (or_else 1 (jb_attempts j) = 1 ∨ or_else 1 (jb_attempts j) = 2) as [-> | ->] by lia; done.
Qed.

(** A late failure takes down the next assignment.  When the failing command was discarded
    meanwhile, the failure is charged to whatever assignment the job has by then: the job is queued
    again and its slot is freed, but the command of that assignment stays as it is, for its Agent to
    claim and run. *)
Theorem late_failure_takes_next_assignment s cid jobId j error now :
  rows (commands s) !! cid = None → rows (jobs s) !! jobId = Some j → jb_status j = JAssigned →
  or_else 1 (jb_attempts j) < 3 →
  ∃ s' j', failAttempt (Some cid) jobId error now s = Done (tt, s') ∧ commands s' = commands s ∧
    rows (jobs s') !! jobId = Some j' ∧ jb_status j' = JQueued ∧ jb_machineId j' = None ∧
    machines s' = release_slot (jb_machineId j) (machines s).
Proof.
  intros Hc Hj Hst Hlt. unfold failAttempt, mbind, tx_bind. simpl. rewrite Hc, Hj, Hst. simpl.
  rewrite releaseMachineSlot_run.
  unfold decideAttemptOutcome, MAX_PROVISION_ATTEMPTS.
  destruct (Z.leb_spec 3 (or_else 1 (jb_attempts j))) as [Hge|_]; [lia|].
  unfold db_patch. simpl. rewrite Hj. eexists _, _. split; [done|]. split; [done|].
  split; [apply lookup_insert_eq|]. split_and!; try done. by destruct (jb_machineId j).
Qed.

(** ** A concrete queue *)

Definition queued_event : workflow_job :=
  WorkflowJob ActQueued 900 (Some 5) "acme/api" false "ci" ["self-hosted"; "rc-linux"] None None.

(** A Worker with three slots, and a job that was assigned to it. *)
Definition queue_start : list (op * Z) :=
  [(OpIssueRegistrationToken ["a"], 10); (OpRegisterAgent demo_registration ["token-1"], 20);
   (OpWorkerHeartbeat "token-1", 40); (OpWorkflowJob queued_event, 50)].
Definition queue_assigned : list (op * Z) := queue_start ++ [(OpLegacyTryAssign, 60)].

Lemma queue_start_valid : demo_valid queue_start.
Proof. repeat constructor; simpl; repeat split; try lia; by intros ? [= <-]. Qed.

Definition the_job (s : db) (i : Id) : option (job_status * option Id) :=
  (λ j, (jb_status j, jb_machineId j)) <$> rows (jobs s) !! i.
Definition the_command (s : db) (i : Id) : option (command_status * Id * Id) :=
  (λ c, (cm_status c, cm_jobId c, cm_machineId c)) <$> rows (commands s) !! i.

Lemma queue_assigned_reachable : reachable str_cmp (run_all queue_assigned).
Proof. apply run_all_reachable, Forall_app. split; [apply queue_start_valid|]. by repeat constructor. Qed.

Lemma legacyTryAssign_capacity_witness :
  ∃ n s', legacyTryAssign 60 (run_all queue_start) = Done (n, s') ∧ n = 1 ∧
    the_job s' 0 = Some (JAssigned, Some 0%nat) ∧
    ∃ m used, rows (machines (run_all queue_start)) !! 0%nat = Some m ∧
      rows (machines s') !! 0%nat = Some (m <| mc_usedSlots := used |>) ∧
      used - mc_usedSlots m = slot_load 0 s' - slot_load 0 (run_all queue_start).
Proof.
  destruct (legacyTryAssign 60 (run_all queue_start)) as [[n s']|] eqn:E; [|vm_compute in E; discriminate].
  exists n, s'. split; [reflexivity|].
  split; [vm_compute in E; injection E as <- <-; reflexivity|].
  split; [vm_compute in E; injection E as <- <-; vm_compute; reflexivity|].
  assert (base (run_all queue_start)) as Hb
    by (apply (reachable_base str_cmp), run_all_reachable, queue_start_valid).
  destruct (rows (machines (run_all queue_start)) !! 0%nat) as [m|] eqn:Em; [|vm_compute in Em; discriminate].
  destruct (legacyTryAssign_capacity 60 (run_all queue_start) n s' Hb E) as [H _].
  destruct (H 0%nat m Em) as (used & H1 & _ & _ & H2). exists m, used. split; [reflexivity|]. split; [exact H1|exact H2].
Defined.

(** The JIT config arrives and the Agent claims the command. *)
Definition queue_issued : db := run_all (queue_assigned ++ [(OpStoreJitConfig 0 "jit-9" (Some 71), 70)]).
Definition queue_claimed : db := commit (claimCommand "token-1" 0 80) queue_issued.

Lemma queue_issued_reachable : reachable str_cmp queue_issued.
Proof.
  apply run_all_reachable. unfold queue_assigned. rewrite <- app_assoc. apply Forall_app.
  split; [apply queue_start_valid|]. by repeat constructor.
Qed.

Lemma command_jit_delivered_once_witness :
  ∃ c, claimCommand "token-1" 0 80 queue_issued = Done (Some c, queue_claimed) ∧ cc_jitConfig c = "jit-9" ∧
    ∀ token' now' c' s3, claimCommand token' 0 now' queue_claimed ≠ Done (Some c', s3).
Proof.
  destruct (claimCommand "token-1" 0 80 queue_issued) as [[[c|] s1]|] eqn:E; try (vm_compute in E; discriminate).
  assert (s1 = queue_claimed) as -> by (unfold queue_claimed, commit; rewrite E; reflexivity).
  exists c. split; [reflexivity|]. split; [vm_compute in E; injection E as <-; reflexivity|].
  apply (command_jit_delivered_once str_cmp queue_issued "token-1" 0%nat 80 c queue_claimed queue_claimed
    queue_issued_reachable E). apply rtc_refl.
Defined.

Definition the_job_row (s : db) (i : Id) : job := or_else (new_job queued_event JDone None None None 0) (rows (jobs s) !! i).
Definition the_command_row (s : db) (i : Id) : command :=
  or_else (Command 0 0 None None "" None CFinished None None None 0) (rows (commands s) !! i).

Lemma failAttempt_outcome_witness :
  ∃ s' j', failAttempt (Some 0%nat) 0 "no docker" 100 queue_issued = Done (tt, s') ∧
    rows (commands s') !! 0%nat = None ∧ rows (jobs s') !! 0%nat = Some j' ∧ jb_status j' = JQueued ∧
    jb_nextAttemptAt j' = Some 15100.
Proof.
  destruct (failAttempt_outcome queue_issued 0%nat (the_command_row queue_issued 0) (the_job_row queue_issued 0)
    0%nat "no docker" 100) as (s' & j' & H1 & H2 & H3 & _ & _ & _ & _ & _ & _ & H4); [vm_compute; reflexivity..|].
  exists s', j'. split; [exact H1|]. split; [exact H2|]. split; [exact H3|].
  assert ((3 <=? or_else 1 (jb_attempts (the_job_row queue_issued 0))) = false) as E3 by (vm_compute; reflexivity).
  rewrite E3 in H4. destruct H4 as (H4 & delay & H5 & H6). split; [exact H4|]. rewrite H5, H6. vm_compute. reflexivity.
Defined.

(** The operator requeues the job while its JIT config is being issued, and it is assigned again;
    then the first issue fails. *)
Definition queue_reassigned : db :=
  run_all (queue_assigned ++ [(OpRequeueJob 0, 70); (OpLegacyTryAssign, 80)]).

Lemma late_failure_takes_next_assignment_witness :
  the_job queue_reassigned 0 = Some (JAssigned, Some 0%nat) ∧
  the_command queue_reassigned 1 = Some (CPending, 0%nat, 0%nat) ∧
  ∃ s', failAttempt (Some 0%nat) 0 "GitHub responded 502" 90 queue_reassigned = Done (tt, s') ∧
    the_job s' 0 = Some (JQueued, None) ∧ the_command s' 1 = Some (CPending, 0%nat, 0%nat) ∧
    (mc_usedSlots <$> rows (machines s') !! 0%nat) = Some 0.
Proof.
  split; [vm_compute; reflexivity|]. split; [vm_compute; reflexivity|].
  destruct (late_failure_takes_next_assignment queue_reassigned 0%nat 0%nat (the_job_row queue_reassigned 0)
    "GitHub responded 502" 90) as (s' & j' & H1 & H2 & H3 & H4 & H5 & H6); [vm_compute; reflexivity..|].
  exists s'. split; [exact H1|]. split; [unfold the_job; rewrite H3; simpl; rewrite H4, H5; reflexivity|].
  split; [unfold the_command; rewrite H2; vm_compute; reflexivity|]. rewrite H6. vm_compute. reflexivity.
Defined.
