(* ===== verification/RecoveryProperties.v ===== *)
(** Properties of the recovery of webhook deliveries (recovery.ts, webhooks.ts): which deliveries a
    run asks GitHub to send again, how often, and what happens to those it could not ask for. *)

From S2P Require Import Prelude JsLib Schema HostLabels Egress Isolation Benchmark Scheduler.
From S2P Require Import Fixtures Placement Retirement Lease ControllerApi WorkerApi Fleet.
From S2P Require Import LegacyJobs Webhooks.

(** ** Selection *)

Section selection.
Context (dateParse : string → option Z) (localeCompare : string → string → Z).

(** A listed attempt worth repeating, and the delivery it stands for. *)
Definition eligible (items : list delivery_item) (now through : Z) (i : delivery_item) (t : Z) : Prop :=
  i ∈ items ∧ isFailedDelivery i = true ∧ di_event i = "workflow_job" ∧ dateParse (di_delivered_at i) = Some t ∧
  through < t ∧ now - t ≤ MAX_RECOVERABLE_AGE_MS ∧
  ∀ k, k ∈ items → di_guid k = di_guid i → isFailedDelivery k = true.

Lemma elem_of_delivered items g :
  g ∈ delivered_guids items ↔ ∃ k, k ∈ items ∧ di_guid k = g ∧ isFailedDelivery k = false.
Proof.
  unfold delivered_guids. rewrite elem_of_set_of, list_elem_of_fmap. split.
  - intros (k & -> & [? ?]%list_elem_of_filter). eauto.
  - intros (k & ? & <- & ?). exists k. by rewrite list_elem_of_filter.
Qed.

Lemma recoverable_item_spec items now through i c :
  i ∈ items →
  recoverable_item dateParse (delivered_guids items) now through i = Some c ↔
  ∃ t, eligible items now through i t ∧ c = RecoveryCandidate (di_guid i) (di_id i) (di_event i) t (di_status_code i).
Proof.
  intros Hin. unfold recoverable_item, eligible.
  assert (bool_decide (di_guid i ∈ delivered_guids items) = false ↔
    ∀ k, k ∈ items → di_guid k = di_guid i → isFailedDelivery k = true) as Hd.
  { rewrite bool_decide_eq_false, elem_of_delivered. split.
    - intros Hn k Hk Hg. destruct (isFailedDelivery k) eqn:Ef; [done|]. destruct Hn. eauto.
    - intros Ha (k & Hk & Hg & Hf). by rewrite (Ha k Hk Hg) in Hf. }
  destruct (bool_decide (di_guid i ∈ delivered_guids items)) eqn:Eb; simpl.
  { split; [done|]. intros (t & (_ & _ & _ & _ & _ & _ & Ha) & _). apply Hd in Ha. done. }
  destruct (isFailedDelivery i) eqn:Ef; simpl; [|split; [done|intros (t & (_ & ? & _) & _); done]].
  destruct (String.eqb_spec (di_event i) "workflow_job") as [Ee|Hne]; simpl;
    [|split; [done|intros (t & (_ & _ & ? & _) & _); done]].
  destruct (dateParse (di_delivered_at i)) as [t|]; [|split; [done|intros (t & (_ & _ & _ & ? & _) & _); done]].
  destruct (Z.leb_spec t through) as [|Hlt]; [split; [done|intros (t' & (_ & _ & _ & [= <-] & ? & _) & _); lia]|].
  destruct (Z.ltb_spec MAX_RECOVERABLE_AGE_MS (now - t)) as [|Hage];
    [split; [done|intros (t' & (_ & _ & _ & [= <-] & _ & ? & _) & _); lia]|].
  split.
  - intros [= <-]. exists t. split; [|done]. split_and!; try done. by apply Hd.
  - by intros (t' & (_ & _ & _ & [= <-] & _) & ->).
Qed.

(** The [Map] holds the newest candidate of each GUID seen. *)
Record newest_of (seen l : list recovery_candidate) : Prop := {
  nw_nodup : NoDup (rc_guid <$> l);
  nw_sound : ∀ c, c ∈ l → c ∈ seen;
  nw_newest : ∀ c d, c ∈ l → d ∈ seen → rc_guid d = rc_guid c → rc_deliveredAt d ≤ rc_deliveredAt c;
  nw_complete : ∀ d, d ∈ seen → ∃ c, c ∈ l ∧ rc_guid c = rc_guid d;
}.

Lemma note_newest_guids c l :
  rc_guid <$> note_newest c l = if decide (rc_guid c ∈ rc_guid <$> l) then rc_guid <$> l else (rc_guid <$> l) ++ [rc_guid c].
Proof.
  induction l as [|p l IH]; [done|]. simpl. destruct (String.eqb_spec (rc_guid p) (rc_guid c)) as [E|Hne].
  - rewrite decide_True by (csimpl; rewrite E; left). csimpl. f_equal. destruct (_ <=? _); congruence.
  - csimpl. rewrite IH. repeat case_decide; try done; set_solver.
Qed.

Lemma elem_of_note_newest c l d :
  NoDup (rc_guid <$> l) → d ∈ note_newest c l →
  (d ∈ l ∧ (rc_guid d = rc_guid c → rc_deliveredAt c ≤ rc_deliveredAt d)) ∨
  (d = c ∧ ∀ p, p ∈ l → rc_guid p = rc_guid c → rc_deliveredAt p ≤ rc_deliveredAt c).
Proof.
  induction l as [|p l IH]; simpl; intros Hnd.
  - intros ->%list_elem_of_singleton. right. split; [done|]. intros p ?%elem_of_nil. done.
  - csimpl in Hnd. apply NoDup_cons in Hnd as [Hp Hnd].
    assert (∀ q, q ∈ l → rc_guid q ≠ rc_guid p) as Hdiff.
    { intros q Hq E. apply Hp. rewrite <- E. by apply list_elem_of_fmap_2. }
    destruct (String.eqb_spec (rc_guid p) (rc_guid c)) as [E|Hne].
    + destruct (Z.leb_spec (rc_deliveredAt c) (rc_deliveredAt p)) as [Hle|Hgt].
      * intros [->|Hd]%elem_of_cons; left; [split; [left|done]|]. split; [by right|]. intros Eq.
        destruct (Hdiff d Hd). congruence.
      * intros [->|Hd]%elem_of_cons.
        -- right. split; [done|]. intros q [->|Hq]%elem_of_cons Eq; [lia|]. destruct (Hdiff q Hq). congruence.
        -- left. split; [by right|]. intros Eq. destruct (Hdiff d Hd). congruence.
    + intros [->|Hd]%elem_of_cons; [left; split; [left|congruence]|].
      destruct (IH Hnd Hd) as [[Hin ?]|[-> Hall]]; [left; split; [by right|done]|right; split; [done|]].
      intros q [->|Hq]%elem_of_cons; [congruence|auto].
Qed.

Lemma note_newest_ok c seen l : newest_of seen l → newest_of (seen ++ [c]) (note_newest c l).
Proof.
  intros [Hnd Hs Hn Hc].
  assert (∀ g, g ∈ rc_guid <$> note_newest c l ↔ g ∈ rc_guid <$> l ∨ g = rc_guid c) as Hg.
  { intros g. rewrite note_newest_guids. case_decide; set_solver. }
  split.
  - rewrite note_newest_guids. case_decide; [done|]. apply NoDup_app. split_and!; [done|set_solver|apply NoDup_singleton].
  - intros d Hd. rewrite elem_of_app, list_elem_of_singleton.
    destruct (elem_of_note_newest c l d Hnd Hd) as [[? _]|[-> _]]; auto.
  - intros d e Hd. rewrite elem_of_app, list_elem_of_singleton.
    destruct (elem_of_note_newest c l d Hnd Hd) as [[Hdl Hle]|[-> Hall]]; intros [He| ->] E.
    + by apply Hn.
    + auto.
    + destruct (Hc e He) as (p & Hp & Ep). etrans; [by apply (Hn p e Hp He)|]. apply Hall; [done|congruence].
    + lia.
  - intros e. rewrite elem_of_app, list_elem_of_singleton. intros He.
    assert (rc_guid e ∈ rc_guid <$> note_newest c l) as (d & Ed & Hd)%list_elem_of_fmap; [|eauto].
    apply Hg. destruct He as [He| ->]; [left|by right]. destruct (Hc e He) as (p & Hp & <-).
    by apply list_elem_of_fmap_2.
Qed.

Lemma newest_candidates_ok items now through :
  newest_of (omap (recoverable_item dateParse (delivered_guids items) now through) items)
    (newest_candidates dateParse (delivered_guids items) items now through).
Proof.
  unfold newest_candidates. generalize (delivered_guids items) as dl. intros dl.
  cut (∀ l seen acc, newest_of seen acc →
    newest_of (seen ++ omap (recoverable_item dateParse dl now through) l)
      (foldl (λ l i, match recoverable_item dateParse dl now through i with
                     | Some c => note_newest c l | None => l end) acc l)).
  { intros Hcut. apply (Hcut items [] []). split; [by apply NoDup_nil_2|..]; set_solver. }
  induction l as [|i l IH]; intros seen acc Hacc; csimpl; [by rewrite app_nil_r|].
  destruct (recoverable_item dateParse dl now through i) as [c|]; [|by apply IH].
  rewrite (cons_middle c seen), app_assoc. by apply IH, note_newest_ok.
Qed.

#[local] Instance older_first_consistent `{!Consistent localeCompare} : Consistent (older_first localeCompare).
Proof.
  split; unfold older_first.
  - intros a b _ _. destruct (@cmp_total _ localeCompare (λ _, True) _ (rc_guid a) (rc_guid b) I I);
      repeat case_match; lia.
  - intros a b c _ _ _.
    pose proof (@cmp_trans _ localeCompare (λ _, True) _ (rc_guid a) (rc_guid b) (rc_guid c) I I I).
    repeat case_match; lia.
Qed.

Lemma older_first_le a b : older_first localeCompare a b ≤ 0 → rc_deliveredAt a ≤ rc_deliveredAt b.
Proof. unfold older_first. case_match; lia. Qed.

Lemma sorted_take n l :
  StronglySorted (λ a b, older_first localeCompare a b ≤ 0) l →
  StronglySorted (λ a b, rc_deliveredAt a ≤ rc_deliveredAt b) (take n l).
Proof.
  intros Hs. revert n. induction Hs as [|x l Hs IH Hall]; intros [|n]; simpl; constructor; [apply IH|].
  apply Forall_take. eapply Forall_impl; [exact Hall|]. intros y. apply older_first_le.
Qed.

(** The recovery asks for what never arrived.  The deliveries a run selects are distinct, at
    most twenty, oldest first; each is the newest failed attempt of a workflow_job delivery inside
    the window that no listed attempt delivered; and unless the cap cut the selection, every such
    delivery is in it. *)
Theorem selectRecoverable_spec (HL : Consistent localeCompare) items now through :
  let selected := selectRecoverable dateParse localeCompare items now through in
  (length selected ≤ 20)%nat ∧ NoDup (rc_guid <$> selected) ∧
  StronglySorted (λ a b, rc_deliveredAt a ≤ rc_deliveredAt b) selected ∧
  (∀ c, c ∈ selected →
    (∃ i, eligible items now through i (rc_deliveredAt c) ∧ di_guid i = rc_guid c ∧ di_id i = rc_githubDeliveryId c) ∧
    ∀ i t, eligible items now through i t → di_guid i = rc_guid c → t ≤ rc_deliveredAt c) ∧
  ((length selected < 20)%nat → ∀ i t, eligible items now through i t → di_guid i ∈ rc_guid <$> selected).
Proof.
  intros selected. unfold selected, selectRecoverable.
  set (all := newest_candidates _ _ _ _ _). set (sorted := to_sorted _ all).
  pose proof (newest_candidates_ok items now through) as [Hnd Hs Hn Hc]. fold all in Hnd, Hs, Hn, Hc.
  assert (sorted ≡ₚ all) as Hperm by apply to_sorted_perm.
  assert (∀ i t, eligible items now through i t →
    RecoveryCandidate (di_guid i) (di_id i) (di_event i) t (di_status_code i) ∈
    omap (recoverable_item dateParse (delivered_guids items) now through) items) as Hseen.
  { intros i t He. apply list_elem_of_omap. exists i. split; [by apply He|]. apply recoverable_item_spec; [by apply He|]. eauto. }
  split_and!.
  - rewrite length_take. unfold MAX_REDELIVERIES_PER_RUN. lia.
  - rewrite fmap_take. eapply sublist_NoDup; [|apply sublist_take]. by rewrite Hperm.
  - apply sorted_take. apply (to_sorted_sorted _ (λ _, True)). by apply Forall_true.
  - intros c Hin. assert (c ∈ all) as Hall.
    { rewrite <- Hperm. rewrite <- (take_drop MAX_REDELIVERIES_PER_RUN sorted), elem_of_app. by left. }
    split.
    + apply Hs, list_elem_of_omap in Hall as (i & Hi & Hr). apply recoverable_item_spec in Hr as (t & He & ->); [|done].
      exists i. by split_and!.
    + intros i t He Eg. exact (Hn c _ Hall (Hseen i t He) Eg).
  - rewrite length_take. unfold MAX_REDELIVERIES_PER_RUN. intros Hlt i t He. rewrite take_ge by lia.
    destruct (Hc _ (Hseen i t He)) as (c & Hin & Eg). simpl in Eg. rewrite <- Eg.
    apply list_elem_of_fmap_2. by rewrite Hperm.
Qed.
End selection.

(** ** The right to ask *)

Definition recovery_ok (s : db) : Prop :=
  t_wf (webhookRecovery s) ∧
  ∀ i r, rows (webhookRecovery s) !! i = Some r → 1 ≤ wv_attempts r ≤ MAX_RECOVERY_ATTEMPTS.

(** The request for [g] was counted in [s']: a first one, or one more that was due. *)
Definition granted (now : Z) (s s' : db) (g : string) : Prop :=
  ∃ id r', rows (webhookRecovery s') !! id = Some r' ∧ wv_guid r' = g ∧ wv_state r' = VRequested ∧
    wv_lastRequestedAt r' = now ∧ now + 60000 ≤ wv_nextAttemptAt r' ∧
    (rows (webhookRecovery s) !! id = None ∧ wv_attempts r' = 1 ∨
     ∃ r, rows (webhookRecovery s) !! id = Some r ∧ wv_guid r = g ∧ wv_state r = VRequested ∧
       wv_nextAttemptAt r ≤ now ∧ wv_attempts r' = wv_attempts r + 1).

Lemma recovery_backoff_long n : 1 ≤ n → 60000 ≤ recoveryBackoffMs n.
Proof.
  intros Hn. unfold recoveryBackoffMs, backoff_of. destruct (Z.leb_spec n 0); [lia|].
  change (Z.of_nat (length RECOVERY_BACKOFF_MS)) with 3.
  assert (Z.min n 3 - 1 = 0 ∨ Z.min n 3 - 1 = 1 ∨ Z.min n 3 - 1 = 2) as [->|[->| ->]] by lia; vm_compute; congruence.
Qed.

(** One candidate: rows of other GUIDs stay, and the GUID is claimed only if its request counts. *)
Lemma claim_candidate_step now acc c s acc' s1 :
  recovery_ok s → claim_candidate now acc c s = Done (acc', s1) →
  recovery_ok s1 ∧
  (∀ id, is_Some (rows (webhookRecovery s) !! id) → is_Some (rows (webhookRecovery s1) !! id)) ∧
  (∀ id r, wv_guid r ≠ rc_guid c →
    rows (webhookRecovery s) !! id = Some r ↔ rows (webhookRecovery s1) !! id = Some r) ∧
  (acc' = acc ∨ acc' = acc ++ [(rc_guid c, rc_githubDeliveryId c)] ∧ granted now s s1 (rc_guid c)).
Proof.
  intros [Hwf Hatt] H. unfold claim_candidate in H. tx_bind_in H e t Hu.
  apply (unique_row webhookRecovery) in Hu as [-> He]; [|done].
  assert (∀ r id (r' : webhook_recovery), e = Some (id, r) → wv_guid r' = wv_guid r → ∀ k q, wv_guid q ≠ rc_guid c →
    rows (webhookRecovery s) !! k = Some q ↔ <[id := r']> (rows (webhookRecovery s)) !! k = Some q) as Hkeep.
  { intros r id r' -> Eg k q Hq. destruct He as [Hid Hg%bool_decide_eq_true]. rewrite lookup_insert_Some.
    split; [|intros [[-> <-]|[_ ?]]; [congruence|done]].
    intros Hk. right. split; [|done]. intros ->. congruence. }
  assert (∀ id (r' : webhook_recovery) k, is_Some (rows (webhookRecovery s) !! k) →
    is_Some (<[id := r']> (rows (webhookRecovery s)) !! k)) as Hdom.
  { intros id r' k Hk. destruct (decide (id = k)) as [->|]; [by rewrite lookup_insert_eq; eauto|by rewrite lookup_insert_ne]. }
  destruct e as [[id r]|]; simpl in H.
  - destruct He as [Hid Hg%bool_decide_eq_true]. specialize (Hatt id r Hid) as Ha.
    unfold decideRecovery in H. case_bool_decide as Hst; cbn [negb] in H.
    2:{ injection H as <- <-. split; [done|split; [done|split; [done|by left]]]. }
    destruct (Z.ltb_spec now (wv_nextAttemptAt r)) as [|Hdue]; 
      [injection H as <- <-; split; [done|split; [done|split; [done|by left]]]|].
    destruct (Z.ltb_spec MAX_RECOVERY_ATTEMPTS (wv_attempts r + 1)) as [|Hle].
    + tx_bind_in H u t Hp. injection H as <- <-. apply db_patch_done in Hp as (d & Hd & ->).
      rewrite Hid in Hd. injection Hd as <-. simpl. split; [|split; [|split]].
      * split; [by eapply t_wf_set|]. intros k q. simpl. rewrite lookup_insert_Some. intros [[<- <-]|[_ Hk]]; [done|eauto].
      * intros k. apply Hdom.
      * intros k q Hq. by eapply Hkeep.
      * by left.
    + tx_bind_in H u t Hp. injection H as <- <-. apply db_patch_done in Hp as (d & Hd & ->).
      rewrite Hid in Hd. injection Hd as <-. simpl. split; [|split; [|split]].
      * split; [by eapply t_wf_set|]. intros k q. simpl. rewrite lookup_insert_Some.
        intros [[<- <-]|[_ Hk]]; [simpl; lia|eauto].
      * intros k. apply Hdom.
      * intros k q Hq. by eapply Hkeep.
      * right. split; [done|]. eexists id, _. split; [apply lookup_insert_eq|]. simpl.
        pose proof (recovery_backoff_long (wv_attempts r + 1)). split_and!; try done; [lia|]. right. by exists r.
  - tx_bind_in H u t Hp. injection H as <- <-. tx_bind_in Hp k1 t1 Hp1. injection Hp1 as _ <-. injection Hp as _ <-.
    pose proof (t_wf_fresh _ Hwf) as Hfresh. simpl. split; [|split; [|split]].
    + split; [by apply t_wf_add|]. intros k q. simpl. rewrite lookup_insert_Some. intros [[<- <-]|[_ Hk]]; [done|eauto].
    + intros k. apply Hdom.
    + intros k q Hq. simpl. rewrite lookup_insert_Some. split; [|intros [[_ <-]|[_ ?]]; [by destruct Hq|done]].
      intros Hk. right. split; [|done]. intros <-. congruence.
    + right. split; [done|]. eexists _, _. split; [apply lookup_insert_eq|]. simpl.
      pose proof (recovery_backoff_long 1). split_and!; try done; try lia. by left.
Qed.

(** Requests are bounded and spaced.  Whatever failed deliveries a run wants to ask for, a GUID is
    claimed only for a first request, or for one more when the last one is due again; no GUID is
    ever counted more than three requests, each waits at least a minute for its delivery, and the
    rows of other GUIDs are untouched. *)
Theorem claimRecovery_bounded s now cs claimed s' :
  recovery_ok s → NoDup (rc_guid <$> cs) → claimRecovery now cs s = Done (claimed, s') →
  recovery_ok s' ∧ (∀ g n, (g, n) ∈ claimed → granted now s s' g) ∧
  ∀ id r, wv_guid r ∉ rc_guid <$> cs →
    rows (webhookRecovery s) !! id = Some r ↔ rows (webhookRecovery s') !! id = Some r.
Proof.
  intros Hok Hnd H. unfold claimRecovery in H.
  cut (recovery_ok s' ∧ (∀ id, is_Some (rows (webhookRecovery s) !! id) → is_Some (rows (webhookRecovery s') !! id)) ∧
    (∀ g n, (g, n) ∈ claimed → (g, n) ∈ @nil (string * Z) ∨ g ∈ rc_guid <$> cs ∧ granted now s s' g) ∧
    ∀ id r, wv_guid r ∉ rc_guid <$> cs →
      rows (webhookRecovery s) !! id = Some r ↔ rows (webhookRecovery s') !! id = Some r).
  { intros (? & _ & Hcl & ?). split_and!; try done. intros g n [?%elem_of_nil|[_ ?]]%Hcl; done. }
  revert H. generalize (@nil (string * Z)) as acc. revert s Hok.
  induction cs as [|c cs IH]; intros s Hok acc H; simpl in H; [injection H as <- <-; by split_and!; auto|].
  csimpl in Hnd. apply NoDup_cons in Hnd as [Hc Hnd]. tx_bind_in H acc1 s1 H1.
  apply claim_candidate_step in H1 as (Hok1 & Hdom1 & Hk1 & Hacc1); [|done].
  destruct (IH Hnd s1 Hok1 acc1 H) as (Hok' & Hdom' & Hcl & Hk). split; [done|]. split; [auto|]. split.
  - intros g n Hin. destruct (Hcl g n Hin) as [Hg|[Hg (id & r' & Hr' & Eg & Hst & Hlast & Hnext & Hwas)]].
    + destruct Hacc1 as [->|[-> (id & r' & Hr' & Eg & Hst & Hlast & Hnext & Hwas)]]; [by left|].
      apply elem_of_app in Hg as [?|[= -> ->]%list_elem_of_singleton]; [by left|right].
      split; [csimpl; left|]. exists id, r'. split_and!; try done. apply Hk; [by rewrite Eg|done].
    + right. split; [csimpl; by right|]. exists id, r'. split_and!; try done.
      assert (g ≠ rc_guid c) as Hne by (intros ->; done).
      destruct Hwas as [[Hn ?]|(r & Hr & Egr & ? & ? & ?)]; [left|right].
      * split; [|done]. destruct (rows (webhookRecovery s) !! id) eqn:E; [|done].
        destruct (Hdom1 id) as [? Hx]; [by rewrite E; eauto|congruence].
      * exists r. split_and!; try done. apply Hk1; [congruence|done].
  - intros id r Hr. csimpl in Hr. rewrite (Hk1 id r) by set_solver. apply Hk. set_solver.
Qed.

(** ** A run *)

Section runs.
Context (dateParse : string → option Z) (localeCompare : string → string → Z).

Lemma selected_after items now through c :
  c ∈ selectRecoverable dateParse localeCompare items now through → through < rc_deliveredAt c.
Proof.
  unfold selectRecoverable. intros Hc.
  assert (c ∈ newest_candidates dateParse (delivered_guids items) items now through) as Hin.
  { apply (elem_of_to_sorted (older_first localeCompare)).
    rewrite <- (take_drop MAX_REDELIVERIES_PER_RUN), elem_of_app. by left. }
  apply (nw_sound _ _ (newest_candidates_ok dateParse localeCompare items now through)) in Hin.
  apply list_elem_of_omap in Hin as (i & Hi & (t & He & ->)%recoverable_item_spec); [|done]. by apply He.
Qed.

Lemma mutation_done {A} (m : tx db A) s a s' : mutation m s = (inl a, s') → m s = Done (a, s').
Proof. unfold mutation. destruct (m s) as [[? ?]|[]]; by intros [= <- <-]. Qed.

Lemma act_bind_done {A B} (m : act A) (f : A → act B) s b s' :
  act_bind m f s = (inl b, s') → ∃ a s1, m s = (inl a, s1) ∧ f a s1 = (inl b, s').
Proof. unfold act_bind. destruct (m s) as [[a|e] s1]; [eauto|done]. Qed.

(** The requests write only the rows of the recovery. *)
Definition same_runs (s s' : db) : Prop := webhookRecoveryState s' = webhookRecoveryState s.

Lemma settle_same_runs g ok e s : same_runs s (mutation (settleRecovery g ok e) s).2.
Proof.
  unfold mutation. destruct (settleRecovery g ok e s) as [[[] s']|[]] eqn:H; try done. simpl.
  unfold settleRecovery in H. tx_bind_in H row t H1. apply db_unique_done in H1 as [-> _].
  destruct row as [[id r]|]; [|by injection H as <-]. by apply db_patch_done in H as (d & _ & ->).
Qed.

Lemma redeliver_all_same_runs client n cs s : same_runs s (redeliver_all client n cs s).2.
Proof.
  revert n s. induction cs as [|c cs IH]; intros n s; simpl; [done|].
  assert (same_runs s (redeliver_one client n c s).2) as H1.
  { unfold redeliver_one, act_catch, act_bind. destruct (redeliver client c.2) as [e|]; simpl.
    - pose proof (settle_same_runs c.1 false (Some (describeRecoveryFailure e "requesting a redelivery")) s) as H1.
      by destruct (mutation _ s) as [[] s1].
    - pose proof (settle_same_runs c.1 true None s) as H1.
      destruct (mutation (settleRecovery c.1 true None) s) as [[u|e] s1]; simpl in *; [done|].
      pose proof (settle_same_runs c.1 false (Some (describeRecoveryFailure e "requesting a redelivery")) s1) as H2.
      destruct (mutation _ s1) as [[] s2]; simpl in *; unfold same_runs in *; congruence. }
  unfold act_bind. destruct (redeliver_one client n c s) as [[k|e] s1]; simpl in *; [|done].
  pose proof (IH k s1). unfold same_runs in *. congruence.
Qed.

Lemma fold_reads {A B} (body : B → A → tx db B) l :
  (∀ b x s b' s', body b x s = Done (b', s') → s' = s) →
  ∀ b s b' s', fold_tx body b l s = Done (b', s') → s' = s.
Proof.
  intros Hb. induction l as [|x l IH]; intros b s b' s' H; simpl in H; [by injection H as _ <-|].
  tx_bind_in H a s1 H1. apply Hb in H1 as ->. by eapply IH.
Qed.

Lemma missingGuids_reads gs s l s' : missingGuids gs s = Done (l, s') → s' = s.
Proof.
  apply fold_reads. intros b x t b' t' H. tx_bind_in H r t1 H1. apply db_unique_done in H1 as [-> _].
  by injection H as _ <-.
Qed.

Lemma claimRecovery_same_runs now cs s l s' : claimRecovery now cs s = Done (l, s') → same_runs s s'.
Proof.
  unfold claimRecovery. generalize (@nil (string * Z)). revert s.
  induction cs as [|c cs IH]; intros s acc H; simpl in H; [by injection H as _ <-|].
  tx_bind_in H a s1 H1. apply IH in H. unfold same_runs in *. rewrite H. clear H IH.
  unfold claim_candidate in H1. tx_bind_in H1 r s2 H2. apply db_unique_done in H2 as [-> _].
  destruct (decideRecovery _ _).
  - tx_bind_in H1 u s3 H3. injection H1 as _ <-. destruct r as [[id r]|].
    + by apply db_patch_done in H3 as (? & _ & ->).
    + tx_bind_in H3 k s4 H4. injection H4 as _ <-. by injection H3 as _ <-.
  - by injection H1 as _ <-.
  - tx_bind_in H1 u s3 H3. injection H1 as _ <-. destruct r as [[id r]|].
    + by apply db_patch_done in H3 as (? & _ & ->).
    + by injection H3 as _ <-.
Qed.

(** The parts of a scan that committed. *)
Lemma scan_done client through now s r s' items truncatedPages :
  list_pages dateParse client through MAX_PAGES None [] = inl (items, truncatedPages) →
  scan dateParse localeCompare client through now s = (inl r, s') →
  let cs := selectRecoverable dateParse localeCompare items now through in
  ∃ missing claimed s1 s2,
    missingGuids (rc_guid <$> cs) s = Done (missing, s) ∧
    claimRecovery now (filter (λ c, rc_guid c ∈ missing) cs) s = Done (claimed, s1) ∧
    redeliver_all client 0 claimed s1 = (inl (rr_requested r), s2) ∧
    finishRecoveryRun (FinishRun RunOk
      (if truncatedPages || Nat.eqb (length cs) MAX_REDELIVERIES_PER_RUN then None
       else newestDeliveryTime dateParse items)
      (Z.of_nat (length items)) (Z.of_nat (length (set_of missing))) (rr_requested r) None) now s2 = Done (tt, s').
Proof.
  intros Hl H. unfold scan in H. rewrite Hl in H. cbv zeta in H.
  apply act_bind_done in H as (missing & t0 & H0%mutation_done & H).
  pose proof (missingGuids_reads _ _ _ _ H0) as ->.
  apply act_bind_done in H as (claimed & s1 & H1%mutation_done & H).
  apply act_bind_done in H as (n & s2 & H2 & H).
  apply act_bind_done in H as ([] & s3 & H3%mutation_done & H). injection H as <- <-.
  exists missing, claimed, s1, s2. by split_and!.
Qed.

(** A refused redelivery is not asked for again.  A scan that was not cut short moves the
    watermark to ten minutes before the newest delivery it listed whatever GitHub answered to its
    requests, so that no later run selects a delivery at or before that time: neither those that
    GitHub refused to send again, nor those whose redelivery failed. *)
Theorem refused_redelivery_is_forgotten client through now s r s' items newest id st :
  list_pages dateParse client through MAX_PAGES None [] = inl (items, false) →
  (length (selectRecoverable dateParse localeCompare items now through) < 20)%nat →
  newestDeliveryTime dateParse items = Some newest → newest ≤ now →
  head (t_where (λ _, true) (webhookRecoveryState s)) = Some (id, st) →
  scan dateParse localeCompare client through now s = (inl r, s') →
  ∃ st', rows (webhookRecoveryState s') !! id = Some st' ∧
    ∀ items' now' c, now ≤ now' →
      c ∈ selectRecoverable dateParse localeCompare items' now' (clampWatermark (rn_scannedThrough st') now') →
      newest - 600000 < rc_deliveredAt c.
Proof.
  intros Hl Hlen Hnew Hnow Hst H.
  destruct (scan_done _ _ _ _ _ _ _ _ Hl H) as (missing & claimed & s1 & s2 & _ & Hclaim & Hre & Hfin).
  assert (Nat.eqb (length (selectRecoverable dateParse localeCompare items now through)) MAX_REDELIVERIES_PER_RUN = false)
    as Hcap by (apply Nat.eqb_neq; unfold MAX_REDELIVERIES_PER_RUN; lia).
  rewrite Hcap, Hnew in Hfin. simpl in Hfin.
  pose proof (claimRecovery_same_runs _ _ _ _ _ Hclaim) as E1.
  pose proof (redeliver_all_same_runs client 0 claimed s1) as E2. rewrite Hre in E2. unfold same_runs in E1, E2. simpl in E2.
  unfold finishRecoveryRun in Hfin. tx_bind_in Hfin o t Ho. injection Ho as <- <-.
  rewrite E2, E1, Hst in Hfin. cbn in Hfin. apply db_patch_done in Hfin as (d & Hd & ->).
  eexists. split; [apply lookup_insert_eq|]. simpl. intros items' now' c Hle Hc%selected_after.
  unfold advanceWatermark, clampWatermark, WATERMARK_OVERLAP_MS, RECOVERY_WINDOW_MS in Hc. lia.
Qed.

(** A row the recovery is done with. *)
Definition settled_guid (s : db) (g : string) : Prop :=
  ∃ id row, t_where (λ r, wv_guid r === g) (webhookRecovery s) = [(id, row)] ∧ wv_state row ≠ VRequested.

Lemma claim_nothing now cs s acc :
  (∀ c, c ∈ cs → settled_guid s (rc_guid c)) → fold_tx (claim_candidate now) acc cs s = Done (acc, s).
Proof.
  induction cs as [|c cs IH]; intros Hs; simpl; [done|].
  destruct (Hs c) as (id & row & Hw & Hst); [left|].
  unfold mbind, tx_bind at 1, claim_candidate, mbind, tx_bind, db_unique. rewrite Hw. simpl.
  rewrite bool_decide_false by done. simpl. apply IH. intros. apply Hs. by right.
Qed.

(** Settled deliveries starve newer ones.  When the selection is full of deliveries the recovery
    has already given up on (or recovered), a run requests nothing, changes no recovery row and
    keeps its watermark: the next run is offered the same selection, and a newer delivery that was
    lost is not asked for until the settled ones are too old to be selected. *)
Theorem settled_deliveries_starve_newer_ones client through now s r s' items truncatedPages id st :
  list_pages dateParse client through MAX_PAGES None [] = inl (items, truncatedPages) →
  let cs := selectRecoverable dateParse localeCompare items now through in
  length cs = 20%nat → (∀ c, c ∈ cs → settled_guid s (rc_guid c)) →
  head (t_where (λ _, true) (webhookRecoveryState s)) = Some (id, st) →
  scan dateParse localeCompare client through now s = (inl r, s') →
  rr_requested r = 0 ∧ webhookRecovery s' = webhookRecovery s ∧
  ∃ st', rows (webhookRecoveryState s') !! id = Some st' ∧
    rn_scannedThrough st' = clampWatermark (rn_scannedThrough st) now.
Proof.
  intros Hl cs Hlen Hall Hst H.
  destruct (scan_done _ _ _ _ _ _ _ _ Hl H) as (missing & claimed & s1 & s2 & _ & Hclaim & Hre & Hfin).
  fold cs in Hclaim, Hfin. rewrite Hlen, orb_true_r in Hfin.
  unfold claimRecovery in Hclaim. rewrite claim_nothing in Hclaim.
  2:{ intros c [_ Hc]%list_elem_of_filter. by apply Hall. }
  injection Hclaim as <- <-. simpl in Hre. injection Hre as Er <-. rewrite <- Er in *.
  unfold finishRecoveryRun in Hfin. tx_bind_in Hfin o t Ho. injection Ho as <- <-.
  rewrite Hst in Hfin. cbn in Hfin. apply db_patch_done in Hfin as (d & Hd & ->).
  split; [done|]. split; [done|]. eexists. split; [apply lookup_insert_eq|done].
Qed.
End runs.

(** ** Witnesses

    Dates are written in unary, one character per minute. *)

Definition minute (n : nat) : string := String.string_of_list_ascii (replicate n "."%char).
Definition minutes (s : string) : option Z := Some (60000 * Z.of_nat (String.length s)).

Definition lost_item (n : nat) (guid : string) : delivery_item :=
  DeliveryItem (Z.of_nat n) guid (minute n) 502 "workflow_job".
Definition arrived_item (n : nat) (guid : string) : delivery_item :=
  DeliveryItem (Z.of_nat n) guid (minute n) 200 "workflow_job".

Definition demo_items : list delivery_item :=
  [arrived_item 20 "fresh"; lost_item 3 "lost"; lost_item 2 "lost"; lost_item 1 "retried"; arrived_item 4 "retried"].

Lemma selectRecoverable_spec_witness :
  ∃ c, selectRecoverable minutes str_cmp demo_items 1200000 0 = [c] ∧ rc_guid c = "lost" ∧
    ∀ i t, eligible minutes demo_items 1200000 0 i t → di_guid i = rc_guid c → t ≤ rc_deliveredAt c.
Proof.
  destruct (selectRecoverable_spec minutes str_cmp str_cmp_consistent demo_items 1200000 0) as (_ & _ & _ & H & _).
  eexists. split; [vm_compute; reflexivity|]. split; [reflexivity|].
  apply H. vm_compute. left.
Defined.

(** One delivery was asked for once before, and is due; the other is new. *)
Definition asked_row : webhook_recovery :=
  WebhookRecovery "lost" 3 "workflow_job" 180000 502 1 1000 1000 61000 VRequested None.
Definition asked_db : db := db_empty <| webhookRecovery := t_of [asked_row] |>.
Definition two_candidates : list recovery_candidate :=
  [RecoveryCandidate "lost" 3 "workflow_job" 180000 502; RecoveryCandidate "new" 4 "workflow_job" 190000 502].

Lemma claimRecovery_bounded_witness :
  ∃ claimed s', claimRecovery 200000 two_candidates asked_db = Done (claimed, s') ∧
    claimed.*1 = ["lost"; "new"] ∧ granted 200000 asked_db s' "lost" ∧ granted 200000 asked_db s' "new".
Proof.
  destruct (claimRecovery 200000 two_candidates asked_db) as [[claimed s']|] eqn:E; [|vm_compute in E; discriminate].
  exists claimed, s'. split; [reflexivity|].
  assert (recovery_ok asked_db) as Hok.
  { split; [apply (t_of_inv [asked_row])|]. intros i r Hr.
    apply (t_of_Forall (λ r, 1 ≤ wv_attempts r ≤ MAX_RECOVERY_ATTEMPTS) [asked_row] i r); [|exact Hr].
    repeat constructor; vm_compute; discriminate. }
  assert (NoDup (rc_guid <$> two_candidates)) as Hnd by (apply (bool_decide_unpack _); vm_compute; reflexivity).
  destruct (claimRecovery_bounded asked_db 200000 two_candidates claimed s' Hok Hnd E) as (_ & H & _).
  assert (claimed = [("lost", 3); ("new", 4)]) as Ec by (vm_compute in E; injection E as <- _; reflexivity).
  rewrite Ec in *. split; [reflexivity|].
  split; [apply (H "lost" 3); left|apply (H "new" 4); right; left].
Defined.

(** A client that lists one page and refuses every request. *)
Definition refusing_client (items : list delivery_item) : recovery_client :=
  RecoveryClient (λ _, inl (items, None)) (λ _, Some (GhStatus 422)).
Definition running_db (rows : list webhook_recovery) : db :=
  db_empty <| webhookRecovery := t_of rows |>
    <| webhookRecoveryState := t_of [RecoveryRun 0 0 None 0 0 RunPending None 0 0 0] |>.

Lemma refused_redelivery_is_forgotten_witness :
  ∃ r s', scan minutes str_cmp (refusing_client demo_items) 0 1200000 (running_db []) = (inl r, s') ∧
    (wv_guid <$> (snd <$> t_scan (webhookRecovery s'))) = ["lost"] ∧ rr_requested r = 0 ∧
    ∃ st', rows (webhookRecoveryState s') !! 0%nat = Some st' ∧
      ∀ items' now' c, 1200000 ≤ now' →
        c ∈ selectRecoverable minutes str_cmp items' now' (clampWatermark (rn_scannedThrough st') now') →
        600000 < rc_deliveredAt c.
Proof.
  destruct (scan minutes str_cmp (refusing_client demo_items) 0 1200000 (running_db [])) as [[r|e] s'] eqn:E;
    [|vm_compute in E; discriminate].
  exists r, s'. split; [reflexivity|].
  split; [vm_compute in E; injection E as _ <-; vm_compute; reflexivity|].
  split; [vm_compute in E; injection E as <- _; reflexivity|].
  apply (refused_redelivery_is_forgotten minutes str_cmp (refusing_client demo_items) 0 1200000 (running_db []) r s'
    demo_items 1200000 0%nat (RecoveryRun 0 0 None 0 0 RunPending None 0 0 0)); try (vm_compute; reflexivity).
  - vm_compute. repeat constructor.
  - lia.
  - exact E.
Defined.

(** Twenty deliveries that were given up on, and a newer one that was lost. *)
Definition given_up_row (n : nat) : webhook_recovery :=
  WebhookRecovery ("g" +:+ show_Z (Z.of_nat n)) (Z.of_nat n) "workflow_job" (60000 * Z.of_nat n) 502 3 0 0 0 VAbandoned None.
Definition starving_items : list delivery_item :=
  lost_item 30 "newer" :: ((λ n, lost_item n ("g" +:+ show_Z (Z.of_nat n))) <$> seq 1 20).

Lemma settled_deliveries_starve_newer_ones_witness :
  ∃ r s', scan minutes str_cmp (refusing_client starving_items) 0 1800000 (running_db (given_up_row <$> seq 1 20)) =
      (inl r, s') ∧ rr_requested r = 0 ∧
    bool_decide ("newer" ∈ (rc_guid <$> selectRecoverable minutes str_cmp starving_items 1800000 0)) = false ∧
    ∃ st', rows (webhookRecoveryState s') !! 0%nat = Some st' ∧ rn_scannedThrough st' = 0.
Proof.
  set (s := running_db (given_up_row <$> seq 1 20)).
  destruct (scan minutes str_cmp (refusing_client starving_items) 0 1800000 s) as [[r|e] s'] eqn:E;
    [|vm_compute in E; discriminate].
  exists r, s'. split; [reflexivity|].
  destruct (settled_deliveries_starve_newer_ones minutes str_cmp (refusing_client starving_items) 0 1800000 s r s'
    starving_items false 0%nat (RecoveryRun 0 0 None 0 0 RunPending None 0 0 0)) as (H1 & _ & H2).
  - vm_compute. reflexivity.
  - vm_compute. reflexivity.
  - intros c Hc. assert (rc_guid c ∈ (λ n, "g" +:+ show_Z (Z.of_nat n)) <$> seq 1 20) as Hg.
    { assert (rc_guid <$> selectRecoverable minutes str_cmp starving_items 1800000 0 =
        (λ n, "g" +:+ show_Z (Z.of_nat n)) <$> seq 1 20) as Eg by (vm_compute; reflexivity).
      rewrite <- Eg. apply list_elem_of_fmap_2. exact Hc. }
    apply list_elem_of_fmap in Hg as (n & -> & Hn).
    assert (Forall (λ n, t_where (λ r, wv_guid r === ("g" +:+ show_Z (Z.of_nat n))) (webhookRecovery s) =
      [((n - 1)%nat, given_up_row n)]) (seq 1 20)) as Hall by (repeat constructor).
    rewrite Forall_forall in Hall. exists (n - 1)%nat, (given_up_row n). split; [apply Hall; exact Hn|discriminate].
  - vm_compute. reflexivity.
  - exact E.
  - split; [exact H1|]. split; [vm_compute; reflexivity|]. destruct H2 as (st' & H2 & H3). exists st'.
    split; [exact H2|]. rewrite H3. reflexivity.
Defined.
