(* ===== verification/Registration.v ===== *)
(** Registration of a machine (machines.ts): the search for a free name ends, and a registration
    token is good for one machine. *)

From S2P Require Import Prelude JsLib Schema HostLabels Egress Isolation Benchmark Scheduler.
From S2P Require Import Fixtures Placement Retirement Lease ControllerApi WorkerApi Fleet.
From S2P Require Import LegacyJobs Webhooks Reconcile Lifecycle Handlers System Properties.

(** ** The names the loop tries *)

Definition candidate_name (base : string) (k : nat) : string :=
  match k with O => base | S k => base +:+ "-" +:+ show_Z (Z.of_nat k + 2) end.

Lemma candidate_name_inj base j k : candidate_name base j = candidate_name base k → j = k.
Proof.
  assert (∀ x, base ≠ base +:+ "-" +:+ x) as Hne.
  { intros x E. apply (f_equal String.length) in E. rewrite !str_length_app in E. simpl in E. lia. }
  destruct j as [|j], k as [|k]; simpl; [done|intros E; by apply Hne in E|intros E; symmetry in E; by apply Hne in E|].
  intros E%(inj (String.append base))%(inj (String.append "-")). unfold show_Z in E. apply (inj pretty) in E. lia.
Qed.

Definition name_taken (s : db) (n : string) : Prop := n ∈ (mc_name ∘ snd) <$> t_scan (machines s).

Lemma db_first_name s n :
  db_first machines (λ m, mc_name m === n) s =
    Done (head (t_where (λ m, mc_name m === n) (machines s)), s).
Proof. done. Qed.

Lemma name_free s n :
  head (t_where (λ m, mc_name m === n) (machines s)) = None → ¬ name_taken s n.
Proof.
  intros Hh ([i m] & -> & Hin)%list_elem_of_fmap. unfold t_where in Hh.
  destruct (filter _ (t_scan (machines s))) as [|r l] eqn:E; [|done].
  assert ((i, m) ∈ filter (λ r : Id * machine, (mc_name r.2 === mc_name m) = true) (t_scan (machines s))) as Hf.
  { apply list_elem_of_filter. split; [by rewrite bool_decide_true|done]. }
  simpl in E. rewrite E in Hf. by apply elem_of_nil in Hf.
Qed.

Lemma name_not_free s n r :
  head (t_where (λ m, mc_name m === n) (machines s)) = Some r → name_taken s n.
Proof.
  intros Hh. assert (r ∈ t_where (λ m, mc_name m === n) (machines s)) as Hin.
  { destruct (t_where _ _); [done|]. injection Hh as ->. left. }
  unfold t_where in Hin. apply list_elem_of_filter in Hin as [Hn%bool_decide_eq_true Hin].
  apply list_elem_of_fmap. by exists r.
Qed.

(** With [k] names known to be taken and fuel for the others, the loop finds the first free one. *)
Lemma free_name_finds s base fuel k :
  (length (t_scan (machines s)) < k + S fuel)%nat → (∀ j, (j < k)%nat → name_taken s (candidate_name base j)) →
  ∃ n, free_name fuel base (candidate_name base k) (Z.of_nat k + 2) s = Done (candidate_name base n, s) ∧
    ¬ name_taken s (candidate_name base n) ∧ ∀ j, (j < n)%nat → name_taken s (candidate_name base j).
Proof.
  revert k. induction fuel as [|fuel IH]; intros k Hfuel Hk; simpl; unfold mbind, tx_bind; rewrite db_first_name;
    destruct (head _) as [r|] eqn:Hh.
  - exfalso. apply name_not_free in Hh.
    assert (Forall (name_taken s) (candidate_name base <$> seq 0 (S k))) as Hall.
    { apply Forall_fmap, Forall_forall. intros j Hj%elem_of_seq. simpl. destruct (decide (j = k)) as [->|]; [done|].
      apply Hk. lia. }
    assert (NoDup (candidate_name base <$> seq 0 (S k))) as Hnd.
    { apply NoDup_fmap_2_strong; [|apply NoDup_seq]. intros. by eapply candidate_name_inj. }
    assert ((candidate_name base <$> seq 0 (S k)) ⊆+ (mc_name ∘ snd <$> t_scan (machines s))) as Hsub.
    { apply NoDup_submseteq; [done|]. intros x Hx. by eapply Forall_forall in Hall. }
    apply submseteq_length in Hsub. rewrite !length_fmap, length_seq in Hsub. lia.
  - exists k. split; [done|]. split; [by apply name_free|done].
  - destruct (IH (S k)) as (n & Hn & ?); [lia| |].
    + intros j Hj. destruct (decide (j = k)) as [->|]; [by eapply name_not_free|]. apply Hk. lia.
    + exists n. split; [|done]. replace (Z.of_nat k + 2 + 1) with (Z.of_nat (S k) + 2) by lia. exact Hn.
  - exists k. split; [done|]. split; [by apply name_free|done].
Qed.

(** Registration ends and uses its token up.  With a token that is unused and not expired, valid
    labels and a fresh machine token, registration always completes: the loop over names ends with
    the first free one of the name asked for, its second, third and so on, the new machine starts
    with no slot in use, and the registration token is refused from then on. *)
Theorem registerAgent_completes s a token draws now rid r labels :
  t_wf (machines s) → t_wf (registrationTokens s) →
  t_where (λ r, rg_token r === rga_registrationToken a) (registrationTokens s) = [(rid, r)] →
  rg_usedAt r = None → now - rg_createdAt r < REGISTRATION_TOKEN_TTL_MS →
  normalizeHostLabels (or_else [] (rga_labels a)) = LabelsOk labels →
  (∀ i m, rows (machines s) !! i = Some m → mc_token m ≠ token) →
  ∃ n s', let name := candidate_name (sanitizeMachineName (rga_name a)) n in
    registerAgent a (token :: draws) now s = Done (Registered token, s') ∧
    (∀ i m, rows (machines s) !! i = Some m → mc_name m ≠ name) ∧
    (∀ j, (j < n)%nat → ∃ i m, rows (machines s) !! i = Some m ∧
       mc_name m = candidate_name (sanitizeMachineName (rga_name a)) j) ∧
    machines s' = t_add (new_machine a name labels token) (machines s) ∧
    mc_usedSlots (new_machine a name labels token) = 0 ∧
    ∀ a' draws' now', rga_registrationToken a' = rga_registrationToken a →
      registerAgent a' draws' now' s' = Done (NotRegistered 409 "Registration token has already been used", s').
Proof.
  intros Wm Wr Hreg Hunused Hfresh Hlab Htok.
  set (base := sanitizeMachineName (rga_name a)).
  destruct (free_name_finds s base (length (t_scan (machines s))) 0) as (n & Hn & Hfree & Hfirst); [lia|lia|].
  change (candidate_name base 0) with base in Hn. change (Z.of_nat 0 + 2) with 2 in Hn.
  assert (rows (registrationTokens s) !! rid = Some r ∧ rg_token r = rga_registrationToken a) as [Hrow Ht].
  { destruct (t_where_sound (registrationTokens s) (λ r, rg_token r === rga_registrationToken a) (rid, r)) as [? Hb];
      [rewrite Hreg; left|]. by apply bool_decide_eq_true in Hb. }
  assert (t_where (λ m, mc_token m === token) (machines s) = []) as Hnt.
  { apply t_where_nil. intros i m Hi. apply bool_decide_false. by eapply Htok. }
  set (name := candidate_name base n).
  set (s' := s <| registrationTokens ::= t_set rid (r <| rg_usedAt := Some now |>) |>
    <| machines ::= t_add (new_machine a name labels token) |>).
  assert (registerAgent a (token :: draws) now s = Done (Registered token, s')) as Hrun.
  { unfold registerAgent, mbind, tx_bind, db_unique. rewrite Hreg, Hunused. simpl.
    destruct (Z.leb_spec REGISTRATION_TOKEN_TTL_MS (now - rg_createdAt r)); [lia|]. rewrite Hlab.
    cbn [read]. fold base. unfold read. rewrite Hn. simpl. unfold mbind, tx_bind, db_unique. rewrite Hnt. simpl.
    unfold db_patch. rewrite Hrow. done. }
  exists n, s'. fold name. split_and!; try done.
  - intros i m Hi E. apply Hfree. apply list_elem_of_fmap. exists (i, m). split; [done|]. by apply elem_of_t_scan.
  - intros j Hj. apply Hfirst, list_elem_of_fmap in Hj as (q & Eq & Hq). exists q.1, q.2.
    split; [by apply t_scan_sound|done].
  - intros a' draws' now' Ea. unfold registerAgent, mbind, tx_bind, db_unique. rewrite Ea.
    rewrite (t_where_singleton _ (registrationTokens s') rid (r <| rg_usedAt := Some now |>)); [done|..].
    + by eapply t_wf_set.
    + apply lookup_insert_eq.
    + simpl. by rewrite bool_decide_true.
    + intros j q. simpl. rewrite lookup_insert_Some. intros [[<- _]|[Hne Hj]] Hq; [done|].
      assert ((j, q) ∈ t_where (λ r, rg_token r === rga_registrationToken a) (registrationTokens s)) as Hin
        by (by apply elem_of_t_where).
      rewrite Hreg in Hin. by apply list_elem_of_singleton in Hin as [= -> _].
Qed.

(** A second machine of the same name joins the demo fleet. *)
Definition joining : db := run_all (demo_run ++ [(OpIssueRegistrationToken ["b"], 130)]).
Definition joining_args : register_agent_args :=
  RegisterAgentArgs "rcreg_b" "worker one" Linux "x86_64" 8 (Some 32768) (Some ["GPU"]) (Some 3).

Lemma check_rows {D} (P : Id → D → bool) (t : table D) :
  forallb (λ p, P p.1 p.2) (map_to_list (rows t)) = true → ∀ i d, rows t !! i = Some d → P i d = true.
Proof. intros Hall i d Hi. rewrite forallb_forall in Hall. by apply (Hall (i, d)), list_elem_of_In, elem_of_map_to_list. Qed.

Lemma registerAgent_completes_witness :
  ∃ n s', registerAgent joining_args ["token-2"] 140 joining = Done (Registered "token-2", s') ∧
    (∀ i m, rows (machines joining) !! i = Some m →
      mc_name m ≠ candidate_name (sanitizeMachineName (rga_name joining_args)) n).
Proof.
  destruct (registerAgent_completes joining joining_args "token-2" [] 140 1%nat (RegistrationToken "rcreg_b" 130 None)
    ["gpu"]) as (n & s' & Hrun & Hname & _).
  - intros i d Hi. apply Nat.ltb_lt. revert i d Hi. apply (check_rows (λ i _, (i <? _)%nat)). vm_compute. reflexivity.
  - intros i d Hi. apply Nat.ltb_lt. revert i d Hi. apply (check_rows (λ i _, (i <? _)%nat)). vm_compute. reflexivity.
  - vm_compute. reflexivity.
  - done.
  - vm_compute. reflexivity.
  - vm_compute. reflexivity.
  - intros i m Hi. apply (check_rows (λ _ m, negb (mc_token m === "token-2")) (machines joining)) in Hi;
      [by apply negb_true_iff, bool_decide_eq_false in Hi|vm_compute; reflexivity].
  - exists n, s'. split; [exact Hrun|exact Hname].
Defined.
