(* ===== verification/AppPolicy.v ===== *)
(** The rules of the App platform (packages/backend/convex/infra/policy.ts): permission roles,
    host ports, deployment stages, Node liveness, App leases, and the formats of names. *)

From S2P Require Import Prelude JsLib Schema HostLabels.

(** ** Permissions *)

Inductive permission_role := Owner | Admin | Operator | Viewer.
Inductive permission :=
  | AppRead | AppDeploy | NodeRun | NodeAdmin | AuditRead | AccountAdmin | ChatRead | ChatWrite.
Inductive token_scope := ScopeRead | ScopeAdmin | ScopeMetrics.

#[export] Instance permission_role_eq_dec : EqDecision permission_role.
Proof. solve_decision. Defined.
#[export] Instance permission_eq_dec : EqDecision permission.
Proof. solve_decision. Defined.
#[export] Instance token_scope_eq_dec : EqDecision token_scope.
Proof. solve_decision. Defined.

Definition PERMISSION_ROLES : list permission_role := [Owner; Admin; Operator; Viewer].
Definition PERMISSIONS : list permission :=
  [AppRead; AppDeploy; NodeRun; NodeAdmin; AuditRead; AccountAdmin; ChatRead; ChatWrite].
Definition READ_ONLY : list permission := [AppRead; AuditRead].

Definition ROLE_PERMISSIONS (role : permission_role) : list permission :=
  match role with
  | Owner => PERMISSIONS
  | Admin => READ_ONLY ++ [AppDeploy; NodeRun; NodeAdmin; AccountAdmin; ChatRead; ChatWrite]
  | Operator => READ_ONLY ++ [AppDeploy]
  | Viewer => READ_ONLY
  end.

Definition SCOPE_PERMISSIONS (scope : token_scope) : list permission :=
  match scope with
  | ScopeRead => READ_ONLY
  | ScopeAdmin => READ_ONLY ++ [AppDeploy; NodeRun; NodeAdmin]
  | ScopeMetrics => []
  end.

Inductive principal :=
  | PUser (userId : Id) (role : permission_role)
  | PToken (tokenId : Id) (scope : token_scope)
  | PNode (nodeId : Id).

Definition can (p : principal) (perm : permission) : bool :=
  match p with
  | PUser _ role => bool_decide (perm ∈ ROLE_PERMISSIONS role)
  | PToken _ scope => bool_decide (perm ∈ SCOPE_PERMISSIONS scope)
  | PNode _ => false
  end.

Definition effectiveRole (role : option permission_role) : permission_role := or_else Owner role.

Definition RANK (role : permission_role) : Z :=
  match role with Viewer => 0 | Operator => 1 | Admin => 2 | Owner => 3 end.

Definition mayAssignRole (actor from to : permission_role) : bool :=
  (RANK from <=? RANK actor) && (RANK to <=? RANK actor).

Definition role_name (role : permission_role) : string :=
  match role with Owner => "owner" | Admin => "admin" | Operator => "operator" | Viewer => "viewer" end.

Definition role_of_name (name : string) : option permission_role :=
  head (filter (λ r, role_name r = name) PERMISSION_ROLES).

Definition roleFromHubRoles (roles : list string) : permission_role :=
  foldl (λ best name,
    match role_of_name name with
    | Some candidate => if RANK best <? RANK candidate then candidate else best
    | None => best
    end) Viewer roles.

Definition isDashboardAdmin (role : permission_role) : bool := RANK Admin <=? RANK role.

(** ** Ports *)

Definition PORT_RANGE_START : Z := 62000.
Definition PORT_RANGE_END : Z := 63999.

(** The loop of [firstFreePort]: [candidate] is the port after those seen so far. *)
Fixpoint next_free (candidate : Z) (used : list Z) : Z :=
  match used with
  | [] => candidate
  | port :: used =>
      if port <? candidate then next_free candidate used
      else if candidate <? port then candidate
      else next_free (candidate + 1) used
  end.

Definition firstFreePort (usedAscending : list Z) : option Z :=
  let candidate := next_free PORT_RANGE_START usedAscending in
  if candidate <=? PORT_RANGE_END then Some candidate else None.

(** [key.indexOf("/")] *)
Definition appOfPortKey (key : string) : option string :=
  match String.index 0 "/" key with
  | Some (S n) => Some (slice0 (S n) key)
  | _ => None
  end.

(** ** Git bindings and deployments *)

Definition MAX_GIT_BINDINGS : Z := 200.
Definition repoKey (repo : string) : string := to_lower (trim repo).
Definition DEPLOYMENTS_KEPT : Z := 1000.

Inductive deploy_stage :=
  | StQueued | StReadingSpec | StPlanning | StBuilding | StDeploying | StLinking | StDone | StFailed.
#[export] Instance deploy_stage_eq_dec : EqDecision deploy_stage.
Proof. solve_decision. Defined.

Definition DEPLOY_STAGES : list deploy_stage :=
  [StQueued; StReadingSpec; StPlanning; StBuilding; StDeploying; StLinking; StDone; StFailed].

Definition stage_name (st : deploy_stage) : string :=
  match st with
  | StQueued => "queued" | StReadingSpec => "reading-spec" | StPlanning => "planning"
  | StBuilding => "building" | StDeploying => "deploying" | StLinking => "linking"
  | StDone => "done" | StFailed => "failed"
  end.

Definition isTerminalStage (st : deploy_stage) : bool :=
  match st with StDone | StFailed => true | _ => false end.

(** ** Leases *)

Definition APP_LEASE_TTL_MS : Z := 60000.

Record app_lease_row := LeaseRow { lr_holder : option string; lr_epoch : Z; lr_expiresAt : Z }.

Inductive lease_decision :=
  | LeaseGrant (epoch : Z) (renewed : bool)
  | LeaseHeld (heldBy : string) (expiresAt : Z).

Definition decideLease (row : option app_lease_row) (holder : string) (now : Z) : lease_decision :=
  match row with
  | None => LeaseGrant 1 false
  | Some r =>
      match lr_holder r with
      | Some h =>
          if now <? lr_expiresAt r then
            if h === holder then LeaseGrant (lr_epoch r) true else LeaseHeld h (lr_expiresAt r)
          else LeaseGrant (lr_epoch r + 1) false
      | None => LeaseGrant (lr_epoch r + 1) false
      end
  end.

Definition leaseAdmits (row : option app_lease_row) (epoch now : Z) : bool :=
  match row with
  | None => false
  | Some r => is_some (lr_holder r) && (lr_epoch r =? epoch) && (now <? lr_expiresAt r)
  end.

(** ** Node liveness *)

Definition HEARTBEAT_INTERVAL_BOUND_MS : Z := 40000.
Definition MISSED_HEARTBEATS : Z := 3.
Definition NODE_SILENCE_MS : Z := HEARTBEAT_INTERVAL_BOUND_MS * MISSED_HEARTBEATS.
Definition FAILOVER_GRACE_MS : Z := 20000.

Definition isNodeLive (lastSeenAt : option Z) (now : Z) : bool :=
  match lastSeenAt with Some t => now - t <=? NODE_SILENCE_MS | None => false end.

Definition isNodeSilent (lastSeenAt : option Z) (now : Z) : bool :=
  match lastSeenAt with Some t => NODE_SILENCE_MS <? now - t | None => false end.

(** ** Names *)

Definition NODE_CREDENTIAL_PREFIX : string := "erainfra_node_".

Definition is_hex (c : ascii) : bool := is_digit c || (let n := ch c in (97 <=? n) && (n <=? 102)).
Definition is_alpha (c : ascii) : bool :=
  is_lower_alpha c || (let n := ch c in (65 <=? n) && (n <=? 90)).

(** [/^erainfra_node_[0-9a-f]{64}$/] *)
Definition isWellFormedNodeCredential (token : string) : bool :=
  starts_with NODE_CREDENTIAL_PREFIX token &&
  (let rest := slice_from (String.length NODE_CREDENTIAL_PREFIX) token in
   str_all is_hex rest && Nat.eqb (String.length rest) 64).

(** [byte.toString(16).padStart(2, "0")]; [bytes] are the 32 random bytes. *)
Definition hex_byte (b : nat) : string :=
  String (hex_digit (b / 16)) (String (hex_digit (b mod 16)) "").

Definition newNodeCredential (bytes : list nat) : string :=
  NODE_CREDENTIAL_PREFIX +:+ str_join "" (hex_byte <$> bytes).

Definition Z_BASE_32 : list ascii := String.list_ascii_of_string "ybndrfg8ejkmcpqxot1uwisza345h769".

(** [/^(?:[0-9a-f]{64}|[ybndrfg8ejkmcpqxot1uwisza345h769]{52})$/] *)
Definition isEndpointId (value : string) : bool :=
  (str_all is_hex value && Nat.eqb (String.length value) 64) ||
  (str_all (λ c, bool_decide (c ∈ Z_BASE_32)) value && Nat.eqb (String.length value) 52).

(** [/^[a-z0-9][a-z0-9._-]{0,62}$/i] *)
Definition isValidName (name : string) : bool :=
  match String.list_ascii_of_string name with
  | [] => false
  | c :: l =>
      (is_alpha c || is_digit c) &&
      forallb (λ c, is_alpha c || is_digit c || Ascii.eqb c "." || Ascii.eqb c "_" || Ascii.eqb c "-") l &&
      Nat.leb (length l) 62
  end.

(** [/^[A-Za-z_][A-Za-z0-9_]*$/] *)
Definition isValidSecretName (name : string) : bool :=
  match String.list_ascii_of_string name with
  | [] => false
  | c :: l => (is_alpha c || Ascii.eqb c "_") && forallb (λ c, is_alpha c || is_digit c || Ascii.eqb c "_") l
  end.
