(* ===== verification/InfraSchema.v ===== *)
(** The tables of the App platform (packages/backend/convex/infra/tables.ts and
    nodeCommandModel.ts), one record per table, and the store [infra].  The tables of the Hub import
    and of secrets are left out, with the functions that use them. *)

From S2P Require Import Prelude JsLib Schema AppPolicy.

(** The text of a document id, as in a template string.  Convex ids are opaque strings, one per
    document; here a document's id is a number and its text the numeral. *)
Definition id_text (i : Id) : string := pretty (Z.of_nat i).

(** ** Apps and deployments *)

Inductive lease_operation := OpDeploy | OpFailover.
Inductive placement_role := RoleGateway | RoleCompute | RoleDatabase | RoleRelay.
Inductive node_source := SourceEnrolled | SourceHubImport.
Inductive provenance :=
  | ByHub (hash : option string) (at_ : Z)
  | ByConvex (at_ : Z).

#[export] Instance lease_operation_eq_dec : EqDecision lease_operation.
Proof. solve_decision. Defined.
#[export] Instance placement_role_eq_dec : EqDecision placement_role.
Proof. solve_decision. Defined.
#[export] Instance node_source_eq_dec : EqDecision node_source.
Proof. solve_decision. Defined.
#[export] Instance provenance_eq_dec : EqDecision provenance.
Proof. solve_decision. Defined.

Record app_service := AppService {
  sv_name : string;
  sv_image : string;
  sv_args : list string;
  sv_port : option Z;
  sv_route : option string;
  sv_nodeId : option Id;
  sv_env : option (gmap string string);
}.

Record app_link := AppLink {
  lk_name : string;
  lk_need : string;
  lk_providerNodeId : Id;
  lk_providerPort : Z;
  lk_consumerNodeId : Id;
  lk_localPort : Z;
}.

Record spec_service := SpecService {
  ss_name : string;
  ss_build : option string;
  ss_image : option string;
  ss_port : option Z;
  ss_route : option string;
  ss_env : gmap string string;
  ss_volumes : list string;
  ss_node : option string;
  ss_needs : list string;
}.

Record app_spec := AppSpec { sp_app : string; sp_services : list spec_service }.

Inductive deploy_source :=
  | SrcUpload (storageId : string)
  | SrcGit (repo ref : string) (sha : option string).

Record planned_build := PlannedBuild { pb_service : string; pb_dir : string; pb_image : string }.

Record stored_plan := StoredPlan {
  pn_nodeId : Id;
  pn_services : list app_service;
  pn_links : list app_link;
  pn_builds : list planned_build;
  pn_deployNodeIds : list Id;
  pn_urls : list string;
}.

Inductive trigger_kind := TrigGit | TrigUpload | TrigManual | TrigHubImport | TrigFailover.
#[export] Instance trigger_kind_eq_dec : EqDecision trigger_kind.
Proof. solve_decision. Defined.

Record trigger := Trigger {
  tg_kind : trigger_kind;
  tg_sha : option string;
  tg_deliveryId : option string;
  tg_actor : option string;
}.

Record failover_move := FailoverMove { fm_lostNodeId : Id; fm_toNodeId : Id }.

Record app_deployment := AppDeployment {
  dp_app : string;
  dp_stage : deploy_stage;
  dp_detail : string;
  dp_urls : list string;
  dp_error : option string;
  dp_startedAt : Z;
  dp_finishedAt : option Z;
  dp_targetNodeIds : list Id;
  dp_leaseEpoch : option Z;
  dp_trigger : option trigger;
  dp_legacyId : option string;
  dp_operation : option lease_operation;
  dp_source : option deploy_source;
  dp_sourceDeleted : option bool;
  dp_buildNodeId : option Id;
  dp_defaultNodeId : option Id;
  dp_keepsPlacement : option bool;
  dp_port : option Z;
  dp_spec : option app_spec;
  dp_plan : option stored_plan;
  dp_stageStartedAt : option Z;
  dp_gitBindingId : option Id;
  dp_failover : option failover_move;
}.
#[export] Instance app_deployment_rebuild : Rebuild app_deployment := λ d,
  AppDeployment (dp_app d) (dp_stage d) (dp_detail d) (dp_urls d) (dp_error d) (dp_startedAt d)
    (dp_finishedAt d) (dp_targetNodeIds d) (dp_leaseEpoch d) (dp_trigger d) (dp_legacyId d)
    (dp_operation d) (dp_source d) (dp_sourceDeleted d) (dp_buildNodeId d) (dp_defaultNodeId d)
    (dp_keepsPlacement d) (dp_port d) (dp_spec d) (dp_plan d) (dp_stageStartedAt d)
    (dp_gitBindingId d) (dp_failover d).

Record app_row := AppRow {
  ap_name : string;
  ap_nodeId : Id;
  ap_services : list app_service;
  ap_links : list app_link;
  ap_spec : option app_spec;
  ap_provenance : option provenance;
  ap_updatedAt : Z;
}.

Record app_route := AppRoute {
  rt_name : string;
  rt_nodeId : Id;
  rt_image : string;
  rt_port : Z;
  rt_app : option string;
  rt_service : option string;
  rt_provenance : option provenance;
  rt_updatedAt : Z;
}.
#[export] Instance app_route_rebuild : Rebuild app_route := λ r,
  AppRoute (rt_name r) (rt_nodeId r) (rt_image r) (rt_port r) (rt_app r) (rt_service r)
    (rt_provenance r) (rt_updatedAt r).

Inductive link_creator := LinkByUser | LinkByDeploy.
#[export] Instance link_creator_eq_dec : EqDecision link_creator.
Proof. solve_decision. Defined.

Record mesh_link := MeshLink {
  ml_name : string;
  ml_providerNodeId : Id;
  ml_providerPort : Z;
  ml_consumerNodeId : Id;
  ml_localPort : Z;
  ml_createdBy : option link_creator;
  ml_provenance : option provenance;
  ml_updatedAt : Z;
}.

Record git_status := GitStatus {
  gs_at : Z;
  gs_sha : string;
  gs_ok : bool;
  gs_stage : string;
  gs_error : option string;
}.

Record git_binding := GitBinding {
  gb_repo : string;
  gb_repoKey : string;
  gb_branch : string;
  gb_app : string;
  gb_buildNodeId : option Id;
  gb_deployNodeId : option Id;
  gb_port : option Z;
  gb_lastStatus : option git_status;
  gb_createdAt : Z;
  gb_legacyId : option string;
  gb_provenance : option provenance;
  gb_updatedAt : option Z;
}.
#[export] Instance git_binding_rebuild : Rebuild git_binding := λ b,
  GitBinding (gb_repo b) (gb_repoKey b) (gb_branch b) (gb_app b) (gb_buildNodeId b)
    (gb_deployNodeId b) (gb_port b) (gb_lastStatus b) (gb_createdAt b) (gb_legacyId b)
    (gb_provenance b) (gb_updatedAt b).

(** ** Nodes *)

Record endpoint_addr := EndpointAddr { ea_relayUrl : option string; ea_directAddresses : list string }.
Record mesh_address := MeshAddress {
  ma_id : string; ma_relay_urls : list string; ma_direct_addrs : list string }.

Record node_doc := NodeDoc {
  nd_name : string;
  nd_createdAt : Z;
  nd_source : node_source;
  nd_endpointId : option string;
  nd_endpointAddr : option endpoint_addr;
  nd_endpointUpdatedAt : option Z;
  nd_meshAddress : option mesh_address;
  nd_endpointProvenAt : option Z;
  nd_lastSeenAt : option Z;
  nd_infraAgentVersion : option string;
  nd_commandsBlocked : option string;
  nd_commandsBlockedSince : option Z;
  nd_journalKeys : option Z;
  nd_journalKeyLimit : option Z;
  nd_failoverSuspectAt : option Z;
  nd_failoverHandledSeenAt : option Z;
  nd_placementRoles : option (list placement_role);
}.
#[export] Instance node_doc_rebuild : Rebuild node_doc := λ n,
  NodeDoc (nd_name n) (nd_createdAt n) (nd_source n) (nd_endpointId n) (nd_endpointAddr n)
    (nd_endpointUpdatedAt n) (nd_meshAddress n) (nd_endpointProvenAt n) (nd_lastSeenAt n)
    (nd_infraAgentVersion n) (nd_commandsBlocked n) (nd_commandsBlockedSince n) (nd_journalKeys n)
    (nd_journalKeyLimit n) (nd_failoverSuspectAt n) (nd_failoverHandledSeenAt n) (nd_placementRoles n).

Record node_credential := NodeCredential {
  nc_nodeId : Id;
  nc_tokenHash : string;
  nc_hint : string;
  nc_createdBy : option Id;
  nc_createdAt : Z;
  nc_lastUsedAt : option Z;
  nc_revokedAt : option Z;
}.
#[export] Instance node_credential_rebuild : Rebuild node_credential := λ c,
  NodeCredential (nc_nodeId c) (nc_tokenHash c) (nc_hint c) (nc_createdBy c) (nc_createdAt c)
    (nc_lastUsedAt c) (nc_revokedAt c).

Record endpoint_challenge := EndpointChallenge {
  ec_nodeId : Id;
  ec_credentialId : Id;
  ec_address : mesh_address;
  ec_message : string;
  ec_expiresAt : Z;
}.

Record port_allocation := PortAllocation {
  pa_nodeId : Id;
  pa_key : string;
  pa_port : Z;
  pa_app : option string;
  pa_allocatedAt : Z;
  pa_provenance : option provenance;
}.

Record app_lease := AppLease {
  al_app : string;
  al_holder : option string;
  al_operation : option lease_operation;
  al_epoch : Z;
  al_expiresAt : Z;
  al_acquiredAt : Z;
}.
#[export] Instance app_lease_rebuild : Rebuild app_lease := λ l,
  AppLease (al_app l) (al_holder l) (al_operation l) (al_epoch l) (al_expiresAt l) (al_acquiredAt l).

(** ** Commands of a Node (nodeCommandModel.ts) *)

Record node_operation := NodeOperation { no_name : string; no_args : gmap string string }.

Inductive node_command :=
  | CmdOperate (operation : node_operation)
  | CmdDeploy (deploymentId : Id) (operation : option lease_operation)
  | CmdSpec (deploymentId : Id)
  | CmdBuild (deploymentId : Id) (service : string)
  | CmdLogs (operation : node_operation).

Inductive command_outcome := OutSuccess | OutFailure | OutUnknown.
Inductive node_command_status := NPending | NRunning | NSettled (outcome : command_outcome) | NCancelled.

#[export] Instance node_operation_eq_dec : EqDecision node_operation.
Proof. solve_decision. Defined.
#[export] Instance node_command_eq_dec : EqDecision node_command.
Proof. solve_decision. Defined.
#[export] Instance command_outcome_eq_dec : EqDecision command_outcome.
Proof. solve_decision. Defined.
#[export] Instance node_command_status_eq_dec : EqDecision node_command_status.
Proof. solve_decision. Defined.

Record node_command_row := NodeCommandRow {
  nq_nodeId : Id;
  nq_idempotencyKey : string;
  nq_command : node_command;
  nq_app : option string;
  nq_appEpoch : option Z;
  nq_createdAt : Z;
  nq_status : node_command_status;
  nq_unsettled : bool;
  nq_epoch : Z;
  nq_owner : option string;
  nq_leaseUntil : option Z;
  nq_outcome : option command_outcome;
  nq_finishedAt : option Z;
  nq_deploymentId : option Id;
  nq_specText : option string;
}.
#[export] Instance node_command_row_rebuild : Rebuild node_command_row := λ c,
  NodeCommandRow (nq_nodeId c) (nq_idempotencyKey c) (nq_command c) (nq_app c) (nq_appEpoch c)
    (nq_createdAt c) (nq_status c) (nq_unsettled c) (nq_epoch c) (nq_owner c) (nq_leaseUntil c)
    (nq_outcome c) (nq_finishedAt c) (nq_deploymentId c) (nq_specText c).

(** ** Log tails, audit, counters *)

Inductive log_target :=
  | TargetContainer (app service container : string)
  | TargetUnit (unit_ : string).
Inductive log_state := LogPending | LogReady | LogFailed.
#[export] Instance log_state_eq_dec : EqDecision log_state.
Proof. solve_decision. Defined.

Record log_tail := LogTail {
  lt_requesterTokenId : Id;
  lt_nodeId : Id;
  lt_commandId : option Id;
  lt_target : log_target;
  lt_lines : Z;
  lt_state : log_state;
  lt_text : option string;
  lt_truncated : option bool;
  lt_createdAt : Z;
  lt_expiresAt : Z;
}.
#[export] Instance log_tail_rebuild : Rebuild log_tail := λ t,
  LogTail (lt_requesterTokenId t) (lt_nodeId t) (lt_commandId t) (lt_target t) (lt_lines t)
    (lt_state t) (lt_text t) (lt_truncated t) (lt_createdAt t) (lt_expiresAt t).

Inductive audit_outcome := AudAllow | AudDeny | AudSuccess | AudFailure | AudAttempt.

Record audit_event := AuditEvent {
  ae_seq : Z;
  ae_at : Z;
  ae_actor : string;
  ae_action : string;
  ae_target : option string;
  ae_outcome : audit_outcome;
  ae_dryRun : option bool;
  ae_metaJson : option string;
  ae_hubSeq : option Z;
}.

Inductive counter_name := CtrAuditSeq | CtrDeployments | CtrHubAuditImportedThrough.
#[export] Instance counter_name_eq_dec : EqDecision counter_name.
Proof. solve_decision. Defined.

Record infra_counter := InfraCounter { ic_name : counter_name; ic_value : Z }.
#[export] Instance infra_counter_rebuild : Rebuild infra_counter := λ c,
  InfraCounter (ic_name c) (ic_value c).

(** ** The store

    [storedFiles] are the ids of the files in Convex file storage, which hold the uploaded sources. *)

Inductive infra_call :=
  | CallTick (deploymentId : Id)
  | CallAfterSweep (deploymentId : Id)
  | CallKick (app : string)
  | CallExpireTail (tailId : Id) (at_ : Z).

Record infra := Infra {
  nodes : table node_doc;
  nodeCredentials : table node_credential;
  nodeEndpointChallenges : table endpoint_challenge;
  apps : table app_row;
  appRoutes : table app_route;
  meshLinks : table mesh_link;
  gitBindings : table git_binding;
  portAllocations : table port_allocation;
  appDeployments : table app_deployment;
  appLeases : table app_lease;
  nodeCommands : table node_command_row;
  logTails : table log_tail;
  auditEvents : table audit_event;
  infraCounters : table infra_counter;
  storedFiles : gset string;
  infraCalls : list infra_call;
}.
#[export] Instance infra_rebuild : Rebuild infra := λ s,
  Infra (nodes s) (nodeCredentials s) (nodeEndpointChallenges s) (apps s) (appRoutes s) (meshLinks s)
    (gitBindings s) (portAllocations s) (appDeployments s) (appLeases s) (nodeCommands s) (logTails s)
    (auditEvents s) (infraCounters s) (storedFiles s) (infraCalls s).

Definition infra_empty : infra :=
  Infra t_empty t_empty t_empty t_empty t_empty t_empty t_empty t_empty t_empty t_empty t_empty t_empty
    t_empty t_empty ∅ [].

(** [ctx.scheduler.runAfter(0, ...)] *)
Definition infra_call_after (c : infra_call) : tx infra unit :=
  modify (λ s, s <| infraCalls ::= λ q, q ++ [c] |>).
