(* ===== verification/InfraStore.v ===== *)
(** Shared state of the App platform: counters (counters.ts), the audit log (auditLog.ts), the
    provenance of rows (hubProvenance.ts), host ports (ports.ts) and App leases (leases.ts). *)

From S2P Require Import Prelude JsLib Schema AppPolicy InfraSchema.

(** ** counters.ts *)

Definition counterRow (name : counter_name) : tx infra (option (Id * infra_counter)) :=
  db_unique infraCounters (λ c, ic_name c === name).

Definition readCounter (name : counter_name) : tx infra Z :=
  row ← counterRow name; mret (match row with Some (_, c) => ic_value c | None => 0 end).

Definition writeCounter (name : counter_name) (value : Z) : tx infra unit :=
  row ← counterRow name;
  match row with
  | None => db_insert infraCounters (InfraCounter name value) ≫= λ _, mret tt
  | Some (id, c) =>
      if ic_value c =? value then mret tt
      else db_patch infraCounters id (λ d, d <| ic_value := value |>)
  end.

Definition bumpCounter (name : counter_name) (delta : Z) : tx infra Z :=
  current ← readCounter name;
  writeCounter name (current + delta) ≫= λ _, mret (current + delta).

(** ** auditLog.ts *)

Definition MAX_ACTION_LENGTH : nat := 128.
Definition MAX_TARGET_LENGTH : nat := 1024.

(** [AuditInput]; [meta] is the JSON text of the entry's free-form object. *)
Record audit_input := AuditInput {
  au_actor : string;
  au_action : string;
  au_target : option string;
  au_outcome : audit_outcome;
  au_dryRun : bool;
  au_meta : option string;
  au_at : option Z;
  au_hubSeq : option Z;
}.

(** An entry of a mutation: no dry run, no Hub fields. *)
Definition entry (actor action target : string) (outcome : audit_outcome) (meta : option string) : audit_input :=
  AuditInput actor action (Some target) outcome false meta None None.

(** The JSON text of an object whose values are already JSON text. *)
Definition json_object (fields : list (string * string)) : string :=
  "{" +:+ str_join "," ((λ f, json_string f.1 +:+ ":" +:+ f.2) <$> fields) +:+ "}".
Definition json_array (items : list string) : string := "[" +:+ str_join "," items +:+ "]".
Definition json_Z (z : Z) : string := pretty z.

Definition auditRefusal (action actor : string) : option string :=
  let n := String.length (trim action) in
  if Nat.eqb n 0 || Nat.ltb MAX_ACTION_LENGTH n then Some "An audit action must be 1 to 128 characters"
  else if Nat.eqb (String.length actor) 0 then Some "An audit row needs an actor"
  else None.

Definition appendAudit (e : audit_input) (now : Z) : tx infra Z :=
  match auditRefusal (au_action e) (au_actor e) with
  | Some refusal => throw refusal
  | None =>
      seq ← bumpCounter CtrAuditSeq 1;
      db_insert auditEvents (AuditEvent seq (or_else now (au_at e)) (au_actor e) (trim (au_action e))
        (slice0 MAX_TARGET_LENGTH <$> au_target e) (au_outcome e)
        (if au_dryRun e then Some true else None) (au_meta e) (au_hubSeq e)) ≫= λ _,
      mret seq
  end.

(** ** hubProvenance.ts *)

(** [HubOrigin]: the importer's mark. *)
Definition provenanceFor (at_ : Z) (hub : option (option string)) : provenance :=
  match hub with None => ByConvex at_ | Some hash => ByHub hash at_ end.

Definition convexWrite (at_ : Z) : provenance := ByConvex at_.

Definition writtenByConvex (p : option provenance) (updatedAt : option Z) : bool :=
  match p with
  | None => false
  | Some (ByConvex _) => true
  | Some (ByHub _ at_) => match updatedAt with Some t => negb (t =? at_) | None => false end
  end.

Definition hubHash (p : option provenance) : option string :=
  match p with Some (ByHub hash _) => hash | _ => None end.

Definition appOwnedByConvex (a : app_row) : bool :=
  is_some (ap_spec a) || writtenByConvex (ap_provenance a) (Some (ap_updatedAt a)).

(** ** ports.ts *)

Definition byNodeKey (nodeId : Id) (key : string) : tx infra (option (Id * port_allocation)) :=
  db_unique portAllocations (λ r, (pa_nodeId r === nodeId) && (pa_key r === key)).

(** [portRefusal] for a Node that exists; [claimPortRefusal] passes [None] for one that does not. *)
Definition portRefusal (nodeId : option Id) (port : Z) (nodeName : string) : tx infra (option string) :=
  if (port <? 1) || (65535 <? port) then mret (Some ("Not a port: " +:+ json_Z port))
  else match nodeId with
  | None => mret None
  | Some nodeId =>
      holder ← db_first portAllocations (λ r, (pa_nodeId r === nodeId) && (pa_port r =? port));
      mret (match holder with
            | None => None
            | Some (_, h) => Some ("Port " +:+ json_Z port +:+ " on " +:+ nodeName +:+
                " is already held by " +:+ pa_key h)
            end)
  end.

Definition insertAllocation (nodeId : Id) (key : string) (port allocatedAt : Z) (p : provenance) : tx infra unit :=
  refusal ← portRefusal (Some nodeId) port "this Node";
  match refusal with
  | Some r => throw r
  | None =>
      db_insert portAllocations (PortAllocation nodeId key port (appOfPortKey key) allocatedAt (Some p)) ≫= λ _,
      mret tt
  end.

(** The used ports of a Node in ascending order: the range of the index [by_node_port]. *)
Definition used_ports (nodeId : Id) (s : infra) : list Z :=
  to_sorted Z.sub (pa_port ∘ snd <$>
    t_where (λ r, (pa_nodeId r === nodeId) && (PORT_RANGE_START <=? pa_port r) && (pa_port r <=? PORT_RANGE_END))
      (portAllocations s)).

Definition allocatePort (nodeId : Id) (key : string) (now : Z) : tx infra Z :=
  if Nat.eqb (String.length key) 0 then throw "A port key must not be empty"
  else
    existing ← byNodeKey nodeId key;
    match existing with
    | Some (_, r) => mret (pa_port r)
    | None =>
        used ← read (used_ports nodeId);
        match firstFreePort used with
        | None => throw "No free ports on this Node (62000-63999 all allocated)"
        | Some port =>
            insertAllocation nodeId key port now (convexWrite now) ≫= λ _, mret port
        end
    end.

Definition claimPortRefusal (nodeId : option Id) (key : string) (port : Z) (nodeName : string) : tx infra (option string) :=
  existing ← match nodeId with Some n => byNodeKey n key | None => mret None end;
  match existing with
  | Some (_, r) =>
      mret (if pa_port r =? port then None
            else Some ("Port key " +:+ key +:+ " already holds " +:+ json_Z (pa_port r) +:+ ", not " +:+ json_Z port))
  | None => portRefusal nodeId port nodeName
  end.

Definition claimPort (nodeId : Id) (key : string) (port allocatedAt : Z) (hub : option string) : tx infra Z :=
  refusal ← claimPortRefusal (Some nodeId) key port "this Node";
  match refusal with
  | Some r => throw r
  | None =>
      existing ← byNodeKey nodeId key;
      match existing with
      | Some (_, r) => mret (pa_port r)
      | None =>
          insertAllocation nodeId key port allocatedAt (provenanceFor allocatedAt (Some hub)) ≫= λ _,
          mret port
      end
  end.

Definition releaseAppPorts (app : string) : tx infra Z :=
  held ← db_where portAllocations (λ r, pa_app r === Some app);
  for_each held (λ r : Id * port_allocation, db_delete portAllocations r.1) ≫= λ _,
  mret (Z.of_nat (length held)).

(** ** leases.ts *)

Definition lease_of (l : app_lease) : app_lease_row := LeaseRow (al_holder l) (al_epoch l) (al_expiresAt l).

Definition leaseRow (app : string) : tx infra (option (Id * app_lease)) :=
  db_unique appLeases (λ l, al_app l === app).

Definition acquireAppLease (app holder : string) (operation : lease_operation) (now : Z)
    (ttlMs : option Z) : tx infra lease_decision :=
  row ← leaseRow app;
  let decision := decideLease (lease_of ∘ snd <$> row) holder now in
  match decision with
  | LeaseHeld _ _ => mret decision
  | LeaseGrant epoch renewed =>
      let expiresAt := now + or_else APP_LEASE_TTL_MS ttlMs in
      match row with
      | None => db_insert appLeases (AppLease app (Some holder) (Some operation) epoch expiresAt now) ≫= λ _, mret tt
      | Some (id, _) =>
          db_patch appLeases id (λ l,
            let l := l <| al_holder := Some holder |> <| al_operation := Some operation |>
                       <| al_epoch := epoch |> <| al_expiresAt := expiresAt |> in
            if renewed then l else l <| al_acquiredAt := now |>)
      end ≫= λ _,
      mret decision
  end.

Definition assertAppLease (app : string) (epoch now : Z) : tx infra (Id * app_lease) :=
  row ← leaseRow app;
  match row with
  | Some (id, l) =>
      if leaseAdmits (Some (lease_of l)) epoch now then mret (id, l)
      else throw ("Stale lease for " +:+ app +:+ ": epoch " +:+ json_Z epoch +:+
        " is not the live lease (now epoch " +:+ json_Z (al_epoch l) +:+ ")")
  | None => throw ("Stale lease for " +:+ app +:+ ": epoch " +:+ json_Z epoch +:+
        " is not the live lease (now epoch 0)")
  end.

Definition renewAppLease (app : string) (epoch now : Z) (ttlMs : option Z) : tx infra unit :=
  row ← assertAppLease app epoch now;
  db_patch appLeases row.1 (λ l, l <| al_expiresAt := now + or_else APP_LEASE_TTL_MS ttlMs |>).

Definition releaseAppLease (app : string) (epoch : Z) : tx infra unit :=
  row ← leaseRow app;
  match row with
  | Some (id, l) =>
      when ((al_epoch l =? epoch) && is_some (al_holder l))
        (db_patch appLeases id (λ l, l <| al_holder := None |> <| al_operation := None |>))
  | None => mret tt
  end.
