(* ===== verification/AppPlan.v ===== *)
(** The plan of a deployment (packages/backend/convex/infra/plan.ts): where each service of an App
    runs, which image and host port it gets, which dependencies cross Nodes and need a mesh link.

    [planDeploy] is handed its port allocator, so it is a program over any store that has one; what
    it needs of the allocator is the class [PortAllocator].  A [Record<string, _>] is a [gmap]: the
    names that JavaScript finds on every object (of the service names, only [constructor]) are not
    modelled. *)

From S2P Require Import Prelude JsLib Schema AppPolicy InfraSchema.

Record planned_service := PlannedService {
  pl_name : string;
  pl_image : string;
  pl_args : list string;
  pl_port : option Z;
  pl_route : option string;
  pl_nodeId : Id;
  pl_env : gmap string string;
}.
#[export] Instance planned_service_rebuild : Rebuild planned_service := λ p,
  PlannedService (pl_name p) (pl_image p) (pl_args p) (pl_port p) (pl_route p) (pl_nodeId p) (pl_env p).

Record deploy_plan := DeployPlan {
  dl_nodeId : Id;
  dl_services : list planned_service;
  dl_links : list app_link;
  dl_builds : list planned_build;
}.

Inductive plan_result := PlanOk (plan : deploy_plan) | PlanError (error : string).

Record plan_input := PlanInput {
  in_spec : app_spec;
  in_defaultNodeId : Id;
  in_nodeIdOf : string → option Id;
  in_placement : gmap string Id;
  in_images : gmap string string;
  in_registry : string;
  in_revision : option string;
}.

Definition linkName (app need : string) : string :=
  slice0 63 (slice0 30 app +:+ "-" +:+ slice0 30 need).

Definition str_filter (P : ascii → bool) (s : string) : string :=
  String.string_of_list_ascii (filter (λ c, P c = true) (String.list_ascii_of_string s)).

(** [a || b] on strings *)
Definition or_string (a b : string) : string := if Nat.eqb (String.length a) 0 then b else a.

Definition tagSuffix (revision : option string) : string :=
  or_string (slice0 12 (str_filter
    (λ c, is_alpha c || is_digit c || Ascii.eqb c "_" || Ascii.eqb c "." || Ascii.eqb c "-")
    (or_string (or_else "" revision) "latest"))) "latest".

(** [service.toUpperCase().replace(/-/g, "_")] of a service name (spec.ts): ASCII letters, digits
    and dashes. *)
Definition upper_char (c : ascii) : ascii :=
  if is_lower_alpha c then ascii_of_nat (nat_of_ascii c - 32) else c.
Definition envName (service : string) : string :=
  str_map (λ c, if Ascii.eqb c "-" then "_"%char else upper_char c) service.

(** The text of a port in a template string. *)
Definition port_text (port : option Z) : string :=
  match port with Some p => pretty p | None => "undefined" end.

Definition truthy (s : option string) : bool :=
  match s with Some r => negb (Nat.eqb (String.length r) 0) | None => false end.

Definition quoted (s : string) : string := String quote_char (s +:+ String quote_char "").

(** ** Placement *)

Fixpoint place_services (input : plan_input) (nodeOf : gmap string Id) (services : list spec_service)
    : gmap string Id + string :=
  match services with
  | [] => inl nodeOf
  | s :: services =>
      let put id := place_services input (<[ss_name s := id]> nodeOf) services in
      match in_placement input !! ss_name s, ss_node s with
      | Some placed, _ => put placed
      | None, None => put (in_defaultNodeId input)
      | None, Some node =>
          match in_nodeIdOf input node with
          | Some id => put id
          | None => inr ("service " +:+ quoted (ss_name s) +:+ ": no Node named " +:+ quoted node)
          end
      end
  end.

(** The services some service on another Node needs, in the order the [Set] is filled. *)
Definition cross_needed (nodeOf : gmap string Id) (services : list spec_service) : list string :=
  set_of (s ← services; filter (λ need, nodeOf !! ss_name s ≠ nodeOf !! need) (ss_needs s)).

Definition reserved_error (need : string) : string :=
  "service " +:+ quoted ("link-" +:+ need) +:+
  ": the name is reserved while a service on another Node needs " +:+ quoted need.

Definition port_key (app service : string) : string := app +:+ "/" +:+ service.
Definition link_key (app need : string) : string := app +:+ "/link-" +:+ need.

(** What planning relies on: an allocation is recorded and stays, and no port of a Node is recorded
    under two keys. *)
Class PortAllocator {S} (allocate : Id → string → tx S Z) (ok : S → Prop)
    (holds : S → Id → string → Z → Prop) : Prop := {
  pal_alloc s n k p s' : ok s → allocate n k s = Done (p, s') →
    ok s' ∧ holds s' n k p ∧ ∀ n' k' q, holds s n' k' q → holds s' n' k' q;
  pal_port s n k k' p : ok s → holds s n k p → holds s n k' p → k = k';
}.

Section plan.
Context {S : Type} (allocate : Id → string → tx S Z) (input : plan_input).

Let spec : app_spec := in_spec input.
Let app : string := sp_app spec.

Definition planned_image (s : spec_service) : string :=
  match ss_image s with
  | Some image => image
  | None =>
      match in_images input !! ss_name s with
      | Some image => image
      | None => in_registry input +:+ "/" +:+ app +:+ "-" +:+ ss_name s +:+ ":" +:+ tagSuffix (in_revision input)
      end
  end.

Definition planned_builds (s : spec_service) : list planned_build :=
  match ss_image s, in_images input !! ss_name s with
  | None, None =>
      let build := or_else "" (ss_build s) in
      [PlannedBuild (ss_name s) (if build === "." then "" else build) (planned_image s)]
  | _, _ => []
  end.

(** The first loop: one service with its Node and its host port. *)
Definition plan_service (nodeOf : gmap string Id) (crossNeeded : list string)
    (acc : list planned_service * list planned_build) (s : spec_service)
    : tx S (list planned_service * list planned_build) :=
  let nodeId := or_else (in_defaultNodeId input) (nodeOf !! ss_name s) in
  hostPort ← (if truthy (ss_route s) || bool_decide (ss_name s ∈ crossNeeded)
              then port ← allocate nodeId (port_key app (ss_name s)); mret (Some port)
              else mret None);
  let ports := match hostPort with
               | Some p => ["-p"; "127.0.0.1:" +:+ pretty p +:+ ":" +:+ port_text (ss_port s)]
               | None => []
               end in
  let volumes := v ← ss_volumes s; ["-v"; app +:+ "-" +:+ v] in
  let env := match ss_port s with
             | Some p => if p =? 0 then ∅ else {[ "PORT" := pretty p ]}
             | None => ∅
             end in
  mret (acc.1 ++ [PlannedService (ss_name s) (planned_image s) (ports ++ volumes) hostPort
                    (ss_route s) nodeId env],
        acc.2 ++ planned_builds s).

Definition by_name (services : list planned_service) : gmap string planned_service :=
  foldl (λ m p, <[pl_name p := p]> m) ∅ services.
Definition spec_of : gmap string spec_service :=
  foldl (λ m s, <[ss_name s := s]> m) ∅ (sp_services spec).

(** One dependency of a service: its environment, whether it crosses Nodes, and the links so far. *)
Definition plan_need (byName : gmap string planned_service) (p : planned_service)
    (acc : gmap string string * bool * list app_link) (need : string)
    : tx S (gmap string string * bool * list app_link) :=
  let '(env, crossNode, links) := acc in
  match byName !! need, spec_of !! need with
  | Some dep, Some depSpec =>
      if pl_nodeId dep === pl_nodeId p then
        mret (<[envName need +:+ "_PORT" := port_text (ss_port depSpec)]>
                (<[envName need +:+ "_HOST" := need]> env), crossNode, links)
      else
        localPort ← allocate (pl_nodeId p) (link_key app need);
        let env := <[envName need +:+ "_PORT" := pretty localPort]>
                     (<[envName need +:+ "_HOST" := "host.docker.internal"]> env) in
        let known := existsb (λ l, (lk_need l === need) && (lk_consumerNodeId l === pl_nodeId p)) links in
        mret (env, true,
          if known then links
          else links ++ [AppLink (linkName app need) need (pl_nodeId dep) (or_else 0 (pl_port dep))
                           (pl_nodeId p) localPort])
  | _, _ => throw "Cannot read properties of undefined"
  end.

(** The second loop: the environment and the links of one service. *)
Definition link_service (byName : gmap string planned_service)
    (acc : list planned_service * list app_link) (p : planned_service)
    : tx S (list planned_service * list app_link) :=
  match spec_of !! pl_name p with
  | None => throw "Cannot read properties of undefined"
  | Some s =>
      r ← fold_tx (plan_need byName p) (pl_env p, false, acc.2) (ss_needs s);
      let '(env, crossNode, links) := r in
      let args := if crossNode : bool then pl_args p ++ ["--add-host=host.docker.internal:host-gateway"]
                  else pl_args p in
      let assigned := ss_env s ∪ env in
      let env := match env !! "PORT" with Some port => <["PORT" := port]> assigned | None => assigned end in
      mret (acc.1 ++ [p <| pl_args := args |> <| pl_env := env |>], links)
  end.

Definition planDeploy : tx S plan_result :=
  match place_services input ∅ (sp_services spec) with
  | inr error => mret (PlanError error)
  | inl nodeOf =>
      let crossNeeded := cross_needed nodeOf (sp_services spec) in
      match head (filter (λ need, ("link-" +:+ need) ∈ ss_name <$> sp_services spec) crossNeeded) with
      | Some need => mret (PlanError (reserved_error need))
      | None =>
          planned ← fold_tx (plan_service nodeOf crossNeeded) ([], []) (sp_services spec);
          linked ← fold_tx (link_service (by_name planned.1)) ([], []) planned.1;
          mret (PlanOk (DeployPlan (in_defaultNodeId input) linked.1 linked.2 planned.2))
      end
  end.
End plan.

(** ** changedNodes *)

(** The services of each Node, sorted by name; two groups have the same canonical JSON text exactly
    when they are the same rows. *)
Definition group_rows (localeCompare : string → string → Z) (rows : list app_service) (fallback : Id)
    : list (Id * list app_service) :=
  foldl (λ groups row,
    let node := or_else fallback (sv_nodeId row) in
    let row := AppService (sv_name row) (sv_image row) (sv_args row) (sv_port row) (sv_route row)
                 (Some node) (sv_env row) in
    if bool_decide (node ∈ groups.*1)
    then (λ g, if g.1 === node then (g.1, g.2 ++ [row]) else g) <$> groups
    else groups ++ [(node, [row])])
    [] (to_sorted (λ a b, localeCompare (sv_name a) (sv_name b)) rows).

Definition stored_service (p : planned_service) : app_service :=
  AppService (pl_name p) (pl_image p) (pl_args p) (pl_port p) (pl_route p) (Some (pl_nodeId p)) (Some (pl_env p)).

#[export] Instance app_service_eq_dec : EqDecision app_service.
Proof. solve_decision. Defined.

Definition changedNodes (localeCompare : string → string → Z) (before : list app_service)
    (beforeDefault : Id) (after : list planned_service) : list Id :=
  let old := group_rows localeCompare before beforeDefault in
  let next := group_rows localeCompare (stored_service <$> after) beforeDefault in
  (filter (λ g : Id * list app_service, (list_to_map old : gmap Id _) !! g.1 ≠ Some g.2) next).*1.
