(* ===== verification/Ports.v ===== *)
(** Correctness of the host-port table (ports.ts): every port of a Node belongs to one key, a key
    keeps its port, and a new key gets the lowest free one. *)

From S2P Require Import Prelude JsLib Schema AppPolicy InfraSchema InfraStore AppPlan.

(** ** firstFreePort *)

Lemma next_free_spec used c :
  StronglySorted Z.le used →
  c ≤ next_free c used ∧ next_free c used ∉ used ∧ ∀ q, c ≤ q < next_free c used → q ∈ used.
Proof.
  intros Hs. revert c. induction Hs as [|p used Hs IH Hp]; intros c; simpl.
  - split_and!; [lia|by apply not_elem_of_nil|lia].
  - destruct (Z.ltb_spec p c) as [Hlt|Hge].
    + destruct (IH c) as (H1 & H2 & H3). split_and!; [done| |].
      * rewrite not_elem_of_cons. split; [lia|done].
      * intros q Hq. right. by apply H3.
    + destruct (Z.ltb_spec c p) as [Hlt|Hle].
      * split_and!; [lia| |lia]. rewrite not_elem_of_cons. split; [lia|].
        intros Hin. rewrite Forall_forall in Hp. specialize (Hp c Hin). lia.
      * assert (p = c) as -> by lia. destruct (IH (c + 1)) as (H1 & H2 & H3). split_and!; [lia| |].
        -- rewrite not_elem_of_cons. split; [lia|done].
        -- intros q Hq. destruct (decide (q = c)) as [->|]; [left|right; apply H3; lia].
Qed.

#[export] Instance sub_consistent : ConsistentOn Z.sub (λ _, True).
Proof. split; intros; lia. Qed.

Lemma sorted_ports l : StronglySorted Z.le (to_sorted Z.sub l).
Proof.
  eapply StronglySorted_weaken; [|apply (to_sorted_sorted Z.sub (λ _, True)); by apply Forall_true].
  simpl. intros. lia.
Qed.

(** ** The table *)

Definition holds_port (s : infra) (n : Id) (k : string) (p : Z) : Prop :=
  ∃ i r, rows (portAllocations s) !! i = Some r ∧ pa_nodeId r = n ∧ pa_key r = k ∧ pa_port r = p.

Record ports_ok (s : infra) : Prop := {
  po_wf : t_wf (portAllocations s);
  po_keys : ∀ i j a b, rows (portAllocations s) !! i = Some a → rows (portAllocations s) !! j = Some b →
    pa_nodeId a = pa_nodeId b → pa_key a = pa_key b → i = j;
  po_ports : ∀ i j a b, rows (portAllocations s) !! i = Some a → rows (portAllocations s) !! j = Some b →
    pa_nodeId a = pa_nodeId b → pa_port a = pa_port b → i = j;
  po_range : ∀ i a, rows (portAllocations s) !! i = Some a → 1 ≤ pa_port a ≤ 65535;
  po_app : ∀ i a, rows (portAllocations s) !! i = Some a → pa_app a = appOfPortKey (pa_key a);
}.

Section lookups.
Context (s : infra) (Hok : ports_ok s).

Lemma held_key_port n k p q : holds_port s n k p → holds_port s n k q → p = q.
Proof.
  intros (i & a & Hi & <- & <- & <-) (j & b & Hj & Hn & Hk & <-).
  assert (i = j) as -> by (eapply (po_keys _ Hok); eauto). congruence.
Qed.

Lemma held_port_key n k k' p : holds_port s n k p → holds_port s n k' p → k = k'.
Proof.
  intros (i & a & Hi & <- & <- & <-) (j & b & Hj & Hn & <- & Hp).
  assert (i = j) as -> by (eapply (po_ports _ Hok); eauto). congruence.
Qed.

Lemma byNodeKey_held n k p :
  holds_port s n k p → ∃ i r, byNodeKey n k s = Done (Some (i, r), s) ∧ pa_port r = p.
Proof.
  intros (i & r & Hi & <- & <- & <-). exists i, r. split; [|done]. unfold byNodeKey, db_unique.
  rewrite (t_where_singleton _ _ i r); [done|apply Hok|done|by rewrite !bool_decide_true|].
  intros j e Hj [Hn%bool_decide_eq_true Hk%bool_decide_eq_true]%andb_true_iff. by eapply (po_keys _ Hok).
Qed.

Lemma byNodeKey_none n k : (∀ p, ¬ holds_port s n k p) → byNodeKey n k s = Done (None, s).
Proof.
  intros Hn. unfold byNodeKey, db_unique. rewrite t_where_nil; [done|].
  intros i r Hi. apply not_true_iff_false. intros [?%bool_decide_eq_true ?%bool_decide_eq_true]%andb_true_iff.
  apply (Hn (pa_port r)). by exists i, r.
Qed.

Lemma elem_of_used_ports n p :
  p ∈ used_ports n s ↔ 62000 ≤ p ≤ 63999 ∧ ∃ k, holds_port s n k p.
Proof.
  unfold used_ports. rewrite elem_of_to_sorted, list_elem_of_fmap. split.
  - intros ([i r] & -> & [Hi H]%t_where_sound). simpl in *. unfold PORT_RANGE_START, PORT_RANGE_END in H.
    apply andb_true_iff in H as [[Hn%bool_decide_eq_true H1%Z.leb_le]%andb_true_iff H2%Z.leb_le].
    split; [done|]. exists (pa_key r). by exists i, r.
  - intros (Hr & k & i & r & Hi & <- & <- & <-). exists (i, r). split; [done|].
    apply elem_of_t_where; [apply Hok|]. split; [done|]. unfold PORT_RANGE_START, PORT_RANGE_END.
    rewrite bool_decide_true by done. simpl. apply andb_true_iff. split; apply Z.leb_le; lia.
Qed.

Lemma portRefusal_free n p name :
  1 ≤ p ≤ 65535 → (∀ k, ¬ holds_port s n k p) → portRefusal (Some n) p name s = Done (None, s).
Proof.
  intros Hp Hfree. unfold portRefusal.
  destruct (Z.ltb_spec p 1); [lia|]. destruct (Z.ltb_spec 65535 p); [lia|]. simpl.
  unfold mbind, tx_bind. simpl. rewrite t_where_nil; [done|]. intros i r Hi.
  apply not_true_iff_false. intros [?%bool_decide_eq_true ?%Z.eqb_eq]%andb_true_iff.
  apply (Hfree (pa_key r)). by exists i, r.
Qed.
End lookups.

(** A recorded allocation is a new row of the table. *)
Definition with_port (n : Id) (k : string) (p at_ : Z) (pr : provenance) (s : infra) : infra :=
  s <| portAllocations ::= t_add (PortAllocation n k p (appOfPortKey k) at_ (Some pr)) |>.

Lemma insertAllocation_done n k p at_ pr s u s' :
  insertAllocation n k p at_ pr s = Done (u, s') →
  s' = with_port n k p at_ pr s ∧ 1 ≤ p ≤ 65535 ∧ ∀ i r, rows (portAllocations s) !! i = Some r →
    t_wf (portAllocations s) → pa_nodeId r = n → pa_port r ≠ p.
Proof.
  unfold insertAllocation, portRefusal. intros H. tx_bind_in H refusal s1 H1. revert H1.
  destruct (Z.ltb_spec p 1); simpl; [intros [= <- <-]; done|].
  destruct (Z.ltb_spec 65535 p); simpl; [intros [= <- <-]; done|].
  intros [= <- <-]. destruct (head _) as [[i h]|] eqn:Eh; [done|]. injection H as _ <-.
  split; [done|]. split; [lia|]. intros i r Hi Hwf Hn Hp. simpl in Eh.
  assert ((i, r) ∈ t_where (λ r, (pa_nodeId r === n) && (pa_port r =? p)) (portAllocations s)) as Hin.
  { apply elem_of_t_where; [done|]. split; [done|]. rewrite bool_decide_true by done. by apply Z.eqb_eq. }
  destruct (t_where _ _); [by apply elem_of_nil in Hin|done].
Qed.

Lemma holds_with_port n k p at_ pr s n' k' q :
  t_wf (portAllocations s) →
  holds_port (with_port n k p at_ pr s) n' k' q ↔ holds_port s n' k' q ∨ (n' = n ∧ k' = k ∧ q = p).
Proof.
  intros Hwf. split.
  - intros (i & r & Hi & <- & <- & <-). simpl in Hi. apply lookup_insert_Some in Hi as [[<- <-]|[Hne Hi]]; [by right|].
    left. by exists i, r.
  - intros [(i & r & Hi & <- & <- & <-)|(-> & -> & ->)].
    + exists i, r. split; [|done]. simpl. rewrite lookup_insert_ne; [done|]. apply Hwf in Hi. lia.
    + eexists (next_id (portAllocations s)), _. split; [apply lookup_insert_eq|done].
Qed.

Lemma ports_ok_with n k p at_ pr s :
  ports_ok s → 1 ≤ p ≤ 65535 → (∀ q, ¬ holds_port s n k q) → (∀ k', ¬ holds_port s n k' p) →
  ports_ok (with_port n k p at_ pr s).
Proof.
  intros Hok Hp Hk Hfree. split; simpl.
  - apply t_wf_add, Hok.
  - intros i j a b Hi Hj Hn Hkey. apply lookup_insert_Some in Hi, Hj.
    destruct Hi as [[<- <-]|[? Hi]], Hj as [[<- <-]|[? Hj]]; simpl in *; [done|..].
    + edestruct Hk. exists j, b. eauto.
    + edestruct Hk. exists i, a. eauto.
    + by eapply (po_keys _ Hok).
  - intros i j a b Hi Hj Hn Hport. apply lookup_insert_Some in Hi, Hj.
    destruct Hi as [[<- <-]|[? Hi]], Hj as [[<- <-]|[? Hj]]; simpl in *; [done|..].
    + edestruct Hfree. exists j, b. eauto.
    + edestruct Hfree. exists i, a. eauto.
    + by eapply (po_ports _ Hok).
  - intros i a Hi. apply lookup_insert_Some in Hi as [[<- <-]|[? Hi]]; [done|]. by eapply (po_range _ Hok).
  - intros i a Hi. apply lookup_insert_Some in Hi as [[<- <-]|[? Hi]]; [done|]. by eapply (po_app _ Hok).
Qed.

Lemma ports_ok_del i s : ports_ok s → ports_ok (s <| portAllocations ::= t_del i |>).
Proof.
  intros [? Hk Hp Hr Ha]. split; simpl.
  - by apply t_wf_del.
  - intros ???? [_ ?]%lookup_delete_Some [_ ?]%lookup_delete_Some. by eapply Hk.
  - intros ???? [_ ?]%lookup_delete_Some [_ ?]%lookup_delete_Some. by eapply Hp.
  - intros ?? [_ ?]%lookup_delete_Some. by eapply Hr.
  - intros ?? [_ ?]%lookup_delete_Some. by eapply Ha.
Qed.

Lemma byNodeKey_done n k s r s' :
  ports_ok s → byNodeKey n k s = Done (r, s') →
  s' = s ∧ match r with
           | Some (_, r) => holds_port s n k (pa_port r)
           | None => ∀ p, ¬ holds_port s n k p
           end.
Proof.
  intros Hok [-> H]%unique_row; [|apply Hok]. split; [done|]. destruct r as [[i r]|].
  - destruct H as [Hi [<-%bool_decide_eq_true <-%bool_decide_eq_true]%andb_true_iff]. by exists i, r.
  - intros p (i & r & Hi & <- & <- & <-). specialize (H i r Hi). by rewrite !bool_decide_true in H.
Qed.

(** What a committed allocation did, whatever the request. *)
Lemma allocatePort_done n k now s p s' :
  ports_ok s → allocatePort n k now s = Done (p, s') →
  ports_ok s' ∧ holds_port s' n k p ∧
  ∀ n' k' q, holds_port s' n' k' q ↔ holds_port s n' k' q ∨ (n' = n ∧ k' = k ∧ q = p).
Proof.
  intros Hok. unfold allocatePort. destruct (Nat.eqb _ 0); [done|]. intros H. tx_bind_in H e s1 H1.
  apply byNodeKey_done in H1 as [-> He]; [|done]. destruct e as [[i r]|].
  - injection H as <- <-. split; [done|]. split; [done|]. intros. split; [by left|].
    by intros [?|(-> & -> & ->)].
  - tx_bind_in H used s2 H2. injection H2 as <- <-. unfold firstFreePort in H.
    pose proof (next_free_spec (used_ports n s) PORT_RANGE_START (sorted_ports _)) as (Hge & Hni & _).
    destruct (Z.leb_spec (next_free PORT_RANGE_START (used_ports n s)) PORT_RANGE_END) as [Hle|]; [|done].
    set (q := next_free _ _) in *. tx_bind_in H u s3 H3. injection H as <- <-.
    apply insertAllocation_done in H3 as (-> & Hq & Hno).
    assert (∀ k', ¬ holds_port s n k' q) as Hfree.
    { intros k' (i & r & Hi & Hn & _ & Hp). by eapply Hno; [exact Hi|apply Hok|..]. }
    split; [by apply ports_ok_with|]. split.
    + apply holds_with_port; [apply Hok|]. by right.
    + intros. apply holds_with_port, Hok.
Qed.

#[export] Instance allocatePort_allocator now :
  PortAllocator (λ n k, allocatePort n k now) ports_ok holds_port.
Proof.
  split.
  - intros s n k p s' Hok H. apply allocatePort_done in H as (Hok' & Hp & Hiff); [|done].
    split; [done|]. split; [done|]. intros. apply Hiff. by left.
  - intros s n k k' p Hok. by apply held_port_key.
Qed.

(** ** The theorems *)

(** A port allocation on every branch.  A key that holds a port on the Node gets that port again
    and nothing is written.  A new key gets the lowest port of the range that nobody holds on the
    Node, and only that allocation is added.  A new key is refused exactly when all two thousand
    ports are held. *)
Theorem allocatePort_lowest_free s n k now :
  ports_ok s → k ≠ "" →
  (∀ p, holds_port s n k p → allocatePort n k now s = Done (p, s)) ∧
  ((∀ p, ¬ holds_port s n k p) →
   match allocatePort n k now s with
   | Done (p, s') =>
       62000 ≤ p ≤ 63999 ∧ (∀ k', ¬ holds_port s n k' p) ∧
       (∀ q, 62000 ≤ q < p → ∃ k', holds_port s n k' q) ∧ ports_ok s' ∧
       ∀ n' k' q, holds_port s' n' k' q ↔ holds_port s n' k' q ∨ (n' = n ∧ k' = k ∧ q = p)
   | Failed _ => ∀ q, 62000 ≤ q ≤ 63999 → ∃ k', holds_port s n k' q
   end).
Proof.
  intros Hok Hk. unfold allocatePort.
  destruct (Nat.eqb_spec (String.length k) 0) as [E|_]; [by destruct k|]. split.
  - intros p Hp. destruct (byNodeKey_held s Hok n k p Hp) as (i & r & Hrun & <-).
    unfold mbind, tx_bind. by rewrite Hrun.
  - intros Hnew. unfold mbind, tx_bind. rewrite byNodeKey_none by done. unfold read.
    pose proof (next_free_spec (used_ports n s) PORT_RANGE_START (sorted_ports _)) as (Hge & Hni & Hall).
    unfold firstFreePort. set (p := next_free _ _) in *. unfold PORT_RANGE_START, PORT_RANGE_END in *.
    destruct (Z.leb_spec p 63999) as [Hle|Hgt].
    + assert (∀ k', ¬ holds_port s n k' p) as Hfree.
      { intros k' Hp. apply Hni, elem_of_used_ports; [done|]. split; [lia|by exists k']. }
      unfold insertAllocation, mbind, tx_bind. rewrite portRefusal_free by (done || lia). simpl.
      split; [lia|]. split; [done|]. split.
      * intros q Hq. apply Hall, elem_of_used_ports in Hq; [|done]. apply Hq.
      * split; [apply ports_ok_with; [done|lia|done|done]|]. intros. apply holds_with_port, Hok.
    + intros q Hq. assert (q ∈ used_ports n s) as Hin by (apply Hall; lia).
      by apply elem_of_used_ports in Hin as [_ ?].
Qed.

(** The operations on the table. *)
Inductive port_step (s : infra) : infra → Prop :=
  | port_allocate n k now p s' : allocatePort n k now s = Done (p, s') → port_step s s'
  | port_claim n k p at_ hub q s' : claimPort n k p at_ hub s = Done (q, s') → port_step s s'
  | port_release app c s' : releaseAppPorts app s = Done (c, s') → port_step s s'.

Lemma claimPort_done n k p at_ hub s q s' :
  ports_ok s → claimPort n k p at_ hub s = Done (q, s') →
  ports_ok s' ∧ q = p ∧
  ∀ n' k' r, holds_port s' n' k' r ↔ holds_port s n' k' r ∨ (n' = n ∧ k' = k ∧ r = p).
Proof.
  intros Hok H. unfold claimPort in H. tx_bind_in H refusal s1 H1.
  assert (s1 = s ∧ (refusal = None → ∀ r, holds_port s n k r → r = p)) as [-> Hsame].
  { unfold claimPortRefusal in H1. tx_bind_in H1 e s2 H2. apply byNodeKey_done in H2 as [-> He]; [|done].
    destruct e as [[i r]|].
    - injection H1 as <- <-. split; [done|]. destruct (Z.eqb_spec (pa_port r) p) as [<-|]; [|done].
      intros _ r' Hr'. by eapply held_key_port.
    - assert (s1 = s) as ->.
      { revert H1. unfold portRefusal. destruct (_ || _); [by intros [= _ <-]|]. intros H1.
        tx_bind_in H1 h s3 H3. injection H3 as <- <-. by injection H1 as _ <-. }
      split; [done|]. intros _ r' Hr'. by destruct (He r'). }
  destruct refusal as [|]; [done|]. specialize (Hsame eq_refl). tx_bind_in H e s2 H2.
  apply byNodeKey_done in H2 as [-> He]; [|done]. destruct e as [[i r]|].
  - injection H as <- <-. apply Hsame in He as E. split; [done|]. split; [done|]. intros. split; [by left|].
    rewrite <- E. by intros [?|(-> & -> & ->)].
  - tx_bind_in H u s3 H3. injection H as <- <-. apply insertAllocation_done in H3 as (-> & Hq & Hno).
    split; [|split; [done|intros; apply holds_with_port, Hok]]. apply ports_ok_with; try done.
    intros k' (i & r & Hi & Hn & _ & Hp). by eapply Hno; [exact Hi|apply Hok|..].
Qed.

(** Deleting a list of rows. *)
Lemma delete_ports l s u s' :
  for_each l (λ r : Id * port_allocation, db_delete portAllocations r.1) s = Done (u, s') →
  (ports_ok s → ports_ok s') ∧
  ∀ i r, rows (portAllocations s') !! i = Some r ↔ rows (portAllocations s) !! i = Some r ∧ i ∉ l.*1.
Proof.
  revert s u s'. induction l as [|[i r] l IH]; intros s u s' H; simpl in H.
  - injection H as _ <-. split; [done|]. intros. split; [|by intros [? _]]. intros. split; [done|apply not_elem_of_nil].
  - tx_bind_in H u1 s1 H1. apply db_delete_done in H1 as (d & Hd & ->). apply IH in H as [Hok Hiff].
    split; [intros; by apply Hok, ports_ok_del|]. intros j e. rewrite Hiff. simpl.
    rewrite lookup_delete_Some, not_elem_of_cons. naive_solver.
Qed.

Lemma releaseAppPorts_done app s c s' :
  releaseAppPorts app s = Done (c, s') →
  (ports_ok s → ports_ok s') ∧ (t_wf (portAllocations s) →
  ∀ i r, rows (portAllocations s') !! i = Some r ↔ rows (portAllocations s) !! i = Some r ∧ pa_app r ≠ Some app).
Proof.
  intros H. unfold releaseAppPorts in H. tx_bind_in H held s1 H1. injection H1 as <- <-.
  tx_bind_in H u s2 H2. injection H as _ <-. apply delete_ports in H2 as [Hok Hiff].
  split; [done|]. intros Hwf i r. rewrite Hiff. split; intros [Hi Hr]; split; try done.
  - intros E. apply Hr, list_elem_of_fmap. exists (i, r). split; [done|]. apply elem_of_t_where; [done|].
    split; [done|]. by apply bool_decide_eq_true.
  - intros ([j e] & -> & [Hj He%bool_decide_eq_true]%t_where_sound)%list_elem_of_fmap. simpl in *. congruence.
Qed.

(** C9: no port is shared.  Through any sequence of allocations, claims of the importer and
    releases, no two keys hold the same port of a Node, no key holds two ports of a Node, and a key
    keeps its port until its App is removed. *)
Theorem ports_never_shared s s' :
  ports_ok s → rtc port_step s s' →
  (∀ n k k' p, holds_port s' n k p → holds_port s' n k' p → k = k') ∧
  (∀ n k p q, holds_port s' n k p → holds_port s' n k q → p = q) ∧
  ∀ s'' n k p, holds_port s' n k p → port_step s' s'' →
    holds_port s'' n k p ∨ ∃ app c, appOfPortKey k = Some app ∧ releaseAppPorts app s' = Done (c, s'').
Proof.
  intros Hok Hsteps. assert (ports_ok s') as Hok'.
  { induction Hsteps as [|s1 s2 s3 Hstep _ IH]; [done|]. apply IH. destruct Hstep as [????? H|??????? H|??? H].
    - by apply allocatePort_done in H as [? _].
    - by apply claimPort_done in H as [? _].
    - apply releaseAppPorts_done in H as [H _]. by apply H. }
  split; [by apply held_port_key|]. split; [by apply held_key_port|].
  intros s'' n k p Hp Hstep. destruct Hstep as [????? H|??????? H|app c s'' H].
  - left. apply allocatePort_done in H as (_ & _ & Hiff); [|done]. apply Hiff. by left.
  - left. apply claimPort_done in H as (_ & _ & Hiff); [|done]. apply Hiff. by left.
  - destruct (decide (appOfPortKey k = Some app)) as [E|Hne]; [right; eauto|]. left.
    destruct Hp as (i & r & Hi & <- & <- & <-). apply releaseAppPorts_done in H as [_ Hiff].
    exists i, r. split; [|done]. apply Hiff; [apply Hok'|]. split; [done|]. by rewrite (po_app _ Hok' i r Hi).
Qed.

(** ** Witnesses *)

Definition two_ports : infra :=
  commit (allocatePort 0%nat "shop/db" 20) (commit (allocatePort 0%nat "shop/web" 10) infra_empty).

Lemma infra_empty_ports_ok : ports_ok infra_empty.
Proof. split; simpl; [apply t_wf_empty|..]; intros *; simpl; by rewrite lookup_empty. Qed.

Lemma two_ports_steps : rtc port_step infra_empty two_ports.
Proof.
  eapply rtc_l; [apply (port_allocate infra_empty 0%nat "shop/web" 10 62000); vm_compute; reflexivity|].
  eapply rtc_l; [eapply (port_allocate _ 0%nat "shop/db" 20 62001); vm_compute; reflexivity|].
  apply rtc_refl.
Qed.

Lemma ports_never_shared_witness :
  holds_port two_ports 0%nat "shop/web" 62000 ∧ ¬ holds_port two_ports 0%nat "shop/db" 62000.
Proof.
  assert (holds_port two_ports 0%nat "shop/web" 62000) as Hw.
  { eexists 0%nat, _. split; [vm_compute; reflexivity|done]. }
  split; [exact Hw|]. intros Hd.
  destruct (ports_never_shared infra_empty two_ports infra_empty_ports_ok two_ports_steps) as [H _].
  discriminate (H _ _ _ _ Hw Hd).
Defined.

Lemma allocatePort_lowest_free_witness :
  allocatePort 0%nat "shop/web" 30 two_ports = Done (62000, two_ports) ∧
  match allocatePort 1%nat "shop/web" 30 two_ports with Done (p, _) => p = 62000 | Failed _ => False end.
Proof.
  assert (ports_ok two_ports) as Hok.
  { destruct (allocatePort_done 0%nat "shop/web" 10 infra_empty 62000
      (commit (allocatePort 0%nat "shop/web" 10) infra_empty) infra_empty_ports_ok) as [Hok _]; [vm_compute; reflexivity|].
    destruct (allocatePort_done 0%nat "shop/db" 20 _ 62001 two_ports Hok) as [Hok2 _]; [vm_compute; reflexivity|].
    exact Hok2. }
  split; [|vm_compute; reflexivity].
  apply (allocatePort_lowest_free two_ports 0%nat "shop/web" 30 Hok); [discriminate|].
  eexists 0%nat, _. split; [vm_compute; reflexivity|done].
Defined.
