(* ===== verification/PlanProperties.v ===== *)
(** Correctness of deployment planning (plan.ts), for any allocator with the promises of
    [PortAllocator], and for the platform's own. *)

From S2P Require Import Prelude JsLib Schema AppPolicy InfraSchema InfraStore AppPlan Ports.

(** A loop invariant over the elements already visited. *)
Lemma fold_prefix {S A B} (body : B → A → tx S B) (J : list A → B → S → Prop) l b s b' s' :
  (∀ l1 x b s b' s', l1 ++ [x] `prefix_of` l → J l1 b s → body b x s = Done (b', s') → J (l1 ++ [x]) b' s') →
  J [] b s → fold_tx body b l s = Done (b', s') → J l b' s'.
Proof.
  intros Hstep. assert (∀ l2 l1 b s, l = l1 ++ l2 → J l1 b s → fold_tx body b l2 s = Done (b', s') → J l b' s') as H.
  { intros l2. induction l2 as [|x l2 IH]; intros l1 b1 s1 E HJ H; simpl in H.
    - injection H as <- <-. by rewrite E, app_nil_r.
    - tx_bind_in H b2 s2 H2. eapply (IH (l1 ++ [x])); [by rewrite <- app_assoc| |exact H].
      eapply Hstep; [|done..]. exists l2. by rewrite <- app_assoc. }
  intros HJ. by apply (H l []).
Qed.

Section forall2.
Context {A B : Type} (R : A → B → Prop).

Lemma forall2_in_l l k x : Forall2 R l k → x ∈ l → ∃ y, y ∈ k ∧ R x y.
Proof.
  induction 1 as [|x' y l k HR _ IH]; [by intros ?%elem_of_nil|]. intros [->|Hx]%elem_of_cons.
  - exists y. split; [left|done].
  - destruct (IH Hx) as (y' & ? & ?). exists y'. split; [by right|done].
Qed.

Lemma forall2_in_r l k y : Forall2 R l k → y ∈ k → ∃ x, x ∈ l ∧ R x y.
Proof.
  induction 1 as [|x y' l k HR _ IH]; [by intros ?%elem_of_nil|]. intros [->|Hy]%elem_of_cons.
  - exists x. split; [left|done].
  - destruct (IH Hy) as (x' & ? & ?). exists x'. split; [by right|done].
Qed.

Lemma forall2_weaken_in (Q : A → B → Prop) l k :
  Forall2 R l k → (∀ x y, x ∈ l → R x y → Q x y) → Forall2 Q l k.
Proof.
  induction 1 as [|x y l k HR _ IH]; intros HQ; constructor; [apply HQ; [left|done]|].
  apply IH. intros. apply HQ; [by right|done].
Qed.
End forall2.

(** ** Keys *)

Lemma key_inj app a b : app +:+ "/" +:+ a = app +:+ "/" +:+ b → a = b.
Proof. intros E%(inj (String.append app))%(inj (String.append "/")). done. Qed.

Lemma port_key_inj app a b : port_key app a = port_key app b → a = b.
Proof. apply key_inj. Qed.
Lemma link_key_inj app a b : link_key app a = link_key app b → a = b.
Proof. intros E%key_inj. by apply (inj (String.append "link-")) in E. Qed.
Lemma port_link_key app a b : port_key app a = link_key app b → a = "link-" +:+ b.
Proof. apply key_inj. Qed.

(** ** Placement *)

Definition node_for (input : plan_input) (s : spec_service) : option Id :=
  match in_placement input !! ss_name s, ss_node s with
  | Some placed, _ => Some placed
  | None, None => Some (in_defaultNodeId input)
  | None, Some node => in_nodeIdOf input node
  end.

Lemma place_services_ok input services m nodeOf :
  NoDup (ss_name <$> services) → place_services input m services = inl nodeOf →
  (∀ s, s ∈ services → ∃ id, node_for input s = Some id ∧ nodeOf !! ss_name s = Some id) ∧
  ∀ n, n ∉ ss_name <$> services → nodeOf !! n = m !! n.
Proof.
  revert m. induction services as [|s l IH]; intros m Hnd H; csimpl in *.
  - injection H as <-. split; [by intros ? ?%elem_of_nil|done].
  - apply NoDup_cons in Hnd as [Hs Hnd].
    assert (∃ id, node_for input s = Some id ∧ place_services input (<[ss_name s := id]> m) l = inl nodeOf) as (id & Hid & Hl).
    { unfold node_for. destruct (in_placement input !! ss_name s); [eauto|]. destruct (ss_node s) as [node|]; [|eauto].
      destruct (in_nodeIdOf input node); [eauto|done]. }
    destruct (IH _ Hnd Hl) as [Hin Hout]. split.
    + intros s' [->|Hs']%elem_of_cons; [|by apply Hin]. exists id. split; [done|].
      rewrite Hout by done. apply lookup_insert_eq.
    + intros n [Hne Hn]%not_elem_of_cons. rewrite Hout by done. by rewrite lookup_insert_ne.
Qed.

Lemma elem_of_cross_needed nodeOf services need :
  need ∈ cross_needed nodeOf services ↔
  ∃ s, s ∈ services ∧ need ∈ ss_needs s ∧ nodeOf !! ss_name s ≠ nodeOf !! need.
Proof.
  unfold cross_needed. rewrite elem_of_set_of, list_elem_of_bind. split.
  - intros (s & [Hne Hin]%list_elem_of_filter & Hs). eauto.
  - intros (s & Hs & Hin & Hne). exists s. split; [|done]. by apply list_elem_of_filter.
Qed.

(** ** Maps by name *)

Lemma foldl_insert_lookup {A B} (name : A → string) (f : A → B) l (m : gmap string B) n :
  NoDup (name <$> l) →
  foldl (λ m x, <[name x := f x]> m) m l !! n =
    match head (filter (λ x, name x = n) l) with Some x => Some (f x) | None => m !! n end.
Proof.
  revert m. induction l as [|x l IH]; intros m Hnd; [done|]. csimpl in *. apply NoDup_cons in Hnd as [Hx Hnd].
  rewrite IH by done. rewrite filter_cons. destruct (decide (name x = n)) as [<-|Hne]; simpl.
  - assert (filter (λ y, name y = name x) l = []) as ->; [|simpl; apply lookup_insert_eq].
    apply filter_nil_iff. intros y Hy E. apply Hx. rewrite <- E. by apply list_elem_of_fmap_2.
  - destruct (head _); [done|]. by rewrite lookup_insert_ne.
Qed.

Lemma by_name_elem {A} (name : A → string) (l : list A) (n : string) x :
  NoDup (name <$> l) →
  foldl (λ m x, <[name x := x]> m) (∅ : gmap string A) l !! n = Some x ↔ x ∈ l ∧ name x = n.
Proof.
  intros Hnd. rewrite (foldl_insert_lookup name (λ x, x)) by done. rewrite lookup_empty. split.
  - destruct (head (filter _ l)) as [y|] eqn:E; [|done]. intros [= <-].
    assert (y ∈ filter (λ x, name x = n) l) as [? ?]%list_elem_of_filter; [|done].
    destruct (filter _ l); [done|]. injection E as ->. left.
  - intros [Hx <-]. destruct (head (filter _ l)) as [y|] eqn:E.
    + assert (y ∈ filter (λ z, name z = name x) l) as [Hy Hin]%list_elem_of_filter.
      { destruct (filter _ l); [done|]. injection E as ->. left. }
      f_equal. clear E. induction l as [|z l IH]; [by apply elem_of_nil in Hin|]. csimpl in Hnd.
      apply NoDup_cons in Hnd as [Hz Hnd]. apply elem_of_cons in Hin as [->|Hin], Hx as [->|Hx]; try done.
      * destruct Hz. rewrite Hy. by apply list_elem_of_fmap_2.
      * destruct Hz. rewrite <- Hy. by apply list_elem_of_fmap_2.
      * by apply IH.
    + assert (x ∈ filter (λ z, name z = name x) l) as Hf by (by apply list_elem_of_filter).
      destruct (filter _ l); [by apply elem_of_nil in Hf|done].
Qed.

(** ** The two loops *)

Section planning.
Context {S : Type} (allocate : Id → string → tx S Z) (ok : S → Prop)
  (holds : S → Id → string → Z → Prop) `{!PortAllocator allocate ok holds} (input : plan_input).

Abbreviation services := (sp_services (in_spec input)).
Abbreviation app := (sp_app (in_spec input)).

Definition keeps_ports (s s' : S) : Prop := ∀ n k p, holds s n k p → holds s' n k p.

#[local] Instance keeps_ports_preorder : PreOrder keeps_ports.
Proof. split; [intros s n k p; auto|intros s1 s2 s3 H1 H2 n k p Hp; auto]. Qed.

(** What the first loop plans for one service. *)
Record planned_for (nodeOf : gmap string Id) (cross : list string) (s : S) (sp : spec_service)
    (p : planned_service) : Prop := {
  pf_name : pl_name p = ss_name sp;
  pf_route : pl_route p = ss_route sp;
  pf_image : pl_image p = planned_image input sp;
  pf_node : pl_nodeId p = or_else (in_defaultNodeId input) (nodeOf !! ss_name sp);
  pf_held : ∀ port, pl_port p = Some port → holds s (pl_nodeId p) (port_key app (pl_name p)) port;
  pf_port : truthy (ss_route sp) = true ∨ ss_name sp ∈ cross → is_Some (pl_port p);
}.

Lemma planned_for_mono nodeOf cross s s' sp p :
  keeps_ports s s' → planned_for nodeOf cross s sp p → planned_for nodeOf cross s' sp p.
Proof. intros Hk [? ? ? ? Hh ?]. split; try done. intros port Hp. by apply Hk, Hh. Qed.

Lemma plan_services_ok nodeOf cross s acc s' :
  ok s → fold_tx (plan_service allocate input nodeOf cross) ([], []) services s = Done (acc, s') →
  ok s' ∧ keeps_ports s s' ∧ Forall2 (planned_for nodeOf cross s') services acc.1.
Proof.
  intros Hok. apply (fold_prefix _ (λ l acc s', ok s' ∧ keeps_ports s s' ∧ Forall2 (planned_for nodeOf cross s') l acc.1)).
  2:{ split; [done|]. split; [done|constructor]. }
  intros l sp a s1 a' s2 _ (Hok1 & Hk1 & Hall) H. unfold plan_service in H. tx_bind_in H hp s3 Hp.
  injection H as <- <-. simpl.
  assert (ok s3 ∧ keeps_ports s1 s3 ∧
    (∀ port, hp = Some port → holds s3 (or_else (in_defaultNodeId input) (nodeOf !! ss_name sp))
       (port_key app (ss_name sp)) port) ∧
    (truthy (ss_route sp) = true ∨ ss_name sp ∈ cross → is_Some hp)) as (Hok3 & Hk3 & Hheld & Hport).
  { destruct (truthy (ss_route sp) || bool_decide (ss_name sp ∈ cross)) eqn:Eb.
    - tx_bind_in Hp port s4 Ha. injection Hp as <- <-. apply pal_alloc in Ha as (? & ? & ?); [|done].
      split_and!; [done|done| |eauto]. by intros ? [= <-].
    - injection Hp as <- <-. split_and!; [done|done|done|]. apply orb_false_iff in Eb as [Et Ec].
      intros [Ht|Hc]; [congruence|]. by apply bool_decide_eq_false in Ec. }
  split; [done|]. split; [by etransitivity|]. apply Forall2_app.
  - eapply Forall2_impl; [exact Hall|]. intros. by eapply planned_for_mono.
  - constructor; [|constructor]. by split.
Qed.

Section links.
Context (planned : list planned_service).

Definition same_placement (p q : planned_service) : Prop :=
  pl_name q = pl_name p ∧ pl_image q = pl_image p ∧ pl_port q = pl_port p ∧ pl_route q = pl_route p ∧
  pl_nodeId q = pl_nodeId p.

(** A link surfaces a dependency of some service on that service's Node. *)
Record link_ok (s : S) (l : app_link) : Prop := {
  lo_dep : ∃ dep, by_name planned !! lk_need l = Some dep ∧ lk_providerNodeId l = pl_nodeId dep ∧
    lk_providerPort l = or_else 0 (pl_port dep) ∧ lk_consumerNodeId l ≠ pl_nodeId dep;
  lo_held : holds s (lk_consumerNodeId l) (link_key app (lk_need l)) (lk_localPort l);
  lo_used : ∃ p sp, p ∈ planned ∧ pl_nodeId p = lk_consumerNodeId l ∧ spec_of input !! pl_name p = Some sp ∧
    lk_need l ∈ ss_needs sp;
  lo_name : lk_name l = linkName app (lk_need l);
}.

Definition link_id (l : app_link) : string * Id := (lk_need l, lk_consumerNodeId l).

Record links_ok (s : S) (links : list app_link) : Prop := {
  ls_each : ∀ l, l ∈ links → link_ok s l;
  ls_once : NoDup (link_id <$> links);
}.

Lemma links_ok_mono s s' links : keeps_ports s s' → links_ok s links → links_ok s' links.
Proof.
  intros Hk [He Ho]. split; [|done]. intros l Hl. destruct (He l Hl) as [? ? ? ?]. split; [done|by apply Hk|done|done].
Qed.

(** The link a dependency on another Node needs. *)
Definition linked (links : list app_link) (p : planned_service) (need : string) : Prop :=
  ∀ dep, by_name planned !! need = Some dep → pl_nodeId dep ≠ pl_nodeId p → (need, pl_nodeId p) ∈ link_id <$> links.

Lemma linked_mono links links' p need : links `prefix_of` links' → linked links p need → linked links' p need.
Proof. intros [l ->] H dep Hd Hn. rewrite fmap_app. apply elem_of_app. left. by eapply H. Qed.

Lemma plan_needs_ok p sp acc s acc' s' :
  ok s → links_ok s acc.2 → p ∈ planned → spec_of input !! pl_name p = Some sp →
  fold_tx (plan_need allocate input (by_name planned) p) acc (ss_needs sp) s = Done (acc', s') →
  ok s' ∧ keeps_ports s s' ∧ links_ok s' acc'.2 ∧ acc.2 `prefix_of` acc'.2 ∧
  ∀ need, need ∈ ss_needs sp → linked acc'.2 p need.
Proof.
  intros Hok Hls Hp Hsp.
  apply (fold_prefix _ (λ l acc' s', ok s' ∧ keeps_ports s s' ∧ links_ok s' acc'.2 ∧ acc.2 `prefix_of` acc'.2 ∧
    ∀ need, need ∈ l → linked acc'.2 p need)).
  2:{ split_and!; try done. by intros ? ?%elem_of_nil. }
  intros l need [[env cn] links] s1 acc1 s2 Hpre (Hok1 & Hk1 & Hls1 & Hpre1 & Hlinked) H. simpl in *.
  assert (need ∈ ss_needs sp) as Hneed.
  { destruct Hpre as [l2 ->]. rewrite !elem_of_app, elem_of_cons. auto. }
  destruct (by_name planned !! need) as [dep|] eqn:Edep; [|done].
  destruct (spec_of input !! need) as [dsp|] eqn:Edsp; [|done].
  destruct (decide (pl_nodeId dep = pl_nodeId p)) as [Esame|Hdiff].
  - rewrite bool_decide_true in H by done. injection H as <- <-. simpl. split_and!; try done.
    intros n [Hn| ->%list_elem_of_singleton]%elem_of_app; [by apply Hlinked|]. intros d Hd Hne. congruence.
  - rewrite bool_decide_false in H by done. tx_bind_in H lp s3 Ha. injection H as <- <-.
    apply pal_alloc in Ha as (Hok3 & Hheld & Hk3); [|done]. simpl. split; [done|].
    split; [by etransitivity|]. pose proof (links_ok_mono _ _ _ Hk3 Hls1) as Hls3.
    set (known := existsb _ links).
    set (fresh := AppLink _ _ _ _ _ _) in *.
    assert (known = true ↔ (need, pl_nodeId p) ∈ link_id <$> links) as Hknown.
    { unfold known. rewrite existsb_elem, list_elem_of_fmap. unfold link_id. split.
      - intros (x & Hx & [<-%bool_decide_eq_true <-%bool_decide_eq_true]%andb_true_iff). by exists x.
      - intros (x & [= -> ->] & Hx). exists x. split; [done|]. by rewrite !bool_decide_true. }
    destruct known.
    + split; [done|]. split; [done|].
      intros n [Hn| ->%list_elem_of_singleton]%elem_of_app; [by apply Hlinked|]. intros d Hd Hne. by apply Hknown.
    + assert (links `prefix_of` links ++ [fresh]) as Hp2 by (by exists [fresh]).
      split; [|split; [by etransitivity|]].
      * split.
        -- intros x [Hx| ->%list_elem_of_singleton]%elem_of_app; [by apply Hls3|]. split; simpl; [|done| |done].
           ++ exists dep. by rewrite Edep.
           ++ by exists p, sp.
        -- rewrite fmap_app. apply NoDup_app. split; [apply Hls3|]. split; [|apply NoDup_singleton].
           intros x Hx ->%list_elem_of_singleton. by apply Hknown in Hx.
      * intros n [Hn| ->%list_elem_of_singleton]%elem_of_app.
        -- eapply linked_mono; [exact Hp2|]. by apply Hlinked.
        -- intros d Hd Hne. rewrite fmap_app. apply elem_of_app. right. by apply list_elem_of_singleton.
Qed.

Lemma link_services_ok s acc s' :
  ok s → fold_tx (link_service allocate input (by_name planned)) ([], []) planned s = Done (acc, s') →
  ok s' ∧ keeps_ports s s' ∧ Forall2 same_placement planned acc.1 ∧ links_ok s' acc.2 ∧
  ∀ p, p ∈ planned → ∃ sp, spec_of input !! pl_name p = Some sp ∧ ∀ need, need ∈ ss_needs sp → linked acc.2 p need.
Proof.
  intros Hok. apply (fold_prefix _ (λ l acc s', ok s' ∧ keeps_ports s s' ∧ Forall2 same_placement l acc.1 ∧
    links_ok s' acc.2 ∧
    ∀ p, p ∈ l → ∃ sp, spec_of input !! pl_name p = Some sp ∧ ∀ need, need ∈ ss_needs sp → linked acc.2 p need)).
  2:{ split_and!; [done|done|apply Forall2_nil_2| |by intros ? ?%elem_of_nil].
      split; [by intros ? ?%elem_of_nil|apply NoDup_nil_2]. }
  intros l p [ps links] s1 acc1 s2 Hpre (Hok1 & Hk1 & Hall & Hls & Hlk) H. unfold link_service in H. simpl in *.
  assert (p ∈ planned) as Hp. { destruct Hpre as [l2 ->]. rewrite !elem_of_app, elem_of_cons. auto. }
  destruct (spec_of input !! pl_name p) as [sp|] eqn:Esp; [|done].
  tx_bind_in H r s3 Hr. destruct r as [[env cn] links']. injection H as <- <-. simpl.
  destruct (plan_needs_ok p sp (pl_env p, false, links) _ _ _ Hok1 Hls Hp Esp Hr) as (Hok3 & Hk3 & Hls3 & Hpre3 & Hlk3). simpl in *.
  split_and!; [done|by etransitivity| |done|].
  - apply Forall2_app; [done|]. constructor; [|constructor]. by destruct cn.
  - intros q [Hq| ->%list_elem_of_singleton]%elem_of_app; [|by exists sp].
    destruct (Hlk q Hq) as (sq & Esq & Hn). exists sq. split; [done|]. intros n Hin.
    eapply linked_mono; [exact Hpre3|]. by apply Hn.
Qed.
End links.

Lemma same_names (l : list spec_service) (l' : list planned_service) :
  Forall2 (λ sp p, pl_name p = ss_name sp) l l' → pl_name <$> l' = ss_name <$> l.
Proof. induction 1 as [|sp p l l' E _ IH]; [done|]. csimpl. by rewrite E, IH. Qed.

(** What a plan came from. *)
Record planned_from (nodeOf : gmap string Id) (planned : list planned_service) (plan : deploy_plan) (s : S) : Prop := {
  pd_nodes : place_services input ∅ services = inl nodeOf;
  pd_reserved : ∀ need, need ∈ cross_needed nodeOf services → ("link-" +:+ need) ∉ ss_name <$> services;
  pd_ok : ok s;
  pd_planned : Forall2 (planned_for nodeOf (cross_needed nodeOf services) s) services planned;
  pd_services : Forall2 same_placement planned (dl_services plan);
  pd_links : links_ok planned s (dl_links plan);
  pd_linked : ∀ p, p ∈ planned → ∃ sp, spec_of input !! pl_name p = Some sp ∧
    ∀ need, need ∈ ss_needs sp → linked planned (dl_links plan) p need;
}.

Lemma planDeploy_run s plan s' :
  ok s → planDeploy allocate input s = Done (PlanOk plan, s') → ∃ nodeOf planned, planned_from nodeOf planned plan s'.
Proof.
  intros Hok H. unfold planDeploy in H. destruct (place_services input ∅ services) as [nodeOf|] eqn:En; [|done].
  cbv zeta in H. destruct (head (filter _ _)) as [need|] eqn:Eh; [done|].
  tx_bind_in H planned s1 H1. tx_bind_in H lnk s2 H2. injection H as <- <-.
  apply plan_services_ok in H1 as (Hok1 & Hk1 & Hall); [|done].
  apply link_services_ok in H2 as (Hok2 & Hk2 & Hsame & Hls & Hlk); [|done].
  exists nodeOf, planned.1. split; try done.
  - intros need Hneed Hin.
    assert (need ∈ filter (λ need, ("link-" +:+ need) ∈ ss_name <$> services) (cross_needed nodeOf services)) as Hf
      by (by apply list_elem_of_filter).
    destruct (filter _ _); [by apply elem_of_nil in Hf|done].
  - eapply Forall2_impl; [exact Hall|]. intros. by eapply planned_for_mono.
Qed.

Section facts.
Context (nodeOf : gmap string Id) (planned : list planned_service) (plan : deploy_plan) (s : S).
Context (Hnd : NoDup (ss_name <$> services)) (HP : planned_from nodeOf planned plan s).

(** The services of the plan are the planned ones, up to their arguments and environment. *)
Lemma plan_services :
  Forall2 (planned_for nodeOf (cross_needed nodeOf services) s) services (dl_services plan).
Proof.
  refine (Forall2_trans _ _ _ _ _ _ _ (pd_planned _ _ _ _ HP) (pd_services _ _ _ _ HP)).
  intros sp p q [? ? ? ? Hh ?] (E1 & E2 & E3 & E4 & E5). split; rewrite ?E1, ?E2, ?E3, ?E4, ?E5; auto.
Qed.

Lemma planned_names : pl_name <$> planned = ss_name <$> services.
Proof.
  apply same_names. eapply Forall2_impl; [exact (pd_planned _ _ _ _ HP)|]. intros ?? H. apply H.
Qed.

Lemma plan_names : pl_name <$> dl_services plan = ss_name <$> services.
Proof. apply same_names. eapply Forall2_impl; [exact plan_services|]. intros ?? H. apply H. Qed.

Lemma NoDup_planned : NoDup (pl_name <$> planned).
Proof. by rewrite planned_names. Qed.

(** A planned service and the one of the plan with its name. *)
Lemma plan_service_of p : p ∈ planned → ∃ q, q ∈ dl_services plan ∧ same_placement p q.
Proof. intros Hp. destruct (forall2_in_l _ _ _ _ (pd_services _ _ _ _ HP) Hp) as (q & ? & ?). eauto. Qed.

Lemma planned_of q : q ∈ dl_services plan → ∃ p, p ∈ planned ∧ same_placement p q.
Proof. intros Hq. destruct (forall2_in_r _ _ _ _ (pd_services _ _ _ _ HP) Hq) as (p & ? & ?). eauto. Qed.

Lemma plan_held p port :
  p ∈ dl_services plan → pl_port p = Some port → holds s (pl_nodeId p) (port_key app (pl_name p)) port.
Proof. intros Hp. destruct (forall2_in_r _ _ _ _ plan_services Hp) as (sp & _ & H). apply H. Qed.

(** A service another Node's service needs is known to be needed across Nodes. *)
Lemma cross_node p sp dep :
  p ∈ planned → spec_of input !! pl_name p = Some sp → pl_name dep ∈ ss_needs sp → dep ∈ planned →
  pl_nodeId dep ≠ pl_nodeId p → pl_name dep ∈ cross_needed nodeOf services.
Proof.
  intros Hp Hsp Hneed Hdep Hne. apply elem_of_cross_needed. exists sp.
  unfold spec_of in Hsp. apply by_name_elem in Hsp as [Hin En]; [|done]. split; [done|]. split; [done|].
  destruct (forall2_in_r _ _ _ _ (pd_planned _ _ _ _ HP) Hp) as (sp1 & Hsp1 & Hf1).
  destruct (forall2_in_r _ _ _ _ (pd_planned _ _ _ _ HP) Hdep) as (sp2 & Hsp2 & Hf2).
  pose proof (pf_node _ _ _ _ _ Hf1) as E1. pose proof (pf_node _ _ _ _ _ Hf2) as E2.
  rewrite En, (pf_name _ _ _ _ _ Hf1), (pf_name _ _ _ _ _ Hf2). intros E. rewrite E in E1. congruence.
Qed.

Lemma link_facts l :
  l ∈ dl_links plan →
  lk_need l ∈ cross_needed nodeOf services ∧
  ∃ dep, dep ∈ dl_services plan ∧ pl_name dep = lk_need l ∧ pl_nodeId dep = lk_providerNodeId l ∧
    pl_port dep = Some (lk_providerPort l) ∧ lk_consumerNodeId l ≠ lk_providerNodeId l.
Proof.
  intros Hl. destruct (ls_each _ _ _ (pd_links _ _ _ _ HP) l Hl) as [(dep & Hdep & En & Ep & Hne) Hheld (p & sp & Hp & Epn & Hsp & Hneed) _].
  apply by_name_elem in Hdep as [Hdep Ename]; [|apply NoDup_planned].
  assert (lk_need l ∈ cross_needed nodeOf services) as Hcross.
  { rewrite <- Ename in Hneed |- *. eapply cross_node; [exact Hp|done..|]. congruence. }
  split; [done|]. destruct (plan_service_of dep Hdep) as (q & Hq & E1 & E2 & E3 & E4 & E5).
  exists q. rewrite E1, E5, E3. split_and!; [done|done|congruence| |congruence].
  destruct (forall2_in_r _ _ _ _ (pd_planned _ _ _ _ HP) Hdep) as (dsp & _ & Hf).
  destruct (pf_port _ _ _ _ _ Hf) as [port Hport]; [right; rewrite <- (pf_name _ _ _ _ _ Hf); congruence|].
  rewrite Ep, Hport. done.
Qed.
End facts.

(** C10: a plan is consistent.  For any allocator that records every port it hands out under one key
    of a Node, a plan has exactly the services of the spec, each on the Node its placement, its own
    [node:] or the default names; a routed service has a host port; no two services of a Node share
    a host port; a link leads from the Node and port of the service it is for to a port of the
    consuming Node that no service and no other link of the plan has there; and every dependency on
    another Node has its link on the Node of the service that needs it. *)
Theorem planDeploy_sound s plan s' :
  ok s → NoDup (ss_name <$> services) → planDeploy allocate input s = Done (PlanOk plan, s') →
  Forall2 (λ sp p, pl_name p = ss_name sp ∧ pl_image p = planned_image input sp ∧
    node_for input sp = Some (pl_nodeId p) ∧ (truthy (ss_route sp) = true → is_Some (pl_port p)))
    services (dl_services plan) ∧
  (∀ p q port, p ∈ dl_services plan → q ∈ dl_services plan → pl_nodeId p = pl_nodeId q →
    pl_port p = Some port → pl_port q = Some port → pl_name p = pl_name q) ∧
  (∀ l, l ∈ dl_links plan →
    (∃ dep, dep ∈ dl_services plan ∧ pl_name dep = lk_need l ∧ pl_nodeId dep = lk_providerNodeId l ∧
       pl_port dep = Some (lk_providerPort l) ∧ lk_consumerNodeId l ≠ lk_providerNodeId l) ∧
    (∀ p, p ∈ dl_services plan → pl_nodeId p = lk_consumerNodeId l → pl_port p ≠ Some (lk_localPort l)) ∧
    ∀ l', l' ∈ dl_links plan → lk_consumerNodeId l' = lk_consumerNodeId l → lk_localPort l' = lk_localPort l →
      lk_need l' = lk_need l) ∧
  (∀ sp p need dep, sp ∈ services → p ∈ dl_services plan → pl_name p = ss_name sp → need ∈ ss_needs sp →
    dep ∈ dl_services plan → pl_name dep = need → pl_nodeId dep ≠ pl_nodeId p →
    ∃ l, l ∈ dl_links plan ∧ lk_need l = need ∧ lk_consumerNodeId l = pl_nodeId p).
Proof.
  intros Hok Hnd H. apply planDeploy_run in H as (nodeOf & planned & HP); [|done].
  pose proof (pd_ok _ _ _ _ HP) as Hok'. split; [|split; [|split]].
  - eapply forall2_weaken_in; [apply (plan_services _ _ _ _ HP)|]. intros sp p Hsp [En _ Ei Eid _ Hport]. split_and!; try done; [|auto].
    destruct (place_services_ok _ _ _ _ Hnd (pd_nodes _ _ _ _ HP)) as [Hin _]. destruct (Hin sp Hsp) as (id & Hid & Hlk).
    by rewrite Hid, Eid, Hlk.
  - intros p q port Hp Hq En Epp Epq. apply (plan_held _ _ _ _ HP) in Epp, Epq; [|done..]. rewrite En in Epp.
    eapply port_key_inj, (pal_port s'); eauto.
  - intros l Hl. destruct (link_facts _ _ _ _ Hnd HP l Hl) as [Hcross Hdep]. split; [done|].
    pose proof (lo_held _ _ _ (ls_each _ _ _ (pd_links _ _ _ _ HP) l Hl)) as Hheld. split.
    + intros p Hp En Ep. apply (plan_held _ _ _ _ HP) in Ep as Hh; [|done]. rewrite En in Hh.
      pose proof (pal_port s' _ _ _ _ Hok' Hh Hheld) as E%port_link_key.
      apply (pd_reserved _ _ _ _ HP _ Hcross). rewrite <- E, <- (plan_names _ _ _ _ HP). by apply list_elem_of_fmap_2.
    + intros l' Hl' En Elp. pose proof (lo_held _ _ _ (ls_each _ _ _ (pd_links _ _ _ _ HP) l' Hl')) as Hheld'.
      rewrite En, Elp in Hheld'. by apply (pal_port s' _ _ _ _ Hok' Hheld'), link_key_inj in Hheld.
  - intros sp p need dep Hsp Hp En Hneed Hdep <- Hne.
    destruct (planned_of _ _ _ _ HP p Hp) as (p0 & Hp0 & E1 & _ & _ & _ & E5).
    destruct (planned_of _ _ _ _ HP dep Hdep) as (d0 & Hd0 & F1 & _ & _ & _ & F5).
    destruct (pd_linked _ _ _ _ HP p0 Hp0) as (sp0 & Hsp0 & Hlinked).
    assert (sp0 = sp) as ->.
    { assert (spec_of input !! pl_name p0 = Some sp) as Hs by (apply by_name_elem; [done|]; split; congruence). congruence. }
    assert (by_name planned !! pl_name dep = Some d0) as Hbn
      by (apply by_name_elem; [by eapply NoDup_planned|split; congruence]).
    pose proof (Hlinked _ Hneed d0 Hbn ltac:(congruence)) as Hin.
    apply list_elem_of_fmap in Hin as (l & [= E2 E3] & Hl). exists l. split_and!; congruence.
Qed.
End planning.

(** ** A concrete plan: a web service on the default Node that needs a database on another. *)

Definition shop_spec : app_spec := AppSpec "shop"
  [SpecService "web" (Some ".") None (Some 3000) (Some "shop") ∅ [] None ["db"];
   SpecService "db" None (Some "postgres:16") (Some 5432) None ∅ ["data:/var/lib"] (Some "big-box") []].

Definition shop_input : plan_input :=
  PlanInput shop_spec 0%nat (λ n, if n === "big-box" then Some 1%nat else None) ∅ ∅ "127.0.0.1:61050" (Some "abcdef0123456789").

Definition shop_web : planned_service :=
  PlannedService "web" "127.0.0.1:61050/shop-web:abcdef012345"
    ["-p"; "127.0.0.1:62000:3000"; "--add-host=host.docker.internal:host-gateway"] (Some 62000) (Some "shop") 0%nat
    (list_to_map [("PORT", "3000"); ("DB_HOST", "host.docker.internal"); ("DB_PORT", "62001")]).

Definition shop_db : planned_service :=
  PlannedService "db" "postgres:16" ["-p"; "127.0.0.1:62000:5432"; "-v"; "shop-data:/var/lib"] (Some 62000) None 1%nat
    (list_to_map [("PORT", "5432")]).

Definition shop_plan : deploy_plan := DeployPlan 0%nat [shop_web; shop_db]
  [AppLink "shop-db" "db" 1%nat 62000 0%nat 62001]
  [PlannedBuild "web" "" "127.0.0.1:61050/shop-web:abcdef012345"].

Lemma planDeploy_sound_witness :
  planDeploy (λ n k, allocatePort n k 10) shop_input infra_empty =
    Done (PlanOk shop_plan, commit (planDeploy (λ n k, allocatePort n k 10) shop_input) infra_empty) ∧
  ∃ l, l ∈ dl_links shop_plan ∧ lk_need l = "db" ∧ lk_consumerNodeId l = 0%nat.
Proof.
  assert (planDeploy (λ n k, allocatePort n k 10) shop_input infra_empty =
    Done (PlanOk shop_plan, commit (planDeploy (λ n k, allocatePort n k 10) shop_input) infra_empty)) as Hrun
    by (vm_compute; reflexivity).
  split; [exact Hrun|].
  assert (NoDup (ss_name <$> sp_services (in_spec shop_input))) as Hnd.
  { apply (bool_decide_eq_true (NoDup _)). vm_compute. reflexivity. }
  destruct (planDeploy_sound (λ n k, allocatePort n k 10) ports_ok holds_port shop_input _ _ _
    infra_empty_ports_ok Hnd Hrun) as (_ & _ & _ & Hlinks).
  apply (Hlinks (SpecService "web" (Some ".") None (Some 3000) (Some "shop") ∅ [] None ["db"]) shop_web "db" shop_db);
    [left|left|reflexivity|left|right; left|reflexivity|discriminate].
Defined.
