(* ===== verification/Nodes.v ===== *)
(** Nodes and their credentials (packages/backend/convex/infra/nodes.ts), and the permission check of
    a signed-in person (infra/access.ts).

    The hash of a credential (SHA-256, apiTokenPolicy.ts) and the random bytes of a new one are
    arguments. *)

From S2P Require Import Prelude JsLib Schema AppPolicy InfraSchema InfraStore.

(** ** access.ts *)

Definition permission_text (p : permission) : string :=
  match p with
  | AppRead => "app.read" | AppDeploy => "app.deploy" | NodeRun => "node.run" | NodeAdmin => "node.admin"
  | AuditRead => "audit.read" | AccountAdmin => "account.admin" | ChatRead => "chat.read"
  | ChatWrite => "chat.write"
  end.

(** The signed-in user, if any: its id and the role of its row. *)
Abbreviation session := (option (Id * option permission_role)) (only parsing).

(** The user and the actor of its audit rows. *)
Definition requirePermission (user : session) (p : permission) : tx infra (Id * string) :=
  match user with
  | None => throw "Authentication required"
  | Some (userId, stored) =>
      let role := effectiveRole stored in
      if can (PUser userId role) p then mret (userId, id_text userId)
      else throw ("The " +:+ role_name role +:+ " role does not allow " +:+ permission_text p)
  end.

(** ** nodes.ts *)

Definition HINT_LENGTH : nat := (String.length NODE_CREDENTIAL_PREFIX + 8)%nat.

Definition nodeByName (name : string) : tx infra (option (Id * node_doc)) :=
  db_unique nodes (λ n, nd_name n === name).

Definition new_node (name : string) (source : node_source) (createdAt : Z) : node_doc :=
  NodeDoc name createdAt source None None None None None None None None None None None None None None.

Definition ensureNode (name : string) (source : node_source) (createdAt : Z) : tx infra Id :=
  existing ← nodeByName name;
  match existing with
  | Some (id, _) => mret id
  | None => db_insert nodes (new_node name source createdAt)
  end.

(** Whether any unrevoked credential is bound to the Node. *)
Definition hasLiveCredential (nodeId : Id) : tx infra bool :=
  live ← db_first nodeCredentials (λ c, (nc_nodeId c === nodeId) && is_none (nc_revokedAt c));
  mret (is_some live).

Definition clearEndpoint (nodeId : Id) : tx infra unit :=
  db_patch nodes nodeId (λ n, n <| nd_endpointId := None |> <| nd_endpointAddr := None |>
    <| nd_endpointUpdatedAt := None |> <| nd_meshAddress := None |> <| nd_endpointProvenAt := None |>) ≫= λ _,
  pending ← db_where nodeEndpointChallenges (λ c, ec_nodeId c === nodeId);
  for_each (take 16 pending) (λ r : Id * endpoint_challenge, db_delete nodeEndpointChallenges r.1).

Definition revokeNodeCredential (credentialId : Id) (actor : string) (now : Z) : tx infra bool :=
  credential ← db_get nodeCredentials credentialId;
  match credential with
  | None => throw "No such credential"
  | Some c =>
      if is_some (nc_revokedAt c) then mret false
      else
        db_patch nodeCredentials credentialId (λ d, d <| nc_revokedAt := Some now |>) ≫= λ _,
        appendAudit (entry actor "nodes.revokeCredential" (nc_hint c) AudSuccess None) now ≫= λ _,
        node ← db_get nodes (nc_nodeId c);
        match node with
        | None => mret true
        | Some n =>
            live ← hasLiveCredential (nc_nodeId c);
            (if live : bool then mret tt
             else
               clearEndpoint (nc_nodeId c) ≫= λ _,
               match nd_endpointId n with
               | None => mret tt
               | Some endpointId =>
                   appendAudit (entry actor "nodes.resetEndpoint" (nd_name n) AudSuccess
                     (Some (json_object [("endpointId", json_string endpointId);
                                         ("reason", json_string "last credential revoked")]))) now ≫= λ _,
                   mret tt
               end) ≫= λ _,
            mret true
        end
  end.

Definition revokeCredential (user : session) (credentialId : Id) (now : Z) : tx infra unit :=
  who ← requirePermission user NodeAdmin;
  revokeNodeCredential credentialId who.2 now ≫= λ _, mret tt.

Definition resetNodeEndpoint (nodeId : Id) (actor : string) (now : Z) : tx infra unit :=
  node ← db_get nodes nodeId;
  match node with
  | None => throw "No such Node"
  | Some n =>
      clearEndpoint nodeId ≫= λ _,
      appendAudit (entry actor "nodes.resetEndpoint" (nd_name n) AudSuccess
        ((λ e, json_object [("endpointId", json_string e)]) <$> nd_endpointId n)) now ≫= λ _,
      mret tt
  end.

Definition resetEndpoint (user : session) (nodeId : Id) (now : Z) : tx infra unit :=
  who ← requirePermission user NodeAdmin; resetNodeEndpoint nodeId who.2 now.

Definition placement_role_name (r : placement_role) : string :=
  match r with
  | RoleGateway => "gateway" | RoleCompute => "compute" | RoleDatabase => "database" | RoleRelay => "relay"
  end.

Definition roles_json (roles : list placement_role) : string :=
  json_array (json_string ∘ placement_role_name <$> roles).

Definition setNodePlacementRoles (nodeId : Id) (roles : list placement_role) (actor : string) (now : Z)
    : tx infra (list placement_role) :=
  node ← db_get nodes nodeId;
  match node with
  | None => throw "No such Node"
  | Some n =>
      let sorted := to_sorted (λ a b, str_cmp (placement_role_name a) (placement_role_name b)) (set_of roles) in
      db_patch nodes nodeId (λ d, d <| nd_placementRoles := Some sorted |>) ≫= λ _,
      appendAudit (entry actor "nodes.setPlacementRoles" (nd_name n) AudSuccess
        (Some (json_object [("from", roles_json (or_else [] (nd_placementRoles n))); ("to", roles_json sorted)]))) now ≫= λ _,
      mret sorted
  end.

Definition setPlacementRoles (user : session) (nodeId : Id) (roles : list placement_role) (now : Z) : tx infra unit :=
  who ← requirePermission user NodeAdmin;
  setNodePlacementRoles nodeId roles who.2 now ≫= λ _, mret tt.

Definition registerEndpoint (nodeId : Id) (endpointId : string) (addr : endpoint_addr) (now : Z) : tx infra unit :=
  if negb (isEndpointId endpointId) then throw "Not an iroh EndpointId"
  else
    node ← db_get nodes nodeId;
    match node with
    | None => throw "No such Node"
    | Some n =>
        if is_some (nd_endpointId n) && (nd_endpointId n !== Some endpointId) then
          throw (nd_name n +:+ " is registered as " +:+ or_else "" (nd_endpointId n) +:+
            "; an operator must reset it before it can register another key")
        else
          other ← db_first nodes (λ d, nd_endpointId d === Some endpointId);
          match other with
          | Some (otherId, o) =>
              if otherId === nodeId then mret tt
              else throw ("EndpointId " +:+ endpointId +:+ " already belongs to " +:+ nd_name o)
          | None => mret tt
          end ≫= λ _,
          db_patch nodes nodeId (λ d, d <| nd_endpointId := Some endpointId |>
            <| nd_endpointAddr := Some addr |> <| nd_endpointUpdatedAt := Some now |>) ≫= λ _,
          if is_none (nd_endpointId n) then
            appendAudit (entry ("node:" +:+ id_text nodeId) "nodes.registerEndpoint" (nd_name n) AudSuccess
              (Some (json_object [("endpointId", json_string endpointId)]))) now ≫= λ _, mret tt
          else mret tt
    end.

Section credentials.
Context (hashApiToken : string → string).

Definition issueCredential (nodeId : Id) (createdBy : option Id) (bytes : list nat) (now : Z) : tx infra string :=
  let token := newNodeCredential bytes in
  db_insert nodeCredentials (NodeCredential nodeId (hashApiToken token) (slice0 HINT_LENGTH token)
    createdBy now None None) ≫= λ _,
  mret token.

Definition enrollNode (name actor : string) (createdBy : option Id) (bytes : list nat) (now : Z) : tx infra (Id * string) :=
  let name := trim name in
  if negb (isValidName name) then throw "Name the Node with letters, digits, dots, dashes or underscores"
  else
    nodeId ← ensureNode name SourceEnrolled now;
    credential ← issueCredential nodeId createdBy bytes now;
    appendAudit (entry actor "nodes.enroll" name AudSuccess None) now ≫= λ _,
    mret (nodeId, credential).

Definition enroll (user : session) (name : string) (bytes : list nat) (now : Z) : tx infra (Id * string) :=
  who ← requirePermission user NodeAdmin; enrollNode name who.2 (Some who.1) bytes now.

(** The Node a credential belongs to and the credential's row. *)
Definition authenticateNode (credential : string) : tx infra (option (Id * Id)) :=
  if negb (isWellFormedNodeCredential credential) then mret None
  else
    row ← db_unique nodeCredentials (λ c, nc_tokenHash c === hashApiToken credential);
    mret (match row with
          | Some (id, c) => if is_some (nc_revokedAt c) then None else Some (nc_nodeId c, id)
          | None => None
          end).

Definition requireNode (credential : string) : tx infra (Id * Id) :=
  principal ← authenticateNode credential;
  match principal with
  | None => throw "Unauthorized Node credential"
  | Some p => mret p
  end.
End credentials.
