(* ===== verification/DockerArgs.v ===== *)
(** The Docker arguments a service may carry (packages/backend/convex/infra/dockerArgs.ts). *)

From S2P Require Import Prelude JsLib Schema Egress AppPolicy.

(** [new TextEncoder().encode(s).byteLength] of a Latin-1 string *)
Definition byte_length (s : string) : Z :=
  zsum (λ c, if ch c <? 128 then 1 else 2) (String.list_ascii_of_string s).

(** [value.includes(part)] *)
Definition includes (part s : string) : bool := is_some (String.index 0 part s).

(** [/[\u0000-\u0008\u000A-\u001F\u007F]/] *)
Definition is_control (c : ascii) : bool := let n := ch c in ((n <? 32) && negb (n =? 9)) || (n =? 127).
Definition CONTROL (s : string) : bool := existsb is_control (String.list_ascii_of_string s).

(** [/^[A-Za-z0-9][A-Za-z0-9_.-]{0,127}$/] *)
Definition VOLUME_NAME (s : string) : bool :=
  match String.list_ascii_of_string s with
  | [] => false
  | c :: l =>
      (is_alpha c || is_digit c) &&
      forallb (λ c, is_alpha c || is_digit c || Ascii.eqb c "_" || Ascii.eqb c "." || Ascii.eqb c "-") l &&
      Nat.leb (length l) 127
  end.

(** [/^[0-9]+$/] *)
Definition PORT_DIGITS (s : string) : bool := str_all is_digit s && negb (Nat.eqb (String.length s) 0).

Definition in_quotes (s : string) : string := String quote_char (s +:+ String quote_char "").

(** [raw.lastIndexOf("/")]: the text before and after the last slash. *)
Definition last_slash (raw : string) : option (string * string) :=
  match reverse (str_split "/" raw) with
  | proto :: p :: parts => Some (str_join "/" (reverse (p :: parts)), proto)
  | _ => None
  end.

Definition validatePort (raw : string) (allowProto : bool) : option string :=
  let invalid := Some ("invalid port " +:+ in_quotes raw) in
  let check digits :=
    if negb (PORT_DIGITS digits) then invalid
    else if (digits_value digits <? 1) || (65535 <? digits_value digits) then invalid else None in
  match last_slash raw with
  | None => check raw
  | Some (digits, proto) =>
      if negb allowProto then invalid
      else if (proto !== "tcp") && (proto !== "udp") then invalid
      else check digits
  end.

Definition validatePublish (value : string) : option string :=
  match str_split ":" value with
  | [hostPort; containerPort] => or_opt (validatePort hostPort false) (validatePort containerPort true)
  | [address; hostPort; containerPort] =>
      if address !== "127.0.0.1" then Some "explicit publish address must be 127.0.0.1"
      else or_opt (validatePort hostPort false) (validatePort containerPort true)
  | _ => Some "publish must be hostPort:containerPort or 127.0.0.1:hostPort:containerPort"
  end.

Definition validateVolumeTarget (target : string) : option string :=
  if negb (starts_with "/" target) then Some "container mount target must be an absolute path"
  else
    let segments := str_split "/" target in
    if bool_decide (".." ∈ segments)
    then Some ("container mount target may not contain a " +:+ in_quotes ".." +:+ " segment")
    else if forallb (λ s, (s === "") || (s === ".")) segments then Some "the container root is not a mount target"
    else None.

Definition validateVolume (value : string) : option string :=
  if includes "docker.sock" (to_lower value) then Some "container-runtime sockets are not mountable"
  else
    match str_split ":" value with
    | [name; target] =>
        if VOLUME_NAME name then validateVolumeTarget target else Some "only named-volume mounts are allowed"
    | [name; target; option_] =>
        if VOLUME_NAME name then
          or_opt (validateVolumeTarget target)
            (if option_ !== "ro" then Some "only the read-only volume option is allowed" else None)
        else Some "only named-volume mounts are allowed"
    | _ => Some "only named-volume mounts are allowed"
    end.

Definition validateEnv (value : string) : option string :=
  match String.index 0 "=" value with
  | Some (S n) => if isValidSecretName (slice0 (S n) value) then None else Some "environment values must be KEY=value"
  | _ => Some "environment values must be KEY=value"
  end.

Inductive arg_kind := KPublish | KVolume | KEnv | KAddHost.
#[export] Instance arg_kind_eq_dec : EqDecision arg_kind.
Proof. solve_decision. Defined.

Definition combined_flags : list (string * arg_kind) :=
  [("-p=", KPublish); ("--publish=", KPublish); ("-v=", KVolume); ("--volume=", KVolume);
   ("-e=", KEnv); ("--env=", KEnv); ("--add-host=", KAddHost)].

(** The kind of a flag, and the value an [=]-joined one carries. *)
Definition flag_kind (flag : string) : option (arg_kind * option string) :=
  if (flag === "-p") || (flag === "--publish") then Some (KPublish, None)
  else if (flag === "-v") || (flag === "--volume") then Some (KVolume, None)
  else if (flag === "-e") || (flag === "--env") then Some (KEnv, None)
  else if flag === "--add-host" then Some (KAddHost, None)
  else
    match head (filter (λ f : string * arg_kind, starts_with f.1 flag = true) combined_flags) with
    | Some (prefix, kind) => Some (kind, Some (slice_from (String.length prefix) flag))
    | None => None
    end.

Definition value_error (kind : arg_kind) (value : string) : option string :=
  match kind with
  | KPublish => validatePublish value
  | KVolume => validateVolume value
  | KEnv => validateEnv value
  | KAddHost =>
      if value === "host.docker.internal:host-gateway" then None
      else Some "only the Portless mesh host-gateway entry is allowed"
  end.

Definition check_value (flag : string) (kind : arg_kind) (value : string) : option string :=
  if CONTROL value then Some ("docker args: " +:+ flag +:+ ": invalid value")
  else (λ e, "docker args: " +:+ flag +:+ ": " +:+ e) <$> value_error kind value.

(** The loop: a flag takes the next token only when it carries no value itself. *)
Fixpoint check_args (args : list string) : option string :=
  match args with
  | [] => None
  | flag :: rest =>
      if Nat.eqb (String.length flag) 0 || (512 <? byte_length flag) || CONTROL flag
      then Some "docker args: invalid token"
      else match flag_kind flag with
      | None => Some ("docker args: flag " +:+ in_quotes flag +:+ " is not allowed")
      | Some (kind, Some value) => or_opt (check_value flag kind value) (check_args rest)
      | Some (kind, None) =>
          match rest with
          | [] => Some ("docker args: " +:+ flag +:+ " requires a value")
          | value :: rest => or_opt (check_value flag kind value) (check_args rest)
          end
      end
  end.

Definition validateDockerArgs (args : list string) : option string :=
  if Nat.ltb 64 (length args) then Some "docker args: at most 64 tokens" else check_args args.
