(* ===== verification/AppSpecs.v ===== *)
(** The App spec (packages/backend/convex/infra/spec.ts): parsing, validation and normalisation of
    the YAML document.  The YAML parser is a library; it is the parameter [parseYaml], which returns
    the document or the message of the error it throws.  The document is a [json] value: an object is
    the list of its fields in the order [Object.keys] gives, each name once. *)

From S2P Require Import Prelude JsLib Schema HostLabels Egress AppPolicy InfraSchema DockerArgs.

(** [/^[a-z0-9][a-z0-9-]{0,62}$/] *)
Definition LABEL (s : string) : bool :=
  match String.list_ascii_of_string s with
  | [] => false
  | c :: l => label_head c && forallb (λ c, label_head c || Ascii.eqb c "-") l && Nat.leb (length l) 62
  end.

(** [/^[a-z0-9]([a-z0-9-]{0,61}[a-z0-9])?$/] (ingress.ts) *)
Definition isRouteLabel (s : string) : bool :=
  LABEL s && match last (String.list_ascii_of_string s) with Some c => label_head c | None => false end.

(** [/^[a-z0-9][a-z0-9-]{0,62}:\/[^\s:]+$/] *)
Definition VOLUME (s : string) : bool :=
  match str_split ":" s with
  | [name; target] =>
      LABEL name && starts_with "/" target && Nat.ltb 1 (String.length target) && str_all (negb ∘ is_space) target
  | _ => false
  end.

Definition SERVICE_KEYS : list string :=
  ["build"; "image"; "port"; "route"; "env"; "volumes"; "node"; "needs"].

Definition MAX_SPEC_BYTES : Z := 64 * 1024.

Definition spec_fail (path message : string) : string :=
  "portless.yaml: " +:+ (if Nat.eqb (String.length path) 0 then "(root)" else path) +:+ ": " +:+ message.

Inductive raw_route := RouteFlag (b : bool) | RouteLabel (label : string).

Record raw_service := RawService {
  rw_build : option string;
  rw_image : option string;
  rw_port : option Z;
  rw_route : option raw_route;
  rw_env : option (gmap string string);
  rw_volumes : option (list string);
  rw_node : option string;
  rw_needs : option (list string);
}.

(** A check that fails with the message of the first error. *)
Abbreviation checked A := (A + string)%type.
Definition chk_bind {A B} (m : checked A) (f : A → checked B) : checked B :=
  match m with inl a => f a | inr e => inr e end.
Notation "'let!' x := m 'in' f" := (chk_bind m (λ x, f)) (at level 10, x name, m at level 100, f at level 200) : doc_scope.

Definition check_string (at_ message : string) (lo hi : nat) (v : option json) : checked (option string) :=
  match v with
  | None => inl None
  | Some (JStr s) =>
      if Nat.leb lo (String.length s) && Nat.leb (String.length s) hi then inl (Some s) else inr (spec_fail at_ message)
  | Some _ => inr (spec_fail at_ message)
  end.

Definition check_port (at_ : string) (v : option json) : checked (option Z) :=
  let refused := inr (spec_fail at_ "expected an integer from 1 to 65535") in
  match v with
  | None => inl None
  | Some (JNum n) =>
      match num_integer n with
      | Some z => if (z <? 1) || (65535 <? z) then refused else inl (Some z)
      | None => refused
      end
  | Some _ => refused
  end.

Definition check_route (at_ : string) (v : option json) : checked (option raw_route) :=
  match v with
  | None => inl None
  | Some (JBool b) => inl (Some (RouteFlag b))
  | Some (JStr s) =>
      if LABEL s then inl (Some (RouteLabel s)) else inr (spec_fail at_ "lowercase alphanumeric + dashes")
  | Some _ => inr (spec_fail at_ "lowercase alphanumeric + dashes")
  end.

Fixpoint check_env_fields (at_ : string) (fields : list (string * json)) (env : gmap string string)
    : checked (gmap string string) :=
  match fields with
  | [] => inl env
  | (key, v) :: fields =>
      if negb (isValidSecretName key) then inr (spec_fail (at_ +:+ "." +:+ key) "a valid env var name")
      else match v with
      | JStr s =>
          if Z.of_nat (String.length s) <=? 32768 then check_env_fields at_ fields (<[key := s]> env)
          else inr (spec_fail (at_ +:+ "." +:+ key) "expected a string of at most 32768 characters")
      | _ => inr (spec_fail (at_ +:+ "." +:+ key) "expected a string of at most 32768 characters")
      end
  end.

Definition check_env (at_ : string) (v : option json) : checked (option (gmap string string)) :=
  match v with
  | None => inl None
  | Some (JObj fields) => let! env := check_env_fields at_ fields ∅ in inl (Some env)
  | Some _ => inr (spec_fail at_ "expected an object")
  end.

(** The items of a list of strings, each checked by [P]; [i] is the index of the first. *)
Fixpoint check_items (at_ message : string) (P : string → bool) (i : Z) (items : list json) : checked (list string) :=
  match items with
  | [] => inl []
  | JStr s :: items =>
      if P s then let! rest := check_items at_ message P (i + 1) items in inl (s :: rest)
      else inr (spec_fail (at_ +:+ "." +:+ pretty i) message)
  | _ :: _ => inr (spec_fail (at_ +:+ "." +:+ pretty i) message)
  end.

Definition check_list (at_ many message : string) (P : string → bool) (v : option json) : checked (option (list string)) :=
  match v with
  | None => inl None
  | Some (JArr items) =>
      if Nat.ltb 16 (length items) then inr (spec_fail at_ many)
      else let! l := check_items at_ message P 0 items in inl (Some l)
  | Some _ => inr (spec_fail at_ many)
  end.

Definition volume_message : string :=
  "volumes are " +:+ in_quotes "name:/container/path" +:+ " (named volumes only)".

Definition checkService (name : string) (value : json) : checked raw_service :=
  let at_ := "services." +:+ name in
  if negb (LABEL name) then inr (spec_fail at_ "lowercase alphanumeric + dashes")
  else match value with
  | JObj fields =>
      match head (filter (λ key, key ∉ SERVICE_KEYS) fields.*1) with
      | Some key => inr (spec_fail at_ ("Unrecognized key: " +:+ in_quotes key))
      | None =>
          let! build := check_string (at_ +:+ ".build") "expected a string of at most 255 characters" 0 255 (json_field "build" fields) in
          let! image := check_string (at_ +:+ ".image") "expected a string of 1 to 512 characters" 1 512 (json_field "image" fields) in
          let! port := check_port (at_ +:+ ".port") (json_field "port" fields) in
          let! route := check_route (at_ +:+ ".route") (json_field "route" fields) in
          let! env := check_env (at_ +:+ ".env") (json_field "env" fields) in
          let! volumes := check_list (at_ +:+ ".volumes") "expected at most 16 volumes" volume_message VOLUME (json_field "volumes" fields) in
          let! node := check_string (at_ +:+ ".node") "expected a string of 1 to 128 characters" 1 128 (json_field "node" fields) in
          let! needs := check_list (at_ +:+ ".needs") "expected at most 16 dependencies" "lowercase alphanumeric + dashes" LABEL (json_field "needs" fields) in
          inl (RawService build image port route env volumes node needs)
      end
  | _ => inr (spec_fail at_ "expected an object")
  end.

Fixpoint check_services (fields : list (string * json)) : checked (list (string * raw_service)) :=
  match fields with
  | [] => inl []
  | (name, value) :: fields =>
      let! raw := checkService name value in
      let! rest := check_services fields in
      inl ((name, raw) :: rest)
  end.

Definition non_empty (s : option string) : bool :=
  match s with Some s => negb (Nat.eqb (String.length s) 0) | None => false end.
Definition routed (r : raw_service) : bool :=
  match rw_route r with Some (RouteFlag b) => b | Some (RouteLabel s) => non_empty (Some s) | None => false end.

Definition routeLabelError (service route : string) (derived : bool) : string :=
  let rule := "a route label is a DNS label: at most 63 characters, lowercase letters, digits and dashes, starting and ending with a letter or digit" in
  if negb derived then "service " +:+ in_quotes service +:+ ": route " +:+ in_quotes route +:+ " is not served: " +:+ rule
  else "service " +:+ in_quotes service +:+ ": route: true gives the label " +:+ in_quotes route +:+ " (" +:+
    pretty (Z.of_nat (String.length route)) +:+ " characters), which is not served: " +:+ rule +:+
    ". Name the label explicitly (route: <label>)".

(** The dependencies of one service: known, another one, and with a port. *)
Fixpoint check_needs (raws : list (string * raw_service)) (name : string) (needs : list string) : checked unit :=
  match needs with
  | [] => inl tt
  | need :: needs =>
      match head (filter (λ r : string * raw_service, r.1 = need) raws) with
      | None => inr ("service " +:+ in_quotes name +:+ ": needs unknown service " +:+ in_quotes need)
      | Some (_, dep) =>
          if need === name then inr ("service " +:+ in_quotes name +:+ ": cannot need itself")
          else match rw_port dep with
          | None => inr ("service " +:+ in_quotes need +:+ ": needs a port (it is a dependency of " +:+ in_quotes name +:+ ")")
          | Some _ => check_needs raws name needs
          end
      end
  end.

(** [route: true] is the App name when it is the only routed service, else [app-service]. *)
Definition route_of (app : string) (routedCount : nat) (name : string) (r : raw_service) : option string :=
  match rw_route r with
  | Some (RouteFlag true) => Some (if Nat.eqb routedCount 1 then app else app +:+ "-" +:+ name)
  | Some (RouteLabel label) => Some label
  | _ => None
  end.

Definition check_label (name : string) (r : raw_service) (route : option string) : checked unit :=
  match route with
  | Some label =>
      if negb (isRouteLabel label) then
        inr (routeLabelError name label match rw_route r with Some (RouteFlag true) => true | _ => false end)
      else if is_none (rw_port r) then
        inr ("service " +:+ in_quotes name +:+ ": route requires port (what should the URL proxy to?)")
      else inl tt
  | None => inl tt
  end.

Definition normalize_service (app : string) (raws : list (string * raw_service)) (routedCount : nat)
    (nr : string * raw_service) : checked spec_service :=
  let '(name, r) := nr in
  if Bool.eqb (non_empty (rw_build r)) (non_empty (rw_image r)) then
    inr ("service " +:+ in_quotes name +:+ ": set exactly one of build / image")
  else if match rw_build r with
          | Some b => starts_with "/" b || bool_decide (".." ∈ str_split "/" b)
          | None => false
          end
  then inr ("service " +:+ in_quotes name +:+ ": build must be a relative dir inside the repo")
  else
    let route := route_of app routedCount name r in
    let! _ := check_label name r route in
    let! _ := check_needs raws name (or_else [] (rw_needs r)) in
    inl (SpecService name (rw_build r) (rw_image r) (rw_port r) route (or_else ∅ (rw_env r))
           (or_else [] (rw_volumes r)) (rw_node r) (or_else [] (rw_needs r))).

Fixpoint chk_map {A B} (f : A → checked B) (l : list A) : checked (list B) :=
  match l with
  | [] => inl []
  | x :: l => let! y := f x in let! ys := chk_map f l in inl (y :: ys)
  end.

Definition parse_services (app : string) (fields : list (string * json)) : checked app_spec :=
  if Nat.eqb (length fields) 0 then inr "portless.yaml: define at least one service"
  else if Nat.ltb 20 (length fields) then inr "portless.yaml: at most 20 services"
  else
    let! raws := check_services fields in
    let routedCount := length (filter (λ r : string * raw_service, routed r.2 = true) raws) in
    let! services := chk_map (normalize_service app raws routedCount) raws in
    let routes := omap ss_route services in
    if Nat.eqb (length (set_of routes)) (length routes) then inl (AppSpec app services)
    else inr "route labels must be unique within the app".

Section parse.
Context (parseYaml : string → json + string).

Definition parseSpec (yamlText fallbackApp : string) : checked app_spec :=
  if MAX_SPEC_BYTES <? byte_length yamlText then
    inr ("portless.yaml is larger than " +:+ pretty MAX_SPEC_BYTES +:+ " bytes")
  else match parseYaml yamlText with
  | inr message => inr ("portless.yaml is not valid YAML: " +:+ message)
  | inl (JObj doc) =>
      match head (filter (λ key, key ≠ "app" ∧ key ≠ "services") doc.*1) with
      | Some key => inr (spec_fail "" ("Unrecognized key: " +:+ in_quotes key))
      | None =>
          let! app := match json_field "app" doc with
                      | None => inl fallbackApp
                      | Some (JStr app) =>
                          if LABEL app then inl app else inr (spec_fail "app" "lowercase alphanumeric + dashes")
                      | Some _ => inr (spec_fail "app" "lowercase alphanumeric + dashes")
                      end in
          match json_field "services" doc with
          | Some (JObj fields) =>
              if LABEL app then parse_services app fields
              else inr ("app name " +:+ in_quotes app +:+ " must be lowercase alphanumeric + dashes")
          | _ => inr (spec_fail "services" "expected an object")
          end
      end
  | inl _ => inr (spec_fail "" "expected an object")
  end.
End parse.

Definition implicitSpec (app : string) (port : Z) : app_spec :=
  AppSpec app [SpecService "web" (Some ".") None (Some port) (Some app) ∅ [] None []].
