(* ===== verification/NodeCommands.v ===== *)
(** Node commands (packages/backend/convex/infra/nodeCommandModel.ts, nodeCommands.ts, logOutput.ts):
    the queue through which the control plane makes a Node act.  A command is enqueued under an
    idempotency key, claimed by one owner at a time under an epoch and a lease, renewed, and settled
    by one report. *)

From S2P Require Import Prelude JsLib Schema HostLabels Egress AppPolicy InfraSchema InfraStore.
From S2P Require Import Nodes DockerArgs AppSpecs.

Definition COMMAND_TTL_MS : Z := 60000.

(** ** nodeCommandModel.ts: the allowlist of operations *)

Definition operation_args (name : string) : option (list string) :=
  snd <$> head (filter (λ o : string * list string, o.1 = name)
    [("systemctl.restart", ["unit"]); ("systemctl.start", ["unit"]); ("systemctl.stop", ["unit"]);
     ("systemctl.status", ["unit"]); ("service.logs", ["unit"; "lines"]); ("disk.usage", []);
     ("system.hostname", []); ("container.logs", ["name"; "lines"]); ("container.remove", ["name"]);
     ("container.network.remove", ["name"])]).

(** [/[;&|<>$`\n\r\\]/] *)
Definition shell_char (c : ascii) : bool :=
  bool_decide (c ∈ String.list_ascii_of_string ";&|<>$`") || bool_decide (nat_of_ascii c ∈ [10; 13; 92]%nat).

Definition arg_ok (allowed : list string) (key value : string) : bool :=
  bool_decide (key ∈ allowed) && negb (Nat.eqb (String.length value) 0) && Nat.leb (String.length value) 128 &&
  negb (existsb shell_char (String.list_ascii_of_string value)).

(** [/^(portless|erainfra)-[a-z0-9-]+(\.service)?$/] *)
Definition platform_unit (unit_ : string) : bool :=
  let rest := if starts_with "portless-" unit_ then Some (slice_from 9 unit_)
              else if starts_with "erainfra-" unit_ then Some (slice_from 9 unit_) else None in
  let word w := str_all (λ c, label_head c || Ascii.eqb c "-") w && negb (Nat.eqb (String.length w) 0) in
  match rest with
  | None => false
  | Some r => word r || (ends_with ".service" r && word (slice0 (String.length r - 8) r))
  end.

(** [/^[a-z0-9][a-z0-9-]{0,62}-net$/] *)
Definition network_name (s : string) : bool :=
  ends_with "-net" s && LABEL (slice0 (String.length s - 4) s).

(** [/^[a-z0-9][a-z0-9_.-]{0,126}$/] *)
Definition container_name (s : string) : bool :=
  match String.list_ascii_of_string s with
  | [] => false
  | c :: l => label_head c && forallb label_tail l && Nat.leb (length l) 126
  end.

Definition validateOperation (op : node_operation) : option string :=
  match operation_args (no_name op) with
  | None => Some "Operation is not allowlisted"
  | Some allowed =>
      let arg k := or_else "" (no_args op !! k) in
      if negb (forallb (λ kv, arg_ok allowed kv.1 kv.2) (map_to_list (no_args op))) then Some "Invalid operation argument"
      else if bool_decide ("unit" ∈ allowed) && negb (platform_unit (arg "unit")) then Some "Unit is not platform-owned"
      else if bool_decide ("name" ∈ allowed) &&
              negb (if no_name op === "container.network.remove" then network_name (arg "name")
                    else container_name (arg "name"))
      then Some "Invalid container/network name"
      else match no_args op !! "lines" with
      | None => None
      | Some lines =>
          let max := if no_name op === "service.logs" then 10000 else 1000 in
          if negb (PORT_DIGITS lines) || (digits_value lines <? 1) || (max <? digits_value lines)
          then Some "Invalid line count" else None
      end
  end.

(** ** nodeCommands.ts *)

(** [/^[A-Za-z0-9._:-]{1,192}$/] *)
Definition key_ok (key : string) : bool :=
  str_all (λ c, is_alpha c || is_digit c || Ascii.eqb c "." || Ascii.eqb c "_" || Ascii.eqb c ":" || Ascii.eqb c "-") key &&
  negb (Nat.eqb (String.length key) 0) && Nat.leb (String.length key) 192.

Definition keyOK (key : string) : tx infra unit :=
  if key_ok key then mret tt else throw "Invalid idempotency key/claim owner".

Definition leaseOperation (c : node_command) : lease_operation :=
  match c with CmdDeploy _ operation => or_else OpDeploy operation | _ => OpDeploy end.

Definition is_operate (c : node_command) : bool := match c with CmdOperate _ => true | _ => false end.
Definition is_logs (c : node_command) : bool := match c with CmdLogs _ => true | _ => false end.
Definition is_spec (c : node_command) : bool := match c with CmdSpec _ => true | _ => false end.

Definition appFence (row : node_command_row) (now : Z) : tx infra unit :=
  match nq_app row, nq_appEpoch row with
  | Some app, Some appEpoch =>
      lease ← assertAppLease app appEpoch now;
      if negb (is_operate (nq_command row)) && (al_operation lease.2 !== Some (leaseOperation (nq_command row)))
      then throw "App lease operation does not match command" else mret tt
  | _, _ => mret tt
  end.

(** The run a command belongs to, while it is live; [build] asks for its build Node. *)
Definition activeDeployment (deploymentId nodeId : Id) (operation : lease_operation) (build : bool) (now : Z)
    : tx infra app_deployment :=
  dep ← db_get appDeployments deploymentId;
  let inactive := throw "Deployment is not active on this Node" in
  match dep with
  | None => inactive
  | Some d =>
      match dp_leaseEpoch d with
      | Some epoch =>
          if (if build then dp_buildNodeId d !== Some nodeId else negb (bool_decide (nodeId ∈ dp_targetNodeIds d))) ||
             isTerminalStage (dp_stage d)
          then inactive
          else
            lease ← assertAppLease (dp_app d) epoch now;
            if al_operation lease.2 !== Some operation then throw "App lease operation does not match command"
            else mret d
      | None => inactive
      end
  end.

(** [/^[A-Za-z0-9][A-Za-z0-9._/:@-]{0,511}$/] *)
Definition image_ok (s : string) : bool :=
  match String.list_ascii_of_string s with
  | [] => false
  | c :: l =>
      (is_alpha c || is_digit c) &&
      forallb (λ c, is_alpha c || is_digit c || bool_decide (c ∈ String.list_ascii_of_string "._/:@-")) l &&
      Nat.leb (length l) 511
  end.

Definition service_ok (s : app_service) : bool :=
  LABEL (sv_name s) && image_ok (sv_image s) && is_none (validateDockerArgs (sv_args s)).

Definition plain_env_ok (s : app_service) : bool :=
  forallb (λ kv : string * string, isValidSecretName kv.1 && (Z.of_nat (String.length kv.2) <=? 8192))
    (map_to_list (or_else ∅ (sv_env s))).

(** [JSON.stringify] of a service row. *)
Definition service_json (s : app_service) : string :=
  json_object ([("name", json_string (sv_name s)); ("image", json_string (sv_image s));
    ("args", json_array (json_string <$> sv_args s))] ++
    option_list ((λ p, ("port", json_Z p)) <$> sv_port s) ++
    option_list ((λ r, ("route", json_string r)) <$> sv_route s) ++
    option_list ((λ n, ("nodeId", json_string (id_text n))) <$> sv_nodeId s) ++
    option_list ((λ e, ("env", json_object ((λ kv : string * string, (kv.1, json_string kv.2)) <$> map_to_list e))) <$> sv_env s)).

(** The services a deploy command starts on a Node, checked before the Node gets them. *)
Definition services_for (appName : string) (primary : Id) (services : list app_service) (nodeId : Id)
    : tx infra (list app_service) :=
  let mine := filter (λ s, or_else primary (sv_nodeId s) = nodeId) services in
  if Nat.eqb (length mine) 0 || Nat.ltb 32 (length mine) then throw "Invalid service placement/count"
  else if negb (LABEL appName) then throw "Invalid App name"
  else
    for_each mine (λ s,
      if negb (service_ok s) then throw "Invalid deployment specification"
      else if negb (plain_env_ok s) then throw "Invalid plain environment" else mret tt) ≫= λ _,
    if 64 * 1024 <? byte_length (json_array (service_json <$> mine)) then throw "App specification too large"
    else mret mine.

Definition deploymentSpec (deploymentId nodeId : Id) (operation : lease_operation) (now : Z)
    : tx infra (app_deployment * list app_service) :=
  dep ← activeDeployment deploymentId nodeId operation false now;
  stored ← db_unique apps (λ a, ap_name a === dp_app dep);
  services ← match dp_plan dep, stored with
             | Some plan, _ => services_for (dp_app dep) (pn_nodeId plan) (pn_services plan) nodeId
             | None, Some (_, a) => services_for (ap_name a) (ap_nodeId a) (ap_services a) nodeId
             | None, None => throw "A stored App specification is required"
             end;
  mret (dep, services).

(** Two commands have the same canonical JSON exactly when they are the same command. *)
Definition command_with_key (nodeId : Id) (key : string) : tx infra (option (Id * node_command_row)) :=
  db_unique nodeCommands (λ c, (nq_nodeId c === nodeId) && (nq_idempotencyKey c === key)).

Definition new_command (nodeId : Id) (key : string) (command : node_command) (app : option string)
    (appEpoch : option Z) (deploymentId : option Id) (now : Z) : node_command_row :=
  NodeCommandRow nodeId key command app appEpoch now NPending true 0 None None None None deploymentId None.

Definition insertNodeCommand (nodeId : Id) (key : string) (command : node_command) (app : option string)
    (appEpoch : option Z) (deploymentId : option Id) (now : Z) : tx infra (Id * bool) :=
  keyOK key ≫= λ _,
  prior ← command_with_key nodeId key;
  match prior with
  | Some (id, c) =>
      if nq_command c !== command then throw "Idempotency key reused for different command" else mret (id, false)
  | None =>
      queued ← db_where nodeCommands (λ c, (nq_nodeId c === nodeId) && (nq_status c === NPending));
      if Nat.leb 200 (length (take 201 queued)) then throw "Node command queue is full"
      else
        id ← db_insert nodeCommands (new_command nodeId key command app appEpoch deploymentId now);
        mret (id, true)
  end.

Definition command_kind (c : node_command) : string :=
  match c with
  | CmdOperate _ => "operate" | CmdDeploy _ _ => "deploy" | CmdSpec _ => "spec" | CmdBuild _ _ => "build"
  | CmdLogs _ => "logs"
  end.

Definition enqueueCommand (user : session) (nodeId : Id) (key : string) (command : node_command) (now : Z) : tx infra Id :=
  match command with
  | CmdSpec _ | CmdBuild _ _ => throw "Spec and build commands are issued by the deploy pipeline only"
  | CmdLogs _ => throw "Ask for logs through /api/v1/logs, which binds them to the requester"
  | CmdOperate _ | CmdDeploy _ _ =>
      who ← requirePermission user (if is_operate command then NodeRun else AppDeploy);
      keyOK key ≫= λ _,
      node ← db_get nodes nodeId;
      if is_none node then throw "No such Node"
      else
        prior ← command_with_key nodeId key;
        match prior with
        | Some (id, c) =>
            if nq_command c !== command then throw "Idempotency key reused for different command" else mret id
        | None =>
            fence ← match command with
                    | CmdDeploy deploymentId operation =>
                        spec ← deploymentSpec deploymentId nodeId (or_else OpDeploy operation) now;
                        mret (Some (dp_app spec.1), dp_leaseEpoch spec.1)
                    | CmdOperate op =>
                        match validateOperation op with Some e => throw e | None => mret (None, None) end
                    | _ => mret (None, None)
                    end;
            new ← insertNodeCommand nodeId key command fence.1 fence.2 None now;
            appendAudit (entry who.2 "nodes.enqueue" (id_text new.1) AudAttempt
              (Some (json_object [("kind", json_string (command_kind command)); ("nodeId", json_string (id_text nodeId))]))) now ≫= λ _,
            mret new.1
        end
  end.

Definition tick_of (deploymentId : option Id) : tx infra unit :=
  match deploymentId with Some d => infra_call_after (CallTick d) | None => mret tt end.

Definition cancelCommand (user : session) (commandId : Id) (now : Z) : tx infra unit :=
  row ← db_get nodeCommands commandId;
  match row with
  | None => throw "No such command"
  | Some c =>
      who ← requirePermission user (if is_operate (nq_command c) || is_logs (nq_command c) then NodeRun else AppDeploy);
      if (nq_status c === NRunning) || (nq_status c === NPending) then
        db_patch nodeCommands commandId (λ d, d <| nq_status := NCancelled |> <| nq_unsettled := false |>
          <| nq_finishedAt := Some now |>) ≫= λ _,
        appendAudit (entry who.2 "nodes.cancel" (id_text commandId) AudSuccess None) now ≫= λ _,
        tick_of (nq_deploymentId c)
      else mret tt
  end.

Section node_side.
Context (hashApiToken : string → string).

Definition ownCommand (credential : string) (commandId : Id) : tx infra node_command_row :=
  node ← requireNode hashApiToken credential;
  row ← db_get nodeCommands commandId;
  match row with
  | Some c => if nq_nodeId c !== node.1 then throw "Command not found on this Node" else mret c
  | None => throw "Command not found on this Node"
  end.

Definition live_claim (c : node_command_row) (now : Z) : bool := now <? or_else 0 (nq_leaseUntil c).

Definition claimed (credential : string) (commandId : Id) (owner : string) (epoch now : Z) : tx infra node_command_row :=
  c ← ownCommand credential commandId;
  if (nq_status c !== NRunning) || (nq_owner c !== Some owner) || negb (nq_epoch c =? epoch) || negb (live_claim c now)
  then throw "Stale command claim"
  else appFence c now ≫= λ _, mret c.

(** The epoch and the end of the claim's lease. *)
Definition claimNodeCommand (credential : string) (commandId : Id) (owner : string) (now : Z) : tx infra (Z * Z) :=
  keyOK owner ≫= λ _,
  c ← ownCommand credential commandId;
  appFence c now ≫= λ _,
  if (nq_status c !== NPending) && (nq_status c !== NRunning) then throw "Command is terminal"
  else if (nq_status c === NRunning) && live_claim c now then
    if nq_owner c !== Some owner then throw "Command is already claimed"
    else mret (nq_epoch c, or_else 0 (nq_leaseUntil c))
  else
    running ← db_where nodeCommands (λ r, (nq_nodeId r === nq_nodeId c) && (nq_status r === NRunning));
    let active := take 201 running in
    if Nat.ltb 200 (length active) ||
       existsb (λ r : Id * node_command_row, (r.1 !== commandId) && live_claim r.2 now) active
    then throw "Node has another active command"
    else
      let epoch := nq_epoch c + 1 in
      let leaseUntil := now + COMMAND_TTL_MS in
      db_patch nodeCommands commandId (λ d, d <| nq_status := NRunning |> <| nq_owner := Some owner |>
        <| nq_epoch := epoch |> <| nq_leaseUntil := Some leaseUntil |>) ≫= λ _,
      mret (epoch, leaseUntil).

Definition renewNodeCommand (credential : string) (commandId : Id) (owner : string) (epoch now : Z) : tx infra Z :=
  claimed credential commandId owner epoch now ≫= λ _,
  let leaseUntil := now + COMMAND_TTL_MS in
  db_patch nodeCommands commandId (λ d, d <| nq_leaseUntil := Some leaseUntil |>) ≫= λ _,
  mret leaseUntil.

(** *** logOutput.ts

    The decoded bytes are stored as text; a model string holds the bytes, so [decodeUtf8], the
    runtime's decoder, is a parameter. *)

Context (decodeUtf8 : string → string).

Definition MAX_LOG_BYTES : Z := 128 * 1024.
Definition MAX_LOG_BASE64 : Z := (MAX_LOG_BYTES + 2) / 3 * 4.

Definition base64_value (c : ascii) : option Z :=
  let n := ch c in
  if (65 <=? n) && (n <=? 90) then Some (n - 65)
  else if (97 <=? n) && (n <=? 122) then Some (n - 71)
  else if (48 <=? n) && (n <=? 57) then Some (n + 4)
  else if n =? 43 then Some 62 else if n =? 47 then Some 63 else None.

(** The bytes of a list of six-bit values; two values left over give one byte, three give two. *)
Fixpoint base64_bytes (vs : list Z) : list Z :=
  match vs with
  | a :: b :: c :: d :: vs =>
      Z.lor (Z.shiftl a 2) (Z.shiftr b 4) :: Z.land (Z.lor (Z.shiftl b 4) (Z.shiftr c 2)) 255 ::
      Z.land (Z.lor (Z.shiftl c 6) d) 255 :: base64_bytes vs
  | [a; b; c] => [Z.lor (Z.shiftl a 2) (Z.shiftr b 4); Z.land (Z.lor (Z.shiftl b 4) (Z.shiftr c 2)) 255]
  | [a; b] => [Z.lor (Z.shiftl a 2) (Z.shiftr b 4)]
  | _ => []
  end.

(** [/^[A-Za-z0-9+/]*={0,2}$/] and a length divisible by four. *)
Definition decodeBase64 (text : string) : option (list Z) :=
  let chars := String.list_ascii_of_string text in
  let body := reverse (drop (length (filter (λ c, c = "="%char) (take 2 (reverse chars)))) (reverse chars)) in
  if MAX_LOG_BASE64 <? Z.of_nat (String.length text) then None
  else if negb (forallb (λ c, is_some (base64_value c)) body) || negb (Nat.eqb (String.length text mod 4) 0) then None
  else Some (base64_bytes (omap base64_value body)).

Definition bytes_text (l : list Z) : string :=
  String.string_of_list_ascii ((λ z, ascii_of_nat (Z.to_nat z)) <$> l).

Definition recordLogOutput (commandId : Id) (outcome : command_outcome) (output : option string)
    (truncated : option bool) : tx infra unit :=
  row ← db_unique logTails (λ t, lt_commandId t === Some commandId);
  match row with
  | None => mret tt
  | Some (id, t) =>
      if lt_state t !== LogPending then mret tt
      else if outcome !== OutSuccess then db_patch logTails id (λ d, d <| lt_state := LogFailed |>)
      else match decodeBase64 (or_else "" output) with
      | None => throw "Log output is not base64 of at most 128 KiB"
      | Some bytes =>
          if MAX_LOG_BYTES <? Z.of_nat (length bytes) then throw "Log output is not base64 of at most 128 KiB"
          else db_patch logTails id (λ d, d <| lt_state := LogReady |>
                 <| lt_text := Some (decodeUtf8 (bytes_text bytes)) |>
                 <| lt_truncated := Some (truncated === Some true) |>)
      end
  end.

Definition outcome_text (o : command_outcome) : string :=
  match o with OutSuccess => "success" | OutFailure => "failure" | OutUnknown => "unknown" end.

Definition reportNodeCommand (credential : string) (commandId : Id) (owner : string) (epoch : Z)
    (outcome : command_outcome) (spec output : option string) (truncated : option bool) (now : Z) : tx infra unit :=
  c ← ownCommand credential commandId;
  if (nq_status c === NSettled outcome) && (nq_owner c === Some owner) && (nq_epoch c =? epoch) then mret tt
  else
    claimed credential commandId owner epoch now ≫= λ _,
    match spec with
    | Some text =>
        if negb (is_spec (nq_command c)) || (outcome !== OutSuccess) then
          throw "Only a successful spec command reports a spec"
        else if MAX_SPEC_BYTES <? byte_length text then throw "Spec file too large" else mret tt
    | None => mret tt
    end ≫= λ _,
    (if (is_some output || is_some truncated) && (negb (is_logs (nq_command c)) || (outcome !== OutSuccess))
     then throw "Only a successful logs command reports output" else mret tt) ≫= λ _,
    when (is_logs (nq_command c)) (recordLogOutput commandId outcome output truncated) ≫= λ _,
    db_patch nodeCommands commandId (λ d,
      let d := d <| nq_status := NSettled outcome |> <| nq_unsettled := false |> <| nq_outcome := Some outcome |>
                 <| nq_finishedAt := Some now |> in
      match spec with Some text => d <| nq_specText := Some text |> | None => d end) ≫= λ _,
    appendAudit (entry ("node:" +:+ id_text (nq_nodeId c)) "nodes.result" (id_text commandId)
      (if outcome === OutSuccess then AudSuccess else AudFailure)
      (Some (json_object [("outcome", json_string (outcome_text outcome)); ("epoch", json_Z epoch)]))) now ≫= λ _,
    tick_of (nq_deploymentId c).
End node_side.
