(* ===== verification/Frames.v ===== *)
(** What a transaction does to the store, as a relation.  A transaction [acts R] when every
    committed run of it relates the store before to the store after by [R]; for a preorder this
    composes along the transaction's text, so the automation below walks through a handler and
    leaves the writes.  A query [observes] a store: it leaves it alone and
    returns values of a given kind. *)

From S2P Require Import Prelude.

Definition acts {S A} (R : relation S) (m : tx S A) : Prop := ∀ s a s', m s = Done (a, s') → R s s'.

Section acts.
Context {S : Type} (R : relation S) `{!PreOrder R}.

Lemma acts_ret {A} (a : A) : acts R (mret a).
Proof. by intros s ? s' [= _ <-]. Qed.
Lemma acts_throw {A} e : acts R (throw e : tx S A).
Proof. done. Qed.
Lemma acts_read {A} (f : S → A) : acts R (read f).
Proof. by intros s ? s' [= _ <-]. Qed.
Lemma acts_bind {A B} (m : tx S A) (f : A → tx S B) : acts R m → (∀ a, acts R (f a)) → acts R (m ≫= f).
Proof. intros Hm Hf s b s' H. tx_bind_in H a s1 H1. etrans; [by eapply Hm|by eapply Hf]. Qed.
Lemma acts_modify (f : S → S) : (∀ s, R s (f s)) → acts R (modify f).
Proof. intros Hf s ? s' [= _ <-]. apply Hf. Qed.
Lemma acts_when b (m : tx S unit) : (b = true → acts R m) → acts R (when b m).
Proof. destruct b; [auto|]. intros _. apply acts_ret. Qed.
Lemma acts_for_each {A} (l : list A) body : (∀ x, acts R (body x)) → acts R (for_each l body).
Proof.
  intros Hb. induction l as [|x l IH]; simpl; [apply acts_ret|]. apply acts_bind; [apply Hb|done].
Qed.
Lemma acts_fold_in {A B} (l : list A) (body : B → A → tx S B) b :
  (∀ b x, x ∈ l → acts R (body b x)) → acts R (fold_tx body b l).
Proof.
  revert b. induction l as [|x l IH]; intros b Hb; simpl; [apply acts_ret|].
  apply acts_bind; [apply Hb; left|]. intros b'. apply IH. intros. apply Hb. by right.
Qed.
Lemma acts_fold {A B} (l : list A) (body : B → A → tx S B) b :
  (∀ b x, acts R (body b x)) → acts R (fold_tx body b l).
Proof.
  intros Hb. by apply acts_fold_in.
Qed.
Lemma acts_map {A B} (l : list A) (f : A → tx S B) : (∀ x, acts R (f x)) → acts R (map_tx f l).
Proof.
  intros Hf. induction l as [|x l IH]; simpl; [apply acts_ret|].
  apply acts_bind; [apply Hf|]. intros. apply acts_bind; [done|]. intros. apply acts_ret.
Qed.
Lemma acts_unique {D} (tbl : S → table D) P : acts R (db_unique tbl P).
Proof. intros s r s' [-> _]%db_unique_done. done. Qed.
Lemma acts_get {D} (tbl : S → table D) i : acts R (db_get tbl i).
Proof. apply acts_read. Qed.
Lemma acts_where {D} (tbl : S → table D) P : acts R (db_where tbl P).
Proof. apply acts_read. Qed.
Lemma acts_first {D} (tbl : S → table D) P : acts R (db_first tbl P).
Proof. apply acts_read. Qed.
Lemma acts_patch {D} (tbl : S → table D) `{!Updater tbl} i f :
  (∀ s d, rows (tbl s) !! i = Some d → R s (upd tbl (t_set i (f d)) s)) → acts R (db_patch tbl i f).
Proof. intros Hu s u s' (d & Hd & ->)%db_patch_done. by apply Hu. Qed.
Lemma acts_insert {D} (tbl : S → table D) `{!Updater tbl} d :
  (∀ s, R s (upd tbl (t_add d) s)) → acts R (db_insert tbl d).
Proof. intros Hu s u s' [= _ <-]. apply Hu. Qed.
Lemma acts_delete {D} (tbl : S → table D) `{!Updater tbl} i :
  (∀ s, R s (upd tbl (t_del i) s)) → acts R (db_delete tbl i).
Proof. intros Hu s u s' H. unfold db_delete in H. destruct (rows (tbl s) !! i); [|done]. injection H as _ <-. apply Hu. Qed.
End acts.

Lemma acts_mono {S A} (R R' : relation S) (m : tx S A) : (∀ s s', R s s' → R' s s') → acts R m → acts R' m.
Proof. intros Hi Hm s a s' H. by eapply Hi, Hm. Qed.

Create HintDb acts discriminated.
#[export] Hint Resolve acts_ret acts_throw acts_read acts_unique acts_get acts_where acts_first : acts.

(** Walks a handler's text; [leaf] settles the relation at a write. *)
Ltac acts_walk leaf :=
  repeat first
    [ solve [eauto with acts typeclass_instances]
    | apply acts_bind; intros
    | apply acts_for_each; intros
    | apply acts_fold; intros
    | apply acts_map; intros
    | apply acts_when; intros
    | apply acts_patch; intros; leaf
    | apply acts_insert; intros; leaf
    | apply acts_delete; intros; leaf
    | apply acts_modify; intros; leaf
    | progress cbv beta zeta
    | match goal with |- acts _ (match ?x with _ => _ end) => destruct x eqn:? end
    | match goal with |- acts _ (let '(_, _) := ?x in _) => destruct x end ].

(** ** Queries *)

(** [m], a query run in the store [s], leaves it alone and returns only values of [Q]. *)
Definition observes {S A} (s : S) (m : tx S A) (Q : A → Prop) : Prop := ∀ a s', m s = Done (a, s') → s' = s ∧ Q a.

Section observes.
Context {S : Type} (s : S).

Lemma observes_ret {A} (a : A) (Q : A → Prop) : Q a → observes s (mret a) Q.
Proof. by intros HQ a' s' [= <- <-]. Qed.
Lemma observes_read {A} (f : S → A) (Q : A → Prop) : Q (f s) → observes s (read f) Q.
Proof. by intros HQ a' s' [= <- <-]. Qed.
Lemma observes_first {D} (tbl : S → table D) P (Q : option (Id * D) → Prop) :
  Q None → (∀ i d, rows (tbl s) !! i = Some d → P d = true → Q (Some (i, d))) → observes s (db_first tbl P) Q.
Proof.
  intros HN HS. apply observes_read. destruct (t_where P (tbl s)) as [|[i d] l] eqn:E; [done|].
  destruct (t_where_sound (tbl s) P (i, d)) as [??]; [rewrite E; left|by apply HS].
Qed.
Lemma observes_get {D} (tbl : S → table D) i : observes s (db_get tbl i) (λ o, rows (tbl s) !! i = o).
Proof. by apply observes_read. Qed.
Lemma observes_throw {A} e (Q : A → Prop) : observes s (throw e) Q.
Proof. done. Qed.
Lemma observes_bind {A B} (m : tx S A) (f : A → tx S B) (P : A → Prop) (Q : B → Prop) :
  observes s m P → (∀ a, P a → observes s (f a) Q) → observes s (m ≫= f) Q.
Proof. intros Hm Hf b s' H. tx_bind_in H a s1 H1. destruct (Hm _ _ H1) as [-> HP]. by apply (Hf a HP). Qed.
Lemma observes_weaken {A} (m : tx S A) (P Q : A → Prop) : observes s m P → (∀ a, P a → Q a) → observes s m Q.
Proof. intros Hm HPQ a s' [-> HP]%Hm. auto. Qed.
Lemma observes_fold {A B} (body : B → A → tx S B) (Q : B → Prop) (l : list A) b :
  (∀ b x, x ∈ l → Q b → observes s (body b x) Q) → Q b → observes s (fold_tx body b l) Q.
Proof.
  revert b. induction l as [|x l IH]; intros b Hbody HQ; simpl; [by apply observes_ret|].
  eapply observes_bind; [apply Hbody; [left|done]|]. intros b' HQ'. apply IH; [|done].
  intros. apply Hbody; [by right|done].
Qed.
Lemma observes_map {A B} (f : A → tx S B) (Q : A → B → Prop) (l : list A) :
  (∀ x, x ∈ l → observes s (f x) (Q x)) → observes s (map_tx f l) (Forall2 Q l).
Proof.
  induction l as [|x l IH]; intros Hf; simpl; [by apply observes_ret|].
  eapply observes_bind; [apply Hf; left|]. intros y Hy.
  eapply observes_bind; [apply IH; intros; apply Hf; by right|]. intros ys Hys. apply observes_ret. by constructor.
Qed.
End observes.
