(* ===== verification/CommandProperties.v ===== *)
(** Correctness of the Node command queue: one live claim for each Node, one owner for each epoch of
    a command, settled commands stay settled, and a retried enqueue queues nothing new. *)

From S2P Require Import Prelude JsLib Schema HostLabels Egress AppPolicy InfraSchema InfraStore.
From S2P Require Import Nodes DockerArgs AppSpecs NodeCommands Frames.

(** ** Frames: what does not touch the commands *)

Definition same_commands : relation infra := λ s s', nodeCommands s' = nodeCommands s.
#[export] Instance same_commands_preorder : PreOrder same_commands.
Proof. split; [by intros ?|]. unfold same_commands. intros ??? -> ->. done. Qed.
Abbreviation keeps_commands := (acts same_commands) (only parsing).

Ltac kc := acts_walk ltac:(exact eq_refl).

(** The same, for a run of such a handler in the hypotheses. *)
Ltac kc_in H :=
  match type of H with ?m ?s = Done (?a, ?s') =>
    let K := fresh in assert (keeps_commands m) as K by kc; apply K in H; clear K; unfold same_commands in H
  end.

Lemma kc_appendAudit e now : keeps_commands (appendAudit e now).
Proof. unfold appendAudit, bumpCounter, readCounter, writeCounter, counterRow. kc. Qed.
Lemma kc_assertAppLease app epoch now : keeps_commands (assertAppLease app epoch now).
Proof. unfold assertAppLease, leaseRow. kc. Qed.
Lemma kc_tick d : keeps_commands (tick_of d).
Proof. unfold tick_of, infra_call_after. kc. Qed.
Lemma kc_requirePermission u p : keeps_commands (requirePermission u p).
Proof. unfold requirePermission. kc. Qed.
Lemma kc_keyOK k : keeps_commands (keyOK k).
Proof. unfold keyOK. kc. Qed.
#[export] Hint Resolve kc_appendAudit kc_assertAppLease kc_tick kc_requirePermission kc_keyOK : acts.

Lemma kc_appFence row now : keeps_commands (appFence row now).
Proof. unfold appFence. kc. Qed.
Lemma kc_activeDeployment d n o b now : keeps_commands (activeDeployment d n o b now).
Proof. unfold activeDeployment. kc. Qed.
Lemma kc_services_for a p ss n : keeps_commands (services_for a p ss n).
Proof. unfold services_for. kc. Qed.
#[export] Hint Resolve kc_appFence kc_activeDeployment kc_services_for : acts.
Lemma kc_deploymentSpec d n o now : keeps_commands (deploymentSpec d n o now).
Proof. unfold deploymentSpec. kc. Qed.
Lemma kc_requireNode h c : keeps_commands (requireNode h c).
Proof. unfold requireNode, authenticateNode. kc. Qed.
#[export] Hint Resolve kc_deploymentSpec kc_requireNode : acts.
Lemma kc_ownCommand h c i : keeps_commands (ownCommand h c i).
Proof. unfold ownCommand. kc. Qed.
Lemma kc_recordLogOutput d i o out t : keeps_commands (recordLogOutput d i o out t).
Proof. unfold recordLogOutput. kc. Qed.
#[export] Hint Resolve kc_ownCommand kc_recordLogOutput : acts.

(** ** The life of a command *)

Definition started (c : node_command_row) (owner : string) (now : Z) : node_command_row :=
  c <| nq_status := NRunning |> <| nq_owner := Some owner |> <| nq_epoch := nq_epoch c + 1 |>
    <| nq_leaseUntil := Some (now + COMMAND_TTL_MS) |>.

Definition cancelled (c : node_command_row) (now : Z) : node_command_row :=
  c <| nq_status := NCancelled |> <| nq_unsettled := false |> <| nq_finishedAt := Some now |>.

Definition settled_with (c : node_command_row) (outcome : command_outcome) (spec : option string) (now : Z)
    : node_command_row :=
  let d := c <| nq_status := NSettled outcome |> <| nq_unsettled := false |> <| nq_outcome := Some outcome |>
             <| nq_finishedAt := Some now |> in
  match spec with Some text => d <| nq_specText := Some text |> | None => d end.

(** The abstract steps of the queue at a time. *)
Inductive queue_step (now : Z) (t : table node_command_row) : table node_command_row → Prop :=
  | qs_same : queue_step now t t
  | qs_add row :
      nq_status row = NPending →
      (∀ j b, rows t !! j = Some b → nq_nodeId b = nq_nodeId row → nq_idempotencyKey b ≠ nq_idempotencyKey row) →
      queue_step now t (t_add row t)
  | qs_claim i c owner :
      rows t !! i = Some c → nq_status c = NPending ∨ (nq_status c = NRunning ∧ live_claim c now = false) →
      (∀ j b, j ≠ i → rows t !! j = Some b → nq_nodeId b = nq_nodeId c → nq_status b = NRunning →
         live_claim b now = false) →
      queue_step now t (t_set i (started c owner now) t)
  | qs_renew i c :
      rows t !! i = Some c → nq_status c = NRunning → live_claim c now = true →
      queue_step now t (t_set i (c <| nq_leaseUntil := Some (now + COMMAND_TTL_MS) |>) t)
  | qs_settle i c outcome spec :
      rows t !! i = Some c → nq_status c = NRunning → live_claim c now = true →
      queue_step now t (t_set i (settled_with c outcome spec now) t)
  | qs_cancel i c :
      rows t !! i = Some c → nq_status c = NRunning ∨ nq_status c = NPending →
      queue_step now t (t_set i (cancelled c now) t).

(** ** The handlers follow it *)

Lemma keyOK_same k (s s' : infra) u : keyOK k s = Done (u, s') → s' = s.
Proof. unfold keyOK. destruct (key_ok k); [by intros [= _ <-]|done]. Qed.

Lemma requirePermission_same user p (s s' : infra) w : requirePermission user p s = Done (w, s') → s' = s.
Proof. unfold requirePermission. destruct user as [[? ?]|]; [|done]. destruct (can _ _); [by intros [= _ <-]|done]. Qed.

Lemma set_commands_rows i f (s s' : infra) u :
  db_patch nodeCommands i f s = Done (u, s') →
  ∃ c, rows (nodeCommands s) !! i = Some c ∧ nodeCommands s' = t_set i (f c) (nodeCommands s).
Proof. intros (c & Hc & ->)%db_patch_done. by exists c. Qed.

Section handlers.
Context (hashApiToken : string → string) (decodeUtf8 : string → string).

Lemma ownCommand_done credential i s c s' :
  ownCommand hashApiToken credential i s = Done (c, s') →
  s' = s ∧ rows (nodeCommands s) !! i = Some c ∧
  ∃ cid, requireNode hashApiToken credential s = Done ((nq_nodeId c, cid), s).
Proof.
  intros H. unfold ownCommand in H. tx_bind_in H n s1 H1.
  assert (s1 = s) as ->.
  { revert H1. unfold requireNode, authenticateNode. intros H1. tx_bind_in H1 p s2 H2.
    assert (s2 = s) as ->.
    { destruct (negb _); [by injection H2 as _ <-|]. tx_bind_in H2 r s3 H3.
      apply db_unique_done in H3 as [-> _]. by injection H2 as _ <-. }
    destruct p; [by injection H1 as _ <-|done]. }
  tx_bind_in H row s2 H2. injection H2 as <- <-. destruct (rows (nodeCommands s) !! i) as [d|] eqn:E; [|done].
  destruct (decide (nq_nodeId d = n.1)) as [En|Hne].
  - rewrite bool_decide_true in H by done. injection H as <- <-. split; [done|]. split; [done|].
    exists n.2. rewrite En. by destruct n.
  - by rewrite bool_decide_false in H.
Qed.

Lemma appFence_same row now s u s' : appFence row now s = Done (u, s') → s' = s.
Proof.
  unfold appFence. destruct (nq_app row) as [app|], (nq_appEpoch row) as [e|]; try by intros [= _ <-].
  intros H. tx_bind_in H l s1 H1. assert (s1 = s) as ->.
  { unfold assertAppLease, leaseRow in H1. tx_bind_in H1 r s2 H2. apply db_unique_done in H2 as [-> _].
    destruct r as [[id l']|]; [|done]. destruct (leaseAdmits _ _ _); [by injection H1 as _ <-|done]. }
  destruct (_ && _); [done|by injection H as _ <-].
Qed.

(** A claim that still stands: what [claimed] checks. *)
Lemma claimed_done credential i owner epoch now s c s' :
  claimed hashApiToken credential i owner epoch now s = Done (c, s') →
  s' = s ∧ rows (nodeCommands s) !! i = Some c ∧ nq_status c = NRunning ∧ nq_owner c = Some owner ∧
  nq_epoch c = epoch ∧ live_claim c now = true ∧ appFence c now s = Done (tt, s) ∧
  ∃ cid, requireNode hashApiToken credential s = Done ((nq_nodeId c, cid), s).
Proof.
  intros H. unfold claimed in H. tx_bind_in H d s1 H1. apply ownCommand_done in H1 as (-> & Hd & Hn).
  destruct (_ || _) eqn:E; [done|]. rewrite !orb_false_iff, !negb_false_iff in E.
  destruct E as [[[Est%bool_decide_eq_true Eow%bool_decide_eq_true] Eep%Z.eqb_eq] Elive].
  tx_bind_in H u s2 H2. injection H as <- <-. pose proof (appFence_same _ _ _ _ _ H2) as ->. destruct u. done.
Qed.

Lemma take_all {A} (l : list A) n : (length (take (S n) l) ≤ n)%nat → take (S n) l = l.
Proof. intros H. rewrite length_take in H. apply take_ge. lia. Qed.

Lemma claim_step credential i owner now s r s' :
  t_wf (nodeCommands s) → claimNodeCommand hashApiToken credential i owner now s = Done (r, s') →
  ∃ c, rows (nodeCommands s) !! i = Some c ∧
    ((nodeCommands s' = nodeCommands s ∧ nq_status c = NRunning ∧ nq_owner c = Some owner ∧ r.1 = nq_epoch c) ∨
     (nodeCommands s' = t_set i (started c owner now) (nodeCommands s) ∧ r.1 = nq_epoch c + 1)) ∧
    queue_step now (nodeCommands s) (nodeCommands s').
Proof.
  intros Hwf H. unfold claimNodeCommand in H. tx_bind_in H u0 s1 H1.
  apply keyOK_same in H1 as ->.
  tx_bind_in H c s2 H2. apply ownCommand_done in H2 as (-> & Hc & _).
  tx_bind_in H u1 s3 H3. apply appFence_same in H3 as ->. exists c. split; [done|].
  destruct (_ && _) eqn:Eterm; [done|]. destruct ((nq_status c === NRunning) && live_claim c now) eqn:Elive.
  - apply andb_true_iff in Elive as [Est%bool_decide_eq_true Elive].
    destruct (decide (nq_owner c = Some owner)) as [Eo|]; [|by rewrite bool_decide_false in H].
    rewrite bool_decide_true in H by done. injection H as <- <-. split; [by left|constructor].
  - tx_bind_in H running s4 H4. injection H4 as <- <-. cbv zeta in H.
    destruct (Nat.ltb_spec 200 (length (take 201 (t_where (λ r, (nq_nodeId r === nq_nodeId c) && (nq_status r === NRunning))
      (nodeCommands s))))) as [|Hle]; [done|]. apply take_all in Hle. rewrite Hle in H. simpl in H.
    destruct (existsb _ _) eqn:Ex; [done|]. tx_bind_in H u2 s5 H5. injection H as <- <-.
    apply set_commands_rows in H5 as (d & Hd & ->). simplify_eq. split; [right; by split|].
    apply (qs_claim _ _ i c owner); [done| |].
    + destruct (decide (nq_status c = NPending)) as [|Hnp]; [by left|].
      destruct (decide (nq_status c = NRunning)) as [Hr|Hnr].
      * right. split; [done|]. by rewrite bool_decide_true in Elive.
      * rewrite !bool_decide_false in Eterm by done. done.
    + intros j b Hne Hj Hn Hr. destruct (live_claim b now) eqn:El; [|done]. exfalso.
      apply not_true_iff_false in Ex. apply Ex, existsb_elem. exists (j, b). split.
      * apply elem_of_t_where; [done|]. split; [done|]. by rewrite !bool_decide_true.
      * simpl. rewrite bool_decide_false by done. done.
Qed.

Lemma renew_step credential i owner epoch now s r s' :
  renewNodeCommand hashApiToken credential i owner epoch now s = Done (r, s') →
  queue_step now (nodeCommands s) (nodeCommands s').
Proof.
  intros H. unfold renewNodeCommand in H. tx_bind_in H c s1 H1.
  apply claimed_done in H1 as (-> & Hc & Hst & _ & _ & Hlive & _). cbv zeta in H. tx_bind_in H u s2 H2.
  injection H as _ <-. apply set_commands_rows in H2 as (d & Hd & ->). simplify_eq. by constructor.
Qed.

(** A report either repeats the one that settled the command, and writes nothing, or settles a
    command its sender holds a live claim on. *)
Lemma report_step credential i owner epoch outcome spec output truncated now s u s' :
  reportNodeCommand hashApiToken decodeUtf8 credential i owner epoch outcome spec output truncated now s = Done (u, s') →
  ∃ c, rows (nodeCommands s) !! i = Some c ∧
    (∃ cid, requireNode hashApiToken credential s = Done ((nq_nodeId c, cid), s)) ∧
    nq_owner c = Some owner ∧ nq_epoch c = epoch ∧
    ((s' = s ∧ nq_status c = NSettled outcome) ∨
     (nq_status c = NRunning ∧ live_claim c now = true ∧ appFence c now s = Done (tt, s) ∧
      nodeCommands s' = t_set i (settled_with c outcome spec now) (nodeCommands s))).
Proof.
  intros H. unfold reportNodeCommand in H. tx_bind_in H c s1 H1. apply ownCommand_done in H1 as (-> & Hc & Hn).
  exists c. split; [done|]. split; [done|]. destruct (_ && _) eqn:E.
  - injection H as _ <-. rewrite !andb_true_iff in E.
    destruct E as [[Est%bool_decide_eq_true Eo%bool_decide_eq_true] Ee%Z.eqb_eq]. split_and!; try done. by left.
  - tx_bind_in H d s2 H2. apply claimed_done in H2 as (-> & Hd & Hst & Ho & He & Hlive & Hf & _). simplify_eq.
    split; [done|]. split; [done|]. right. split; [done|]. split; [done|]. split; [done|].
    tx_bind_in H u1 s3 H3. kc_in H3.
    tx_bind_in H u2 s4 H4. kc_in H4.
    tx_bind_in H u3 s5 H5. kc_in H5.
    tx_bind_in H u4 s6 H6. apply set_commands_rows in H6 as (d & Hd6 & E6). tx_bind_in H u5 s7 H7.
    apply kc_appendAudit in H7. apply kc_tick in H. rewrite H, H7, E6. rewrite H5, H4, H3 in Hd6 |- *. by simplify_eq.
Qed.
End handlers.

Lemma insert_step n k cmd app ae d now s r s' :
  t_wf (nodeCommands s) → insertNodeCommand n k cmd app ae d now s = Done (r, s') →
  (s' = s ∧ r.2 = false ∧ ∃ c, rows (nodeCommands s) !! r.1 = Some c ∧ nq_nodeId c = n ∧ nq_idempotencyKey c = k ∧ nq_command c = cmd) ∨
  (r = (next_id (nodeCommands s), true) ∧ nodeCommands s' = t_add (new_command n k cmd app ae d now) (nodeCommands s) ∧
   queue_step now (nodeCommands s) (nodeCommands s')).
Proof.
  intros Hwf H. unfold insertNodeCommand in H. tx_bind_in H u0 s1 H1.
  apply keyOK_same in H1 as ->.
  tx_bind_in H p s2 H2. apply unique_row in H2 as [-> Hp]; [|done]. destruct p as [[id c]|].
  - destruct Hp as [Hc [En%bool_decide_eq_true Ek%bool_decide_eq_true]%andb_true_iff].
    destruct (decide (nq_command c = cmd)) as [E|]; [|by rewrite bool_decide_false in H].
    rewrite bool_decide_true in H by done. injection H as <- <-. left. split; [done|]. split; [done|]. by exists c.
  - tx_bind_in H q s3 H3. injection H3 as <- <-. destruct (Nat.leb _ _); [done|]. tx_bind_in H id0 s4 H4.
    injection H4 as <- <-. injection H as <- <-. right. split; [done|]. split; [done|]. apply qs_add; [done|].
    simpl. intros j b Hj En Ek. specialize (Hp j b Hj). by rewrite !bool_decide_true in Hp.
Qed.

Lemma enqueue_step user n k cmd now s r s' :
  t_wf (nodeCommands s) → enqueueCommand user n k cmd now s = Done (r, s') →
  queue_step now (nodeCommands s) (nodeCommands s').
Proof.
  intros Hwf H.
  assert (nodeCommands s' = nodeCommands s ∨ ∃ s1 s2 f r', nodeCommands s1 = nodeCommands s ∧
    insertNodeCommand n k cmd f.1 f.2 None now s1 = Done (r', s2) ∧ nodeCommands s' = nodeCommands s2) as [->|(s1 & s2 & f & r' & E1 & Hi & ->)];
    [|constructor|].
  - destruct cmd; try done; simpl in H; tx_bind_in H w t1 H1; apply kc_requirePermission in H1;
      tx_bind_in H u t2 H2; apply kc_keyOK in H2; tx_bind_in H nd t3 H3; injection H3 as <- <-;
      (destruct (is_none _); [done|]); tx_bind_in H p t4 H4; apply (acts_unique same_commands) in H4;
      (destruct p as [[id c]|]; [destruct (negb _); [done|]; injection H as <- <-; left; congruence|]);
      tx_bind_in H f t5 H5; kc_in H5; tx_bind_in H new t6 H6; tx_bind_in H a t7 H7; apply kc_appendAudit in H7; injection H as <- <-;
      right; exists t5, t6, f, new; (split; [congruence|by split]).
  - rewrite <- E1 in Hwf |- *. apply insert_step in Hi as [(-> & _ & _)|(_ & _ & ?)]; [constructor|done|done].
Qed.

Lemma cancel_step user i now s u s' :
  cancelCommand user i now s = Done (u, s') → queue_step now (nodeCommands s) (nodeCommands s').
Proof.
  intros H. unfold cancelCommand in H. tx_bind_in H row s1 H1. injection H1 as <- <-.
  destruct (rows (nodeCommands s) !! i) as [c|] eqn:Ec; [|done]. tx_bind_in H w s1 H1.
  apply requirePermission_same in H1 as ->.
  destruct (_ || _) eqn:E; [|injection H as _ <-; constructor].
  tx_bind_in H u1 s2 H2. apply set_commands_rows in H2 as (d & Hd & E2). tx_bind_in H a s3 H3.
  apply kc_appendAudit in H3. apply kc_tick in H. rewrite H, H3, E2. simplify_eq. apply qs_cancel; [done|].
  apply orb_true_iff in E as [?%bool_decide_eq_true|?%bool_decide_eq_true]; auto.
Qed.

(** ** Runs

    Transactions at a clock that does not go back.  A transaction of the pipeline queues and cancels
    several commands, which is a sequence of steps of the queue; every other transaction leaves the
    commands alone. *)

Section runs.
Context (hashApiToken : string → string) (decodeUtf8 : string → string).

Inductive command_step (now : Z) (s s' : infra) : Prop :=
  | cs_enqueue user n k cmd r : enqueueCommand user n k cmd now s = Done (r, s') → command_step now s s'
  | cs_insert n k cmd app ae d r : insertNodeCommand n k cmd app ae d now s = Done (r, s') → command_step now s s'
  | cs_claim cred i owner r : claimNodeCommand hashApiToken cred i owner now s = Done (r, s') → command_step now s s'
  | cs_renew cred i owner e r : renewNodeCommand hashApiToken cred i owner e now s = Done (r, s') → command_step now s s'
  | cs_report cred i owner e o sp out tr u :
      reportNodeCommand hashApiToken decodeUtf8 cred i owner e o sp out tr now s = Done (u, s') → command_step now s s'
  | cs_cancel user i u : cancelCommand user i now s = Done (u, s') → command_step now s s'
  | cs_pipeline : rtc (queue_step now) (nodeCommands s) (nodeCommands s') → command_step now s s'
  | cs_other : nodeCommands s' = nodeCommands s → command_step now s s'.

Inductive command_run : Z → infra → Z → infra → Prop :=
  | run_refl t s : command_run t s t s
  | run_step t s t1 s1 t2 s2 : command_run t s t1 s1 → t1 ≤ t2 → command_step t2 s1 s2 → command_run t s t2 s2.

(** The states some run reaches from an empty queue, with the clock it ends at. *)
Definition queue_reachable (t : Z) (s : infra) : Prop :=
  ∃ t0 s0, nodeCommands s0 = t_empty ∧ command_run t0 s0 t s.

Lemma command_step_queue now s s' :
  t_wf (nodeCommands s) → command_step now s s' → rtc (queue_step now) (nodeCommands s) (nodeCommands s').
Proof.
  intros Hwf Hs. destruct Hs as [????? H|??????? H|???? H|????? H|????????? H|??? H|H|H]; [apply rtc_once..|done|].
  - by eapply enqueue_step.
  - apply insert_step in H as [(-> & _)|(_ & _ & ?)]; [constructor|done|done].
  - by apply claim_step in H as (? & _ & _ & ?).
  - by eapply renew_step.
  - apply report_step in H as (c & Hc & _ & _ & _ & [[-> _]|(? & ? & _ & ->)]); by constructor.
  - by eapply cancel_step.
  - by rewrite H.
Qed.

(** What a command keeps from one step to the next. *)
Definition is_final (c : node_command_row) : bool :=
  negb (nq_status c === NPending) && negb (nq_status c === NRunning).

Record command_le (c d : node_command_row) : Prop := {
  cl_node : nq_nodeId d = nq_nodeId c;
  cl_key : nq_idempotencyKey d = nq_idempotencyKey c;
  cl_command : nq_command d = nq_command c;
  cl_epoch : nq_epoch c ≤ nq_epoch d;
  cl_owner : nq_epoch c = nq_epoch d → nq_owner c = nq_owner d;
  cl_final : is_final c = true → d = c }.

#[local] Instance command_le_preorder : PreOrder command_le.
Proof.
  split.
  - intros c. by split.
  - intros c d e [] []. split; try congruence; try lia.
    + intros ?. rewrite cl_owner0 by lia. apply cl_owner1. lia.
    + intros Hc. pose proof (cl_final0 Hc) as ->. auto.
Qed.

Record queue_ok (now : Z) (t : table node_command_row) : Prop := {
  qk_wf : t_wf t;
  qk_keys : ∀ i j b c, rows t !! i = Some b → rows t !! j = Some c → nq_nodeId b = nq_nodeId c →
    nq_idempotencyKey b = nq_idempotencyKey c → i = j;
  qk_live : ∀ i j b c, rows t !! i = Some b → rows t !! j = Some c → nq_nodeId b = nq_nodeId c →
    nq_status b = NRunning → nq_status c = NRunning → live_claim b now = true → live_claim c now = true → i = j }.

Lemma live_claim_mono c t t' : t ≤ t' → live_claim c t' = true → live_claim c t = true.
Proof. unfold live_claim. rewrite !Z.ltb_lt. lia. Qed.

Lemma queue_ok_mono t t' q : t ≤ t' → queue_ok t q → queue_ok t' q.
Proof.
  intros Ht [Hwf Hk Hl]. split; [done|done|]. intros i j b c Hi Hj En Hb Hc Lb Lc.
  apply (live_claim_mono _ t) in Lb, Lc; eauto.
Qed.

(** The one row a step replaces, seen from the others. *)
Lemma queue_ok_set now t i c d :
  queue_ok now t → rows t !! i = Some c → nq_nodeId d = nq_nodeId c → nq_idempotencyKey d = nq_idempotencyKey c →
  (nq_status d = NRunning → live_claim d now = true →
   ∀ j b, j ≠ i → rows t !! j = Some b → nq_nodeId b = nq_nodeId c → nq_status b = NRunning → live_claim b now = false) →
  queue_ok now (t_set i d t).
Proof.
  intros [Hwf Hk Hl] Hc En Ek Hd. split.
  - by eapply t_wf_set.
  - simpl. intros j k b e Hj He Hn Hkk.
    apply lookup_insert_Some in Hj as [[<- <-]|[? Hj]], He as [[<- <-]|[? He]]; try done; eapply Hk; eauto; congruence.
  - simpl. intros j k b e Hj He Hn Sb Se Lb Le.
    apply lookup_insert_Some in Hj as [[<- <-]|[? Hj]], He as [[<- <-]|[? He]]; try done.
    + rewrite (Hd Sb Lb k e) in Le; try done. congruence.
    + rewrite (Hd Se Le j b) in Lb; try done. congruence.
    + eauto.
Qed.

Lemma queue_step_ok now t t' : queue_ok now t → queue_step now t t' → queue_ok now t'.
Proof.
  intros Hok Hs. destruct Hs as [|row Hp Hnew|i c owner Hc _ Ho|i c Hc Hst Hl|i c o sp Hc Hst Hl|i c Hc Hst]; [done|..].
  - destruct Hok as [Hwf Hk Hl]. pose proof (t_wf_fresh _ Hwf). split; [by apply t_wf_add|..]; simpl.
    + intros j k b e Hj He Hn Hkk.
      apply lookup_insert_Some in Hj as [[<- <-]|[? Hj]], He as [[<- <-]|[? He]]; try done; [..|by eapply Hk];
        exfalso; eapply Hnew; eauto; congruence.
    + intros j k b e Hj He Hn Sb Se.
      apply lookup_insert_Some in Hj as [[<- <-]|[? Hj]], He as [[<- <-]|[? He]]; try congruence. eauto.
  - apply (queue_ok_set _ _ _ c); done || (intros _ _; done).
  - apply (queue_ok_set _ _ _ c); try done. intros _ _ j b Hne Hj Hn Hr. destruct (live_claim b now) eqn:E; [|done].
    destruct Hne. by eapply (qk_live _ _ Hok).
  - apply (queue_ok_set _ _ _ c); try done; destruct sp; done.
  - apply (queue_ok_set _ _ _ c); done.
Qed.

Lemma queue_step_le now t t' i c :
  t_wf t → queue_step now t t' → rows t !! i = Some c → ∃ d, rows t' !! i = Some d ∧ command_le c d.
Proof.
  intros Hwf Hs Hi.
  assert (∀ j b d, rows t !! j = Some b → command_le b d → ∃ d', rows (t_set j d t) !! i = Some d' ∧ command_le c d') as Hset.
  { intros j b d Hj Hle. simpl. destruct (decide (j = i)) as [->|Hne].
    - rewrite lookup_insert_eq. simplify_eq. eauto.
    - rewrite lookup_insert_ne by done. exists c. by split. }
  destruct Hs as [|row _ _|j b owner Hc Hst _|j b Hc Hst _|j b o sp Hc Hst _|j b Hc Hst].
  - by exists c.
  - exists c. simpl. rewrite lookup_insert_ne; [done|]. apply Hwf in Hi. lia.
  - eapply Hset; [done|]. split; simpl; try done; try lia. unfold is_final.
    destruct Hst as [->|[-> _]]; by rewrite ?andb_false_r.
  - eapply Hset; [done|]. split; simpl; try done. unfold is_final. rewrite Hst. by rewrite ?andb_false_r.
  - eapply Hset; [done|]. destruct sp; (split; simpl; try done; unfold is_final; rewrite Hst; by rewrite ?andb_false_r).
  - eapply Hset; [done|]. split; simpl; try done. unfold is_final.
    destruct Hst as [-> | ->]; by rewrite ?andb_false_r.
Qed.

Lemma queue_steps_ok now t t' : rtc (queue_step now) t t' → queue_ok now t → queue_ok now t'.
Proof. induction 1; [done|]. intros. eauto using queue_step_ok. Qed.

Lemma queue_steps_le now t t' i c :
  rtc (queue_step now) t t' → queue_ok now t → rows t !! i = Some c → ∃ d, rows t' !! i = Some d ∧ command_le c d.
Proof.
  intros H. revert c. induction H as [|t t1 t2 Hs _ IH]; intros c Hok Hc; [by exists c|].
  destruct (queue_step_le _ _ _ _ _ (qk_wf _ _ Hok) Hs Hc) as (d & Hd & Hle).
  destruct (IH d) as (e & He & Hle'); [by eapply queue_step_ok|done|]. exists e. split; [done|]. by etrans.
Qed.

Lemma run_clock t s t' s' : command_run t s t' s' → t ≤ t'.
Proof. induction 1; lia. Qed.

Lemma run_ok t s t' s' :
  command_run t s t' s' → queue_ok t (nodeCommands s) → queue_ok t' (nodeCommands s').
Proof.
  induction 1 as [|t s t1 s1 t2 s2 _ IH Ht Hs]; [done|]. intros Hok. apply IH, (queue_ok_mono _ t2) in Hok; [|done].
  eapply queue_steps_ok; [|done]. apply command_step_queue; [apply Hok|done].
Qed.

Lemma run_le t s t' s' i c :
  command_run t s t' s' → queue_ok t (nodeCommands s) → rows (nodeCommands s) !! i = Some c →
  ∃ d, rows (nodeCommands s') !! i = Some d ∧ command_le c d.
Proof.
  induction 1 as [|t s t1 s1 t2 s2 Hr IH Ht Hs]; [by exists c|]. intros Hok Hc.
  pose proof (queue_ok_mono _ t2 _ Ht (run_ok _ _ _ _ Hr Hok)) as Ok1. destruct (IH Hok Hc) as (d & Hd & Hle).
  destruct (queue_steps_le _ _ _ _ _ (command_step_queue _ _ _ (qk_wf _ _ Ok1) Hs) Ok1 Hd) as (e & He & Hle').
  exists e. split; [done|]. by etrans.
Qed.

Lemma reachable_ok t s : queue_reachable t s → queue_ok t (nodeCommands s).
Proof.
  intros (t0 & s0 & E & Hr). eapply run_ok; [done|]. rewrite E. split; [apply t_wf_empty|..];
    intros ???? H; simpl in H; by rewrite lookup_empty in H.
Qed.

(** ** The queue's promises *)

(** C11: the control plane never has a Node act on two commands at once.  In every state some
    interleaving of the queue's transactions reaches, at any clock reading from then on, two running
    commands of a Node whose claims are both live are the same command. *)
Theorem one_claim_per_node t s now i j b c :
  queue_reachable t s → t ≤ now → rows (nodeCommands s) !! i = Some b → rows (nodeCommands s) !! j = Some c →
  nq_nodeId b = nq_nodeId c → nq_status b = NRunning → nq_status c = NRunning →
  live_claim b now = true → live_claim c now = true → i = j.
Proof. intros Hr%reachable_ok Hn. apply (queue_ok_mono _ now) in Hr; [|done]. apply Hr. Qed.

Lemma claim_result credential i owner now s r s' :
  t_wf (nodeCommands s) → claimNodeCommand hashApiToken credential i owner now s = Done (r, s') →
  ∃ c d, rows (nodeCommands s) !! i = Some c ∧ rows (nodeCommands s') !! i = Some d ∧ nq_epoch d = r.1 ∧
    nq_owner d = Some owner ∧ ((nq_owner c = Some owner ∧ nq_epoch c = r.1) ∨ nq_epoch c < r.1).
Proof.
  intros Hwf H. apply claim_step in H as (c & Hc & [(E & _ & Ho & ->)|(E & ->)] & _); [..|done]; exists c.
  - exists c. rewrite E. split_and!; try done. by left.
  - exists (started c owner now). rewrite E. simpl. rewrite lookup_insert_eq. split_and!; try done. right. lia.
Qed.

Lemma run_trans t s t1 s1 t2 s2 : command_run t s t1 s1 → command_run t1 s1 t2 s2 → command_run t s t2 s2.
Proof. intros H1 H2. induction H2 as [|??????? IH]; [done|]. eapply run_step; [by apply IH|done|done]. Qed.

Lemma reachable_run t s t' s' : queue_reachable t s → command_run t s t' s' → queue_reachable t' s'.
Proof. intros (t0 & s0 & E & Hr) H. exists t0, s0. split; [done|]. by eapply run_trans. Qed.

Lemma reachable_step t s now s' : queue_reachable t s → t ≤ now → command_step now s s' → queue_reachable now s'.
Proof. intros H Ht Hs. eapply reachable_run; [done|]. eapply run_step; [apply run_refl|done|done]. Qed.

(** The epoch of a claim is a fencing token.  Once another owner has claimed a command, the
    owner whose claim it took over can neither renew nor report under its old epoch, however the
    queue's transactions interleave: both calls fail and write nothing. *)
Theorem superseded_claim_is_fenced t0 s0 cred1 i o1 r1 s1 t2 s2 now2 cred2 o2 r2 s3 t4 s4 now4 outcome spec out tr :
  queue_reachable t0 s0 → claimNodeCommand hashApiToken cred1 i o1 t0 s0 = Done (r1, s1) →
  command_run t0 s1 t2 s2 → t2 ≤ now2 → claimNodeCommand hashApiToken cred2 i o2 now2 s2 = Done (r2, s3) → o1 ≠ o2 →
  command_run now2 s3 t4 s4 →
  r1.1 < r2.1 ∧ fails (renewNodeCommand hashApiToken cred1 i o1 r1.1 now4) s4 ∧
  fails (reportNodeCommand hashApiToken decodeUtf8 cred1 i o1 r1.1 outcome spec out tr now4) s4.
Proof.
  intros R0 H1 Run1 Ht H2 Hne Run2. pose proof (reachable_ok _ _ R0) as Ok0.
  assert (queue_reachable t0 s1) as R1 by (eapply reachable_step; [done|lia|by eapply cs_claim]).
  pose proof (reachable_run _ _ _ _ R1 Run1) as R2. pose proof (reachable_ok _ _ R2) as Ok2.
  assert (queue_reachable now2 s3) as R3 by (eapply reachable_step; [done|done|by eapply cs_claim]).
  pose proof (reachable_ok _ _ R3) as Ok3.
  apply claim_result in H1 as (_ & c1 & _ & Hc1 & <- & Ho1 & _); [|apply Ok0].
  apply claim_result in H2 as (c2 & c3 & Hc2 & Hc3 & <- & Ho3 & Hcase); [|apply Ok2].
  destruct (run_le _ _ _ _ _ _ Run1 (reachable_ok _ _ R1) Hc1) as (c2' & Hc2' & [_ _ _ Le Eq _]). simplify_eq.
  assert (nq_epoch c1 < nq_epoch c3) as Hlt.
  { destruct Hcase as [[Ho2 <-]|]; [|lia]. destruct (decide (nq_epoch c1 = nq_epoch c2)) as [E|]; [|lia].
    rewrite (Eq E), Ho2 in Ho1. congruence. }
  destruct (run_le _ _ _ _ _ _ Run2 Ok3 Hc3) as (c4 & Hc4 & [_ _ _ Le4 _ _]).
  split; [done|]. split; apply not_done_fails; intros r5 s5 H5.
  - unfold renewNodeCommand in H5. tx_bind_in H5 c s6 H6. apply claimed_done in H6 as (_ & Hc & _ & _ & E & _). simplify_eq. lia.
  - apply report_step in H5 as (c & Hc & _ & _ & E & _). simplify_eq. lia.
Qed.

(** A settled command stays settled.  However the queue's transactions interleave after a
    report settled it, its row never changes again; a report that repeats the one that settled it
    succeeds and writes nothing, and every other claim, renewal or report of it fails. *)
Theorem settled_command_is_final t s i c t' s' now :
  queue_reachable t s → rows (nodeCommands s) !! i = Some c → is_final c = true → command_run t s t' s' →
  rows (nodeCommands s') !! i = Some c ∧
  (∀ cred owner, fails (claimNodeCommand hashApiToken cred i owner now) s') ∧
  (∀ cred owner e, fails (renewNodeCommand hashApiToken cred i owner e now) s') ∧
  (∀ cred owner e o sp out tr u s'',
     reportNodeCommand hashApiToken decodeUtf8 cred i owner e o sp out tr now s' = Done (u, s'') →
     s'' = s' ∧ nq_status c = NSettled o ∧ nq_owner c = Some owner ∧ nq_epoch c = e).
Proof.
  intros Hr Hc Hfin Run. destruct (run_le _ _ _ _ _ _ Run (reachable_ok _ _ Hr) Hc) as (d & Hd & Hle).
  rewrite (cl_final _ _ Hle Hfin) in Hd. clear Hle d. split; [done|].
  assert (nq_status c ≠ NPending ∧ nq_status c ≠ NRunning) as [Hnp Hnr].
  { unfold is_final in Hfin. by apply andb_true_iff in Hfin as [?%negb_true_iff%bool_decide_eq_false ?%negb_true_iff%bool_decide_eq_false]. }
  assert (t_wf (nodeCommands s')) as Hwf.
  { eapply qk_wf, reachable_ok. by eapply reachable_run. }
  split; [|split].
  - intros cred owner. apply not_done_fails. intros r s'' H. unfold claimNodeCommand in H. tx_bind_in H u0 s1 H1.
    apply keyOK_same in H1 as ->.
    tx_bind_in H c2 s2 H2. apply ownCommand_done in H2 as (-> & Hc2 & _). simplify_eq.
    tx_bind_in H u1 s3 H3. by rewrite !bool_decide_false in H.
  - intros cred owner e. apply not_done_fails. intros r s'' H. unfold renewNodeCommand in H. tx_bind_in H c2 s1 H1.
    apply claimed_done in H1 as (_ & Hc2 & Hst & _). by simplify_eq.
  - intros cred owner e o sp out tr u s'' H.
    apply report_step in H as (c2 & Hc2 & _ & Ho & He & [[-> Hst]|(Hst & _)]); simplify_eq; done.
Qed.

Lemma enqueue_result user n k cmd now s r s' :
  t_wf (nodeCommands s) → enqueueCommand user n k cmd now s = Done (r, s') →
  ∃ c, rows (nodeCommands s') !! r = Some c ∧ nq_nodeId c = n ∧ nq_idempotencyKey c = k ∧ nq_command c = cmd.
Proof.
  intros Hwf H.
  destruct cmd; try done; simpl in H; tx_bind_in H w t1 H1; apply kc_requirePermission in H1;
    tx_bind_in H u t2 H2; apply kc_keyOK in H2; tx_bind_in H nd t3 H3; injection H3 as <- <-;
    (destruct (is_none _); [done|]); tx_bind_in H p t4 H4; (apply unique_row in H4 as [-> Hp]; [|by rewrite H2, H1]);
    (destruct p as [[id0 c]|];
      [destruct Hp as [Hc [En%bool_decide_eq_true Ek%bool_decide_eq_true]%andb_true_iff];
       destruct (negb _) eqn:E; [done|]; apply negb_false_iff, bool_decide_eq_true in E; injection H as <- <-; by exists c|]);
    clear Hp; tx_bind_in H f t5 H5; kc_in H5; tx_bind_in H new t6 H6; tx_bind_in H a t7 H7; apply kc_appendAudit in H7;
    injection H as <- <-;
    (apply insert_step in H6 as [(-> & _ & c & Hc & ?)|(-> & E & _)]; [exists c; by rewrite H7| |by rewrite H5, H2, H1]);
    (eexists; rewrite H7, E; simpl; rewrite lookup_insert_eq; split; [reflexivity|done]).
Qed.

(** A retried enqueue queues nothing new.  Whatever the queue's transactions did since, sending
    the same command again under its idempotency key returns the command's id and writes nothing, as
    long as the Node exists; the same key with another command is refused. *)
Theorem enqueue_retry_is_idempotent t s user n k cmd now r s1 t2 s2 now2 :
  queue_reachable t s → t ≤ now → enqueueCommand user n k cmd now s = Done (r, s1) →
  command_run now s1 t2 s2 → is_Some (rows (nodes s2) !! n) →
  enqueueCommand user n k cmd now2 s2 = Done (r, s2) ∧
  ∀ cmd', cmd' ≠ cmd → fails (enqueueCommand user n k cmd' now2) s2.
Proof.
  intros Hr Ht H Run [nd Hnd]. pose proof (reachable_ok _ _ Hr) as Hok.
  assert (queue_reachable now s1) as R1 by (eapply reachable_step; [done|done|by eapply cs_enqueue]).
  pose proof (reachable_ok _ _ (reachable_run _ _ _ _ R1 Run)) as Ok2.
  destruct (enqueue_result _ _ _ _ _ _ _ _ (qk_wf _ _ Hok) H) as (c & Hc & En & Ek & Ec).
  destruct (run_le _ _ _ _ _ _ Run (reachable_ok _ _ R1) Hc) as (d & Hd & [En2 Ek2 Ec2 _ _ _]).
  assert (t_where (λ c, (nq_nodeId c === n) && (nq_idempotencyKey c === k)) (nodeCommands s2) = [(r, d)]) as Hone.
  { apply t_where_singleton; [apply Ok2|done|by rewrite !bool_decide_true by congruence|].
    intros j e Hj [Hn%bool_decide_eq_true Hk%bool_decide_eq_true]%andb_true_iff.
    eapply (qk_keys _ _ Ok2); eauto; congruence. }
  split.
  - destruct cmd; try done; simpl in H |- *; unfold mbind, tx_bind in H |- *;
      destruct user as [[uid stored]|]; try done; unfold requirePermission in H |- *;
      (destruct (can _ _); [|done]); unfold keyOK in H |- *; (destruct (key_ok k); [|done]); simpl in H |- *;
      rewrite Hnd; simpl; unfold command_with_key, db_unique; rewrite Hone; simpl;
      by rewrite bool_decide_true by congruence.
  - intros cmd' Hne. apply not_done_fails. intros r' s' H'.
    destruct cmd'; try done; simpl in H'; tx_bind_in H' w t3 H3; apply requirePermission_same in H3 as ->;
      tx_bind_in H' u t4 H4; apply keyOK_same in H4 as ->; tx_bind_in H' nd' t5 H5; injection H5 as <- <-;
      (destruct (is_none _); [done|]); tx_bind_in H' p t6 H6; apply db_unique_done in H6 as [-> Hp];
      rewrite Hone in Hp; (destruct p; [|done]); injection Hp as <-; rewrite bool_decide_false in H' by congruence; done.
Qed.
End runs.

(** ** Witnesses: a Node with two queued commands, the first claimed, lost and claimed again *)

Module CommandDemo.
Definition hash (token : string) : string := token.
Definition text (bytes : string) : string := bytes.
Definition admin : session := Some (0%nat, Some Admin).
Definition bytes : list nat := repeat 1%nat 32.
Definition token : string := newNodeCredential bytes.
Definition usage : node_command := CmdOperate (NodeOperation "disk.usage" ∅).
Definition hostname : node_command := CmdOperate (NodeOperation "system.hostname" ∅).

Definition enrolled : infra := commit (enroll hash admin "mac-1" bytes 5) infra_empty.
Definition one : infra := commit (enqueueCommand admin 0%nat "k1" usage 10) enrolled.
Definition two : infra := commit (enqueueCommand admin 0%nat "k2" hostname 15) one.
Definition first_claim : infra := commit (claimNodeCommand hash token 0%nat "agent-a" 20) two.
Definition second_claim : infra := commit (claimNodeCommand hash token 0%nat "agent-b" 70000) first_claim.
Definition settled : infra :=
  commit (reportNodeCommand hash text token 0%nat "agent-b" 2 OutSuccess None None None 70010) second_claim.

Lemma one_done : enqueueCommand admin 0%nat "k1" usage 10 enrolled = Done (0%nat, one).
Proof. vm_compute. reflexivity. Qed.
Lemma two_done : enqueueCommand admin 0%nat "k2" hostname 15 one = Done (1%nat, two).
Proof. vm_compute. reflexivity. Qed.
Lemma first_done : claimNodeCommand hash token 0%nat "agent-a" 20 two = Done ((1, 60020), first_claim).
Proof. vm_compute. reflexivity. Qed.
Lemma second_done : claimNodeCommand hash token 0%nat "agent-b" 70000 first_claim = Done ((2, 130000), second_claim).
Proof. vm_compute. reflexivity. Qed.
Lemma settled_done :
  reportNodeCommand hash text token 0%nat "agent-b" 2 OutSuccess None None None 70010 second_claim = Done (tt, settled).
Proof. vm_compute. reflexivity. Qed.

Lemma reach_enrolled : queue_reachable hash text 5 enrolled.
Proof. exists 5, enrolled. split; [vm_compute; reflexivity|apply run_refl]. Qed.
Lemma reach_one : queue_reachable hash text 10 one.
Proof. eapply reachable_step; [exact reach_enrolled|lia|]. exact (cs_enqueue _ _ _ _ _ _ _ _ _ _ one_done). Qed.
Lemma reach_two : queue_reachable hash text 20 two.
Proof.
  eapply reachable_step; [|exact (ltac:(lia) : 15 ≤ 20)|apply cs_other; reflexivity].
  eapply reachable_step; [exact reach_one|lia|]. exact (cs_enqueue _ _ _ _ _ _ _ _ _ _ two_done).
Qed.
Lemma reach_settled : queue_reachable hash text 70010 settled.
Proof.
  eapply reachable_step; [|exact (ltac:(lia) : 70000 ≤ 70010)|exact (cs_report _ _ _ _ _ _ _ _ _ _ _ _ _ _ settled_done)].
  eapply reachable_step; [|exact (ltac:(lia) : 20 ≤ 70000)|exact (cs_claim _ _ _ _ _ _ _ _ _ second_done)].
  eapply reachable_step; [exact reach_two|lia|exact (cs_claim _ _ _ _ _ _ _ _ _ first_done)].
Qed.
End CommandDemo.
Import CommandDemo.

Lemma one_claim_per_node_witness :
  (∃ b, rows (nodeCommands first_claim) !! 0%nat = Some b ∧ nq_status b = NRunning ∧ live_claim b 30 = true) ∧
  ∀ j c, rows (nodeCommands first_claim) !! j = Some c → nq_nodeId c = 0%nat → nq_status c = NRunning →
    live_claim c 30 = true → 0%nat = j.
Proof.
  split; [eexists; split; [vm_compute; reflexivity|]; split; reflexivity|].
  intros j c Hj Hn Hst Hl. eapply (one_claim_per_node hash text 20 first_claim 30 0%nat j).
  - eapply reachable_step; [exact reach_two|exact (Z.le_refl 20)|exact (cs_claim _ _ _ _ _ _ _ _ _ first_done)].
  - lia.
  - vm_compute. reflexivity.
  - exact Hj.
  - symmetry. exact Hn.
  - reflexivity.
  - exact Hst.
  - reflexivity.
  - exact Hl.
Defined.

Lemma superseded_claim_is_fenced_witness :
  fails (reportNodeCommand hash text token 0%nat "agent-a" 1 OutSuccess None None None 70005) second_claim.
Proof.
  destruct (superseded_claim_is_fenced hash text 20 two token 0%nat "agent-a" (1, 60020) first_claim 20 first_claim
    70000 token "agent-b" (2, 130000) second_claim 70000 second_claim 70005 OutSuccess None None None) as (_ & _ & H).
  - exact reach_two.
  - exact first_done.
  - apply run_refl.
  - lia.
  - exact second_done.
  - discriminate.
  - apply run_refl.
  - exact H.
Defined.

Lemma settled_command_is_final_witness :
  fails (claimNodeCommand hash token 0%nat "agent-a" 80000) settled.
Proof.
  edestruct (settled_command_is_final hash text 70010 settled 0%nat) as (_ & H & _).
  - exact reach_settled.
  - vm_compute. reflexivity.
  - reflexivity.
  - apply run_refl.
  - apply H.
Defined.

Lemma enqueue_retry_is_idempotent_witness :
  enqueueCommand admin 0%nat "k1" usage 90 two = Done (0%nat, two) ∧
  fails (enqueueCommand admin 0%nat "k1" hostname 90) two.
Proof.
  destruct (enqueue_retry_is_idempotent hash text 5 enrolled admin 0%nat "k1" usage 10 0%nat one 15 two 90) as [H1 H2].
  - exact reach_enrolled.
  - lia.
  - exact one_done.
  - eapply run_step; [apply run_refl|lia|exact (cs_enqueue _ _ _ _ _ _ _ _ _ _ two_done)].
  - eexists. vm_compute. reflexivity.
  - split; [exact H1|]. apply H2. discriminate.
Defined.
