(* ===== verification/Apps.v ===== *)
(** Apps, their public routes and standalone mesh links (packages/backend/convex/infra/apps.ts), and
    the names an App holds on the Nodes (namespace.ts). *)

From S2P Require Import Prelude JsLib Schema HostLabels AppPolicy InfraSchema InfraStore Nodes DockerArgs.

Definition MAX_APPS : nat := 500.

Definition app_named (name : string) : tx infra (option (Id * app_row)) :=
  db_unique apps (λ a, ap_name a === name).
Definition route_named (name : string) : tx infra (option (Id * app_route)) :=
  db_unique appRoutes (λ r, rt_name r === name).
Definition link_named (name : string) : tx infra (option (Id * mesh_link)) :=
  db_unique meshLinks (λ l, ml_name l === name).

(** [ctx.db.query(table).take(n)]: the oldest rows. *)
Definition take_rows {D} (tbl : infra → table D) (n : nat) : tx infra (list (Id * D)) :=
  read (λ s, take n (t_scan (tbl s))).

(** Insert a row, or replace the one a lookup found. *)
Definition put_row {D} (tbl : infra → table D) `{!Updater tbl} (existing : option (Id * D)) (fields : D) : tx infra Id :=
  match existing with
  | None => db_insert tbl fields
  | Some (id, _) => db_patch tbl id (λ _, fields) ≫= λ _, mret id
  end.

Definition upsertApp (name : string) (nodeId : Id) (services : list app_service) (links : list app_link)
    (spec : option app_spec) (hub : option (option string)) (now : Z) : tx infra Id :=
  existing ← app_named name;
  put_row apps existing (AppRow name nodeId services links spec (Some (provenanceFor now hub)) now).

(** ** Who a route belongs to *)

Inductive route_owner := OwnedBy (app : string) (service : option string) | Ambiguous.

(** The services that route at a label, with their Apps. *)
Definition route_claims (label : string) (rows : list app_row) : list (string * string) :=
  a ← rows; (λ s, (ap_name a, sv_name s)) <$> filter (λ s, sv_route s = Some label) (ap_services a).

Definition ownerOfRoute (name : string) (app service : option string) (rows : list app_row) : route_owner :=
  match app with
  | Some app => OwnedBy app service
  | None =>
      let claims := route_claims name rows in
      if Nat.ltb 1 (length (set_of claims.*1)) then Ambiguous
      else match claims with
      | (app, service) :: _ => OwnedBy app (Some service)
      | [] => OwnedBy name None
      end
  end.

Definition loadRouteOwner (r : app_route) : tx infra route_owner :=
  match rt_app r with
  | Some _ => mret (ownerOfRoute (rt_name r) (rt_app r) (rt_service r) [])
  | None =>
      rows ← take_rows apps MAX_APPS;
      mret (ownerOfRoute (rt_name r) (rt_app r) (rt_service r) rows.*2)
  end.

Definition isSingleContainerRoute (name : string) (owner : route_owner) : bool :=
  match owner with OwnedBy app None => app === name | _ => false end.

Definition routeRefusal (label app : string) : tx infra (option string) :=
  existing ← route_named label;
  match existing with
  | None => mret None
  | Some (_, r) =>
      owner ← loadRouteOwner r;
      mret (match owner with
            | Ambiguous => Some ("the route " +:+ label +:+
                " is claimed by more than one App; remove all but one of them first")
            | OwnedBy other _ =>
                if other === app then None
                else Some ("App " +:+ in_quotes app +:+ " cannot take the route " +:+ label +:+
                  ": it belongs to App " +:+ in_quotes other)
            end)
  end.

Definition upsertRoute (name : string) (nodeId : Id) (image : string) (port : Z) (app : string)
    (service : option string) (hub : option (option string)) (now : Z) : tx infra Id :=
  refusal ← routeRefusal name app;
  match refusal with
  | Some r => throw r
  | None =>
      existing ← route_named name;
      put_row appRoutes existing
        (AppRoute name nodeId image port (Some app) service (Some (provenanceFor now hub)) now)
  end.

Definition upsertMeshLink (name : string) (providerNodeId : Id) (providerPort : Z) (consumerNodeId : Id)
    (localPort : Z) (createdBy : option link_creator) (hub : option (option string)) (now : Z) : tx infra Id :=
  existing ← link_named name;
  put_row meshLinks existing
    (MeshLink name providerNodeId providerPort consumerNodeId localPort createdBy (Some (provenanceFor now hub)) now).

(** ** The dashboard's lists *)

Section lists.
Context (localeCompare : string → string → Z).

Definition listApps (user : session) : tx infra (list app_row) :=
  requirePermission user AppRead ≫= λ _,
  rows ← read (λ s, t_scan (apps s));
  mret (to_sorted (λ a b, localeCompare (ap_name a) (ap_name b)) rows.*2).

Definition listRoutes (user : session) : tx infra (list app_route) :=
  requirePermission user AppRead ≫= λ _,
  rows ← read (λ s, t_scan (appRoutes s));
  mret (to_sorted (λ a b, localeCompare (rt_name a) (rt_name b)) rows.*2).

Definition listMeshLinks (user : session) : tx infra (list mesh_link) :=
  requirePermission user AppRead ≫= λ _,
  rows ← read (λ s, t_scan (meshLinks s));
  mret (to_sorted (λ a b, localeCompare (ml_name a) (ml_name b)) rows.*2).
End lists.

(** ** namespace.ts *)

Inductive name_kind := KindContainer | KindVolume | KindNetwork | KindLink | KindRoute.
#[export] Instance name_kind_eq_dec : EqDecision name_kind.
Proof. solve_decision. Defined.

Record claim := Claim { nm_kind : name_kind; nm_name : string }.

Definition kind_text (k : name_kind) : string :=
  match k with
  | KindContainer => "container" | KindVolume => "volume" | KindNetwork => "network"
  | KindLink => "link" | KindRoute => "route"
  end.

Definition INGRESS_ROUTE_READ_LIMIT : nat := 1000.

(** The [name] of each [-v name:/path]; a trailing [-v] mounts nothing. *)
Fixpoint volumeNames (args : list string) : list string :=
  let name value := or_else "" (head (str_split ":" value)) in
  match args with
  | [] => []
  | arg :: rest =>
      if (arg === "-v") || (arg === "--volume") then
        match rest with
        | [] => []
        | value :: rest => name value :: volumeNames rest
        end
      else if starts_with "-v=" arg then name (slice_from 3 arg) :: volumeNames rest
      else if starts_with "--volume=" arg then name (slice_from 9 arg) :: volumeNames rest
      else volumeNames rest
  end.

Definition service_claims (app : string) (s : app_service) : list claim :=
  Claim KindContainer (app +:+ "-" +:+ sv_name s) ::
  (Claim KindVolume <$> volumeNames (sv_args s)) ++ option_list (Claim KindRoute <$> sv_route s).

Definition appClaims (app : string) (services : list app_service) (links : list app_link) : list claim :=
  Claim KindNetwork (app +:+ "-net") :: (s ← services; service_claims app s) ++
  ((λ l, Claim KindLink (lk_name l)) <$> links).

Definition claim_key (c : claim) : string := kind_text (nm_kind c) +:+ ":" +:+ nm_name c.

Definition describe (kind : name_kind) : string :=
  match kind with
  | KindLink => "mesh link"
  | KindRoute => "route label"
  | _ => kind_text kind +:+ " name"
  end.

Abbreviation holders := (gmap string string) (only parsing).

(** The first holder of a name keeps it. *)
Definition hold (holder : string) (claims : list claim) (held : holders) : holders :=
  foldl (λ m c, if is_some (m !! claim_key c) then m else <[claim_key c := holder]> m) held claims.

Definition app_holder (app : string) : string := "App " +:+ in_quotes app.

Definition hold_app (app : string) (held : holders) (row : app_row) : holders :=
  if ap_name row === app then held
  else hold (app_holder (ap_name row)) (appClaims (ap_name row) (ap_services row) (ap_links row)) held.

Definition hold_route (app : string) (rows : list app_row) (held : holders) (r : app_route) : holders :=
  match ownerOfRoute (rt_name r) (rt_app r) (rt_service r) rows with
  | Ambiguous => <[claim_key (Claim KindRoute (rt_name r)) := "more than one App"]> held
  | OwnedBy owner service =>
      if owner === app then held
      else hold (app_holder owner)
        (Claim KindRoute (rt_name r) :: (if is_none service then [Claim KindContainer (rt_name r)] else [])) held
  end.

Definition hold_run (app : string) (held : holders) (d : app_deployment) : holders :=
  match dp_plan d with
  | Some plan =>
      if dp_app d === app then held
      else hold (app_holder (dp_app d)) (appClaims (dp_app d) (pn_services plan) (pn_links plan)) held
  | None => held
  end.

Definition heldByOthers (app : string) : tx infra holders :=
  rows ← take_rows apps (S MAX_APPS);
  routes ← take_rows appRoutes INGRESS_ROUTE_READ_LIMIT;
  runs ← map_tx (λ stage, read (λ s, take 100 (t_where (λ d, dp_stage d === stage) (appDeployments s))))
           [StBuilding; StDeploying; StLinking];
  standalone ← take_rows meshLinks 1000;
  let held := foldl (hold_app app) ∅ rows.*2 in
  let held := foldl (hold_route app rows.*2) held routes.*2 in
  let held := foldl (hold_run app) held (concat runs).*2 in
  mret (foldl (λ m l, hold ("the standalone link " +:+ in_quotes (ml_name l)) [Claim KindLink (ml_name l)] m)
          held standalone.*2).

Definition RENAME_LOSES_DATA : string :=
  "A renamed App or volume mounts a new, empty volume, so copy the data on each Node first (docs/infra-management.md, "
  +:+ in_quotes "Moving a volume to a new name" +:+ ")".

(** Two dependencies of one App whose links get the same name. *)
Fixpoint link_clash (app : string) (needOf : gmap string string) (links : list app_link) : option string :=
  match links with
  | [] => None
  | l :: links =>
      match needOf !! lk_name l with
      | Some other =>
          if other === lk_need l then link_clash app (<[lk_name l := lk_need l]> needOf) links
          else Some ("App " +:+ in_quotes app +:+ ": the dependencies " +:+ in_quotes other +:+ " and " +:+
            in_quotes (lk_need l) +:+ " both get the mesh link name " +:+ in_quotes (lk_name l) +:+
            "; shorten one of them")
      | None => link_clash app (<[lk_name l := lk_need l]> needOf) links
      end
  end.

Definition claim_refusal (app : string) (claims : list claim) (c : claim) (holder : string) : string :=
  let refusal := "App " +:+ in_quotes app +:+ " cannot use the " +:+ describe (nm_kind c) +:+ " " +:+
    in_quotes (nm_name c) +:+ ": " +:+ holder +:+
    " already holds it. Rename the App, or the service, volume or dependency that derives it" in
  if existsb (λ c, nm_kind c === KindVolume) claims then refusal +:+ ". " +:+ RENAME_LOSES_DATA else refusal.

Definition namespaceRefusal (app : string) (services : list app_service) (links : list app_link)
    : tx infra (option string) :=
  match link_clash app ∅ links with
  | Some e => mret (Some e)
  | None =>
      held ← heldByOthers app;
      let claims := appClaims app services links in
      mret (match head (omap (λ c, pair c <$> (held : holders) !! claim_key c) claims) with
            | Some (c, holder) => Some (claim_refusal app claims c holder)
            | None => None
            end)
  end.
