(* ===== verification/Deployments.v ===== *)
(** Deployment records and the App lease of deploy and failover (packages/backend/convex/infra/deployments.ts). *)

From S2P Require Import Prelude JsLib Schema HostLabels AppPolicy InfraSchema InfraStore Nodes DockerArgs AppPlan Apps.

Definition QUEUED_RUN_TIMEOUT_MS : Z := 60 * 60000.

(** ** createDeployment *)

Record deployment_input := DeploymentInput {
  di_app : string;
  di_targetNodeIds : list Id;
  di_trigger : trigger;
  di_stage : option deploy_stage;
  di_detail : option string;
  di_urls : option (list string);
  di_error : option string;
  di_startedAt : option Z;
  di_finishedAt : option Z;
  di_legacyId : option string;
}.

Definition new_deployment (i : deployment_input) (now : Z) : app_deployment :=
  let stage := or_else StQueued (di_stage i) in
  AppDeployment (di_app i) stage (or_else (stage_name stage) (di_detail i)) (or_else [] (di_urls i))
    (di_error i) (or_else now (di_startedAt i)) (di_finishedAt i) (di_targetNodeIds i) None
    (Some (di_trigger i)) (di_legacyId i) None None None None None None None None None None None None.

(** The oldest records by [startedAt]. *)
Definition oldest_deployments (n : nat) (s : infra) : list (Id * app_deployment) :=
  take n (to_sorted (λ a b : Id * app_deployment, dp_startedAt a.2 - dp_startedAt b.2) (t_scan (appDeployments s))).

Definition trim_deployments (retained : Z) : tx infra unit :=
  if DEPLOYMENTS_KEPT <? retained then
    excess ← read (oldest_deployments (Z.to_nat (retained - DEPLOYMENTS_KEPT)));
    for_each excess (λ r : Id * app_deployment, db_delete appDeployments r.1) ≫= λ _,
    writeCounter CtrDeployments (retained - Z.of_nat (length excess))
  else mret tt.

Definition createDeployment (i : deployment_input) (now : Z) : tx infra Id :=
  id ← db_insert appDeployments (new_deployment i now);
  retained ← bumpCounter CtrDeployments 1;
  trim_deployments retained ≫= λ _,
  mret id.

Definition holderOf (deploymentId : Id) : string := "deployment:" +:+ id_text deploymentId.

(** ** begin and advance, the lease-fenced stage writes *)

Inductive begin_result := Started (epoch : Z) | HeldBy (holder : string).

Definition beginDeployment (deploymentId : Id) (now : Z) : tx infra begin_result :=
  dep ← db_get appDeployments deploymentId;
  match dep with
  | None => throw "No such deployment"
  | Some d =>
      if (dp_stage d !== StQueued) || is_some (dp_leaseEpoch d) then
        throw ("Deployment is " +:+ stage_name (dp_stage d) +:+ "; only a queued run can begin")
      else
        lease ← acquireAppLease (dp_app d) (holderOf deploymentId) OpDeploy now None;
        match lease with
        | LeaseHeld heldBy _ => mret (HeldBy heldBy)
        | LeaseGrant epoch _ =>
            db_patch appDeployments deploymentId (λ d, d <| dp_leaseEpoch := Some epoch |>) ≫= λ _,
            mret (Started epoch)
        end
  end.

Definition advanceDeployment (deploymentId : Id) (epoch : Z) (stage : deploy_stage) (detail : option string)
    (urls : option (list string)) (error : option string) (now : Z) : tx infra unit :=
  dep ← db_get appDeployments deploymentId;
  match dep with
  | None => throw "No such deployment"
  | Some d =>
      if (dp_leaseEpoch d !== Some epoch) || isTerminalStage (dp_stage d) then
        throw "Stale lease: this run no longer owns its deployment"
      else
        assertAppLease (dp_app d) epoch now ≫= λ _,
        let terminal := isTerminalStage stage in
        db_patch appDeployments deploymentId (λ d, d <| dp_stage := stage |>
          <| dp_detail := or_else (stage_name stage) detail |>
          <| dp_urls := or_else (dp_urls d) urls |>
          <| dp_error := or_opt error (dp_error d) |>
          <| dp_finishedAt := if terminal then Some now else dp_finishedAt d |>) ≫= λ _,
        if terminal then releaseAppLease (dp_app d) epoch else renewAppLease (dp_app d) epoch now None
  end.

(** ** sweepStale *)

Definition stale_reason (d : app_deployment) (lease : option app_lease) (now : Z) : option string :=
  match dp_leaseEpoch d with
  | None =>
      if QUEUED_RUN_TIMEOUT_MS <? now - dp_startedAt d then Some "never started: its App stayed busy" else None
  | Some epoch =>
      if leaseAdmits (lease_of <$> lease) epoch now then None else Some "lost its App lease mid-run"
  end.

Definition from_hub (d : app_deployment) : bool :=
  match dp_trigger d with Some t => tg_kind t === TrigHubImport | None => false end.

Definition sweep_row (now : Z) (failed : Z) (row : Id * app_deployment) : tx infra Z :=
  let '(id, d) := row in
  if from_hub d then mret failed
  else
    lease ← match dp_leaseEpoch d with
            | None => mret None
            | Some _ => l ← leaseRow (dp_app d); mret (snd <$> l)
            end;
    match stale_reason d lease now with
    | None => mret failed
    | Some reason =>
        db_patch appDeployments id (λ d, d <| dp_stage := StFailed |> <| dp_error := Some reason |>
          <| dp_finishedAt := Some now |>) ≫= λ _,
        when (is_some (dp_operation d)) (infra_call_after (CallAfterSweep id)) ≫= λ _,
        mret (failed + 1)
    end.

Definition sweep_stage (now : Z) (failed : Z) (stage : deploy_stage) : tx infra Z :=
  if isTerminalStage stage then mret failed
  else
    found ← read (λ s, take 200 (t_where (λ d, dp_stage d === stage) (appDeployments s)));
    fold_tx (sweep_row now) failed found.

Definition sweepStale (now : Z) : tx infra Z := fold_tx (sweep_stage now) 0 DEPLOY_STAGES.

(** ** Failover by hand *)

Definition beginFailover (app : string) (lostNodeId : Id) (now : Z) : tx infra begin_result :=
  lease ← acquireAppLease app ("failover:" +:+ id_text lostNodeId) OpFailover now None;
  mret (match lease with LeaseGrant epoch _ => Started epoch | LeaseHeld heldBy _ => HeldBy heldBy end).

(** One service of the App: moved with the port its new Node allocated for it, if it ran on the lost Node. *)
Definition move_service (app : string) (primary fromNodeId toNodeId : Id) (s : app_service) : tx infra app_service :=
  if or_else primary (sv_nodeId s) !== fromNodeId then mret s
  else
    port ← match sv_port s with
           | None => mret None
           | Some _ =>
               allocation ← byNodeKey toNodeId (port_key app (sv_name s));
               match allocation with
               | None => throw (port_key app (sv_name s) +:+ " has no port on the target Node; redeploy it there first")
               | Some (_, a) => mret (Some (pa_port a))
               end
           end;
    mret (AppService (sv_name s) (sv_image s) (sv_args s) (or_opt port (sv_port s)) (sv_route s)
            (Some toNodeId) (sv_env s)).

Definition move_route (app : string) (fromNodeId toNodeId : Id) (now : Z) (s : app_service) : tx infra unit :=
  match sv_route s with
  | None => mret tt
  | Some label =>
      if sv_nodeId s !== Some toNodeId then mret tt
      else
        route ← route_named label;
        match route with
        | None => mret tt
        | Some (id, r) =>
            if rt_nodeId r !== fromNodeId then mret tt
            else
              owner ← loadRouteOwner r;
              match owner with
              | OwnedBy other _ =>
                  when (other === app)
                    (db_patch appRoutes id (λ r, r <| rt_nodeId := toNodeId |>
                      <| rt_port := or_else (rt_port r) (sv_port s) |>
                      <| rt_provenance := Some (convexWrite now) |> <| rt_updatedAt := now |>))
              | Ambiguous => mret tt
              end
        end
  end.

Definition completeFailover (app : string) (epoch : Z) (fromNodeId toNodeId : Id) (now : Z) : tx infra unit :=
  assertAppLease app epoch now ≫= λ _,
  row ← app_named app;
  match row with
  | None => throw (app +:+ " has no App row, so its new port is unknown; redeploy it through the pipeline")
  | Some (id, a) =>
      services ← map_tx (move_service (ap_name a) (ap_nodeId a) fromNodeId toNodeId) (ap_services a);
      db_patch apps id (λ a, AppRow (ap_name a) (if ap_nodeId a === fromNodeId then toNodeId else ap_nodeId a)
        services (ap_links a) (ap_spec a) (Some (convexWrite now)) now) ≫= λ _,
      for_each services (move_route (ap_name a) fromNodeId toNodeId now) ≫= λ _,
      releaseAppLease app epoch ≫= λ _,
      appendAudit (entry "system:failover" "apps.failover" app AudSuccess
        (Some (json_object [("from", json_string (id_text fromNodeId)); ("to", json_string (id_text toNodeId))]))) now ≫= λ _,
      mret tt
  end.

(** ** Queries *)

Definition list_limit (limit : option Z) : nat := Z.to_nat (Z.min (Z.max (or_else 20 limit) 1) 200).

(** Newest first, optionally for one App. *)
Definition listDeployments (user : session) (app : option string) (limit : option Z)
    : tx infra (list (Id * app_deployment)) :=
  requirePermission user AppRead ≫= λ _,
  read (λ s, take (list_limit limit) (reverse
    (to_sorted (λ a b : Id * app_deployment, dp_startedAt a.2 - dp_startedAt b.2)
      (t_where (λ d, match app with Some a => dp_app d === a | None => true end) (appDeployments s))))).

Definition retainedCount (user : session) : tx infra Z :=
  requirePermission user AppRead ≫= λ _, readCounter CtrDeployments.
