(* ===== verification/Pipeline.v ===== *)
(** The deploy pipeline (packages/backend/convex/infra/pipeline.ts): a state machine over the
    deployment records, advanced by ticks.  The YAML parser, the locale's comparison of strings and
    the process environment are parameters. *)

From S2P Require Import Prelude JsLib Schema HostLabels Egress AppPolicy InfraSchema InfraStore.
From S2P Require Import AppPlan Nodes DockerArgs AppSpecs NodeCommands Apps Deployments.

(** ** Constants, the registry *)

Definition STEP_TIMEOUT_MS (c : node_command) : Z :=
  match c with CmdBuild _ _ => 15 * 60000 | CmdSpec _ => 2 * 60000 | _ => 5 * 60000 end.
Definition QUEUE_ALLOWANCE_MS : Z := 5 * 60000.
Definition ACTIVE_STAGES : list deploy_stage := [StReadingSpec; StPlanning; StBuilding; StDeploying; StLinking].

(** [process.env]: the variables the pipeline reads. *)
Record pipeline_env := PipelineEnv {
  pe_registry : option string;
  pe_registryNode : option string;
  pe_appDomain : option string;
  pe_failover : option string;
}.

Definition str_truthy (s : option string) : option string :=
  match s with Some v => if Nat.eqb (String.length v) 0 then None else Some v | None => None end.

Definition registryAddress (env : pipeline_env) : option string := str_truthy (trim <$> pe_registry env).

(** [\d{1,k}] *)
Definition short_digits (k : nat) (s : string) : bool :=
  str_all is_digit s && Nat.leb 1 (String.length s) && Nat.leb (String.length s) k.

Definition registry_host (s : string) : bool :=
  match String.list_ascii_of_string s with
  | [] => false
  | c :: l => (is_alpha c || is_digit c) &&
      forallb (λ c, is_alpha c || is_digit c || Ascii.eqb c "." || Ascii.eqb c "-") l
  end.
Definition registry_segment (s : string) : bool :=
  match String.list_ascii_of_string s with
  | [] => false
  | c :: l => label_head c && forallb (λ c, label_head c || Ascii.eqb c "." || Ascii.eqb c "_" || Ascii.eqb c "-") l
  end.

(** A host, an optional port of one to five digits, and path segments each after a slash. *)
Definition REGISTRY_PATTERN (s : string) : bool :=
  match str_split "/" s with
  | [] => false
  | authority :: path =>
      match str_split ":" authority with
      | [host] => registry_host host
      | [host; port] => registry_host host && short_digits 5 port
      | _ => false
      end && forallb registry_segment path
  end.

Definition REGISTRY_UNSET : string :=
  "ERAINFRA_REGISTRY is not set in the Convex environment, so there is nowhere to push a build. Set it to the registry every Node pushes to and pulls from, e.g. 127.0.0.1:61050 for the one deploy/infra/hub.sh runs, with ERAINFRA_REGISTRY_NODE naming the Node that runs it (docs/infra-management.md, Image registry and cross-Node links)".

Definition pullsFrom (image registry : string) : bool := starts_with (registry +:+ "/") image.

Definition isLoopbackRegistry (registry : string) : bool :=
  let authority := or_else "" (head (str_split "/" registry)) in
  let host := to_lower (match reverse (str_split ":" authority) with
                        | port :: part :: parts =>
                            if short_digits 5 port then str_join ":" (reverse (part :: parts)) else authority
                        | _ => authority
                        end) in
  (host === "localhost") ||
  match str_split "." host with
  | ["127"; a; b; c] => forallb (short_digits 3) [a; b; c]
  | _ => false
  end.

Definition registryRefusal (registry : option string) : option string :=
  match registry with
  | None => Some REGISTRY_UNSET
  | Some r =>
      if REGISTRY_PATTERN r then None
      else Some ("ERAINFRA_REGISTRY=" +:+ in_quotes r +:+ " is not a registry address; give host[:port], with no scheme")
  end.

Abbreviation run_row := (Id * app_deployment)%type (only parsing).

Definition stepKey (run : Id) (step : string) (nodeId : Id) : string :=
  id_text run +:+ ":" +:+ step +:+ ":" +:+ id_text nodeId.
Definition retireKey (run : Id) (service : string) (nodeId : Id) : string :=
  id_text run +:+ ":retire-" +:+ service +:+ ":" +:+ id_text nodeId.
Definition containerName (app service : string) : string := app +:+ "-" +:+ service.

(** ** Creating runs *)

Record run_input := RunInput {
  ri_app : string;
  ri_operation : lease_operation;
  ri_trigger : trigger;
  ri_source : option deploy_source;
  ri_buildNodeId : option Id;
  ri_defaultNodeId : option Id;
  ri_port : option Z;
  ri_gitBindingId : option Id;
  ri_failover : option failover_move;
}.

Definition createRun (i : run_input) (now : Z) : tx infra Id :=
  if negb (LABEL (ri_app i)) then throw "App names are lowercase alphanumeric + dashes"
  else
    id ← createDeployment (DeploymentInput (ri_app i) [] (ri_trigger i) None None None None None None None) now;
    db_patch appDeployments id (λ d, d <| dp_operation := Some (ri_operation i) |>
      <| dp_source := or_opt (ri_source i) (dp_source d) |>
      <| dp_buildNodeId := or_opt (ri_buildNodeId i) (dp_buildNodeId d) |>
      <| dp_defaultNodeId := or_opt (ri_defaultNodeId i) (dp_defaultNodeId d) |>
      <| dp_port := or_opt (ri_port i) (dp_port d) |>
      <| dp_gitBindingId := or_opt (ri_gitBindingId i) (dp_gitBindingId d) |>
      <| dp_failover := or_opt (ri_failover i) (dp_failover d) |>) ≫= λ _,
    infra_call_after (CallTick id) ≫= λ _,
    mret id.

(** ** Ending a run *)

Definition cancel_if_open (now : Z) (row : Id * node_command_row) : tx infra unit :=
  when ((nq_status row.2 === NPending) || (nq_status row.2 === NRunning))
    (db_patch nodeCommands row.1 (λ c, c <| nq_status := NCancelled |> <| nq_unsettled := false |>
      <| nq_finishedAt := Some now |>)).

Definition run_status (d : app_deployment) (now : Z) : git_status :=
  GitStatus now (or_else "" (dp_trigger d ≫= tg_sha)) (dp_stage d === StDone)
    (if dp_stage d === StDone then "done" else dp_detail d) (dp_error d).

(** The uploaded source goes with the run. *)
Definition delete_upload (id : Id) (d : app_deployment) : tx infra unit :=
  match dp_source d with
  | Some (SrcUpload storageId) =>
      if or_else false (dp_sourceDeleted d) then mret tt
      else
        modify (λ s, s <| storedFiles ::= λ f, f ∖ {[ storageId ]} |>) ≫= λ _,
        db_patch appDeployments id (λ d, d <| dp_sourceDeleted := Some true |>)
  | _ => mret tt
  end.

Definition note_on_binding (d : app_deployment) (now : Z) : tx infra unit :=
  match dp_gitBindingId d with
  | None => mret tt
  | Some bindingId =>
      binding ← db_get gitBindings bindingId;
      match binding with
      | None => mret tt
      | Some _ =>
          db_patch gitBindings bindingId (λ b, b <| gb_provenance := Some (convexWrite now) |>
            <| gb_updatedAt := Some now |> <| gb_lastStatus := Some (run_status d now) |>)
      end
  end.

Definition cleanUp (run : run_row) (now : Z) : tx infra unit :=
  let '(id, d) := run in
  steps ← read (λ s, take 100 (t_where (λ c, nq_deploymentId c === Some id) (nodeCommands s)));
  for_each steps (cancel_if_open now) ≫= λ _,
  delete_upload id d ≫= λ _,
  note_on_binding d now.

(** The run after a patch; [ctx.db.get(run._id)!]. *)
Definition reload (id : Id) : tx infra run_row :=
  d ← db_get appDeployments id;
  match d with Some d => mret (id, d) | None => throw "Cannot read properties of null" end.

Definition operation_name (o : lease_operation) : string :=
  match o with OpDeploy => "deploy" | OpFailover => "failover" end.

Definition finishRun (run : run_row) (stage : deploy_stage) (detail : string) (error : option string)
    (urls : option (list string)) (now : Z) : tx infra unit :=
  let '(id, r) := run in
  db_patch appDeployments id (λ d, d <| dp_stage := stage |> <| dp_detail := detail |>
    <| dp_finishedAt := Some now |> <| dp_error := or_opt error (dp_error d) |>
    <| dp_urls := or_else (dp_urls d) urls |>) ≫= λ _,
  match dp_leaseEpoch r with Some epoch => releaseAppLease (dp_app r) epoch | None => mret tt end ≫= λ _,
  fresh ← reload id;
  cleanUp fresh now ≫= λ _,
  appendAudit (entry ("system:" +:+ operation_name (or_else OpDeploy (dp_operation r)))
    (if dp_operation r === Some OpFailover then "apps.failover" else "apps.deploy") (dp_app r)
    (if stage === StDone then AudSuccess else AudFailure)
    (Some (json_object ([("deploymentId", json_string (id_text id))] ++
      option_list ((λ e, ("error", json_string (slice0 300 e))) <$> error) ++
      match dp_failover r with
      | Some f => [("from", json_string (id_text (fm_lostNodeId f))); ("to", json_string (id_text (fm_toNodeId f)))]
      | None => []
      end)))) now ≫= λ _,
  infra_call_after (CallKick (dp_app r)).

Definition failRun (run : run_row) (error : string) (now : Z) : tx infra (option run_row) :=
  finishRun run StFailed (stage_name (dp_stage run.2)) (Some error) None now ≫= λ _, mret None.

Definition moveTo (run : run_row) (stage : deploy_stage) (detail : string)
    (extra : app_deployment → app_deployment) (now : Z) : tx infra (option run_row) :=
  db_patch appDeployments run.1 (λ d, extra (d <| dp_stage := stage |> <| dp_detail := detail |>
    <| dp_stageStartedAt := Some now |>)) ≫= λ _,
  fresh ← reload run.1; mret (Some fresh).

(** ** Steps *)

Inductive step_state := StepWait | StepDone (command : node_command_row) | StepFailed (error : string).

Definition runStep (run : run_row) (nodeId : Id) (step : string) (command : node_command) (now : Z)
    : tx infra step_state :=
  node ← db_get nodes nodeId;
  let name := or_else (id_text nodeId) (nd_name <$> node) in
  queued ← insertNodeCommand nodeId (stepKey run.1 step nodeId) command (Some (dp_app run.2))
             (dp_leaseEpoch run.2) (Some run.1) now;
  row ← db_get nodeCommands queued.1;
  match row with
  | None => throw "Cannot read properties of null"
  | Some c =>
      mret (match nq_status c with
      | NSettled OutSuccess => StepDone c
      | NSettled OutFailure => StepFailed (step +:+ " failed on " +:+ name +:+ "; the Infra Agent's log says why")
      | NSettled OutUnknown => StepFailed (step +:+ " on " +:+ name +:+
          " ended with an unknown outcome (the Infra Agent restarted mid-step); inspect the Node before deploying again")
      | NCancelled => StepFailed (step +:+ " on " +:+ name +:+ " was cancelled")
      | NPending | NRunning =>
          if negb (isNodeLive (node ≫= nd_lastSeenAt) now) then StepFailed (name +:+ " has stopped sending heartbeats")
          else if STEP_TIMEOUT_MS command + QUEUE_ALLOWANCE_MS <? now - nq_createdAt c
          then StepFailed (step +:+ " on " +:+ name +:+ " timed out")
          else StepWait
      end)
  end.

(** ** Planning *)

Definition notLiveRefusal (app node : string) : string :=
  "App " +:+ in_quotes app +:+ " runs on " +:+ node +:+
  ", which is not connected to Convex (it is down, or still in Hub mode). A deploy that names no Node keeps the App where its volumes are. Bring "
  +:+ node +:+
  " back, or name another Node with --node to move the App there with empty volumes; failover is what moves Apps off a lost Node.".

Definition currentPlacement (app : string) : tx infra (option (Id * gmap string Id)) :=
  row ← app_named app;
  match row with
  | Some (_, a) =>
      mret (Some (ap_nodeId a, foldl (λ m s, <[sv_name s := or_else (ap_nodeId a) (sv_nodeId s)]> m) ∅ (ap_services a)))
  | None =>
      route ← route_named app;
      match route with
      | None => mret None
      | Some (_, r) =>
          owner ← loadRouteOwner r;
          mret (if isSingleContainerRoute (rt_name r) owner then Some (rt_nodeId r, ∅) else None)
      end
  end.

(** The port allocator of a [try] block: an exception stops the plan and keeps what was written
    before it, so the store is kept beside the exception. *)
Definition caught_allocate (now : Z) (nodeId : Id) (key : string) : tx (infra * option exn) Z := λ '(s, stop),
  match stop with
  | Some _ => Done (0, (s, stop))
  | None =>
      match allocatePort nodeId key now s with
      | Done (port, s') => Done (port, (s', None))
      | Failed e => Done (0, (s, Some e))
      end
  end.

(** [planDeploy] reads an undefined service only for a spec whose dependencies are not services,
    which [parseSpec] refuses. *)
Definition tryPlan (input : plan_input) (now : Z) : tx infra (plan_result + exn) := λ s,
  match planDeploy (caught_allocate now) input (s, None) with
  | Done (r, (s', None)) => Done (inl r, s')
  | Done (_, (s', Some e)) => Done (inr e, s')
  | Failed e => Done (inr e, s)
  end.

(** [e instanceof ConvexError ? String(e.data) : "planning failed"]: a failed [unique()] and the read
    of a property of undefined are not Convex errors. *)
Definition plan_failure (e : exn) : string :=
  match e with
  | Thrown m =>
      if (m === "unique() query returned more than one result") || (m === "Cannot read properties of undefined")
      then "planning failed" else m
  | Refused _ _ => "planning failed"
  end.

Definition is_retirement (names : list string) (c : node_command_row) : bool :=
  match nq_command c with
  | CmdOperate op =>
      (no_name op === "container.remove") && bool_decide (or_else "" (no_args op !! "name") ∈ names) &&
      includes ":retire-" (nq_idempotencyKey c)
  | _ => false
  end.

Definition cancelRetirements (nodeId : Id) (containers : list string) (now : Z) : tx infra unit :=
  pending ← read (λ s, take 200 (t_where (λ c, (nq_nodeId c === nodeId) && (nq_status c === NPending)) (nodeCommands s)));
  for_each pending (λ row : Id * node_command_row,
    when (is_retirement containers row.2)
      (db_patch nodeCommands row.1 (λ c, c <| nq_status := NCancelled |> <| nq_unsettled := false |>
        <| nq_finishedAt := Some now |>))).

Definition deployDetail (nodeIds : list Id) : string :=
  "deploying on " +:+ pretty (Z.of_nat (length nodeIds)) +:+ " Node(s)".

Section pipeline.
Context (localeCompare : string → string → Z) (parseYaml : string → json + string) (env : pipeline_env).

Definition liveNodes (now : Z) : tx infra (list (Id * node_doc)) :=
  found ← take_rows nodes 500;
  mret (to_sorted (λ a b : Id * node_doc, localeCompare (nd_name a.2) (nd_name b.2))
    (filter (λ n : Id * node_doc, isNodeLive (nd_lastSeenAt n.2) now = true) found)).

(** The link of one Node to the registry; [Some] is the refusal. *)
Definition link_registry (provider : Id) (port : Z) (now : Z) (error : option string) (nodeId : Id)
    : tx infra (option string) :=
  if is_some error || (nodeId === provider) then mret error
  else
    node ← db_get nodes nodeId;
    match node with
    | None => mret None
    | Some n =>
        let name := slice0 63 ("registry-" +:+ nd_name n) in
        existing ← link_named name;
        match existing with
        | Some (_, l) =>
            if (ml_providerNodeId l === provider) && (ml_consumerNodeId l === nodeId) &&
               (ml_providerPort l =? port) && (ml_localPort l =? port)
            then mret None
            else if ml_createdBy l !== Some LinkByDeploy then
              mret (Some ("the mesh link name " +:+ name +:+ " is taken by a link someone declared"))
            else upsertMeshLink name provider port nodeId port (Some LinkByDeploy) None now ≫= λ _, mret None
        | None => upsertMeshLink name provider port nodeId port (Some LinkByDeploy) None now ≫= λ _, mret None
        end
    end.

(** The port of [host:port], when it is an integer from 1 to 65535. *)
Definition registry_port (registry : string) : option Z :=
  match str_split ":" (or_else "" (head (str_split "/" registry))) with
  | _ :: port :: _ =>
      if PORT_DIGITS port && (1 <=? digits_value port) && (digits_value port <=? 65535)
      then Some (digits_value port) else None
  | _ => None
  end.

Definition ensureRegistryLinks (nodeIds : list Id) (now : Z) : tx infra (option string) :=
  if Nat.eqb (length nodeIds) 0 then mret None
  else
    let registry := registryAddress env in
    match str_truthy (pe_registryNode env) with
    | None =>
        match registry with
        | Some r =>
            if isLoopbackRegistry r then
              found ← take_rows nodes 2;
              mret (if Nat.ltb 1 (length found) then
                Some ("ERAINFRA_REGISTRY=" +:+ in_quotes r +:+
                  " is a loopback address and ERAINFRA_REGISTRY_NODE is unset, so each Node would push to and pull from its own loopback; set ERAINFRA_REGISTRY_NODE to the Node that runs the registry once it is connected to Convex with a proven mesh endpoint (docs/infra-management.md, Image registry and cross-Node links)")
                else None)
            else mret None
        | None => mret None
        end
    | Some registryNode =>
        provider ← nodeByName registryNode;
        match provider with
        | None => mret (Some ("ERAINFRA_REGISTRY_NODE names no Node " +:+ in_quotes registryNode))
        | Some (providerId, p) =>
            match registryRefusal registry with
            | Some refusal => mret (Some refusal)
            | None =>
                let address := or_else "" registry in
                match registry_port address with
                | None => mret (Some ("cannot read a port from ERAINFRA_REGISTRY=" +:+ in_quotes address +:+
                    "; with ERAINFRA_REGISTRY_NODE it must be 127.0.0.1:<port>"))
                | Some port =>
                    let targets := set_of nodeIds in
                    if existsb (λ id, id !== providerId) targets &&
                       (negb (isNodeLive (nd_lastSeenAt p) now) || is_none (nd_endpointProvenAt p))
                    then mret (Some ("the registry Node " +:+ registryNode +:+
                      " (ERAINFRA_REGISTRY_NODE) is not connected to Convex with a proven mesh endpoint, so no other Node can reach its registry; switch it to connect-convex first"))
                    else fold_tx (link_registry providerId port now) None targets
                end
            end
        end
    end.

(** What a run plans from: its spec, default Node, placement, images, and the App before a failover. *)
Record plan_basis := PlanBasis {
  pb_spec : app_spec;
  pb_defaultNodeId : Id;
  pb_placement : gmap string Id;
  pb_images : gmap string string;
  pb_before : option app_row;
}.

Inductive basis := BasisReady (b : plan_basis) | BasisFail (error : string) | BasisNothing.

Definition failover_basis (run : run_row) (live : list (Id * node_doc)) : tx infra basis :=
  before ← app_named (dp_app run.2);
  match dp_failover run.2 with
  | None => throw "Cannot read properties of undefined"
  | Some f =>
      let lost := fm_lostNodeId f in
      match before with
      | None => mret (BasisFail "the App no longer exists")
      | Some (_, a) =>
          match ap_spec a with
          | None => mret (BasisFail "the App has no stored spec (it was copied from the Hub); deploy it once through Convex to enable failover")
          | Some spec =>
              let node_of s := or_else (ap_nodeId a) (sv_nodeId s) in
              if Nat.eqb (length (filter (λ s, node_of s = lost) (ap_services a))) 0 then mret BasisNothing
              else
                let survivor := if bool_decide (fm_toNodeId f ∈ live.*1) then Some (fm_toNodeId f)
                                else head (filter (λ n, n ≠ lost) live.*1) in
                match survivor with
                | None => mret (BasisFail "no surviving Node to move the App to")
                | Some to =>
                    if to === lost then mret (BasisFail "no surviving Node to move the App to")
                    else
                      when (to !== fm_toNodeId f)
                        (db_patch appDeployments run.1 (λ d, d <| dp_failover := Some (FailoverMove lost to) |>)) ≫= λ _,
                      mret (BasisReady (PlanBasis spec (if ap_nodeId a === lost then to else ap_nodeId a)
                        (foldl (λ m s, <[sv_name s := if node_of s === lost then to else node_of s]> m) ∅ (ap_services a))
                        (foldl (λ m s, <[sv_name s := sv_image s]> m) ∅ (ap_services a)) (Some a)))
                end
          end
      end
  end.

Definition kept_placement (services : gmap string Id) (spec : app_spec) : gmap string Id :=
  foldl (λ m s, match ss_node s, services !! ss_name s with
                | None, Some node => <[ss_name s := node]> m
                | _, _ => m
                end) ∅ (sp_services spec).

Definition deploy_basis (run : run_row) : tx infra basis :=
  match dp_spec run.2, dp_defaultNodeId run.2 with
  | Some spec, Some defaultNodeId =>
      placement ← (if dp_keepsPlacement run.2 === Some true then
                     current ← currentPlacement (dp_app run.2);
                     mret (match current with Some (_, services) => kept_placement services spec | None => ∅ end)
                   else mret ∅);
      mret (BasisReady (PlanBasis spec defaultNodeId placement ∅ None))
  | _, _ => throw "Cannot read properties of undefined"
  end.

(** The Nodes the spec names, by name. *)
Definition named_nodes (spec : app_spec) : tx infra (gmap string Id) :=
  fold_tx (λ (m : gmap string Id) s,
    match ss_node s with
    | None => mret m
    | Some name =>
        if is_some (m !! name) then mret m
        else
          row ← nodeByName name;
          mret (match row with Some (id, _) => <[name := id]> m | None => m end)
    end) ∅ (sp_services spec).

Definition revision_of (run : run_row) : string :=
  match dp_source run.2 with
  | Some (SrcGit _ _ (Some sha)) => or_string sha (id_text run.1)
  | _ => id_text run.1
  end.

(** The first Node of the plan that is not live, if any. *)
Definition dead_target (live : list Id) (deployNodeIds : list Id) : option Id :=
  head (filter (λ n, n ∉ live) deployNodeIds).

Definition plan_urls (services : list planned_service) : list string :=
  s ← services;
  if truthy (pl_route s) then
    let route := or_else "" (pl_route s) in
    [match str_truthy (pe_appDomain env) with Some domain => "https://" +:+ route +:+ "." +:+ domain | None => route end]
  else [].

(** The Nodes that push to or pull from the registry. *)
Definition registry_users (run : run_row) (plan : deploy_plan) (deployNodeIds : list Id) : list Id :=
  filter (λ n, existsb (λ s, (pl_nodeId s === n) &&
      match registryAddress env with Some r => pullsFrom (pl_image s) r | None => false end) (dl_services plan) = true)
    deployNodeIds ++
  (if Nat.eqb (length (dl_builds plan)) 0 then [] else option_list (dp_buildNodeId run.2)).

Definition plan_with (run : run_row) (b : plan_basis) (live : list Id) (now : Z) : tx infra (option run_row) :=
  nodeIds ← named_nodes (pb_spec b);
  let registry := registryAddress env in
  let builds := existsb (λ s, is_none (ss_image s) && is_none (pb_images b !! ss_name s)) (sp_services (pb_spec b)) in
  match (if builds then registryRefusal registry else None) with
  | Some refusal => failRun run refusal now
  | None =>
      planned ← tryPlan (PlanInput (pb_spec b) (pb_defaultNodeId b) (λ name, (nodeIds : gmap string Id) !! name)
                   (pb_placement b) (pb_images b) (or_else "" registry) (Some (revision_of run))) now;
      match planned with
      | inr e => failRun run (plan_failure e) now
      | inl (PlanError error) => failRun run error now
      | inl (PlanOk plan) =>
          let services := stored_service <$> dl_services plan in
          taken ← namespaceRefusal (dp_app run.2) services (dl_links plan);
          match taken with
          | Some error => failRun run error now
          | None =>
              let deployNodeIds := match pb_before b with
                | None => set_of (pl_nodeId <$> dl_services plan)
                | Some a => changedNodes localeCompare (ap_services a) (ap_nodeId a) (dl_services plan)
                end in
              match dead_target live deployNodeIds with
              | Some dead =>
                  node ← db_get nodes dead;
                  let name := or_else (id_text dead) (nd_name <$> node) in
                  let kept := (dp_keepsPlacement run.2 === Some true) &&
                              bool_decide (dead ∈ (map_to_list (pb_placement b)).*2) in
                  failRun run (if kept then notLiveRefusal (dp_app run.2) name
                               else name +:+ " is not connected to Convex") now
              | None =>
                  registryError ← ensureRegistryLinks (registry_users run plan deployNodeIds) now;
                  match registryError with
                  | Some error => failRun run error now
                  | None =>
                      for_each deployNodeIds (λ n, cancelRetirements n
                        (containerName (dp_app run.2) ∘ pl_name <$> filter (λ s, pl_nodeId s = n) (dl_services plan)) now) ≫= λ _,
                      let stored := StoredPlan (dl_nodeId plan) services (dl_links plan) (dl_builds plan)
                                      deployNodeIds (plan_urls (dl_services plan)) in
                      let extra d := d <| dp_plan := Some stored |> <| dp_targetNodeIds := deployNodeIds |> in
                      if Nat.ltb 0 (length (dl_builds plan)) then
                        moveTo run StBuilding ("building " +:+ pretty (Z.of_nat (length (dl_builds plan))) +:+ " service(s)") extra now
                      else moveTo run StDeploying (deployDetail deployNodeIds) extra now
                  end
              end
          end
      end
  end.

Definition planStage (run : run_row) (now : Z) : tx infra (option run_row) :=
  live ← liveNodes now;
  b ← (if dp_operation run.2 === Some OpFailover then failover_basis run live else deploy_basis run);
  match b with
  | BasisFail error => failRun run error now
  | BasisNothing => finishRun run StDone "nothing ran on the lost Node" None (Some []) now ≫= λ _, mret None
  | BasisReady b => plan_with run b live.*1 now
  end.

(** ** Committing *)

(** The removal of the old containers, queued on the lost Node.  [insertNodeCommand] throws before
    it writes, so a caught exception leaves the store as it was. *)
Definition queue_retirement (run : run_row) (lost : Id) (before : app_row) (plan : stored_plan) (now : Z)
    (s : app_service) : tx infra unit :=
  if or_else (ap_nodeId before) (sv_nodeId s) !== lost then mret tt
  else match head (filter (λ p, sv_name p = sv_name s) (pn_services plan)) with
  | None => mret tt
  | Some moved =>
      if sv_nodeId moved === Some lost then mret tt
      else λ st,
        match insertNodeCommand lost (retireKey run.1 (sv_name s) lost)
                (CmdOperate (NodeOperation "container.remove" {[ "name" := containerName (dp_app run.2) (sv_name s) ]}))
                None None None now st with
        | Done (_, st') => Done (tt, st')
        | Failed _ => Done (tt, st)
        end
  end.

Definition write_route (run : run_row) (plan : stored_plan) (now : Z) (s : app_service) : tx infra unit :=
  match sv_route s, sv_port s with
  | Some route, Some port =>
      when (negb (Nat.eqb (String.length route) 0))
        (upsertRoute route (or_else (pn_nodeId plan) (sv_nodeId s)) (sv_image s) port (dp_app run.2)
           (Some (sv_name s)) None now ≫= λ _, mret tt)
  | _, _ => mret tt
  end.

Definition commitRun (run : run_row) (now : Z) : tx infra unit :=
  match dp_plan run.2, dp_leaseEpoch run.2 with
  | Some plan, Some epoch =>
      assertAppLease (dp_app run.2) epoch now ≫= λ _,
      taken ← namespaceRefusal (dp_app run.2) (pn_services plan) (pn_links plan);
      match taken with
      | Some error => failRun run error now ≫= λ _, mret tt
      | None =>
          before ← app_named (dp_app run.2);
          let spec := if dp_operation run.2 === Some OpFailover then (snd <$> before) ≫= ap_spec else dp_spec run.2 in
          upsertApp (dp_app run.2) (pn_nodeId plan) (pn_services plan) (pn_links plan) spec None now ≫= λ _,
          for_each (pn_services plan) (write_route run plan now) ≫= λ _,
          match dp_operation run.2, before, dp_failover run.2 with
          | Some OpFailover, Some (_, a), Some f =>
              for_each (ap_services a) (queue_retirement run (fm_lostNodeId f) a plan now)
          | Some OpFailover, Some _, None => throw "Cannot read properties of undefined"
          | _, _, _ => mret tt
          end ≫= λ _,
          finishRun run StDone (if dp_operation run.2 === Some OpFailover then "failed over" else "deployed")
            None (Some (pn_urls plan)) now
      end
  | _, _ => throw "Cannot read properties of undefined"
  end.

(** ** Stages *)

(** The spec of a run whose spec command succeeded. *)
Definition read_spec (run : run_row) (text : string) : app_spec + string :=
  if Nat.ltb 0 (String.length (trim text)) then parseSpec parseYaml text (dp_app run.2)
  else match dp_port run.2 with
  | Some port =>
      if isRouteLabel (dp_app run.2) then inl (implicitSpec (dp_app run.2) port)
      else inr (routeLabelError "web" (dp_app run.2) true)
  | None => inr "the source has no erainfra.yaml or portless.yaml; add one, or set a port"
  end.

Definition specStage (run : run_row) (now : Z) : tx infra (option run_row) :=
  match dp_buildNodeId run.2 with
  | None => throw "Cannot read properties of undefined"
  | Some nodeId =>
      state ← runStep run nodeId "spec" (CmdSpec run.1) now;
      match state with
      | StepWait => mret None
      | StepFailed error => failRun run error now
      | StepDone c =>
          match read_spec run (or_else "" (nq_specText c)) with
          | inr error => failRun run error now
          | inl spec =>
              if sp_app spec !== dp_app run.2 then
                failRun run ("the spec names App " +:+ in_quotes (sp_app spec) +:+ ", but this run deploys " +:+
                  in_quotes (dp_app run.2)) now
              else moveTo run StPlanning "planning placement and ports" (λ d, d <| dp_spec := Some spec |>) now
          end
      end
  end.

Fixpoint buildSteps (run : run_row) (plan : stored_plan) (i : Z) (builds : list planned_build) (now : Z)
    : tx infra (option run_row) :=
  match builds with
  | [] => moveTo run StDeploying (deployDetail (pn_deployNodeIds plan)) (λ d, d) now
  | build :: builds =>
      match dp_buildNodeId run.2 with
      | None => throw "Cannot read properties of undefined"
      | Some nodeId =>
          state ← runStep run nodeId ("build-" +:+ pb_service build) (CmdBuild run.1 (pb_service build)) now;
          match state with
          | StepFailed error => failRun run error now
          | StepWait =>
              let detail := "building " +:+ pb_service build +:+ " (" +:+ pretty (i + 1) +:+ "/" +:+
                pretty (Z.of_nat (length (pn_builds plan))) +:+ ")" in
              when (dp_detail run.2 !== detail)
                (db_patch appDeployments run.1 (λ d, d <| dp_detail := detail |>)) ≫= λ _,
              mret None
          | StepDone _ => buildSteps run plan (i + 1) builds now
          end
      end
  end.

Fixpoint deploySteps (run : run_row) (plan : stored_plan) (waiting : bool) (targets : list Id) (now : Z)
    : tx infra (option run_row) :=
  match targets with
  | [] =>
      if waiting then mret None
      else moveTo run StLinking ("recording " +:+ pretty (Z.of_nat (length (pn_links plan))) +:+ " link(s)") (λ d, d) now
  | nodeId :: targets =>
      state ← runStep run nodeId "deploy"
                (CmdDeploy run.1 (if dp_operation run.2 === Some OpFailover then Some OpFailover else None)) now;
      match state with
      | StepFailed error => failRun run error now
      | StepWait => deploySteps run plan true targets now
      | StepDone _ => deploySteps run plan waiting targets now
      end
  end.

(** One stage: the run to continue with, or [None] to wait. *)
Definition runStage (run : run_row) (now : Z) : tx infra (option run_row) :=
  match dp_stage run.2, dp_plan run.2 with
  | StReadingSpec, _ => specStage run now
  | StPlanning, _ => planStage run now
  | StBuilding, Some plan => buildSteps run plan 0 (pn_builds plan) now
  | StDeploying, Some plan => deploySteps run plan false (pn_deployNodeIds plan) now
  | StBuilding, None | StDeploying, None => throw "Cannot read properties of undefined"
  | StLinking, _ => commitRun run now ≫= λ _, mret None
  | _, _ => mret None
  end.

Fixpoint advance_loop (guard : nat) (run : run_row) (now : Z) : tx infra unit :=
  match guard with
  | O => mret tt
  | S guard =>
      if isTerminalStage (dp_stage run.2) then mret tt
      else
        next ← runStage run now;
        match next with None => mret tt | Some run => advance_loop guard run now end
  end.

Definition advanceRun (run : run_row) (now : Z) : tx infra unit := advance_loop 8 run now.

(** ** Starting a run *)

Definition queued_run (d : app_deployment) (app : string) : bool :=
  (dp_stage d === StQueued) && (dp_app d === app) && is_some (dp_operation d).

(** What a deploy starts from: its build Node, its default Node, whether it keeps the App's placement;
    or the refusal. *)
Definition choose_nodes (d : app_deployment) (now : Z) : tx infra ((Id * Id * bool) + string) :=
  live ← liveNodes now;
  let no_node := "No Node is connected to Convex; start an Infra Agent in connect-convex mode" in
  let pick (default : option Id) (keeps : bool) :=
    match or_opt (dp_buildNodeId d) default, default with
    | Some b, Some n => inl (b, n, keeps)
    | _, _ => inr no_node
    end in
  match dp_defaultNodeId d with
  | Some n => mret (pick (Some n) false)
  | None =>
      current ← currentPlacement (dp_app d);
      match current with
      | Some (nodeId, _) =>
          node ← db_get nodes nodeId;
          mret (if isNodeLive (node ≫= nd_lastSeenAt) now then pick (Some nodeId) true
                else inr (notLiveRefusal (dp_app d) (or_else (id_text nodeId) (nd_name <$> node))))
      | None => mret (pick (head live.*1) false)
      end
  end.

Definition started_run (epoch now : Z) (d : app_deployment) : app_deployment :=
  d <| dp_leaseEpoch := Some epoch |> <| dp_stageStartedAt := Some now |>.

Definition startRun (run : run_row) (epoch : Z) (now : Z) (start : app_deployment → app_deployment) : tx infra unit :=
  db_patch appDeployments run.1 start ≫= λ _,
  appendAudit (entry (or_else ("system:" +:+ operation_name (or_else OpDeploy (dp_operation run.2))) (dp_trigger run.2 ≫= tg_actor))
    (if dp_operation run.2 === Some OpFailover then "apps.failover.start" else "apps.deploy.start")
    (dp_app run.2) AudAttempt
    (Some (json_object [("deploymentId", json_string (id_text run.1)); ("epoch", json_Z epoch)]))) now ≫= λ _,
  fresh ← reload run.1;
  advanceRun fresh now.

Definition beginRun (run : run_row) (now : Z) : tx infra unit :=
  earlier ← db_first appDeployments (λ d, queued_run d (dp_app run.2) && (dp_startedAt d <? dp_startedAt run.2));
  if is_some earlier then mret tt
  else match dp_operation run.2 with
  | None => throw "A run needs an operation"
  | Some operation =>
      lease ← acquireAppLease (dp_app run.2) (holderOf run.1) operation now None;
      match lease with
      | LeaseHeld _ _ => mret tt
      | LeaseGrant epoch _ =>
          match operation with
          | OpFailover =>
              startRun run epoch now (λ d, started_run epoch now d <| dp_stage := StPlanning |>
                <| dp_detail := "planning the failover" |>)
          | OpDeploy =>
              chosen ← choose_nodes run.2 now;
              match chosen with
              | inr error =>
                  db_patch appDeployments run.1 (started_run epoch now) ≫= λ _,
                  finishRun (run.1, started_run epoch now run.2) StFailed "reading-spec" (Some error) None now
              | inl (buildNodeId, defaultNodeId, keeps) =>
                  startRun run epoch now (λ d,
                    let d := started_run epoch now d <| dp_buildNodeId := Some buildNodeId |>
                               <| dp_defaultNodeId := Some defaultNodeId |>
                               <| dp_stage := StReadingSpec |> <| dp_detail := "reading the spec file" |> in
                    if keeps : bool then d <| dp_keepsPlacement := Some true |> else d)
              end
          end
      end
  end.

Definition kickApp (app : string) (now : Z) : tx infra unit :=
  next ← db_first appDeployments (λ d, queued_run d app);
  match next with Some run => beginRun run now | None => mret tt end.

(** ** Entry points *)

(** A run that lost its lease is marked failed, and its steps are cancelled. *)
Definition lose_lease (id : Id) (d : app_deployment) (now : Z) : tx infra unit :=
  db_patch appDeployments id (λ r, r <| dp_stage := StFailed |> <| dp_detail := stage_name (dp_stage d) |>
    <| dp_error := Some "lost its App lease mid-run" |> <| dp_finishedAt := Some now |>) ≫= λ _,
  fresh ← reload id;
  cleanUp fresh now.

Definition tick (deploymentId : Id) (now : Z) : tx infra unit :=
  found ← db_get appDeployments deploymentId;
  match found with
  | None => mret tt
  | Some d =>
      if is_none (dp_operation d) || isTerminalStage (dp_stage d) then mret tt
      else if dp_stage d === StQueued then beginRun (deploymentId, d) now
      else
        lease ← leaseRow (dp_app d);
        match dp_leaseEpoch d with
        | Some epoch =>
            if leaseAdmits (lease_of ∘ snd <$> lease) epoch now then
              renewAppLease (dp_app d) epoch now None ≫= λ _, advanceRun (deploymentId, d) now
            else lose_lease deploymentId d now
        | None => lose_lease deploymentId d now
        end
  end.

Definition kick (app : string) (now : Z) : tx infra unit := kickApp app now.

Definition pulse_stage (scheduled : Z) (stage : deploy_stage) : tx infra Z :=
  found ← read (λ s, take 100 (t_where (λ d, dp_stage d === stage) (appDeployments s)));
  let runs := filter (λ r : Id * app_deployment, is_some (dp_operation r.2) = true) found in
  for_each runs (λ r : Id * app_deployment, infra_call_after (CallTick r.1)) ≫= λ _,
  mret (scheduled + Z.of_nat (length runs)).

Definition pulse : tx infra Z := fold_tx pulse_stage 0 (StQueued :: ACTIVE_STAGES).

Definition afterSweep (deploymentId : Id) (now : Z) : tx infra unit :=
  found ← db_get appDeployments deploymentId;
  match found with
  | None => mret tt
  | Some d =>
      if isTerminalStage (dp_stage d) then
        cleanUp (deploymentId, d) now ≫= λ _, kickApp (dp_app d) now
      else mret tt
  end.

(** ** failover.ts *)

Definition failoverEnabled : bool := pe_failover env !== Some "0".

Definition appsOn (nodeId : Id) : tx infra (list app_row) :=
  found ← take_rows apps 500;
  mret (filter (λ a, existsb (λ s, or_else (ap_nodeId a) (sv_nodeId s) === nodeId) (ap_services a) = true) found.*2).

(** The survivor of the [i]-th App, in turn. *)
Definition survivor_of (survivors : list Id) (lost : Id) (i : nat) : Id :=
  or_else lost (survivors !! (i mod (max (length survivors) 1))%nat).

Definition failover_run (lost : Id) (survivors : list Id) (now : Z) (started : list Id) (ia : nat * app_row)
    : tx infra (list Id) :=
  id ← createRun (RunInput (ap_name ia.2) OpFailover (Trigger TrigFailover None None None) None None None None None
         (Some (FailoverMove lost (survivor_of survivors lost ia.1)))) now;
  mret (started ++ [id]).

Definition failOver (lost : Id * node_doc) (survivors : list Id) (now : Z) : tx infra (list Id) :=
  moving ← appsOn lost.1;
  appendAudit (entry "system:failover" "nodes.lost" (nd_name lost.2)
    (if Nat.ltb 0 (length survivors) then AudAttempt else AudFailure)
    (Some (json_object (option_list ((λ t, ("lastSeenAt", json_Z t)) <$> nd_lastSeenAt lost.2) ++
      [("apps", json_array (json_string ∘ ap_name <$> moving))] ++
      if Nat.eqb (length survivors) 0 then [("error", json_string "no surviving Node")] else [])))) now ≫= λ _,
  fold_tx (failover_run lost.1 survivors now) [] (imap pair moving).

(** One Node of a check: cleared, suspected, waiting, or failed over. *)
Definition check_node (survivors : list Id) (now : Z) (started : list Id) (node : Id * node_doc) : tx infra (list Id) :=
  let '(id, n) := node in
  if negb (isNodeSilent (nd_lastSeenAt n) now) then
    when (is_some (nd_failoverSuspectAt n)) (db_patch nodes id (λ n, n <| nd_failoverSuspectAt := None |>)) ≫= λ _,
    mret started
  else if nd_failoverHandledSeenAt n === nd_lastSeenAt n then mret started
  else match nd_failoverSuspectAt n with
  | None => db_patch nodes id (λ n, n <| nd_failoverSuspectAt := Some now |>) ≫= λ _, mret started
  | Some suspectAt =>
      if now - suspectAt <? FAILOVER_GRACE_MS then mret started
      else
        db_patch nodes id (λ d, d <| nd_failoverSuspectAt := None |>
          <| nd_failoverHandledSeenAt := nd_lastSeenAt n |>) ≫= λ _,
        more ← failOver node (filter (λ s, s ≠ id) survivors) now;
        mret (started ++ more)
  end.

Definition check (now : Z) : tx infra (list Id) :=
  if negb failoverEnabled then mret []
  else
    found ← take_rows nodes 500;
    survivors ← liveNodes now;
    fold_tx (check_node survivors.*1 now) [] found.
End pipeline.
