(* ===== verification/PipelineFrames.v ===== *)
(** What a transaction of the deploy pipeline may write.  [store_ok] is the invariant of runs and App
    leases: an App has one lease row, and the lease epoch of a run was granted to that run.
    [run_frame app id now] is what advancing the run [id] of [app] does: it keeps the invariant,
    writes no other run, no other App's row and no route another App owns, and touches Node commands
    only by steps of the command queue. *)

From S2P Require Import Prelude JsLib Schema HostLabels Egress AppPolicy InfraSchema InfraStore.
From S2P Require Import AppPlan Nodes DockerArgs AppSpecs NodeCommands Frames CommandProperties Apps Deployments Pipeline.

Lemma id_text_inj i j : id_text i = id_text j → i = j.
Proof. unfold id_text. intros H%(inj pretty). lia. Qed.

Lemma str_app_inj_l p a b : p +:+ a = p +:+ b → a = b.
Proof. induction p as [|c p IH]; simpl; [done|]. intros [= H]. auto. Qed.

Lemma holderOf_inj i j : holderOf i = holderOf j → i = j.
Proof. intros H%str_app_inj_l. by apply id_text_inj. Qed.

Record store_ok (s : infra) : Prop := {
  so_deployments : t_wf (appDeployments s);
  so_leases : t_wf (appLeases s);
  so_commands : t_wf (nodeCommands s);
  so_apps : t_wf (apps s);
  so_routes : t_wf (appRoutes s);
  so_one_lease : ∀ i j l l', rows (appLeases s) !! i = Some l → rows (appLeases s) !! j = Some l' →
    al_app l = al_app l' → i = j;
  so_epoch : ∀ i d e, rows (appDeployments s) !! i = Some d → dp_leaseEpoch d = Some e →
    ∃ k l, rows (appLeases s) !! k = Some l ∧ al_app l = dp_app d ∧ e ≤ al_epoch l ∧
      (al_epoch l = e → ∀ h, al_holder l = Some h → h = holderOf i);
}.

Record run_delta (app : string) (id : Id) (now : Z) (s s' : infra) : Prop := {
  rd_ok : store_ok s';
  rd_others : ∀ j, j ≠ id → rows (appDeployments s') !! j = rows (appDeployments s) !! j;
  rd_run : ∀ d, rows (appDeployments s) !! id = Some d → ∃ d', rows (appDeployments s') !! id = Some d' ∧
    dp_app d' = dp_app d ∧ dp_operation d' = dp_operation d;
  rd_next : next_id (appDeployments s') = next_id (appDeployments s);
  rd_commands : rtc (queue_step now) (nodeCommands s) (nodeCommands s');
  rd_apps : ∀ k a, rows (apps s) !! k = Some a → ap_name a ≠ app → rows (apps s') !! k = Some a;
  rd_routes : ∀ k r owner, rows (appRoutes s) !! k = Some r → rt_app r = Some owner → owner ≠ app →
    rows (appRoutes s') !! k = Some r;
}.

Definition run_frame (app : string) (id : Id) (now : Z) : relation infra := λ s s',
  store_ok s → run_delta app id now s s'.

#[export] Instance run_frame_preorder app id now : PreOrder (run_frame app id now).
Proof.
  split.
  - intros s Hok. split; try done. by intros d ->; exists d.
  - intros s1 s2 s3 H12 H23 Hok. destruct (H12 Hok) as [Ok2 O12 R12 N12 C12 A12 T12].
    destruct (H23 Ok2) as [Ok3 O23 R23 N23 C23 A23 T23]. split.
    + done.
    + intros j Hj. by rewrite O23, O12.
    + intros d Hd. destruct (R12 d Hd) as (d2 & Hd2 & <- & <-). auto.
    + by rewrite N23.
    + by etrans.
    + eauto.
    + eauto.
Qed.

Section leaves.
Context (app : string) (id : Id) (now : Z).
Implicit Types s : infra.

(** Writes to other tables. *)
Lemma frame_same s s' :
  appDeployments s' = appDeployments s → appLeases s' = appLeases s → nodeCommands s' = nodeCommands s →
  apps s' = apps s → appRoutes s' = appRoutes s → run_frame app id now s s'.
Proof.
  intros Ed El Ec Ea Er Hok. split; rewrite ?Ed, ?Ec, ?Ea, ?Er; try done; [|by intros d ->; exists d].
  destruct Hok. split; by rewrite ?Ed, ?El, ?Ec, ?Ea, ?Er.
Qed.

Lemma frame_run s d d' :
  rows (appDeployments s) !! id = Some d →
  dp_app d' = dp_app d ∧ dp_operation d' = dp_operation d ∧ dp_leaseEpoch d' = dp_leaseEpoch d →
  run_frame app id now s (upd appDeployments (t_set id d') s).
Proof.
  intros Hd (Ea & Eo & Ee) Hok. split; simpl; try done.
  - destruct Hok as [Hwf ???? Hone Hep]. split; simpl; try done; [by eapply t_wf_set|].
    intros i d0 e Hi He. apply lookup_insert_Some in Hi as [[<- <-]|[_ Hi]]; [|by eapply Hep].
    rewrite Ea. rewrite Ee in He. by eapply Hep.
  - intros j Hj. by rewrite lookup_insert_ne.
  - intros d0 Hd0. replace d0 with d by congruence. exists d'. by rewrite lookup_insert_eq.
Qed.

(** The epoch of a lease the run holds. *)
Lemma frame_grant s d d' k l :
  rows (appDeployments s) !! id = Some d → rows (appLeases s) !! k = Some l → al_app l = dp_app d →
  al_holder l = Some (holderOf id) → dp_app d' = dp_app d ∧ dp_operation d' = dp_operation d →
  dp_leaseEpoch d' = Some (al_epoch l) → run_frame app id now s (upd appDeployments (t_set id d') s).
Proof.
  intros Hd Hl El Eh [Ea Eo] Ee Hok. split; simpl; try done.
  - destruct Hok as [Hwf ???? Hone Hep]. split; simpl; try done; [by eapply t_wf_set|].
    intros i d0 e Hi He. apply lookup_insert_Some in Hi as [[<- <-]|[_ Hi]]; [|by eapply Hep].
    exists k, l. simplify_eq. split; [done|]. split; [congruence|]. split; [done|]. intros _ h Hh. congruence.
  - intros j Hj. by rewrite lookup_insert_ne.
  - intros d0 Hd0. replace d0 with d by congruence. exists d'. by rewrite lookup_insert_eq.
Qed.

(** A lease row that keeps its App and its epoch, and its holder or none. *)
Lemma frame_lease s k l l' :
  rows (appLeases s) !! k = Some l → al_app l' = al_app l → al_epoch l' = al_epoch l →
  al_holder l' = al_holder l ∨ al_holder l' = None → run_frame app id now s (upd appLeases (t_set k l') s).
Proof.
  intros Hl Ea Ee Eh Hok. split; simpl; try done; [|by intros d ->; exists d].
  destruct Hok as [? Hwf ??? Hone Hep]. split; simpl; try done; [by eapply t_wf_set|..].
  - intros i j m m' Hi Hj. apply lookup_insert_Some in Hi as [[<- <-]|[_ Hi]], Hj as [[<- <-]|[_ Hj]]; try done;
      rewrite ?Ea; intros; by eapply Hone.
  - intros i d e Hi He. destruct (Hep i d e Hi He) as (k' & m & Hm & Em & Hle & Hh). destruct (decide (k' = k)) as [->|Hne].
    + exists k, l'. rewrite lookup_insert_eq. simplify_eq. split; [done|]. split; [congruence|]. split; [lia|].
      intros E h Hl'. destruct Eh as [E'|E']; [|congruence]. apply Hh; congruence.
    + exists k', m. by rewrite lookup_insert_ne.
Qed.

Lemma frame_commands s t :
  t_wf t → rtc (queue_step now) (nodeCommands s) t → run_frame app id now s (upd nodeCommands (λ _, t) s).
Proof. intros Hwf Hs Hok. split; simpl; try done; [|by intros d ->; exists d]. by destruct Hok. Qed.

Lemma frame_app s (existing : option (Id * app_row)) fields r s' :
  ap_name fields = app → (∀ k a, existing = Some (k, a) → rows (apps s) !! k = Some a ∧ ap_name a = app) →
  put_row apps existing fields s = Done (r, s') → run_frame app id now s s'.
Proof.
  intros En Hex H Hok. destruct existing as [[k a]|]; simpl in H.
  - tx_bind_in H u s1 H1. injection H as _ <-. apply db_patch_done in H1 as (a' & Ha' & ->).
    destruct (Hex k a eq_refl) as [Ha Hn]. split; simpl; try done; [|by intros d ->; exists d|].
    + destruct Hok. split; try done. by eapply t_wf_set.
    + intros j b Hj Hb. rewrite lookup_insert_ne; [done|]. intros <-. congruence.
  - injection H as _ <-. split; simpl; try done; [|by intros d ->; exists d|].
    + destruct Hok. split; try done. by apply t_wf_add.
    + intros j b Hj Hb. rewrite lookup_insert_ne; [done|]. apply (so_apps _ Hok) in Hj. lia.
Qed.

Lemma frame_route s (existing : option (Id * app_route)) fields r s' :
  (∀ k a owner, existing = Some (k, a) → rows (appRoutes s) !! k = Some a ∧ (rt_app a = Some owner → owner = app)) →
  put_row appRoutes existing fields s = Done (r, s') → run_frame app id now s s'.
Proof.
  intros Hex H Hok. destruct existing as [[k a]|]; simpl in H.
  - tx_bind_in H u s1 H1. injection H as _ <-. apply db_patch_done in H1 as (a' & Ha' & ->).
    split; simpl; try done; [|by intros d ->; exists d|].
    + destruct Hok. split; try done. by eapply t_wf_set.
    + intros j b owner Hj Ho Hb. rewrite lookup_insert_ne; [done|]. intros <-.
      destruct (Hex k a owner eq_refl) as [Ha Hn]. simplify_eq. auto.
  - injection H as _ <-. split; simpl; try done; [|by intros d ->; exists d|].
    + destruct Hok. split; try done. by apply t_wf_add.
    + intros j b owner Hj Ho Hb. rewrite lookup_insert_ne; [done|]. apply (so_routes _ Hok) in Hj. lia.
Qed.
End leaves.

(** The walk: a write outside the five tables, a write of the run itself, a released or renewed lease. *)
Ltac frame_leaf :=
  first
    [ apply frame_same; reflexivity
    | eapply frame_run; [eassumption|done]
    | eapply frame_lease; [eassumption|reflexivity|reflexivity|first [by left|by right]] ].
Ltac frame := acts_walk frame_leaf.

(** ** Node commands *)

Lemma frame_queue app id now s s' :
  appDeployments s' = appDeployments s → appLeases s' = appLeases s → apps s' = apps s → appRoutes s' = appRoutes s →
  (t_wf (nodeCommands s) → t_wf (nodeCommands s') ∧ rtc (queue_step now) (nodeCommands s) (nodeCommands s')) →
  run_frame app id now s s'.
Proof.
  intros Ed El Ea Er Hq Hok. destruct (Hq (so_commands _ Hok)) as [Hwf Hs]. split; rewrite ?Ed, ?Ea, ?Er; try done;
    [|by intros d ->; exists d]. destruct Hok. split; by rewrite ?Ed, ?El, ?Ea, ?Er.
Qed.

Definition only_commands : relation infra := λ s s',
  appDeployments s' = appDeployments s ∧ appLeases s' = appLeases s ∧ apps s' = apps s ∧ appRoutes s' = appRoutes s.
#[export] Instance only_commands_preorder : PreOrder only_commands.
Proof. split; [by intros ?|]. intros ??? (?&?&?&?) (?&?&?&?). by split_and!; etrans. Qed.

Lemma queue_step_wf now t t' : queue_step now t t' → t_wf t → t_wf t'.
Proof. destruct 1; eauto using t_wf_set, t_wf_add. Qed.

Lemma frame_insertNodeCommand app id now n k c a e d : acts (run_frame app id now) (insertNodeCommand n k c a e d now).
Proof.
  intros s r s' H.
  assert (acts only_commands (insertNodeCommand n k c a e d now)) as Ho.
  { unfold insertNodeCommand, keyOK, command_with_key. acts_walk ltac:(done). }
  destruct (Ho _ _ _ H) as (?&?&?&?). apply frame_queue; try done. intros Hwf.
  apply insert_step in H as [(-> & _)|(_ & _ & Hs)]; [done| |done]. split; [by eapply queue_step_wf|by apply rtc_once].
Qed.

(** Cancelling commands read before, each once. *)
Lemma cancel_loop (P : node_command_row → bool) now l s u s' :
  NoDup l.*1 →
  (∀ r, r ∈ l → rows (nodeCommands s) !! r.1 = Some r.2 ∧ (P r.2 = true → nq_status r.2 = NRunning ∨ nq_status r.2 = NPending)) →
  for_each l (λ r : Id * node_command_row, when (P r.2) (db_patch nodeCommands r.1 (λ c, cancelled c now))) s = Done (u, s') →
  only_commands s s' ∧ rtc (queue_step now) (nodeCommands s) (nodeCommands s').
Proof.
  revert s. induction l as [|[i c] l IH]; intros s Hnd Hin H; simpl in H.
  { injection H as _ <-. done. }
  apply NoDup_cons in Hnd as [Hni Hnd]. tx_bind_in H u1 s1 H1.
  destruct (Hin (i, c)) as [Hc HP]; [left|]. simpl in Hc, HP. destruct (P c) eqn:Ep; simpl in H1.
  - apply db_patch_done in H1 as (c' & Hc' & ->). replace c' with c in * by congruence. clear Hc'.
    destruct (IH (upd nodeCommands (t_set i (cancelled c now)) s)) as [Ho Hs]; [done| |done|].
    + intros [j d] Hj. split; [|by apply (Hin (j, d)); right]. simpl. rewrite lookup_insert_ne.
      * by apply (Hin (j, d)); right.
      * intros <-. apply Hni, list_elem_of_fmap. by exists (i, d).
    + split; [by etrans; [|done]|]. eapply rtc_l; [|done]. simpl. apply qs_cancel; auto.
  - injection H1 as _ <-. apply IH; [done| |done]. intros r Hr. apply Hin. by right.
Qed.

Lemma queue_steps_wf now t t' : rtc (queue_step now) t t' → t_wf t → t_wf t'.
Proof. induction 1; eauto using queue_step_wf. Qed.

Lemma NoDup_take_ids {A} n (l : list (Id * A)) : NoDup l.*1 → NoDup (take n l).*1.
Proof. intros H. rewrite <- (take_drop n l), fmap_app in H. by apply NoDup_app in H as [? _]. Qed.

Lemma cancel_rows app id now Q n (P : node_command_row → bool) :
  (∀ c, Q c = true → P c = true → nq_status c = NRunning ∨ nq_status c = NPending) →
  acts (run_frame app id now)
    (found ← read (λ s : infra, take n (t_where Q (nodeCommands s)));
     for_each found (λ r : Id * node_command_row, when (P r.2) (db_patch nodeCommands r.1 (λ c, cancelled c now)))).
Proof.
  intros HP s u s' H. tx_bind_in H found s1 H1. injection H1 as <- <-.
  apply cancel_loop in H as [(?&?&?&?) Hs].
  - apply frame_queue; try done. intros Hwf. split; [by eapply queue_steps_wf|done].
  - apply NoDup_take_ids, NoDup_t_where_ids.
  - intros r Hr. destruct (t_where_sound (nodeCommands s) Q r) as [? ?]; [by eapply subseteq_take|]. eauto.
Qed.

(** ** The parts of a stage *)

Section parts.
Context (app : string) (id : Id) (now : Z).
Local Abbreviation F := (run_frame app id now).

Lemma fr_appendAudit e : acts F (appendAudit e now).
Proof. unfold appendAudit, bumpCounter, readCounter, writeCounter, counterRow. frame. Qed.
Lemma fr_call c : acts F (infra_call_after c).
Proof. unfold infra_call_after. frame. Qed.
Lemma fr_assertAppLease a e t : acts F (assertAppLease a e t).
Proof. unfold assertAppLease, leaseRow. frame. Qed.
Hint Resolve fr_appendAudit fr_call fr_assertAppLease frame_insertNodeCommand : acts.
Lemma fr_renewAppLease a e t ttl : acts F (renewAppLease a e t ttl).
Proof. unfold renewAppLease. frame. Qed.
Lemma fr_releaseAppLease a e : acts F (releaseAppLease a e).
Proof. unfold releaseAppLease, leaseRow. frame. Qed.
Lemma fr_app_named n : acts F (app_named n).
Proof. unfold app_named. frame. Qed.
Lemma fr_route_named n : acts F (route_named n).
Proof. unfold route_named. frame. Qed.
Lemma fr_link_named n : acts F (link_named n).
Proof. unfold link_named. frame. Qed.
Lemma fr_nodeByName n : acts F (nodeByName n).
Proof. unfold nodeByName. frame. Qed.
Lemma fr_take_rows {D} (tbl : infra → table D) n : acts F (take_rows tbl n).
Proof. unfold take_rows. frame. Qed.
Hint Resolve fr_renewAppLease fr_releaseAppLease fr_app_named fr_route_named fr_link_named fr_nodeByName fr_take_rows : acts.
Lemma fr_loadRouteOwner r : acts F (loadRouteOwner r).
Proof. unfold loadRouteOwner. frame. Qed.
Hint Resolve fr_loadRouteOwner : acts.
Lemma fr_currentPlacement a : acts F (currentPlacement a).
Proof. unfold currentPlacement. frame. Qed.
Lemma fr_heldByOthers a : acts F (heldByOthers a).
Proof. unfold heldByOthers. frame. Qed.
Hint Resolve fr_currentPlacement fr_heldByOthers : acts.
Lemma fr_namespaceRefusal a ss ls : acts F (namespaceRefusal a ss ls).
Proof. unfold namespaceRefusal. frame. Qed.
Lemma fr_reload i : acts F (reload i).
Proof. unfold reload. frame. Qed.
Hint Resolve fr_namespaceRefusal fr_reload : acts.

Lemma fr_upsertMeshLink n pn pp cn lp cb h : acts F (upsertMeshLink n pn pp cn lp cb h now).
Proof. unfold upsertMeshLink, put_row. frame. Qed.
Lemma fr_routeRefusal l a : acts F (routeRefusal l a).
Proof. unfold routeRefusal. frame. Qed.
Hint Resolve fr_upsertMeshLink fr_routeRefusal : acts.

Lemma fr_upsertApp n ss ls sp h : acts F (upsertApp app n ss ls sp h now).
Proof.
  intros s r s' H. unfold upsertApp in H. tx_bind_in H existing s1 H1. unfold app_named in H1.
  apply db_unique_done in H1 as [-> Hex]. eapply frame_app; [..|exact H]; [done|].
  intros k a ->. destruct (t_where_sound (apps s) (λ a, ap_name a === app) (k, a)) as [? ?%bool_decide_eq_true]; [|done].
  rewrite Hex. left.
Qed.

(** A route another App owns is not taken. *)
Lemma fr_upsertRoute n nd im p sv h : acts F (upsertRoute n nd im p app sv h now).
Proof.
  intros s r s' H. unfold upsertRoute in H. tx_bind_in H refusal s1 H1.
  assert (s1 = s ∧ (refusal = None → ∀ k a owner, t_where (λ r, rt_name r === n) (appRoutes s) = [(k, a)] →
    rt_app a = Some owner → owner = app)) as [-> Href].
  { unfold routeRefusal, route_named in H1. tx_bind_in H1 old s2 H2. apply db_unique_done in H2 as [-> Hex].
    destruct old as [[k a]|]; [|injection H1 as <- <-; split; [done|]; intros _ ??? E; by rewrite Hex in E].
    tx_bind_in H1 owner s3 H3. unfold loadRouteOwner in H3. injection H1 as <- <-.
    destruct (rt_app a) as [o|] eqn:Eo.
    - injection H3 as <- <-. split; [done|]. intros Hr k' a' owner' E Eo'. rewrite Hex in E. simpl in Hr.
      assert (owner' = o) as -> by congruence. destruct (decide (o = app)) as [|Hne]; [done|].
      by rewrite bool_decide_false in Hr.
    - tx_bind_in H3 rws s4 H4. injection H4 as <- <-. injection H3 as <- <-. split; [done|].
      intros _ k' a' owner' E Eo'. rewrite Hex in E. congruence. }
  destruct refusal; [done|]. tx_bind_in H existing s2 H2. unfold route_named in H2.
  apply db_unique_done in H2 as [-> Hex]. eapply frame_route; [|exact H].
  intros k a owner ->. split; [|by eapply Href].
  apply (t_where_sound (appRoutes s) (λ r, rt_name r === n) (k, a)). rewrite Hex. left.
Qed.
Hint Resolve fr_upsertApp fr_upsertRoute : acts.

Lemma fr_cleanUp d : acts F (cleanUp (id, d) now).
Proof.
  unfold cleanUp. apply (acts_mono F); [done|]. intros s u s' H. tx_bind_in H steps s1 H1. tx_bind_in H u2 s2 H2.
  etrans; [eapply (cancel_rows app id now (λ c, nq_deploymentId c === Some id) 100
    (λ c, (nq_status c === NPending) || (nq_status c === NRunning)))|].
  - intros c _ [?%bool_decide_eq_true|?%bool_decide_eq_true]%orb_true_iff; auto.
  - unfold mbind, tx_bind. rewrite H1. exact H2.
  - clear H1 H2. revert s2 u s' H. match goal with |- ∀ s2 u s', ?m s2 = _ → _ => change (acts F m) end.
    unfold delete_upload, note_on_binding. frame.
Qed.
Hint Resolve fr_cleanUp : acts.

Lemma fr_reload_cleanUp : acts F (fresh ← reload id; cleanUp fresh now).
Proof.
  intros s u s' H. tx_bind_in H reloaded s1 H1. unfold reload in H1. tx_bind_in H1 d s2 H2. injection H2 as <- <-.
  destruct (rows (appDeployments s) !! id); [|done]. injection H1 as <- <-. by eapply fr_cleanUp.
Qed.
End parts.
#[export] Hint Resolve fr_appendAudit fr_call fr_assertAppLease frame_insertNodeCommand fr_renewAppLease fr_releaseAppLease
  fr_app_named fr_route_named fr_link_named fr_nodeByName fr_take_rows fr_loadRouteOwner fr_currentPlacement
  fr_namespaceRefusal fr_reload fr_upsertMeshLink fr_upsertApp fr_upsertRoute fr_cleanUp fr_reload_cleanUp : acts.

(** [planDeploy] does to the store what its allocations do. *)
Lemma planDeploy_acts {S} (R : relation S) `{!PreOrder R} (allocate : Id → string → tx S Z) input :
  (∀ n k, acts R (allocate n k)) → acts R (planDeploy allocate input).
Proof.
  intros Ha. unfold planDeploy, plan_service, link_service, plan_need. acts_walk idtac.
Qed.

Section stages.
Context (localeCompare : string → string → Z) (parseYaml : string → json + string) (env : pipeline_env).
Context (app : string) (id : Id) (now : Z).
Local Abbreviation F := (run_frame app id now).

Lemma fr_allocatePort n k : acts F (allocatePort n k now).
Proof. unfold allocatePort, byNodeKey, insertAllocation, portRefusal. frame. Qed.

Lemma fr_tryPlan input : acts F (tryPlan input now).
Proof.
  intros s r s' H. unfold tryPlan in H.
  set (R := λ p p' : infra * option exn, F p.1 p'.1).
  assert (PreOrder R) as HR.
  { unfold R. split; [by intros p|]. intros p1 p2 p3 H12 H23. by transitivity (p2.1). }
  assert (acts R (planDeploy (caught_allocate now) input)) as Hp.
  { apply planDeploy_acts; [apply HR|]. intros n k [s1 o] p [s2 o'] H1. unfold R. simpl. unfold caught_allocate in H1.
    destruct o; [by injection H1 as _ <- _|]. destruct (allocatePort n k now s1) as [[q s3]|] eqn:E.
    - injection H1 as _ <- _. by eapply fr_allocatePort.
    - by injection H1 as _ <- _. }
  destruct (planDeploy (caught_allocate now) input (s, None)) as [[q [s1 [e|]]]|] eqn:E;
    injection H as _ <-; [apply Hp in E; exact E..|done].
Qed.

Lemma fr_finishRun d st det err urls : acts F (finishRun (id, d) st det err urls now).
Proof.
  unfold finishRun. cbv beta iota. apply acts_bind; [apply _|frame|]. intros _.
  apply acts_bind; [apply _|destruct (dp_leaseEpoch d); frame|]. intros _.
  intros s u s' H. tx_bind_in H reloaded s1 H1. unfold reload in H1. tx_bind_in H1 d1 s2 H2. injection H2 as <- <-.
  destruct (rows (appDeployments s) !! id); [|done]. injection H1 as <- <-.
  revert s u s' H. match goal with |- ∀ s u s', ?m s = _ → _ => change (acts F m) end. frame.
Qed.
Hint Resolve fr_tryPlan fr_finishRun : acts.
Lemma fr_failRun d e : acts F (failRun (id, d) e now).
Proof. unfold failRun. frame. Qed.
Lemma fr_moveTo d st det extra :
  (∀ d, dp_app (extra d) = dp_app d ∧ dp_operation (extra d) = dp_operation d ∧ dp_leaseEpoch (extra d) = dp_leaseEpoch d) →
  acts F (moveTo (id, d) st det extra now).
Proof.
  intros He. unfold moveTo. apply acts_bind; [apply _| |intros; frame]. apply acts_patch. intros s d' Hd.
  eapply frame_run; [done|]. by destruct (He (d' <| dp_stage := st |> <| dp_detail := det |> <| dp_stageStartedAt := Some now |>)) as (-> & -> & ->).
Qed.
Lemma fr_runStep d n step c : acts F (runStep (id, d) n step c now).
Proof. unfold runStep. frame. Qed.
Hint Resolve fr_failRun fr_runStep : acts.
Hint Extern 2 (acts _ (moveTo _ _ _ _ _)) => apply fr_moveTo; intros; done : acts.

Lemma fr_cancelRetirements n cs : acts F (cancelRetirements n cs now).
Proof.
  unfold cancelRetirements. apply (cancel_rows app id now _ 200 (is_retirement cs)).
  intros c [_ ?%bool_decide_eq_true]%andb_true_iff _. auto.
Qed.
Lemma fr_link_registry p port err n : acts F (link_registry p port now err n).
Proof. unfold link_registry. frame. Qed.
Lemma fr_liveNodes : acts F (liveNodes localeCompare now).
Proof. unfold liveNodes. frame. Qed.
Lemma fr_named_nodes sp : acts F (named_nodes sp).
Proof. unfold named_nodes. frame. Qed.
Hint Resolve fr_cancelRetirements fr_link_registry fr_liveNodes fr_named_nodes : acts.
Lemma fr_ensureRegistryLinks ns : acts F (ensureRegistryLinks env ns now).
Proof. unfold ensureRegistryLinks. frame. Qed.
Lemma fr_failover_basis d live : acts F (failover_basis (id, d) live).
Proof. unfold failover_basis. frame. Qed.
Lemma fr_deploy_basis d : acts F (deploy_basis (id, d)).
Proof. unfold deploy_basis. frame. Qed.
Hint Resolve fr_ensureRegistryLinks fr_failover_basis fr_deploy_basis : acts.
Lemma fr_plan_with d b live : acts F (plan_with localeCompare env (id, d) b live now).
Proof. unfold plan_with. frame. Qed.
Hint Resolve fr_plan_with : acts.
Lemma fr_planStage d : acts F (planStage localeCompare env (id, d) now).
Proof. unfold planStage. frame. Qed.

Lemma fr_queue_retirement d lost b pl sv : acts F (queue_retirement (id, d) lost b pl now sv).
Proof.
  unfold queue_retirement. destruct (_ !== _); [frame|]. destruct (head _) as [m|]; [|frame].
  destruct (sv_nodeId m === Some lost); [frame|]. intros s u s' H.
  match type of H with match ?m ?st with _ => _ end = _ => destruct (m st) as [[q s1]|] eqn:E end.
  - injection H as _ <-. by eapply frame_insertNodeCommand.
  - by injection H as _ <-.
Qed.
Hint Resolve fr_planStage fr_queue_retirement : acts.
Lemma fr_write_route d pl sv : dp_app d = app → acts F (write_route (id, d) pl now sv).
Proof. intros <-. unfold write_route. frame. Qed.
Hint Resolve fr_write_route : acts.
Lemma fr_commitRun d : dp_app d = app → acts F (commitRun (id, d) now).
Proof. intros E. unfold commitRun. cbn [fst snd]. rewrite E. frame. Qed.
Lemma fr_specStage d : acts F (specStage parseYaml (id, d) now).
Proof. unfold specStage. frame. Qed.
Lemma fr_buildSteps d pl i bs : acts F (buildSteps (id, d) pl i bs now).
Proof. revert i. induction bs; intros i; simpl; frame. Qed.
Lemma fr_deploySteps d pl w ts : acts F (deploySteps (id, d) pl w ts now).
Proof. revert w. induction ts; intros w; simpl; frame. Qed.
Hint Resolve fr_commitRun fr_specStage fr_buildSteps fr_deploySteps : acts.
Lemma fr_runStage d : dp_app d = app → acts F (runStage localeCompare parseYaml env (id, d) now).
Proof. intros E. unfold runStage. frame. Qed.
End stages.

(** ** Leases *)

Definition holds_lease (s : infra) (app holder : string) (epoch : Z) : Prop :=
  ∃ k l, rows (appLeases s) !! k = Some l ∧ al_app l = app ∧ al_epoch l = epoch ∧ al_holder l = Some holder.

Definition only_leases : relation infra := λ s s',
  appDeployments s' = appDeployments s ∧ nodeCommands s' = nodeCommands s ∧ apps s' = apps s ∧ appRoutes s' = appRoutes s.
#[export] Instance only_leases_preorder : PreOrder only_leases.
Proof. split; [by intros ?|]. intros ??? (?&?&?&?) (?&?&?&?). by split_and!; etrans. Qed.

Lemma decideLease_grant r h t e ren :
  decideLease (Some r) h t = LeaseGrant e ren → lr_epoch r < e ∨ (lr_epoch r = e ∧ lr_holder r = Some h).
Proof.
  unfold decideLease. destruct (lr_holder r) as [h0|]; [|intros [= <- <-]; lia].
  destruct (t <? lr_expiresAt r); [|intros [= <- <-]; lia]. destruct (decide (h0 = h)) as [->|].
  - rewrite bool_decide_true by done. intros [= <- <-]. by right.
  - by rewrite bool_decide_false.
Qed.

(** A lease row passes to a new epoch, or stays with its holder. *)
Lemma store_ok_grant s k l l' h :
  store_ok s → rows (appLeases s) !! k = Some l → al_app l' = al_app l → al_holder l' = Some h →
  al_epoch l < al_epoch l' ∨ (al_epoch l = al_epoch l' ∧ al_holder l = Some h) →
  store_ok (upd appLeases (t_set k l') s).
Proof.
  intros [Wd Wl Wc Wa Wr Hone Hep] Hl Ea Eh Hcase. split; simpl; try done; [by eapply t_wf_set|..].
  - intros i j m m' Hi Hj. apply lookup_insert_Some in Hi as [[<- <-]|[_ Hi]], Hj as [[<- <-]|[_ Hj]]; try done;
      intros; eapply Hone; eauto; congruence.
  - intros i d e0 Hi He. destruct (Hep i d e0 Hi He) as (k' & m & Hm & Em & Hle & Hh). destruct (decide (k' = k)) as [->|Hne].
    + exists k, l'. rewrite lookup_insert_eq. replace m with l in * by congruence. split; [done|]. split; [congruence|].
      split; [lia|]. intros E h' Hh'. destruct Hcase as [|[E1 E2]]; [lia|]. apply Hh; congruence.
    + exists k', m. by rewrite lookup_insert_ne.
Qed.

(** The first lease of an App. *)
Lemma store_ok_new_lease s l :
  store_ok s → (∀ i m, rows (appLeases s) !! i = Some m → al_app m ≠ al_app l) → store_ok (upd appLeases (t_add l) s).
Proof.
  intros [Wd Wl Wc Wa Wr Hone Hep] Hno. pose proof (t_wf_fresh _ Wl) as Hfresh.
  split; simpl; try done; [by apply t_wf_add|..].
  - intros i j m m' Hi Hj. apply lookup_insert_Some in Hi as [[<- <-]|[_ Hi]], Hj as [[<- <-]|[_ Hj]]; simpl; try done;
      [intros E; by destruct (Hno _ _ Hj)|intros E; by destruct (Hno _ _ Hi)|by eapply Hone].
  - intros i d e0 Hi He. destruct (Hep i d e0 Hi He) as (k' & m & Hm & ?). exists k', m.
    rewrite lookup_insert_ne; [done|]. intros <-. congruence.
Qed.

(** A granted lease names its holder. *)
Lemma acquireAppLease_done app h op t ttl s r s' :
  store_ok s → acquireAppLease app h op t ttl s = Done (r, s') →
  store_ok s' ∧ only_leases s s' ∧
  match r with LeaseHeld _ _ => s' = s | LeaseGrant e _ => holds_lease s' app h e end.
Proof.
  intros Hok H.
  assert (acts only_leases (acquireAppLease app h op t ttl)) as Ho
    by (unfold acquireAppLease, leaseRow; acts_walk ltac:(done)).
  specialize (Ho _ _ _ H). unfold acquireAppLease, leaseRow in H. tx_bind_in H row s1 H1.
  apply unique_row in H1 as [-> Hrow]; [|apply Hok]. cbv zeta in H. destruct row as [[k l]|].
  - destruct Hrow as [Hl Ea%bool_decide_eq_true]. change (_ <$> Some (k, l)) with (Some (lease_of l)) in H.
    destruct (decideLease (Some (lease_of l)) h t) as [e ren|hb exp] eqn:Ed; [|by injection H as <- <-].
    apply decideLease_grant in Ed. tx_bind_in H u s2 H2. injection H as <- <-.
    apply db_patch_done in H2 as (l0 & Hl0 & ->). replace l0 with l in * by congruence.
    split; [eapply store_ok_grant; try done; by destruct ren|]. split; [done|].
    eexists k, _. simpl. rewrite lookup_insert_eq. split; [reflexivity|]. by destruct ren.
  - simpl in H. tx_bind_in H u s2 H2. tx_bind_in H2 i s3 H3. injection H3 as <- <-. injection H2 as _ <-. injection H as <- <-.
    split; [|split; [done|eexists _, _; simpl; by rewrite lookup_insert_eq]].
    apply store_ok_new_lease; [done|]. intros i l Hi E. specialize (Hrow i l Hi). by rewrite bool_decide_true in Hrow.
Qed.

Lemma fr_acquireAppLease app id now a h op t ttl : acts (run_frame app id now) (acquireAppLease a h op t ttl).
Proof.
  intros s r s' H Hok. apply acquireAppLease_done in H as (Hok' & (Ed & Ec & Ea & Er) & _); [|done].
  split; rewrite ?Ed, ?Ec, ?Ea, ?Er; try done. by intros d ->; exists d.
Qed.
#[export] Hint Resolve fr_acquireAppLease fr_runStage fr_finishRun fr_liveNodes : acts.
