(* ===== verification/PipelineProperties.v ===== *)
(** Correctness of the deploy pipeline: an App has one live run, runs end for good, a run writes only
    its own App, and what it does to Node commands are steps of the command queue. *)

From S2P Require Import Prelude JsLib Schema HostLabels Egress AppPolicy InfraSchema InfraStore.
From S2P Require Import AppPlan Nodes DockerArgs AppSpecs NodeCommands Frames CommandProperties Apps Deployments Pipeline PipelineFrames.

(** ** Advancing *)

Lemma run_delta_refl app id now s : store_ok s → run_delta app id now s s.
Proof. apply (run_frame_preorder app id now). Qed.
Lemma run_delta_trans app id now s1 s2 s3 :
  run_delta app id now s1 s2 → run_delta app id now s2 s3 → store_ok s1 → run_delta app id now s1 s3.
Proof. intros H1 H2. eapply (run_frame_preorder app id now); [by intros _|by intros _]. Qed.

(** The run a stage continues with is the one in the store. *)
Definition yields (id : Id) (m : tx infra (option run_row)) : Prop :=
  ∀ s run s', m s = Done (Some run, s') → run.1 = id ∧ rows (appDeployments s') !! id = Some run.2.

Lemma yields_none id : yields id (mret None).
Proof. by intros s run s' [=]. Qed.
Lemma yields_throw id e : yields id (throw e).
Proof. done. Qed.
Lemma yields_bind {A} id (m : tx infra A) f : (∀ a, yields id (f a)) → yields id (m ≫= f).
Proof. intros Hf s run s' H. tx_bind_in H a s1 H1. by eapply Hf. Qed.
Lemma yields_moveTo id d st det extra now : yields id (moveTo (id, d) st det extra now).
Proof.
  intros s run s' H. unfold moveTo in H. tx_bind_in H u s1 H1. tx_bind_in H r s2 H2. injection H as <- <-.
  unfold reload in H2. tx_bind_in H2 d' s3 H3. injection H3 as <- <-. simpl in H2.
  destruct (rows (appDeployments s1) !! id) as [d''|] eqn:E; [|done]. by injection H2 as <- <-.
Qed.
Create HintDb yields discriminated.
#[export] Hint Resolve yields_none yields_throw yields_moveTo : yields.
Ltac yields_walk :=
  repeat first
    [ solve [eauto with yields] | apply yields_bind; intros | progress cbv beta zeta
    | match goal with |- yields _ (match ?x with _ => _ end) => destruct x end ].

Section stages.
Context (localeCompare : string → string → Z) (parseYaml : string → json + string) (env : pipeline_env).

Lemma yields_failRun id d e now : yields id (failRun (id, d) e now).
Proof. unfold failRun. yields_walk. Qed.
Hint Resolve yields_failRun : yields.
Lemma yields_planStage id d now : yields id (planStage localeCompare env (id, d) now).
Proof. unfold planStage, plan_with. yields_walk. Qed.
Lemma yields_specStage id d now : yields id (specStage parseYaml (id, d) now).
Proof. unfold specStage. yields_walk. Qed.
Lemma yields_buildSteps id d pl i bs now : yields id (buildSteps (id, d) pl i bs now).
Proof. revert i. induction bs; intros i; simpl; yields_walk. Qed.
Lemma yields_deploySteps id d pl w ts now : yields id (deploySteps (id, d) pl w ts now).
Proof. revert w. induction ts; intros w; simpl; yields_walk. Qed.
Hint Resolve yields_planStage yields_specStage yields_buildSteps yields_deploySteps : yields.
Lemma yields_runStage id d now : yields id (runStage localeCompare parseYaml env (id, d) now).
Proof. unfold runStage. yields_walk. Qed.

Lemma frame_advance n app id now d s d' u s' :
  dp_app d = app → rows (appDeployments s) !! id = Some d' → dp_app d' = app → store_ok s →
  advance_loop localeCompare parseYaml env n (id, d) now s = Done (u, s') → run_delta app id now s s'.
Proof.
  revert d d' s. induction n as [|n IH]; intros d d' s Ha Hd Ha' Hok H; simpl in H; [injection H as _ <-; by apply run_delta_refl|].
  destruct (isTerminalStage (dp_stage d)); [injection H as _ <-; by apply run_delta_refl|].
  tx_bind_in H next s1 H1. pose proof (fr_runStage _ _ _ _ _ _ _ Ha _ _ _ H1 Hok) as D1.
  destruct next as [[id' d1]|]; [|by injection H as _ <-].
  apply yields_runStage in H1 as [E Hd1]. simpl in E, Hd1. subst id'.
  destruct (rd_run _ _ _ _ _ D1 d' Hd) as (d1' & Hd1' & Ea1 & _). replace d1' with d1 in * by congruence.
  assert (run_delta app id now s1 s') as D2 by (eapply (IH d1 d1); try done; [congruence|congruence|apply D1]).
  by eapply run_delta_trans.
Qed.

(** ** Starting a run *)

Lemma choose_nodes_reads d now s r s' : choose_nodes localeCompare d now s = Done (r, s') → s' = s.
Proof.
  assert (acts (λ s s' : infra, s' = s) (choose_nodes localeCompare d now)) as Ha; [|apply Ha].
  assert (PreOrder (λ s s' : infra, s' = s)) by (split; [by intros ?|by intros ??? -> ->]).
  unfold choose_nodes, liveNodes, take_rows, currentPlacement, app_named, route_named, loadRouteOwner, take_rows.
  acts_walk fail.
Qed.

(** Writing the granted epoch, then a part that stays in the frame. *)
Lemma frame_startRun app id now d s epoch start u s' :
  dp_app d = app → rows (appDeployments s) !! id = Some d → holds_lease s app (holderOf id) epoch → store_ok s →
  (∀ d, dp_app (start d) = dp_app d ∧ dp_operation (start d) = dp_operation d ∧ dp_leaseEpoch (start d) = Some epoch) →
  startRun localeCompare parseYaml env (id, d) epoch now start s = Done (u, s') → run_delta app id now s s'.
Proof.
  intros Ha Hd (k & l & Hl & El & Ee & Eh) Hok Hst H. unfold startRun in H. tx_bind_in H u1 s1 H1.
  apply db_patch_done in H1 as (d0 & Hd0 & ->). simpl in Hd0. replace d0 with d in * by congruence.
  destruct (Hst d) as (Sa & So & Se).
  assert (run_delta app id now s (upd appDeployments (t_set id (start d)) s)) as D1
    by (eapply frame_grant; eauto; [congruence|congruence]).
  tx_bind_in H u2 s2 H2. apply (fr_appendAudit app id) in H2. specialize (H2 (rd_ok _ _ _ _ _ D1)).
  assert (run_delta app id now s s2) as D2 by by eapply run_delta_trans.
  tx_bind_in H run3 s3 H3. unfold reload in H3. tx_bind_in H3 d3 s4 H4. injection H4 as <- <-.
  destruct (rd_run _ _ _ _ _ D2 d Hd) as (d2 & Hd2 & Ea2 & _). simpl in H3. rewrite Hd2 in H3. injection H3 as <- <-.
  unfold advanceRun in H. apply (frame_advance 8 app id now d2 s2 d2) in H; try congruence; [|apply D2].
  by eapply run_delta_trans.
Qed.

Lemma frame_beginRun id now d s u s' :
  rows (appDeployments s) !! id = Some d → store_ok s →
  beginRun localeCompare parseYaml env (id, d) now s = Done (u, s') → run_delta (dp_app d) id now s s'.
Proof.
  intros Hd Hok H. unfold beginRun in H. tx_bind_in H earlier s1 H1. injection H1 as <- <-.
  destruct (is_some _); [injection H as _ <-; by apply run_delta_refl|]. cbn [fst snd] in H.
  destruct (dp_operation d) as [op|] eqn:Eop; [|done]. tx_bind_in H lease s2 H2.
  pose proof (fr_acquireAppLease (dp_app d) id now _ _ _ _ _ _ _ _ H2 Hok) as D1.
  apply acquireAppLease_done in H2 as (Ok2 & (Ed & _) & Hr); [|done].
  destruct lease as [epoch ren|]; [|injection H as _ <-; by rewrite Hr in D1 |- *]. rewrite <- Ed in Hd.
  destruct op.
  - tx_bind_in H chosen s3 H3. apply choose_nodes_reads in H3 as ->. destruct chosen as [[[b n] keeps]|error].
    + apply (frame_startRun (dp_app d)) in H; try done; [by eapply run_delta_trans|]. intros d0. by destruct keeps.
    + tx_bind_in H u3 s3 H3. apply db_patch_done in H3 as (d0 & Hd0 & ->). replace d0 with d in * by congruence.
      destruct Hr as (k & l & Hl & El & Ee & Eh).
      assert (run_delta (dp_app d) id now s2 (upd appDeployments (t_set id (started_run epoch now d)) s2)) as D2
        by (eapply frame_grant; eauto; simpl; congruence).
      apply (fr_finishRun (dp_app d) id now) in H. specialize (H (rd_ok _ _ _ _ _ D2)).
      eapply run_delta_trans; [done|by eapply run_delta_trans|done].
  - apply (frame_startRun (dp_app d)) in H; try done. by eapply run_delta_trans.
Qed.

Lemma frame_tick id now s u s' :
  store_ok s → tick localeCompare parseYaml env id now s = Done (u, s') →
  s' = s ∨ ∃ d, rows (appDeployments s) !! id = Some d ∧ isTerminalStage (dp_stage d) = false ∧ run_delta (dp_app d) id now s s'.
Proof.
  intros Hok H. unfold tick in H. tx_bind_in H found s1 H1. injection H1 as <- <-.
  destruct (rows (appDeployments s) !! id) as [d|] eqn:Hd; [|left; by injection H as _ <-].
  destruct (is_none (dp_operation d) || isTerminalStage (dp_stage d)) eqn:Eterm; [left; by injection H as _ <-|].
  apply orb_false_iff in Eterm as [_ Eterm]. right. exists d. split; [done|]. split; [done|].
  destruct (dp_stage d === StQueued); [by eapply frame_beginRun|].
  tx_bind_in H lease s1 H1. unfold leaseRow in H1. apply db_unique_done in H1 as [-> _].
  assert (∀ u s', lose_lease id d now s = Done (u, s') → run_delta (dp_app d) id now s s') as Hlose.
  { intros u1 s2 H2. revert s2 H2 Hok. cut (acts (run_frame (dp_app d) id now) (lose_lease id d now)).
    { intros Ha s2 H2. by apply Ha in H2. } unfold lose_lease. apply acts_bind; [apply _|frame|]. intros. apply fr_reload_cleanUp. }
  destruct (dp_leaseEpoch d) as [e|]; [|by eapply Hlose]. destruct (leaseAdmits _ _ _); [|by eapply Hlose].
  tx_bind_in H u1 s1 H1. apply (fr_renewAppLease (dp_app d) id now) in H1. specialize (H1 Hok).
  destruct (rd_run _ _ _ _ _ H1 d Hd) as (d1 & Hd1 & Ea1 & _). unfold advanceRun in H.
  apply (frame_advance 8 (dp_app d) id now d s1 d1) in H; try done; [by eapply run_delta_trans|apply H1].
Qed.
End stages.

(** ** The other transactions on runs and leases *)

Definition keeps_ok : relation infra := λ s s', store_ok s → store_ok s'.
#[export] Instance keeps_ok_preorder : PreOrder keeps_ok.
Proof. split; [by intros ??|]. unfold keeps_ok. auto. Qed.

Section ok_leaves.
Implicit Types s : infra.

(** Any frame keeps the invariant. *)
Lemma ok_frame {A} (m : tx infra A) : acts (run_frame "" 0%nat 0) m → acts keeps_ok m.
Proof. intros Ha s a s' H Hok. by eapply (Ha _ _ _ H Hok). Qed.

Lemma ok_same s s' :
  appDeployments s' = appDeployments s → appLeases s' = appLeases s → nodeCommands s' = nodeCommands s →
  apps s' = apps s → appRoutes s' = appRoutes s → keeps_ok s s'.
Proof. intros Ed El Ec Ea Er []. split; by rewrite ?Ed, ?El, ?Ec, ?Ea, ?Er. Qed.

Lemma ok_run s i d d' :
  rows (appDeployments s) !! i = Some d → dp_app d' = dp_app d → dp_leaseEpoch d' = dp_leaseEpoch d →
  keeps_ok s (upd appDeployments (t_set i d') s).
Proof.
  intros Hd Ea Ee [Hwf ???? Hone Hep]. split; simpl; try done; [by eapply t_wf_set|].
  intros j d0 e Hj He. apply lookup_insert_Some in Hj as [[<- <-]|[_ Hj]]; [|by eapply Hep].
  rewrite Ea. rewrite Ee in He. by eapply Hep.
Qed.

Lemma ok_new_run s d : dp_leaseEpoch d = None → keeps_ok s (upd appDeployments (t_add d) s).
Proof.
  intros En [Hwf ???? Hone Hep]. split; simpl; try done; [by apply t_wf_add|].
  intros j d0 e Hj He. apply lookup_insert_Some in Hj as [[<- <-]|[_ Hj]]; [congruence|by eapply Hep].
Qed.

Lemma ok_trim s i : keeps_ok s (upd appDeployments (t_del i) s).
Proof.
  intros [Hwf ???? Hone Hep]. split; simpl; try done; [by apply t_wf_del|].
  intros j d0 e [_ Hj]%lookup_delete_Some He. by eapply Hep.
Qed.

Lemma ok_app s k a a' : rows (apps s) !! k = Some a → keeps_ok s (upd apps (t_set k a') s).
Proof. intros Ha []. split; simpl; try done. by eapply t_wf_set. Qed.
Lemma ok_route s k a a' : rows (appRoutes s) !! k = Some a → keeps_ok s (upd appRoutes (t_set k a') s).
Proof. intros Ha []. split; simpl; try done. by eapply t_wf_set. Qed.
End ok_leaves.

Ltac ok_leaf :=
  first
    [ apply ok_same; reflexivity | eapply ok_run; [eassumption|reflexivity|reflexivity] | apply ok_new_run; reflexivity
    | apply ok_trim | eapply ok_app; eassumption | eapply ok_route; eassumption ].
Ltac ok_walk := acts_walk ok_leaf.

Lemma ok_audit e now : acts keeps_ok (appendAudit e now).
Proof. unfold appendAudit, bumpCounter, readCounter, writeCounter, counterRow. ok_walk. Qed.
Lemma ok_release a e : acts keeps_ok (releaseAppLease a e).
Proof. apply ok_frame, fr_releaseAppLease. Qed.
Lemma ok_renew a e t ttl : acts keeps_ok (renewAppLease a e t ttl).
Proof. apply ok_frame, fr_renewAppLease. Qed.
Lemma ok_assert a e t : acts keeps_ok (assertAppLease a e t).
Proof. apply ok_frame, fr_assertAppLease. Qed.
Lemma ok_acquire a h op t ttl : acts keeps_ok (acquireAppLease a h op t ttl).
Proof. apply ok_frame, fr_acquireAppLease. Qed.
Lemma ok_call c : acts keeps_ok (infra_call_after c).
Proof. apply ok_frame, fr_call. Qed.
#[export] Hint Resolve ok_audit ok_release ok_renew ok_assert ok_acquire ok_call : acts.

Lemma ok_createDeployment i now : acts keeps_ok (createDeployment i now).
Proof. unfold createDeployment, trim_deployments, bumpCounter, readCounter, writeCounter, counterRow. ok_walk. Qed.
#[export] Hint Resolve ok_createDeployment : acts.
Lemma ok_createRun i now : acts keeps_ok (createRun i now).
Proof. unfold createRun. ok_walk. Qed.
#[export] Hint Resolve ok_createRun : acts.
Lemma ok_advanceDeployment i e st det urls err now : acts keeps_ok (advanceDeployment i e st det urls err now).
Proof. unfold advanceDeployment. ok_walk. Qed.
Lemma ok_sweepStale now : acts keeps_ok (sweepStale now).
Proof. unfold sweepStale, sweep_stage, sweep_row, leaseRow. ok_walk. Qed.
Lemma ok_beginFailover a n now : acts keeps_ok (beginFailover a n now).
Proof. unfold beginFailover. ok_walk. Qed.
Lemma ok_completeFailover a e f t now : acts keeps_ok (completeFailover a e f t now).
Proof. unfold completeFailover, app_named, move_service, byNodeKey, move_route, route_named, loadRouteOwner, take_rows. ok_walk. Qed.
Lemma ok_check lc env now : acts keeps_ok (check lc env now).
Proof. unfold check, take_rows, liveNodes, check_node, failOver, appsOn, failover_run, take_rows. ok_walk. Qed.
Lemma ok_pulse : acts keeps_ok pulse.
Proof. unfold pulse, pulse_stage. ok_walk. Qed.

Lemma ok_beginDeployment i now : acts keeps_ok (beginDeployment i now).
Proof.
  intros s r s' H Hok. unfold beginDeployment in H. tx_bind_in H dep s1 H1. injection H1 as <- <-.
  destruct (rows (appDeployments s) !! i) as [d|] eqn:Hd; [|done]. destruct (_ || _); [done|].
  tx_bind_in H lease s2 H2. apply acquireAppLease_done in H2 as (Ok2 & (Ed & _) & Hr); [|done].
  destruct lease as [e ren|]; [|by injection H as _ <-]. destruct Hr as (k & l & Hl & El & Ee & Eh).
  tx_bind_in H u s3 H3. injection H as _ <-. apply db_patch_done in H3 as (d0 & Hd0 & ->). rewrite Ed in Hd0.
  replace d0 with d by congruence. eapply (rd_ok "" i 0 s2), frame_grant; try done; [by rewrite Ed|by rewrite <- Ee].
Qed.

(** ** Runs that ended *)

Definition outcome_of (d : app_deployment) : app_deployment := d <| dp_sourceDeleted := None |>.
Definition ended (d : app_deployment) : bool := isTerminalStage (dp_stage d).

(** A record that is gone stays gone; one that ended is gone or the same but for its deleted upload. *)
Definition ended_kept (o o' : option app_deployment) : Prop :=
  match o with
  | None => o' = None
  | Some d => ended d = true → o' = None ∨ ∃ d', o' = Some d' ∧ outcome_of d' = outcome_of d
  end.

Definition final_kept : relation infra := λ s s',
  t_wf (appDeployments s) → t_wf (appDeployments s') ∧ (next_id (appDeployments s) ≤ next_id (appDeployments s'))%nat ∧
  ∀ j, (j < next_id (appDeployments s))%nat → ended_kept (rows (appDeployments s) !! j) (rows (appDeployments s') !! j).

Lemma ended_outcome d d' : outcome_of d' = outcome_of d → ended d' = ended d.
Proof. intros H. apply (f_equal dp_stage) in H. simpl in H. unfold ended. by rewrite H. Qed.

Lemma ended_kept_refl o : ended_kept o o.
Proof. destruct o; simpl; eauto. Qed.
Lemma ended_kept_trans o1 o2 o3 : ended_kept o1 o2 → ended_kept o2 o3 → ended_kept o1 o3.
Proof.
  destruct o1 as [d1|]; simpl; [|intros ->; done]. intros H1 H2 He. destruct (H1 He) as [->|(d2 & -> & E2)]; [by left|].
  simpl in H2. destruct H2 as [->|(d3 & -> & E3)]; [by rewrite (ended_outcome d1)|by left|]. right. exists d3.
  split; [done|congruence].
Qed.

#[export] Instance final_kept_preorder : PreOrder final_kept.
Proof.
  split.
  - intros s Hwf. split; [done|]. split; [done|]. intros. apply ended_kept_refl.
  - intros s1 s2 s3 H12 H23 Hwf. destruct (H12 Hwf) as (W2 & N2 & K2). destruct (H23 W2) as (W3 & N3 & K3).
    split; [done|]. split; [lia|]. intros j Hj. eapply ended_kept_trans; [by apply K2|]. apply K3. lia.
Qed.

Section final_leaves.
Implicit Types s : infra.

Lemma final_same s s' : appDeployments s' = appDeployments s → final_kept s s'.
Proof. intros E Hwf. rewrite E. split; [done|]. split; [done|]. intros. apply ended_kept_refl. Qed.

Lemma final_patch s i d d' :
  rows (appDeployments s) !! i = Some d → ended d = false ∨ outcome_of d' = outcome_of d →
  final_kept s (upd appDeployments (t_set i d') s).
Proof.
  intros Hd Hor Hwf. split; [by eapply t_wf_set|]. split; [done|]. simpl. intros j _.
  destruct (decide (i = j)) as [<-|]; [|by rewrite lookup_insert_ne by done; apply ended_kept_refl].
  rewrite lookup_insert_eq, Hd. simpl. intros He. right. exists d'. split; [done|]. destruct Hor; [congruence|done].
Qed.

Lemma final_insert s d : final_kept s (upd appDeployments (t_add d) s).
Proof.
  intros Hwf. split; [by apply t_wf_add|]. split; [simpl; lia|]. simpl. intros j Hj.
  rewrite lookup_insert_ne by lia. apply ended_kept_refl.
Qed.

Lemma final_delete s i : final_kept s (upd appDeployments (t_del i) s).
Proof.
  intros Hwf. split; [by apply t_wf_del|]. split; [done|]. simpl. intros j _. destruct (decide (i = j)) as [<-|].
  - rewrite lookup_delete_eq. destruct (rows _ !! i); simpl; auto.
  - rewrite lookup_delete_ne by done. apply ended_kept_refl.
Qed.

Lemma final_delta app id now s s' d :
  rows (appDeployments s) !! id = Some d → ended d = false → run_delta app id now s s' → final_kept s s'.
Proof.
  intros Hd He [Ok Ho _ Hn _ _ _] Hwf. split; [apply Ok|]. split; [lia|]. intros j _.
  destruct (decide (j = id)) as [->|Hne]; [rewrite Hd; simpl; congruence|rewrite Ho by done; apply ended_kept_refl].
Qed.
End final_leaves.

Ltac final_leaf :=
  first
    [ apply final_same; reflexivity | eapply final_patch; [eassumption|by first [right; reflexivity]]
    | apply final_insert | apply final_delete ].
Ltac final_walk := acts_walk final_leaf.

Lemma fin_audit e now : acts final_kept (appendAudit e now).
Proof. unfold appendAudit, bumpCounter, readCounter, writeCounter, counterRow. final_walk. Qed.
Lemma fin_release a e : acts final_kept (releaseAppLease a e).
Proof. unfold releaseAppLease, leaseRow. final_walk. Qed.
Lemma fin_assert a e t : acts final_kept (assertAppLease a e t).
Proof. unfold assertAppLease, leaseRow. final_walk. Qed.
Lemma fin_call c : acts final_kept (infra_call_after c).
Proof. unfold infra_call_after. final_walk. Qed.
#[export] Hint Resolve fin_audit fin_release fin_assert fin_call : acts.
Lemma fin_renew a e t ttl : acts final_kept (renewAppLease a e t ttl).
Proof. unfold renewAppLease. final_walk. Qed.
Lemma fin_acquire a h op t ttl : acts final_kept (acquireAppLease a h op t ttl).
Proof. unfold acquireAppLease, leaseRow. final_walk. Qed.
Lemma fin_trim r : acts final_kept (trim_deployments r).
Proof. unfold trim_deployments, writeCounter, counterRow. final_walk. Qed.
Lemma fin_bump c n : acts final_kept (bumpCounter c n).
Proof. unfold bumpCounter, readCounter, writeCounter, counterRow. final_walk. Qed.
#[export] Hint Resolve fin_renew fin_acquire fin_trim fin_bump : acts.
Lemma fin_createDeployment i now : acts final_kept (createDeployment i now).
Proof. unfold createDeployment. final_walk. Qed.
Lemma fin_cleanUp run now : acts final_kept (cleanUp run now).
Proof. unfold cleanUp, cancel_if_open, delete_upload, note_on_binding. final_walk. Qed.
Lemma fin_beginFailover a n now : acts final_kept (beginFailover a n now).
Proof. unfold beginFailover. final_walk. Qed.
Lemma fin_completeFailover a e f t now : acts final_kept (completeFailover a e f t now).
Proof. unfold completeFailover, app_named, move_service, byNodeKey, move_route, route_named, loadRouteOwner, take_rows. final_walk. Qed.
Lemma fin_pulse : acts final_kept pulse.
Proof. unfold pulse, pulse_stage. final_walk. Qed.
#[export] Hint Resolve fin_createDeployment fin_cleanUp : acts.

(** A new record is queued, or trimmed at once. *)
Definition row_or_gone (i : Id) : relation infra := λ s s',
  rows (appDeployments s') !! i = rows (appDeployments s) !! i ∨ rows (appDeployments s') !! i = None.
#[export] Instance row_or_gone_preorder i : PreOrder (row_or_gone i).
Proof. split; [by left|]. intros ??? [H1|H1] [H2|H2]; unfold row_or_gone; rewrite ?H1, ?H2; auto. Qed.

Lemma row_or_gone_delete i j s : row_or_gone i s (upd appDeployments (t_del j) s).
Proof.
  unfold row_or_gone. simpl. destruct (decide (j = i)) as [->|]; [right; apply lookup_delete_eq|left; by apply lookup_delete_ne].
Qed.

Lemma createDeployment_row i now s id s' :
  createDeployment i now s = Done (id, s') →
  id = next_id (appDeployments s) ∧
  (rows (appDeployments s') !! id = Some (new_deployment i now) ∨ rows (appDeployments s') !! id = None).
Proof.
  intros H. unfold createDeployment in H. tx_bind_in H id1 s1 H1. injection H1 as <- <-.
  tx_bind_in H retained s2 H2. tx_bind_in H u s3 H3. injection H as <- <-. split; [done|].
  assert (row_or_gone (next_id (appDeployments s)) (upd appDeployments (t_add (new_deployment i now)) s) s3) as [E|E].
  { transitivity s2.
    - revert H2. match goal with |- ?m ?st = _ → _ => cut (acts (row_or_gone (next_id (appDeployments s))) m); [intros Ha; apply Ha|] end.
      unfold bumpCounter, readCounter, writeCounter, counterRow. acts_walk ltac:(by left).
    - revert H3. match goal with |- ?m ?st = _ → _ => cut (acts (row_or_gone (next_id (appDeployments s))) m); [intros Ha; apply Ha|] end.
      unfold trim_deployments, writeCounter, counterRow. acts_walk ltac:(first [apply row_or_gone_delete|by left]). }
  - left. rewrite E. simpl. apply lookup_insert_eq.
  - by right.
Qed.

Lemma fin_createRun i now : acts final_kept (createRun i now).
Proof.
  intros s id s' H. unfold createRun in H. destruct (negb _); [done|]. tx_bind_in H id1 s1 H1.
  pose proof (fin_createDeployment _ _ _ _ _ H1) as F1. apply createDeployment_row in H1 as [-> Hrow].
  tx_bind_in H u s2 H2. etrans; [exact F1|]. transitivity s2.
  - apply db_patch_done in H2 as (d & Hd & ->). eapply final_patch; [done|]. left. destruct Hrow as [E|E]; [|congruence].
    rewrite Hd in E. by injection E as ->.
  - revert H. match goal with |- ?m ?st = _ → _ => cut (acts final_kept m); [intros Ha; apply Ha|] end. final_walk.
Qed.
#[export] Hint Resolve fin_createRun : acts.
Lemma fin_check lc env now : acts final_kept (check lc env now).
Proof. unfold check, take_rows, liveNodes, check_node, failOver, appsOn, failover_run, take_rows. final_walk. Qed.

Lemma fin_beginDeployment i now : acts final_kept (beginDeployment i now).
Proof.
  intros s r s' H. unfold beginDeployment in H. tx_bind_in H dep s1 H1. injection H1 as <- <-.
  destruct (rows (appDeployments s) !! i) as [d|] eqn:Hd; [|done]. destruct (_ || _) eqn:E; [done|].
  apply orb_false_iff in E as [E%negb_false_iff%bool_decide_eq_true _].
  tx_bind_in H lease s2 H2. pose proof (fin_acquire _ _ _ _ _ _ _ _ H2) as F2.
  assert (appDeployments s2 = appDeployments s) as Ed.
  { revert H2. assert (acts only_leases (acquireAppLease (dp_app d) (holderOf i) OpDeploy now None)) as Ha
      by (unfold acquireAppLease, leaseRow; acts_walk ltac:(done)). intros H2. by apply Ha in H2 as (? & _). }
  destruct lease as [e ren|]; [|by injection H as _ <-]. tx_bind_in H u s3 H3. injection H as _ <-.
  etrans; [exact F2|]. apply db_patch_done in H3 as (d0 & Hd0 & ->). eapply final_patch; [done|]. left.
  rewrite Ed in Hd0. replace d0 with d by congruence. unfold ended. by rewrite E.
Qed.

Lemma fin_advanceDeployment i e st det urls err now : acts final_kept (advanceDeployment i e st det urls err now).
Proof.
  intros s r s' H. unfold advanceDeployment in H. tx_bind_in H dep s1 H1. injection H1 as <- <-.
  destruct (rows (appDeployments s) !! i) as [d|] eqn:Hd; [|done]. destruct (_ || _) eqn:E; [done|].
  apply orb_false_iff in E as [_ E]. tx_bind_in H lease s2 H2.
  assert (s2 = s) as ->.
  { unfold assertAppLease, leaseRow in H2. tx_bind_in H2 l s3 H3. apply db_unique_done in H3 as [-> _].
    destruct l as [[k l]|]; [|done]. destruct (leaseAdmits _ _ _); [by injection H2 as _ <-|done]. }
  tx_bind_in H u s3 H3. transitivity s3.
  - apply db_patch_done in H3 as (d0 & Hd0 & ->). eapply final_patch; [done|]. left. by replace d0 with d by congruence.
  - revert H. match goal with |- ?m ?st = _ → _ => cut (acts final_kept m); [intros Ha; apply Ha|] end. final_walk.
Qed.

(** The sweep fails rows it read in a stage that is not terminal, each once. *)
Lemma sweep_rows_final now failed l s r s' :
  NoDup l.*1 → (∀ p, p ∈ l → rows (appDeployments s) !! p.1 = Some p.2 ∧ ended p.2 = false) →
  fold_tx (sweep_row now) failed l s = Done (r, s') → final_kept s s'.
Proof.
  revert failed s. induction l as [|[i d] l IH]; intros failed s Hnd Hin H; simpl in H; [by injection H as _ <-|].
  apply NoDup_cons in Hnd as [Hni Hnd]. tx_bind_in H n s1 H1. destruct (Hin (i, d)) as [Hd He]; [left|].
  simpl in Hd, He, H1.
  assert (final_kept s s1 ∧ ∀ p, p ∈ l → rows (appDeployments s1) !! p.1 = rows (appDeployments s) !! p.1) as [F1 Hrest].
  { destruct (from_hub d); [by injection H1 as _ <-|]. tx_bind_in H1 lease s2 H2.
    assert (s2 = s) as ->.
    { destruct (dp_leaseEpoch d); [|by injection H2 as _ <-]. tx_bind_in H2 l0 s3 H3. unfold leaseRow in H3.
      apply db_unique_done in H3 as [-> _]. by injection H2 as _ <-. }
    destruct (stale_reason d lease now); [|by injection H1 as _ <-]. tx_bind_in H1 u s3 H3. tx_bind_in H1 u2 s4 H4.
    injection H1 as _ <-. apply db_patch_done in H3 as (d0 & Hd0 & ->). replace d0 with d in * by congruence.
    match type of H4 with ?m ?st = _ => assert (appDeployments s4 = appDeployments st) as E4
      by (destruct (is_some _); by injection H4 as _ <-) end.
    split; [etrans; [eapply final_patch; [done|by left]|by apply final_same]|]. rewrite E4. intros [j d'] Hj. simpl.
    rewrite lookup_insert_ne; [done|]. intros <-. apply Hni, list_elem_of_fmap. by exists (i, d'). }
  etrans; [exact F1|]. eapply IH; [done| |done]. intros p Hp. rewrite Hrest by done. apply Hin. by right.
Qed.

Lemma fin_sweepStale now : acts final_kept (sweepStale now).
Proof.
  unfold sweepStale. apply acts_fold; [apply _|]. intros failed st s r s' H. unfold sweep_stage in H.
  destruct (isTerminalStage st) eqn:Est; [by injection H as _ <-|]. tx_bind_in H found s1 H1. injection H1 as <- <-.
  eapply sweep_rows_final; [| |done]; [apply NoDup_take_ids, NoDup_t_where_ids|]. intros p Hp.
  destruct (t_where_sound (appDeployments s) (λ d, dp_stage d === st) p) as [? E%bool_decide_eq_true];
    [by eapply subseteq_take|]. split; [done|]. unfold ended. by rewrite E.
Qed.

(** ** Runs of the system *)

Section system.
Context (localeCompare : string → string → Z) (parseYaml : string → json + string) (env : pipeline_env).
Local Abbreviation tick' := (tick localeCompare parseYaml env).

Lemma frame_kickApp app now s u s' :
  store_ok s → kickApp localeCompare parseYaml env app now s = Done (u, s') →
  s' = s ∨ ∃ id d, rows (appDeployments s) !! id = Some d ∧ dp_stage d = StQueued ∧ dp_app d = app ∧ run_delta app id now s s'.
Proof.
  intros Hok H. unfold kickApp in H. tx_bind_in H next s1 H1. injection H1 as <- <-.
  destruct (head (t_where (λ d, queued_run d app) (appDeployments s))) as [[id d]|] eqn:E; [|left; by injection H as _ <-].
  apply head_Some_elem_of, t_where_sound in E as [Hd Hq]. simpl in Hd, Hq. right. exists id, d.
  unfold queued_run in Hq. rewrite !andb_true_iff in Hq. destruct Hq as [[Eq%bool_decide_eq_true <-%bool_decide_eq_true] _].
  split; [done|]. split; [done|]. split; [done|]. by eapply frame_beginRun.
Qed.

Inductive pipeline_step (s s' : infra) : Prop :=
  | ps_create i now r : createRun i now s = Done (r, s') → pipeline_step s s'
  | ps_record i now r : createDeployment i now s = Done (r, s') → pipeline_step s s'
  | ps_tick id now u : tick' id now s = Done (u, s') → pipeline_step s s'
  | ps_kick app now u : kick localeCompare parseYaml env app now s = Done (u, s') → pipeline_step s s'
  | ps_afterSweep id now u : afterSweep localeCompare parseYaml env id now s = Done (u, s') → pipeline_step s s'
  | ps_pulse r : pulse s = Done (r, s') → pipeline_step s s'
  | ps_sweep now r : sweepStale now s = Done (r, s') → pipeline_step s s'
  | ps_begin id now r : beginDeployment id now s = Done (r, s') → pipeline_step s s'
  | ps_advance id e st det urls err now u : advanceDeployment id e st det urls err now s = Done (u, s') → pipeline_step s s'
  | ps_beginFailover app n now r : beginFailover app n now s = Done (r, s') → pipeline_step s s'
  | ps_completeFailover app e f t now u : completeFailover app e f t now s = Done (u, s') → pipeline_step s s'
  | ps_check now r : check localeCompare env now s = Done (r, s') → pipeline_step s s'
  | ps_other : appDeployments s' = appDeployments s → appLeases s' = appLeases s →
      t_wf (nodeCommands s') → t_wf (apps s') → t_wf (appRoutes s') → pipeline_step s s'.

Lemma afterSweep_steps id now s u s' :
  store_ok s → afterSweep localeCompare parseYaml env id now s = Done (u, s') → store_ok s' ∧ final_kept s s'.
Proof.
  intros Hok H. unfold afterSweep in H. tx_bind_in H found s1 H1. injection H1 as <- <-.
  destruct (rows (appDeployments s) !! id) as [d|]; [|by injection H as _ <-].
  destruct (isTerminalStage (dp_stage d)); [|by injection H as _ <-]. tx_bind_in H u1 s1 H1.
  assert (store_ok s1) as Ok1 by (eapply (rd_ok "" id now s), fr_cleanUp; eauto).
  apply fin_cleanUp in H1. apply frame_kickApp in H as [->|(id' & d' & Hd' & Hq & _ & D)]; [done| |done].
  split; [apply D|]. etrans; [exact H1|]. eapply final_delta; [done| |done]. unfold ended. by rewrite Hq.
Qed.

Lemma pipeline_step_ok s s' : store_ok s → pipeline_step s s' → store_ok s' ∧ final_kept s s'.
Proof.
  intros Hok Hs.
  destruct Hs as [??? H|??? H|??? H|??? H|??? H|? H|?? H|??? H|???????? H|???? H|?????? H|?? H|Ed El Wc Wa Wr].
  - split; [by eapply ok_createRun|by eapply fin_createRun].
  - split; [by eapply ok_createDeployment|by eapply fin_createDeployment].
  - apply frame_tick in H as [->|(d & Hd & He & D)]; [done| |done]. split; [apply D|by eapply final_delta].
  - apply frame_kickApp in H as [->|(id & d & Hd & Hq & _ & D)]; [done| |done]. split; [apply D|].
    eapply final_delta; [done| |done]. unfold ended. by rewrite Hq.
  - by eapply afterSweep_steps.
  - split; [by eapply ok_pulse|by eapply fin_pulse].
  - split; [by eapply ok_sweepStale|by eapply fin_sweepStale].
  - split; [by eapply ok_beginDeployment|by eapply fin_beginDeployment].
  - split; [by eapply ok_advanceDeployment|by eapply fin_advanceDeployment].
  - split; [by eapply ok_beginFailover|by eapply fin_beginFailover].
  - split; [by eapply ok_completeFailover|by eapply fin_completeFailover].
  - split; [by eapply ok_check|by eapply fin_check].
  - split; [|by apply final_same]. destruct Hok. split; by rewrite ?Ed, ?El.
Qed.

Lemma pipeline_steps_ok s s' : store_ok s → rtc pipeline_step s s' → store_ok s' ∧ final_kept s s'.
Proof.
  intros Hok. induction 1 as [|s s1 s2 Hs _ IH]; [done|]. apply pipeline_step_ok in Hs as [Ok1 F1]; [|done].
  destruct (IH Ok1) as [Ok2 F2]. split; [done|]. by etrans.
Qed.

(** C12: an App has one live run.  In every store the transactions of the pipeline, of the lease
    operations and of failover reach, two runs of an App whose lease epochs the App's lease admits at
    one time are the same run. *)
Theorem one_live_run_per_app s0 s i j di dj ei ej k l now :
  store_ok s0 → rtc pipeline_step s0 s →
  rows (appDeployments s) !! i = Some di → rows (appDeployments s) !! j = Some dj → dp_app di = dp_app dj →
  dp_leaseEpoch di = Some ei → dp_leaseEpoch dj = Some ej →
  rows (appLeases s) !! k = Some l → al_app l = dp_app di →
  leaseAdmits (Some (lease_of l)) ei now = true → leaseAdmits (Some (lease_of l)) ej now = true → i = j.
Proof.
  intros Ok0 Hsteps Hi Hj Ea Ei Ej Hl El Ai Aj. apply pipeline_steps_ok in Hsteps as [Hok _]; [|done].
  unfold leaseAdmits, lease_of in Ai, Aj. simpl in Ai, Aj. rewrite !andb_true_iff in Ai, Aj.
  destruct Ai as [[Hh Eei%Z.eqb_eq] _], Aj as [[_ Eej%Z.eqb_eq] _]. destruct (al_holder l) as [h|] eqn:Eh; [|done].
  apply holderOf_inj. trans h; [symmetry|].
  - destruct (so_epoch _ Hok i di ei Hi Ei) as (k' & l' & Hl' & El' & _ & Hu).
    assert (k' = k) as -> by (eapply (so_one_lease _ Hok); eauto; congruence).
    replace l' with l in * by congruence. by apply Hu.
  - destruct (so_epoch _ Hok j dj ej Hj Ej) as (k' & l' & Hl' & El' & _ & Hu).
    assert (k' = k) as -> by (eapply (so_one_lease _ Hok); eauto; congruence).
    replace l' with l in * by congruence. by apply Hu.
Qed.

(** A run that ended stays as it ended.  Whatever the pipeline, the sweep, failover and the
    importer do afterwards, its record is unchanged but for the mark that its upload was deleted,
    until history trimming removes it, and then no later run takes its id. *)
Theorem ended_run_is_final s s' i d :
  store_ok s → rows (appDeployments s) !! i = Some d → isTerminalStage (dp_stage d) = true →
  rtc pipeline_step s s' →
  rows (appDeployments s') !! i = None ∨
  ∃ d', rows (appDeployments s') !! i = Some d' ∧ d' <| dp_sourceDeleted := None |> = d <| dp_sourceDeleted := None |>.
Proof.
  intros Hok Hd He Hsteps. apply pipeline_steps_ok in Hsteps as [_ F]; [|done].
  destruct (F (so_deployments _ Hok)) as (_ & _ & K). specialize (K i (so_deployments _ Hok i d Hd)).
  rewrite Hd in K. by apply K.
Qed.


(** ** A run that lost its lease *)

Lemma for_each_total {A} (P : infra → Prop) (l : list A) body s :
  (∀ x s, x ∈ l → P s → ∃ s', body x s = Done (tt, s') ∧ P s') → P s → ∃ s', for_each l body s = Done (tt, s') ∧ P s'.
Proof.
  revert s. induction l as [|x l IH]; intros s Hb Hp; [by exists s|]. destruct (Hb x s) as (s1 & H1 & P1); [left|done|].
  destruct (IH s1) as (s2 & H2 & P2); [intros; apply Hb; [by right|done]|done|]. exists s2.
  simpl. unfold mbind, tx_bind. by rewrite H1.
Qed.

(** What [cleanUp] leaves alone, and that it commits. *)
Definition clean_frame (id : Id) (s s' : infra) : Prop :=
  apps s' = apps s ∧ appRoutes s' = appRoutes s ∧ appLeases s' = appLeases s ∧
  ∀ d, rows (appDeployments s) !! id = Some d →
    ∃ d', rows (appDeployments s') !! id = Some d' ∧ outcome_of d' = outcome_of d.

Lemma cleanUp_total id d now s :
  is_Some (rows (appDeployments s) !! id) → ∃ s', cleanUp (id, d) now s = Done (tt, s') ∧ clean_frame id s s'.
Proof.
  intros [d0 Hd0]. unfold cleanUp.
  set (steps := take 100 (t_where (λ c, nq_deploymentId c === Some id) (nodeCommands s))).
  set (P := λ s1 : infra, (∀ r, r ∈ steps → is_Some (rows (nodeCommands s1) !! r.1)) ∧ clean_frame id s s1).
  destruct (for_each_total P steps (cancel_if_open now) s) as (s1 & H1 & _ & Ea & Er & El & Ed).
  { intros r s1 Hr [Hin (Ea & Er & El & Ed)]. unfold cancel_if_open. destruct (_ || _); [|by exists s1].
    destruct (Hin r Hr) as [c Hc]. eexists. split; [simpl; unfold db_patch; by rewrite Hc|]. split; [|done].
    intros r' Hr'. simpl. destruct (decide (r.1 = r'.1)) as [<-|]; [rewrite lookup_insert_eq; eauto|].
    rewrite lookup_insert_ne by done. auto. }
  { split; [|by split_and!; eauto]. intros r Hr. exists (r.2). apply (t_where_sound (nodeCommands s) (λ c, nq_deploymentId c === Some id)).
    by eapply subseteq_take. }
  destruct (Ed d0 Hd0) as (d1 & Hd1 & Eo1).
  assert (∃ s2, delete_upload id d s1 = Done (tt, s2) ∧ clean_frame id s s2) as (s2 & H2 & F2).
  { unfold delete_upload. destruct (dp_source d) as [[f|]|]; [|by exists s1|by exists s1]. destruct (or_else _ _); [by exists s1|].
    eexists. split; [simpl; unfold mbind, tx_bind, modify, db_patch; simpl; by rewrite Hd1|]. split_and!; try done.
    intros d' Hd'. simpl. rewrite lookup_insert_eq. eexists. split; [done|]. replace d' with d0 by congruence. by rewrite <- Eo1. }
  assert (∃ s3, note_on_binding d now s2 = Done (tt, s3) ∧ clean_frame id s s3) as (s3 & H3 & F3).
  { unfold note_on_binding. destruct (dp_gitBindingId d) as [b|]; [|by exists s2]. unfold mbind, tx_bind. simpl.
    destruct (rows (gitBindings s2) !! b) as [bd|] eqn:Eb; [|by exists s2].
    eexists. split; [unfold db_patch; by rewrite Eb|]. destruct F2 as (?&?&?&?). done. }
  exists s3. split; [|done]. apply bind_done. exists steps, s. split; [done|]. apply bind_done. exists tt, s1. split; [done|].
  apply bind_done. by exists tt, s2.
Qed.

Lemma lose_lease_total id d now s :
  rows (appDeployments s) !! id = Some d →
  ∃ s' d', lose_lease id d now s = Done (tt, s') ∧ apps s' = apps s ∧ appRoutes s' = appRoutes s ∧
    appLeases s' = appLeases s ∧ rows (appDeployments s') !! id = Some d' ∧ dp_stage d' = StFailed ∧
    dp_error d' = Some "lost its App lease mid-run" ∧ dp_finishedAt d' = Some now.
Proof.
  intros Hd.
set (d1 := d <| dp_stage := StFailed |> <| dp_detail := stage_name (dp_stage d) |>
      <| dp_error := Some "lost its App lease mid-run" |> <| dp_finishedAt := Some now |>).
    set (s1 := upd appDeployments (t_set id d1) s).
    assert (rows (appDeployments s1) !! id = Some d1) as Hd1 by apply lookup_insert_eq.
    destruct (cleanUp_total id d1 now s1) as (s2 & H2 & Ea & Er & El & Ed); [by eexists|].
    destruct (Ed d1 Hd1) as (d2 & Hd2 & Eo). exists s2, d2. split.
    { unfold lose_lease, mbind, tx_bind, db_patch. rewrite Hd. unfold reload, mbind, tx_bind, db_get, read. simpl.
      rewrite lookup_insert_eq. exact H2. }
    split_and!; try done; [by apply (f_equal dp_stage) in Eo|by apply (f_equal dp_error) in Eo|by apply (f_equal dp_finishedAt) in Eo].
Qed.

Lemma leaseRow_total s app :
  store_ok s → ∃ row, leaseRow app s = Done (row, s) ∧
    ∀ k l, row = Some (k, l) → rows (appLeases s) !! k = Some l ∧ al_app l = app.
Proof.
  intros Hok. unfold leaseRow, db_unique. destruct (t_where _ _) as [|[k l] [|[k' l'] rest]] eqn:E.
    - by exists None.
    - exists (Some (k, l)). split; [done|]. intros k' l' [= <- <-].
      destruct (t_where_sound (appLeases s) (λ l, al_app l === app) (k, l)) as [? ?%bool_decide_eq_true]; [|done].
      rewrite E. left.
    - exfalso. pose proof (NoDup_t_where_ids (λ l, al_app l === app) (appLeases s)) as Hnd. rewrite E in Hnd.
      simpl in Hnd. apply NoDup_cons in Hnd as [Hni _]. apply Hni.
      destruct (t_where_sound (appLeases s) (λ l, al_app l === app) (k, l)) as [H1 E1%bool_decide_eq_true]; [rewrite E; left|].
      destruct (t_where_sound (appLeases s) (λ l, al_app l === app) (k', l')) as [H2 E2%bool_decide_eq_true]; [rewrite E; right; left|].
      simpl in *. rewrite (so_one_lease _ Hok k k' l l') by (done || congruence). left.
Qed.

(** A run whose App lease lapsed or passed on writes nothing to its App.  Its next tick commits,
    marks the run failed with that reason, and leaves every App row, route and lease as it was. *)
Theorem lapsed_run_only_fails id d now s :
  store_ok s → rows (appDeployments s) !! id = Some d → is_Some (dp_operation d) → dp_stage d ∈ ACTIVE_STAGES →
  (∀ k l e, rows (appLeases s) !! k = Some l → al_app l = dp_app d → dp_leaseEpoch d = Some e →
     leaseAdmits (Some (lease_of l)) e now = false) →
  ∃ s' d', tick' id now s = Done (tt, s') ∧ apps s' = apps s ∧ appRoutes s' = appRoutes s ∧ appLeases s' = appLeases s ∧
    rows (appDeployments s') !! id = Some d' ∧ dp_stage d' = StFailed ∧
    dp_error d' = Some "lost its App lease mid-run" ∧ dp_finishedAt d' = Some now.
Proof.
  intros Hok Hd [op Hop] Hst Hno.
  assert (isTerminalStage (dp_stage d) = false ∧ dp_stage d ≠ StQueued) as [Et Eq].
  { unfold ACTIVE_STAGES in Hst. rewrite !elem_of_cons in Hst. destruct Hst as [->|[->|[->|[->|[->|[]%elem_of_nil]]]]]; done. }
  destruct (leaseRow_total s (dp_app d) Hok) as (row & Hrow & Hl).
  destruct (lose_lease_total id d now s Hd) as (s' & d' & Hrun & Hrest). exists s', d'. split; [|done]. unfold tick.
  unfold mbind, tx_bind, db_get, read. rewrite Hd, Hop, Et. simpl. rewrite bool_decide_false by done.
  unfold mbind, tx_bind. rewrite Hrow. destruct (dp_leaseEpoch d) as [e|] eqn:Ee; [|exact Hrun].
  destruct row as [[k l]|]; simpl; [|exact Hrun]. destruct (Hl k l eq_refl) as [H1 H2].
  pose proof (Hno k l e H1 H2 eq_refl) as Hadm. unfold leaseAdmits in Hadm. simpl in Hadm. rewrite Hadm. exact Hrun.
Qed.
End system.

(** ** Witnesses: one Node deploys an uploaded App *)

Module PipelineDemo.
Import CommandDemo.
Definition env : pipeline_env := PipelineEnv (Some "127.0.0.1:61050") None (Some "apps.example") None.
Definition yaml (source : string) : json + string := inr "no document".
Definition upload : run_input :=
  RunInput "shop" OpDeploy (Trigger TrigUpload None None (Some "ada")) (Some (SrcUpload "file-1")) None None (Some 3000) None None.

Definition at_tick (now : Z) (s : infra) : infra := commit (tick str_cmp yaml env 0%nat now) s.
Definition worked (command : Id) (now : Z) (s : infra) : infra :=
  commit (reportNodeCommand hash text token command "agent" 1 OutSuccess None None None now)
    (commit (claimNodeCommand hash token command "agent" now) s).

Definition ready : infra := commit (db_patch nodes 0%nat (λ n, n <| nd_lastSeenAt := Some 1000 |>)) enrolled.
Definition queued : infra := commit (createRun upload 1000) ready.
Definition reading : infra := at_tick 1001 queued.
Definition building : infra := at_tick 1003 (worked 0%nat 1002 reading).
Definition deploying : infra := at_tick 1005 (worked 1%nat 1004 building).
Definition deployed : infra := at_tick 1007 (worked 2%nat 1006 deploying).

Definition stages (s : infra) : list (deploy_stage * list string) :=
  (λ r : Id * app_deployment, (dp_stage r.2, dp_urls r.2)) <$> t_scan (appDeployments s).

(** The run goes through its stages and ends with its route served. *)
Example upload_deploys :
  stages queued = [(StQueued, [])] ∧ stages reading = [(StReadingSpec, [])] ∧ stages building = [(StBuilding, [])] ∧
  stages deploying = [(StDeploying, [])] ∧ stages deployed = [(StDone, ["https://shop.apps.example"])].
Proof. vm_compute. done. Qed.

Lemma ready_ok : store_ok ready.
Proof.
  split; [exact t_wf_empty|exact t_wf_empty|exact t_wf_empty|exact t_wf_empty|exact t_wf_empty|..];
    intros * H0; vm_compute in H0; discriminate H0.
Qed.
Lemma queued_done : createRun upload 1000 ready = Done (0%nat, queued).
Proof. vm_compute. reflexivity. Qed.
Lemma reading_done : tick str_cmp yaml env 0%nat 1001 queued = Done (tt, reading).
Proof. vm_compute. reflexivity. Qed.
Lemma queued_ok : store_ok queued.
Proof. exact (ok_createRun _ _ _ _ _ queued_done ready_ok). Qed.
Lemma reading_steps : rtc (pipeline_step str_cmp yaml env) ready reading.
Proof.
  eapply rtc_l; [exact (ps_create _ _ _ _ _ _ _ _ queued_done)|].
  eapply rtc_l; [exact (ps_tick _ _ _ _ _ _ _ _ reading_done)|]. apply rtc_refl.
Qed.
Lemma reading_ok : store_ok reading.
Proof. exact (proj1 (pipeline_steps_ok _ _ _ _ _ ready_ok reading_steps)). Qed.

(** An hour later the lease of the run has lapsed. *)
Definition lapsed : infra := at_tick 3600000 reading.
Lemma lapsed_done : tick str_cmp yaml env 0%nat 3600000 reading = Done (tt, lapsed).
Proof. vm_compute. reflexivity. Qed.
Lemma lapsed_ok : store_ok lapsed.
Proof. exact (proj1 (pipeline_step_ok _ _ _ _ _ reading_ok (ps_tick _ _ _ _ _ _ _ _ lapsed_done))). Qed.
End PipelineDemo.
Import PipelineDemo.

Lemma one_live_run_per_app_witness :
  (∃ d, rows (appDeployments reading) !! 0%nat = Some d ∧ dp_leaseEpoch d = Some 1) ∧
  ∀ j d, rows (appDeployments reading) !! j = Some d → dp_app d = "shop" → dp_leaseEpoch d = Some 1 → 0%nat = j.
Proof.
  split; [eexists; split; [vm_compute; reflexivity|reflexivity]|]. intros j d Hj Ha He.
  eapply (one_live_run_per_app str_cmp yaml env ready reading 0%nat j _ d 1 1 0%nat _ 1002).
  - exact ready_ok.
  - exact reading_steps.
  - vm_compute. reflexivity.
  - exact Hj.
  - symmetry. exact Ha.
  - reflexivity.
  - exact He.
  - vm_compute. reflexivity.
  - reflexivity.
  - reflexivity.
  - reflexivity.
Defined.


Lemma lapsed_run_only_fails_witness :
  ∃ s', tick str_cmp yaml env 0%nat 3600000 reading = Done (tt, s') ∧ apps s' = apps reading.
Proof.
  edestruct (λ d, lapsed_run_only_fails str_cmp yaml env 0%nat d 3600000 reading) as (s' & d' & H & Ha & _).
  - exact reading_ok.
  - vm_compute. reflexivity.
  - exists OpDeploy. reflexivity.
  - left.
  - intros k l e Hl _ [= <-]. destruct k as [|k]; [|apply (so_leases _ reading_ok) in Hl; vm_compute in Hl; lia].
    vm_compute in Hl. injection Hl as <-. reflexivity.
  - exists s'. split; [exact H|exact Ha].
Defined.

Lemma ended_run_is_final_witness :
  rtc (pipeline_step str_cmp yaml env) reading lapsed ∧ ∀ s', rtc (pipeline_step str_cmp yaml env) lapsed s' → rows (appDeployments s') !! 0%nat = None ∨
    ∃ d', rows (appDeployments s') !! 0%nat = Some d' ∧ dp_stage d' = StFailed.
Proof.
  split; [apply rtc_once; exact (ps_tick _ _ _ _ _ _ _ _ lapsed_done)|].
  intros s' Hs. edestruct (λ d, ended_run_is_final str_cmp yaml env lapsed s' 0%nat d lapsed_ok) as [Hn|(d' & Hd' & E)].
  - vm_compute. reflexivity.
  - reflexivity.
  - exact Hs.
  - left. exact Hn.
  - right. exists d'. split; [exact Hd'|]. exact (f_equal dp_stage E).
Defined.
