(* ===== verification/Ingress.v ===== *)
(** Public ingress at gateway Nodes (packages/backend/convex/infra/ingress.ts): the ports host
    services keep, mesh service names, and the gateway port of each route label. *)

From S2P Require Import Prelude JsLib Schema HostLabels Egress AppPolicy InfraSchema DockerArgs AppSpecs Pipeline.

Definition INGRESS_PORT_START : Z := 61100.
Definition INGRESS_PORT_END : Z := 61999.
Definition MESH_LINK_LIMIT : Z := 128.
Definition MESH_EXPOSURE_LIMIT : Z := 128.
Definition INGRESS_MAX_CONNECTIONS : Z := 1024.

(** [/^[^/:]+:(\d{1,5})(\/|$)/] of the trimmed ERAINFRA_REGISTRY. *)
Definition registry_service_port (registry : option string) : option Z :=
  match str_split ":" (or_else "" (head (str_split "/" (trim (or_else "" registry))))) with
  | [host; port] =>
      if Nat.ltb 0 (String.length host) && short_digits 5 port then Some (digits_value port) else None
  | _ => None
  end.

Definition isHostServicePort (port : Z) (registry : option string) : bool :=
  (port =? 61050) || (port =? 61080) || (port =? 61090) ||
  ((INGRESS_PORT_START <=? port) && (port <=? INGRESS_PORT_END)) ||
  match registry_service_port registry with Some p => p =? port | None => false end.

(** [new TextEncoder().encode(text)] of a Latin-1 string. *)
Definition utf8_bytes (text : string) : list Z :=
  c ← String.list_ascii_of_string text; if ch c <? 128 then [ch c] else [192 + ch c / 64; 128 + ch c mod 64].

(** FNV-1a on 32 bits: [Math.imul(hash ^ byte, 0x01000193) >>> 0]. *)
Definition fnv1a (text : string) : Z :=
  foldl (λ hash byte, (Z.lxor hash byte * 16777619) mod 2 ^ 32) 2166136261 (utf8_bytes text).

Definition SERVICE_PREFIX : string := "ingress.".

(** [n.toString(16).padStart(8, "0")] of a 32-bit number *)
Definition hex8 (n : Z) : string :=
  str_join "" ((λ i, hex_byte (Z.to_nat (Z.shiftr n (8 * i) mod 256))) <$> [3; 2; 1; 0]).

Definition ingressServiceName (label : string) : string :=
  let name := SERVICE_PREFIX +:+ label in
  if Nat.leb (String.length name) 64 then name
  else SERVICE_PREFIX +:+ slice0 46 label +:+ "." +:+ hex8 (fnv1a label).

Definition isIngressServiceName (name : string) : bool := starts_with SERVICE_PREFIX name.

(** ** Gateway ports *)

Definition INGRESS_SIZE : Z := INGRESS_PORT_END - INGRESS_PORT_START + 1.

(** [while (taken.has(slot)) slot = (slot + 1) % size]; as many turns as there are slots suffice
    while one is free. *)
Fixpoint probe (turns : nat) (taken : list Z) (slot : Z) : Z :=
  match turns with
  | O => slot
  | S turns => if bool_decide (slot ∈ taken) then probe turns taken ((slot + 1) mod INGRESS_SIZE) else slot
  end.

Fixpoint place_labels (taken : list Z) (ports : list (string * Z)) (labels : list string) : list (string * Z) :=
  match labels with
  | [] => ports
  | label :: labels =>
      if bool_decide (label ∈ ports.*1) then place_labels taken ports labels
      else if INGRESS_SIZE <=? Z.of_nat (length taken) then ports
      else
        let slot := probe (Z.to_nat INGRESS_SIZE) taken (fnv1a label mod INGRESS_SIZE) in
        place_labels (taken ++ [slot]) (ports ++ [(label, INGRESS_PORT_START + slot)]) labels
  end.

(** Oldest first, then by name. *)
Definition creation_order (localeCompare : string → string → Z) (a b : string * Z) : Z :=
  if a.2 =? b.2 then localeCompare a.1 b.1 else a.2 - b.2.

Definition ingressPorts (localeCompare : string → string → Z) (routes : list (string * Z)) : list (string * Z) :=
  place_labels [] [] (to_sorted (creation_order localeCompare) routes).*1.

Example fnv1a_vectors : fnv1a "" = 2166136261 ∧ fnv1a "a" = 3826002220 ∧ fnv1a "foobar" = 3214735720.
Proof. vm_compute. done. Qed.

(** ** The ports are a partial injection *)

Section probing.
Implicit Types (taken : list Z) (slot : Z).

Definition in_range slot : Prop := 0 ≤ slot < INGRESS_SIZE.

Lemma probe_range n taken slot : in_range slot → in_range (probe n taken slot).
Proof.
  revert slot. induction n as [|n IH]; intros slot Hs; simpl; [done|]. destruct (bool_decide _); [|done].
  apply IH. unfold in_range, INGRESS_SIZE, INGRESS_PORT_END, INGRESS_PORT_START in *. apply Z.mod_pos_bound. lia.
Qed.

(** What a failed search has seen: the next [n] slots, going round, are all taken. *)
Lemma probe_taken n taken slot :
  in_range slot → probe n taken slot ∈ taken →
  ∀ i, (i < Z.of_nat n) → 0 ≤ i → (slot + i) mod INGRESS_SIZE ∈ taken.
Proof.
  revert slot. induction n as [|n IH]; intros slot Hs Hp i Hi Hi0; [lia|]. simpl in Hp.
  destruct (bool_decide_reflect (slot ∈ taken)) as [Hin|]; [|done].
  destruct (decide (i = 0)) as [->|Hne].
  - rewrite Z.add_0_r, Z.mod_small by (unfold in_range in Hs; lia). done.
  - assert (0 < INGRESS_SIZE) by (unfold in_range in Hs; lia).
    replace ((slot + i) mod INGRESS_SIZE) with (((slot + 1) mod INGRESS_SIZE + (i - 1)) mod INGRESS_SIZE)
      by (rewrite Z.add_mod_idemp_l by lia; f_equal; lia).
    apply IH; [by apply Z.mod_pos_bound|done|lia|lia].
Qed.

Lemma all_slots_length taken : (∀ x, in_range x → x ∈ taken) → INGRESS_SIZE ≤ Z.of_nat (length taken).
Proof.
  intros H. assert (seqZ 0 INGRESS_SIZE ⊆+ taken) as Hsub.
  { apply NoDup_submseteq; [apply NoDup_seqZ|]. intros x Hx%elem_of_seqZ. apply H. unfold in_range. lia. }
  apply submseteq_length in Hsub. rewrite length_seqZ in Hsub. lia.
Qed.

(** The loop ends at a free slot while one is left. *)
Lemma probe_free taken slot :
  in_range slot → Z.of_nat (length taken) < INGRESS_SIZE → probe (Z.to_nat INGRESS_SIZE) taken slot ∉ taken.
Proof.
  intros Hs Hlen Hin. pose proof (probe_taken _ _ _ Hs Hin) as Hall.
  enough (INGRESS_SIZE ≤ Z.of_nat (length taken)) by lia. apply all_slots_length. intros x Hx.
  unfold in_range in *. assert (0 < INGRESS_SIZE) by lia.
  specialize (Hall ((x - slot) mod INGRESS_SIZE)). rewrite Z.add_mod_idemp_r in Hall by lia.
  replace (slot + (x - slot)) with x in Hall by lia. rewrite (Z.mod_small x) in Hall by lia.
  pose proof (Z.mod_pos_bound (x - slot) INGRESS_SIZE ltac:(lia)). apply Hall; lia.
Qed.
End probing.

(** The state of the loop: the ports handed out are those of the taken slots, each once. *)
Record placed (taken : list Z) (ports : list (string * Z)) : Prop := {
  pd_ports : ports.*2 = (λ slot, INGRESS_PORT_START + slot) <$> taken;
  pd_nodup : NoDup taken;
  pd_range : Forall in_range taken;
  pd_labels : NoDup ports.*1;
}.

Lemma placed_step taken ports label :
  placed taken ports → label ∉ ports.*1 → Z.of_nat (length taken) < INGRESS_SIZE →
  let slot := probe (Z.to_nat INGRESS_SIZE) taken (fnv1a label mod INGRESS_SIZE) in
  placed (taken ++ [slot]) (ports ++ [(label, INGRESS_PORT_START + slot)]).
Proof.
  intros [Hp Hnd Hr Hl] Hnew Hlen slot.
  assert (in_range (fnv1a label mod INGRESS_SIZE)) as Hs by (apply Z.mod_pos_bound; done).
  split.
  - by rewrite !fmap_app, Hp.
  - apply NoDup_app. split; [done|]. split; [|apply NoDup_singleton].
    intros x Hx ->%list_elem_of_singleton. by apply (probe_free taken) in Hx.
  - apply Forall_app. split; [done|]. apply Forall_singleton. by apply probe_range.
  - rewrite fmap_app. apply NoDup_app. split; [done|]. split; [|apply NoDup_singleton].
    intros x Hx ->%list_elem_of_singleton. done.
Qed.

Lemma place_labels_prefix taken ports labels : ports `prefix_of` place_labels taken ports labels.
Proof.
  revert taken ports. induction labels as [|label labels IH]; intros taken ports; cbn [place_labels]; [done|].
  destruct (bool_decide _); [apply IH|]. destruct (_ <=? _); [done|]. etrans; [|apply IH]. by eexists.
Qed.

(** The result, given the state at the start. *)
Lemma place_labels_spec taken ports labels :
  placed taken ports →
  let out := place_labels taken ports labels in
  (∃ taken', placed taken' out) ∧
  ((∀ label, label ∈ labels → label ∈ out.*1) ∨ INGRESS_SIZE ≤ Z.of_nat (length out)).
Proof.
  revert taken ports. induction labels as [|label labels IH]; intros taken ports Hp; cbn [place_labels].
  { split; [by exists taken|]. left. by intros ? ?%elem_of_nil. }
  destruct (bool_decide_reflect (label ∈ ports.*1)) as [Hin|Hnew].
  - destruct (IH taken ports Hp) as [Hout [Hall|]]; [|by auto]. split; [done|]. left.
    intros l [->|Hl]%elem_of_cons; [|by apply Hall].
    destruct (place_labels_prefix taken ports labels) as [k ->]. rewrite fmap_app. apply elem_of_app. by left.
  - destruct (Z.leb_spec INGRESS_SIZE (Z.of_nat (length taken))) as [Hfull|Hroom].
    + split; [by exists taken|]. right. pose proof (pd_ports _ _ Hp) as E. apply (f_equal length) in E.
      rewrite !length_fmap in E. lia.
    + pose proof (placed_step _ _ _ Hp Hnew Hroom) as Hp'. cbv zeta in Hp'.
      destruct (IH _ _ Hp') as [Hout [Hall|]]; [|by auto]. split; [done|]. left.
      intros l [->|Hl]%elem_of_cons; [|by apply Hall].
      match goal with |- _ ∈ (place_labels ?t ?p ?ls).*1 => destruct (place_labels_prefix t p ls) as [k ->] end.
      rewrite !fmap_app. apply elem_of_app. left. apply elem_of_app. right. left.
Qed.

(** A label that comes after the others moves none of them. *)
Lemma place_labels_app taken ports labels more :
  place_labels taken ports labels `prefix_of` place_labels taken ports (labels ++ more).
Proof.
  revert taken ports. induction labels as [|label labels IH]; intros taken ports; cbn [place_labels app]; [apply place_labels_prefix|].
  destruct (bool_decide _); [apply IH|]. destruct (_ <=? _); [done|]. apply IH.
Qed.

Lemma sort_insert_last {A} (cmp : A → A → Z) x l r :
  cmp x r ≤ 0 → sort_insert cmp x (l ++ [r]) = sort_insert cmp x l ++ [r].
Proof.
  intros Hx. induction l as [|y l IH]; simpl; [by destruct (Z.leb_spec (cmp x r) 0); [|lia]|].
  destruct (cmp x y <=? 0); [done|]. by rewrite IH.
Qed.

Lemma to_sorted_last {A} (cmp : A → A → Z) l r : Forall (λ x, cmp x r ≤ 0) l → to_sorted cmp (l ++ [r]) = to_sorted cmp l ++ [r].
Proof.
  induction 1 as [|x l Hx _ IH]; [done|]. simpl. change (foldr (sort_insert cmp) [] (l ++ [r])) with (to_sorted cmp (l ++ [r])).
  rewrite IH. by apply sort_insert_last.
Qed.

Lemma ingressPorts_placed localeCompare routes : ∃ taken, placed taken (ingressPorts localeCompare routes).
Proof. apply place_labels_spec. split; simpl; constructor. Qed.

Lemma placed_port_range taken ports label port :
  placed taken ports → (label, port) ∈ ports → INGRESS_PORT_START ≤ port ≤ INGRESS_PORT_END.
Proof.
  intros [Hp _ Hr _] Hin. assert (port ∈ ports.*2) as Hport by (apply list_elem_of_fmap; by exists (label, port)).
  rewrite Hp in Hport. apply list_elem_of_fmap in Hport as (slot & -> & Hslot). rewrite Forall_forall in Hr.
  apply Hr in Hslot. unfold in_range, INGRESS_SIZE in Hslot. lia.
Qed.

(** C17: gateway ports.  No two route labels get the same port, no label gets two, every port is in
    the range kept for ingress, every label gets one unless all nine hundred are handed out, and a
    route created after the others moves none of their ports. *)
Theorem ingressPorts_stable localeCompare routes :
  let ports := ingressPorts localeCompare routes in
  NoDup ports.*1 ∧ NoDup ports.*2 ∧
  (∀ label port, (label, port) ∈ ports → INGRESS_PORT_START ≤ port ≤ INGRESS_PORT_END) ∧
  ((∀ label at_, (label, at_) ∈ routes → label ∈ ports.*1) ∨ length ports = 900%nat) ∧
  ∀ route, Forall (λ r : string * Z, r.2 < route.2) routes → ports `prefix_of` ingressPorts localeCompare (routes ++ [route]).
Proof.
  intros ports.
  assert (placed [] []) as H0 by (split; simpl; constructor).
  destruct (place_labels_spec [] [] (to_sorted (creation_order localeCompare) routes).*1 H0) as [[taken [Hp Hnd Hr Hl]] Hall].
  change (place_labels [] [] _) with ports in Hp, Hl, Hall. split; [done|]. split; [|split; [|split]].
  - rewrite Hp. apply NoDup_fmap_2; [|done]. intros x y ?. lia.
  - intros label port. by eapply placed_port_range.
  - destruct Hall as [Hall|Hfull]; [left|right].
    + intros label at_ Hin. apply Hall, list_elem_of_fmap. exists (label, at_). split; [done|]. by apply elem_of_to_sorted.
    + assert (length ports = length taken) as E by (apply (f_equal length) in Hp; by rewrite !length_fmap in Hp).
      assert (length taken ≤ Z.to_nat INGRESS_SIZE)%nat as Hle.
      { rewrite <- (length_seqZ 0 INGRESS_SIZE). apply submseteq_length, NoDup_submseteq; [done|].
        intros x Hx. rewrite Forall_forall in Hr. apply elem_of_seqZ. apply Hr in Hx. unfold in_range in Hx. lia. }
      unfold INGRESS_SIZE, INGRESS_PORT_END, INGRESS_PORT_START in *. lia.
  - intros route Hlast. unfold ports, ingressPorts. rewrite to_sorted_last.
    + rewrite fmap_app. apply place_labels_app.
    + eapply Forall_impl; [done|]. intros r Hlt. unfold creation_order. simpl in Hlt.
      destruct (Z.eqb_spec r.2 route.2); lia.
Qed.
