(* ===== verification/NodeState.v ===== *)
(** What a Node reports and what it is told (packages/backend/convex/infra/nodeState.ts): heartbeats,
    the proof of an endpoint key, and the snapshot of links, exposures and routes a Node applies.
    The signature check, [atob] and the URL parser are the runtime's and libraries', and parameters. *)

From S2P Require Import Prelude JsLib Schema HostLabels Egress AppPolicy InfraSchema InfraStore.
From S2P Require Import AppPlan Nodes DockerArgs AppSpecs NodeCommands Apps Pipeline Ingress JsText.

Section node_state.
Context (hashApiToken : string → string).

(** ** Heartbeat *)

(** [/^[a-z_]{1,40}$/] *)
Definition blocked_reason_ok (s : string) : bool :=
  str_all (λ c, is_lower_alpha c || Ascii.eqb c "_") s && Nat.leb 1 (String.length s) && Nat.leb (String.length s) 40.

Definition journal_count_ok (count : option num) : bool :=
  match count with
  | None => true
  | Some n => match num_integer n with Some z => (0 <=? z) && (z <=? 1000000) | None => false end
  end.

(** The Node and its registered key. *)
Definition nodeHeartbeat (credential version : string) (commandsBlocked : option string)
    (journalKeys journalKeyLimit : option num) (now : Z) : tx infra (Id * option string) :=
  who ← requireNode hashApiToken credential;
  if Nat.ltb 100 (String.length version) then throw "Version too long"
  else if match commandsBlocked with Some r => negb (blocked_reason_ok r) | None => false end
  then throw "Invalid commandsBlocked reason"
  else if negb (journal_count_ok journalKeys) || negb (journal_count_ok journalKeyLimit)
  then throw "Invalid journal count"
  else
    db_patch nodes who.1 (λ n, n <| nd_lastSeenAt := Some now |> <| nd_infraAgentVersion := Some version |>
      <| nd_commandsBlocked := commandsBlocked |>
      <| nd_commandsBlockedSince := match commandsBlocked with
                                    | None => None
                                    | Some _ => Some (or_else now (nd_commandsBlockedSince n))
                                    end |>
      <| nd_journalKeys := journalKeys ≫= num_integer |>
      <| nd_journalKeyLimit := journalKeyLimit ≫= num_integer |>) ≫= λ _,
    node ← db_get nodes who.1;
    mret (who.1, node ≫= nd_endpointId).

(** ** Proof of an endpoint key *)

Definition assertEndpointAvailable (nodeId : Id) (endpointId : string) : tx infra unit :=
  node ← db_get nodes nodeId;
  match node with
  | None => throw "No such Node"
  | Some n =>
      if is_some (nd_endpointId n) && (nd_endpointId n !== Some endpointId) then
        refuse "endpoint_key_changed" "Operator must reset the endpoint before changing its key"
      else
        other ← db_first nodes (λ d, nd_endpointId d === Some endpointId);
        match other with
        | Some (otherId, _) =>
            if otherId === nodeId then mret tt
            else refuse "endpoint_in_use" "Endpoint already registered to another Node"
        | None => mret tt
        end
  end.

(** [new URL(relay)]: the parts that are checked, or a throw. *)
Record url_parts := UrlParts {
  url_protocol : string; url_username : string; url_password : string; url_search : string; url_hash : string }.
Context (parseUrl : string → option url_parts).

Definition relay_error (relay : string) : option string :=
  if Nat.ltb 512 (String.length relay) then Some "Invalid relay URL"
  else match parseUrl relay with
  | None => Some "Invalid URL"
  | Some u =>
      if (url_protocol u !== "https:") || negb (Nat.eqb (String.length (url_username u)) 0) ||
         negb (Nat.eqb (String.length (url_password u)) 0) || negb (Nat.eqb (String.length (url_search u)) 0) ||
         negb (Nat.eqb (String.length (url_hash u)) 0)
      then Some "Invalid relay URL" else None
  end.

Definition address_ok (a : mesh_address) : bool :=
  str_all is_hex (ma_id a) && Nat.eqb (String.length (ma_id a)) 64 && Nat.leb (length (ma_relay_urls a)) 8 &&
  Nat.leb (length (ma_direct_addrs a)) 16 && forallb (λ x, Nat.leb (String.length x) 128) (ma_direct_addrs a).

Definition address_json (a : mesh_address) : string :=
  json_object [("id", json_string (ma_id a)); ("relay_urls", json_array (json_string <$> ma_relay_urls a));
    ("direct_addrs", json_array (json_string <$> ma_direct_addrs a))].

Definition newline : string := String (ascii_of_nat 10) "".

Definition challenge_message (nodeId credentialId : Id) (nonce : list nat) (a : mesh_address) : string :=
  "erainfra/node-endpoint/v1" +:+ newline +:+
  json_object [("nodeId", json_string (id_text nodeId)); ("credentialId", json_string (id_text credentialId));
    ("nonce", json_string (str_join "" (hex_byte <$> nonce))); ("address", address_json a)].

(** [nonce] is the 32 random bytes. *)
Definition challenge (credential : string) (a : mesh_address) (nonce : list nat) (now : Z) : tx infra (Id * string * Z) :=
  who ← requireNode hashApiToken credential;
  if negb (address_ok a) then throw "Invalid endpoint address"
  else match head (omap relay_error (ma_relay_urls a)) with
  | Some e => throw e
  | None =>
      assertEndpointAvailable who.1 (ma_id a) ≫= λ _,
      old ← read (λ s, take 2 (t_where (λ c, ec_nodeId c === who.1) (nodeEndpointChallenges s)));
      for_each old (λ r : Id * endpoint_challenge, db_delete nodeEndpointChallenges r.1) ≫= λ _,
      let message := challenge_message who.1 who.2 nonce a in
      if 4096 <? byte_length message then throw "Endpoint challenge exceeds sidecar limit"
      else
        let expiresAt := now + 60000 in
        id ← db_insert nodeEndpointChallenges (EndpointChallenge who.1 who.2 a message expiresAt);
        mret (id, message, expiresAt)
  end.

(** [atob], and the verifier of [@noble/curves]. *)
Context (atob : string → option (list Z)) (ed25519_verify : list Z → list Z → list Z → bool).

Definition hex_value (c : ascii) : Z := if is_digit c then ch c - 48 else ch c - 87.
Fixpoint hex_bytes (l : list ascii) : list Z :=
  match l with
  | a :: b :: l => (16 * hex_value a + hex_value b) :: hex_bytes l
  | _ => []
  end.

Definition signature_valid (proof : endpoint_challenge) (signature : string) : bool :=
  match atob signature with
  | Some bytes =>
      Nat.eqb (length bytes) 64 &&
      ed25519_verify bytes (utf8_bytes (ec_message proof))
        (hex_bytes (String.list_ascii_of_string (ma_id (ec_address proof))))
  | None => false
  end.

Definition publish (credential : string) (challengeId : Id) (signature : string) (now : Z) : tx infra unit :=
  who ← requireNode hashApiToken credential;
  found ← db_get nodeEndpointChallenges challengeId;
  match found with
  | None => throw "Invalid endpoint challenge"
  | Some proof =>
      if (ec_nodeId proof !== who.1) || (ec_credentialId proof !== who.2) || (ec_expiresAt proof <=? now)
      then throw "Invalid endpoint challenge"
      else if negb (signature_valid proof signature) then throw "Invalid endpoint signature"
      else
        let a := ec_address proof in
        assertEndpointAvailable who.1 (ma_id a) ≫= λ _,
        db_patch nodes who.1 (λ n, n <| nd_endpointId := Some (ma_id a) |> <| nd_meshAddress := Some a |>
          <| nd_endpointProvenAt := Some now |> <| nd_endpointUpdatedAt := Some now |>
          <| nd_endpointAddr := Some (EndpointAddr (head (ma_relay_urls a)) (ma_direct_addrs a)) |>) ≫= λ _,
        db_delete nodeEndpointChallenges challengeId
  end.
End node_state.

Definition legacyEndpointAddress (n : node_doc) : option mesh_address :=
  (λ id, MeshAddress id (option_list (nd_endpointAddr n ≫= ea_relayUrl))
           (or_else [] (ea_directAddresses <$> nd_endpointAddr n))) <$> nd_endpointId n.

(** The mesh address of a Node that may be granted anything. *)
Definition grantable (nodeId : Id) (n : option node_doc) : tx infra (option mesh_address) :=
  match n with
  | Some n =>
      match nd_meshAddress n with
      | Some a =>
          if is_none (nd_endpointProvenAt n) || (nd_endpointId n !== Some (ma_id a)) then mret None
          else live ← hasLiveCredential nodeId; mret (if live : bool then Some a else None)
      | None => mret None
      end
  | None => mret None
  end.

(** ** Which route rows are served *)

(** Where the App row places the service a label belongs to; [None] is a conflict. *)
Record route_place := RoutePlace { rp_app : string; rp_service : string; rp_nodeId : Id; rp_port : option Z }.

Definition own_route (a : app_row) (owners : gmap string (option route_place)) (s : app_service)
    : gmap string (option route_place) :=
  match sv_route s with
  | None => owners
  | Some label =>
      let mine := RoutePlace (ap_name a) (sv_name s) (or_else (ap_nodeId a) (sv_nodeId s)) (sv_port s) in
      match owners !! label with
      | Some None => <[label := None]> owners
      | Some (Some p) => if rp_app p === ap_name a then <[label := Some mine]> owners else <[label := None]> owners
      | None => <[label := Some mine]> owners
      end
  end.

Definition routeOwners (rows : list app_row) : gmap string (option route_place) :=
  foldl (λ owners a, foldl (own_route a) owners (ap_services a)) ∅ rows.

Definition listenerKey (nodeId : Id) (port : Z) : string := id_text nodeId +:+ ":" +:+ json_Z port.

Definition port_holder (nodeId : Id) (port : Z) : tx infra (option (Id * port_allocation)) :=
  db_first portAllocations (λ r, (pa_nodeId r === nodeId) && (pa_port r =? port)).

Section snapshot.
Context (localeCompare : string → string → Z) (env : pipeline_env).

Definition servesSingleContainer (r : app_route) (appNames : list string) (listeners : list string) : tx infra bool :=
  if is_some (rt_service r) || (is_some (rt_app r) && (rt_app r !== Some (rt_name r))) then mret false
  else if bool_decide (rt_name r ∈ appNames) then mret false
  else if isHostServicePort (rt_port r) (pe_registry env) ||
          bool_decide (listenerKey (rt_nodeId r) (rt_port r) ∈ listeners) then mret false
  else holder ← port_holder (rt_nodeId r) (rt_port r); mret (is_none holder).

Definition servesPlacement (r : app_route) (owners : gmap string (option route_place)) (appNames listeners : list string)
    : tx infra bool :=
  if (rt_port r <? 1) || (65535 <? rt_port r) then mret false
  else match owners !! rt_name r with
  | Some None => mret false
  | None => servesSingleContainer r appNames listeners
  | Some (Some p) =>
      if (rp_nodeId p !== rt_nodeId r) || (rp_port p !== Some (rt_port r)) then mret false
      else if is_some (rt_app r) && ((rt_app r !== Some (rp_app p)) ||
                (is_some (rt_service r) && (rt_service r !== Some (rp_service p)))) then mret false
      else
        holder ← port_holder (rt_nodeId r) (rt_port r);
        mret (match holder with Some (_, a) => pa_key a === port_key (rp_app p) (rp_service p) | None => false end)
  end.

(** ** The ingress part of a snapshot *)

Record exposure := Exposure {
  ex_name : string; ex_target : string; ex_allowed_peers : list string; ex_max_connections : option Z }.
Record mesh_listener := MeshListener {
  li_name : string; li_peer : string; li_service : string; li_listen : string; li_max_connections : option Z }.
Record ingress_result := IngressResult {
  ig_peers : list mesh_address;
  ig_exposures : list exposure;
  ig_links : list mesh_listener;
  ig_routes : option (list (string * option string));
  ig_overflow : Z;
}.

Definition is_gateway (n : node_doc) : bool := bool_decide (RoleGateway ∈ or_else [] (nd_placementRoles n)).

Definition add_peer (peers : list (string * mesh_address)) (a : mesh_address) : list (string * mesh_address) :=
  map_set (ma_id a) a peers.

Definition loopback (port : Z) : string := "127.0.0.1:" +:+ json_Z port.

(** The exposures of the routes a Node hosts, until its budget is spent. *)
Definition expose_route (accepted : app_route → tx infra bool) (budget : Z) (ids : list string)
    (exposures : list exposure) (r : app_route) : tx infra (list exposure) :=
  if (budget <=? Z.of_nat (length exposures)) || negb (isRouteLabel (rt_name r)) then mret exposures
  else
    ok ← accepted r;
    mret (if ok : bool then exposures ++ [Exposure (ingressServiceName (rt_name r)) (loopback (rt_port r)) ids
                                     (Some INGRESS_MAX_CONNECTIONS)] else exposures).

Record gateway_table := GatewayTable {
  gt_peers : list (string * mesh_address);
  gt_links : list mesh_listener;
  gt_routes : list (string * option string);
  gt_overflow : Z;
}.

(** One route at a gateway: its upstream, its link if the route runs elsewhere, or 503. *)
Definition gateway_route (accepted : app_route → tx infra bool) (nodeId : Id) (ports : list (string * Z)) (budget : Z)
    (t : gateway_table) (r : app_route) : tx infra gateway_table :=
  let refused := GatewayTable (gt_peers t) (gt_links t) (gt_routes t ++ [(rt_name r, None)]) (gt_overflow t) in
  ok ← accepted r;
  if negb ok then mret refused
  else if rt_nodeId r === nodeId then
    mret (GatewayTable (gt_peers t) (gt_links t) (gt_routes t ++ [(rt_name r, Some (loopback (rt_port r)))]) (gt_overflow t))
  else
    node ← db_get nodes (rt_nodeId r);
    target ← grantable (rt_nodeId r) node;
    mret (match target with
          | None => refused
          | Some a =>
              match map_get (rt_name r) ports with
              | Some port =>
                  if budget <=? Z.of_nat (length (gt_links t)) then
                    GatewayTable (gt_peers t) (gt_links t) (gt_routes t ++ [(rt_name r, None)]) (gt_overflow t + 1)
                  else
                    let name := ingressServiceName (rt_name r) in
                    GatewayTable (add_peer (gt_peers t) a)
                      (gt_links t ++ [MeshListener name (ma_id a) name (loopback port) (Some INGRESS_MAX_CONNECTIONS)])
                      (gt_routes t ++ [(rt_name r, Some (loopback port))]) (gt_overflow t)
              | None => GatewayTable (gt_peers t) (gt_links t) (gt_routes t ++ [(rt_name r, None)]) (gt_overflow t + 1)
              end
          end).

(** The addresses of the other gateways that may be granted something. *)
Definition gateway_peers (nodeId : Id) (gateways : list (Id * node_doc)) : tx infra (list mesh_address) :=
  found ← map_tx (λ g : Id * node_doc, if g.1 === nodeId then mret None else grantable g.1 (Some g.2)) gateways;
  mret (omap (λ o, o) found).

(** Ids are handed out in creation order, so they stand for [_creationTime]. *)
Definition ingressFor (nodeId : Id) (isGateway : bool) (rows : list app_row) (listeners : list string)
    (exposureBudget linkBudget : Z) : tx infra ingress_result :=
  found ← take_rows nodes 1001;
  if Nat.ltb 1000 (length found) then throw "Ingress exceeds the 1000-Node snapshot limit"
  else
    let gatewayNodes := filter (λ n : Id * node_doc, is_gateway n.2 = true) found in
    if Nat.eqb (length gatewayNodes) 0 then
      mret (IngressResult [] [] [] (if isGateway then Some [] else None) 0)
    else
      let owners := routeOwners rows in
      let accepted r := servesPlacement r owners (ap_name <$> rows) listeners in
      hosted ← read (λ s, take INGRESS_ROUTE_READ_LIMIT (t_where (λ r, rt_nodeId r === nodeId) (appRoutes s)));
      allowed ← (if Nat.eqb (length hosted) 0 then mret [] else gateway_peers nodeId gatewayNodes);
      let ids := to_sorted str_cmp (ma_id <$> allowed) in
      exposures ← (if Nat.eqb (length allowed) 0 then mret []
                   else fold_tx (expose_route accepted exposureBudget ids) [] (hosted : list (Id * app_route)).*2);
      let peers := if Nat.eqb (length exposures) 0 then [] else foldl add_peer [] allowed in
      if negb isGateway then mret (IngressResult peers.*2 exposures [] None 0)
      else
        all ← take_rows appRoutes (S INGRESS_ROUTE_READ_LIMIT);
        let overflow := Z.of_nat (length all - INGRESS_ROUTE_READ_LIMIT) in
        let routes := to_sorted (λ a b : Id * app_route, if a.1 === b.1 then localeCompare (rt_name a.2) (rt_name b.2)
                                                         else Z.of_nat a.1 - Z.of_nat b.1)
          (filter (λ r : Id * app_route, isRouteLabel (rt_name r.2) = true) (take INGRESS_ROUTE_READ_LIMIT all)) in
        let ports := ingressPorts localeCompare ((λ r : Id * app_route, (rt_name r.2, Z.of_nat r.1)) <$> routes) in
        table ← fold_tx (gateway_route accepted nodeId ports linkBudget) (GatewayTable peers [] [] overflow) routes.*2;
        mret (IngressResult (gt_peers table).*2 exposures (gt_links table)
          (Some (to_sorted (λ a b : string * option string, localeCompare a.1 b.1) (gt_routes table))) (gt_overflow table)).

(** ** The snapshot *)

Record any_link := AnyLink {
  nl_name : string; nl_providerNodeId : Id; nl_providerPort : Z; nl_consumerNodeId : Id; nl_localPort : Z;
  nl_forApp : bool }.

Definition of_mesh_link (l : mesh_link) : any_link :=
  AnyLink (ml_name l) (ml_providerNodeId l) (ml_providerPort l) (ml_consumerNodeId l) (ml_localPort l) false.
Definition of_app_link (l : app_link) : any_link :=
  AnyLink (lk_name l) (lk_providerNodeId l) (lk_providerPort l) (lk_consumerNodeId l) (lk_localPort l) true.

(** [/^[A-Za-z0-9._-]{1,64}$/] *)
Definition mesh_name (s : string) : bool :=
  str_all (λ c, is_alpha c || is_digit c || Ascii.eqb c "." || Ascii.eqb c "_" || Ascii.eqb c "-") s &&
  Nat.leb 1 (String.length s) && Nat.leb (String.length s) 64.
Definition port_ok (p : Z) : bool := (0 <? p) && (p <=? 65535).

Record mesh_acc := MeshAcc {
  mc_peers : list (string * mesh_address);
  mc_expose : list (string * exposure);
  mc_outgoing : list (string * mesh_listener);
}.

#[export] Instance mesh_listener_eq_dec : EqDecision mesh_listener.
Proof. solve_decision. Defined.

Definition add_link (nodeId : Id) (acc : mesh_acc) (l : any_link) : tx infra mesh_acc :=
  if negb (mesh_name (nl_name l)) || negb (port_ok (nl_providerPort l)) || negb (port_ok (nl_localPort l))
  then throw "Invalid stored mesh link"
  else
    let peerId := if nl_providerNodeId l === nodeId then nl_consumerNodeId l else nl_providerNodeId l in
    node ← db_get nodes peerId;
    granted ← grantable peerId node;
    match granted with
    | None => mret acc
    | Some peer =>
        let peers := add_peer (mc_peers acc) peer in
        if nl_providerNodeId l === nodeId then
          let target := loopback (nl_providerPort l) in
          match map_get (nl_name l) (mc_expose acc) with
          | Some previous =>
              if ex_target previous !== target then throw "Conflicting mesh exposure name"
              else
                let allowed := if bool_decide (ma_id peer ∈ ex_allowed_peers previous) then ex_allowed_peers previous
                               else ex_allowed_peers previous ++ [ma_id peer] in
                mret (MeshAcc peers (map_set (nl_name l) (Exposure (nl_name l) target allowed None) (mc_expose acc)) (mc_outgoing acc))
          | None =>
              mret (MeshAcc peers (map_set (nl_name l) (Exposure (nl_name l) target [ma_id peer] None) (mc_expose acc)) (mc_outgoing acc))
          end
        else
          let next := MeshListener (nl_name l) (ma_id peer) (nl_name l)
            (if nl_forApp l then "bridge:" +:+ json_Z (nl_localPort l) else loopback (nl_localPort l)) None in
          match map_get (nl_name l) (mc_outgoing acc) with
          | Some previous =>
              if previous === next then mret (MeshAcc peers (mc_expose acc) (map_set (nl_name l) next (mc_outgoing acc)))
              else throw "Conflicting mesh link name"
          | None => mret (MeshAcc peers (mc_expose acc) (map_set (nl_name l) next (mc_outgoing acc)))
          end
    end.

Record mesh_snapshot := Snapshot {
  sn_v : Z;
  sn_fleet : list mesh_address;
  sn_relays : list string;
  sn_exposures : list exposure;
  sn_links : list mesh_listener;
  sn_ingress : option (list (string * option string) * Z);
}.

Definition desired (nodeId : Id) : tx infra mesh_snapshot :=
  standalone ← take_rows meshLinks 501;
  rows ← take_rows apps 501;
  if Nat.ltb 500 (length standalone) || Nat.ltb 500 (length rows)
  then throw "Mesh configuration exceeds the 500-App/link snapshot limit"
  else
    let links := (of_mesh_link <$> (standalone : list (Id * mesh_link)).*2) ++
                 (a ← (rows : list (Id * app_row)).*2; of_app_link <$> ap_links a) in
    if Nat.ltb 2000 (length links) then throw "Mesh link limit exceeded"
    else
      let relevant := filter (λ l, (nl_providerNodeId l = nodeId ∨ nl_consumerNodeId l = nodeId) ∧
                                    nl_providerNodeId l ≠ nl_consumerNodeId l) links in
      acc ← fold_tx (add_link nodeId) (MeshAcc [] [] []) relevant;
      self ← db_get nodes nodeId;
      ingress ← ingressFor nodeId (match self with Some n => is_gateway n | None => false end)
        (rows : list (Id * app_row)).*2 ((λ l, listenerKey (nl_consumerNodeId l) (nl_localPort l)) <$> links)
        (MESH_EXPOSURE_LIMIT - Z.of_nat (length (mc_expose acc))) (MESH_LINK_LIMIT - Z.of_nat (length (mc_outgoing acc)));
      let names := (ex_name <$> ig_exposures ingress) ++ (li_name <$> ig_links ingress) in
      if existsb (λ n, bool_decide (n ∈ (mc_expose acc).*1) || bool_decide (n ∈ (mc_outgoing acc).*1)) names
      then throw "Mesh link name collides with an ingress name"
      else
        let listeners := to_sorted (λ a b, localeCompare (li_name a) (li_name b)) ((mc_outgoing acc).*2 ++ ig_links ingress) in
        let declared := (λ e, Exposure (ex_name e) (ex_target e) (to_sorted str_cmp (ex_allowed_peers e)) (ex_max_connections e))
                          <$> (mc_expose acc).*2 in
        mret (Snapshot (if existsb (λ l, starts_with "bridge:" (li_listen l)) listeners then 2 else 1)
          (to_sorted (λ a b, localeCompare (ma_id a) (ma_id b)) (foldl add_peer (mc_peers acc) (ig_peers ingress)).*2)
          (or_else [] (ma_relay_urls <$> (self ≫= nd_meshAddress)))
          (to_sorted (λ a b, localeCompare (ex_name a) (ex_name b)) (declared ++ ig_exposures ingress))
          listeners
          ((λ routes, (routes, ig_overflow ingress)) <$> ig_routes ingress)).

(** [JSON.stringify(snapshot)] *)
Definition exposure_json (e : exposure) : string :=
  json_object ([("name", json_string (ex_name e)); ("target", json_string (ex_target e));
    ("allowed_peers", json_array (json_string <$> ex_allowed_peers e))] ++
    option_list ((λ m, ("max_connections", json_Z m)) <$> ex_max_connections e)).
Definition listener_json (l : mesh_listener) : string :=
  json_object ([("name", json_string (li_name l)); ("peer", json_string (li_peer l));
    ("service", json_string (li_service l)); ("listen", json_string (li_listen l))] ++
    option_list ((λ m, ("max_connections", json_Z m)) <$> li_max_connections l)).
Definition route_json (r : string * option string) : string :=
  json_object [("host", json_string r.1); ("upstream", match r.2 with Some u => json_string u | None => "null" end)].

Definition snapshot_json (s : mesh_snapshot) : string :=
  json_object ([("v", json_Z (sn_v s)); ("fleet", json_array (address_json <$> sn_fleet s));
    ("relays", json_object [("relays", json_array (json_string <$> sn_relays s)); ("n0_fallback", "false")]);
    ("exposures", json_array (exposure_json <$> sn_exposures s)); ("links", json_array (listener_json <$> sn_links s))] ++
    match sn_ingress s with
    | Some (routes, overflow) =>
        [("ingress", json_object ([("routes", json_array (route_json <$> routes))] ++
           if 0 <? overflow then [("overflow", json_Z overflow)] else []))]
    | None => []
    end).

(** The revision, and the snapshot when the Node has another one. *)
Definition state (hashApiToken : string → string) (credential : string) (revision : option string)
    : tx infra (string * option mesh_snapshot) :=
  who ← requireNode hashApiToken credential;
  snap ← desired who.1;
  let text := snapshot_json snap in
  if 200 * 1024 <? byte_length text then throw "Mesh snapshot too large"
  else
    let current := hashApiToken text in
    mret (current, if revision === Some current then None else Some snap).
End snapshot.
