(* ===== verification/MeshProperties.v ===== *)
(** What a Node is told to let in (packages/backend/convex/infra/nodeState.ts): every exposure of a
    snapshot is either a declared mesh link, open to proven consumers of it only, or a route the
    Node hosts, open to proven gateways only and backed by the port's own holder. *)

From S2P Require Import Prelude JsLib Schema HostLabels Egress AppPolicy InfraSchema InfraStore.
From S2P Require Import AppPlan Nodes DockerArgs AppSpecs NodeCommands Frames CommandProperties.
From S2P Require Import Apps Deployments Pipeline PipelineFrames PipelineProperties Ingress JsText NodeState.

(** ** What may be granted *)

(** A Node whose endpoint key is proven and that holds a live credential. *)
Definition proven_peer (s : infra) (nodeId : Id) (a : mesh_address) : Prop :=
  ∃ n, rows (nodes s) !! nodeId = Some n ∧ nd_meshAddress n = Some a ∧ nd_endpointProvenAt n ≠ None ∧
    nd_endpointId n = Some (ma_id a) ∧
    ∃ i c, rows (nodeCredentials s) !! i = Some c ∧ nc_nodeId c = nodeId ∧ nc_revokedAt c = None.

Definition port_held (s : infra) (nodeId : Id) (port : Z) (key : option string) : Prop :=
  match key with
  | Some k => ∃ i r, rows (portAllocations s) !! i = Some r ∧ pa_nodeId r = nodeId ∧ pa_port r = port ∧ pa_key r = k
  | None => t_where (λ r, (pa_nodeId r === nodeId) && (pa_port r =? port)) (portAllocations s) = []
  end.

(** The routes an App's services claim, with the App. *)
Definition claims_route (a : app_row) (sv : app_service) (label : string) : Prop :=
  sv ∈ ap_services a ∧ sv_route sv = Some label.

Definition all_links (s : infra) : list any_link :=
  (of_mesh_link <$> (t_scan (meshLinks s)).*2) ++ (a ← (t_scan (apps s)).*2; of_app_link <$> ap_links a).

(** The route runs where its App says: the one App that claims the label places the service at the
    row's Node and port, and the port is that service's; or no App claims it and nothing the Hub
    knows of holds the port. *)
Definition route_served (s : infra) (registry : option string) (r : app_route) : Prop :=
  1 ≤ rt_port r ≤ 65535 ∧
  ((∃ a sv, a ∈ (t_scan (apps s)).*2 ∧ claims_route a sv (rt_name r) ∧
      or_else (ap_nodeId a) (sv_nodeId sv) = rt_nodeId r ∧ sv_port sv = Some (rt_port r) ∧
      (∀ a' sv', a' ∈ (t_scan (apps s)).*2 → claims_route a' sv' (rt_name r) → ap_name a' = ap_name a) ∧
      port_held s (rt_nodeId r) (rt_port r) (Some (port_key (ap_name a) (sv_name sv)))) ∨
   ((∀ a sv, a ∈ (t_scan (apps s)).*2 → ¬ claims_route a sv (rt_name r)) ∧
      rt_name r ∉ ap_name <$> (t_scan (apps s)).*2 ∧
      isHostServicePort (rt_port r) registry = false ∧
      (∀ l, l ∈ all_links s → ¬ (nl_consumerNodeId l = rt_nodeId r ∧ nl_localPort l = rt_port r)) ∧
      port_held s (rt_nodeId r) (rt_port r) None)).

(** ** Who owns a label *)

(** What the table says once the services [seen] were read. *)
Definition owner_of (seen : list (app_row * app_service)) (label : string) (owner : option (option route_place)) : Prop :=
  match owner with
  | None => ∀ a sv, (a, sv) ∈ seen → sv_route sv ≠ Some label
  | Some None => True
  | Some (Some p) =>
      (∃ a sv, (a, sv) ∈ seen ∧ sv_route sv = Some label ∧
         p = RoutePlace (ap_name a) (sv_name sv) (or_else (ap_nodeId a) (sv_nodeId sv)) (sv_port sv)) ∧
      (∀ a sv, (a, sv) ∈ seen → sv_route sv = Some label → ap_name a = rp_app p)
  end.
Definition owners_of (seen : list (app_row * app_service)) (owners : gmap string (option route_place)) : Prop :=
  ∀ label, owner_of seen label (owners !! label).

(** A service that does not claim the label changes nothing for it. *)
Lemma owner_of_skip seen label owner a sv :
  sv_route sv ≠ Some label → owner_of seen label owner → owner_of (seen ++ [(a, sv)]) label owner.
Proof.
  intros Hne. destruct owner as [[p|]|]; simpl; [|done|set_solver].
  intros [(a0 & sv0 & ?) Hall]. split; [exists a0, sv0; set_solver|].
  intros a' sv' [Hin|Hin]%elem_of_app Hl; [eauto|set_solver].
Qed.

Lemma owners_of_step seen owners a sv :
  owners_of seen owners → owners_of (seen ++ [(a, sv)]) (own_route a owners sv).
Proof.
  intros Hinv label. specialize (Hinv label).
  assert (∀ l, sv_route sv = Some l → l ≠ label → own_route a owners sv !! label = owners !! label) as Hother.
  { unfold own_route. intros l -> ?. destruct (owners !! l) as [[p|]|]; [case_match|..]; by rewrite lookup_insert_ne by done. }
  unfold own_route.
  destruct (sv_route sv) as [l|] eqn:Hr.
  - destruct (decide (l = label)) as [->|Hne].
    + destruct (owners !! label) as [[p|]|] eqn:Ho.
      * destruct (bool_decide_reflect (rp_app p = ap_name a)) as [Hp|Hp]; rewrite lookup_insert_eq; [|done].
        destruct Hinv as [_ Hall]. split.
        -- exists a, sv. set_solver.
        -- intros a' sv' [Hin|Hin]%elem_of_app Hl; [|set_solver]. simpl. rewrite <- Hp. eauto.
      * by rewrite lookup_insert_eq.
      * rewrite lookup_insert_eq. split; [exists a, sv; set_solver|].
        intros a' sv' [Hin|Hin]%elem_of_app Hl; [by destruct (Hinv _ _ Hin)|set_solver].
    + apply owner_of_skip; [congruence|]. specialize (Hother l eq_refl Hne). unfold own_route in Hother. rewrite Hr in Hother. by rewrite Hother.
  - by apply owner_of_skip; [congruence|].
Qed.

Lemma owners_of_app seen owners a l :
  owners_of seen owners → owners_of (seen ++ (pair a <$> l)) (foldl (own_route a) owners l).
Proof.
  revert seen owners. induction l as [|sv l IH]; intros seen owners H; simpl; [by rewrite app_nil_r|].
  rewrite (cons_middle _ seen). rewrite app_assoc. by apply IH, owners_of_step.
Qed.

Lemma routeOwners_spec rows : owners_of (a ← rows; pair a <$> ap_services a) (routeOwners rows).
Proof.
  unfold routeOwners. change (owners_of ([] ++ (a ← rows; pair a <$> ap_services a))
    (foldl (λ owners a, foldl (own_route a) owners (ap_services a)) ∅ rows)).
  assert (owners_of [] ∅) as H by (intros label; rewrite lookup_empty; set_solver).
  revert H. generalize (@nil (app_row * app_service)) (∅ : gmap string (option route_place)).
  induction rows as [|a rows IH]; intros seen owners H; simpl; [by rewrite app_nil_r|].
  rewrite app_assoc. by apply IH, owners_of_app.
Qed.

(** ** Grants and served routes *)

Section served.
Context (s : infra).

Lemma hasLive_observes nodeId :
  observes s (hasLiveCredential nodeId) (λ live, live = true →
    ∃ i c, rows (nodeCredentials s) !! i = Some c ∧ nc_nodeId c = nodeId ∧ nc_revokedAt c = None).
Proof.
  intros live s' H. unfold hasLiveCredential in H. tx_bind_in H o s1 H1. injection H1 as <- <-. injection H as <- <-.
  split; [done|]. destruct (head (t_where _ _)) as [[i c]|] eqn:Hc; [|done]. intros _.
  apply head_Some_elem_of, t_where_sound in Hc as [Hc [Hcn%bool_decide_eq_true Hcr]%andb_true_iff]. simpl in *.
  exists i, c. split_and!; try done. by destruct (nc_revokedAt c).
Qed.

Lemma grantable_observes nodeId n :
  rows (nodes s) !! nodeId = n → observes s (grantable nodeId n) (λ o, ∀ a, o = Some a → proven_peer s nodeId a).
Proof.
  intros Hn. unfold grantable. destruct n as [n|]; [|by apply observes_ret].
  destruct (nd_meshAddress n) as [a|] eqn:Ha; [|by apply observes_ret].
  destruct (is_none (nd_endpointProvenAt n) || _) eqn:Hg; [by apply observes_ret|].
  apply orb_false_elim in Hg as [Hp Hid%negb_false_iff%bool_decide_eq_true].
  eapply observes_bind; [apply hasLive_observes|]. intros live Hlive. apply observes_ret. intros a' Ha'.
  destruct live; [|done]. simplify_eq/=. exists n. split_and!; try done; [by destruct (nd_endpointProvenAt n)|by apply Hlive].
Qed.

Lemma port_holder_observes nodeId port :
  observes s (port_holder nodeId port) (λ o, match o with
    | Some (_, r) => port_held s nodeId port (Some (pa_key r))
    | None => port_held s nodeId port None end).
Proof.
  apply observes_read. simpl. unfold port_held.
  destruct (t_where _ (portAllocations s)) as [|[i r] l] eqn:E; simpl; [done|].
  assert ((i, r) ∈ t_where (λ r, (pa_nodeId r === nodeId) && (pa_port r =? port)) (portAllocations s)) as Hin
    by (rewrite E; left).
  apply t_where_sound in Hin as [Hr [Hn Hp]%andb_true_iff]. simpl in *. apply bool_decide_eq_true in Hn.
  exists i, r. split_and!; [done|done|lia|done].
Qed.

Lemma servesPlacement_observes env r :
  observes s (servesPlacement env r (routeOwners (t_scan (apps s)).*2) (ap_name <$> (t_scan (apps s)).*2)
    ((λ l, listenerKey (nl_consumerNodeId l) (nl_localPort l)) <$> all_links s))
    (λ ok, ok = true → route_served s (pe_registry env) r).
Proof.
  unfold servesPlacement. destruct (_ || _) eqn:Hport; [by apply observes_ret|].
  apply orb_false_elim in Hport as [Hlo Hhi]. assert (1 ≤ rt_port r ≤ 65535) as Hr by lia. clear Hlo Hhi.
  pose proof (routeOwners_spec (t_scan (apps s)).*2 (rt_name r)) as Hown.
  assert (∀ a sv, (a, sv) ∈ (a ← (t_scan (apps s)).*2; pair a <$> ap_services a) ↔
            a ∈ (t_scan (apps s)).*2 ∧ sv ∈ ap_services a) as Hseen.
  { intros a sv. rewrite list_elem_of_bind. setoid_rewrite list_elem_of_fmap. naive_solver. }
  destruct (routeOwners _ !! rt_name r) as [[p|]|]; simpl in Hown.
  - destruct Hown as [(a & sv & Hin & Hl & ->) Hall]. apply Hseen in Hin as [Ha Hsv]. simpl in *.
    destruct (_ || _) eqn:Hpl; [by apply observes_ret|].
    apply orb_false_elim in Hpl as [Hn%negb_false_iff%bool_decide_eq_true Hp%negb_false_iff%bool_decide_eq_true].
    destruct (is_some (rt_app r) && _); [by apply observes_ret|].
    eapply observes_bind; [apply port_holder_observes|]. intros h Hh. apply observes_ret.
    destruct h as [[i al]|]; [|done]. intros Hk%bool_decide_eq_true. rewrite Hk in Hh.
    split; [done|]. left. exists a, sv. split_and!; try done.
    intros a' sv' Ha' [Hsv' Hl']. eapply Hall; [apply Hseen; eauto|done].
  - by apply observes_ret.
  - unfold servesSingleContainer. destruct (is_some (rt_service r) || _); [by apply observes_ret|].
    destruct (bool_decide_reflect (rt_name r ∈ ap_name <$> (t_scan (apps s)).*2)) as [|Hname]; [by apply observes_ret|].
    destruct (isHostServicePort _ _ || _) eqn:Hs; [by apply observes_ret|].
    apply orb_false_elim in Hs as [Hs Hli%bool_decide_eq_false].
    eapply observes_bind; [apply port_holder_observes|]. intros h Hh. apply observes_ret.
    destruct h as [[i al]|]; [done|]. intros _. split; [done|]. right. split_and!; try done.
    + intros a sv Ha [Hsv Hl]. eapply Hown; [apply Hseen; eauto|done].
    + intros l Hl [Hc Hp]. apply Hli. apply list_elem_of_fmap. exists l. by rewrite Hc, Hp.
Qed.
End served.

Lemma take_rows_observes {D} (tbl : infra → table D) n s : observes s (take_rows tbl n) (λ l, l = take n (t_scan (tbl s))).
Proof. by apply observes_read. Qed.

(** ** What each part of a snapshot rests on *)

Section grants.
Context (localeCompare : string → string → Z) (env : pipeline_env) (s : infra) (nodeId : Id).

Definition routes_stored : list app_route := (t_scan (appRoutes s)).*2.

(** Some consumer of a link of that name and port; each peer let in is one, proven. *)
Definition declared_exposure (e : exposure) : Prop :=
  ex_allowed_peers e ≠ [] ∧
  ∀ p, p ∈ ex_allowed_peers e → ∃ l a, l ∈ all_links s ∧ nl_name l = ex_name e ∧ nl_providerNodeId l = nodeId ∧
    ex_target e = loopback (nl_providerPort l) ∧ nl_consumerNodeId l ≠ nodeId ∧ proven_peer s (nl_consumerNodeId l) a ∧ ma_id a = p.

Definition gateway_id (p : string) : Prop :=
  ∃ g n a, rows (nodes s) !! g = Some n ∧ is_gateway n = true ∧ g ≠ nodeId ∧ proven_peer s g a ∧ ma_id a = p.

Definition route_exposure (e : exposure) : Prop :=
  ∃ r, r ∈ routes_stored ∧ rt_nodeId r = nodeId ∧ ex_name e = ingressServiceName (rt_name r) ∧
    ex_target e = loopback (rt_port r) ∧ route_served s (pe_registry env) r ∧
    ∀ p, p ∈ ex_allowed_peers e → gateway_id p.

Definition declared_link (li : mesh_listener) : Prop :=
  ∃ l a, l ∈ all_links s ∧ nl_consumerNodeId l = nodeId ∧ nl_providerNodeId l ≠ nodeId ∧ li_name li = nl_name l ∧
    li_service li = nl_name l ∧ proven_peer s (nl_providerNodeId l) a ∧ li_peer li = ma_id a ∧
    li_listen li = (if nl_forApp l then "bridge:" +:+ json_Z (nl_localPort l) else loopback (nl_localPort l)).

Definition route_link (li : mesh_listener) : Prop :=
  ∃ r a port, r ∈ routes_stored ∧ rt_nodeId r ≠ nodeId ∧ route_served s (pe_registry env) r ∧
    li_service li = ingressServiceName (rt_name r) ∧ proven_peer s (rt_nodeId r) a ∧ li_peer li = ma_id a ∧
    li_listen li = loopback port ∧ INGRESS_PORT_START ≤ port ≤ INGRESS_PORT_END.

Definition served_host (h : string * option string) : Prop :=
  h.2 ≠ None → ∃ r, r ∈ routes_stored ∧ rt_name r = h.1 ∧ route_served s (pe_registry env) r.

Lemma gateway_peers_observes gateways :
  (∀ g, g ∈ gateways → rows (nodes s) !! g.1 = Some g.2 ∧ is_gateway g.2 = true) →
  observes s (gateway_peers nodeId gateways) (λ l, ∀ a, a ∈ l → gateway_id (ma_id a)).
Proof.
  intros Hg. unfold gateway_peers.
  eapply observes_bind; [apply (observes_map _ _ (λ (g : Id * node_doc) o, ∀ a, o = Some a → gateway_id (ma_id a)))|].
  - intros [g n] Hin. destruct (Hg _ Hin) as [Hn Hgw]. cbn [fst snd] in *.
    destruct (bool_decide_reflect (g = nodeId)); [by apply observes_ret|].
    eapply observes_weaken; [by apply grantable_observes|]. intros o Ho a ->. exists g, n, a. split_and!; auto.
  - intros l Hl. apply observes_ret. intros a (o & Ho & ->)%list_elem_of_omap.
    apply list_elem_of_lookup in Ho as [i Hi]. destruct (Forall2_lookup_r _ _ _ _ _ Hl Hi) as (g & _ & Hg'). eauto.
Qed.

Lemma expose_route_observes accepted budget ids exposures r :
  observes s (accepted r) (λ ok, ok = true → route_served s (pe_registry env) r) →
  r ∈ routes_stored → rt_nodeId r = nodeId → (∀ p, p ∈ ids → gateway_id p) →
  Forall route_exposure exposures →
  observes s (expose_route accepted budget ids exposures r) (Forall route_exposure).
Proof.
  intros Hacc Hr Hn Hids Hex. unfold expose_route. destruct (_ || _); [by apply observes_ret|].
  eapply observes_bind; [apply Hacc|]. intros ok Hok. apply observes_ret. destruct ok; [|done].
  apply Forall_app; split; [done|]. constructor; [|constructor]. exists r. by auto 10.
Qed.

Definition table_ok (t : gateway_table) : Prop := Forall route_link (gt_links t) ∧ Forall served_host (gt_routes t).

Lemma gateway_route_observes accepted ports budget t r :
  observes s (accepted r) (λ ok, ok = true → route_served s (pe_registry env) r) →
  r ∈ routes_stored → (∀ p, map_get (rt_name r) ports = Some p → INGRESS_PORT_START ≤ p ≤ INGRESS_PORT_END) →
  table_ok t → observes s (gateway_route accepted nodeId ports budget t r) table_ok.
Proof.
  intros Hacc Hr Hports [Hl Ht]. unfold gateway_route.
  assert (∀ u, (u ≠ None → route_served s (pe_registry env) r) → Forall served_host (gt_routes t ++ [(rt_name r, u)])) as Hadd.
  { intros u Hu. apply Forall_app; split; [done|]. constructor; [|done]. intros Hne. exists r. auto. }
  eapply observes_bind; [apply Hacc|]. intros ok Hok. destruct ok; simpl; [|apply observes_ret; split; [done|by apply Hadd]].
  specialize (Hok eq_refl).
  destruct (bool_decide_reflect (rt_nodeId r = nodeId)); [apply observes_ret; split; [done|by apply Hadd]|].
  eapply observes_bind; [apply observes_get|]. intros nd Hnd.
  eapply observes_bind; [by apply grantable_observes|]. intros o Ho. apply observes_ret.
  destruct o as [a|]; [|split; [done|by apply Hadd]].
  destruct (map_get _ ports) as [port|] eqn:Hp; [|split; [done|by apply Hadd]].
  destruct (budget <=? _); [split; [done|by apply Hadd]|]. split; [|by apply Hadd].
  apply Forall_app; split; [done|]. constructor; [|done]. exists r, a, port. simpl. by auto 10.
Qed.

Definition ingress_ok (i : ingress_result) : Prop :=
  Forall route_exposure (ig_exposures i) ∧ Forall route_link (ig_links i) ∧
  ∀ routes, ig_routes i = Some routes → Forall served_host routes.

Lemma ingressFor_observes isGateway exposureBudget linkBudget :
  observes s (ingressFor localeCompare env nodeId isGateway (t_scan (apps s)).*2
    ((λ l, listenerKey (nl_consumerNodeId l) (nl_localPort l)) <$> all_links s) exposureBudget linkBudget) ingress_ok.
Proof.
  unfold ingressFor. eapply observes_bind; [apply take_rows_observes|]. intros found ->.
  destruct (Nat.ltb _ _); [apply observes_throw|].
  destruct (Nat.eqb _ 0); [apply observes_ret; split_and!; [constructor..|]; by destruct isGateway; intros ? [= <-]|].
  eapply observes_bind; [apply (observes_read _ _ (λ l : list (Id * app_route),
    ∀ r, r ∈ l.*2 → r ∈ routes_stored ∧ rt_nodeId r = nodeId))|].
  { intros r ([i r'] & -> & Hin%subseteq_take)%list_elem_of_fmap. unfold t_where in Hin.
    apply list_elem_of_filter in Hin as [Hn Hin]. split; [|by apply bool_decide_eq_true in Hn].
    apply list_elem_of_fmap. by exists (i, r'). }
  intros hosted Hhosted.
  eapply (observes_bind _ _ _ (λ l, ∀ a, a ∈ l → gateway_id (ma_id a))).
  { destruct (Nat.eqb _ 0); [apply observes_ret; set_solver|]. apply gateway_peers_observes.
    intros g [Hgw Hin%subseteq_take]%list_elem_of_filter. by apply t_scan_sound in Hin. }
  intros allowed Hallowed. eapply (observes_bind _ _ _ (Forall route_exposure)).
  { destruct (Nat.eqb _ 0); [by apply observes_ret|]. apply observes_fold; [|done]. intros b r Hin Hb.
    destruct (Hhosted _ Hin). apply expose_route_observes; try done; [apply servesPlacement_observes|].
    intros p Hp. apply elem_of_to_sorted, list_elem_of_fmap in Hp as (a & -> & Ha). by apply Hallowed. }
  intros exposures Hex. destruct isGateway; simpl; [|by apply observes_ret].
  eapply observes_bind; [apply take_rows_observes|]. intros all ->.
  eapply (observes_bind _ _ _ table_ok).
  - apply observes_fold; [|split; constructor]. intros t r ([i r'] & -> & Hin)%list_elem_of_fmap Ht.
    apply gateway_route_observes; [apply servesPlacement_observes| | |done].
    + apply elem_of_to_sorted, list_elem_of_filter in Hin as [_ Hin%subseteq_take%subseteq_take].
      apply list_elem_of_fmap. by exists (i, r').
    + intros p Hp%map_get_elem. match type of Hp with _ ∈ ingressPorts ?lc ?rs => destruct (ingressPorts_placed lc rs) as [tk Htk] end.
      by eapply placed_port_range.
  - intros t [Hl Ht]. apply observes_ret. split_and!; simpl; try done. intros ? [= <-]. by apply Forall_to_sorted.
Qed.

Definition acc_ok (acc : mesh_acc) : Prop :=
  Forall (λ e : string * exposure, e.1 = ex_name e.2 ∧ declared_exposure e.2) (mc_expose acc) ∧
  Forall (λ e : string * mesh_listener, declared_link e.2) (mc_outgoing acc).

Lemma add_link_observes acc l :
  l ∈ all_links s → (nl_providerNodeId l = nodeId ∨ nl_consumerNodeId l = nodeId) →
  nl_providerNodeId l ≠ nl_consumerNodeId l → acc_ok acc → observes s (add_link nodeId acc l) acc_ok.
Proof.
  intros Hl Hours Hne [Hexp Hout]. unfold add_link. destruct (_ || _); [apply observes_throw|].
  eapply observes_bind; [apply observes_get|]. intros n Hn.
  eapply observes_bind; [by apply grantable_observes|]. intros o Ho.
  destruct o as [peer|]; [|by apply observes_ret]. specialize (Ho peer eq_refl).
  destruct (bool_decide_reflect (nl_providerNodeId l = nodeId)) as [Hp|Hp].
  - assert (∃ l' a, l' ∈ all_links s ∧ nl_name l' = nl_name l ∧ nl_providerNodeId l' = nodeId ∧
      loopback (nl_providerPort l) = loopback (nl_providerPort l') ∧
      nl_consumerNodeId l' ≠ nodeId ∧ proven_peer s (nl_consumerNodeId l') a ∧ ma_id a = ma_id peer) as Hself
      by (exists l, peer; split_and!; try done; congruence).
    destruct (map_get _ (mc_expose acc)) as [prev|] eqn:Hprev.
    + destruct (bool_decide_reflect (ex_target prev = loopback (nl_providerPort l))) as [Ht|]; simpl; [|apply observes_throw].
      apply observes_ret. split; [|done]. apply Forall_map_set; [|done]. split; [done|].
      apply map_get_elem in Hprev. rewrite Forall_forall in Hexp.
      destruct (Hexp _ Hprev) as (Hname & Hnn & Hpeers). simpl in *. rewrite Ht in Hpeers. rewrite <- Hname in Hpeers.
      split; simpl; (destruct (bool_decide _); [done|]); [by destruct (ex_allowed_peers prev)|].
      intros p [Hin| ->%list_elem_of_singleton]%elem_of_app; [by apply Hpeers|done].
    + apply observes_ret. split; [|done]. apply Forall_map_set; [|done]. split; [done|]. split; [done|].
      simpl. intros p ->%list_elem_of_singleton. done.
  - assert (declared_link (MeshListener (nl_name l) (ma_id peer) (nl_name l)
      (if nl_forApp l then "bridge:" +:+ json_Z (nl_localPort l) else loopback (nl_localPort l)) None)) as Hlink
      by (exists l, peer; split_and!; try done; naive_solver).
    destruct (map_get _ (mc_outgoing acc)) as [prev|]; [destruct (bool_decide _); [|apply observes_throw]|];
      apply observes_ret; (split; [done|]); by apply Forall_map_set.
Qed.
End grants.


(** ** An App behind a gateway *)

Module MeshDemo.
Import CommandDemo PipelineDemo.
Definition address (c : ascii) : mesh_address :=
  MeshAddress (String.string_of_list_ascii (replicate 64 c)) ["https://relay.example"] ["10.0.0.1:4433"].
Definition prove (i : Id) (a : mesh_address) (role : placement_role) (s : infra) : infra :=
  commit (db_patch nodes i (λ n, n <| nd_meshAddress := Some a |> <| nd_endpointId := Some (ma_id a) |>
    <| nd_endpointProvenAt := Some 2000 |> <| nd_placementRoles := Some [role] |>)) s.
(** The App's Node and, next to it, a gateway; both proved their keys. *)
Definition fleet : infra :=
  prove 1%nat (address "b") RoleGateway (prove 0%nat (address "a") RoleCompute
    (commit (ensureNode "edge" SourceEnrolled 1500 ≫= λ n, db_insert nodeCredentials (NodeCredential n "h" "h" None 1500 None None)) deployed)).

Definition snapshot_of (i : Id) : option mesh_snapshot :=
  match desired str_cmp env i fleet with Done (snap, _) => Some snap | _ => None end.
Definition port : Z := or_else 0 (pa_port ∘ snd <$> head (t_scan (portAllocations fleet))).
Definition listener : string := loopback (INGRESS_PORT_START + fnv1a "shop" mod INGRESS_SIZE).

(** The two snapshots fit: the gateway dials what the App's Node exposes to it. *)
Example snapshots_fit :
  (sn_exposures <$> snapshot_of 0%nat) =
    Some [Exposure "ingress.shop" (loopback port) [ma_id (address "b")] (Some INGRESS_MAX_CONNECTIONS)] ∧
  (sn_links <$> snapshot_of 1%nat) =
    Some [MeshListener "ingress.shop" (ma_id (address "a")) "ingress.shop" listener (Some INGRESS_MAX_CONNECTIONS)] ∧
  (snapshot_of 1%nat ≫= sn_ingress) = Some ([("shop", Some listener)], 0).
Proof. vm_compute. done. Qed.
End MeshDemo.
Import MeshDemo.

