(* ===== verification/FailoverProperties.v ===== *)
(** Automatic failover (packages/backend/convex/infra/failover.ts): what one check does to the fleet,
    and what a sequence of checks and heartbeats does to one Node. *)

From S2P Require Import Prelude JsLib Schema HostLabels Egress AppPolicy InfraSchema InfraStore.
From S2P Require Import AppPlan Nodes DockerArgs AppSpecs NodeCommands Frames CommandProperties.
From S2P Require Import Apps Deployments Pipeline PipelineFrames PipelineProperties NodeState.

(** ** The watch on one Node *)

(** The second observation of an outage that was not handled yet. *)
Definition fires (now : Z) (n : node_doc) : bool :=
  isNodeSilent (nd_lastSeenAt n) now && (nd_failoverHandledSeenAt n !== nd_lastSeenAt n) &&
  match nd_failoverSuspectAt n with Some t => FAILOVER_GRACE_MS <=? now - t | None => false end.

(** The marks a check leaves on a Node. *)
Definition watched (now : Z) (n : node_doc) : node_doc :=
  if negb (isNodeSilent (nd_lastSeenAt n) now) then n <| nd_failoverSuspectAt := None |>
  else if nd_failoverHandledSeenAt n === nd_lastSeenAt n then n
  else if fires now n then n <| nd_failoverSuspectAt := None |> <| nd_failoverHandledSeenAt := nd_lastSeenAt n |>
  else n <| nd_failoverSuspectAt := Some (or_else now (nd_failoverSuspectAt n)) |>.

Definition apps_on (s : infra) (id : Id) : list app_row :=
  filter (λ a, existsb (λ sv, or_else (ap_nodeId a) (sv_nodeId sv) === id) (ap_services a) = true) (take 500 (t_scan (apps s))).*2.

Section check.
Context (localeCompare : string → string → Z) (env : pipeline_env).

(** *** Frames *)

Definition same_fleet : relation infra := λ s s', nodes s' = nodes s ∧ apps s' = apps s.
#[export] Instance same_fleet_preorder : PreOrder same_fleet.
Proof. split; [by split|]. intros s1 s2 s3 [E1 E2] [E3 E4]. split; congruence. Qed.

Lemma fleet_createRun i now : acts same_fleet (createRun i now).
Proof.
  unfold createRun, createDeployment, trim_deployments, bumpCounter, readCounter, writeCounter, counterRow, infra_call_after.
  acts_walk ltac:(by split).
Qed.
Lemma fleet_appendAudit e now : acts same_fleet (appendAudit e now).
Proof. unfold appendAudit, bumpCounter, readCounter, writeCounter, counterRow. acts_walk ltac:(by split). Qed.

(** Every run is an old one or one of [P]. *)
Definition runs_added (P : app_deployment → Prop) : relation infra := λ s s',
  ∀ j d, rows (appDeployments s') !! j = Some d → rows (appDeployments s) !! j = Some d ∨ P d.
#[export] Instance runs_added_preorder P : PreOrder (runs_added P).
Proof. split; [by left|]. intros s1 s2 s3 H12 H23 j d [H|H]%H23; [by apply H12|by right]. Qed.

Lemma runs_kept P s s' : appDeployments s' = appDeployments s → runs_added P s s'.
Proof. intros E j d. rewrite E. auto. Qed.
Lemma runs_deleted P s i : runs_added P s (upd appDeployments (t_del i) s).
Proof. intros j d H. simpl in H. apply lookup_delete_Some in H as [_ H]. auto. Qed.

Ltac runs_leaf := first [apply runs_kept; reflexivity|apply runs_deleted].

Lemma runs_createRun (P : app_deployment → Prop) i now :
  (∀ d, dp_app d = ri_app i → dp_operation d = Some (ri_operation i) →
     dp_failover d = ri_failover i → P d) →
  acts (runs_added P) (createRun i now).
Proof.
  intros HP s id s' H. unfold createRun in H. destruct (negb _); [done|]. tx_bind_in H id1 s1 H1.
  pose proof (createDeployment_row _ _ _ _ _ H1) as [-> Hrow].
  assert (∀ j d, rows (appDeployments s1) !! j = Some d → j ≠ next_id (appDeployments s) → rows (appDeployments s) !! j = Some d) as Hold.
  { unfold createDeployment in H1. tx_bind_in H1 id0 s0 H0. injection H0 as <- <-.
    match type of H1 with ?m _ = _ => assert (acts (runs_added (λ _, False)) m) as Ha end.
    { unfold trim_deployments, bumpCounter, readCounter, writeCounter, counterRow. acts_walk runs_leaf. }
    intros j d Hj Hne. destruct (Ha _ _ _ H1 j d Hj) as [Hj'|[]]. simpl in Hj'. by rewrite lookup_insert_ne in Hj'. }
  tx_bind_in H u s2 H2. apply db_patch_done in H2 as (d & Hd & ->). tx_bind_in H u2 s3 H3.
  injection H3 as <- <-. injection H as <- <-. intros j d' Hj. simpl in Hj.
  apply lookup_insert_Some in Hj as [[<- <-]|[Hne Hj]]; [right|left; auto].
  destruct Hrow as [E|E]; [|congruence]. rewrite Hd in E. injection E as ->. by apply HP; destruct i as [???????? []].
Qed.

(** *** Failing one Node over *)

(** A failover run of an App with a service on [lost], to one of [survivors] unless there is none. *)
Definition moves_off (s : infra) (lost : Id) (survivors : list Id) (d : app_deployment) : Prop :=
  dp_operation d = Some OpFailover ∧
  (∃ a, a ∈ apps_on s lost ∧ ap_name a = dp_app d) ∧
  ∃ to_, dp_failover d = Some (FailoverMove lost to_) ∧ (to_ ∈ survivors ∨ survivors = [] ∧ to_ = lost).

Lemma survivor_of_spec survivors lost i :
  survivor_of survivors lost i ∈ survivors ∨ survivors = [] ∧ survivor_of survivors lost i = lost.
Proof.
  unfold survivor_of. destruct survivors as [|x l]; [by right|]. left.
  destruct ((x :: l) !! _) eqn:E; [by apply list_elem_of_lookup_2 in E|].
  apply lookup_ge_None in E. pose proof (Nat.mod_upper_bound i (max (length (x :: l)) 1)). simpl in *. lia.
Qed.

Lemma fold_runs lost survivors now (l : list (nat * app_row)) started s out s' :
  fold_tx (failover_run lost survivors now) started l s = Done (out, s') → length out = (length started + length l)%nat.
Proof.
  revert started s. induction l as [|x l IH]; intros started s H; simpl in H.
  - injection H as <- <-. simpl. lia.
  - tx_bind_in H st s1 H1. unfold failover_run in H1. tx_bind_in H1 i s2 H2. injection H1 as <- <-.
    rewrite (IH _ _ H), length_app. simpl. lia.
Qed.

Lemma failOver_spec lost survivors now s out s' :
  failOver lost survivors now s = Done (out, s') →
  same_fleet s s' ∧ runs_added (moves_off s lost.1 survivors) s s' ∧ length out = length (apps_on s lost.1).
Proof.
  intros H. assert (acts same_fleet (failOver lost survivors now)) as Hf.
  { pose proof fleet_createRun. pose proof fleet_appendAudit. unfold failOver, appsOn, take_rows, failover_run.
    acts_walk ltac:(by split). }
  split; [by eapply Hf|]. unfold failOver in H. tx_bind_in H moving s1 H1.
  unfold appsOn in H1. tx_bind_in H1 found s0 H0. injection H0 as <- <-. injection H1 as <- <-.
  fold (apps_on s lost.1) in H. tx_bind_in H u s2 H2. split.
  - transitivity s2.
    + revert H2. match goal with |- ?m _ = _ → _ => cut (acts (runs_added (moves_off s lost.1 survivors)) m); [intros Ha; apply Ha|] end.
      unfold appendAudit, bumpCounter, readCounter, writeCounter, counterRow. acts_walk runs_leaf.
    + eapply (acts_fold_in _); [|exact H]. intros st [i a] Hin. unfold failover_run. apply (acts_bind _); [|intros; apply (acts_ret _)].
      apply runs_createRun. intros d Ha Ho Hd. split; [done|]. split; [|eexists; split; [done|apply survivor_of_spec]].
      exists a. split; [|done]. apply elem_of_lookup_imap in Hin as (k & y & [= -> ->] & Hy). by apply list_elem_of_lookup_2 in Hy.
  - apply fold_runs in H. by rewrite length_imap in H.
Qed.

(** *** One check *)

Definition without (id : Id) (survivors : list Id) : list Id := filter (λ i, i ≠ id) survivors.

Lemma apps_on_same s s' id : apps s' = apps s → apps_on s' id = apps_on s id.
Proof. unfold apps_on. by intros ->. Qed.

Lemma runs_added_mono (P Q : app_deployment → Prop) s s' : (∀ d, P d → Q d) → runs_added P s s' → runs_added Q s s'.
Proof. intros HPQ H j d [?|?]%H; auto. Qed.

Definition runs_for (now : Z) (s : infra) (node : Id * node_doc) : nat :=
  if fires now node.2 then length (apps_on s node.1) else 0%nat.

(** What visiting one Node does: the marks, and its runs if it fires. *)
Record visited (survivors : list Id) (now : Z) (s s' : infra) (node : Id * node_doc) (started out : list Id) : Prop := {
  vi_apps : apps s' = apps s;
  vi_nodes : rows (nodes s') = <[node.1 := watched now node.2]> (rows (nodes s));
  vi_runs : runs_added (λ d, fires now node.2 = true ∧ moves_off s node.1 (without node.1 survivors) d) s s';
  vi_count : length out = (length started + runs_for now s node)%nat;
}.

(** Only the marks may have changed. *)
Lemma visited_marks survivors now s s' node started :
  fires now node.2 = false → apps s' = apps s → appDeployments s' = appDeployments s →
  rows (nodes s') = <[node.1 := watched now node.2]> (rows (nodes s)) → visited survivors now s s' node started started.
Proof. intros Hf Ha Hd Hn. split; [done|done|by apply runs_kept|unfold runs_for; rewrite Hf; lia]. Qed.

Lemma check_node_spec survivors now started id n s out s' :
  rows (nodes s) !! id = Some n → check_node survivors now started (id, n) s = Done (out, s') →
  visited survivors now s s' (id, n) started out.
Proof.
  intros Hn H. unfold check_node in H.
  destruct (isNodeSilent (nd_lastSeenAt n) now) eqn:Hsil; simpl in H.
  2:{ assert (fires now n = false) as Hf by (unfold fires; by rewrite Hsil).
      assert (watched now n = n <| nd_failoverSuspectAt := None |>) as Hw by (unfold watched; by rewrite Hsil).
      destruct (nd_failoverSuspectAt n) eqn:Hs; simpl in H.
      - tx_bind_in H u s1 H1. injection H as <- <-. apply db_patch_done in H1 as (d & Hd & ->). rewrite Hn in Hd. injection Hd as <-.
        apply visited_marks; try done. simpl. by rewrite Hw.
      - injection H as <- <-. apply visited_marks; try done. simpl. rewrite Hw, insert_id; [done|]. rewrite Hn.
        by destruct n; simpl in *; subst. }
  destruct (bool_decide_reflect (nd_failoverHandledSeenAt n = nd_lastSeenAt n)) as [Hh|Hh].
  { injection H as <- <-. apply visited_marks; try done; simpl.
    - unfold fires. by rewrite Hsil, bool_decide_eq_true_2.
    - unfold watched. rewrite Hsil, bool_decide_eq_true_2 by done. simpl. by rewrite insert_id. }
  assert (fires now n = match nd_failoverSuspectAt n with Some t => FAILOVER_GRACE_MS <=? now - t | None => false end) as Hf
    by (unfold fires; by rewrite Hsil, bool_decide_eq_false_2).
  assert (watched now n = if fires now n then n <| nd_failoverSuspectAt := None |> <| nd_failoverHandledSeenAt := nd_lastSeenAt n |>
    else n <| nd_failoverSuspectAt := Some (or_else now (nd_failoverSuspectAt n)) |>) as Hw
    by (unfold watched; by rewrite Hsil, bool_decide_eq_false_2).
  destruct (nd_failoverSuspectAt n) as [t|] eqn:Hs.
  - destruct (Z.ltb_spec (now - t) FAILOVER_GRACE_MS) as [Hg|Hg].
    + assert (fires now n = false) as Hf' by (rewrite Hf; apply Z.leb_gt; lia). rewrite Hf' in Hw.
      injection H as <- <-. apply visited_marks; try done; simpl. rewrite Hw, insert_id; [done|]. rewrite Hn.
      by destruct n; simpl in *; subst.
    + assert (fires now n = true) as Hf' by (rewrite Hf; apply Z.leb_le; lia). rewrite Hf' in Hw.
      tx_bind_in H u s1 H1. apply db_patch_done in H1 as (d & Hd & ->). rewrite Hn in Hd. injection Hd as <-.
      tx_bind_in H more s2 H2. injection H as <- <-. apply failOver_spec in H2 as ([En Ea] & Hr & Hl). split; simpl.
      * by rewrite Ea.
      * rewrite En. simpl. by rewrite Hw.
      * eapply runs_added_mono; [|exact Hr]. auto.
      * rewrite length_app, Hl. unfold runs_for. simpl. rewrite Hf'. done.
  - tx_bind_in H u s1 H1. injection H as <- <-. apply db_patch_done in H1 as (d & Hd & ->). rewrite Hn in Hd. injection Hd as <-.
    apply visited_marks; try done. simpl. rewrite Hw, Hf. done.
Qed.

Lemma check_nodes_spec survivors now (l : list (Id * node_doc)) started s out s' :
  NoDup l.*1 → (∀ id n, (id, n) ∈ l → rows (nodes s) !! id = Some n) →
  fold_tx (check_node survivors now) started l s = Done (out, s') →
  apps s' = apps s ∧
  (∀ id n, (id, n) ∈ l → rows (nodes s') !! id = Some (watched now n)) ∧
  (∀ id, id ∉ l.*1 → rows (nodes s') !! id = rows (nodes s) !! id) ∧
  runs_added (λ d, ∃ id n, (id, n) ∈ l ∧ fires now n = true ∧ moves_off s id (without id survivors) d) s s' ∧
  length out = (length started + sum_list_with (runs_for now s) l)%nat.
Proof.
  revert started s. induction l as [|[id n] l IH]; intros started s Hnd Hrows H.
  { injection H as <- <-. split_and!; try done; first [by intros ?? ?%elem_of_nil|simpl; lia]. }
  simpl in H. tx_bind_in H st s1 H1. apply NoDup_cons in Hnd as [Hni Hnd]. simpl in Hni.
  apply check_node_spec in H1 as [Va Vn Vr Vc]; [|apply Hrows; left]. simpl in *.
  assert (∀ i m, (i, m) ∈ l → rows (nodes s1) !! i = Some m) as Hrows1.
  { intros i m Hin. rewrite Vn, lookup_insert_ne; [apply Hrows; by right|]. intros <-. apply Hni, list_elem_of_fmap. by exists (id, m). }
  destruct (IH _ _ Hnd Hrows1 H) as (Ia & In' & Io & Ir & Ic). split_and!.
  - congruence.
  - intros i m [[= -> ->]|Hin]%elem_of_cons; [|by apply In']. by rewrite Io, Vn, lookup_insert_eq.
  - intros i [Hne Hni']%not_elem_of_cons. rewrite Io by done. rewrite Vn. by apply lookup_insert_ne.
  - transitivity s1.
    + eapply runs_added_mono; [|exact Vr]. intros d [Hf Hm]. exists id, n. split; [left|done].
    + eapply runs_added_mono; [|exact Ir]. intros d (i & m & Hin & Hf & Ho & (a & Ha & Hna) & Hto).
      exists i, m. split; [by right|]. split; [done|]. split; [done|]. split; [|done].
      exists a. split; [|done]. by rewrite <- (apps_on_same s s1).
  - rewrite Ic, Vc. assert (sum_list_with (runs_for now s1) l = sum_list_with (runs_for now s) l) as ->; [|lia].
    clear -Va. induction l as [|x l IH]; simpl; [done|]. rewrite IH. unfold runs_for. by rewrite (apps_on_same s s1).
Qed.
End check.

(** ** The whole fleet *)

Section fleet.
Context (localeCompare : string → string → Z) (env : pipeline_env).

(** Where a failover run may send an App: another live Node, or nowhere while there is none. *)
Definition survivor (s : infra) (now : Z) (lost to_ : Id) : Prop :=
  let live i := ∃ m, (i, m) ∈ take 500 (t_scan (nodes s)) ∧ isNodeLive (nd_lastSeenAt m) now = true in
  (to_ ≠ lost ∧ live to_) ∨ (to_ = lost ∧ ∀ i, live i → i = lost).

(** A failover run whose lost Node fired, for an App with a service there. *)
Definition grounded (s : infra) (now : Z) (d : app_deployment) : Prop :=
  failoverEnabled env = true ∧ dp_operation d = Some OpFailover ∧
  ∃ lost to_ n a, dp_failover d = Some (FailoverMove lost to_) ∧ (lost, n) ∈ take 500 (t_scan (nodes s)) ∧ fires now n = true ∧
    a ∈ apps_on s lost ∧ ap_name a = dp_app d ∧ survivor s now lost to_.

Lemma check_spec now s started s' :
  check localeCompare env now s = Done (started, s') →
  (∀ id, rows (nodes s') !! id = rows (nodes s) !! id ∨ rows (nodes s') !! id = watched now <$> rows (nodes s) !! id) ∧
  runs_added (grounded s now) s s' ∧
  (failoverEnabled env = true →
    (∀ id n, (id, n) ∈ take 500 (t_scan (nodes s)) → rows (nodes s') !! id = Some (watched now n)) ∧
    length started = sum_list_with (runs_for now s) (take 500 (t_scan (nodes s)))).
Proof.
  intros H. unfold check in H. destruct (failoverEnabled env) eqn:Hen; simpl in H.
  2:{ injection H as <- <-. split; [by left|]. by split; [apply runs_kept|]. }
  unfold take_rows, liveNodes in H. tx_bind_in H found s1 H1. injection H1 as <- <-.
  tx_bind_in H survivors s2 H2. tx_bind_in H2 found s3 H3. injection H3 as <- <-. injection H2 as <- <-.
  assert (∀ id n, (id, n) ∈ take 500 (t_scan (nodes s)) → rows (nodes s) !! id = Some n) as Hrows.
  { intros id n Hin%subseteq_take. by apply (t_scan_sound (nodes s) (id, n)). }
  apply check_nodes_spec in H as (Ha & Hn & Ho & Hr & Hc); [|eapply sublist_NoDup; [apply (NoDup_t_scan_ids (nodes s))|]; rewrite fmap_take; apply sublist_take|done].
  split; [|split; [|by auto]].
  - intros id. destruct (decide (id ∈ (take 500 (t_scan (nodes s))).*1)) as [Hin|Hni]; [|left; auto].
    apply list_elem_of_fmap in Hin as ([i n] & -> & Hin). right. simpl. by rewrite (Hn i n Hin), (Hrows i n Hin).
  - eapply runs_added_mono; [|exact Hr]. intros d (id & n & Hin & Hf & Hop & (a & Hap & Hname) & to_ & Hd & Hto).
    split; [done|]. split; [done|]. exists id, to_, n, a. split_and!; try done. unfold survivor.
    assert (∀ i, i ∈ without id (to_sorted (λ a b : Id * node_doc, localeCompare (nd_name a.2) (nd_name b.2))
        (filter (λ n : Id * node_doc, isNodeLive (nd_lastSeenAt n.2) now = true) (take 500 (t_scan (nodes s))))).*1 ↔
        i ≠ id ∧ ∃ m, (i, m) ∈ take 500 (t_scan (nodes s)) ∧ isNodeLive (nd_lastSeenAt m) now = true) as Hlive.
    { intros i. unfold without. rewrite list_elem_of_filter, list_elem_of_fmap. setoid_rewrite elem_of_to_sorted.
      setoid_rewrite list_elem_of_filter. split; [intros [? ([j m] & -> & ? & ?)]; eauto|].
      intros [? (m & ? & ?)]. split; [done|]. exists (i, m). auto. }
    destruct Hto as [Hto%Hlive|[Hnil ->]]; [by left|]. right. split; [done|]. intros i Hi.
    destruct (decide (i = id)) as [|Hne]; [done|]. assert (i ∈ @nil Id) as []%elem_of_nil. rewrite <- Hnil. by apply Hlive.
Qed.

(** ** Checks and heartbeats in turn *)

(** One transaction at a time no earlier than the last one's. *)
Inductive watch_step : Z * infra → Z * infra → Prop :=
  | ws_check t s t' s' r : t ≤ t' → check localeCompare env t' s = Done (r, s') → watch_step (t, s) (t', s')
  | ws_heartbeat hash credential version blocked keys limit t s t' s' r :
      t ≤ t' → nodeHeartbeat hash credential version blocked keys limit t' s = Done (r, s') → watch_step (t, s) (t', s').

Lemma requireNode_reads hash credential s who s' : requireNode hash credential s = Done (who, s') → s' = s.
Proof.
  intros H. assert (acts eq (requireNode hash credential)) as Ha by (unfold requireNode, authenticateNode; acts_walk ltac:(done)).
  symmetry. by eapply Ha.
Qed.

(** A heartbeat touches one Node, and not its failover marks. *)
Lemma nodeHeartbeat_spec hash credential version blocked keys limit now s r s' :
  nodeHeartbeat hash credential version blocked keys limit now s = Done (r, s') →
  ∃ n n', rows (nodes s) !! r.1 = Some n ∧ rows (nodes s') = <[r.1 := n']> (rows (nodes s)) ∧ apps s' = apps s ∧
    nd_lastSeenAt n' = Some now ∧ nd_failoverSuspectAt n' = nd_failoverSuspectAt n ∧
    nd_failoverHandledSeenAt n' = nd_failoverHandledSeenAt n.
Proof.
  intros H. unfold nodeHeartbeat in H. tx_bind_in H who s1 H1. apply requireNode_reads in H1 as ->.
  destruct (Nat.ltb _ _); [done|]. destruct (match blocked with Some r => _ | None => _ end); [done|]. destruct (_ || _); [done|].
  tx_bind_in H u s2 H2. apply db_patch_done in H2 as (n & Hn & ->). tx_bind_in H o s3 H3. injection H3 as <- <-. injection H as <- <-.
  exists n. eexists. by split_and!.
Qed.

Lemma watch_step_node c c' id n' :
  watch_step c c' → rows (nodes c'.2) !! id = Some n' →
  ∃ n, rows (nodes c.2) !! id = Some n ∧
    (n' = n ∨ n' = watched c'.1 n ∨
     nd_lastSeenAt n' = Some c'.1 ∧ nd_failoverSuspectAt n' = nd_failoverSuspectAt n ∧
       nd_failoverHandledSeenAt n' = nd_failoverHandledSeenAt n).
Proof.
  intros [t s t' s' r Ht H|hash credential version blocked keys limit t s t' s' r Ht H] Hn'; simpl in *.
  - apply check_spec in H as [Hn _]. destruct (Hn id) as [E|E]; rewrite E in Hn'; [by exists n'; auto|].
    destruct (rows (nodes s) !! id) as [n|]; [|done]. injection Hn' as <-. exists n. auto.
  - apply nodeHeartbeat_spec in H as (n & m & Hn & E & _ & Hm). rewrite E in Hn'.
    apply lookup_insert_Some in Hn' as [[<- <-]|[_ Hn']]; [exists n; auto|exists n'; auto].
Qed.

(** A check at [t0] on the way from [c0] to [c] found the Node silent. *)
Definition seen_silent (c0 c : Z * infra) (id : Id) (t0 : Z) : Prop :=
  ∃ c1 s2 n, rtc watch_step c0 c1 ∧ watch_step c1 (t0, s2) ∧ rtc watch_step (t0, s2) c ∧
    rows (nodes c1.2) !! id = Some n ∧ isNodeSilent (nd_lastSeenAt n) t0 = true.

Lemma seen_silent_step c0 c c' id t0 : seen_silent c0 c id t0 → watch_step c c' → seen_silent c0 c' id t0.
Proof. intros (c1 & s2 & n & H1 & H2 & H3 & Hn) Hs. exists c1, s2, n. split; [done|]. split; [done|]. split; [by eapply rtc_r|done]. Qed.

(** A suspicion was raised by a check that found the Node silent. *)
Lemma suspicion_seen c0 c id n t0 :
  rtc watch_step c0 c → (∀ n0, rows (nodes c0.2) !! id = Some n0 → nd_failoverSuspectAt n0 = None) →
  rows (nodes c.2) !! id = Some n → nd_failoverSuspectAt n = Some t0 → seen_silent c0 c id t0.
Proof.
  intros Hrtc H0. revert n. pattern c. revert c Hrtc.
  apply rtc_ind_r; [intros n Hn Hs; by rewrite (H0 n) in Hs|]. intros c c' Hpre Hstep IH n Hn Hs.
  destruct (watch_step_node _ _ _ _ Hstep Hn) as (m & Hm & Hcase).
  assert (nd_failoverSuspectAt m = Some t0 → seen_silent c0 c' id t0) as Hold
    by (intros; eapply seen_silent_step; [by eapply IH|done]).
  destruct Hcase as [->|[->|(_ & E & _)]]; [auto| |rewrite E in Hs; auto].
  unfold watched in Hs. destruct (isNodeSilent _ _) eqn:Hsil; simpl in Hs; [|done].
  destruct (_ === _); [auto|]. destruct (fires _ _); [done|].
  destruct (nd_failoverSuspectAt m) as [t|] eqn:Ht; simpl in Hs; injection Hs as <-; [auto|].
  destruct c' as [t' s']; simpl in *. exists c, s', m. by split_and!; try apply rtc_refl.
Qed.

Lemma fires_inv now n : fires now n = true →
  isNodeSilent (nd_lastSeenAt n) now = true ∧ nd_failoverHandledSeenAt n ≠ nd_lastSeenAt n ∧
  ∃ t, nd_failoverSuspectAt n = Some t ∧ t + FAILOVER_GRACE_MS ≤ now.
Proof.
  unfold fires. intros [[Hs Hh%negb_true_iff%bool_decide_eq_false]%andb_true_iff Ht]%andb_true_iff.
  split; [done|]. split; [done|]. destruct (nd_failoverSuspectAt n) as [t|]; [|done]. exists t. split; [done|lia].
Qed.

(** The new run, seen from its lost Node. *)
Lemma new_run_grounded now s started s' j d lost to_ :
  check localeCompare env now s = Done (started, s') → rows (appDeployments s') !! j = Some d →
  rows (appDeployments s) !! j ≠ Some d → dp_failover d = Some (FailoverMove lost to_) →
  dp_operation d = Some OpFailover ∧ ∃ n a, rows (nodes s) !! lost = Some n ∧ fires now n = true ∧ a ∈ apps_on s lost ∧
    ap_name a = dp_app d ∧ survivor s now lost to_ ∧ rows (nodes s') !! lost = Some (watched now n).
Proof.
  intros H Hj Hnew Hd. apply check_spec in H as (_ & Hr & Hall). destruct (Hr j d Hj) as [|Hg]; [done|].
  destruct Hg as (Hen & Hop & l & t & n & a & Hd' & Hin & Hf & Ha & Hname & Hs). split; [done|].
  rewrite Hd in Hd'. injection Hd' as <- <-. exists n, a. split_and!; try done; [|by apply Hall].
  apply subseteq_take in Hin. by apply (t_scan_sound (nodes s) (lost, n)).
Qed.


(** Since an outage was handled: nothing heard, or heard after [t0]. *)
Definition settled_since (L t0 : Z) (n : node_doc) : Prop :=
  nd_lastSeenAt n = Some L ∧ nd_failoverHandledSeenAt n = Some L ∨ ∃ L', nd_lastSeenAt n = Some L' ∧ t0 ≤ L'.

Lemma watched_seen now n : nd_lastSeenAt (watched now n) = nd_lastSeenAt n.
Proof. unfold watched. repeat case_match; by destruct n. Qed.

Lemma settled_since_watched L t0 now n : settled_since L t0 n → settled_since L t0 (watched now n).
Proof.
  intros [[Hs Hh]|(L' & Hs & Ht)]; [|right; exists L'; by rewrite watched_seen].
  left. rewrite watched_seen. split; [done|]. unfold watched. repeat case_match; by destruct n; simpl in *; subst.
Qed.

Lemma settled_since_steps L t0 c c' id n n' :
  t0 ≤ c.1 → rtc watch_step c c' → rows (nodes c.2) !! id = Some n → settled_since L t0 n →
  rows (nodes c'.2) !! id = Some n' → t0 ≤ c'.1 ∧ settled_since L t0 n'.
Proof.
  intros Ht Hrtc Hn Hs. revert n'. pattern c'. revert c' Hrtc. apply rtc_ind_r; [intros n' Hn'; by simplify_eq|].
  intros c1 c2 _ Hstep IH n' Hn'. destruct (watch_step_node _ _ _ _ Hstep Hn') as (m & Hm & Hcase).
  destruct (IH m Hm) as [Ht1 Hs1]. assert (c1.1 ≤ c2.1) by (by destruct Hstep). split; [lia|].
  destruct Hcase as [->|[->|(E & _)]]; [done|by apply settled_since_watched|]. right. exists c2.1. split; [done|lia].
Qed.

Lemma fires_settled now n : fires now n = true →
  ∃ L, nd_lastSeenAt n = Some L ∧ L + NODE_SILENCE_MS < now ∧ settled_since L now (watched now n).
Proof.
  intros Hf. pose proof (fires_inv _ _ Hf) as (Hs & Hh & _). destruct (nd_lastSeenAt n) as [L|] eqn:HL; [|done].
  exists L. split; [done|]. split; [simpl in Hs; lia|]. left. rewrite watched_seen. split; [done|].
  unfold watched. rewrite HL, Hs, bool_decide_eq_false_2, Hf by done. by destruct n; simpl in *; subst.
Qed.


(** C39: a heartbeat does not end a suspicion.  It leaves the mark of a check that found the Node
    silent before, so when no check runs while the Node is heard, the first check that finds the
    next outage fails the Node over at once. *)
Theorem stale_suspicion_fails_over_at_once hash credential version blocked keys limit s n t0 t1 id key s1 t2 r s2 :
  nodeHeartbeat hash credential version blocked keys limit t1 s = Done ((id, key), s1) →
  rows (nodes s) !! id = Some n → nd_failoverSuspectAt n = Some t0 → t0 ≤ t1 → nd_failoverHandledSeenAt n ≠ Some t1 →
  failoverEnabled env = true → t_wf (nodes s1) → (length (t_scan (nodes s1)) ≤ 500)%nat → t1 + NODE_SILENCE_MS < t2 →
  check localeCompare env t2 s1 = Done (r, s2) →
  (∃ n2, rows (nodes s2) !! id = Some n2 ∧ nd_failoverHandledSeenAt n2 = Some t1) ∧ (length (apps_on s1 id) ≤ length r)%nat.
Proof.
  intros Hb Hn Hsus Ht Hh Hen Hwf Hlen Hsil H. apply nodeHeartbeat_spec in Hb as (m & n1 & Hm & E & _ & Hseen & Hs1 & Hh1).
  simpl in *. simplify_eq.
  assert (rows (nodes s1) !! id = Some n1) as Hn1 by (by rewrite E, lookup_insert_eq).
  assert (fires t2 n1 = true) as Hf.
  { unfold fires. rewrite Hseen, Hs1, Hsus, Hh1, bool_decide_eq_false_2 by done. simpl.
    unfold NODE_SILENCE_MS, HEARTBEAT_INTERVAL_BOUND_MS, MISSED_HEARTBEATS, FAILOVER_GRACE_MS in *. lia. }
  apply check_spec in H as (_ & _ & Hall). destruct (Hall Hen) as [Hw Hc]. rewrite take_ge in Hw, Hc by done.
  apply (elem_of_t_scan _ _ _ Hwf) in Hn1. split.
  - exists (watched t2 n1). split; [by apply Hw|]. destruct (fires_settled _ _ Hf) as (L & HL & _ & [[_ E']|(L' & E' & ?)]); [congruence|].
    rewrite watched_seen in E'. simplify_eq. unfold NODE_SILENCE_MS, HEARTBEAT_INTERVAL_BOUND_MS, MISSED_HEARTBEATS in *. lia.
  - rewrite Hc. transitivity (runs_for t2 s1 (id, n1)); [unfold runs_for; simpl; by rewrite Hf|].
    clear -Hn1. induction Hn1 as [x l|x y l _ IH]; simpl; lia.
Qed.
End fleet.

(** ** A Node that goes quiet *)

Module FailoverDemo.
Import CommandDemo PipelineDemo.
(** The App's Node was last heard at 1000, a second one at 199000. *)
Definition quiet : infra :=
  commit (n ← ensureNode "edge" SourceEnrolled 1500; db_patch nodes n (λ d, d <| nd_lastSeenAt := Some 199000 |>)) deployed.
Definition checked (now : Z) (s : infra) : infra := commit (check str_cmp env now) s.
Definition beat (now : Z) (s : infra) : infra := commit (nodeHeartbeat hash token "1.0" None None None now) s.
Definition suspected : infra := checked 200000 quiet.
Definition failed_over : infra := checked 230000 suspected.
Definition back : infra := beat 240000 failed_over.
Definition again : infra := checked 500000 back.
Definition failed_again : infra := checked 530000 again.
Definition heard : infra := beat 210000 suspected.
Definition hasty : infra := checked 400000 heard.

Definition failovers (s : infra) : list (Id * failover_move) :=
  omap (λ r : Id * app_deployment, pair r.1 <$> dp_failover r.2) (t_scan (appDeployments s)).
Example two_outages :
  failovers suspected = [] ∧ failovers failed_over = [(1%nat, FailoverMove 0%nat 1%nat)] ∧
  failovers again = failovers failed_over ∧ length (failovers failed_again) = 2%nat ∧ length (failovers hasty) = 1%nat.
Proof. vm_compute. done. Qed.

Lemma suspected_done : check str_cmp env 200000 quiet = Done ([], suspected).
Proof. vm_compute. reflexivity. Qed.
Lemma failed_over_done : check str_cmp env 230000 suspected = Done ([1%nat], failed_over).
Proof. vm_compute. reflexivity. Qed.
Lemma back_done : nodeHeartbeat hash token "1.0" None None None 240000 failed_over = Done ((0%nat, None), back).
Proof. vm_compute. reflexivity. Qed.
Lemma again_done : check str_cmp env 500000 back = Done ([], again).
Proof. vm_compute. reflexivity. Qed.
Lemma failed_again_done : check str_cmp env 530000 again = Done ([2%nat], failed_again).
Proof. vm_compute. reflexivity. Qed.
Lemma heard_done : nodeHeartbeat hash token "1.0" None None None 210000 suspected = Done ((0%nat, None), heard).
Proof. vm_compute. reflexivity. Qed.
Lemma heard_wf : t_wf (nodes heard).
Proof.
  change (map_Forall (λ i (_ : node_doc), (i < next_id (nodes heard))%nat) (rows (nodes heard))).
  apply (bool_decide_eq_true_1 _). vm_compute. reflexivity.
Qed.
Lemma hasty_done : check str_cmp env 400000 heard = Done ([1%nat], hasty).
Proof. vm_compute. reflexivity. Qed.
Lemma back_to_again : rtc (watch_step str_cmp env) (230000, failed_over) (500000, again).
Proof.
  eapply rtc_l; [exact (ws_heartbeat str_cmp env hash token "1.0" None None None 230000 _ 240000 _ _ ltac:(lia) back_done)|].
  eapply rtc_l; [exact (ws_check str_cmp env 240000 _ 500000 _ _ ltac:(lia) again_done)|]. apply rtc_refl.
Qed.
End FailoverDemo.
Import FailoverDemo.



Lemma stale_suspicion_fails_over_at_once_witness : ∃ n2, rows (nodes hasty) !! 0%nat = Some n2 ∧ nd_failoverHandledSeenAt n2 = Some 210000.
Proof.
  edestruct (λ n, stale_suspicion_fails_over_at_once str_cmp PipelineDemo.env CommandDemo.hash CommandDemo.token "1.0" None None None
    suspected n 200000 210000 0%nat None heard 400000 [1%nat] hasty) as [H _]; [..|exact H].
  - exact heard_done.
  - vm_compute. reflexivity.
  - reflexivity.
  - lia.
  - vm_compute. discriminate.
  - reflexivity.
  - exact heard_wf.
  - apply Nat.leb_le. vm_compute. reflexivity.
  - vm_compute. reflexivity.
  - exact hasty_done.
Defined.
