(* ===== verification/RunnerReleases.v ===== *)
(** actions/runner releases and GitHub's cutoff (packages/backend/convex/runnerReleaseModel.ts). *)

From S2P Require Import Prelude JsLib Schema HostLabels Egress WorkerApi JsText.

Definition DAY_MS : Z := 24 * 60 * 60000.
Definition RUNNER_RELEASE_GRACE_MS : Z := 30 * DAY_MS.
Definition RUNNER_RELEASE_WARN_AFTER_MS : Z := 25 * DAY_MS.
Definition RUNNER_RELEASE_REFRESH_MS : Z := 6 * 60 * 60000.
Definition RUNNER_RELEASE_PAGE : nat := 100.

Record runner_release := RunnerRelease { rl_version : string; rl_publishedAt : Z }.

(** [VERSION_PATTERN.exec]: the three numbers. *)
Definition version_value (s : string) : Z :=
  foldl (λ n c, 10 * n + (ch c - 48)) 0 (String.list_ascii_of_string s).
Definition version_parts (s : string) : option (list Z) :=
  let parts := str_split "." s in
  if Nat.eqb (length parts) 3 && forallb version_part parts then Some (version_value <$> parts) else None.

Fixpoint first_difference (a b : list Z) : Z :=
  match a, b with
  | x :: a, y :: b => if x - y =? 0 then first_difference a b else x - y
  | _, _ => 0
  end.

(** [None] throws. *)
Definition compareRunnerVersions (left right : string) : option Z :=
  match version_parts left, version_parts right with
  | Some a, Some b => Some (first_difference a b)
  | _, _ => None
  end.

(** The comparator of versions already known to be well formed. *)
Definition version_cmp (left right : string) : Z := or_else 0 (compareRunnerVersions left right).

(** One entry of GitHub's page. [Date.parse] is the parameter [dateParse]. *)
Definition release_entry (dateParse : string → option Z) (entry : json) : option (string * Z) :=
  match entry with
  | JObj fields =>
      match json_field "draft" fields, json_field "prerelease" fields with
      | Some (JBool true), _ | _, Some (JBool true) => None
      | _, _ =>
          let tag := match json_field "tag_name" fields with Some (JStr t) => t | _ => "" end in
          v ← runnerVersionOf (Some (if starts_with "v" tag then slice_from 1 tag else tag));
          at_ ← match json_field "published_at" fields with Some (JStr t) => dateParse t | _ => None end;
          Some (v, at_)
      end
  | _ => None
  end.

Definition release_of (e : string * Z) : runner_release := RunnerRelease e.1 e.2.

Definition parseRunnerReleases (dateParse : string → option Z) (payload : json) : (list runner_release) + string :=
  match payload with
  | JArr entries =>
      let byVersion := map_of (omap (release_entry dateParse) (take RUNNER_RELEASE_PAGE entries)) in
      inl (to_sorted (λ l r, version_cmp (rl_version l) (rl_version r)) (release_of <$> byVersion))
  | _ => inr "GitHub's release list is not an array"
  end.

Inductive release_state := RelSupported | RelExpiring | RelExpired.
#[export] Instance release_state_eq_dec : EqDecision release_state.
Proof. solve_decision. Defined.

Record release_clock := ReleaseClock {
  rc_state : release_state;
  rc_version : string;
  rc_successor : runner_release;
  rc_newest : runner_release;
  rc_deadline : Z;
  rc_successorBeforeList : bool;
}.
Inductive release_standing := StandCurrent (version : string) | StandClock (c : release_clock).

(** [outcome] [None] is the comparator's throw, for a stored release that is no version. *)
Definition newer_than (version : string) (r : runner_release) : option bool :=
  (λ c, 0 <? c) <$> compareRunnerVersions (rl_version r) version.

Definition runnerReleaseStanding (version : string) (releases : list runner_release) (now : Z)
    : option (option release_standing) :=
  match runnerVersionOf (Some version) with
  | None => Some None
  | Some _ =>
      flags ← mapM (newer_than version) releases;
      let newer := to_sorted (λ l r, version_cmp (rl_version l) (rl_version r))
                     (filter (λ r, newer_than version r = Some true) releases) in
      Some (Some (match head newer, last newer with
        | Some successor, Some newest =>
            let successorBeforeList := forallb (λ b : bool, b) flags in
            let deadline := rl_publishedAt successor + RUNNER_RELEASE_GRACE_MS in
            let st := if successorBeforeList then RelExpired
              else if deadline <=? now then RelExpired
              else if rl_publishedAt successor + RUNNER_RELEASE_WARN_AFTER_MS <=? now then RelExpiring
              else RelSupported in
            StandClock (ReleaseClock st version successor newest deadline successorBeforeList)
        | _, _ => StandCurrent version
        end))
  end.

(** [/(?:^|\/)actions-runner:(\d{1,6}\.\d{1,6}\.\d{1,6})(?:@|$)/]: the leftmost match. *)
Definition after_runner_name (l : list ascii) : option string :=
  let s := String.string_of_list_ascii l in
  if starts_with "actions-runner:" s then
    let tag := or_else "" (head (str_split "@" (slice_from 15 s))) in
    if is_some (version_parts tag) then Some tag else None
  else None.

Fixpoint runner_tag (l : list ascii) : option string :=
  match l with
  | [] => None
  | c :: l => or_opt (if Ascii.eqb c "/" then after_runner_name l else None) (runner_tag l)
  end.

Definition runnerVersionFromImageRelease (imageRelease : string) : option string :=
  let l := String.list_ascii_of_string imageRelease in or_opt (after_runner_name l) (runner_tag l).

(** [oldestRunnerVersion] (fleetObservation.ts) *)
Definition oldestRunnerVersion (reported : list (option string)) : option string :=
  head (to_sorted version_cmp (omap runnerVersionOf reported)).

Example versions :
  version_cmp "2.336.0" "2.4.0" = 332 ∧ runnerVersionFromImageRelease "ghcr.io/actions/actions-runner:2.328.0@sha256:aa" = Some "2.328.0" ∧
  runnerVersionFromImageRelease "actions-runner:2.328.0" = Some "2.328.0" ∧ runnerVersionFromImageRelease "x/my-actions-runner:2.328.0" = None ∧
  oldestRunnerVersion [Some "2.10.0"; None; Some "2.9.3"; Some "bad"] = Some "2.9.3".
Proof. vm_compute. done. Qed.
