(* ===== verification/FleetObservation.v ===== *)
(** What metrics and alerts read about the fleet (packages/backend/convex/fleetObservation.ts), from
    both stores and the stored release list (runnerReleases.ts). *)

From S2P Require Import Prelude JsLib Schema HostLabels Egress Isolation Scheduler Retirement WorkerApi.
From S2P Require Import AppPolicy InfraSchema InfraStore Nodes JsText RunnerReleases.

Definition OBSERVATION_DIMENSION_LIMIT : nat := 1000.
Definition LIVE_ATTEMPT_LIMIT : nat := 1000.
Definition RECENT_ATTEMPT_SAMPLE : nat := 200.
Definition CONTROLLER_ROW_LIMIT : nat := 50.

(** ** The release list *)

Record release_row := ReleaseRow {
  rr_releases : list runner_release;
  rr_fetchedAt : option Z;
  rr_lastAttemptAt : Z;
  rr_lastFetchError : option string;
}.
#[export] Instance release_row_rebuild : Rebuild release_row := λ r,
  ReleaseRow (rr_releases r) (rr_fetchedAt r) (rr_lastAttemptAt r) (rr_lastFetchError r).

(** Everything the observation reads. *)
Record watched_stores := WatchedStores {
  ws_ci : db;
  ws_infra : infra;
  ws_runnerReleases : table release_row;
}.
#[export] Instance watched_stores_rebuild : Rebuild watched_stores := λ w,
  WatchedStores (ws_ci w) (ws_infra w) (ws_runnerReleases w).

Definition loadRunnerReleases : tx watched_stores (option (list runner_release * Z)) :=
  row ← db_first ws_runnerReleases (λ _, true);
  mret (r ← row; t ← rr_fetchedAt r.2; Some (rr_releases r.2, t)).

Definition refreshDue (now : Z) : tx watched_stores bool :=
  row ← db_first ws_runnerReleases (λ _, true);
  mret (match row ≫= λ r, rr_fetchedAt r.2 with
        | None => true
        | Some t => RUNNER_RELEASE_REFRESH_MS <=? now - t
        end).

(** [l.slice(-n)] *)
Definition slice_last {A} (n : nat) (l : list A) : list A := drop (length l - n) l.

Definition record_fetch (attemptedAt : Z) (releases : option (list runner_release)) (error : option string)
    (r : release_row) : release_row :=
  match releases with
  | None => r <| rr_lastAttemptAt := attemptedAt |> <| rr_lastFetchError := slice0 500 <$> error |>
  | Some l => ReleaseRow (slice_last RUNNER_RELEASE_PAGE l) (Some attemptedAt) attemptedAt None
  end.

(** [record] *)
Definition recordReleases (attemptedAt : Z) (releases : option (list runner_release)) (error : option string)
    : tx watched_stores unit :=
  row ← db_first ws_runnerReleases (λ _, true);
  match row with
  | None => db_insert ws_runnerReleases (record_fetch attemptedAt releases error (ReleaseRow [] None attemptedAt None)) ≫= λ _, mret tt
  | Some (i, _) => db_patch ws_runnerReleases i (record_fetch attemptedAt releases error)
  end.

(** ** Observed values *)

Inductive observed_outcome := OutSucceeded | OutFailed | OutCancelled | OutUnknown.
#[export] Instance observed_outcome_eq_dec : EqDecision observed_outcome.
Proof. solve_decision. Defined.

Definition attemptOutcome (a : attempt) : observed_outcome :=
  if at_state a === FailedState then OutFailed
  else if at_state a === Cancelled then OutCancelled
  else match to_lower ∘ trim <$> at_result a with
  | Some "succeeded" | Some "success" => OutSucceeded
  | Some "failed" | Some "failure" => OutFailed
  | Some "canceled" | Some "cancelled" => OutCancelled
  | _ => OutUnknown
  end.

Definition effectiveReadinessState (r : worker_readiness) (e : option readiness_evidence) (p : profile_egress) : readiness_state :=
  if wr_state r !== RReady then wr_state r
  else if is_none (readinessAdmissionError r e p) then RReady
  else if is_none (wr_preparedAt r) then RFailed else RDegraded.

Record observed_worker := ObservedWorker {
  ow_machineId : Id;
  ow_machineName : string;
  ow_state : readiness_state;
  ow_schedulable : bool;
  ow_detail : option string;
}.

Record finished_attempt := FinishedAttempt {
  fa_outcome : observed_outcome;
  fa_finishedAt : Z;
  fa_queueWaitMs : option Z;
  fa_runDurationMs : option Z;
  fa_error : option string;
}.

Record running_attempt := RunningAttempt {
  ra_runnerName : string;
  ra_startedAt : Z;
  ra_repo : option string;
  ra_displayName : option string;
}.

Record live_attempts := LiveAttempts { la_pending : Z; la_preparing : Z; la_ready : Z; la_running : Z }.

Record observed_profile := ObservedProfile {
  op_name : string;
  op_executor : executor;
  op_state : profile_state;
  op_minRunners : Z;
  op_maxRunners : Z;
  op_workerLabels : list string;
  op_labelConflicts : list string;
  op_workers : list observed_worker;
  op_liveAttempts : live_attempts;
  op_liveAttemptsTruncated : bool;
  op_oldestPendingCreatedAt : option Z;
  op_running : list running_attempt;
  op_recentFinished : list finished_attempt;
  op_recentTruncated : bool;
  op_controller : controller_liveness;
  op_runnerVersion : option string;
}.

Record observed_machine := ObservedMachine {
  om_id : Id;
  om_name : string;
  om_os : os_kind;
  om_arch : option string;
  om_slotPolicy : slot_policy;
  om_configuredSlots : option Z;
  om_recommendedSlots : option Z;
  om_maxSlots : Z;
  om_usedSlots : Z;
  om_lastSeen : Z;
  om_online : bool;
  om_benchmark : option machine_benchmark;
}.

Record observed_node := ObservedNode {
  on_name : string;
  on_online : bool;
  on_lastSeenAt : Z;
  on_commandsBlocked : option string;
  on_commandsBlockedSince : option Z;
  on_journalKeys : option Z;
  on_journalKeyLimit : option Z;
}.

Record fleet_observation := FleetObservation {
  fo_now : Z;
  fo_recentWindowMs : Z;
  fo_profiles : list observed_profile;
  fo_machines : list observed_machine;
  fo_nodes : list observed_node;
  fo_dimensionsTruncated : bool;
  fo_runnerReleases : option (list runner_release * Z);
}.

(** [queueWaitMs] (attempts.ts) *)
Definition queueWaitMs (a : attempt) : option Z :=
  q ← at_queueTime a;
  start ← or_opt (at_runnerAssignedAt a) (at_startedAt a);
  Some (Z.max 0 (start - q)).

(** ** Loading *)

Section load.
Context (localeCompare : string → string → Z).

Definition scale_set_of (p : profile) : scale_set_profile := ScaleSetProfile (pf_name p) (pf_scaleSetName p) (pf_labels p).
Definition contract_of (p : profile) : contract := Contract (pf_executor p) (pf_imageRelease p) (pf_workerLabels p).

Definition at_limit {A} (n : nat) (l : list A) : bool := Nat.eqb (length l) n.

Definition readiness_rows (p : profile) (st : readiness_state) : tx watched_stores (list worker_readiness) :=
  read (λ s, (take OBSERVATION_DIMENSION_LIMIT
    (t_where (λ r, (wr_profile r === pf_name p) && (wr_state r === st)) (workerReadiness (ws_ci s)))).*2).

Definition live_rows (p : profile) (st : attempt_state) : tx watched_stores (list attempt) :=
  read (λ s, (take LIVE_ATTEMPT_LIMIT
    (t_where (λ a, (at_profile a === pf_name p) && (at_state a === st)) (attempts (ws_ci s)))).*2).

Definition evidence_of (r : worker_readiness) : tx watched_stores (option readiness_evidence) :=
  row ← db_unique (λ s, readinessEvidence (ws_ci s)) (λ e, (ev_machineId e === wr_machineId r) && (ev_profile e === wr_profile r));
  mret (snd <$> row).

Definition observed_worker_of (p : profile) (machines : list (Id * machine)) (now : Z)
    (re : worker_readiness * option readiness_evidence) : option observed_worker :=
  let '(row, evidence) := re in
  m ← map_get (wr_machineId row) machines;
  let current := e ← evidence; if ev_checkedAt e === wr_checkedAt row then Some e else None in
  let egress := profileEgressOf p in
  let detail := or_opt (pinDetail (pf_workerLabels p) (Some (mc_labels m)))
    (or_opt (current ≫= ev_lastError) (or_opt (wr_lastError row)
    (or_opt (readinessAdmissionError row evidence egress)
    (or_opt (current ≫= ev_statusDetail) (wr_statusDetail row))))) in
  Some (ObservedWorker (wr_machineId row) (mc_name m) (effectiveReadinessState row evidence egress)
    ((pf_state p === ProfileActive) && isSchedulableReadiness row evidence (Some m) (contract_of p) egress now) detail).

Definition finished_of (now : Z) (a : attempt) : finished_attempt :=
  FinishedAttempt (attemptOutcome a) (or_else now (at_finishedAt a)) (queueWaitMs a)
    (match at_startedAt a, at_finishedAt a with Some s, Some f => Some (Z.max 0 (f - s)) | _, _ => None end)
    (if at_state a === FailedState then at_lastError a else None).

Definition is_finished (since : Z) (a : attempt) : bool :=
  match at_state a with Completed | Cancelled | FailedState => true | _ => false end &&
  match at_finishedAt a with Some f => since <=? f | None => false end.

Definition running_of (a : attempt) : running_attempt :=
  RunningAttempt (at_runnerName a) (or_else (at_createdAt a) (or_opt (at_startedAt a) (at_claimedAt a))) (at_repo a) (at_displayName a).

Definition observed_profile_of (activeProfiles : list profile) (machines : list (Id * machine)) (now recentWindowMs : Z)
    (p : profile) : tx watched_stores (observed_profile * bool) :=
  readinessByState ← map_tx (readiness_rows p) [RPreparing; RReady; RDegraded; RFailed];
  pending ← live_rows p Pending;
  preparing ← live_rows p Preparing;
  ready ← live_rows p Ready;
  running ← live_rows p Running;
  recent ← read (λ s, take RECENT_ATTEMPT_SAMPLE (reverse (t_where (λ a, at_profile a === pf_name p) (attempts (ws_ci s))).*2));
  controllers ← read (λ s, take CONTROLLER_ROW_LIMIT (to_sorted (λ a b, str_cmp (hb_hostname a) (hb_hostname b))
    (t_where (λ h, hb_profile h === pf_name p) (controllerHeartbeats (ws_ci s))).*2));
  let readiness := filter (λ r, wr_executor r = pf_executor p ∧ wr_imageRelease r = pf_imageRelease p) (concat readinessByState) in
  evidence ← map_tx evidence_of readiness;
  let workers := omap (observed_worker_of p machines now) (zip readiness evidence) in
  let runnerVersion :=
    if pf_executor p === Docker then runnerVersionFromImageRelease (pf_imageRelease p)
    else oldestRunnerVersion ((λ e : option readiness_evidence,
      e ≫= λ e, if ev_imageRelease e === pf_imageRelease p then ev_runnerVersion e else None) <$> evidence) in
  let since := now - recentWindowMs in
  mret (ObservedProfile (pf_name p) (pf_executor p) (pf_state p) (pf_minRunners p) (pf_maxRunners p) (or_else [] (pf_workerLabels p))
    (if pf_state p === ProfileActive then lc_reason <$> conflictsOf (scale_set_of p) (scale_set_of <$> activeProfiles) else [])
    (to_sorted (λ a b, localeCompare (ow_machineName a) (ow_machineName b)) workers)
    (LiveAttempts (Z.of_nat (length pending)) (Z.of_nat (length preparing)) (Z.of_nat (length ready)) (Z.of_nat (length running)))
    (at_limit LIVE_ATTEMPT_LIMIT pending || at_limit LIVE_ATTEMPT_LIMIT preparing || at_limit LIVE_ATTEMPT_LIMIT ready ||
     at_limit LIVE_ATTEMPT_LIMIT running)
    (at_createdAt <$> head pending)
    (to_sorted (λ a b, ra_startedAt a - ra_startedAt b) (running_of <$> running))
    (to_sorted (λ a b, fa_finishedAt b - fa_finishedAt a) (finished_of now <$> filter (λ a, is_finished since a = true) recent))
    (at_limit RECENT_ATTEMPT_SAMPLE recent && match last recent with Some a => since <=? at_createdAt a | None => false end)
    (controllerLiveness controllers now) runnerVersion,
    existsb (at_limit OBSERVATION_DIMENSION_LIMIT) readinessByState).

Definition observed_machine_of (now : Z) (m : Id * machine) : observed_machine :=
  let '(i, m) := m in
  let fixed := mc_slotPolicy m === Some SlotFixed in
  ObservedMachine i (mc_name m) (mc_os m) (mc_arch m) (if fixed then SlotFixed else SlotAuto)
    (if fixed then Some (or_else (mc_maxSlots m) (mc_configuredSlots m)) else None) (mc_recommendedSlots m)
    (mc_maxSlots m) (mc_usedSlots m) (mc_lastSeen m)
    ((0 <? mc_lastSeen m) && (now - mc_lastSeen m <? WORKER_OFFLINE_AFTER_MS)) (mc_benchmark m).

(** [hasLiveCredential], over the second store. *)
Definition has_live_credential (nodeId : Id) (s : infra) : bool :=
  is_some (head (t_where (λ c, (nc_nodeId c === nodeId) && is_none (nc_revokedAt c)) (nodeCredentials s))).

Definition observed_node_of (s : infra) (now : Z) (n : Id * node_doc) : option observed_node :=
  lastSeenAt ← nd_lastSeenAt n.2;
  if has_live_credential n.1 s then
    Some (ObservedNode (nd_name n.2) (isNodeLive (Some lastSeenAt) now) lastSeenAt (nd_commandsBlocked n.2)
      ((λ _, or_else lastSeenAt (nd_commandsBlockedSince n.2)) <$> nd_commandsBlocked n.2)
      (nd_journalKeys n.2) (nd_journalKeyLimit n.2))
  else None.

(** [.withIndex("by_lastSeen").order("desc")] *)
Definition latest_machines (s : db) : list (Id * machine) :=
  take OBSERVATION_DIMENSION_LIMIT (reverse (to_sorted (λ a b : Id * machine, mc_lastSeen a.2 - mc_lastSeen b.2) (t_scan (machines s)))).

Definition profiles_in (st : profile_state) (s : db) : list profile :=
  (take OBSERVATION_DIMENSION_LIMIT (t_where (λ p, pf_state p === st) (profiles s))).*2.

Definition loadFleetObservation (now recentWindowMs : Z) (profile_name : option string) : tx watched_stores fleet_observation :=
  activeProfiles ← read (λ s, profiles_in ProfileActive (ws_ci s));
  pausedProfiles ← read (λ s, profiles_in ProfilePaused (ws_ci s));
  machineRows ← read (λ s, latest_machines (ws_ci s));
  let profileRows := to_sorted (λ a b, localeCompare (pf_name a) (pf_name b))
    (filter (λ p, profile_name = None ∨ profile_name = Some (pf_name p)) (activeProfiles ++ pausedProfiles)) in
  observed ← map_tx (observed_profile_of activeProfiles machineRows now recentWindowMs) profileRows;
  nodeRows ← read (λ s, take OBSERVATION_DIMENSION_LIMIT (t_scan (nodes (ws_infra s))));
  found ← read (λ s, omap (observed_node_of (ws_infra s) now) nodeRows);
  releases ← loadRunnerReleases;
  mret (FleetObservation now recentWindowMs (fst <$> observed)
    (to_sorted (λ a b, localeCompare (om_name a) (om_name b)) (observed_machine_of now <$> machineRows))
    (to_sorted (λ a b, localeCompare (on_name a) (on_name b)) found)
    (at_limit OBSERVATION_DIMENSION_LIMIT activeProfiles || at_limit OBSERVATION_DIMENSION_LIMIT pausedProfiles ||
     at_limit OBSERVATION_DIMENSION_LIMIT machineRows || existsb snd observed || at_limit OBSERVATION_DIMENSION_LIMIT nodeRows)
    releases).
End load.
