(* ===== verification/AlertRules.v ===== *)
(** Alert conditions and which subjects breach them (packages/backend/convex/alertRules.ts). *)

From S2P Require Import Prelude JsLib Schema HostLabels Egress Scheduler Retirement.
From S2P Require Import AppPolicy InfraSchema InfraStore JsText RunnerReleases FleetObservation.

(** [AlertCondition]; thresholds are numbers the operator sent. *)
Inductive alert_condition :=
  | WorkerOffline (minutes : num)
  | ProfileNoReadyWorker
  | ProfileReadinessDegraded
  | ProfileLabelConflict
  | QueueBacklog (minutes : num)
  | FailureRate (percent windowMinutes minAttempts : num)
  | ConsecutiveFailures (count : num)
  | AttemptDuration (minutes : num)
  | ControllerSilent (minutes : num)
  | NodeCommandsBlocked (minutes : num)
  | NodeOffline (minutes : num)
  | RunnerReleaseExpiring.

Definition condition_kind (c : alert_condition) : string :=
  match c with
  | WorkerOffline _ => "worker-offline"
  | ProfileNoReadyWorker => "profile-no-ready-worker"
  | ProfileReadinessDegraded => "profile-readiness-degraded"
  | ProfileLabelConflict => "profile-label-conflict"
  | QueueBacklog _ => "queue-backlog"
  | FailureRate _ _ _ => "failure-rate"
  | ConsecutiveFailures _ => "consecutive-failures"
  | AttemptDuration _ => "attempt-duration"
  | ControllerSilent _ => "controller-silent"
  | NodeCommandsBlocked _ => "node-commands-blocked"
  | NodeOffline _ => "node-offline"
  | RunnerReleaseExpiring => "runner-release-expiring"
  end.

Definition ALERT_HISTORY_WINDOW_MS : Z := 24 * 60 * 60000.
Definition WEEK_MINUTES : Z := 7 * 24 * 60.

Definition integerIn (value : num) (lo hi : Z) : bool :=
  match num_integer value with Some z => (lo <=? z) && (z <=? hi) | None => false end.

(** [Math.ceil(ms / 60_000)] *)
Definition ceil_minutes (ms : Z) : Z := (ms + 59999) / 60000.

Definition conditionError (c : alert_condition) : option string :=
  let minutes_or m lo message := if integerIn m lo WEEK_MINUTES then None else Some message in
  match c with
  | WorkerOffline m =>
      let floor := WORKER_OFFLINE_AFTER_MS / 60000 in
      minutes_or m floor ("Offline minutes must be a whole number from " +:+ json_Z floor +:+ " to 10080")
  | ControllerSilent m =>
      let floor := ceil_minutes CONTROLLER_OFFLINE_AFTER_MS in
      minutes_or m floor ("Silent minutes must be a whole number from " +:+ json_Z floor +:+ " to 10080")
  | NodeOffline m =>
      let floor := ceil_minutes NODE_SILENCE_MS in
      minutes_or m floor ("Offline minutes must be a whole number from " +:+ json_Z floor +:+ " to 10080")
  | QueueBacklog m | AttemptDuration m | NodeCommandsBlocked m =>
      minutes_or m 1 "Minutes must be a whole number from 1 to 10080"
  | FailureRate percent windowMinutes minAttempts =>
      if negb (num_ltb (num_of_Z 0) percent && num_leb percent (num_of_Z 100)) then
        Some "Failure rate must be above 0 and at most 100 percent"
      else if negb (integerIn windowMinutes 5 (ALERT_HISTORY_WINDOW_MS / 60000)) then
        Some "The failure-rate window must be 5 to 1440 minutes"
      else if integerIn minAttempts 1 200 then None
      else Some "Minimum Attempts must be a whole number from 1 to 200"
  | ConsecutiveFailures count =>
      if integerIn count 1 50 then None else Some "Consecutive failures must be a whole number from 1 to 50"
  | ProfileNoReadyWorker | ProfileReadinessDegraded | ProfileLabelConflict | RunnerReleaseExpiring => None
  end.

(** ** Text *)

Record breach := Breach { br_subject : string; br_summary : string }.

Definition formatAge (ms : Z) : string :=
  let minutes := ms / 60000 in
  if minutes <? 60 then json_Z minutes +:+ "m"
  else
    let hours := minutes / 60 in
    if hours <? 48 then json_Z hours +:+ "h " +:+ json_Z (Z.rem minutes 60) +:+ "m"
    else json_Z (hours / 24) +:+ "d " +:+ json_Z (Z.rem hours 24) +:+ "h".

Definition plural (count : Z) (noun : string) : string := json_Z count +:+ " " +:+ noun +:+ (if count =? 1 then "" else "s").

Definition latestFailure (failures : list finished_attempt) : string :=
  match head (omap fa_error failures) with Some e => " The latest failure: " +:+ e | None => "" end.

Definition readiness_name (st : readiness_state) : string :=
  match st with RPreparing => "preparing" | RReady => "ready" | RDegraded => "degraded" | RFailed => "failed" end.

(** [COMMANDS_BLOCKED_REASONS] (nodeCommandModel.ts) and [describeBlocked] *)
Definition blocked_reasons : list (string * string) :=
  [("journal_full", "its execution journal is full of commands Convex has not finished or does not know, so new builds, deploys and operations are refused");
   ("journal_error", "its execution journal cannot be written");
   ("command_api", "the Node API refuses or fails its command requests");
   ("command_error", "running its commands fails")].
Definition describeBlocked (reason : string) : string :=
  match map_get reason blocked_reasons with Some text => text +:+ " (" +:+ reason +:+ ")" | None => reason end.

Definition isoDay (ms : Z) : string := slice0 10 (iso_string ms).

Definition describeRunnerRelease (profileName : string) (c : release_clock) (now : Z) : string :=
  let subject := "Profile " +:+ profileName +:+ "'s image runs actions/runner " +:+ rc_version c in
  let fix_ := "Rebuild the image on actions/runner " +:+ rl_version (rc_newest c) +:+ " and move the Profile to it." in
  if rc_successorBeforeList c then
    subject +:+ ", older than every release GitHub lists, so GitHub no longer sends it jobs. " +:+ fix_
  else
    let clock := "GitHub published " +:+ rl_version (rc_successor c) +:+ " on " +:+ isoDay (rl_publishedAt (rc_successor c)) in
    if rc_state c === RelExpired then
      subject +:+ ". " +:+ clock +:+ ", so it stopped sending jobs to " +:+ rc_version c +:+ " on " +:+ isoDay (rc_deadline c) +:+
      ", " +:+ formatAge (now - rc_deadline c) +:+ " ago. " +:+ fix_
    else
      subject +:+ ". " +:+ clock +:+ ", so it stops sending jobs to " +:+ rc_version c +:+ " on " +:+ isoDay (rc_deadline c) +:+
      ", in " +:+ formatAge (rc_deadline c - now) +:+ ". " +:+ fix_.

Definition describeSilentController (p : observed_profile) (silentMs now : Z) : string :=
  let subject := "Profile " +:+ op_name p +:+ " has had no listening controller for " +:+ formatAge silentMs in
  match lv_primary (op_controller p) with
  | None => subject +:+ "."
  | Some primary =>
      let who := hb_hostname primary +:+ " (" +:+ hb_version primary +:+ ")" in
      let why := match hb_lastError primary with Some e => ": " +:+ e | None => "" end in
      match lv_status (op_controller p) with
      | StWaiting =>
          if hb_sessionState primary === SStandby then
            subject +:+ "; " +:+ who +:+ " is standing by, waiting for the Profile's controller lease" +:+ why
          else if hb_sessionState primary === SConflict then
            subject +:+ "; " +:+ who +:+ " is reporting but GitHub refuses it the session because another one exists" +:+ why
          else subject +:+ "; " +:+ who +:+ " is reporting but has not opened a session yet" +:+ why
      | _ =>
          let last := match lv_lastHeartbeatAt (op_controller p) with
            | Some t => " " +:+ formatAge (Z.max 0 (now - t)) +:+ " ago" | None => "" end in
          if hb_sessionState primary === SStopped then subject +:+ "; " +:+ who +:+ " stopped" +:+ last +:+ why
          else subject +:+ "; the last report came from " +:+ who +:+ last +:+ "."
      end
  end.

Definition describeCondition (c : alert_condition) : string :=
  match c with
  | WorkerOffline m => "Worker offline for " +:+ num_text m +:+ "m"
  | ProfileNoReadyWorker => "Profile has no ready Worker"
  | ProfileReadinessDegraded => "Worker readiness degraded or failed"
  | ProfileLabelConflict => "Profiles' scale-set labels overlap"
  | QueueBacklog m => "Oldest queued Attempt older than " +:+ num_text m +:+ "m"
  | FailureRate p w n => num_text p +:+ "% of Attempts failed over " +:+ num_text w +:+ "m (at least " +:+ num_text n +:+ ")"
  | ConsecutiveFailures n => num_text n +:+ " consecutive failed Attempts"
  | AttemptDuration m => "Attempt running longer than " +:+ num_text m +:+ "m"
  | ControllerSilent m => "No controller listening for " +:+ num_text m +:+ "m"
  | NodeCommandsBlocked m => "Node unable to run commands for " +:+ num_text m +:+ "m"
  | NodeOffline m => "Node offline for " +:+ num_text m +:+ "m"
  | RunnerReleaseExpiring => "Image's actions/runner within 5 days of GitHub's cutoff or past it"
  end.

(** ** Evaluation *)

Section evaluate.
Context (scope : option string) (o : fleet_observation).
Let now := fo_now o.

Definition profilesInScope : list observed_profile :=
  filter (λ p, op_state p = ProfileActive ∧ (scope = None ∨ scope = Some (op_name p))) (fo_profiles o).

(** [age >= minutes * 60_000] *)
Definition reaches (age : Z) (minutes : num) : bool := num_leb (f_mul minutes (num_of_Z 60000)) (num_of_Z age).

Definition decided (p : observed_profile) (since : num) : list finished_attempt :=
  filter (λ a, num_leb since (num_of_Z (fa_finishedAt a)) = true ∧ (fa_outcome a = OutSucceeded ∨ fa_outcome a = OutFailed)) (op_recentFinished p).

Definition worker_offline (minutes : num) : list breach :=
  let scoped := (λ s, p ← filter (λ p, op_name p = s) (fo_profiles o); ow_machineId <$> op_workers p) <$> scope in
  omap (λ m,
    if (0 <? om_lastSeen m) && reaches (now - om_lastSeen m) minutes &&
       match scoped with None => true | Some ids => bool_decide (om_id m ∈ ids) end
    then Some (Breach (om_name m)
      ("Worker " +:+ om_name m +:+ " has not sent a heartbeat for " +:+ formatAge (now - om_lastSeen m) +:+ "."))
    else None) (fo_machines o).

Definition no_ready_worker (p : observed_profile) : option breach :=
  if existsb ow_schedulable (op_workers p) then None
  else
    let withDetail := existsb (λ w, is_some (ow_detail w)) (op_workers p) in
    let reported := (λ w, ow_machineName w +:+ " " +:+ readiness_name (ow_state w) +:+
      match ow_detail w with Some d => ": " +:+ d | None => "" end) <$> op_workers p in
    let one := Nat.eqb (length (op_workerLabels p)) 1 in
    let pinned := if Nat.eqb (length (op_workerLabels p)) 0 then ""
      else " It is pinned to the " +:+ (if one then "host label" else "host labels") +:+ " " +:+ str_join ", " (op_workerLabels p) +:+
        "; only Workers carrying " +:+ (if one then "it" else "every one") +:+ " count." in
    Some (Breach (op_name p)
      (if Nat.eqb (length reported) 0 then
         "Profile " +:+ op_name p +:+ " has no Worker reporting readiness for its current Image Release." +:+ pinned
       else "Profile " +:+ op_name p +:+ " has no schedulable Worker (" +:+
         str_join (if withDetail then "; " else ", ") reported +:+ ")." +:+ pinned)).

Definition label_conflict_breach (p : observed_profile) : option breach :=
  if Nat.eqb (length (op_labelConflicts p)) 0 then None
  else Some (Breach (op_name p) ("Profile " +:+ op_name p +:+
    " shares scale-set labels with another active Profile, so GitHub can run either one's jobs on the other: " +:+
    str_join "; " (op_labelConflicts p) +:+ ". Give one of them labels that do not include the other's name.")).

Definition readiness_degraded (p : observed_profile) : list breach :=
  (λ w, Breach (op_name p +:+ "/" +:+ ow_machineName w)
     ("Worker " +:+ ow_machineName w +:+ " reports " +:+ readiness_name (ow_state w) +:+ " readiness for Profile " +:+ op_name p +:+
      match ow_detail w with Some d => ": " +:+ d | None => "." end)) <$>
  filter (λ w, ow_state w = RDegraded ∨ ow_state w = RFailed) (op_workers p).

Definition queue_backlog (minutes : num) (p : observed_profile) : option breach :=
  oldest ← op_oldestPendingCreatedAt p;
  if num_ltb (num_of_Z (now - oldest)) (f_mul minutes (num_of_Z 60000)) then None
  else Some (Breach (op_name p) (plural (la_pending (op_liveAttempts p)) "Attempt" +:+ " queued on Profile " +:+ op_name p +:+
    "; the oldest has waited " +:+ formatAge (now - oldest) +:+ ".")).

Definition failure_rate (percent windowMinutes minAttempts : num) (p : observed_profile) : option breach :=
  let since := f_sub (num_of_Z now) (num_min (f_mul windowMinutes (num_of_Z 60000)) (num_of_Z ALERT_HISTORY_WINDOW_MS)) in
  let window := decided p since in
  if num_ltb (num_of_Z (Z.of_nat (length window))) minAttempts then None
  else
    let failures := filter (λ a, fa_outcome a = OutFailed) window in
    let rate := f_mul (f_div (num_of_Z (Z.of_nat (length failures))) (num_of_Z (Z.of_nat (length window)))) (num_of_Z 100) in
    if num_ltb rate percent then None
    else Some (Breach (op_name p) (json_Z (Z.of_nat (length failures)) +:+ " of " +:+ json_Z (Z.of_nat (length window)) +:+
      " Attempts on Profile " +:+ op_name p +:+ " failed in the last " +:+ num_text windowMinutes +:+ "m (" +:+
      num_text (math_round rate) +:+ "%)." +:+ latestFailure failures)).

(** The failures before the first other outcome. *)
Fixpoint streak (l : list finished_attempt) : list finished_attempt :=
  match l with
  | a :: l => if fa_outcome a === OutFailed then a :: streak l else []
  | [] => []
  end.

Definition consecutive_failures (count : num) (p : observed_profile) : option breach :=
  let failures := streak (decided p (num_of_Z (now - ALERT_HISTORY_WINDOW_MS))) in
  if num_ltb (num_of_Z (Z.of_nat (length failures))) count then None
  else Some (Breach (op_name p) ("The last " +:+ json_Z (Z.of_nat (length failures)) +:+ " finished Attempts on Profile " +:+ op_name p +:+
    " all failed." +:+ latestFailure failures)).

Definition controller_silent (minutes : num) (p : observed_profile) : option breach :=
  silentMs ← controllerSilentForMs (op_controller p) now;
  if num_ltb (num_of_Z silentMs) (f_mul minutes (num_of_Z 60000)) then None
  else Some (Breach (op_name p) (describeSilentController p silentMs now)).

Definition commands_blocked (minutes : num) (n : observed_node) : option breach :=
  reason ← on_commandsBlocked n;
  since ← on_commandsBlockedSince n;
  let blockedFor := (if on_online n then now else on_lastSeenAt n) - since in
  if num_ltb (num_of_Z blockedFor) (f_mul minutes (num_of_Z 60000)) then None
  else
    let keys := match on_journalKeys n with
      | None => ""
      | Some k => " Its journal holds " +:+ json_Z k +:+
          match on_journalKeyLimit n with Some l => " of " +:+ json_Z l | None => "" end +:+ " keys." end in
    let why := describeBlocked reason in
    Some (Breach (on_name n)
      (if on_online n then
         "Node " +:+ on_name n +:+ " has not been able to run commands for " +:+ formatAge blockedFor +:+ ": " +:+ why +:+ "." +:+ keys
       else "Node " +:+ on_name n +:+ " could not run commands for " +:+ formatAge blockedFor +:+ " before its heartbeats stopped " +:+
         formatAge (now - on_lastSeenAt n) +:+ " ago: " +:+ why +:+ "." +:+ keys)).

Definition node_offline (minutes : num) (n : observed_node) : option breach :=
  if negb (on_online n) && reaches (now - on_lastSeenAt n) minutes then
    Some (Breach (on_name n) ("Node " +:+ on_name n +:+ " has not sent a heartbeat for " +:+ formatAge (now - on_lastSeenAt n) +:+
      "; its Infra Agent or host is down, or it cannot reach Convex." +:+
      match on_commandsBlocked n with
      | Some reason => " Its last heartbeat said it could not run commands: " +:+ describeBlocked reason +:+ "."
      | None => "" end))
  else None.

(** A malformed stored release throws; [None] here. *)
Definition release_expiring (releases : list runner_release) (p : observed_profile) : option (option breach) :=
  match op_runnerVersion p with
  | None => Some None
  | Some v =>
      standing ← runnerReleaseStanding v releases now;
      Some (match standing with
            | Some (StandClock c) =>
                if (rc_state c === RelExpiring) || (rc_state c === RelExpired)
                then Some (Breach (op_name p) (describeRunnerRelease (op_name p) c now)) else None
            | _ => None
            end)
  end.

Definition attempt_duration (minutes : num) (p : observed_profile) : option breach :=
  let long := filter (λ a, reaches (now - ra_startedAt a) minutes = true) (op_running p) in
  longest ← head long;
  let what := str_join " " (filter (λ t, t ≠ "") (option_list (ra_repo longest) ++ option_list (ra_displayName longest))) in
  Some (Breach (op_name p) (plural (Z.of_nat (length long)) "Attempt" +:+ " on Profile " +:+ op_name p +:+ " running longer than " +:+
    num_text minutes +:+ "m; the longest is " +:+ ra_runnerName longest +:+
    (if Nat.eqb (String.length what) 0 then "" else " (" +:+ what +:+ ")") +:+ " at " +:+ formatAge (now - ra_startedAt longest) +:+ ".")).

(** [None] is the throw of a malformed release list. *)
Definition evaluateCondition (c : alert_condition) : option (list breach) :=
  match c with
  | WorkerOffline m => Some (worker_offline m)
  | ProfileNoReadyWorker => Some (omap no_ready_worker profilesInScope)
  | ProfileLabelConflict => Some (omap label_conflict_breach profilesInScope)
  | ProfileReadinessDegraded => Some (p ← profilesInScope; readiness_degraded p)
  | QueueBacklog m => Some (omap (queue_backlog m) profilesInScope)
  | FailureRate p w n => Some (omap (failure_rate p w n) profilesInScope)
  | ConsecutiveFailures n => Some (omap (consecutive_failures n) profilesInScope)
  | ControllerSilent m => Some (omap (controller_silent m) profilesInScope)
  | NodeCommandsBlocked m => Some (omap (commands_blocked m) (fo_nodes o))
  | NodeOffline m => Some (omap (node_offline m) (fo_nodes o))
  | RunnerReleaseExpiring =>
      match fo_runnerReleases o with
      | None => Some []
      | Some (releases, _) => found ← mapM (release_expiring releases) profilesInScope; Some (omap (λ b, b) found)
      end
  | AttemptDuration m => Some (omap (attempt_duration m) profilesInScope)
  end.
End evaluate.
