(* ===== verification/Alerts.v ===== *)
(** Alert rules, destinations, incidents and deliveries (packages/backend/convex/alerts.ts,
    alertDelivery.ts, alertNotify.ts).  The URL parser is the runtime's, a parameter. *)

From S2P Require Import Prelude JsLib Schema HostLabels Egress AppPolicy InfraSchema InfraStore Nodes.
From S2P Require Import DockerArgs JsText RunnerReleases FleetObservation AlertRules.

(** ** Tables *)

Inductive destination_kind := DestWebhook | DestSlack.
Inductive incident_status := IncPending | IncFiring | IncResolved.
Inductive notification_event := EvFiring | EvResolved | EvTest.
Inductive send_status := DlvPending | DlvDelivered | DlvFailed.
#[export] Instance destination_kind_eq_dec : EqDecision destination_kind.
Proof. solve_decision. Defined.
#[export] Instance incident_status_eq_dec : EqDecision incident_status.
Proof. solve_decision. Defined.
#[export] Instance notification_event_eq_dec : EqDecision notification_event.
Proof. solve_decision. Defined.
#[export] Instance send_status_eq_dec : EqDecision send_status.
Proof. solve_decision. Defined.

Record alert_destination := AlertDestination {
  ad_name : string;
  ad_kind : destination_kind;
  ad_url : string;
  ad_urlHint : string;
  ad_signingSecret : option string;
  ad_enabled : bool;
  ad_createdAt : Z;
  ad_updatedAt : Z;
}.
#[export] Instance alert_destination_rebuild : Rebuild alert_destination := λ d,
  AlertDestination (ad_name d) (ad_kind d) (ad_url d) (ad_urlHint d) (ad_signingSecret d) (ad_enabled d) (ad_createdAt d) (ad_updatedAt d).

Record alert_rule := AlertRule {
  ru_name : string;
  ru_condition : alert_condition;
  ru_profile : option string;
  ru_forMinutes : Z;
  ru_cooldownMinutes : Z;
  ru_mutedUntil : option num;
  ru_destinationIds : list Id;
  ru_enabled : bool;
  ru_createdAt : Z;
  ru_updatedAt : Z;
}.
#[export] Instance alert_rule_rebuild : Rebuild alert_rule := λ r,
  AlertRule (ru_name r) (ru_condition r) (ru_profile r) (ru_forMinutes r) (ru_cooldownMinutes r) (ru_mutedUntil r)
    (ru_destinationIds r) (ru_enabled r) (ru_createdAt r) (ru_updatedAt r).

Record alert_incident := AlertIncident {
  in_ruleId : Id;
  in_subject : string;
  in_status : incident_status;
  in_summary : string;
  in_since : Z;
  in_firedAt : option Z;
  in_resolvedAt : option Z;
  in_firingNotifiedAt : option Z;
  in_lastEvaluatedAt : Z;
}.
#[export] Instance alert_incident_rebuild : Rebuild alert_incident := λ i,
  AlertIncident (in_ruleId i) (in_subject i) (in_status i) (in_summary i) (in_since i) (in_firedAt i) (in_resolvedAt i)
    (in_firingNotifiedAt i) (in_lastEvaluatedAt i).

Record alert_delivery := AlertDelivery {
  dv_destinationId : Id;
  dv_incidentId : option Id;
  dv_event : notification_event;
  dv_body : string;
  dv_status : send_status;
  dv_attempts : Z;
  dv_createdAt : Z;
  dv_nextAttemptAt : option num;
  dv_deliveredAt : option Z;
  dv_lastStatusCode : option Z;
  dv_lastError : option string;
}.
#[export] Instance alert_delivery_rebuild : Rebuild alert_delivery := λ d,
  AlertDelivery (dv_destinationId d) (dv_incidentId d) (dv_event d) (dv_body d) (dv_status d) (dv_attempts d) (dv_createdAt d)
    (dv_nextAttemptAt d) (dv_deliveredAt d) (dv_lastStatusCode d) (dv_lastError d).

(** The tables, and the delivery actions scheduled, each with its delay. *)
Record alert_db := AlertDb {
  alertDestinations : table alert_destination;
  alertRules : table alert_rule;
  alertIncidents : table alert_incident;
  alertDeliveries : table alert_delivery;
  alertSchedule : list (num * Id);
}.
#[export] Instance alert_db_rebuild : Rebuild alert_db := λ s,
  AlertDb (alertDestinations s) (alertRules s) (alertIncidents s) (alertDeliveries s) (alertSchedule s).

Definition deliver_after (delay : num) (deliveryId : Id) : tx alert_db unit :=
  modify (λ s, s <| alertSchedule ::= λ l, l ++ [(delay, deliveryId)] |>).

Definition MAX_RULES : nat := 200.
Definition MAX_DESTINATIONS : nat := 50.
Definition MAX_OPEN_INCIDENTS_PER_RULE : nat := 1000.
Definition NAME_MAX_LENGTH : nat := 100.
Definition INCIDENT_RETENTION_MS : Z := 30 * 24 * 60 * 60000.
Definition ALERT_DELIVERY_RETENTION_MS : Z := 7 * 24 * 60 * 60000.
Definition RETENTION_BATCH : nat := 100.

(** ** alertNotify.ts *)

Definition MAX_SEND_ATTEMPTS : Z := 8.
Definition BASE_BACKOFF_MS : Z := 30000.
Definition MAX_BACKOFF_MS : Z := 60 * 60000.

(** [NotificationContent]; rule and incident ids are text. *)
Record notification := Notification {
  nt_event : notification_event;
  nt_ruleId : string;
  nt_ruleName : string;
  nt_ruleKind : string;
  nt_ruleCondition : string;
  nt_ruleProfile : option string;
  nt_incidentId : string;
  nt_subject : string;
  nt_summary : string;
  nt_since : Z;
  nt_firedAt : option Z;
  nt_resolvedAt : option Z;
  nt_sentAt : Z;
}.

Definition event_name (e : notification_event) : string :=
  match e with EvFiring => "firing" | EvResolved => "resolved" | EvTest => "test" end.
Definition json_or_null {A} (f : A → string) (o : option A) : string := match o with Some a => f a | None => "null" end.
Definition isoOrNull (t : option Z) : string := json_or_null (λ t, json_string (iso_string t)) t.

Definition webhookBody (n : notification) : string :=
  json_object [("version", "1"); ("event", json_string ("alert." +:+ event_name (nt_event n)));
    ("rule", json_object [("id", json_string (nt_ruleId n)); ("name", json_string (nt_ruleName n)); ("kind", json_string (nt_ruleKind n));
       ("condition", json_string (nt_ruleCondition n)); ("profile", json_or_null json_string (nt_ruleProfile n))]);
    ("incident", json_object [("id", json_string (nt_incidentId n)); ("subject", json_string (nt_subject n));
       ("summary", json_string (nt_summary n)); ("since", isoOrNull (Some (nt_since n))); ("firedAt", isoOrNull (nt_firedAt n));
       ("resolvedAt", isoOrNull (nt_resolvedAt n)); ("status", json_string (event_name (nt_event n)))]);
    ("sentAt", isoOrNull (Some (nt_sentAt n)))].

Definition slackEscape (text : string) : string :=
  str_join "" ((λ c : ascii, if Ascii.eqb c "&" then "&amp;" else if Ascii.eqb c "<" then "&lt;" else if Ascii.eqb c ">" then "&gt;"
                             else String c "") <$> String.list_ascii_of_string text).

Definition SLACK_HEADLINE (e : notification_event) : string :=
  match e with EvFiring => ":rotating_light: Firing" | EvResolved => ":white_check_mark: Resolved" | EvTest => ":wave: Test" end.

Definition middle_dot : string := String (ascii_of_nat 183) "".
Definition backtick : string := String (ascii_of_nat 96) "".
Definition line_feed : string := String (ascii_of_nat 10) "".

Definition slackBody (n : notification) : string :=
  let headline := SLACK_HEADLINE (nt_event n) +:+ ": " +:+ slackEscape (nt_ruleName n) in
  let lines := ["*" +:+ headline +:+ "*"; slackEscape (nt_summary n);
    "Subject " +:+ backtick +:+ slackEscape (nt_subject n) +:+ backtick +:+ " " +:+ middle_dot +:+ " " +:+ slackEscape (nt_ruleCondition n)] in
  json_object [("text", json_string (headline +:+ ": " +:+ slackEscape (nt_summary n)));
    ("blocks", json_array [json_object [("type", json_string "section");
       ("text", json_object [("type", json_string "mrkdwn"); ("text", json_string (str_join line_feed lines))])]])].

Inductive send_outcome :=
  | SendDelivered (statusCode : Z)
  | SendRetry (statusCode : option Z) (error : string) (retryAfterMs : option num)
  | SendPermanent (statusCode : option Z) (error : string).

(** A header that is absent reads as [Number(null)], zero. *)
Definition classifyResponse (statusCode : Z) (retryAfterHeader : option string) : send_outcome :=
  if (200 <=? statusCode) && (statusCode <? 300) then SendDelivered statusCode
  else if (statusCode =? 408) || (statusCode =? 429) || (500 <=? statusCode) then
    let seconds := or_else (num_of_Z 0) (js_number <$> retryAfterHeader) in
    SendRetry (Some statusCode) ("HTTP " +:+ json_Z statusCode)
      (match seconds with
       | Fin q => if num_ltb (num_of_Z 0) seconds then Some (num_min (f_mul seconds (num_of_Z 1000)) (num_of_Z MAX_BACKOFF_MS)) else None
       | _ => None
       end)
  else SendPermanent (Some statusCode) ("HTTP " +:+ json_Z statusCode).

(** [random] is the draw of [Math.random()]. *)
Definition deliveryBackoffMs (attempts : Z) (random : num) (retryAfterMs : option num) : num :=
  let exponential := Z.min (BASE_BACKOFF_MS * 2 ^ Z.max 0 (attempts - 1)) MAX_BACKOFF_MS in
  let jittered := math_round (f_mul (num_of_Z exponential) (f_add (num_of_Z 1) (f_mul (lit (2 # 10)) random))) in
  num_max jittered (or_else (num_of_Z 0) retryAfterMs).

(** The parts of [new URL(raw)] the code reads; [None] is its throw. *)
Record url_view := UrlView { uv_protocol : string; uv_username : string; uv_password : string; uv_host : string; uv_pathname : string }.

Section alerts.
Context (parseUrl : string → option url_view).

Fixpoint drop_slashes (l : list ascii) : list ascii :=
  match l with c :: l' => if Ascii.eqb c "/" then drop_slashes l' else l | [] => [] end.

(** The last four characters of the path, without the slashes it ends in.  The ellipsis of the
    source is outside the character set of the model and is written as three dots. *)
Definition urlHint (raw : string) : option string :=
  (λ u, let path := reverse (drop_slashes (reverse (String.list_ascii_of_string (uv_pathname u)))) in
        uv_protocol u +:+ "//" +:+ uv_host u +:+ "/..." +:+ String.string_of_list_ascii (drop (length path - 4) path)) <$> parseUrl raw.

Definition destinationUrlError (raw : string) : option string :=
  match parseUrl raw with
  | None => Some "Enter a full URL, starting with https://"
  | Some u =>
      if uv_protocol u !== "https:" then Some "The URL must use https"
      else if (uv_username u !== "") || (uv_password u !== "") then Some "Remove the user name and password from the URL"
      else None
  end.

(** ** Destinations *)

(** [requireDashboardAuth] (dashboardAuth.ts): the session, the account of its subject if there is
    one, and the role the account stores. *)
Definition requireDashboardAuth (identity : option (option (option permission_role))) : tx alert_db unit :=
  match identity with
  | None => throw "Authentication required"
  | Some (Some stored) =>
      if isDashboardAdmin (effectiveRole stored) then mret tt
      else throw ("The " +:+ role_name (effectiveRole stored) +:+ " role cannot use this")
  | Some None => mret tt
  end.

Definition cleanName (name what : string) : tx alert_db string :=
  let trimmed := trim name in
  if Nat.eqb (String.length trimmed) 0 || Nat.ltb NAME_MAX_LENGTH (String.length trimmed)
  then throw ("Give the " +:+ what +:+ " a name of 1 to " +:+ json_Z (Z.of_nat NAME_MAX_LENGTH) +:+ " characters")
  else mret trimmed.

(** [bytes] are the 32 random bytes. *)
Definition newSigningSecret (bytes : list nat) : string := "whsec_" +:+ str_join "" (hex_byte <$> bytes).

(** A URL that passed [destinationUrlError] parses. *)
Definition url_and_hint (raw : string) : tx alert_db (string * string) :=
  let url := trim raw in
  match destinationUrlError url with
  | Some e => throw e
  | None => match urlHint url with Some hint => mret (url, hint) | None => throw "Invalid URL" end
  end.

Section operator.
Context (identity : option (option (option permission_role))) (now : Z).

Definition createDestination (name : string) (kind : destination_kind) (url : string) (bytes : list nat)
    : tx alert_db (Id * option string) :=
  requireDashboardAuth identity ≫= λ _,
  name ← cleanName name "destination";
  uh ← url_and_hint url;
  existing ← read (λ s, take MAX_DESTINATIONS (t_scan (alertDestinations s)));
  if Nat.leb MAX_DESTINATIONS (length existing) then
    throw ("A deployment can have at most " +:+ json_Z (Z.of_nat MAX_DESTINATIONS) +:+ " destinations")
  else
    let signingSecret := if kind === DestWebhook then Some (newSigningSecret bytes) else None in
    id ← db_insert alertDestinations (AlertDestination name kind uh.1 uh.2 signingSecret true now now);
    mret (id, signingSecret).

Definition updateDestination (i : Id) (name url : option string) (enabled : option bool) : tx alert_db unit :=
  requireDashboardAuth identity ≫= λ _,
  destination ← db_get alertDestinations i;
  match destination with
  | None => throw "Destination not found"
  | Some _ =>
      name ← match name with Some n => n ← cleanName n "destination"; mret (Some n) | None => mret None end;
      uh ← match url with Some u => r ← url_and_hint u; mret (Some r) | None => mret None end;
      db_patch alertDestinations i (λ d, d <| ad_updatedAt := now |> <| ad_name := or_else (ad_name d) name |>
        <| ad_url := or_else (ad_url d) (fst <$> uh) |> <| ad_urlHint := or_else (ad_urlHint d) (snd <$> uh) |>
        <| ad_enabled := or_else (ad_enabled d) enabled |>)
  end.

Definition rotateSigningSecret (i : Id) (bytes : list nat) : tx alert_db string :=
  requireDashboardAuth identity ≫= λ _,
  destination ← db_get alertDestinations i;
  match destination with
  | None => throw "Destination not found"
  | Some d =>
      if ad_kind d !== DestWebhook then throw "Only generic webhooks are signed"
      else
        let signingSecret := newSigningSecret bytes in
        db_patch alertDestinations i (λ d, d <| ad_signingSecret := Some signingSecret |> <| ad_updatedAt := now |>) ≫= λ _,
        mret signingSecret
  end.

Definition deleteDestination (i : Id) : tx alert_db unit :=
  requireDashboardAuth identity ≫= λ _,
  destination ← db_get alertDestinations i;
  match destination with
  | None => mret tt
  | Some _ =>
      rules ← read (λ s, take MAX_RULES (t_scan (alertRules s)));
      for_each rules (λ r : Id * alert_rule,
        when (bool_decide (i ∈ ru_destinationIds r.2))
          (db_patch alertRules r.1 (λ d, d <| ru_destinationIds := filter (λ j, j ≠ i) (ru_destinationIds r.2) |> <| ru_updatedAt := now |>))) ≫= λ _,
      db_delete alertDestinations i
  end.

(** ** Deliveries *)

Definition enqueueDelivery (destination : Id * alert_destination) (incidentId : option Id) (content : notification) : tx alert_db unit :=
  deliveryId ← db_insert alertDeliveries (AlertDelivery destination.1 incidentId (nt_event content)
    (if ad_kind destination.2 === DestSlack then slackBody content else webhookBody content)
    DlvPending 0 (nt_sentAt content) (Some (num_of_Z (nt_sentAt content))) None None None);
  deliver_after (num_of_Z 0) deliveryId.

Definition sendTest (i : Id) : tx alert_db unit :=
  requireDashboardAuth identity ≫= λ _,
  destination ← db_get alertDestinations i;
  match destination with
  | None => throw "Destination not found"
  | Some d =>
      enqueueDelivery (i, d) None (Notification EvTest "test" "Test notification" "test" "Sent from the dashboard" None
        "test" (ad_name d) "This is a test notification from EraInfra. No action is needed." now None None now)
  end.

(** ** Rules *)

Record rule_args := RuleArgs {
  rg_name : string;
  rg_condition : alert_condition;
  rg_profile : option string;
  rg_forMinutes : num;
  rg_cooldownMinutes : num;
  rg_destinationIds : list Id;
}.

(** [[...new Set(l)]] *)
Definition dedup (l : list Id) : list Id := (map_of ((λ i, (i, tt)) <$> l)).*1.

Record rule_fields := RuleFields {
  rf_name : string; rf_profile : option string; rf_forMinutes : Z; rf_cooldownMinutes : Z; rf_destinationIds : list Id }.

Definition validateRule (a : rule_args) (existingId : option Id) : tx alert_db rule_fields :=
  name ← cleanName (rg_name a) "rule";
  match conditionError (rg_condition a) with
  | Some e => throw e
  | None =>
      match num_integer (rg_forMinutes a), num_integer (rg_cooldownMinutes a) with
      | Some forMinutes, cooldown =>
          if (forMinutes <? 0) || (24 * 60 <? forMinutes) then throw "Pending minutes must be a whole number from 0 to 1440"
          else match cooldown with
          | Some cooldownMinutes =>
              if (cooldownMinutes <? 0) || (7 * 24 * 60 <? cooldownMinutes) then throw "Cooldown minutes must be a whole number from 0 to 10080"
              else
                let destinationIds := dedup (rg_destinationIds a) in
                for_each destinationIds (λ i, d ← db_get alertDestinations i;
                  match d with None => throw "A destination no longer exists" | Some _ => mret tt end) ≫= λ _,
                rules ← read (λ s, take MAX_RULES (t_scan (alertRules s)));
                if is_none existingId && Nat.leb MAX_RULES (length rules) then
                  throw ("A deployment can have at most " +:+ json_Z (Z.of_nat MAX_RULES) +:+ " rules")
                else if existsb (λ r : Id * alert_rule, (ru_name r.2 === name) && (existingId !== Some r.1)) rules then
                  throw ("A rule named " +:+ in_quotes name +:+ " already exists")
                else
                  let profile := trim <$> rg_profile a in
                  mret (RuleFields name (match profile with Some p => if Nat.eqb (String.length p) 0 then None else Some p | None => None end)
                    forMinutes cooldownMinutes destinationIds)
          | None => throw "Cooldown minutes must be a whole number from 0 to 10080"
          end
      | None, _ => throw "Pending minutes must be a whole number from 0 to 1440"
      end
  end.

Definition createRule (a : rule_args) : tx alert_db Id :=
  requireDashboardAuth identity ≫= λ _,
  f ← validateRule a None;
  db_insert alertRules (AlertRule (rf_name f) (rg_condition a) (rf_profile f) (rf_forMinutes f) (rf_cooldownMinutes f) None
    (rf_destinationIds f) true now now).

Definition updateRule (i : Id) (a : rule_args) : tx alert_db unit :=
  requireDashboardAuth identity ≫= λ _,
  existing ← db_get alertRules i;
  match existing with
  | None => throw "Rule not found"
  | Some _ =>
      f ← validateRule a (Some i);
      db_patch alertRules i (λ r, r <| ru_name := rf_name f |> <| ru_condition := rg_condition a |> <| ru_profile := rf_profile f |>
        <| ru_forMinutes := rf_forMinutes f |> <| ru_cooldownMinutes := rf_cooldownMinutes f |>
        <| ru_destinationIds := rf_destinationIds f |> <| ru_updatedAt := now |>)
  end.

Definition incidents_in (st : incident_status) (ruleId : Id) : tx alert_db (list (Id * alert_incident)) :=
  read (λ s, take MAX_OPEN_INCIDENTS_PER_RULE
    (t_where (λ i, (in_ruleId i === ruleId) && (in_status i === st)) (alertIncidents s))).

Definition openIncidents (ruleId : Id) : tx alert_db (list (Id * alert_incident)) :=
  pending ← incidents_in IncPending ruleId;
  firing ← incidents_in IncFiring ruleId;
  mret (pending ++ firing).

Definition setRuleEnabled (i : Id) (enabled : bool) : tx alert_db unit :=
  requireDashboardAuth identity ≫= λ _,
  rule ← db_get alertRules i;
  match rule with
  | None => throw "Rule not found"
  | Some _ =>
      when (negb enabled) (open ← openIncidents i;
        for_each open (λ r : Id * alert_incident,
          if in_status r.2 === IncPending then db_delete alertIncidents r.1
          else db_patch alertIncidents r.1 (λ d, d <| in_status := IncResolved |> <| in_resolvedAt := Some now |>))) ≫= λ _,
      db_patch alertRules i (λ r, r <| ru_enabled := enabled |> <| ru_updatedAt := now |>)
  end.

Definition muteRule (i : Id) (until : option num) : tx alert_db unit :=
  requireDashboardAuth identity ≫= λ _,
  rule ← db_get alertRules i;
  match rule with
  | None => throw "Rule not found"
  | Some _ =>
      if match until with
         | Some u => num_leb u (num_of_Z now) || num_ltb (num_of_Z (now + 30 * 24 * 60 * 60000)) u
         | None => false end
      then throw "Mute for between a minute and 30 days"
      else db_patch alertRules i (λ r, r <| ru_mutedUntil := until |> <| ru_updatedAt := now |>)
  end.

Definition deleteRule (i : Id) : tx alert_db unit :=
  requireDashboardAuth identity ≫= λ _,
  rule ← db_get alertRules i;
  match rule with
  | None => mret tt
  | Some _ =>
      incidents ← read (λ s, take 5000 (to_sorted (λ a b : Id * alert_incident, str_cmp (in_subject a.2) (in_subject b.2))
        (t_where (λ d, in_ruleId d === i) (alertIncidents s))));
      for_each incidents (λ r : Id * alert_incident, db_delete alertIncidents r.1) ≫= λ _,
      db_delete alertRules i
  end.
End operator.
End alerts.

(** ** Evaluation *)

Section evaluation.
Context (now : Z).

Definition notificationContent (rule : Id * alert_rule) (incident : Id * alert_incident) (event : notification_event) : notification :=
  Notification event (id_text rule.1) (ru_name rule.2) (condition_kind (ru_condition rule.2)) (describeCondition (ru_condition rule.2))
    (ru_profile rule.2) (id_text incident.1) (in_subject incident.2) (in_summary incident.2) (in_since incident.2)
    (in_firedAt incident.2) (in_resolvedAt incident.2) now.

Definition announce (rule : Id * alert_rule) (incident : Id * alert_incident) (event : notification_event) : tx alert_db unit :=
  let content := notificationContent rule incident event in
  for_each (ru_destinationIds rule.2) (λ destinationId,
    destination ← db_get alertDestinations destinationId;
    match destination with
    | Some d => when (ad_enabled d) (enqueueDelivery (destinationId, d) (Some incident.1) content)
    | None => mret tt
    end).

(** The ten newest incidents of the subject, the given one left out. *)
Definition lastFiringNotice (ruleId : Id) (subject : string) (except : Id) : tx alert_db (option Z) :=
  recent ← read (λ s, take 10 (reverse (t_where (λ i, (in_ruleId i === ruleId) && (in_subject i === subject)) (alertIncidents s))));
  mret (foldl (λ latest (r : Id * alert_incident),
    if r.1 === except then latest
    else match in_firingNotifiedAt r.2 with
    | None => latest
    | Some t => Some (Z.max (or_else 0 latest) t)
    end) None recent).

Definition is_muted (r : alert_rule) : bool :=
  match ru_mutedUntil r with Some u => num_ltb (num_of_Z now) u | None => false end.

(** The incident of a breaching subject, after the pass looked at it. *)
Definition observe_breach (rule : Id * alert_rule) (open : list (string * (Id * alert_incident))) (subject summary : string)
    : tx alert_db (Id * alert_incident) :=
  let forMs := ru_forMinutes rule.2 * 60000 in
  match map_get subject open with
  | None =>
      let firesNow := forMs =? 0 in
      let row := AlertIncident rule.1 subject (if firesNow then IncFiring else IncPending) summary now
                   (if firesNow then Some now else None) None None now in
      i ← db_insert alertIncidents row;
      mret (i, row)
  | Some (i, incident) =>
      let fires := (in_status incident === IncPending) && (forMs <=? now - in_since incident) in
      db_patch alertIncidents i (λ d,
        let d := d <| in_summary := summary |> <| in_lastEvaluatedAt := now |> in
        if fires then d <| in_status := IncFiring |> <| in_firedAt := Some now |> else d) ≫= λ _,
      let seen := incident <| in_summary := summary |> in
      mret (i, if fires then seen <| in_status := IncFiring |> <| in_firedAt := Some now |> else seen)
  end.

Definition visit_breach (rule : Id * alert_rule) (open : list (string * (Id * alert_incident))) (b : string * string) : tx alert_db unit :=
  incident ← observe_breach rule open b.1 b.2;
  if (in_status incident.2 !== IncFiring) || is_some (in_firingNotifiedAt incident.2) || is_muted rule.2 then mret tt
  else
    last ← lastFiringNotice rule.1 b.1 incident.1;
    if match last with Some t => now - t <? ru_cooldownMinutes rule.2 * 60000 | None => false end then mret tt
    else
      db_patch alertIncidents incident.1 (λ d, d <| in_firingNotifiedAt := Some now |>) ≫= λ _,
      announce rule incident EvFiring.

(** An open incident whose subject breaches no more. *)
Definition close_incident (rule : Id * alert_rule) (breaches : list (string * string)) (e : string * (Id * alert_incident)) : tx alert_db unit :=
  let '(i, incident) := e.2 in
  if bool_decide (in_subject incident ∈ breaches.*1) then mret tt
  else if in_status incident === IncPending then db_delete alertIncidents i
  else
    db_patch alertIncidents i (λ d, d <| in_status := IncResolved |> <| in_resolvedAt := Some now |> <| in_lastEvaluatedAt := now |>) ≫= λ _,
    when (is_some (in_firingNotifiedAt incident) && negb (is_muted rule.2))
      (announce rule (i, incident <| in_status := IncResolved |> <| in_resolvedAt := Some now |>) EvResolved).

Definition evaluateRule (rule : Id * alert_rule) (breaches : list (string * string)) : tx alert_db unit :=
  rows ← openIncidents rule.1;
  let open := map_of ((λ r : Id * alert_incident, (in_subject r.2, r)) <$> rows) in
  for_each breaches (visit_breach rule open) ≫= λ _,
  for_each open (close_incident rule breaches).

(** [q.eq("status", st).lt(column, cutoff)], a missing column before any number. *)
Definition older_than {A} (cutoff : Z) (f : A → option Z) (a : A) : bool :=
  match f a with Some t => t <? cutoff | None => true end.

Definition sweepRetention : tx alert_db unit :=
  oldIncidents ← read (λ s, take RETENTION_BATCH (to_sorted (λ a b : Id * alert_incident, or_else (-1) (in_resolvedAt a.2) - or_else (-1) (in_resolvedAt b.2))
    (t_where (λ i, (in_status i === IncResolved) && older_than (now - INCIDENT_RETENTION_MS) in_resolvedAt i) (alertIncidents s))));
  for_each oldIncidents (λ r : Id * alert_incident, db_delete alertIncidents r.1) ≫= λ _,
  for_each [DlvDelivered; DlvFailed] (λ st,
    oldDeliveries ← read (λ s, take RETENTION_BATCH (to_sorted (λ a b : Id * alert_delivery, dv_createdAt a.2 - dv_createdAt b.2)
      (t_where (λ d, (dv_status d === st) && (dv_createdAt d <? now - ALERT_DELIVERY_RETENTION_MS)) (alertDeliveries s))));
    for_each oldDeliveries (λ r : Id * alert_delivery, db_delete alertDeliveries r.1)).

Record evaluated_rule := EvaluatedRule { er_ruleId : Id; er_updatedAt : Z; er_breaches : list breach }.

Definition applyBreaches (rules : list evaluated_rule) : tx alert_db unit :=
  sweepRetention ≫= λ _,
  for_each rules (λ e,
    rule ← db_get alertRules (er_ruleId e);
    match rule with
    | Some r =>
        if negb (ru_enabled r) || (ru_updatedAt r !== er_updatedAt e) then mret tt
        else evaluateRule (er_ruleId e, r) (map_of ((λ b, (br_subject b, br_summary b)) <$> er_breaches e))
    | None => mret tt
    end).

(** [observation] is what [loadFleetObservation] read; the throw of a condition fails the query. *)
Definition computeBreaches (observation : fleet_observation) : tx alert_db (list evaluated_rule) :=
  rules ← read (λ s, take MAX_RULES (t_where (λ r, ru_enabled r) (alertRules s)));
  map_tx (λ r : Id * alert_rule,
    match evaluateCondition (ru_profile r.2) observation (ru_condition r.2) with
    | Some breaches => mret (EvaluatedRule r.1 (ru_updatedAt r.2) breaches)
    | None => throw "Not a runner version"
    end) rules.

(** ** alertDelivery.ts *)

Definition ERROR_MAX_LENGTH : nat := 300.

Inductive send_job :=
  | JobGone
  | JobRefused (reason : string)
  | JobReady (kind : destination_kind) (url : string) (signingSecret : option string) (event : notification_event) (body : string).

Definition loadForSend (deliveryId : Id) : tx alert_db send_job :=
  delivery ← db_get alertDeliveries deliveryId;
  match delivery with
  | None => mret JobGone
  | Some d =>
      if dv_status d !== DlvPending then mret JobGone
      else
        destination ← db_get alertDestinations (dv_destinationId d);
        mret (match destination with
              | None => JobRefused "The destination was deleted"
              | Some t => if ad_enabled t then JobReady (ad_kind t) (ad_url t) (ad_signingSecret t) (dv_event d) (dv_body d)
                          else JobRefused "The destination is disabled"
              end)
  end.

Definition status_of (o : send_outcome) : option Z :=
  match o with SendDelivered c => Some c | SendRetry c _ _ | SendPermanent c _ => c end.

(** [random] is the draw of [Math.random()]. *)
Definition recordOutcome (deliveryId : Id) (outcome : send_outcome) (random : num) : tx alert_db unit :=
  delivery ← db_get alertDeliveries deliveryId;
  match delivery with
  | None => mret tt
  | Some d =>
      if dv_status d !== DlvPending then mret tt
      else
        let attempts := dv_attempts d + 1 in
        let code d := or_opt (status_of outcome) (dv_lastStatusCode d) in
        match outcome with
        | SendDelivered _ =>
            db_patch alertDeliveries deliveryId (λ d, d <| dv_status := DlvDelivered |> <| dv_attempts := attempts |>
              <| dv_deliveredAt := Some now |> <| dv_nextAttemptAt := None |> <| dv_lastError := None |> <| dv_lastStatusCode := code d |>)
        | SendPermanent _ error =>
            db_patch alertDeliveries deliveryId (λ d, d <| dv_status := DlvFailed |> <| dv_attempts := attempts |>
              <| dv_nextAttemptAt := None |> <| dv_lastError := Some (slice0 ERROR_MAX_LENGTH error) |> <| dv_lastStatusCode := code d |>)
        | SendRetry _ error retryAfterMs =>
            if MAX_SEND_ATTEMPTS <=? attempts then
              db_patch alertDeliveries deliveryId (λ d, d <| dv_status := DlvFailed |> <| dv_attempts := attempts |>
                <| dv_nextAttemptAt := None |>
                <| dv_lastError := Some (slice0 ERROR_MAX_LENGTH error +:+ "; gave up after " +:+ json_Z attempts +:+ " attempts") |>
                <| dv_lastStatusCode := code d |>)
            else
              let delay := deliveryBackoffMs attempts random retryAfterMs in
              db_patch alertDeliveries deliveryId (λ d, d <| dv_attempts := attempts |>
                <| dv_nextAttemptAt := Some (f_add (num_of_Z now) delay) |>
                <| dv_lastError := Some (slice0 ERROR_MAX_LENGTH error) |> <| dv_lastStatusCode := code d |>) ≫= λ _,
              deliver_after delay deliveryId
        end
  end.
End evaluation.
