(* ===== verification/AlertProperties.v ===== *)
(** The incident lifecycle and the deliveries (packages/backend/convex/alerts.ts, alertDelivery.ts). *)

From S2P Require Import Prelude JsLib Schema HostLabels Egress AppPolicy InfraSchema InfraStore Nodes Frames.
From S2P Require Import JsText RunnerReleases FleetObservation AlertRules Alerts.

(** ** Open incidents *)

Definition is_open (d : alert_incident) : Prop := in_status d ≠ IncResolved.

(** The incident [i] is open for the rule and the subject. *)
Definition open_at (s : alert_db) (rule : Id) (subject : string) (i : Id) : Prop :=
  ∃ d, rows (alertIncidents s) !! i = Some d ∧ in_ruleId d = rule ∧ in_subject d = subject ∧ is_open d.

Record incidents_ok (s : alert_db) : Prop := {
  io_wf : t_wf (alertIncidents s);
  io_one : ∀ rule subject i j, open_at s rule subject i → open_at s rule subject j → i = j;
  io_few : ∀ rule (l : list Id), NoDup l → (∀ i, i ∈ l → ∃ subject, open_at s rule subject i) → (length l ≤ MAX_OPEN_INCIDENTS_PER_RULE)%nat;
}.

Definition same_incidents : relation alert_db := λ s s', alertIncidents s' = alertIncidents s.
#[export] Instance same_incidents_preorder : PreOrder same_incidents.
Proof. split; [by intros ?|]. unfold same_incidents. intros ??? -> ->. done. Qed.
Ltac si := acts_walk ltac:(exact eq_refl).

Section passes.
Context (now : Z).

Lemma announce_incidents rule incident event : acts same_incidents (announce now rule incident event).
Proof. unfold announce, enqueueDelivery, deliver_after. si. Qed.
Hint Resolve announce_incidents : acts.

Lemma open_at_same s s' rule subject i : alertIncidents s' = alertIncidents s → open_at s' rule subject i ↔ open_at s rule subject i.
Proof. unfold open_at. by intros ->. Qed.

(** A pass over a subject that has no open incident opens one, over another keeps its incident open. *)
Lemma visit_breach_open (rule : Id * alert_rule) open b s u s' :
  visit_breach now rule open b s = Done (u, s') → t_wf (alertIncidents s) →
  (∀ i d, map_get b.1 open = Some (i, d) → open_at s rule.1 b.1 i) →
  t_wf (alertIncidents s') ∧
  ∀ r x j, open_at s' r x j ↔ open_at s r x j ∨ (map_get b.1 open = None ∧ r = rule.1 ∧ x = b.1 ∧ j = next_id (alertIncidents s)).
Proof.
  intros H Hwf Hopen. unfold visit_breach in H. tx_bind_in H inc s1 H1.
  assert (t_wf (alertIncidents s1) ∧
    ∀ r x j, open_at s1 r x j ↔ open_at s r x j ∨ (map_get b.1 open = None ∧ r = rule.1 ∧ x = b.1 ∧ j = next_id (alertIncidents s))) as Hmid.
  { unfold observe_breach in H1. destruct (map_get b.1 open) as [[i d]|] eqn:Hg.
    - tx_bind_in H1 u1 s2 H2. injection H1 as <- <-. apply db_patch_done in H2 as (c & Hc & ->).
      destruct (Hopen i d eq_refl) as (c' & Hc' & Hr & Hx & Ho). replace c' with c in * by congruence.
      split; [by eapply t_wf_set|]. intros r x j. trans (open_at s r x j); [|by split; [left|intros [|[[=] _]]]].
      unfold open_at. simpl. destruct (decide (j = i)) as [->|Hne].
      + rewrite lookup_insert_eq. split.
        * intros (e & [= <-] & E1 & E2 & E3). exists c. split; [done|]. split; [|split; [|done]]; destruct (_ && _); done.
        * intros (e & He & E1 & E2 & E3). rewrite Hc in He. injection He as <-. eexists. split; [reflexivity|].
          destruct (_ && _); split_and!; done.
      + by rewrite lookup_insert_ne.
    - tx_bind_in H1 i s2 H2. injection H2 as <- <-. injection H1 as <- <-. split; [by apply t_wf_add|].
      intros r x j. unfold open_at. simpl. destruct (decide (j = next_id (alertIncidents s))) as [->|Hne].
      + rewrite lookup_insert_eq, (t_wf_fresh _ Hwf). split.
        * intros (e & [= <-] & <- & <- & _). by right.
        * intros [(e & [=] & _)|(_ & -> & -> & _)]. eexists. split; [reflexivity|]. simpl. split_and!; try done.
          by destruct (_ =? 0).
      + rewrite lookup_insert_ne by done. split; [by left|]. intros [|(_ & _ & _ & ->)]; done. }
  destruct (_ || _); [injection H as _ <-; done|]. tx_bind_in H notice s2 H2.
  unfold lastFiringNotice in H2. tx_bind_in H2 recent s3 H3. injection H3 as <- <-. injection H2 as _ <-.
  destruct (match notice with Some t => _ | None => _ end); [injection H as _ <-; done|].
  tx_bind_in H u1 s3 H3. apply db_patch_done in H3 as (c & Hc & ->). apply announce_incidents in H.
  destruct Hmid as [Hwf1 Hmid]. rewrite H. split; [by eapply t_wf_set|]. intros r x j. rewrite <- Hmid.
  rewrite (open_at_same _ _ r x j H). unfold open_at. simpl. destruct (decide (j = inc.1)) as [->|Hne].
  - rewrite lookup_insert_eq, Hc. split; intros (e & [= <-] & E); eexists; (split; [reflexivity|]); done.
  - by rewrite lookup_insert_ne.
Qed.

Lemma close_incident_open (rule : Id * alert_rule) breaches (e : string * (Id * alert_incident)) s u s' :
  close_incident now rule breaches e s = Done (u, s') → t_wf (alertIncidents s) →
  t_wf (alertIncidents s') ∧
  ∀ r x j, open_at s' r x j ↔ open_at s r x j ∧ (in_subject e.2.2 ∈ breaches.*1 ∨ j ≠ e.2.1).
Proof.
  intros H Hwf. destruct e as [k [i d]]. unfold close_incident in H. cbn [fst snd] in *.
  destruct (bool_decide_reflect (in_subject d ∈ breaches.*1)) as [Hin|Hni].
  { injection H as _ <-. split; [done|]. intros r x j. split; [by auto|by intros [? _]]. }
  destruct (in_status d === IncPending).
  - unfold db_delete in H. destruct (rows (alertIncidents s) !! i) eqn:Hi; [|done]. injection H as _ <-. split; [by apply t_wf_del|].
    intros r x j. unfold open_at. simpl. setoid_rewrite lookup_delete_Some. naive_solver.
  - tx_bind_in H u1 s1 H1. apply db_patch_done in H1 as (c & Hc & ->).
    match type of H with ?m ?st = _ => assert (alertIncidents s' = alertIncidents st) as Hsame end.
    { revert H. match goal with |- ?m ?st = _ → _ => cut (acts same_incidents m); [intros Ha; apply Ha|] end. si. }
    rewrite Hsame. split; [by eapply t_wf_set|]. intros r x j. rewrite (open_at_same _ _ r x j Hsame). unfold open_at. simpl.
    destruct (decide (j = i)) as [->|Hne].
    + rewrite lookup_insert_eq. split; [|by intros [_ [|]]]. intros (f & [= <-] & _ & _ & Hf). by destruct Hf.
    + rewrite lookup_insert_ne by done. naive_solver.
Qed.

(** The open incidents a pass starts from, complete because there are few. *)
Lemma openIncidents_spec ruleId s l s' :
  incidents_ok s → openIncidents ruleId s = Done (l, s') →
  s' = s ∧ NoDup (in_subject <$> l.*2) ∧ (∀ i d, (i, d) ∈ l ↔ rows (alertIncidents s) !! i = Some d ∧ in_ruleId d = ruleId ∧ is_open d).
Proof.
  intros [Hwf Hone Hfew] H. unfold openIncidents, incidents_in in H. tx_bind_in H pending s1 H1. injection H1 as <- <-.
  tx_bind_in H firing s2 H2. injection H2 as <- <-. injection H as <- <-. split; [done|].
  assert (∀ st, st ≠ IncResolved → take MAX_OPEN_INCIDENTS_PER_RULE (t_where (λ i, (in_ruleId i === ruleId) && (in_status i === st)) (alertIncidents s)) =
    t_where (λ i, (in_ruleId i === ruleId) && (in_status i === st)) (alertIncidents s)) as Htake.
  { intros st Hst. apply take_ge. rewrite <- (length_fmap fst). apply (Hfew ruleId); [apply NoDup_t_where_ids|].
    intros i ([i' d] & -> & Hin)%list_elem_of_fmap. apply (t_where_sound (alertIncidents s)) in Hin as [Hd [Hr Hs]%andb_true_iff]. simpl in *.
    apply bool_decide_eq_true in Hr, Hs. exists (in_subject d), d. unfold is_open. split_and!; congruence. }
  rewrite !Htake by done.
  assert (∀ i d, (i, d) ∈ t_where (λ i, (in_ruleId i === ruleId) && (in_status i === IncPending)) (alertIncidents s) ++
      t_where (λ i, (in_ruleId i === ruleId) && (in_status i === IncFiring)) (alertIncidents s) ↔
      rows (alertIncidents s) !! i = Some d ∧ in_ruleId d = ruleId ∧ is_open d) as Helem.
  { intros i d. rewrite elem_of_app, !elem_of_t_where, !andb_true_iff, !bool_decide_eq_true by done. unfold is_open. split.
    - intros [(Hd & Hr & Hs)|(Hd & Hr & Hs)]; split_and!; congruence.
    - intros (Hd & Hr & Hs). destruct (in_status d); [left|right|done]; auto. }
  split; [|done].
  assert (NoDup (t_where (λ i, (in_ruleId i === ruleId) && (in_status i === IncPending)) (alertIncidents s) ++
      t_where (λ i, (in_ruleId i === ruleId) && (in_status i === IncFiring)) (alertIncidents s)).*1) as Hnd.
  { rewrite fmap_app. apply NoDup_app. split; [apply NoDup_t_where_ids|]. split; [|apply NoDup_t_where_ids].
    intros i ([i' d] & -> & H1)%list_elem_of_fmap ([i'' d'] & E & H2)%list_elem_of_fmap. simpl in E. subst i''.
    apply (t_where_sound (alertIncidents s)) in H1 as [H1 [_ S1%bool_decide_eq_true]%andb_true_iff].
    apply (t_where_sound (alertIncidents s)) in H2 as [H2 [_ S2%bool_decide_eq_true]%andb_true_iff]. simpl in *. congruence. }
  revert Hnd Helem. generalize (t_where (λ i, (in_ruleId i === ruleId) && (in_status i === IncPending)) (alertIncidents s) ++
      t_where (λ i, (in_ruleId i === ruleId) && (in_status i === IncFiring)) (alertIncidents s)). clear Htake Hfew.
  intros l Hnd Helem. rewrite <- list_fmap_compose. apply NoDup_fmap_2_strong; [|by eapply NoDup_fmap_1].
  intros [i d] [j e] Hi Hj E. simpl in E. pose proof Hi as Hi'. apply Helem in Hi as (Hi & Ri & Oi). apply Helem in Hj as (Hj & Rj & Oj).
  assert (i = j) as -> by (eapply (Hone ruleId (in_subject d)); [by exists d|by exists e]). congruence.
Qed.

(** While the breaches are visited: [done_] are the subjects seen, [O] the incidents the pass began with. *)
Record visiting (rule : Id) (O : list (string * (Id * alert_incident))) (s0 : alert_db) (done_ : list string) (s : alert_db) : Prop := {
  vg_wf : t_wf (alertIncidents s);
  vg_one : ∀ r x i j, open_at s r x i → open_at s r x j → i = j;
  vg_other : ∀ r x j, r ≠ rule ∨ x ∉ done_ → open_at s r x j ↔ open_at s0 r x j;
  vg_seen : ∀ x, x ∈ done_ → ∃ j, open_at s rule x j;
  vg_kept : ∀ x i d, (x, (i, d)) ∈ O → open_at s rule x i;
}.

Lemma visit_all (rule : Id * alert_rule) O s0 (breaches : list (string * string)) done_ s u s' :
  (∀ x i, open_at s0 rule.1 x i → x ∈ O.*1) → NoDup (done_ ++ breaches.*1) →
  visiting rule.1 O s0 done_ s → for_each breaches (visit_breach now rule O) s = Done (u, s') →
  visiting rule.1 O s0 (done_ ++ breaches.*1) s'.
Proof.
  intros Hcomplete. revert done_ s. induction breaches as [|b l IH]; intros done_ s Hnd [Vw Vo Vr Vs Vk] H; simpl in H.
  { injection H as _ <-. by rewrite app_nil_r. }
  tx_bind_in H u1 s1 H1. rewrite fmap_cons, cons_middle, app_assoc in Hnd |- *.
  assert (b.1 ∉ done_) as Hb.
  { apply NoDup_app in Hnd as [Hnd _]. apply NoDup_app in Hnd as (_ & Hd & _). intros Hin. apply (Hd _ Hin). left. }
  apply visit_breach_open in H1 as [Hwf1 Hiff]; [|done|].
  2:{ intros i d Hg%map_get_elem. by eapply Vk. }
  apply (IH (done_ ++ [b.1]) s1); [done| |done]. split; [done|..].
  - intros r x i j Hi%Hiff Hj%Hiff.
    assert (map_get b.1 O = None → ∀ k, ¬ open_at s rule.1 b.1 k) as Hnone.
    { intros Hg%map_get_none k Hk. apply Hg, (Hcomplete _ k). apply (Vr rule.1 b.1 k); [by right|done]. }
    destruct Hi as [Hi|(Hg & -> & -> & ->)], Hj as [Hj|(Hg' & E1 & E2 & ->)]; subst; [by eapply Vo|..|done]; exfalso; naive_solver.
  - intros r x j Hx. rewrite Hiff, Vr; [|set_solver]. split; [|by left]. intros [|(_ & -> & -> & _)]; [done|]. set_solver.
  - intros x [Hx| ->%list_elem_of_singleton]%elem_of_app.
    + destruct (Vs x Hx) as [j Hj]. exists j. apply Hiff. by left.
    + destruct (map_get b.1 O) as [[i d]|] eqn:Hg.
      * exists i. apply Hiff. left. apply map_get_elem in Hg. by eapply Vk.
      * eexists. apply Hiff. right. split_and!; try reflexivity.
  - intros x i d Hin. apply Hiff. left. by eapply Vk.
Qed.

(** While they are closed: what breaches stays open, what does not is still to be visited. *)
Record closing (rule : Id) (breaches : list string) (s0 : alert_db) (rest : list (string * (Id * alert_incident))) (s : alert_db) : Prop := {
  cg_wf : t_wf (alertIncidents s);
  cg_one : ∀ r x i j, open_at s r x i → open_at s r x j → i = j;
  cg_other : ∀ r x j, r ≠ rule → open_at s r x j ↔ open_at s0 r x j;
  cg_breach : ∀ x, x ∈ breaches → ∃ j, open_at s rule x j;
  cg_rest : ∀ x j, x ∉ breaches → open_at s rule x j → ∃ d, (x, (j, d)) ∈ rest;
}.

Lemma close_all (rule : Id * alert_rule) (breaches : list (string * string)) s0 rest s u s' :
  (∀ x i d, (x, (i, d)) ∈ rest → in_subject d = x ∧ ∀ r y, open_at s r y i → r = rule.1 ∧ y = x) →
  closing rule.1 breaches.*1 s0 rest s → for_each rest (close_incident now rule breaches) s = Done (u, s') →
  closing rule.1 breaches.*1 s0 [] s'.
Proof.
  revert s. induction rest as [|[k [i d]] rest IH]; intros s Hrest [Cw Co Cr Cb Ce] H; simpl in H.
  { by injection H as _ <-. }
  tx_bind_in H u1 s1 H1. apply close_incident_open in H1 as [Hwf1 Hiff]; [|done]. cbn [fst snd] in Hiff.
  destruct (Hrest k i d ltac:(left)) as [Hsub Hown]. rewrite Hsub in Hiff.
  apply (IH s1); [| |done].
  - intros x j e Hin. destruct (Hrest x j e ltac:(by right)) as [? Hu]. split; [done|]. intros r y [Ho _]%Hiff. by apply Hu.
  - split; [done|..].
    + intros r x a b [Ha _]%Hiff [Hb _]%Hiff. by eapply Co.
    + intros r x j Hr. rewrite Hiff, <- Cr by done. split; [by intros [? _]|]. intros Ho. split; [done|].
      right. intros ->. apply Hown in Ho as [-> _]. done.
    + intros x Hx. destruct (Cb x Hx) as [j Hj]. exists j. apply Hiff. split; [done|].
      destruct (decide (j = i)) as [->|]; [|by right]. left. apply Hown in Hj as [_ ->]. done.
    + intros x j Hx [Ho Hor]%Hiff. destruct (Ce x j Hx Ho) as [e [[= -> -> ->]|Hin]%elem_of_cons]; [|by exists e]. by destruct Hor.
Qed.

(** The subjects of distinct open incidents are distinct. *)
Lemma open_subjects s rule (l : list Id) (xs : list string) :
  (∀ r x i j, open_at s r x i → open_at s r x j → i = j) → NoDup l →
  (∀ i, i ∈ l → ∃ x, open_at s rule x i) → (∀ x i, open_at s rule x i → x ∈ xs) → (length l ≤ length xs)%nat.
Proof.
  intros Hone Hnd Hl Hx. pose (subj i := match rows (alertIncidents s) !! i with Some d => in_subject d | None => "" end).
  assert (∀ i, i ∈ l → open_at s rule (subj i) i) as Hs.
  { intros i Hi. destruct (Hl i Hi) as (x & d & Hd & Hr & Hsx & Ho). exists d. unfold subj. by rewrite Hd. }
  rewrite <- (length_fmap subj l). apply submseteq_length, NoDup_submseteq.
  - apply NoDup_fmap_2_strong; [|done]. intros i j Hi Hj E. apply (Hone rule (subj i)); [by apply Hs|]. rewrite E. by apply Hs.
  - intros x (i & -> & Hi)%list_elem_of_fmap. eapply Hx, Hs, Hi.
Qed.

Lemma evaluateRule_open (rule : Id * alert_rule) (breaches : list (string * string)) s u s' :
  incidents_ok s → NoDup breaches.*1 → (length breaches ≤ MAX_OPEN_INCIDENTS_PER_RULE)%nat →
  evaluateRule now rule breaches s = Done (u, s') →
  incidents_ok s' ∧ (∀ x, (∃ i, open_at s' rule.1 x i) ↔ x ∈ breaches.*1) ∧
  ∀ r x i, r ≠ rule.1 → open_at s' r x i ↔ open_at s r x i.
Proof.
  intros Hok Hnd Hlen H. unfold evaluateRule in H. tx_bind_in H l s1 H1.
  apply (openIncidents_spec _ _ _ _ Hok) in H1 as (-> & Hsub & Helem). cbv zeta in H.
  rewrite map_of_id in H by (by rewrite <- list_fmap_compose; rewrite <- list_fmap_compose in Hsub).
  pose (O := (λ r : Id * alert_incident, (in_subject r.2, r)) <$> l). fold O in H. tx_bind_in H u1 s2 H2.
  assert (∀ x i d, (x, (i, d)) ∈ O → x = in_subject d ∧ rows (alertIncidents s) !! i = Some d ∧ in_ruleId d = rule.1 ∧ is_open d) as HO.
  { intros x i d ([i' d'] & [= -> -> ->] & Hin)%list_elem_of_fmap. simpl. by apply Helem in Hin. }
  assert (∀ x i, open_at s rule.1 x i → ∃ d, (x, (i, d)) ∈ O) as Hcomplete.
  { intros x i (d & Hd & Hr & <- & Ho). exists d. apply list_elem_of_fmap. exists (i, d). split; [done|]. by apply Helem. }
  apply (visit_all rule O s breaches []) in H2; [|..].
  2:{ intros x i (d & Hin)%Hcomplete. apply list_elem_of_fmap. by exists (x, (i, d)). }
  2:{ done. }
  2:{ split; [apply Hok|apply Hok|done|by intros ? ?%elem_of_nil|]. intros x i d Hin. apply HO in Hin as (-> & ? & ? & ?). by exists d. }
  destruct H2 as [Vw Vo Vr Vs Vk]. simpl in *.
  apply (close_all rule breaches s O) in H as [Cw Co Cr Cb Ce].
  - assert (∀ x i, open_at s' rule.1 x i → x ∈ breaches.*1) as Hin.
    { intros x i Ho. destruct (decide (x ∈ breaches.*1)) as [|Hx]; [done|]. by destruct (Ce x i Hx Ho) as [d []%elem_of_nil]. }
    split; [|split; [intros x; split; [intros [i Hi]; by eapply Hin|apply Cb]|intros r x i Hr; by apply Cr]].
    split; [done|done|]. intros r li Hndl Hli. destruct (decide (r = rule.1)) as [->|Hr].
    + etrans; [eapply (open_subjects s' rule.1 li breaches.*1); eauto|]. by rewrite length_fmap.
    + apply (io_few _ Hok r); [done|]. intros i [x Hx]%Hli. exists x. by apply Cr.
  - intros x i d Hin. pose proof (HO _ _ _ Hin) as (-> & Hd & Hr & Ho). split; [done|].
    intros r y (e & He & Er & Ey & Hoe). destruct (Vk _ _ _ Hin) as (e' & He' & Er' & Ey' & _). split; congruence.
  - split; [done|done| | |].
    + intros r x j Hr. apply Vr. by left.
    + intros x Hx. by apply Vs.
    + intros x j Hx Ho%(Vr rule.1 x j); [by apply Hcomplete|by right].
Qed.

(** ** Every operation *)

(** Opens nothing. *)
Definition shrinks : relation alert_db := λ s s',
  t_wf (alertIncidents s) → t_wf (alertIncidents s') ∧ ∀ r x i, open_at s' r x i → open_at s r x i.
#[export] Instance shrinks_preorder : PreOrder shrinks.
Proof. split; [by intros s|]. intros s1 s2 s3 H12 H23 Hwf. destruct (H12 Hwf) as [Hwf2 ?], (H23 Hwf2) as [? ?]. auto. Qed.

Lemma shrinks_ok s s' : shrinks s s' → incidents_ok s → incidents_ok s'.
Proof.
  intros Hs [Hwf Hone Hfew]. destruct (Hs Hwf) as [Hwf' Ho]. split; [done|by eauto|].
  intros r l Hnd Hl. apply (Hfew r); [done|]. intros i [x Hx]%Hl. exists x. auto.
Qed.
Lemma shrinks_same s s' : alertIncidents s' = alertIncidents s → shrinks s s'.
Proof. intros E Hwf. rewrite E. split; [done|]. intros r x i. by rewrite (open_at_same _ _ r x i E). Qed.
Lemma shrinks_delete s i : shrinks s (upd alertIncidents (t_del i) s).
Proof.
  intros Hwf. split; [by apply t_wf_del|]. intros r x j (d & Hd & ?). simpl in Hd.
  apply lookup_delete_Some in Hd as [_ Hd]. by exists d.
Qed.
Lemma shrinks_resolve s i d d' : rows (alertIncidents s) !! i = Some d → in_status d' = IncResolved →
  shrinks s (upd alertIncidents (t_set i d') s).
Proof.
  intros Hi Hr Hwf. split; [by eapply t_wf_set|]. intros r x j (e & He & E1 & E2 & Ho). simpl in He.
  apply lookup_insert_Some in He as [[<- <-]|[_ He]]; [done|by exists e].
Qed.
Ltac shrink := acts_walk ltac:(first [apply shrinks_same; reflexivity|apply shrinks_delete|eapply shrinks_resolve; [eassumption|reflexivity]]).

Lemma sweep_shrinks : acts shrinks (sweepRetention now).
Proof. unfold sweepRetention. shrink. Qed.

Definition same_rules : relation alert_db := λ s s', alertRules s' = alertRules s.
#[export] Instance same_rules_preorder : PreOrder same_rules.
Proof. split; [by intros ?|]. unfold same_rules. intros ??? -> ->. done. Qed.
Ltac sr := acts_walk ltac:(exact eq_refl).

Lemma sweep_rules : acts same_rules (sweepRetention now).
Proof. unfold sweepRetention. sr. Qed.
Lemma evaluateRule_rules rule breaches : acts same_rules (evaluateRule now rule breaches).
Proof.
  unfold evaluateRule, openIncidents, incidents_in, visit_breach, observe_breach, lastFiringNotice, close_incident, announce, enqueueDelivery, deliver_after. sr.
Qed.

(** The breaches a pass applies to a rule. *)
Definition breach_map (e : evaluated_rule) : list (string * string) := map_of ((λ b, (br_subject b, br_summary b)) <$> er_breaches e).

Lemma length_breach_map e : (length (breach_map e) ≤ length (er_breaches e))%nat.
Proof.
  rewrite <- (length_fmap fst (breach_map e)), <- (length_fmap br_subject (er_breaches e)). apply submseteq_length, NoDup_submseteq; [apply map_of_nodup|].
  intros x Hx. unfold breach_map in Hx. rewrite elem_of_map_of_keys, <- list_fmap_compose in Hx. done.
Qed.

Definition applies (s : alert_db) (e : evaluated_rule) : Prop :=
  ∃ r, rows (alertRules s) !! er_ruleId e = Some r ∧ ru_enabled r = true ∧ ru_updatedAt r = er_updatedAt e.

Definition apply_rule (e : evaluated_rule) : tx alert_db unit :=
  rule ← db_get alertRules (er_ruleId e);
  match rule with
  | Some r =>
      if negb (ru_enabled r) || (ru_updatedAt r !== er_updatedAt e) then mret tt
      else evaluateRule now (er_ruleId e, r) (breach_map e)
  | None => mret tt
  end.

Lemma apply_rule_open e s u s' :
  incidents_ok s → (length (er_breaches e) ≤ MAX_OPEN_INCIDENTS_PER_RULE)%nat → apply_rule e s = Done (u, s') →
  incidents_ok s' ∧ alertRules s' = alertRules s ∧
  (∀ r x i, r ≠ er_ruleId e → open_at s' r x i ↔ open_at s r x i) ∧
  (applies s e → ∀ x, (∃ i, open_at s' (er_ruleId e) x i) ↔ x ∈ br_subject <$> er_breaches e).
Proof.
  intros Hok Hlen H. unfold apply_rule in H. tx_bind_in H rule s1 H1. injection H1 as <- <-.
  destruct (rows (alertRules s) !! er_ruleId e) as [r|] eqn:Hr.
  2:{ injection H as _ <-. split_and!; try done. intros (r & Hr' & _). congruence. }
  destruct (negb (ru_enabled r) || _) eqn:Hg.
  - injection H as _ <-. split_and!; try done. intros (r' & Hr' & Hen & Hup). replace r' with r in * by congruence.
    rewrite Hen, Hup, bool_decide_eq_true_2 in Hg by done. done.
  - pose proof (evaluateRule_rules _ _ _ _ _ H) as Hrules.
    apply evaluateRule_open in H as (Hok' & Hb & Ho); [|done|apply map_of_nodup|]; [|pose proof (length_breach_map e); lia].
    simpl in *. split_and!; try done. intros _ x. rewrite Hb. unfold breach_map. rewrite elem_of_map_of_keys.
    by rewrite <- list_fmap_compose.
Qed.

Lemma apply_rules_open (l : list evaluated_rule) s u s' :
  incidents_ok s → NoDup (er_ruleId <$> l) → Forall (λ e, (length (er_breaches e) ≤ MAX_OPEN_INCIDENTS_PER_RULE)%nat) l →
  for_each l apply_rule s = Done (u, s') →
  incidents_ok s' ∧ alertRules s' = alertRules s ∧ (∀ r x i, r ∉ er_ruleId <$> l → open_at s' r x i ↔ open_at s r x i) ∧
  (∀ e, e ∈ l → applies s e → ∀ x, (∃ i, open_at s' (er_ruleId e) x i) ↔ x ∈ br_subject <$> er_breaches e).
Proof.
  revert s. induction l as [|e l IH]; intros s Hok Hnd Hall H; simpl in H.
  { injection H as _ <-. split_and!; try done. by intros ? ?%elem_of_nil. }
  tx_bind_in H u1 s1 H1. apply NoDup_cons in Hnd as [Hni Hnd]. apply Forall_cons in Hall as [He Hall].
  destruct (apply_rule_open _ _ _ _ Hok He H1) as (Hok1 & Er & Ho & Hb).
  destruct (IH _ Hok1 Hnd Hall H) as (Hok' & Er' & Ho' & Hb'). split_and!; [done|congruence| |].
  - intros r x i Hr. rewrite Ho', Ho; [done|..]; set_solver.
  - intros e' [->|Hin]%elem_of_cons Happ x; [|apply Hb'; [done|]; unfold applies in *; by rewrite Er].
    rewrite <- (Hb Happ x). split; intros [i Hi]; exists i; by apply Ho'.
Qed.

(** ** Notices *)

(** What a notice says of its incident. *)
Definition notice_fits (c : alert_incident) (event : notification_event) (at_ : Z) : Prop :=
  match event with
  | EvFiring => in_firingNotifiedAt c = Some at_
  | EvResolved => in_status c = IncResolved ∧ in_resolvedAt c = Some at_ ∧ in_firingNotifiedAt c ≠ None
  | EvTest => False
  end.

Record notices_ok (s : alert_db) : Prop := {
  no_known : ∀ k d i, rows (alertDeliveries s) !! k = Some d → dv_incidentId d = Some i → (i < next_id (alertIncidents s))%nat;
  no_fits : ∀ k d i c, rows (alertDeliveries s) !! k = Some d → dv_incidentId d = Some i → rows (alertIncidents s) !! i = Some c →
    notice_fits c (dv_event d) (dv_createdAt d);
}.

Definition adds_notices (i : Id) (event : notification_event) : relation alert_db := λ s s',
  alertIncidents s' = alertIncidents s ∧
  ∀ k d, rows (alertDeliveries s') !! k = Some d →
    rows (alertDeliveries s) !! k = Some d ∨ (dv_incidentId d = Some i ∧ dv_event d = event ∧ dv_createdAt d = now).
#[export] Instance adds_notices_preorder i event : PreOrder (adds_notices i event).
Proof.
  split; [by split; [|left]|]. intros s1 s2 s3 [E12 H12] [E23 H23]. split; [congruence|].
  intros k d [Hk|?]%H23; [by apply H12|by right].
Qed.

Lemma announce_adds rule incident event : acts (adds_notices incident.1 event) (announce now rule incident event).
Proof.
  unfold announce, enqueueDelivery, deliver_after. acts_walk ltac:(idtac); (split; [reflexivity|]); simpl; [|by left].
  intros k d [[<- <-]|[_ Hk]]%lookup_insert_Some; [by right|by left].
Qed.

Lemma notices_ok_same s s' : alertIncidents s' = alertIncidents s → alertDeliveries s' = alertDeliveries s → notices_ok s → notices_ok s'.
Proof. intros Ei Ed [H1 H2]. by split; rewrite ?Ei, ?Ed. Qed.

Lemma notices_ok_announce i event c s s' :
  adds_notices i event s s' → rows (alertIncidents s) !! i = Some c → t_wf (alertIncidents s) → notice_fits c event now →
  notices_ok s → notices_ok s'.
Proof.
  intros [Ei Ha] Hi Hwf Hfit [H1 H2]. split; rewrite Ei.
  - intros k d j [Hk|(-> & _)]%Ha Hj; [by eapply H1|]. injection Hj as <-. by eapply Hwf.
  - intros k d j e [Hk|(E1 & E2 & E3)]%Ha Hj He; [by eapply H2|]. rewrite E1 in Hj. injection Hj as <-. rewrite Hi in He. injection He as <-. by rewrite E2, E3.
Qed.

Lemma notices_ok_patch s i c c' :
  rows (alertIncidents s) !! i = Some c →
  (∀ k d, rows (alertDeliveries s) !! k = Some d → dv_incidentId d = Some i → notice_fits c (dv_event d) (dv_createdAt d) →
     notice_fits c' (dv_event d) (dv_createdAt d)) →
  notices_ok s → notices_ok (upd alertIncidents (t_set i c') s).
Proof.
  intros Hi Hc [H1 H2]. split; simpl; [done|]. intros k d j e Hk Hj He.
  apply lookup_insert_Some in He as [[<- <-]|[_ He]]; [|by eapply H2]. by eapply Hc, H2.
Qed.

(** An open incident has no resolution notice, an unannounced one no notice at all. *)
Lemma open_notice c event at_ : is_open c → notice_fits c event at_ → event = EvFiring ∧ in_firingNotifiedAt c = Some at_.
Proof. unfold is_open. destruct event; simpl; naive_solver. Qed.

Lemma visit_breach_notices (rule : Id * alert_rule) open b s u s' :
  visit_breach now rule open b s = Done (u, s') → t_wf (alertIncidents s) →
  (∀ i d, map_get b.1 open = Some (i, d) → rows (alertIncidents s) !! i = Some d ∧ is_open d) →
  notices_ok s → notices_ok s'.
Proof.
  intros H Hwf Hopen Hok. unfold visit_breach in H. tx_bind_in H inc s1 H1.
  assert (∃ c, rows (alertIncidents s1) !! inc.1 = Some c ∧ in_status c = in_status inc.2 ∧ in_firingNotifiedAt c = in_firingNotifiedAt inc.2 ∧
    is_open c ∧ t_wf (alertIncidents s1) ∧ notices_ok s1) as (c & Hc & Ec & En & Ho & Hwf1 & Hok1).
  { unfold observe_breach in H1. destruct (map_get b.1 open) as [[i d]|] eqn:Hg.
    - tx_bind_in H1 u1 s2 H2. injection H1 as <- <-. apply db_patch_done in H2 as (c & Hc & ->).
      destruct (Hopen i d eq_refl) as [Hd Ho]. replace c with d in * by congruence. simpl. rewrite lookup_insert_eq. eexists. split; [reflexivity|].
      split; [by destruct (_ && _)|]. split; [by destruct (_ && _)|]. split; [by destruct (_ && _)|]. split; [by eapply t_wf_set|].
      eapply notices_ok_patch; [exact Hd| |done]. intros k e _ _ [-> Hn]%open_notice; [|done]. simpl. by destruct (_ && _).
    - tx_bind_in H1 i s2 H2. injection H2 as <- <-. injection H1 as <- <-. simpl. rewrite lookup_insert_eq. eexists. split; [reflexivity|].
      split; [done|]. split; [done|]. split; [unfold is_open; simpl; by destruct (_ =? 0)|]. split; [by apply t_wf_add|].
      destruct Hok as [K1 K2]. split; simpl; [intros k e j Hk Hj; specialize (K1 k e j Hk Hj); lia|].
      intros k e j f Hk Hj Hf. apply lookup_insert_Some in Hf as [[<- <-]|[_ Hf]]; [|by eapply K2]. specialize (K1 _ _ _ Hk Hj). lia. }
  destruct (_ || _) eqn:Hg; [injection H as _ <-; done|]. tx_bind_in H notice s2 H2.
  unfold lastFiringNotice in H2. tx_bind_in H2 recent s3 H3. injection H3 as <- <-. injection H2 as _ <-.
  destruct (match notice with Some t => _ | None => _ end); [injection H as _ <-; done|].
  tx_bind_in H u1 s3 H3. apply db_patch_done in H3 as (c' & Hc' & ->). replace c' with c in * by congruence.
  apply announce_adds in H. apply orb_false_elim in Hg as [[_ Hnn]%orb_false_elim _].
  eapply notices_ok_announce; [exact H|simpl; apply lookup_insert_eq|by eapply t_wf_set|done|].
  eapply notices_ok_patch; [exact Hc| |done]. intros k e _ _ [_ Hn]%open_notice; [|done].
  rewrite En in Hn. by rewrite Hn in Hnn.
Qed.

Lemma close_incident_notices (rule : Id * alert_rule) breaches (e : string * (Id * alert_incident)) s u s' :
  close_incident now rule breaches e s = Done (u, s') → t_wf (alertIncidents s) →
  (in_subject e.2.2 ∉ breaches.*1 → rows (alertIncidents s) !! e.2.1 = Some e.2.2 ∧ is_open e.2.2) →
  notices_ok s → notices_ok s'.
Proof.
  intros H Hwf Hrow Hok. destruct e as [k [i d]]. unfold close_incident in H. cbn [fst snd] in *.
  destruct (bool_decide_reflect (in_subject d ∈ breaches.*1)) as [Hin|Hni]; [by injection H as _ <-|].
  destruct (Hrow Hni) as [Hd Ho]. destruct (in_status d === IncPending).
  - unfold db_delete in H. rewrite Hd in H. injection H as _ <-. destruct Hok as [K1 K2]. split; simpl; [done|].
    intros k0 f j c Hk Hj Hc. apply lookup_delete_Some in Hc as [_ Hc]. by eapply K2.
  - tx_bind_in H u1 s1 H1. apply db_patch_done in H1 as (c & Hc & ->). replace c with d in * by congruence.
    assert (∀ c', in_firingNotifiedAt c' = in_firingNotifiedAt d → notices_ok (upd alertIncidents (t_set i c') s)) as Hpatch.
    { intros c' E. eapply notices_ok_patch; [exact Hd| |done]. intros k0 f _ _ [-> Hn]%open_notice; [|done]. simpl. congruence. }
    destruct (is_some (in_firingNotifiedAt d) && _) eqn:Hn; simpl in H; [|injection H as _ <-; by apply Hpatch].
    apply andb_true_iff in Hn as [Hn _]. apply announce_adds in H.
    eapply notices_ok_announce; [exact H|simpl; apply lookup_insert_eq|by eapply t_wf_set| |by apply Hpatch].
    simpl. split; [done|]. split; [done|]. by destruct (in_firingNotifiedAt d).
Qed.

(** A pass over one subject writes its incident only. *)
Lemma visit_breach_rows (rule : Id * alert_rule) open b s u s' j :
  visit_breach now rule open b s = Done (u, s') → (∀ d, map_get b.1 open ≠ Some (j, d)) → j ≠ next_id (alertIncidents s) →
  rows (alertIncidents s') !! j = rows (alertIncidents s) !! j.
Proof.
  intros H Hj Hnext. unfold visit_breach in H. tx_bind_in H inc s1 H1.
  assert (inc.1 ≠ j ∧ rows (alertIncidents s1) !! j = rows (alertIncidents s) !! j) as [Hne E].
  { unfold observe_breach in H1. destruct (map_get b.1 open) as [[i d]|].
    - tx_bind_in H1 u1 s2 H2. injection H1 as <- <-. apply db_patch_done in H2 as (c & Hc & ->). simpl.
      assert (i ≠ j) by (intros ->; by eapply Hj). split; [done|]. by apply lookup_insert_ne.
    - tx_bind_in H1 i s2 H2. injection H2 as <- <-. injection H1 as <- <-. simpl. split; [done|]. by apply lookup_insert_ne. }
  rewrite <- E. destruct (_ || _); [injection H as _ <-; done|]. tx_bind_in H notice s2 H2.
  unfold lastFiringNotice in H2. tx_bind_in H2 recent s3 H3. injection H3 as <- <-. injection H2 as _ <-.
  destruct (match notice with Some t => _ | None => _ end); [injection H as _ <-; done|].
  tx_bind_in H u1 s3 H3. apply db_patch_done in H3 as (c & Hc & ->). apply announce_incidents in H. rewrite H. simpl.
  by apply lookup_insert_ne.
Qed.

Lemma close_incident_rows (rule : Id * alert_rule) breaches (e : string * (Id * alert_incident)) s u s' j :
  close_incident now rule breaches e s = Done (u, s') → j ≠ e.2.1 → rows (alertIncidents s') !! j = rows (alertIncidents s) !! j.
Proof.
  intros H Hne. destruct e as [k [i d]]. unfold close_incident in H. cbn [fst snd] in *.
  destruct (bool_decide _); [by injection H as _ <-|]. destruct (in_status d === IncPending).
  - unfold db_delete in H. destruct (rows (alertIncidents s) !! i); [|done]. injection H as _ <-. simpl. by apply lookup_delete_ne.
  - tx_bind_in H u1 s1 H1. apply db_patch_done in H1 as (c & Hc & ->).
    match type of H with ?m ?st = _ => assert (alertIncidents s' = alertIncidents st) as -> end.
    { revert H. match goal with |- ?m ?st = _ → _ => cut (acts same_incidents m); [intros Ha; apply Ha|] end. si. }
    simpl. by apply lookup_insert_ne.
Qed.

(** The incidents a pass began with: open, one for a subject, each under its own. *)
Definition captured (O : list (string * (Id * alert_incident))) : Prop :=
  ∀ x i d, (x, (i, d)) ∈ O → is_open d ∧ in_subject d = x ∧ ∀ y e, (y, (i, e)) ∈ O → y = x.

Lemma visit_all_notices (rule : Id * alert_rule) O (breaches : list (string * string)) done_ s u s' :
  captured O → NoDup (done_ ++ breaches.*1) → t_wf (alertIncidents s) →
  (∀ x i d, (x, (i, d)) ∈ O → open_at s rule.1 x i) →
  (∀ x i d, (x, (i, d)) ∈ O → x ∉ done_ → rows (alertIncidents s) !! i = Some d) → notices_ok s →
  for_each breaches (visit_breach now rule O) s = Done (u, s') →
  notices_ok s' ∧ (∀ x i d, (x, (i, d)) ∈ O → x ∉ done_ ++ breaches.*1 → rows (alertIncidents s') !! i = Some d).
Proof.
  intros HO. revert done_ s. induction breaches as [|b l IH]; intros done_ s Hnd Hwf Hkept Hfresh Hok H; simpl in H.
  { injection H as _ <-. rewrite app_nil_r. done. }
  tx_bind_in H u1 s1 H1. rewrite fmap_cons, cons_middle, app_assoc in Hnd |- *.
  assert (b.1 ∉ done_) as Hb.
  { apply NoDup_app in Hnd as [Hnd _]. apply NoDup_app in Hnd as (_ & Hd & _). intros Hin. apply (Hd _ Hin). left. }
  pose proof (visit_breach_open _ _ _ _ _ _ H1 Hwf) as [Hwf1 Hiff].
  { intros i d Hg%map_get_elem. by eapply Hkept. }
  apply (IH (done_ ++ [b.1]) s1); try done.
  - intros x i d Hin. apply Hiff. left. by eapply Hkept.
  - intros x i d Hin [Hx Hxb]%not_elem_of_app. rewrite (visit_breach_rows _ _ _ _ _ _ i H1); [by eapply Hfresh|..].
    + intros e Hg%map_get_elem. destruct (HO _ _ _ Hg) as (_ & _ & Hu). apply Hxb. rewrite (Hu _ _ Hin). left.
    + destruct (Hkept _ _ _ Hin) as (c & Hc & _). apply Hwf in Hc. lia.
  - eapply visit_breach_notices; [exact H1|done| |done]. intros i d Hg%map_get_elem. split; [by eapply Hfresh|by eapply HO].
Qed.

Lemma close_all_notices (rule : Id * alert_rule) (breaches : list (string * string)) rest s u s' :
  captured rest → NoDup rest.*1 → t_wf (alertIncidents s) →
  (∀ x i d, (x, (i, d)) ∈ rest → x ∉ breaches.*1 → rows (alertIncidents s) !! i = Some d) → notices_ok s →
  for_each rest (close_incident now rule breaches) s = Done (u, s') → notices_ok s'.
Proof.
  revert s. induction rest as [|[k [i d]] rest IH]; intros s HO Hnd Hwf Hfresh Hok H; simpl in H; [by injection H as _ <-|].
  tx_bind_in H u1 s1 H1. apply NoDup_cons in Hnd as [Hk Hnd]. destruct (HO k i d ltac:(left)) as (Hop & Hsub & Hu).
  apply (IH s1); [| | | | |done].
  - intros x j e Hin. destruct (HO x j e ltac:(by right)) as (? & ? & Hu'). split_and!; try done. intros y f Hy. eapply Hu'. by right.
  - done.
  - by eapply close_incident_open.
  - intros x j e Hin Hx. rewrite (close_incident_rows _ _ _ _ _ _ j H1); [eapply Hfresh; [by right|done]|].
    simpl. intros ->. apply Hk, list_elem_of_fmap. exists (x, (i, e)). split; [|done]. simpl. symmetry. eapply (Hu x e). by right.
  - eapply close_incident_notices; [exact H1|done| |done]. cbn [fst snd]. rewrite Hsub. intros Hx. split; [|done]. eapply Hfresh; [by left|done].
Qed.

Lemma evaluateRule_notices (rule : Id * alert_rule) (breaches : list (string * string)) s u s' :
  incidents_ok s → NoDup breaches.*1 → evaluateRule now rule breaches s = Done (u, s') → notices_ok s → notices_ok s'.
Proof.
  intros Hok Hnd H Hno. unfold evaluateRule in H. tx_bind_in H l s1 H1.
  apply (openIncidents_spec _ _ _ _ Hok) in H1 as (-> & Hsub & Helem). cbv zeta in H.
  assert (NoDup ((λ r : Id * alert_incident, (in_subject r.2, r)) <$> l).*1) as HndO by (by rewrite <- list_fmap_compose; rewrite <- list_fmap_compose in Hsub).
  rewrite map_of_id in H by done.
  pose (O := (λ r : Id * alert_incident, (in_subject r.2, r)) <$> l). fold O in H, HndO. tx_bind_in H u1 s2 H2.
  assert (∀ x i d, (x, (i, d)) ∈ O → x = in_subject d ∧ rows (alertIncidents s) !! i = Some d ∧ in_ruleId d = rule.1 ∧ is_open d) as HO.
  { intros x i d ([i' d'] & [= -> -> ->] & Hin)%list_elem_of_fmap. simpl. by apply Helem in Hin. }
  assert (captured O) as Hcap.
  { intros x i d Hin. destruct (HO _ _ _ Hin) as (-> & Hd & Hr & Ho). split_and!; try done.
    intros y e Hy. destruct (HO _ _ _ Hy) as (-> & He & _). congruence. }
  pose proof (visit_all_notices rule O breaches [] s u1 s2) as [Hno2 Hfresh2]; try done.
  { apply Hok. }
  { intros x i d Hin. destruct (HO _ _ _ Hin) as (-> & ? & ? & ?). by exists d. }
  { intros x i d Hin _. by destruct (HO _ _ _ Hin) as (_ & ? & _). }
  eapply (close_all_notices rule breaches O s2); [done|done| |exact Hfresh2|done|exact H].
  apply (visit_all rule O s breaches []) in H2 as [Vw _ _ _ _]; [done|..].
  - intros x i (d & Hd & Hr & <- & Ho). apply list_elem_of_fmap. exists (in_subject d, (i, d)). split; [done|].
    apply list_elem_of_fmap. exists (i, d). split; [done|]. by apply Helem.
  - done.
  - split; [apply Hok|apply Hok|done|by intros ? ?%elem_of_nil|]. intros x i d Hin. destruct (HO _ _ _ Hin) as (-> & ? & ? & ?). by exists d.
Qed.

(** *** The other operations *)

Definition keeps_notices : relation alert_db := λ s s', notices_ok s → notices_ok s'.
#[export] Instance keeps_notices_preorder : PreOrder keeps_notices.
Proof. split; [intros s H; exact H|]. intros s1 s2 s3 H12 H23 H1. auto. Qed.

Lemma keeps_notices_same s s' : alertIncidents s' = alertIncidents s → alertDeliveries s' = alertDeliveries s → keeps_notices s s'.
Proof. intros Ei Ed. exact (notices_ok_same s s' Ei Ed). Qed.
Lemma keeps_notices_delete s i : keeps_notices s (upd alertIncidents (t_del i) s).
Proof. intros [K1 K2]. split; simpl; [done|]. intros k d j c Hk Hj [_ Hc]%lookup_delete_Some. by eapply K2. Qed.
Lemma keeps_notices_forget s k : keeps_notices s (upd alertDeliveries (t_del k) s).
Proof.
  intros [K1 K2]. split; simpl.
  - intros j d i [_ Hj]%lookup_delete_Some. by eapply K1.
  - intros j d i c [_ Hj]%lookup_delete_Some. by eapply K2.
Qed.
Lemma keeps_notices_update s k d d' :
  rows (alertDeliveries s) !! k = Some d → dv_incidentId d' = dv_incidentId d ∧ dv_event d' = dv_event d ∧ dv_createdAt d' = dv_createdAt d →
  keeps_notices s (upd alertDeliveries (t_set k d') s).
Proof.
  intros Hk (E1 & E2 & E3) [K1 K2]. split; simpl.
  - intros j e i [[<- <-]|[_ Hj]]%lookup_insert_Some; [rewrite E1|]; by eapply K1.
  - intros j e i c [[<- <-]|[_ Hj]]%lookup_insert_Some; [rewrite E1, E2, E3|]; by eapply K2.
Qed.
Lemma keeps_notices_test s d : dv_incidentId d = None → keeps_notices s (upd alertDeliveries (t_add d) s).
Proof.
  intros E [K1 K2]. split; simpl.
  - intros j e i [[<- <-]|[_ Hj]]%lookup_insert_Some; [by rewrite E|by eapply K1].
  - intros j e i c [[<- <-]|[_ Hj]]%lookup_insert_Some; [by rewrite E|by eapply K2].
Qed.
Ltac kn := acts_walk ltac:(first [apply keeps_notices_same; reflexivity|apply keeps_notices_delete|apply keeps_notices_forget|
  eapply keeps_notices_update; [eassumption|done]|apply keeps_notices_test; reflexivity]).

(** What an operation may do to incidents and notices. *)
Definition tidy {A} (m : tx alert_db A) : Prop := acts shrinks m ∧ acts keeps_notices m.

(** Closing the open incidents of a rule silently. *)
Lemma close_silently_notices (l : list (Id * alert_incident)) s u s' :
  NoDup l.*1 → (∀ i d, (i, d) ∈ l → rows (alertIncidents s) !! i = Some d ∧ is_open d) →
  for_each l (λ r : Id * alert_incident,
    if in_status r.2 === IncPending then db_delete alertIncidents r.1
    else db_patch alertIncidents r.1 (λ d, d <| in_status := IncResolved |> <| in_resolvedAt := Some now |>)) s = Done (u, s') →
  notices_ok s → notices_ok s'.
Proof.
  revert s. induction l as [|[i d] l IH]; intros s Hnd Hrows H Hok; simpl in H; [by injection H as _ <-|].
  tx_bind_in H u1 s1 H1. apply NoDup_cons in Hnd as [Hi Hnd]. destruct (Hrows i d ltac:(left)) as [Hd Ho]. cbn [fst snd] in *.
  assert (∀ j e, (j, e) ∈ l → j ≠ i) as Hne by (intros j e Hin ->; apply Hi, list_elem_of_fmap; by exists (i, e)).
  destruct (in_status d === IncPending).
  - unfold db_delete in H1. rewrite Hd in H1. injection H1 as _ <-. apply (IH _ Hnd) in H; [done| |by apply keeps_notices_delete].
    intros j e Hin. simpl. rewrite lookup_delete_ne by (symmetry; by eapply Hne). apply Hrows. by right.
  - apply db_patch_done in H1 as (c & Hc & ->). replace c with d in * by congruence. apply (IH _ Hnd) in H; [done|..].
    + intros j e Hin. simpl. rewrite lookup_insert_ne by (symmetry; by eapply Hne). apply Hrows. by right.
    + eapply notices_ok_patch; [exact Hd| |done]. intros k f _ _ [-> Hn]%open_notice; [|done]. done.
Qed.

Lemma setRuleEnabled_ok identity i enabled s u s' :
  setRuleEnabled identity now i enabled s = Done (u, s') → incidents_ok s → notices_ok s → incidents_ok s' ∧ notices_ok s'.
Proof.
  intros H Hok Hno. split.
  { eapply shrinks_ok; [|exact Hok]. assert (acts shrinks (setRuleEnabled identity now i enabled)) as Ha
      by (unfold setRuleEnabled, requireDashboardAuth, openIncidents, incidents_in; shrink). by eapply Ha. }
  unfold setRuleEnabled in H. tx_bind_in H u1 s1 H1.
  assert (acts eq (requireDashboardAuth identity)) as Hauth by (unfold requireDashboardAuth; acts_walk ltac:(done)).
  apply Hauth in H1 as <-. clear Hauth.
  tx_bind_in H r s2 H2. injection H2 as <- <-. destruct (rows (alertRules s) !! i); [|done]. tx_bind_in H u2 s2 H2.
  assert (notices_ok s2) as Hno2.
  { destruct enabled; simpl in H2; [by injection H2 as _ <-|]. tx_bind_in H2 l s3 H3.
    apply (openIncidents_spec _ _ _ _ Hok) in H3 as (-> & Hsub & Helem).
    eapply close_silently_notices; [..|exact H2|done].
    - eapply NoDup_fmap_fst; [|by eapply NoDup_fmap_1, NoDup_fmap_1]. intros j d e Hd%Helem He%Helem. destruct Hd, He. congruence.
    - intros j d Hin%Helem. naive_solver. }
  eapply (keeps_notices_same s2); [..|exact Hno2]; apply db_patch_done in H as (c & Hc & ->); done.
Qed.
End passes.

(** ** The system *)

Section system.
Context (parseUrl : string → option url_view).

(** Operator mutations, the evaluation pass and the outcome of a send.  A pass has at most a
    thousand breaches for a rule and one entry for it, as [computeBreaches] returns. *)
Inductive alert_step (s s' : alert_db) : Prop :=
  | st_createDestination identity now name kind url bytes r : createDestination parseUrl identity now name kind url bytes s = Done (r, s') → alert_step s s'
  | st_updateDestination identity now i name url enabled r : updateDestination parseUrl identity now i name url enabled s = Done (r, s') → alert_step s s'
  | st_rotate identity now i bytes r : rotateSigningSecret identity now i bytes s = Done (r, s') → alert_step s s'
  | st_deleteDestination identity now i r : deleteDestination identity now i s = Done (r, s') → alert_step s s'
  | st_sendTest identity now i r : sendTest identity now i s = Done (r, s') → alert_step s s'
  | st_createRule identity now a r : createRule identity now a s = Done (r, s') → alert_step s s'
  | st_updateRule identity now i a r : updateRule identity now i a s = Done (r, s') → alert_step s s'
  | st_setRuleEnabled identity now i enabled r : setRuleEnabled identity now i enabled s = Done (r, s') → alert_step s s'
  | st_muteRule identity now i until r : muteRule identity now i until s = Done (r, s') → alert_step s s'
  | st_deleteRule identity i r : deleteRule identity i s = Done (r, s') → alert_step s s'
  | st_applyBreaches now l r : NoDup (er_ruleId <$> l) →
      Forall (λ e, (length (er_breaches e) ≤ MAX_OPEN_INCIDENTS_PER_RULE)%nat) l → applyBreaches now l s = Done (r, s') → alert_step s s'
  | st_recordOutcome now i outcome random r : recordOutcome now i outcome random s = Done (r, s') → alert_step s s'.

Definition alert_reachable (s : alert_db) : Prop :=
  ∃ s0, alertIncidents s0 = t_empty ∧ alertDeliveries s0 = t_empty ∧ rtc alert_step s0 s.

Ltac shrink := acts_walk ltac:(first [apply shrinks_same; reflexivity|apply shrinks_delete|eapply shrinks_resolve; [eassumption|reflexivity]]).
Ltac kn := acts_walk ltac:(first [apply keeps_notices_same; reflexivity|apply keeps_notices_delete|apply keeps_notices_forget|
  eapply keeps_notices_update; [eassumption|done]|apply keeps_notices_test; reflexivity]).
Ltac unfold_op := unfold createDestination, updateDestination, rotateSigningSecret, deleteDestination, sendTest, createRule, updateRule, muteRule,
  deleteRule, recordOutcome, sweepRetention, validateRule, cleanName, url_and_hint, enqueueDelivery, deliver_after, requireDashboardAuth.
Ltac tidy := split; unfold_op; [shrink|kn].

Lemma tidy_done {A} (m : tx alert_db A) s a s' :
  tidy m → m s = Done (a, s') → incidents_ok s → notices_ok s → incidents_ok s' ∧ notices_ok s'.
Proof. intros [Hs Hn] H Hi Hno. split; [by eapply shrinks_ok; [eapply Hs|]|by eapply Hn]. Qed.

Lemma apply_rules_notices now (l : list evaluated_rule) s u s' :
  incidents_ok s → notices_ok s → Forall (λ e, (length (er_breaches e) ≤ MAX_OPEN_INCIDENTS_PER_RULE)%nat) l →
  for_each l (apply_rule now) s = Done (u, s') → notices_ok s'.
Proof.
  revert s. induction l as [|e l IH]; intros s Hok Hno Hall H; simpl in H; [by injection H as _ <-|].
  tx_bind_in H u1 s1 H1. apply Forall_cons in Hall as [He Hall].
  destruct (apply_rule_open _ _ _ _ _ Hok He H1) as (Hok1 & _). apply (IH s1); try done.
  unfold apply_rule in H1. tx_bind_in H1 rule s2 H2. injection H2 as <- <-.
  destruct (rows (alertRules s) !! er_ruleId e) as [r|]; [|by injection H1 as _ <-].
  destruct (negb (ru_enabled r) || _); [by injection H1 as _ <-|]. eapply evaluateRule_notices; [exact Hok|apply map_of_nodup|exact H1|done].
Qed.

Lemma sweep_tidy now : tidy (sweepRetention now).
Proof. tidy. Qed.

Lemma alert_step_ok s s' : alert_step s s' → incidents_ok s → notices_ok s → incidents_ok s' ∧ notices_ok s'.
Proof.
  intros [] Hi Hn; first [by eapply setRuleEnabled_ok|solve [eapply tidy_done; [|eassumption|done|done]; tidy]|idtac].
  match goal with H : applyBreaches _ _ _ = _ |- _ => unfold applyBreaches in H; tx_bind_in H u1 s1 Hsweep end.
  destruct (tidy_done _ _ _ _ (sweep_tidy now) Hsweep Hi Hn) as [Hi1 Hn1].
  split; [by eapply (apply_rules_open now l s1)|by eapply (apply_rules_notices now l s1)].
Qed.

Lemma alerts_ok s : alert_reachable s → incidents_ok s ∧ notices_ok s.
Proof.
  intros (s0 & Ei & Ed & Hsteps). assert (incidents_ok s0 ∧ notices_ok s0) as [Hi Hn].
  { split; [|split; intros k d i; rewrite Ed; [intros Hk|intros c Hk]; simpl in Hk; by rewrite lookup_empty in Hk].
    assert (∀ r x i, ¬ open_at s0 r x i) as Hno by (intros r x i (d & Hd & _); rewrite Ei in Hd; simpl in Hd; by rewrite lookup_empty in Hd).
    split; [rewrite Ei; apply t_wf_empty|intros * H; by apply Hno in H|].
    intros r l _ Hl. destruct l as [|i l]; [simpl; lia|]. destruct (Hl i ltac:(left)) as [x Hx]. by apply Hno in Hx. }
  clear Ei Ed. induction Hsteps as [|s1 s2 s3 H12 _ IH]; [done|]. destruct (alert_step_ok _ _ H12 Hi Hn). by apply IH.
Qed.



(** What is announced.  All firing notices of an incident that is still stored were queued in one
    pass, the one that marked it announced; a resolution notice belongs to a resolved incident whose
    firing was announced, and was queued in the pass that resolved it. *)
Theorem notices_match_incidents s k d i c :
  alert_reachable s → rows (alertDeliveries s) !! k = Some d → dv_incidentId d = Some i → rows (alertIncidents s) !! i = Some c →
  notice_fits c (dv_event d) (dv_createdAt d).
Proof. intros [_ Hn]%alerts_ok. apply Hn. Qed.
End system.

(** ** Deliveries settle *)

Definition record_all (i : Id) (outcomes : list (Z * send_outcome * num)) : tx alert_db unit :=
  for_each outcomes (λ o, recordOutcome o.1.1 i o.1.2 o.2).

(** One outcome: counted while the delivery is pending, ignored afterwards. *)
Lemma recordOutcome_total now i outcome random s d :
  rows (alertDeliveries s) !! i = Some d →
  ∃ s' d', recordOutcome now i outcome random s = Done (tt, s') ∧ rows (alertDeliveries s') !! i = Some d' ∧
    (dv_status d ≠ DlvPending → d' = d) ∧
    (dv_status d = DlvPending → dv_attempts d' = dv_attempts d + 1 ∧ (dv_status d' ≠ DlvPending ∨ dv_attempts d' < MAX_SEND_ATTEMPTS)).
Proof.
  intros Hd. unfold recordOutcome, mbind, tx_bind, db_get, read. rewrite Hd.
  destruct (bool_decide_reflect (dv_status d = DlvPending)) as [Hp|Hp]; simpl.
  2:{ exists s, d. split_and!; try done. }
  unfold deliver_after, modify, db_patch, mbind, tx_bind.
  destruct outcome as [c|c e ra|c e]; [| destruct (Z.leb_spec MAX_SEND_ATTEMPTS (dv_attempts d + 1)) |]; rewrite Hd; simpl;
    do 2 eexists; (split; [reflexivity|]); simpl; (split; [apply lookup_insert_eq|]); (split; [done|]); intros _; simpl; (split; [done|]);
    first [by left|right; lia].
Qed.

(** Sending ends.  After eight outcomes at most, whatever they are, a delivery is delivered or
    failed; it counted at most eight, and further outcomes change nothing. *)
Theorem delivery_settles i outcomes s d :
  rows (alertDeliveries s) !! i = Some d → 0 ≤ dv_attempts d < MAX_SEND_ATTEMPTS →
  (Z.to_nat (MAX_SEND_ATTEMPTS - dv_attempts d) ≤ length outcomes)%nat →
  ∃ s' d', record_all i outcomes s = Done (tt, s') ∧ rows (alertDeliveries s') !! i = Some d' ∧
    (dv_status d = DlvPending → dv_status d' ≠ DlvPending) ∧ dv_attempts d' ≤ MAX_SEND_ATTEMPTS ∧
    ∀ more s'' u, record_all i more s' = Done (u, s'') → rows (alertDeliveries s'') !! i = Some d'.
Proof.
  assert (∀ outs s d, rows (alertDeliveries s) !! i = Some d → dv_status d ≠ DlvPending →
    ∃ s', record_all i outs s = Done (tt, s') ∧ rows (alertDeliveries s') !! i = Some d) as Hfinal.
  { intros outs. induction outs as [|o outs IH]; intros s0 e He Hs; [by exists s0|]. unfold record_all in *. cbn [for_each].
    destruct (recordOutcome_total o.1.1 i o.1.2 o.2 s0 e He) as (s1 & e1 & H1 & He1 & Hsame & _). rewrite (Hsame Hs) in He1.
    unfold mbind, tx_bind. rewrite H1. by apply IH. }
  assert (∀ s0 e, rows (alertDeliveries s0) !! i = Some e → dv_status e ≠ DlvPending →
    ∀ more s'' u, record_all i more s0 = Done (u, s'') → rows (alertDeliveries s'') !! i = Some e) as Hstays.
  { intros s0 e He Hs more s'' u H. destruct (Hfinal more s0 e He Hs) as (s2 & H2 & Hr). congruence. }
  intros Hd Ha Hlen. revert s d Hd Ha Hlen. induction outcomes as [|o outs IH]; intros s d Hd Ha Hlen; [simpl in Hlen; lia|].
  destruct (decide (dv_status d = DlvPending)) as [Hp|Hp].
  2:{ destruct (Hfinal (o :: outs) s d Hd Hp) as (s' & H & Hr). exists s', d. split_and!; try done; [lia|by apply Hstays]. }
  destruct (recordOutcome_total o.1.1 i o.1.2 o.2 s d Hd) as (s1 & d1 & H1 & Hd1 & _ & Hcount). destruct (Hcount Hp) as [Ea Hor].
  unfold record_all in *. cbn [for_each]. unfold mbind, tx_bind. rewrite H1.
  destruct (decide (dv_status d1 = DlvPending)) as [Hp1|Hp1].
  - destruct Hor as [?|Hor]; [done|]. destruct (IH s1 d1 Hd1) as (s' & d' & H & Hr & Hst & Hle & Hmore); [lia|simpl in Hlen; lia|].
    exists s', d'. split_and!; try done. by intros _; apply Hst.
  - destruct (Hfinal outs s1 d1 Hd1 Hp1) as (s' & H & Hr). exists s', d1. split_and!; try done; [lia|by apply Hstays].
Qed.

(** ** A flapping subject *)

Module AlertDemo.
Definition url (raw : string) : option url_view := Some (UrlView "https:" "" "" "hooks.example" "/T00/B11").
Definition identity : option (option (option permission_role)) := Some (Some None).
Definition rule_of (cooldown : Z) : rule_args :=
  RuleArgs "Nodes down" (NodeOffline (num_of_Z 5)) None (num_of_Z 0) (num_of_Z cooldown) [0%nat].
Definition empty_alerts : alert_db := AlertDb t_empty t_empty t_empty t_empty [].
(** A Slack destination and a rule that announces a subject once an hour. *)
Definition configured : alert_db :=
  commit (createRule identity 0 (rule_of 60)) (commit (createDestination url identity 0 "ops" DestSlack "https://hooks.example/T00/B11" []) empty_alerts).

Definition minute : Z := 60000.
Definition breaching (b : bool) : list evaluated_rule := [EvaluatedRule 0%nat 0 (if b then [Breach "edge" "Node edge is silent."] else [])].
Definition pass (s : alert_db) (t : Z * bool) : alert_db := commit (applyBreaches (t.1 * minute) (breaching t.2)) s.
(** The Node is down every other minute. *)
Definition flapping (n : nat) : list (Z * bool) := imap (λ i b, (Z.of_nat i + 1, b)) (concat (replicate n [true; false])).
Definition flapped : alert_db := foldl pass configured (flapping 11).

Lemma pass_step s t : rtc (alert_step url) s (pass s t).
Proof.
  unfold pass, commit. destruct (applyBreaches _ _ s) as [[u s']|] eqn:H; [|apply rtc_refl]. apply rtc_once.
  eapply st_applyBreaches; [| |exact H]; destruct t.2; simpl; repeat constructor; try set_solver; unfold MAX_OPEN_INCIDENTS_PER_RULE; simpl; lia.
Qed.
Lemma passes_steps l s : rtc (alert_step url) s (foldl pass s l).
Proof. revert s. induction l as [|t l IH]; intros s; simpl; [apply rtc_refl|]. etrans; [apply pass_step|apply IH]. Qed.
Lemma configured_reachable : alert_reachable url configured.
Proof.
  exists empty_alerts. split; [done|]. split; [done|].
  eapply rtc_l; [eapply (st_createDestination _ _ _ identity 0 "ops" DestSlack "https://hooks.example/T00/B11" []); vm_compute; reflexivity|].
  eapply rtc_l; [eapply (st_createRule _ _ _ identity 0 (rule_of 60)); vm_compute; reflexivity|]. apply rtc_refl.
Qed.
Lemma passes_reachable l : alert_reachable url (foldl pass configured l).
Proof. destruct configured_reachable as (s0 & Ei & Ed & H). exists s0. split; [done|]. split; [done|]. etrans; [exact H|apply passes_steps]. Qed.

(** The minutes at which a firing was announced. *)
Definition announced (s : alert_db) : list Z :=
  omap (λ r : Id * alert_delivery, if dv_event r.2 === EvFiring then Some (dv_createdAt r.2 / minute) else None) (t_scan (alertDeliveries s)).
Example announced_twice : announced (foldl pass configured (flapping 10)) = [1] ∧ announced flapped = [1; 21].
Proof. vm_compute. done. Qed.
End AlertDemo.
Import AlertDemo.

(** Flapping defeats the cooldown.  The cooldown looks at the ten newest incidents of a subject,
    so once ten of them came and went unannounced, the announcement before them is out of sight: a
    rule that announces a subject at most once in sixty minutes announces it again after twenty. *)
Theorem flapping_defeats_cooldown :
  ∃ s r i c i' c' t t', alert_reachable url s ∧ rows (alertRules s) !! 0%nat = Some r ∧ i ≠ i' ∧
    rows (alertIncidents s) !! i = Some c ∧ rows (alertIncidents s) !! i' = Some c' ∧
    in_ruleId c = 0%nat ∧ in_ruleId c' = 0%nat ∧ in_subject c = in_subject c' ∧
    in_firingNotifiedAt c = Some t ∧ in_firingNotifiedAt c' = Some t' ∧ t < t' < t + ru_cooldownMinutes r * 60000.
Proof.
  exists flapped. do 7 eexists. split; [exact (passes_reachable (flapping 11))|].
  split; [vm_compute; reflexivity|]. split; [exact (λ H : 0%nat = 10%nat, O_S 9 H)|].
  split; [vm_compute; reflexivity|]. split; [vm_compute; reflexivity|].
  split_and!; try reflexivity.
Qed.



Lemma notices_match_incidents_witness :
  ∃ d c, rows (alertDeliveries (pass configured (1, true))) !! 0%nat = Some d ∧ dv_event d = EvFiring ∧
    rows (alertIncidents (pass configured (1, true))) !! 0%nat = Some c ∧ notice_fits c (dv_event d) (dv_createdAt d).
Proof.
  assert (∃ d, rows (alertDeliveries (pass configured (1, true))) !! 0%nat = Some d ∧ dv_event d = EvFiring ∧ dv_incidentId d = Some 0%nat)
    as (d & Hd & He & Hi) by (eexists; split; [vm_compute; reflexivity|]; split; reflexivity).
  assert (∃ c, rows (alertIncidents (pass configured (1, true))) !! 0%nat = Some c) as (c & Hc) by (eexists; vm_compute; reflexivity).
  exists d, c. split; [exact Hd|]. split; [exact He|]. split; [exact Hc|].
  exact (notices_match_incidents url (pass configured (1, true)) 0%nat d 0%nat c (passes_reachable [(1, true)]) Hd Hi Hc).
Defined.

Lemma delivery_settles_witness :
  ∃ s', record_all 0%nat (replicate 8 (0, SendRetry None "Request failed" None, num_of_Z 0)) (pass configured (1, true)) = Done (tt, s').
Proof.
  edestruct (λ d, delivery_settles 0%nat (replicate 8 (0, SendRetry None "Request failed" None, num_of_Z 0)) (pass configured (1, true)) d)
    as (s' & d' & H & _); [..|exists s'; exact H].
  - vm_compute. reflexivity.
  - simpl. unfold MAX_SEND_ATTEMPTS. lia.
  - apply Nat.leb_le. vm_compute. reflexivity.
Defined.
