(* ===== verification/DecimalText.v ===== *)
(** Decimal text: a string as the list of its characters, and that an integer printed in decimal is
    read back by [Number] as the same integer. *)

From S2P Require Import Prelude JsLib Schema JsText InfraSchema InfraStore.

Definition chars (s : string) : list ascii := String.list_ascii_of_string s.
Definition text (l : list ascii) : string := String.string_of_list_ascii l.

Lemma chars_app a b : chars (a +:+ b) = chars a ++ chars b.
Proof. apply list_ascii_app. Qed.

Lemma text_chars s : text (chars s) = s.
Proof. apply String.string_of_list_ascii_of_string. Qed.

Lemma chars_text l : chars (text l) = l.
Proof. apply String.list_ascii_of_string_of_list_ascii. Qed.

(** Integers below 2^53 are doubles. *)
Lemma round64_int z : 0 ≤ z < 2 ^ 53 → round64 (inject_Z z) = Fin (inject_Z z).
Proof.
  intros [H0 H]. unfold round64. cbn [Qnum Qden inject_Z]. rewrite Z.abs_eq by done.
  destruct (Z.eqb_spec z 0) as [->|Hz]; [done|]. change (Z.log2 1) with 0. rewrite Z.sub_0_r, Z.mul_1_l.
  pose proof (Z.log2_spec z ltac:(lia)) as [Hl Hu]. pose proof (Z.log2_nonneg z).
  assert (Z.log2 z < 53) as H53 by (apply Z.log2_lt_pow2; lia).
  rewrite (Z.max_r 0 (Z.log2 z)), (Z.max_l 0 (- Z.log2 z)), Z.pow_0_r, Z.mul_1_r by lia.
  destruct (Z.leb_spec (2 ^ Z.log2 z) z); [|lia].
  set (k := Z.log2 z - 52). assert (-52 ≤ k ≤ 0) as Hk by lia.
  rewrite (Z.max_l k) by lia. rewrite (Z.max_r 0 (- k)), (Z.max_l 0 k), Z.pow_0_r, Z.mul_1_l by lia.
  assert (div_half_even (z * 2 ^ (- k)) 1 = z * 2 ^ (- k)) as ->.
  { unfold div_half_even. rewrite Z.mod_1_r, Z.div_1_r. done. }
  assert (scaled (z * 2 ^ (- k)) k = inject_Z z) as ->.
  { unfold scaled. destruct (Z.leb_spec 0 k) as [Hk0|Hk0].
    - assert (k = 0) as -> by lia. f_equal. cbn. lia.
    - transitivity (Qred (inject_Z z)).
      + apply Qred_complete. unfold Qeq. cbn [Qnum Qden inject_Z]. rewrite Z2Pos.id by (apply Z.pow_pos_nonneg; lia). lia.
      + clear. destruct z as [|[p|p|]|[p|p|]]; reflexivity. }
  destruct (Qle_bool (inject_Z (2 ^ 1024)) (inject_Z z)) eqn:E.
  - apply Qle_bool_iff in E. rewrite <- Zle_Qle in E. assert (2 ^ 53 <= 2 ^ 1024) by (apply Z.pow_le_mono_r; lia). lia.
  - destruct (Z.ltb_spec z 0); [lia|done].
Qed.

(** The decimal digits of a positive number: no leading zero, and read back as the number. *)
Lemma pretty_go_read n s acc k :
  (0 < n)%N → ∃ c d m, chars (pretty_N_go n s) = c :: d ++ chars s ∧ c ≠ "0"%char ∧ Forall (λ x, is_digit x = true) (c :: d) ∧
    0 < m ∧ take_digits acc k (chars (pretty_N_go n s)) = take_digits (acc * 10 ^ m + Z.of_N n) (k + m) (chars s).
Proof.
  revert s acc k. induction (N.lt_wf_0 n) as [n _ IH]; intros s acc k Hn. rewrite pretty_N_go_step by done.
  assert (∀ m, (m < 10)%N → is_digit (pretty_N_char m) = true ∧ ch (pretty_N_char m) - 48 = Z.of_N m ∧ (m ≠ 0%N → pretty_N_char m ≠ "0"%char)) as Hdig.
  { intros m Hm. assert (m = 0 ∨ m = 1 ∨ m = 2 ∨ m = 3 ∨ m = 4 ∨ m = 5 ∨ m = 6 ∨ m = 7 ∨ m = 8 ∨ m = 9)%N as Hc by lia.
    repeat destruct Hc as [->|Hc]; [..|subst]; by split_and!. }
  destruct (Hdig (n `mod` 10)%N) as (H1 & H2 & H3); [apply N.mod_lt; lia|].
  assert (∀ a k, take_digits a k (chars (String (pretty_N_char (n `mod` 10)) s)) =
    take_digits (10 * a + Z.of_N (n `mod` 10)) (k + 1) (chars s)) as Hstep.
  { intros a' k'. cbn. rewrite H1. by rewrite H2. }
  destruct (decide (n < 10)%N) as [Hlt|Hge].
  - rewrite (N.div_small n 10), (N.mod_small n 10) in * by done. rewrite pretty_N_go_0.
    exists (pretty_N_char n), [], 1. split_and!; [done|apply H3; lia|by repeat constructor|lia|]. rewrite Hstep. f_equal; lia.
  - destruct (IH (n / 10)%N (N.div_lt n 10 Hn eq_refl) (String (pretty_N_char (n `mod` 10)) s) acc k) as (c & d & m & E1 & E2 & E3 & Hm & E4).
    { apply N.div_str_pos. lia. }
    exists c, (d ++ [pretty_N_char (n `mod` 10)]), (m + 1). split_and!.
    + rewrite E1, <- app_assoc. done.
    + done.
    + apply Forall_cons in E3 as [??]. constructor; [done|]. apply Forall_app. split; [done|by repeat constructor].
    + lia.
    + rewrite E4, Hstep. rewrite Z.pow_add_r by lia. pose proof (N.div_mod n 10 ltac:(lia)) as Hdm. f_equal; lia.
Qed.

Lemma json_digits z : 0 < z → ∃ c d, chars (json_Z z) = c :: d ∧ c ≠ "0"%char ∧ Forall (λ x, is_digit x = true) (c :: d) ∧
  ∃ m, 0 < m ∧ take_digits 0 0 (c :: d) = (z, m, []).
Proof.
  intros Hz. destruct z as [|p|p]; [lia| |lia]. destruct (pretty_go_read (Npos p) "" 0 0) as (c & d & m & E1 & E2 & E3 & Hm & E4); [lia|].
  assert (json_Z (Zpos p) = pretty_N_go (Npos p) "") as Ej.
  { change (json_Z (Zpos p)) with (pretty (Npos p)). unfold pretty, pretty_N. by rewrite decide_False. }
  rewrite Ej. rewrite E1 in *. cbn [chars String.list_ascii_of_string] in *. rewrite app_nil_r in *.
  exists c, d. split_and!; try done. exists m. split; [done|]. by rewrite E4.
Qed.

Lemma digit_range c : is_digit c = true → 48 ≤ ch c ≤ 57.
Proof. unfold is_digit. cbv zeta. rewrite andb_true_iff, !Z.leb_le. done. Qed.

(** A text that begins with a digit other than zero is read as a decimal. *)
Lemma js_number_decimal s c d :
  trim s = s → chars s = c :: d → is_digit c = true → c ≠ "0"%char → js_number s = decimal_number (c :: d).
Proof.
  intros Ht Hs Hdig Hne. unfold js_number. rewrite Ht. fold (chars s). rewrite Hs.
  destruct c as [[] [] [] [] [] [] [] []]; try discriminate Hdig; try done; by destruct d.
Qed.

Lemma js_number_Z z : 0 < z < 2 ^ 53 → js_number (json_Z z) = num_of_Z z.
Proof.
  intros [Hz Hlt]. destruct (json_digits z Hz) as (c & d & E & Hc & Hd & m & Hm & Hread).
  rewrite (js_number_decimal _ c d); [|apply trim_id|done|by apply Forall_cons in Hd as [? _]|done].
  - unfold decimal_number. rewrite bool_decide_false.
    + rewrite Hread. cbn [decimal_exponent]. destruct (Z.eqb_spec (m + 0) 0); [lia|]. rewrite Z.sub_0_r.
      change (scale10 z 0) with (inject_Z (z * 1)). rewrite Z.mul_1_r. apply round64_int. lia.
    + intros Heq. apply (f_equal chars) in Heq. fold (text (c :: d)) in Heq. rewrite chars_text in Heq. cbn in Heq.
      injection Heq as -> _. apply Forall_cons in Hd as [Hd _]. done.
  - unfold str_chars. fold (chars (json_Z z)). rewrite E. eapply Forall_impl; [exact Hd|]. intros x Hx%digit_range.
    unfold is_space. cbv zeta. destruct (Z.leb_spec (ch x) 13), (Z.eqb_spec (ch x) 32), (Z.eqb_spec (ch x) 160); try lia; by rewrite andb_false_r.
Qed.

Lemma json_Z_digits z : 0 ≤ z → json_Z z ≠ "" ∧ str_chars (λ c, is_digit c = true) (json_Z z).
Proof.
  intros Hz. destruct (decide (z = 0)) as [->|Hne]; [split; [done|by repeat constructor]|].
  destruct (json_digits z) as (c & d & E & _ & Hd & _); [lia|]. unfold str_chars. fold (chars (json_Z z)). rewrite E. split; [|done].
  intros E'. by rewrite E' in E.
Qed.

Lemma js_number_nonneg z : 0 ≤ z < 2 ^ 53 → js_number (json_Z z) = num_of_Z z.
Proof. intros Hz. destruct (decide (z = 0)) as [->|Hne]; [done|]. apply js_number_Z. lia. Qed.
