(* ===== verification/Telemetry.v ===== *)
(** What Workers upload about the Attempts they run: the tables of attemptMetricsModel.ts and
    testReportsModel.ts (packages/backend/convex), beside the store [db] of the control plane,
    which the uploads only read. *)

From S2P Require Import Prelude JsLib Schema.

(** ** Resource metrics: attemptMetricsModel.ts *)

Record points := Points {
  pt_offset : list num;
  pt_ms : list num;
  pt_cpuMs : list num;
  pt_cpuMaxMilli : list num;
  pt_memBytes : list num;
  pt_netRxBytes : option (list num);
  pt_netTxBytes : option (list num);
  pt_diskReadBytes : option (list num);
  pt_diskWriteBytes : option (list num);
}.

(** [MetricsSnapshot], without its literal version *)
Record metrics_snapshot := MetricsSnapshot {
  sn_source : string;
  sn_startedAt : num;
  sn_sampleSeconds : num;
  sn_bucketSeconds : num;
  sn_samples : num;
  sn_errors : num;
  sn_lastError : option string;
  sn_memoryPeakBytes : num;
  sn_oomKills : option num;
  sn_points : points;
}.
#[export] Instance metrics_snapshot_rebuild : Rebuild metrics_snapshot := λ m,
  MetricsSnapshot (sn_source m) (sn_startedAt m) (sn_sampleSeconds m) (sn_bucketSeconds m) (sn_samples m) (sn_errors m)
    (sn_lastError m) (sn_memoryPeakBytes m) (sn_oomKills m) (sn_points m).

(** A row of [attemptMetrics]: the snapshot under its Attempt. *)
Record attempt_metrics := AttemptMetrics { am_attemptId : Id; am_snapshot : metrics_snapshot }.

Record metrics_summary := MetricsSummary {
  su_source : string;
  su_samples : num;
  su_errors : num;
  su_final : bool;
  su_durationMs : num;
  su_vcpus : Z;
  su_cpuAvgVcpus : num;
  su_cpuP95Vcpus : num;
  su_cpuMaxVcpus : num;
  su_memoryLimitBytes : num;
  su_memoryPeakBytes : num;
  su_netRxBytes : option num;
  su_netTxBytes : option num;
  su_diskReadBytes : option num;
  su_diskWriteBytes : option num;
  su_oomKills : option num;
}.

Record metric_summary_row := MetricSummaryRow {
  ms_attemptId : Id;
  ms_machineId : Id;
  ms_seriesId : Id;
  ms_updatedAt : Z;
  ms_summary : metrics_summary;
}.

(** ** Test results: testReportsModel.ts *)

Inductive test_status := TestPassed | TestFailed | TestErrored | TestSkipped | TestFlaky.
#[export] Instance test_status_eq_dec : EqDecision test_status.
Proof. solve_decision. Defined.

Record test_case := TestCase {
  tc_id : string;
  tc_suite : option string;
  tc_name : string;
  tc_file : option string;
  tc_status : test_status;
  tc_durationMs : num;
  tc_message : option string;
  tc_retries : option num;
}.

Record test_totals := TestTotals {
  tt_tests : num;
  tt_passed : num;
  tt_failed : num;
  tt_errored : num;
  tt_skipped : num;
  tt_flaky : num;
  tt_durationMs : num;
}.

Record test_report := TestReport {
  tr_commitSha : option string;
  tr_files : num;
  tr_truncated : bool;
  tr_totals : test_totals;
  tr_cases : option (list test_case);
  tr_passed : string;
}.

Record test_report_row := TestReportRow {
  rp_attemptId : Id;
  rp_machineId : Id;
  rp_repository : option string;
  rp_branch : option string;
  rp_jobName : option string;
  rp_workflowRunId : option Z;
  rp_commitSha : option string;
  rp_revision : option string;
  rp_recordedAt : Z;
  rp_files : num;
  rp_truncated : bool;
  rp_totals : test_totals;
  rp_passed : string;
  rp_failing : option bool;
}.

Record report_hashes := ReportHashes {
  hs_reportId : Id;
  hs_passed : string;
  hs_failing : string;
}.

Record test_case_row := TestCaseRow {
  cs_reportId : Id;
  cs_attemptId : Id;
  cs_repository : option string;
  cs_branch : option string;
  cs_recordedAt : Z;
  cs_testHash : option string;
  cs_case : test_case;
}.

Inductive flaky_evidence := Retried | Rerun.
#[export] Instance flaky_evidence_eq_dec : EqDecision flaky_evidence.
Proof. solve_decision. Defined.

Record flaky_test := FlakyTest {
  fk_repository : string;
  fk_testId : string;
  fk_suite : option string;
  fk_name : string;
  fk_file : option string;
  fk_firstSeenAt : Z;
  fk_lastSeenAt : Z;
  fk_occurrences : Z;
  fk_lastEvidence : flaky_evidence;
  fk_lastBranch : option string;
  fk_lastCommitSha : option string;
  fk_lastMessage : option string;
  fk_attemptIds : list Id;
}.
#[export] Instance flaky_test_rebuild : Rebuild flaky_test := λ f,
  FlakyTest (fk_repository f) (fk_testId f) (fk_suite f) (fk_name f) (fk_file f) (fk_firstSeenAt f) (fk_lastSeenAt f)
    (fk_occurrences f) (fk_lastEvidence f) (fk_lastBranch f) (fk_lastCommitSha f) (fk_lastMessage f) (fk_attemptIds f).

(** ** The store *)

Inductive purge_job := PurgeMetrics | PurgeTests.
#[export] Instance purge_job_eq_dec : EqDecision purge_job.
Proof. solve_decision. Defined.

Record telemetry := Telemetry {
  control : db;
  attemptMetrics : table attempt_metrics;
  attemptMetricSummaries : table metric_summary_row;
  testReports : table test_report_row;
  testReportHashes : table report_hashes;
  testCases : table test_case_row;
  flakyTests : table flaky_test;
  purges : list purge_job;
}.
#[export] Instance telemetry_rebuild : Rebuild telemetry := λ s,
  Telemetry (control s) (attemptMetrics s) (attemptMetricSummaries s) (testReports s) (testReportHashes s) (testCases s)
    (flakyTests s) (purges s).

(** A read of the control plane's store from a telemetry handler. *)
Definition on_control {A} (m : tx db A) : tx telemetry A := λ s,
  match m (control s) with
  | Done (a, d) => Done (a, s <| control := d |>)
  | Failed e => Failed e
  end.

(** [ctx.db.get(attemptId)] *)
Definition attempt_get (attemptId : Id) : tx telemetry (option attempt) := on_control (db_get attempts attemptId).

(** [ctx.scheduler.runAfter(0, internal.<module>.purgeExpired, {})] *)
Definition purge_again (job : purge_job) : tx telemetry unit := modify (λ s, s <| purges ::= λ l, l ++ [job] |>).

(** [a === b] of numbers *)
Definition num_eqb (a b : num) : bool := num_leb a b && num_leb b a.

(** [Number.isSafeInteger(value) && value >= 0] *)
Definition isCount (value : num) : bool :=
  match num_safe_integer value with Some z => 0 <=? z | None => false end.

(** [ctx.db.replace(id, row)] *)
Definition db_replace {S D} (tbl : S → table D) `{!Updater tbl} (i : Id) (d : D) : tx S unit := db_patch tbl i (λ _, d).

(** The rows of an index range in the order of its last column, ties in creation order. *)
Definition by_column {D} (column : D → Z) (l : list (Id * D)) : list (Id * D) :=
  to_sorted (λ a b, column a.2 - column b.2) l.
