(* ===== verification/TestReports.v ===== *)
(** Test results of Attempts (packages/backend/convex/testReportsModel.ts, testReports.ts): the
    bounds of a report, the analysis that finds flaky tests, the upload, the reads and the purge.
    SHA-256 is the runtime's, a parameter. *)

From S2P Require Import Prelude JsLib Schema HostLabels Egress AppPolicy InfraSchema InfraStore DockerArgs Ingress.
From S2P Require Import JsText WorkerApi Fleet Telemetry.

(** ** testReportsModel.ts *)

Definition TEST_RETENTION_MS : Z := 30 * 24 * 60 * 60000.
Definition TESTS_LATE_REPORT_MS : Z := 15 * 60000.
Definition MAX_CASES : nat := 500.
Definition MAX_PASSED : Z := 20000.
Definition MAX_FILES : Z := 200.
Definition MAX_ID_BYTES : nat := 512.
Definition MAX_NAME_BYTES : nat := 512.
Definition MAX_MESSAGE_BYTES : nat := 1024.
Definition MAX_TOTAL : Z := 10000000.
Definition MAX_DURATION_MS : Z := 7 * 24 * 60 * 60 * 1000.
Definition PASSED_HASH_LENGTH : nat := 12.
Definition MAX_REVISION_PEERS : nat := 20.
Definition MAX_FLAKY_ATTEMPTS : nat := 10.
Definition MAX_FLAKY_FINDINGS : nat := MAX_CASES.

(** [COMMIT]: 40 or 64 lower-case hex digits *)
Definition is_commit (s : string) : bool :=
  str_all is_hex s && (Nat.eqb (String.length s) 40 || Nat.eqb (String.length s) 64).

(** [CONTROL]: the C0 and C1 control characters except tab and newline *)
Definition is_control_char (c : ascii) : bool :=
  let n := ch c in (n <=? 8) || ((11 <=? n) && (n <=? 31)) || ((127 <=? n) && (n <=? 159)).

Section assertions.
Context {S : Type}.

Definition assertText (field : string) (value : option string) (limit : nat) (required : bool) : tx S unit :=
  match value with
  | None => if required then throw ("Test report " +:+ field +:+ " is missing") else mret tt
  | Some value =>
      if required && Nat.eqb (String.length value) 0 then throw ("Test report " +:+ field +:+ " is empty")
      else if Nat.ltb limit (utf8_length value) then
        throw ("Test report " +:+ field +:+ " is longer than " +:+ json_Z (Z.of_nat limit) +:+ " bytes")
      else if existsb is_control_char (String.list_ascii_of_string value) then
        throw ("Test report " +:+ field +:+ " holds a control character")
      else mret tt
  end.

Definition assertCount (value : num) (max : Z) : tx S unit :=
  match num_safe_integer value with
  | Some z => if (z <? 0) || (max <? z) then throw "Test report counts are out of range" else mret tt
  | None => throw "Test report counts are out of range"
  end.

Definition assert_case (testCase : test_case) : tx S unit :=
  assertText "case id" (Some (tc_id testCase)) MAX_ID_BYTES true ≫= λ _,
  assertText "case name" (Some (tc_name testCase)) MAX_NAME_BYTES true ≫= λ _,
  assertText "case suite" (tc_suite testCase) MAX_NAME_BYTES false ≫= λ _,
  assertText "case file" (tc_file testCase) MAX_NAME_BYTES false ≫= λ _,
  assertText "case message" (tc_message testCase) MAX_MESSAGE_BYTES false ≫= λ _,
  assertCount (tc_durationMs testCase) MAX_DURATION_MS ≫= λ _,
  match tc_retries testCase with Some r => assertCount r 1000 | None => mret tt end.

Definition passedAt (passed : string) (index : nat) : string :=
  String.substring (index * PASSED_HASH_LENGTH) PASSED_HASH_LENGTH passed.

(** [for (let index = 1; index < hashes; index++)] *)
Definition assert_sorted (passed : string) (hashes : nat) : tx S unit :=
  for_each (seq 1 (hashes - 1)) (λ index,
    if str_leb (passedAt passed index) (passedAt passed (index - 1))
    then throw "Test report passed ids are not sorted and unique" else mret tt).

Definition assertValidReport (report : test_report) : tx S unit :=
  let totals := tr_totals report in
  let cases := or_else [] (tr_cases report) in
  if match tr_commitSha report with Some c => negb (is_commit c) | None => false end then
    throw "Test report commit is not a hex object id"
  else
    assertCount (tr_files report) MAX_FILES ≫= λ _,
    for_each [tt_tests totals; tt_passed totals; tt_failed totals; tt_errored totals; tt_skipped totals; tt_flaky totals]
      (λ count, assertCount count MAX_TOTAL) ≫= λ _,
    if negb (num_eqb (f_add (f_add (f_add (f_add (tt_passed totals) (tt_failed totals)) (tt_errored totals)) (tt_skipped totals))
                        (tt_flaky totals)) (tt_tests totals)) then
      throw "Test report counts do not add up to its total"
    else
      assertCount (tt_durationMs totals) (MAX_TOTAL * 1000) ≫= λ _,
      if Nat.ltb MAX_CASES (length cases) || num_ltb (tt_tests totals) (num_of_Z (Z.of_nat (length cases))) then
        throw "Test report lists more cases than it may"
      else
        for_each cases assert_case ≫= λ _,
        if negb (Nat.eqb (String.length (tr_passed report) mod PASSED_HASH_LENGTH) 0) || negb (str_all is_hex (tr_passed report)) then
          throw "Test report passed ids are not hex hashes"
        else
          let hashes := (String.length (tr_passed report) / PASSED_HASH_LENGTH)%nat in
          if (MAX_PASSED <? Z.of_nat hashes) || num_ltb (tt_passed totals) (num_of_Z (Z.of_nat hashes)) then
            throw "Test report carries more passed ids than it may"
          else assert_sorted (tr_passed report) hashes.
End assertions.

(** [x >> 1] of a number that fits: the sum is made a 32-bit integer first. *)
Definition to_int32 (x : Z) : Z := (x + 2 ^ 31) mod 2 ^ 32 - 2 ^ 31.

(** The loop of [hasPassed].  Every turn shrinks [high - low], so the turns are as many as the
    hashes, plus the last test; the length of the string is more. *)
Fixpoint search (fuel : nat) (passed hash : string) (low high : Z) : bool :=
  match fuel with
  | O => false
  | S fuel =>
      if high <? low then false
      else
        let middle := Z.shiftr (to_int32 (low + high)) 1 in
        let candidate := passedAt passed (Z.to_nat middle) in
        if String.eqb candidate hash then true
        else if negb (str_leb hash candidate) then search fuel passed hash (middle + 1) high
        else search fuel passed hash low (middle - 1)
  end.

(** A length that is no multiple of 12 leaves a fraction in [high], which no comparison or
    truncation of the loop sees. *)
Definition hasPassed (passed hash : string) : bool :=
  search (S (String.length passed)) passed hash 0 (Z.of_nat (String.length passed / PASSED_HASH_LENGTH) - 1).

Definition repositoryName (a : attempt) : option string :=
  match at_repo a with
  | None => None
  | Some repo =>
      if String.eqb repo "" then None
      else match at_owner a with
           | None => Some repo
           | Some owner => if str_has "/" repo || String.eqb owner "" then Some repo else Some (owner +:+ "/" +:+ repo)
           end
  end.

Definition nonempty (s : string) : option string := if String.eqb s "" then None else Some s.

(** [workflowRef.lastIndexOf("@")], then what follows it *)
Definition branchFromWorkflowRef (workflowRef : option string) : option string :=
  match workflowRef with
  | None => None
  | Some w =>
      if negb (str_has "@" w) then None
      else
        let ref := or_else "" (last (str_split "@" w)) in
        if starts_with "refs/heads/" ref then nonempty (slice_from (String.length "refs/heads/") ref)
        else if starts_with "refs/" ref then nonempty (slice_from (String.length "refs/") ref)
        else nonempty ref
  end.

Definition workflowRefRepository (workflowRef : string) : option string :=
  (λ i, slice0 i workflowRef) <$> String.index 0 "/.github/workflows/" workflowRef.

Definition runBranch (a : attempt) : option string :=
  match at_headBranch a with
  | Some b => Some b
  | None =>
      match repositoryName a, at_workflowRef a with
      | Some repository, Some workflowRef =>
          if bool_decide (to_lower <$> workflowRefRepository workflowRef = Some (to_lower repository))
          then branchFromWorkflowRef (Some workflowRef) else None
      | _, _ => None
      end
  end.

Definition COMMIT_JOINED_EVENTS : list string := ["push"; "schedule"; "workflow_dispatch"; "merge_group"].

(** [JSON.stringify] of a list of texts, each already JSON *)
Definition json_list (items : list string) : string := "[" +:+ str_join "," items +:+ "]".
Definition json_or_null (s : option string) : string := match s with Some s => json_string s | None => "null" end.

Definition revisionKey (a : attempt) (commitSha : option string) : option string :=
  let job := json_or_null (at_displayName a) in
  let by_run := (λ run, "run:" +:+ json_list [json_Z run; job]) <$> at_workflowRunId a in
  match commitSha, at_headBranch a, at_eventName a with
  | Some commit, Some branch, Some event =>
      if bool_decide (event ∈ COMMIT_JOINED_EVENTS)
      then Some ("commit:" +:+ json_list [json_string commit; json_string branch; job]) else by_run
  | _, _, _ => by_run
  end.

Record flaky_finding := FlakyFinding { ff_case : test_case; ff_evidence : flaky_evidence }.

Record revision_peer := RevisionPeer { pe_ref : Id; pe_passed : string; pe_failing : string }.

Definition isFailing (status : test_status) : bool := (status === TestFailed) || (status === TestErrored).

(** The keys of [slowestTests]' answer. *)
Record slow_test := SlowTest {
  sl_testId : string;
  sl_suite : option string;
  sl_name : string;
  sl_runs : Z;
  sl_maxDurationMs : num;
  sl_meanDurationMs : num;
  sl_lastDurationMs : num;
  sl_lastSeenAt : Z;
}.
#[export] Instance slow_test_rebuild : Rebuild slow_test := λ t,
  SlowTest (sl_testId t) (sl_suite t) (sl_name t) (sl_runs t) (sl_maxDurationMs t) (sl_meanDurationMs t) (sl_lastDurationMs t)
    (sl_lastSeenAt t).

(** One turn of the loop: the group of the row's test, with the sum of its durations. *)
Definition slow_step (byTest : list (string * (slow_test * num))) (row : test_case_row) : list (string * (slow_test * num)) :=
  let c := cs_case row in
  map_set (tc_id c)
    match map_get (tc_id c) byTest with
    | None =>
        (SlowTest (tc_id c) (tc_suite c) (tc_name c) 1 (tc_durationMs c) (tc_durationMs c) (tc_durationMs c) (cs_recordedAt row),
         tc_durationMs c)
    | Some (t, total) =>
        let t := t <| sl_runs ::= λ n, n + 1 |> <| sl_maxDurationMs ::= λ m, num_max m (tc_durationMs c) |> in
        (if sl_lastSeenAt t <? cs_recordedAt row
         then t <| sl_lastSeenAt := cs_recordedAt row |> <| sl_lastDurationMs := tc_durationMs c |> else t,
         f_add total (tc_durationMs c))
    end byTest.

Section analysis.
Context (sha256 : list Z → list Z) (localeCompare : string → string → Z).

Definition passedHash (i : string) : string :=
  str_join "" ((λ b, hex_byte (Z.to_nat b)) <$> take (PASSED_HASH_LENGTH / 2) (sha256 (utf8_bytes i))).

Definition failingHashes (cases : list test_case) : string :=
  str_join "" (to_sorted str_cmp (set_of ((λ c, passedHash (tc_id c)) <$> filter (λ c, isFailing (tc_status c) = true) cases))).

Definition findings_map := list (string * flaky_finding).

(** The first loop: cases the runner retried into a pass. *)
Definition retried_step (limit : nat) (findings : findings_map) (c : test_case) : findings_map :=
  if Nat.leb limit (length findings) then findings
  else if tc_status c === TestFlaky then map_set (tc_id c) (FlakyFinding c Retried) findings else findings.

(** The second: cases this upload failed and an earlier one of the revision passed. *)
Definition failed_step (limit : nat) (peers : list revision_peer) (findings : findings_map) (c : test_case) : findings_map :=
  if Nat.leb limit (length findings) || is_some (map_get (tc_id c) findings) then findings
  else if existsb (λ p, hasPassed (pe_passed p) (passedHash (tc_id c))) peers
  then map_set (tc_id c) (FlakyFinding c Rerun) findings else findings.

(** The third, for one hash of one peer: a failure of the peer this upload passed. *)
Definition peer_step (limit : nat) (found : nat) (passed : string) (peer : revision_peer)
    (acc : list string * list (Id * string)) (index : nat) : list string * list (Id * string) :=
  let '(seen, failures) := acc in
  if Nat.leb limit (found + length failures) then acc
  else
    let hash := passedAt (pe_failing peer) index in
    if bool_decide (hash ∈ seen) || negb (hasPassed passed hash) then acc
    else (seen ++ [hash], failures ++ [(pe_ref peer, hash)]).

Definition findFlaky (cases : list test_case) (passed : string) (peers : list revision_peer) (limit : nat)
    : list flaky_finding * list (Id * string) :=
  let findings := foldl (retried_step limit) [] cases in
  let findings := foldl (failed_step limit peers) findings (filter (λ c, isFailing (tc_status c) = true) cases) in
  let seen := set_of ((λ c, passedHash (tc_id c)) <$> cases) in
  let acc := foldl (λ acc peer,
    foldl (peer_step limit (length findings) passed peer) acc (seq 0 ((String.length (pe_failing peer) + (PASSED_HASH_LENGTH - 1)) / PASSED_HASH_LENGTH)))
    (seen, []) peers in
  (findings.*2, acc.2).

(** [l.slice(0, n)] *)
Definition slice_end {A} (n : num) (l : list A) : list A :=
  match n with
  | NaN | NegInf => []
  | PosInf => l
  | Fin q =>
      let k := if Qle_bool 0 q then Qfloor q else Qceiling q in
      take (Z.to_nat (if k <? 0 then Z.of_nat (length l) + k else k)) l
  end.

Definition slowestTests (rows : list test_case_row) (limit : num) : list slow_test :=
  slice_end limit
    (to_sorted (λ a b,
       let d := num_cmp (sl_meanDurationMs b) (sl_meanDurationMs a) in
       if d =? 0 then localeCompare (sl_testId a) (sl_testId b) else d)
     ((λ e : string * (slow_test * num),
         e.2.1 <| sl_meanDurationMs := math_round (f_div e.2.2 (num_of_Z (sl_runs e.2.1))) |>)
       <$> foldl slow_step [] rows)).
End analysis.

(** ** testReports.ts *)

Definition PURGE_CASES : nat := 1000.
Definition PURGE_REPORTS : nat := 10.
Definition PURGE_FLAKY : nat := 200.
Definition MAX_RUNS : Z := 100.
Definition MAX_SLOW_ROWS : nat := 2000.
Definition MAX_FAILURES_PER_RUN : nat := 20.
Definition MAX_REPOSITORIES : nat := 200.

Section storage.
Context (sha256 : list Z → list Z) (localeCompare : string → string → Z).

Definition recordFlaky (repository : string) (attemptId : Id) (branch commitSha : option string) (finding : flaky_finding) (now : Z)
    : tx telemetry unit :=
  let testCase := ff_case finding in
  row ← db_unique flakyTests (λ f, (fk_repository f === repository) && (fk_testId f === tc_id testCase));
  match row with
  | None =>
      db_insert flakyTests (FlakyTest repository (tc_id testCase) (tc_suite testCase) (tc_name testCase) (tc_file testCase) now now 1
        (ff_evidence finding) branch commitSha (tc_message testCase) [attemptId]) ≫= λ _, mret tt
  | Some (i, f) =>
      if bool_decide (attemptId ∈ fk_attemptIds f) then mret tt
      else
        db_patch flakyTests i (λ d, d <| fk_lastSeenAt := now |> <| fk_lastEvidence := ff_evidence finding |>
          <| fk_lastBranch := branch |> <| fk_lastCommitSha := commitSha |> <| fk_lastMessage := tc_message testCase |>
          <| fk_occurrences := fk_occurrences f + 1 |>
          <| fk_attemptIds := take MAX_FLAKY_ATTEMPTS (attemptId :: fk_attemptIds f) |>)
  end.

(** The earlier reports of the revision, newest first, with their hashes. *)
Definition revision_peers (reportId : Id) (repository revision : string) : tx telemetry (list revision_peer) :=
  peerReports ← read (λ s, take (MAX_REVISION_PEERS + 1) (reverse (t_where (λ r,
    (rp_repository r === Some repository) && (rp_revision r === Some revision)) (testReports s))));
  peers ← map_tx (λ peer : Id * test_report_row,
    if peer.1 === reportId then mret []
    else
      hashes ← db_first testReportHashes (λ h, hs_reportId h === peer.1);
      mret [RevisionPeer peer.1 (match hashes with Some (_, h) => hs_passed h | None => rp_passed peer.2 end)
                                (match hashes with Some (_, h) => hs_failing h | None => "" end)]) peerReports;
  mret (concat peers).

(** One earlier failure this upload passed: the case it was, if its row still says so. *)
Definition peer_failure (flaky : findings_map) (failure : Id * string) : tx telemetry findings_map :=
  row ← db_first testCases (λ c, (cs_reportId c === failure.1) && (cs_testHash c === Some failure.2));
  mret match row with
       | None => flaky
       | Some (_, c) =>
           if negb (isFailing (tc_status (cs_case c))) || is_some (map_get (tc_id (cs_case c)) flaky) then flaky
           else map_set (tc_id (cs_case c)) (FlakyFinding (cs_case c) Rerun) flaky
       end.

(** The row of [testReports] an upload writes. *)
Definition report_row (attemptId machineId : Id) (a : attempt) (report : test_report) (now : Z) : test_report_row :=
  let repository := repositoryName a in
  TestReportRow attemptId machineId repository (runBranch a) (at_displayName a) (at_workflowRunId a) (tr_commitSha report)
    (match repository with None => None | Some _ => revisionKey a (tr_commitSha report) end) now (tr_files report)
    (tr_truncated report) (tr_totals report) ""
    (Some (num_ltb (num_of_Z 0) (f_add (tt_failed (tr_totals report)) (tt_errored (tr_totals report))))).

(** The flaky tests the stored upload shows: its own cases, then earlier failures it passed. *)
Definition detect_flaky (reportId : Id) (repository : string) (revision : option string) (report : test_report)
    : tx telemetry (list flaky_finding) :=
  peers ← match revision with Some r => revision_peers reportId repository r | None => mret [] end;
  let '(findings, peerFailures) := findFlaky sha256 (or_else [] (tr_cases report)) (tr_passed report) peers MAX_FLAKY_FINDINGS in
  flaky ← fold_tx peer_failure (map_of ((λ f, (tc_id (ff_case f), f)) <$> findings)) peerFailures;
  mret flaky.*2.

Definition recordAttemptTests (machineId attemptId : Id) (report : test_report) (now : Z) : tx telemetry bool :=
  found ← attempt_get attemptId;
  match found with
  | None => mret false
  | Some a =>
      if at_machineId a !== Some machineId then mret false
      else if match at_finishedAt a with Some t => TESTS_LATE_REPORT_MS <? now - t | None => false end then mret false
      else
        assertValidReport report ≫= λ _,
        existing ← db_first testReports (λ r, rp_attemptId r === attemptId);
        match existing with
        | Some _ => mret true
        | None =>
            let row := report_row attemptId machineId a report now in
            let cases := or_else [] (tr_cases report) in
            reportId ← db_insert testReports row;
            db_insert testReportHashes (ReportHashes reportId (tr_passed report) (failingHashes sha256 cases)) ≫= λ _,
            for_each cases (λ testCase,
              db_insert testCases (TestCaseRow reportId attemptId (rp_repository row) (rp_branch row) now
                (Some (passedHash sha256 (tc_id testCase))) testCase) ≫= λ _, mret tt) ≫= λ _,
            match rp_repository row with
            | None => mret true
            | Some repository =>
                flaky ← detect_flaky reportId repository (rp_revision row) report;
                for_each flaky (λ finding,
                  recordFlaky repository attemptId (rp_branch row) (tr_commitSha report) finding now) ≫= λ _,
                mret true
            end
        end
  end.

(** workerApi.ts *)
Definition reportAttemptTests (token : string) (attemptId : Id) (report : test_report) (now : Z) : tx telemetry bool :=
  machine ← on_control (machineForToken token);
  recordAttemptTests machine.1 attemptId report now.

(** *** Reads *)

Record runs_filter := RunsFilter {
  rf_repository : option string;
  rf_since : option Z;
  rf_failedOnly : bool;
  rf_limit : num;
}.

Definition limitOf (limit : option num) : num :=
  num_max (num_of_Z 1) (num_min (num_floor (or_else (num_of_Z 50) limit)) (num_of_Z MAX_RUNS)).

(** [.take(n)] throws unless [n] is a non-negative integer. *)
Definition take_num {S A} (n : num) (l : list A) : tx S (list A) :=
  match num_integer n with
  | Some k => if k <? 0 then throw "take() argument is negative" else mret (take (Z.to_nat k) l)
  | None => throw "take() argument is not an integer"
  end.

Definition reportsSince (filter : runs_filter) (s : telemetry) : list (Id * test_report_row) :=
  by_column rp_recordedAt (t_where (λ r,
    (negb (rf_failedOnly filter) || (rp_failing r === Some true)) &&
    match rf_repository filter with Some repository => rp_repository r === Some repository | None => true end &&
    (or_else 0 (rf_since filter) <=? rp_recordedAt r)) (testReports s)).

Definition status_text (s : test_status) : string :=
  match s with TestPassed => "passed" | TestFailed => "failed" | TestErrored => "errored" | TestSkipped => "skipped" | TestFlaky => "flaky" end.

(** The cases of a report in a range of [by_report_status] *)
Definition cases_where (reportId : Id) (P : test_status → bool) (s : telemetry) : list (Id * test_case_row) :=
  to_sorted (λ a b : Id * test_case_row, str_cmp (status_text (tc_status (cs_case a.2))) (status_text (tc_status (cs_case b.2))))
    (t_where (λ c, (cs_reportId c === reportId) && P (tc_status (cs_case c))) (testCases s)).

Definition reportFailures (reportId : Id) : tx telemetry (list (Id * test_case_row)) :=
  failing ← read (λ s, take MAX_FAILURES_PER_RUN (cases_where reportId (λ st, negb (str_leb "passed" (status_text st))) s));
  if Nat.leb MAX_FAILURES_PER_RUN (length failing) then mret failing
  else
    skipped ← read (λ s, take (MAX_FAILURES_PER_RUN - length failing)
      (cases_where reportId (λ st, negb (str_leb (status_text st) "passed")) s));
    mret (failing ++ skipped).

(** A run of the Tests page: the report, what its Attempt was, and its first failures. *)
Record run_view := RunView {
  rv_reportId : Id;
  rv_report : test_report_row;
  rv_profile : option string;
  rv_runnerName : option string;
  rv_result : option string;
  rv_failures : list test_case;
}.

Definition readRuns (filter : runs_filter) : tx telemetry (list run_view) :=
  rows ← read (λ s, reverse (reportsSince filter s));
  reports ← take_num (num_min (rf_limit filter) (num_of_Z MAX_RUNS)) rows;
  map_tx (λ report : Id * test_report_row,
    found ← attempt_get (rp_attemptId report.2);
    failures ← reportFailures report.1;
    mret (RunView report.1 report.2 (at_profile <$> found) (at_runnerName <$> found) (a ← found; at_result a)
            ((λ c : Id * test_case_row, cs_case c.2) <$> failures))) reports.

Record list_filter := ListFilter { lf_repository : option string; lf_since : option Z; lf_limit : num }.

Definition readFlaky (filter : list_filter) : tx telemetry (list flaky_test) :=
  rows ← read (λ s, reverse (by_column fk_lastSeenAt (t_where (λ f,
    match lf_repository filter with Some repository => fk_repository f === repository | None => true end &&
    (or_else 0 (lf_since filter) <=? fk_lastSeenAt f)) (flakyTests s))));
  found ← take_num (num_min (lf_limit filter) (num_of_Z MAX_RUNS)) rows;
  mret found.*2.

Definition readSlowest (filter : list_filter) : tx telemetry (list slow_test) :=
  recent ← read (λ s, take MAX_SLOW_ROWS (reverse (by_column cs_recordedAt (t_where (λ c,
    match lf_repository filter with Some repository => cs_repository c === Some repository | None => true end &&
    (tc_status (cs_case c) === TestPassed) && (or_else 0 (lf_since filter) <=? cs_recordedAt c)) (testCases s)))));
  mret (slowestTests localeCompare recent.*2 (num_min (lf_limit filter) (num_of_Z MAX_RUNS))).

(** The first repository name past [after] in the index, if any. *)
Definition next_repository (after : string) (s : telemetry) : option string :=
  head (to_sorted str_cmp (omap (λ r : Id * test_report_row, rp_repository r.2)
    (t_where (λ r, match rp_repository r with Some name => negb (str_leb name after) | None => false end) (testReports s)))).

(** The loop, one turn per name: it ends at [MAX_REPOSITORIES] names. *)
Fixpoint repositories_from (turns : nat) (after : string) (s : telemetry) : list string :=
  match turns with
  | O => []
  | S turns => match next_repository after s with None => [] | Some name => name :: repositories_from turns name s end
  end.

Definition readRepositories : tx telemetry (list string) := read (repositories_from MAX_REPOSITORIES "").

Definition readAttempt (attemptId : Id) : tx telemetry (option (test_report_row * list test_case)) :=
  report ← db_first testReports (λ r, rp_attemptId r === attemptId);
  match report with
  | None => mret None
  | Some (i, r) =>
      cases ← read (λ s, take MAX_CASES (t_where (λ c, cs_reportId c === i) (testCases s)));
      mret (Some (r, (λ c : Id * test_case_row, cs_case c.2) <$> cases))
  end.

(** *** Retention *)

(** The purge of one expired report: what is left of the budget, the rows deleted so far and
    whether it stopped with work left. *)
Record purge_state := PurgeState { pu_budget : nat; pu_deleted : Z; pu_more : bool; pu_stopped : bool }.

Definition purge_report (st : purge_state) (report : Id * test_report_row) : tx telemetry purge_state :=
  if pu_stopped st then mret st
  else if Nat.eqb (pu_budget st) 0 then mret (PurgeState 0 (pu_deleted st) true true)
  else
    cases ← read (λ s, take (pu_budget st) (t_where (λ c, cs_reportId c === report.1) (testCases s)));
    for_each cases (λ c, db_delete testCases c.1) ≫= λ _,
    let deleted := pu_deleted st + Z.of_nat (length cases) in
    if Nat.eqb (length cases) (pu_budget st) then mret (PurgeState (pu_budget st) deleted true true)
    else
      hashes ← db_first testReportHashes (λ h, hs_reportId h === report.1);
      match hashes with Some h => db_delete testReportHashes h.1 | None => mret tt end ≫= λ _,
      db_delete testReports report.1 ≫= λ _,
      mret (PurgeState (pu_budget st - length cases) (deleted + (if is_some hashes then 1 else 0) + 1) (pu_more st) false).

Definition purgeTests (now : Z) : tx telemetry Z :=
  let cutoff := now - TEST_RETENTION_MS in
  reports ← read (λ s, take PURGE_REPORTS (by_column rp_recordedAt (t_where (λ r, rp_recordedAt r <? cutoff) (testReports s))));
  st ← fold_tx purge_report (PurgeState PURGE_CASES 0 (Nat.eqb (length reports) PURGE_REPORTS) false) reports;
  flakyRows ← read (λ s, take PURGE_FLAKY (by_column fk_lastSeenAt (t_where (λ f, fk_lastSeenAt f <? cutoff) (flakyTests s))));
  for_each flakyRows (λ f, db_delete flakyTests f.1) ≫= λ _,
  when (pu_more st || Nat.eqb (length flakyRows) PURGE_FLAKY) (purge_again PurgeTests) ≫= λ _,
  mret (pu_deleted st + Z.of_nat (length flakyRows)).
End storage.
