(* ===== verification/TestReportProperties.v ===== *)
(** Theorems about test results: the search of passed hashes, what joins two runs to one revision,
    what a flaky row rests on, and the purge of old reports. *)

From S2P Require Import Prelude JsLib Schema HostLabels Egress AppPolicy InfraSchema InfraStore DockerArgs Ingress.
From S2P Require Import JsText WorkerApi Fleet Frames Fixtures Telemetry TestReports.

(** ** The order of strings *)

Lemma str_leb_trans a b c : str_leb a b = true → str_leb b c = true → str_leb a c = true.
Proof. apply chars_leb_trans. Qed.

Lemma str_leb_refl a : str_leb a a = true.
Proof. unfold str_leb. by destruct (chars_leb_total (String.list_ascii_of_string a) (String.list_ascii_of_string a)). Qed.

Lemma str_lt_le a b : str_leb b a = false → str_leb a b = true.
Proof.
  unfold str_leb. intros H. destruct (chars_leb_total (String.list_ascii_of_string a) (String.list_ascii_of_string b)); congruence.
Qed.

Lemma str_lt_trans a b c : str_leb b a = false → str_leb c b = false → str_leb c a = false.
Proof.
  intros H1 H2. destruct (str_leb c a) eqn:E; [|done].
  by rewrite (str_leb_trans c a b) in H2 by (done || by apply str_lt_le).
Qed.

(** ** Binary search *)

Definition hash_count (passed : string) : nat := (String.length passed / PASSED_HASH_LENGTH)%nat.

Lemma hash_count_le passed : (hash_count passed ≤ String.length passed)%nat.
Proof. apply Nat.Div0.div_le_upper_bound. unfold PASSED_HASH_LENGTH. lia. Qed.

(** The hashes a string of hashes holds. *)
Definition hashes_of (passed : string) : list string := passedAt passed <$> seq 0 (hash_count passed).

Lemma elem_of_hashes_of h passed : h ∈ hashes_of passed ↔ ∃ i, (i < hash_count passed)%nat ∧ passedAt passed i = h.
Proof. unfold hashes_of. rewrite list_elem_of_fmap. setoid_rewrite elem_of_seq. split; intros (i & ? & ?); exists i; split; try done; lia. Qed.

(** Strictly increasing hashes. *)
Definition ascending (passed : string) : Prop :=
  ∀ i j, (i < j < hash_count passed)%nat → str_leb (passedAt passed j) (passedAt passed i) = false.

Lemma adjacent_ascending passed :
  (∀ i, (S i < hash_count passed)%nat → str_leb (passedAt passed (S i)) (passedAt passed i) = false) → ascending passed.
Proof.
  intros Hadj i j [Hij Hj]. induction j as [|j IH]; [lia|].
  destruct (decide (i = j)) as [->|]; [by apply Hadj|].
  eapply str_lt_trans; [apply IH; lia|by apply Hadj].
Qed.

(** Where a string of hashes can be searched. *)
Definition searchable (passed : string) : Prop := ascending passed ∧ Z.of_nat (hash_count passed) ≤ MAX_PASSED.

Lemma middle_between low high :
  0 ≤ low → low ≤ high → high < MAX_PASSED → low ≤ Z.shiftr (to_int32 (low + high)) 1 ≤ high.
Proof.
  unfold MAX_PASSED. intros ???. unfold to_int32. rewrite Z.mod_small by lia.
  rewrite Z.shiftr_div_pow2 by lia. replace (low + high + 2 ^ 31 - 2 ^ 31) with (low + high) by lia.
  change (2 ^ 1) with 2. split; [apply Z.div_le_lower_bound; lia|]. apply Z.div_le_upper_bound; lia.
Qed.

(** Whatever the string, a hit is one of its slices. *)
Lemma search_sound fuel passed hash low high : search fuel passed hash low high = true → ∃ i, passedAt passed i = hash.
Proof.
  revert low high. induction fuel as [|fuel IH]; intros low high; cbn [search]; [done|].
  destruct (high <? low); [done|]. case_match eqn:E; [|case_match; apply IH].
  intros _. apply String.eqb_eq in E. eauto.
Qed.

(** Within the bounds a hit is one of the hashes. *)
Lemma search_found fuel passed hash low high :
  searchable passed → 0 ≤ low → high < Z.of_nat (hash_count passed) → search fuel passed hash low high = true →
  ∃ i, (i < hash_count passed)%nat ∧ passedAt passed i = hash.
Proof.
  intros [_ Hmax]. revert low high. induction fuel as [|fuel IH]; intros low high Hlow Hhigh; cbn [search]; [done|].
  destruct (Z.ltb_spec high low); [done|]. destruct (middle_between low high); [lia..|].
  case_match eqn:E; [|case_match; apply IH; lia]. intros _. apply String.eqb_eq in E. eexists; split; [|done]. lia.
Qed.

(** Enough turns find a hash between the bounds. *)
Lemma search_complete fuel passed hash low high i :
  searchable passed → 0 ≤ low → high < Z.of_nat (hash_count passed) → high - low + 1 < Z.of_nat fuel →
  low ≤ Z.of_nat i ≤ high → passedAt passed i = hash → search fuel passed hash low high = true.
Proof.
  intros [Hasc Hmax]. revert low high. induction fuel as [|fuel IH]; intros low high Hlow Hhigh Hfuel Hi Heq; [lia|].
  cbn [search]. destruct (Z.ltb_spec high low) as [|Hle]; [lia|].
  destruct (middle_between low high) as [Hm1 Hm2]; [lia..|].
  set (m := Z.shiftr (to_int32 (low + high)) 1) in *.
  destruct (String.eqb_spec (passedAt passed (Z.to_nat m)) hash) as [|Hne]; [done|].
  destruct (decide (i < Z.to_nat m)%nat) as [Hlt|Hge].
  - assert (str_leb hash (passedAt passed (Z.to_nat m)) = true) as -> by (rewrite <- Heq; apply str_lt_le, Hasc; lia).
    cbn [negb]. apply IH; lia || done.
  - assert (Z.to_nat m < i)%nat as Hlt.
    { destruct (decide (i = Z.to_nat m)) as [->|]; [by rewrite Heq in Hne|lia]. }
    assert (str_leb hash (passedAt passed (Z.to_nat m)) = false) as -> by (rewrite <- Heq; apply Hasc; lia).
    cbn [negb]. apply IH; lia || done.
Qed.

(** ** What an accepted report satisfies *)

Lemma acts_assertText {S} field v limit required : acts (S := S) eq (assertText field v limit required).
Proof. unfold assertText. acts_walk fail. Qed.

Lemma acts_assertCount {S} v max : acts (S := S) eq (assertCount v max).
Proof. unfold assertCount. acts_walk fail. Qed.
#[export] Hint Resolve acts_assertText acts_assertCount : acts.

Lemma acts_assertValidReport {S} report : acts (S := S) eq (assertValidReport report).
Proof. unfold assertValidReport, assert_case, assert_sorted. acts_walk fail. Qed.

Lemma for_each_check {S A} (l : list A) (bad : A → bool) msg (s : S) u s' :
  for_each l (λ x, if bad x then throw msg else mret tt) s = Done (u, s') → ∀ x, x ∈ l → bad x = false.
Proof.
  revert s. induction l as [|y l IH]; intros s H x; [by intros ?%elem_of_nil|].
  cbn [for_each] in H. tx_bind_in H v s1 H1. destruct (bad y) eqn:E; [done|].
  intros [->|Hx]%elem_of_cons; [done|by eapply IH].
Qed.

Lemma valid_report_searchable {S} report (s : S) u s' :
  assertValidReport report s = Done (u, s') →
  searchable (tr_passed report) ∧ (String.length (tr_passed report) mod PASSED_HASH_LENGTH = 0)%nat.
Proof.
  unfold assertValidReport. intros H. case_match; [done|].
  tx_bind_in H v1 s1 B1. tx_bind_in H v2 s2 B2. case_match; [done|]. tx_bind_in H v3 s3 B3. case_match; [done|].
  tx_bind_in H v4 s4 B4. case_match eqn:Emod; [done|]. case_match eqn:Emax; [done|].
  apply orb_false_iff in Emod as [Emod%negb_false_iff%Nat.eqb_eq _]. apply orb_false_iff in Emax as [Emax%Z.ltb_ge _].
  split; [|done]. split; [|done]. apply adjacent_ascending. intros i Hi.
  pose proof (for_each_check _ _ _ _ _ _ H (Datatypes.S i)) as Hc. cbv beta in Hc.
  rewrite (Nat.sub_0_r i : Datatypes.S i - 1 = i)%nat in Hc. apply Hc, elem_of_seq. unfold hash_count in Hi. lia.
Qed.

(** C34: the binary search of a report's passed hashes decides membership: for every report the
    validation accepts, [hasPassed] answers true exactly for the hashes the string holds, within the
    turns the model gives its loop and with no overflow of the 32-bit middle. *)
Theorem hasPassed_decides {S} report (s : S) u s' hash :
  assertValidReport report s = Done (u, s') →
  hasPassed (tr_passed report) hash = true ↔ hash ∈ hashes_of (tr_passed report).
Proof.
  intros [Hs _]%valid_report_searchable. rewrite elem_of_hashes_of. unfold hasPassed. fold (hash_count (tr_passed report)). split.
  - apply search_found; [done|lia|lia].
  - intros (i & Hi & Heq). pose proof (hash_count_le (tr_passed report)).
    apply (search_complete _ _ _ _ _ i); first [done | lia].
Qed.

Module ReportDemo.
Definition zeros : test_totals := TestTotals (num_of_Z 2) (num_of_Z 2) (num_of_Z 0) (num_of_Z 0) (num_of_Z 0) (num_of_Z 0) (num_of_Z 10).

Definition two_passes : test_report := TestReport None (num_of_Z 1) false zeros None "0123456789ab89abcdef0123".
End ReportDemo.

Lemma hasPassed_decides_witness :
  assertValidReport ReportDemo.two_passes tt = Done (tt, tt) ∧
  (hasPassed (tr_passed ReportDemo.two_passes) "89abcdef0123" = true ↔
   "89abcdef0123" ∈ hashes_of (tr_passed ReportDemo.two_passes)).
Proof.
  split; [vm_compute; reflexivity|]. apply (hasPassed_decides ReportDemo.two_passes tt tt tt). vm_compute. reflexivity.
Defined.

(** ** Texts that can be taken apart *)

Definition all_ascii : list ascii := ascii_of_nat <$> seq 0 256.

Lemma ascii_check (P : ascii → bool) c : forallb P all_ascii = true → P c = true.
Proof.
  rewrite forallb_elem. intros H. apply H. unfold all_ascii. rewrite list_elem_of_fmap.
  exists (nat_of_ascii c). rewrite ascii_nat_embedding. split; [done|]. apply elem_of_seq.
  pose proof (nat_ascii_bounded c). lia.
Qed.

Lemma prefix_app a b : String.prefix a (a +:+ b) = true.
Proof. induction a as [|c a IH]; [by destruct b|].
  change ((if ascii_dec c c then String.prefix a (a +:+ b) else false) = true). by destruct (ascii_dec c c). Qed.

Lemma str_app_inv a b x y :
  a +:+ x = b +:+ y → (∃ k, a = b +:+ k ∧ y = k +:+ x) ∨ (∃ k, b = a +:+ k ∧ x = k +:+ y).
Proof.
  revert b. induction a as [|c a IH]; intros [|c' b]; simpl; intros H.
  - left. by exists "".
  - right. by exists (String c' b).
  - left. by exists (String c a).
  - injection H as <- H. destruct (IH _ H) as [(k & -> & ->)|(k & -> & ->)]; [left|right]; by exists k.
Qed.

Lemma str_app_assoc (a b c : string) : (a +:+ b) +:+ c = a +:+ b +:+ c.
Proof. induction a as [|x a IH]; [done|]. change (String x ((a +:+ b) +:+ c) = String x (a +:+ b +:+ c)). by rewrite IH. Qed.

Lemma str_app_cancel (a b c : string) : a +:+ b = a +:+ c → b = c.
Proof. induction a as [|x a IH]; [done|]. intros [= H]. auto. Qed.

(** No escape of a character begins another's, nor with the closing quote. *)
Lemma escape_prefix_free :
  forallb (λ c, forallb (λ c', negb (String.prefix (json_escape_char c') (json_escape_char c)) || Ascii.eqb c c') all_ascii) all_ascii = true.
Proof. vm_compute. reflexivity. Qed.

Lemma escape_no_quote :
  forallb (λ c, match json_escape_char c with String q _ => negb (Ascii.eqb q quote_char) | EmptyString => false end) all_ascii = true.
Proof. vm_compute. reflexivity. Qed.

Lemma escape_inv c c' x y : json_escape_char c +:+ x = json_escape_char c' +:+ y → c = c' ∧ x = y.
Proof.
  intros H. assert (c = c') as <-.
  { assert (∀ a b k, json_escape_char a = json_escape_char b +:+ k → a = b) as Hp.
    { intros a b k Hk. pose proof (ascii_check _ a escape_prefix_free) as Ha. apply (ascii_check _ b) in Ha. cbv beta in Ha.
      rewrite Hk, prefix_app in Ha. by apply Ascii.eqb_eq. }
    apply str_app_inv in H as [(k & Hk & _)|(k & Hk & _)]; [by eapply Hp|symmetry; by eapply Hp]. }
  split; [done|by eapply str_app_cancel].
Qed.

Lemma escape_not_quote c x y : json_escape_char c +:+ x ≠ String quote_char y.
Proof.
  pose proof (ascii_check _ c escape_no_quote) as Hc. cbv beta in Hc. destruct (json_escape_char c) as [|q e]; [done|].
  intros [= -> _]. done.
Qed.

(** A JSON string ends where it says. *)
Lemma json_string_inv a b x y : json_string a +:+ x = json_string b +:+ y → a = b ∧ x = y.
Proof.
  unfold json_string. intros [= H].
  rewrite <- (String.string_of_list_ascii_of_string a), <- (String.string_of_list_ascii_of_string b).
  revert H. generalize (String.list_ascii_of_string a) as l. generalize (String.list_ascii_of_string b) as l'. clear a b.
  intros l' l. revert l'. induction l as [|c l IH]; intros [|c' l']; cbn [foldr]; rewrite ?str_app_assoc; intros H.
  - injection H as H. done.
  - symmetry in H. by apply escape_not_quote in H.
  - by apply escape_not_quote in H.
  - apply escape_inv in H as [<- H]. apply IH in H as [Hl ->]. split; [|done]. cbn [String.string_of_list_ascii]. by rewrite Hl.
Qed.

Lemma json_or_null_inv a b x y : json_or_null a +:+ x = json_or_null b +:+ y → a = b ∧ x = y.
Proof.
  destruct a as [a|], b as [b|]; cbn [json_or_null].
  - by intros [-> ->]%json_string_inv.
  - done.
  - done.
  - intros [= H]. done.
Qed.

Lemma pretty_go_digits n s : ∃ d, pretty_N_go n s = d +:+ s ∧ no_char "," d.
Proof.
  revert s. induction (N.lt_wf_0 n) as [n _ IH]; intros s. destruct (decide (0 < n)%N) as [Hn|Hn].
  - rewrite pretty_N_go_step by done. destruct (IH (n / 10)%N) with (s := String (pretty_N_char (n `mod` 10)) s) as (d & -> & Hd).
    { apply N.div_lt; lia. }
    exists (d +:+ String (pretty_N_char (n `mod` 10)) ""). rewrite str_app_assoc. split; [done|].
    unfold no_char, str_has in *. rewrite list_ascii_app, existsb_app, Hd. cbn.
    assert (n `mod` 10 < 10)%N as Hlt by (apply N.mod_lt; lia). generalize dependent (n `mod` 10)%N. clear.
    intros m Hm. rewrite orb_false_r.
    assert (m = 0 ∨ m = 1 ∨ m = 2 ∨ m = 3 ∨ m = 4 ∨ m = 5 ∨ m = 6 ∨ m = 7 ∨ m = 8 ∨ m = 9)%N as Hc by lia.
    by repeat destruct Hc as [->|Hc]; [..|subst].
  - assert (n = 0)%N as -> by lia. exists "". by rewrite pretty_N_go_0.
Qed.

Lemma json_Z_no_comma z : no_char "," (json_Z z).
Proof.
  assert (∀ p, no_char "," (pretty (Npos p))) as Hp.
  { intros p. destruct (pretty_go_digits (Npos p) "") as (d & Hd & Hno). unfold pretty, pretty_N. rewrite decide_False, Hd by done.
    unfold no_char, str_has. rewrite list_ascii_app, existsb_app. unfold no_char, str_has in Hno. by rewrite Hno. }
  destruct z as [|p|p]; [done|apply Hp|]. specialize (Hp p). unfold no_char, str_has in *. exact Hp.
Qed.

Lemma no_char_cut c a b x y :
  no_char c a → no_char c b → a +:+ String c x = b +:+ String c y → a = b ∧ x = y.
Proof.
  unfold no_char, str_has. revert b. induction a as [|p a IH]; intros [|q b]; cbn; intros Ha Hb H.
  - by injection H as ->.
  - injection H as <- _. by rewrite Ascii.eqb_refl in Hb.
  - injection H as -> _. by rewrite Ascii.eqb_refl in Ha.
  - injection H as <- H. apply orb_false_iff in Ha as [_ Ha], Hb as [_ Hb]. destruct (IH b) as [-> ->]; done.
Qed.

(** What a revision key names: the commit, its branch and the job, or the workflow run and the job. *)
Inductive joined (a a' : attempt) (commit commit' : option string) : Prop :=
  | joined_by_commit c branch :
      commit = Some c → commit' = Some c → at_headBranch a = Some branch → at_headBranch a' = Some branch →
      (∃ e, at_eventName a = Some e ∧ e ∈ COMMIT_JOINED_EVENTS) → (∃ e, at_eventName a' = Some e ∧ e ∈ COMMIT_JOINED_EVENTS) →
      at_displayName a = at_displayName a' → joined a a' commit commit'
  | joined_by_run run :
      at_workflowRunId a = Some run → at_workflowRunId a' = Some run → at_displayName a = at_displayName a' →
      joined a a' commit commit'.

Lemma revisionKey_cases a commit k :
  revisionKey a commit = Some k →
  (∃ c branch, commit = Some c ∧ at_headBranch a = Some branch ∧ (∃ e, at_eventName a = Some e ∧ e ∈ COMMIT_JOINED_EVENTS) ∧
     k = "commit:[" +:+ json_string c +:+ String "," (json_string branch +:+ String "," (json_or_null (at_displayName a) +:+ "]"))) ∨
  (∃ run, at_workflowRunId a = Some run ∧ k = "run:[" +:+ json_Z run +:+ String "," (json_or_null (at_displayName a) +:+ "]")).
Proof.
  unfold revisionKey. intros H.
  assert (∀ m, (λ run, "run:" +:+ json_list [json_Z run; json_or_null (at_displayName a)]) <$> m = Some k →
    ∃ run, m = Some run ∧ k = "run:[" +:+ json_Z run +:+ String "," (json_or_null (at_displayName a) +:+ "]")) as Hrun.
  { intros [run|] [= <-]. exists run. split; [done|]. unfold json_list. cbn [str_join].
    change ("run:" +:+ "[" +:+ (json_Z run +:+ "," +:+ json_or_null (at_displayName a)) +:+ "]" =
            "run:" +:+ "[" +:+ json_Z run +:+ "," +:+ json_or_null (at_displayName a) +:+ "]").
    by rewrite !str_app_assoc. }
  destruct commit as [c|]; [|by right; apply Hrun]. destruct (at_headBranch a) as [branch|]; [|by right; apply Hrun].
  destruct (at_eventName a) as [e|]; [|by right; apply Hrun]. case_bool_decide; [|by right; apply Hrun].
  left. exists c, branch. injection H as <-. split_and!; eauto. unfold json_list. cbn [str_join].
  change ("commit:" +:+ "[" +:+ (json_string c +:+ "," +:+ json_string branch +:+ "," +:+ json_or_null (at_displayName a)) +:+ "]" =
          "commit:" +:+ "[" +:+ json_string c +:+ "," +:+ json_string branch +:+ "," +:+ json_or_null (at_displayName a) +:+ "]").
  by rewrite !str_app_assoc.
Qed.

(** C32: two uploads share a revision key only when they are runs of the same code: GitHub ran both
    for an event that tests its own branch's head, on the same branch, with the same commit and the
    same job, or both belong to the same workflow run and job.  The key's JSON text cannot be made to
    collide by names the job chose. *)
Theorem revisionKey_joins a a' commit commit' k :
  revisionKey a commit = Some k → revisionKey a' commit' = Some k → joined a a' commit commit'.
Proof.
  intros [(c & b & -> & Hb & He & ->)|(r & Hr & ->)]%revisionKey_cases
         [(c' & b' & -> & Hb' & He' & Hk)|(r' & Hr' & Hk)]%revisionKey_cases.
  - apply str_app_cancel, json_string_inv in Hk as [<- Hk]. apply (str_app_cancel ","), json_string_inv in Hk as [<- Hk].
    apply (str_app_cancel ",") in Hk. apply json_or_null_inv in Hk as [Hj _]. by eapply joined_by_commit.
  - done.
  - done.
  - apply str_app_cancel, no_char_cut in Hk as [Hz Hk]; [|apply json_Z_no_comma..].
    apply (inj pretty) in Hz as <-. apply json_or_null_inv in Hk as [Hj _]. by eapply joined_by_run.
Qed.

(** ** What a flaky row rests on *)

Lemma length_substring n m s : (String.length (String.substring n m s) ≤ String.length s - n)%nat.
Proof.
  revert n m. induction s as [|c s IH]; intros [|n] [|m]; simpl; try lia.
  - specialize (IH 0%nat m). lia.
  - apply IH.
  - apply IH.
Qed.

(** A hit of full length is one of the hashes, whatever string was searched. *)
Lemma hasPassed_elem passed h : String.length h = PASSED_HASH_LENGTH → hasPassed passed h = true → h ∈ hashes_of passed.
Proof.
  intros Hl [i Hi]%search_sound. apply elem_of_hashes_of. exists i. split; [|done].
  pose proof (length_substring (i * PASSED_HASH_LENGTH) PASSED_HASH_LENGTH passed) as Hs.
  unfold passedAt in Hi. rewrite Hi, Hl in Hs. unfold hash_count, PASSED_HASH_LENGTH in *.
  apply Nat.div_le_lower_bound; lia.
Qed.

Lemma str_length_join (l : list string) n : Forall (λ x, String.length x = n) l → String.length (str_join "" l) = (length l * n)%nat.
Proof.
  induction 1 as [|x l Hx Hl IH]; [done|]. destruct l as [|y l]; cbn [str_join length] in *; [lia|].
  rewrite !str_length_app, IH, Hx. simpl. lia.
Qed.

Section flaky.
Context (sha256 : list Z → list Z) (Hsha : ∀ bytes, length (sha256 bytes) = 32%nat).

Lemma passedHash_length i : String.length (passedHash sha256 i) = PASSED_HASH_LENGTH.
Proof.
  unfold passedHash. rewrite (str_length_join _ 2).
  - rewrite length_fmap, length_take, Hsha. done.
  - apply Forall_fmap, Forall_true. done.
Qed.

(** A finding of an upload's own cases. *)
Definition own_finding (cases : list test_case) (peers : list revision_peer) (f : flaky_finding) : Prop :=
  ff_case f ∈ cases ∧
  (ff_evidence f = Retried ∧ tc_status (ff_case f) = TestFlaky ∨
   ff_evidence f = Rerun ∧ isFailing (tc_status (ff_case f)) = true ∧
   ∃ p, p ∈ peers ∧ passedHash sha256 (tc_id (ff_case f)) ∈ hashes_of (pe_passed p)).

Lemma foldl_keeps {A B} (P : A → Prop) (f : A → B → A) (l : list B) a :
  P a → (∀ a b, b ∈ l → P a → P (f a b)) → P (foldl f a l).
Proof.
  revert a. induction l as [|b l IH]; intros a Ha Hf; simpl; [done|]. apply IH; [apply Hf; [left|done]|].
  intros. apply Hf; [by right|done].
Qed.

Lemma findFlaky_own cases passed peers limit f :
  f ∈ (findFlaky sha256 cases passed peers limit).1 → own_finding cases peers f.
Proof.
  unfold findFlaky. cbn [fst]. intros Hf.
  assert (Forall (λ e, own_finding cases peers e.2)
    (foldl (failed_step sha256 limit peers) (foldl (retried_step limit) [] cases) (filter (λ c, isFailing (tc_status c) = true) cases))) as Hall.
  { apply foldl_keeps.
    - apply foldl_keeps; [constructor|]. intros m c Hc Hm. unfold retried_step. case_match; [done|].
      case_bool_decide; [|done]. apply Forall_map_set; [|done]. split; [done|]. by left.
    - intros m c [Hfail Hc]%list_elem_of_filter Hm. unfold failed_step. case_match; [done|].
      destruct (existsb _ peers) eqn:Hp; [|done]. apply Forall_map_set; [|done]. split; [done|]. right. split_and!; try done.
      apply existsb_elem in Hp as (p & Hp & Hhit). exists p. split; [done|]. by apply hasPassed_elem; [apply passedHash_length|]. }
  apply list_elem_of_fmap in Hf as (e & -> & He). by rewrite Forall_forall in Hall; apply Hall.
Qed.

Lemma findFlaky_peer cases passed peers limit failure :
  failure ∈ (findFlaky sha256 cases passed peers limit).2 →
  (∃ p, p ∈ peers ∧ pe_ref p = failure.1) ∧ hasPassed passed failure.2 = true.
Proof.
  unfold findFlaky. cbn [snd]. revert failure. apply Forall_forall.
  apply (foldl_keeps (λ acc, Forall (λ failure : Id * string, (∃ p, p ∈ peers ∧ pe_ref p = failure.1) ∧ hasPassed passed failure.2 = true) acc.2));
    [constructor|].
  intros acc peer Hpeer Hacc. apply (foldl_keeps (λ acc, Forall _ acc.2)); [done|]. clear acc Hacc.
  intros [seen failures] index _ Hacc. unfold peer_step. case_match; [done|]. case_match eqn:E; [done|]. cbn [snd] in *.
  apply orb_false_iff in E as [_ Hhit%negb_false_iff]. apply Forall_app. split; [done|]. constructor; [|done]. eauto.
Qed.

(** The passes on record for a report. *)
Definition recorded_passes (s : telemetry) (reportId : Id) (passed : string) : Prop :=
  (∃ i h, rows (testReportHashes s) !! i = Some h ∧ hs_reportId h = reportId ∧ hs_passed h = passed) ∨
  (∃ r, rows (testReports s) !! reportId = Some r ∧ rp_passed r = passed).

(** An earlier report of the repository and revision. *)
Definition earlier (s : telemetry) (repository revision : string) (p : Id) : Prop :=
  ∃ r, rows (testReports s) !! p = Some r ∧ rp_repository r = Some repository ∧ rp_revision r = Some revision.

(** The evidence that makes the test [testId] flaky: the job's runner retried it; or this upload
    failed it and an earlier run of the same revision passed it; or the reverse. *)
Definition flaky_justified (s : telemetry) (repository : string) (revision : option string) (report : test_report)
    (testId : string) (evidence : flaky_evidence) : Prop :=
  match evidence with
  | Retried => ∃ c, c ∈ or_else [] (tr_cases report) ∧ tc_id c = testId ∧ tc_status c = TestFlaky
  | Rerun => ∃ rev p, revision = Some rev ∧ earlier s repository rev p ∧
      ((∃ c passed, c ∈ or_else [] (tr_cases report) ∧ tc_id c = testId ∧ isFailing (tc_status c) = true ∧
          recorded_passes s p passed ∧ passedHash sha256 testId ∈ hashes_of passed) ∨
       (∃ i c h, rows (testCases s) !! i = Some c ∧ cs_reportId c = p ∧ tc_id (cs_case c) = testId ∧
          isFailing (tc_status (cs_case c)) = true ∧ cs_testHash c = Some h ∧ h ∈ hashes_of (tr_passed report)))
  end.

Lemma revision_peers_observes s reportId repository revision :
  observes s (revision_peers reportId repository revision) (λ peers, ∀ p, p ∈ peers →
    pe_ref p ≠ reportId ∧ earlier s repository revision (pe_ref p) ∧ recorded_passes s (pe_ref p) (pe_passed p)).
Proof.
  unfold revision_peers. eapply observes_bind; [apply (observes_read _ _ (λ l, ∀ r, r ∈ l → earlier s repository revision r.1 ∧ rows (testReports s) !! r.1 = Some r.2))|].
  { intros r (k & Hr%list_elem_of_lookup_2 & _)%elem_of_take. apply elem_of_reverse, t_where_sound in Hr as [Hr HP].
    apply andb_true_iff in HP as [HP1 HP2]. apply bool_decide_eq_true in HP1, HP2. split; [|done]. by exists r.2. }
  intros peerReports Hpeers. eapply observes_bind; [apply (observes_map _ _ (λ _ ps, ∀ p, p ∈ ps →
    pe_ref p ≠ reportId ∧ earlier s repository revision (pe_ref p) ∧ recorded_passes s (pe_ref p) (pe_passed p)))|].
  - intros peer Hpeer. destruct (Hpeers _ Hpeer) as [He Hrow]. case_bool_decide; [apply observes_ret; intros ? []%elem_of_nil|].
    eapply observes_bind; [apply (observes_first _ _ _ (λ o, ∀ i h, o = Some (i, h) → rows (testReportHashes s) !! i = Some h ∧ hs_reportId h = peer.1))|].
    + done.
    + intros i h Hh HP%bool_decide_eq_true j h' [= <- <-]. done.
    + intros o Ho. apply observes_ret. intros p ->%list_elem_of_singleton. cbn [pe_ref pe_passed]. split_and!; [done..|].
      destruct o as [[i h]|]; [left|right; eauto]. destruct (Ho i h) as [??]; eauto.
  - intros ps Hps. apply observes_ret. intros p (l & Hl & Hin)%elem_of_concat.
    apply list_elem_of_lookup in Hin as [k Hk]. destruct (Forall2_lookup_r _ _ _ _ _ Hps Hk) as (? & _ & Hq). by apply Hq.
Qed.

(** What [detect_flaky] finds in the store [s1] its upload was just written to. *)
Lemma detect_flaky_observes s1 reportId repository revision report :
  (∀ h, hasPassed (tr_passed report) h = true → h ∈ hashes_of (tr_passed report)) →
  observes s1 (detect_flaky sha256 reportId repository revision report) (λ fs, ∀ f, f ∈ fs →
    match ff_evidence f with
    | Retried => ff_case f ∈ or_else [] (tr_cases report) ∧ tc_status (ff_case f) = TestFlaky
    | Rerun => ∃ rev p, revision = Some rev ∧ p ≠ reportId ∧ earlier s1 repository rev p ∧
        ((∃ passed, ff_case f ∈ or_else [] (tr_cases report) ∧ isFailing (tc_status (ff_case f)) = true ∧
            recorded_passes s1 p passed ∧ passedHash sha256 (tc_id (ff_case f)) ∈ hashes_of passed) ∨
         (∃ i c h, rows (testCases s1) !! i = Some c ∧ cs_reportId c = p ∧ cs_case c = ff_case f ∧
            isFailing (tc_status (cs_case c)) = true ∧ cs_testHash c = Some h ∧ h ∈ hashes_of (tr_passed report)))
    end).
Proof.
  intros Hsound. unfold detect_flaky.
  eapply observes_bind; [instantiate (1 := λ peers, ∀ p, p ∈ peers → ∃ rev, revision = Some rev ∧ pe_ref p ≠ reportId ∧
    earlier s1 repository rev (pe_ref p) ∧ recorded_passes s1 (pe_ref p) (pe_passed p))|].
  { destruct revision as [rev|]; [|apply observes_ret; intros ? []%elem_of_nil].
    eapply observes_weaken; [apply revision_peers_observes|]. intros peers H p Hp. destruct (H p Hp) as (?&?&?). eauto 6. }
  intros peers Hpeers. destruct (findFlaky _ _ _ _ _) as [findings failures] eqn:E.
  pose proof (findFlaky_own (or_else [] (tr_cases report)) (tr_passed report) peers MAX_FLAKY_FINDINGS) as Hown.
  pose proof (findFlaky_peer (or_else [] (tr_cases report)) (tr_passed report) peers MAX_FLAKY_FINDINGS) as Hpeer.
  rewrite E in Hown, Hpeer. cbn [fst snd] in Hown, Hpeer.
  match goal with |- observes _ _ ?Q => set (found := Q) end.
  eapply observes_bind; [apply (observes_fold _ _ (λ m, found m.*2))|].
  - intros m failure Hfail Hm. destruct (Hpeer _ Hfail) as [(p & Hp & Href) Hhit]. unfold peer_failure.
    eapply observes_bind; [apply (observes_first _ _ _ (λ o, ∀ i c, o = Some (i, c) →
      rows (testCases s1) !! i = Some c ∧ cs_reportId c = failure.1 ∧ cs_testHash c = Some failure.2))|].
    + done.
    + intros i c Hc [HP1%bool_decide_eq_true HP2%bool_decide_eq_true]%andb_true_iff j c' [= <- <-]. done.
    + intros o Ho. apply observes_ret. destruct o as [[i c]|]; [|done]. destruct (Ho i c) as (Hc & Hr & Hh); [done|].
      case_match eqn:Eskip; [done|]. apply orb_false_iff in Eskip as [Hbad%negb_false_iff _].
      intros f (e & -> & He)%list_elem_of_fmap. revert e He. apply Forall_forall, Forall_map_set.
      * cbn [snd ff_evidence ff_case]. destruct (Hpeers _ Hp) as (rev & Hrev & Hne & Hear & _).
        exists rev, (pe_ref p). split_and!; [done..|]. right. exists i, c, failure.2. split_and!; try done; [congruence|by apply Hsound].
      * apply Forall_forall. intros e He. apply Hm. apply list_elem_of_fmap. eauto.
  - intros f (e & -> & He%map_of_sound)%list_elem_of_fmap. apply list_elem_of_fmap in He as (g & -> & Hg). cbn [snd].
    destruct (Hown g Hg) as [Hc [[-> Hst]|(-> & Hbad & p & Hp & Hh)]]; [done|].
    destruct (Hpeers _ Hp) as (rev & Hrev & Hne & Hear & Hrec). exists rev, (pe_ref p). split_and!; [done..|]. left. eauto.
  - intros m Hm. by apply observes_ret.
Qed.

(** The rows an upload adds before it looks for flaky tests are its own report's. *)
Definition adds_report (reportId : Id) (s s' : telemetry) : Prop :=
  flakyTests s' = flakyTests s ∧
  (∀ p, p ≠ reportId → rows (testReports s') !! p = rows (testReports s) !! p) ∧
  (∀ i h, rows (testReportHashes s') !! i = Some h → hs_reportId h ≠ reportId → rows (testReportHashes s) !! i = Some h) ∧
  (∀ i c, rows (testCases s') !! i = Some c → cs_reportId c ≠ reportId → rows (testCases s) !! i = Some c).

#[global] Instance adds_report_preorder reportId : PreOrder (adds_report reportId).
Proof.
  split.
  - intros s. by split_and!.
  - intros s1 s2 s3 (F1 & R1 & H1 & C1) (F2 & R2 & H2 & C2). split_and!; [congruence| | |]; eauto.
    intros p Hp. by rewrite R2, R1.
Qed.

Lemma hashes_add reportId hashes : hs_reportId hashes = reportId → acts (adds_report reportId) (db_insert testReportHashes hashes).
Proof.
  intros Hh. apply acts_insert. intros s. split_and!; try done. cbn. intros i h. rewrite lookup_insert_Some.
  intros [[_ <-]|[_ ?]]; [congruence|done].
Qed.

Lemma cases_add reportId attemptId repository branch now cases :
  acts (adds_report reportId) (for_each cases (λ testCase, db_insert testCases (TestCaseRow reportId attemptId repository branch now
    (Some (passedHash sha256 (tc_id testCase))) testCase) ≫= λ _, mret tt)).
Proof.
  acts_walk idtac. split_and!; try done. cbn. intros i c. rewrite lookup_insert_Some.
  intros [[_ <-]|[_ ?]]; [cbn; congruence|done].
Qed.

Lemma adds_report_earlier reportId s s' repository rev p :
  adds_report reportId s s' → p ≠ reportId → earlier s' repository rev p → earlier s repository rev p.
Proof. intros (_ & HR & _) Hp (r & Hr & ?). exists r. by rewrite <- HR. Qed.

Lemma adds_report_recorded reportId s s' p passed :
  adds_report reportId s s' → p ≠ reportId → recorded_passes s' p passed → recorded_passes s p passed.
Proof.
  intros (_ & HR & HH & _) Hp [(i & h & Hi & Hh & Heq)|(r & Hr & ?)].
  - left. exists i, h. split_and!; [|done..]. apply HH; congruence.
  - right. exists r. by rewrite <- HR.
Qed.

Lemma attempt_get_done i s r s' : attempt_get i s = Done (r, s') → s' = s ∧ r = rows (attempts (control s)) !! i.
Proof. destruct s. by intros [= <- <-]. Qed.

(** A flaky row as the upload leaves it: as it was, or touched by the upload for a reason. *)
Definition flaky_row_ok (s : telemetry) (attemptId : Id) (repository : string) (revision : option string) (report : test_report)
    (now : Z) (i : Id) (f : flaky_test) : Prop :=
  rows (flakyTests s) !! i = Some f ∨
  fk_repository f = repository ∧ head (fk_attemptIds f) = Some attemptId ∧ fk_lastSeenAt f = now ∧
  flaky_justified s repository revision report (fk_testId f) (fk_lastEvidence f).

Lemma recordFlaky_keeps s attemptId repository revision report branch now finding :
  flaky_justified s repository revision report (tc_id (ff_case finding)) (ff_evidence finding) →
  preserves (λ s', ∀ i f, rows (flakyTests s') !! i = Some f → flaky_row_ok s attemptId repository revision report now i f)
    (recordFlaky repository attemptId branch (tr_commitSha report) finding now).
Proof.
  intros Hj s1 u s2 Hok H. unfold recordFlaky in H. tx_bind_in H row s1' H1. apply db_unique_done in H1 as [-> H1].
  destruct row as [[i f]|].
  - case_bool_decide; [by injection H as _ <-|]. apply db_patch_done in H as (d & Hd & ->).
    destruct (t_where_sound (flakyTests s1) _ (i, f) ltac:(rewrite H1; left)) as [Hf HP]. cbn [fst snd] in Hf, HP. apply andb_true_iff in HP as [HP1%bool_decide_eq_true HP2%bool_decide_eq_true].
    rewrite Hf in Hd. injection Hd as <-. intros j g. cbn. rewrite lookup_insert_Some. intros [[<- <-]|[_ ?]]; [|by apply Hok].
    right. cbn. rewrite HP2. by split_and!.
  - tx_bind_in H j s3 H3. injection H3 as <- <-. injection H as _ <-. intros j g. cbn. rewrite lookup_insert_Some.
    intros [[<- <-]|[_ ?]]; [|by apply Hok]. right. by split_and!.
Qed.
End flaky.

(** C31: no test is listed as flaky without evidence from the same code.  Whatever a Worker uploads,
    a committed [recordAttemptTests] leaves every flaky row as it was or touches it for its own
    repository, and then either the upload's own runner retried the test into a pass, or an earlier
    report of the same repository and revision passed a test this upload failed, or failed a test
    whose hash this upload lists as passed. *)
Theorem flaky_rows_are_justified sha256 machineId attemptId report now s b s' i f :
  (∀ bytes, length (sha256 bytes) = 32%nat) →
  recordAttemptTests sha256 machineId attemptId report now s = Done (b, s') →
  rows (flakyTests s') !! i = Some f →
  rows (flakyTests s) !! i = Some f ∨
  ∃ a repository, rows (attempts (control s)) !! attemptId = Some a ∧ at_machineId a = Some machineId ∧
    repositoryName a = Some repository ∧ fk_repository f = repository ∧ head (fk_attemptIds f) = Some attemptId ∧
    fk_lastSeenAt f = now ∧
    flaky_justified sha256 s repository (revisionKey a (tr_commitSha report)) report (fk_testId f) (fk_lastEvidence f).
Proof.
  intros Hsha H Hf. unfold recordAttemptTests in H. tx_bind_in H found s0 H0. apply attempt_get_done in H0 as [-> ->].
  destruct (rows (attempts (control s)) !! attemptId) as [a|] eqn:Ha; [|injection H as _ <-; by left].
  case_bool_decide as Hm; [|injection H as _ <-; by left]. cbn [negb] in H.
  case_match; [injection H as _ <-; by left|]. tx_bind_in H v s1 H1. pose proof (acts_assertValidReport _ _ _ _ H1) as <-.
  tx_bind_in H existing s2 H2. injection H2 as <- <-. case_match; [injection H as _ <-; by left|].
  tx_bind_in H reportId s3 H3. injection H3 as <- H3. tx_bind_in H v4 s4 H4. tx_bind_in H v5 s5 H5.
  set (row := report_row attemptId machineId a report now) in *.
  assert (adds_report (next_id (testReports s)) s s5) as Hadds.
  { transitivity s3; [|transitivity s4; [by eapply hashes_add in H4|by eapply cases_add in H5]].
    subst s3. split_and!; try done. intros p Hp. cbn. by rewrite lookup_insert_ne. }
  assert (∀ i g, rows (flakyTests s5) !! i = Some g → rows (flakyTests s) !! i = Some g) as Hsame
    by (intros ??; by rewrite (proj1 Hadds)).
  destruct (rp_repository row) as [repository|] eqn:Hrepo; [|injection H as _ <-; left; by apply Hsame].
  tx_bind_in H flaky s6 H6.
  eapply (detect_flaky_observes sha256 Hsha) in H6 as [-> Hflaky]; [|intros h Hh; by eapply hasPassed_decides; eauto].
  tx_bind_in H v7 s7 H7. injection H as _ <-.
  assert (flaky_row_ok sha256 s attemptId repository (revisionKey a (tr_commitSha report)) report now i f) as [?|(?&?&?&?)].
  { eapply (preserves_for_each (λ s', ∀ i f, rows (flakyTests s') !! i = Some f → flaky_row_ok sha256 s attemptId repository _ report now i f));
      [|by intros; left; apply Hsame|exact H7|exact Hf].
    intros g Hg. apply recordFlaky_keeps. apply Hflaky in Hg. destruct (ff_evidence g) eqn:Ev; [naive_solver|].
    destruct Hg as (rev & p & Hrev & Hp & Hear & Hcase). exists rev, p. cbn in Hrev, Hrepo. rewrite Hrepo in Hrev.
    split_and!; [done|by eapply adds_report_earlier|]. destruct Hcase as [(passed & ?&?&?&?)|(j & c & h & Hc & ? & <- & ?&?&?)].
    - left. exists (ff_case g), passed. split_and!; try done. by eapply adds_report_recorded.
    - right. exists j, c, h. split_and!; try done. apply Hadds; congruence. }
  - by left.
  - right. exists a, repository. split_and!; done.
Qed.

(** ** The purge of old reports *)

Section delete_all.
Context {S D : Type} (tbl : S → table D) `{!Updater tbl}.
Context (Hget : ∀ g s, tbl (upd tbl g s) = g (tbl s)) (Hid : ∀ s, upd tbl (λ t, t) s = s).
Context (Hcomp : ∀ f g s, upd tbl f (upd tbl g s) = upd tbl (λ t, f (g t)) s).

Definition t_del_all (ids : list Id) (t : table D) : table D := foldl (λ t i, t_del i t) t ids.

Lemma delete_all_done (l : list (Id * D)) s :
  NoDup l.*1 → (∀ i, i ∈ l.*1 → is_Some (rows (tbl s) !! i)) →
  for_each l (λ r : Id * D, db_delete tbl r.1) s = Done (tt, upd tbl (t_del_all l.*1) s).
Proof.
  revert s. induction l as [|[i d] l IH]; intros s Hnd Hex; cbn [for_each]; [by rewrite <- (Hid s) at 1|].
  rewrite fmap_cons in Hnd. apply NoDup_cons in Hnd as [Hi Hnd]. destruct (Hex i) as [d' Hd]; [left|].
  unfold mbind, tx_bind, db_delete at 1. cbn [fst]. rewrite Hd, IH; [by rewrite Hcomp|done|].
  intros j Hj. rewrite Hget. cbn. rewrite lookup_delete_ne by (by intros ->). apply Hex. by right.
Qed.
End delete_all.

Lemma lookup_del_all {D} ids (t : table D) j : rows (t_del_all ids t) !! j = if decide (j ∈ ids) then None else rows t !! j.
Proof.
  revert t. induction ids as [|i ids IH]; intros t; cbn [t_del_all foldl].
  - by rewrite decide_False by (by intros ?%elem_of_nil).
  - fold (t_del_all ids (t_del i t)). rewrite IH. cbn. destruct (decide (j ∈ ids)), (decide (j ∈ i :: ids)) as [Hin|Hin]; try done.
    + destruct Hin. by right.
    + apply elem_of_cons in Hin as [->|]; [apply lookup_delete_eq|done].
    + apply lookup_delete_ne. intros ->. destruct Hin. left.
Qed.

Lemma wf_del_all {D} ids (t : table D) : t_wf t → t_wf (t_del_all ids t).
Proof. revert t. induction ids as [|i ids IH]; intros t Ht; [done|]. by apply IH, t_wf_del. Qed.

Lemma size_del_all {D} ids (t : table D) :
  NoDup ids → (∀ i, i ∈ ids → is_Some (rows t !! i)) → (size (rows (t_del_all ids t)) + length ids = size (rows t))%nat.
Proof.
  revert t. induction ids as [|i ids IH]; intros t Hnd Hex; cbn [t_del_all foldl length]; [lia|].
  apply NoDup_cons in Hnd as [Hi Hnd]. fold (t_del_all ids (t_del i t)). destruct (Hex i) as [d Hd]; [left|].
  specialize (IH (t_del i t) Hnd). rewrite Nat.add_succ_r, IH.
  - cbn. rewrite map_size_delete_Some by eauto. assert (size (rows t) ≠ 0%nat); [|lia].
    apply map_size_ne_0_lookup. eauto.
  - intros j Hj. cbn. rewrite lookup_delete_ne by (by intros ->). apply Hex. by right.
Qed.

(** Every case and hash row belongs to a report, which has at most one hash row; an Attempt has at
    most one report. *)
Record attached (s : telemetry) : Prop := {
  reports_wf : t_wf (testReports s);
  hashes_wf : t_wf (testReportHashes s);
  cases_wf : t_wf (testCases s);
  flaky_wf : t_wf (flakyTests s);
  case_report i c : rows (testCases s) !! i = Some c → is_Some (rows (testReports s) !! cs_reportId c);
  hash_report i h : rows (testReportHashes s) !! i = Some h → is_Some (rows (testReports s) !! hs_reportId h);
  hash_unique i j h h' : rows (testReportHashes s) !! i = Some h → rows (testReportHashes s) !! j = Some h' →
    hs_reportId h = hs_reportId h' → i = j;
  report_unique i j r r' : rows (testReports s) !! i = Some r → rows (testReports s) !! j = Some r' →
    rp_attemptId r = rp_attemptId r' → i = j;
}.

Definition row_count (s : telemetry) : nat :=
  (size (rows (testReports s)) + size (rows (testCases s)) + size (rows (flakyTests s)))%nat.

(** What the purge leaves alone. *)
Definition same_rest (s s' : telemetry) : Prop := flakyTests s' = flakyTests s ∧ purges s' = purges s.

Lemma take_all_below {A} n (l : list A) : (length (take n l) < n)%nat → take n l = l.
Proof. rewrite length_take. intros. apply take_ge. lia. Qed.

Lemma NoDup_range_ids {D} n (P : D → bool) (t : table D) : NoDup (take n (t_where P t)).*1.
Proof. rewrite fmap_take. eapply sublist_NoDup; [apply (NoDup_t_where_ids P t)|apply sublist_take]. Qed.

Definition after_cases (ids : list Id) (s : telemetry) : telemetry := upd testCases (t_del_all ids) s.

Lemma delete_cases s reportId n (l := take n (t_where (λ c, cs_reportId c === reportId) (testCases s))) :
  for_each l (λ c : Id * test_case_row, db_delete testCases c.1) s = Done (tt, after_cases l.*1 s).
Proof.
  apply delete_all_done; [done|by intros []|done|apply NoDup_range_ids|].
  intros i ([j c] & -> & (k & Hk%list_elem_of_lookup_2 & _)%elem_of_take)%list_elem_of_fmap.
  apply t_where_sound in Hk as [Hk _]. eauto.
Qed.

Lemma attached_after_cases ids s : attached s → attached (after_cases ids s).
Proof.
  intros [W1 W2 W3 W4 C H U N]. split; try done; [by apply wf_del_all|].
  intros i c. cbn. rewrite lookup_del_all. case_decide; [done|apply C].
Qed.

Lemma size_after_cases s reportId n (l := take n (t_where (λ c, cs_reportId c === reportId) (testCases s))) :
  (size (rows (testCases (after_cases l.*1 s))) + length l = size (rows (testCases s)))%nat.
Proof.
  rewrite <- (length_fmap fst l). apply size_del_all; [apply NoDup_range_ids|].
  intros i ([j c] & -> & (k & Hk%list_elem_of_lookup_2 & _)%elem_of_take)%list_elem_of_fmap.
  apply t_where_sound in Hk as [Hk _]. eauto.
Qed.

Lemma attached_delete_report s s' reportId :
  attached s → (∀ i c, rows (testCases s) !! i = Some c → cs_reportId c ≠ reportId) →
  testReports s' = t_del reportId (testReports s) → testCases s' = testCases s → flakyTests s' = flakyTests s →
  t_wf (testReportHashes s') →
  (∀ i h, rows (testReportHashes s') !! i = Some h → rows (testReportHashes s) !! i = Some h ∧ hs_reportId h ≠ reportId) →
  attached s'.
Proof.
  intros [W1 W2 W3 W4 C H U N] Hc ER EC EF Hwf Hh. split; rewrite ?ER, ?EC, ?EF; try done.
  - by apply t_wf_del.
  - intros i c Hi. cbn. rewrite lookup_delete_ne; [by eapply C|]. intros Heq. by eapply Hc.
  - intros i h [Hi Hne]%Hh. cbn. rewrite lookup_delete_ne by done. by eapply H.
  - intros i j h h' [Hi _]%Hh [Hj _]%Hh. by apply U.
  - intros i j r r'. cbn. rewrite !lookup_delete_Some. intros [_ ?] [_ ?]. by eapply N.
Qed.

(** Once all its cases are gone, a report goes with its hashes. *)
Lemma delete_report s reportId :
  attached s → is_Some (rows (testReports s) !! reportId) →
  (∀ i c, rows (testCases s) !! i = Some c → cs_reportId c ≠ reportId) →
  ∃ s1 s2, let hashes := head (t_where (λ h, hs_reportId h === reportId) (testReportHashes s)) in
    (match hashes with Some h => db_delete testReportHashes h.1 | None => mret tt end) s = Done (tt, s1) ∧
    db_delete testReports reportId s1 = Done (tt, s2) ∧
    attached s2 ∧ same_rest s s2 ∧ testReports s2 = t_del reportId (testReports s) ∧ testCases s2 = testCases s.
Proof.
  intros Ha [r Hr] Hc. pose proof (elem_of_t_where (testReportHashes s) (λ h, hs_reportId h === reportId)) as Hin.
  destruct (t_where _ (testReportHashes s)) as [|[i h] l] eqn:E; cbn [head fst].
  - eexists _, (upd testReports (t_del reportId) s). unfold db_delete. rewrite Hr. split_and!; try done.
    eapply (attached_delete_report s); try done; [apply Ha|]. intros j h Hj. split; [done|]. intros Heq.
    assert ((j, h) ∈ ([] : list (Id * report_hashes))) as ?%elem_of_nil; [|done].
    apply Hin; [apply Ha|]. split; [done|by apply bool_decide_eq_true].
  - destruct (t_where_sound (testReportHashes s) (λ h, hs_reportId h === reportId) (i, h)) as [Hi Hh%bool_decide_eq_true]; [rewrite E; left|].
    cbn [fst snd] in Hi, Hh. unfold db_delete at 1. rewrite Hi.
    exists (upd testReportHashes (t_del i) s), (upd testReports (t_del reportId) (upd testReportHashes (t_del i) s)). unfold db_delete. cbn [testReports upd].
    rewrite Hr. split_and!; try done. eapply (attached_delete_report s); try done; [by apply t_wf_del, Ha|].
    intros j g. cbn. rewrite lookup_delete_Some. intros [Hne Hj]. split; [done|]. intros Heq. apply Hne.
    eapply (hash_unique s Ha); [done..|congruence].
Qed.

Lemma purge_report_spec st (report : Id * test_report_row) s :
  attached s → rows (testReports s) !! report.1 = Some report.2 → pu_stopped st = false → (0 < pu_budget st)%nat →
  ∃ st' s', purge_report st report s = Done (st', s') ∧ attached s' ∧ same_rest s s' ∧ (row_count s' < row_count s)%nat ∧
    (pu_stopped st' = true ∧ pu_more st' = true ∧ testReports s' = testReports s ∨
     pu_stopped st' = false ∧ pu_more st' = pu_more st ∧ (0 < pu_budget st')%nat ∧
     testReports s' = t_del report.1 (testReports s)).
Proof.
  intros Ha Hr Hst Hb. unfold purge_report. rewrite Hst. destruct (Nat.eqb_spec (pu_budget st) 0) as [|_]; [lia|].
  set (l := take (pu_budget st) (t_where (λ c, cs_reportId c === report.1) (testCases s))).
  pose proof (size_after_cases s report.1 (pu_budget st)) as Hsize. fold l in Hsize.
  unfold mbind at 1, tx_bind at 1, read at 1. fold l. unfold mbind at 1, tx_bind at 1. unfold l at 1. rewrite delete_cases. fold l.
  pose proof (attached_after_cases l.*1 s Ha) as Ha1. set (s1 := after_cases l.*1 s) in *.
  destruct (Nat.eqb_spec (length l) (pu_budget st)) as [Hfull|Hpart].
  - eexists _, s1. split; [done|]. split; [done|]. split; [done|]. split; [|by left].
    unfold row_count. cbn [testReports flakyTests s1 after_cases upd].
    unfold s1 in *. lia.
  - destruct (delete_report s1 report.1) as (s2 & s3 & E1 & E2 & Ha3 & Hrest & ER & EC); [done|by exists report.2| |].
    + intros i c Hc Heq. unfold s1 in Hc. cbn in Hc. rewrite lookup_del_all in Hc. case_decide as Hin; [done|]. apply Hin.
      apply list_elem_of_fmap. exists (i, c). split; [done|]. unfold l. rewrite take_all_below.
      * apply elem_of_t_where; [apply Ha|]. split; [done|by apply bool_decide_eq_true].
      * pose proof (firstn_le_length (pu_budget st) (t_where (λ c, cs_reportId c === report.1) (testCases s))). fold l. unfold l in Hpart. unfold l. lia.
    + cbv zeta in E1. unfold mbind at 1, tx_bind at 1, db_first, read. cbn [testReportHashes] in *. unfold mbind at 1, tx_bind at 1.
      rewrite E1. unfold mbind, tx_bind. rewrite E2. eexists _, s3. split; [done|]. split; [done|]. split; [exact Hrest|]. split.
      * unfold row_count in *. destruct Hrest as [EF _]. rewrite ER, EC, EF. cbn [testReports flakyTests s1 after_cases upd t_del rows].
        rewrite map_size_delete_Some by eauto. assert (size (rows (testReports s)) ≠ 0%nat); [apply map_size_ne_0_lookup; eauto|]. unfold s1 in *. lia.
      * right. cbn [pu_stopped pu_more pu_budget]. split_and!; [done..| |done]. unfold l in *. rewrite length_take in *. lia.
Qed.

Lemma length_take_lt {A} n (l : list A) : length (take n l) ≠ n → (length (take n l) < n)%nat.
Proof. rewrite length_take. lia. Qed.

Lemma fold_stopped st l s : pu_stopped st = true → fold_tx purge_report st l s = Done (st, s).
Proof.
  intros Hst. induction l as [|r l IH]; cbn [fold_tx]; [done|]. unfold mbind, tx_bind, purge_report at 1. by rewrite Hst.
Qed.

Lemma purge_fold_spec l st s :
  attached s → NoDup l.*1 → (∀ r, r ∈ l → rows (testReports s) !! r.1 = Some r.2) → pu_stopped st = false → (0 < pu_budget st)%nat →
  ∃ st' s', fold_tx purge_report st l s = Done (st', s') ∧ attached s' ∧ same_rest s s' ∧
    (row_count s' + Nat.min 1 (length l) ≤ row_count s)%nat ∧ rows (testReports s') ⊆ rows (testReports s) ∧
    (pu_more st = true → pu_more st' = true) ∧
    (pu_more st' = false → ∀ i, i ∈ l.*1 → rows (testReports s') !! i = None).
Proof.
  revert st s. induction l as [|r l IH]; intros st s Ha Hnd Hl Hst Hb.
  - exists st, s. split; [done|]. split; [done|]. split; [done|]. split; [simpl; lia|]. split; [done|]. split; [done|]. by intros _ i ?%elem_of_nil.
  - cbn [fold_tx]. rewrite fmap_cons in Hnd. apply NoDup_cons in Hnd as [Hr Hnd].
    destruct (purge_report_spec st r s Ha (Hl r ltac:(left)) Hst Hb) as (st1 & s1 & E & Ha1 & [F1 P1] & Hc1 & Hcase).
    unfold mbind, tx_bind. rewrite E. destruct Hcase as [(Hs1 & Hm1 & ER)|(Hs1 & Hm1 & Hb1 & ER)].
    + rewrite fold_stopped by done. exists st1, s1. split; [done|]. split; [done|]. split; [done|]. split; [simpl; lia|].
      split; [by rewrite ER|]. split; [done|]. by rewrite Hm1.
    + destruct (IH st1 s1) as (st2 & s2 & E2 & Ha2 & [F2 P2] & Hc2 & Hsub & Hmore & Hgone); [done|done| |done|done|].
      { intros r' Hr'. rewrite ER. cbn. rewrite lookup_delete_ne; [apply Hl; by right|]. intros Heq. apply Hr. rewrite Heq.
        apply list_elem_of_fmap. eauto. }
      rewrite E2. exists st2, s2. split; [done|]. split; [done|]. split; [split; congruence|]. split; [simpl; lia|].
      rewrite ER in Hsub. cbn in Hsub. split; [etrans; [done|apply delete_subseteq]|]. split; [by intros; apply Hmore; rewrite Hm1|].
      intros Hm2 i [->|Hi]%elem_of_cons; [|by apply Hgone]. destruct (rows (testReports s2) !! r.1) eqn:Er; [|done].
      eapply lookup_weaken in Er; [|done]. by rewrite lookup_delete_eq in Er.
Qed.

Lemma by_column_range {D} n (column : D → Z) (P : D → bool) (t : table D) (l := take n (by_column column (t_where P t))) :
  NoDup l.*1 ∧ (∀ r, r ∈ l → rows t !! r.1 = Some r.2 ∧ P r.2 = true) ∧
  (t_wf t → (length l < n)%nat → ∀ i d, rows t !! i = Some d → P d = true → i ∈ l.*1).
Proof.
  assert (by_column column (t_where P t) ≡ₚ t_where P t) as Hp by apply to_sorted_perm. split_and!.
  - unfold l. rewrite fmap_take. eapply sublist_NoDup; [|apply sublist_take]. rewrite Hp. apply NoDup_t_where_ids.
  - intros r (k & Hk%list_elem_of_lookup_2 & _)%elem_of_take. rewrite Hp in Hk. by apply t_where_sound.
  - intros Hwf Hlen i d Hi HP. unfold l in *. rewrite take_all_below by done. apply list_elem_of_fmap. exists (i, d). split; [done|].
    rewrite Hp. by apply elem_of_t_where.
Qed.

(** No report and no flaky row is older than the retention window before [now]. *)
Definition nothing_expired (now : Z) (s : telemetry) : Prop :=
  (∀ i r, rows (testReports s) !! i = Some r → now - TEST_RETENTION_MS ≤ rp_recordedAt r) ∧
  (∀ i f, rows (flakyTests s) !! i = Some f → now - TEST_RETENTION_MS ≤ fk_lastSeenAt f).

Lemma purge_again_done b s :
  when b (purge_again PurgeTests) s = Done (tt, if b then s <| purges ::= λ l, l ++ [PurgeTests] |> else s).
Proof. by destruct b. Qed.

(** One transaction of the purge commits; if it asks to run again it deleted something, and if it
    does not nothing expired is left. *)
Lemma purgeTests_spec now s :
  attached s → purges s = [] →
  ∃ n s', purgeTests now s = Done (n, s') ∧ attached s' ∧
    (purges s' = [PurgeTests] ∧ (row_count s' < row_count s)%nat ∨ purges s' = [] ∧ nothing_expired now s').
Proof.
  intros Ha Hp. unfold purgeTests. set (cutoff := now - TEST_RETENTION_MS).
  destruct (by_column_range PURGE_REPORTS rp_recordedAt (λ r, rp_recordedAt r <? cutoff) (testReports s)) as (Hnd & Hl & Hfull).
  unfold mbind at 1, tx_bind at 1, read at 1. set (l := take PURGE_REPORTS _) in *.
  destruct (purge_fold_spec l (PurgeState PURGE_CASES 0 (Nat.eqb (length l) PURGE_REPORTS) false) s)
    as (st & s1 & E & Ha1 & [F1 P1] & Hc1 & Hsub & Hmore & Hgone); [done|done|by intros r Hr; apply Hl|done|unfold PURGE_CASES; cbn; lia|].
  unfold mbind at 1, tx_bind at 1. rewrite E. unfold mbind at 1, tx_bind at 1, read at 1.
  destruct (by_column_range PURGE_FLAKY fk_lastSeenAt (λ f, fk_lastSeenAt f <? cutoff) (flakyTests s1)) as (Hnd2 & Hl2 & Hfull2).
  set (l2 := take PURGE_FLAKY _) in *. unfold mbind at 1, tx_bind at 1.
  assert (∀ i, i ∈ l2.*1 → is_Some (rows (flakyTests s1) !! i)) as Hex.
  { intros i (r & -> & Hr%Hl2)%list_elem_of_fmap. destruct Hr. eauto. }
  rewrite (delete_all_done flakyTests) by (done || by intros []).
  set (s2 := upd flakyTests (t_del_all l2.*1) s1). unfold mbind, tx_bind. rewrite purge_again_done.
  pose proof (size_del_all l2.*1 (flakyTests s1) Hnd2 Hex) as Hsize. rewrite length_fmap in Hsize.
  assert (attached s2) as Ha2 by (destruct Ha1; split; try done; by apply wf_del_all).
  assert (row_count s2 + length l2 = row_count s1)%nat as Hc2 by (unfold row_count; cbn [testReports testCases flakyTests s2 upd]; lia).
  eexists _, _. split; [done|]. destruct (pu_more st || Nat.eqb (length l2) PURGE_FLAKY) eqn:Eag.
  - split; [by destruct Ha2; split|]. left. split; [cbn; by rewrite P1, Hp|]. change (row_count s2 < row_count s)%nat.
    destruct l as [|r l']; [|cbn in Hc1; lia]. injection E as <- <-. cbn [pu_more length Nat.eqb orb] in Eag. apply Nat.eqb_eq in Eag.
    change PURGE_FLAKY with 200%nat in Eag. clear -Eag Hc2. lia.
  - split; [done|]. right. split; [cbn; by rewrite P1, Hp|]. apply orb_false_iff in Eag as [Hm Hf%Nat.eqb_neq].
    assert (length l ≠ PURGE_REPORTS) as Hlen.
    { intros Heq. rewrite Hmore in Hm; [done|]. cbn [pu_more]. by rewrite Heq, Nat.eqb_refl. }
    split.
    + intros i r Hi. cbn in Hi. fold cutoff. destruct (Z.ltb_spec (rp_recordedAt r) cutoff) as [Hlt|]; [|lia].
      rewrite (Hgone Hm i) in Hi; [done|]. apply (Hfull (reports_wf s Ha)) with r; [|by eapply lookup_weaken|by apply Z.ltb_lt].
      by apply length_take_lt.
    + intros i f Hi. change (rows (t_del_all l2.*1 (flakyTests s1)) !! i = Some f) in Hi. fold cutoff. rewrite lookup_del_all in Hi. case_decide as Hin; [done|].
      destruct (Z.ltb_spec (fk_lastSeenAt f) cutoff) as [Hlt|]; [|lia]. destruct Hin.
      apply (Hfull2 (flaky_wf s1 Ha1)) with f; [|done|by apply Z.ltb_lt].
      by apply length_take_lt.
Qed.

(** The purge as the scheduler runs it: the first transaction at [clock 0], each further one it asks
    for at the next time of the clock.  The answer is the time of the last one and its store. *)
Fixpoint purge_chain (clock : nat → Z) (turns turn : nat) (s : telemetry) : option (Z * telemetry) :=
  match turns with
  | O => None
  | S turns =>
      match purgeTests (clock turn) (s <| purges := [] |>) with
      | Done (_, s') => if bool_decide (PurgeTests ∈ purges s') then purge_chain clock turns (S turn) s' else Some (clock turn, s')
      | Failed _ => None
      end
  end.

(** C33: the purge of test results ends and leaves nothing behind.  Whenever its transactions run,
    the chain of transactions it schedules stops after at most one more than there are rows, no
    transaction of it throws, and then no report, no case or hash row of one and no flaky row is
    older than the retention window before its last transaction; every case and hash row left still
    belongs to a report. *)
Theorem purge_drains clock s :
  attached s →
  ∃ now s', purge_chain clock (S (row_count s)) 0 s = Some (now, s') ∧ attached s' ∧ nothing_expired now s' ∧
    (∀ i c, rows (testCases s') !! i = Some c →
       ∃ r, rows (testReports s') !! cs_reportId c = Some r ∧ now - TEST_RETENTION_MS ≤ rp_recordedAt r).
Proof.
  intros Ha. cut (∀ n turn s, attached s → (row_count s < n)%nat →
    ∃ now s', purge_chain clock n turn s = Some (now, s') ∧ attached s' ∧ nothing_expired now s').
  { intros H. destruct (H (S (row_count s)) 0%nat s Ha) as (now & s' & E & Ha' & Hn); [lia|]. exists now, s'.
    split_and!; try done; [apply Hn..|]. intros i c Hc. destruct (case_report s' Ha' i c Hc) as [r Hr]. exists r. split; [done|by eapply Hn]. }
  clear s Ha. intros n. induction n as [|n IH]; intros turn s Ha Hlt; [lia|]. cbn [purge_chain].
  destruct (purgeTests_spec (clock turn) (s <| purges := [] |>)) as (k & s1 & E & Ha1 & Hcase); [by destruct Ha; split|done|].
  rewrite E. destruct Hcase as [[Hp Hc]|[Hp Hn]]; rewrite Hp.
  - rewrite bool_decide_true by left. apply IH; [done|]. change (row_count (s <| purges := [] |>)) with (row_count s) in Hc. lia.
  - rewrite bool_decide_false by (by intros ?%elem_of_nil). eauto.
Qed.

(** ** What uploads keep *)

Lemma attached_flaky s s' :
  testReports s' = testReports s → testReportHashes s' = testReportHashes s → testCases s' = testCases s → t_wf (flakyTests s') →
  attached s → attached s'.
Proof. intros ER EH EC Hwf [W1 W2 W3 W4 C H U N]. split; rewrite ?ER, ?EH, ?EC; done. Qed.

Lemma recordFlaky_attached repository attemptId branch commitSha finding now :
  preserves attached (recordFlaky repository attemptId branch commitSha finding now).
Proof.
  intros s u s' Ha H. unfold recordFlaky in H. tx_bind_in H row s1 H1. apply db_unique_done in H1 as [-> _].
  destruct row as [[i f]|].
  - case_bool_decide; [by injection H as _ <-|]. apply db_patch_done in H as (d & Hd & ->).
    eapply attached_flaky; [..|exact Ha]; try done. eapply t_wf_set; [done|apply Ha].
  - tx_bind_in H j s3 H3. injection H3 as <- <-. injection H as _ <-.
    eapply attached_flaky; [..|exact Ha]; try done. by apply t_wf_add, Ha.
Qed.

(** The store of an upload's report and hashes, before its cases. *)
Lemma attached_new_report s row hashes :
  attached s → head (t_where (λ r, rp_attemptId r === rp_attemptId row) (testReports s)) = None →
  hs_reportId hashes = next_id (testReports s) →
  attached (upd testReportHashes (t_add hashes) (upd testReports (t_add row) s)).
Proof.
  intros [W1 W2 W3 W4 C H U N] Hnone Hh. pose proof (t_wf_fresh _ W1) as Hfresh. pose proof (t_wf_fresh _ W2) as Hfresh2.
  assert (∀ i r, rows (testReports s) !! i = Some r → rp_attemptId r ≠ rp_attemptId row) as Hno.
  { intros i r Hi Heq. assert ((i, r) ∈ t_where (λ r, rp_attemptId r === rp_attemptId row) (testReports s)) as Hin.
    { apply elem_of_t_where; [done|]. split; [done|by apply bool_decide_eq_true]. }
    by destruct (t_where _ (testReports s)); [apply elem_of_nil in Hin|]. }
  split; cbn; try done.
  - by apply t_wf_add.
  - by apply t_wf_add.
  - intros i c [r Hr]%C. rewrite lookup_insert_ne; [eauto|]. intros Heq. by rewrite <- Heq, Hfresh in Hr.
  - intros i h. rewrite lookup_insert_Some. intros [[_ <-]|[_ [r Hr]%H]].
    + rewrite Hh, lookup_insert_eq. eauto.
    + rewrite lookup_insert_ne; [eauto|]. intros Heq. by rewrite <- Heq, Hfresh in Hr.
  - intros i j h h'. rewrite !lookup_insert_Some. intros [[<- <-]|[_ Hi]] [[<- <-]|[_ Hj]] Heq; [done| | |by eapply U].
    + destruct (H _ _ Hj) as [r Hr]. by rewrite <- Heq, Hh, Hfresh in Hr.
    + destruct (H _ _ Hi) as [r Hr]. by rewrite Heq, Hh, Hfresh in Hr.
  - intros i j r r'. rewrite !lookup_insert_Some. intros [[<- <-]|[_ Hi]] [[<- <-]|[_ Hj]] Heq; [done| | |by eapply N].
    + by destruct (Hno _ _ Hj).
    + by destruct (Hno _ _ Hi).
Qed.

Lemma new_cases_attached sha256 reportId attemptId repository branch now cases :
  preserves (λ s, attached s ∧ is_Some (rows (testReports s) !! reportId))
    (for_each cases (λ testCase, db_insert testCases (TestCaseRow reportId attemptId repository branch now
      (Some (passedHash sha256 (tc_id testCase))) testCase) ≫= λ _, mret tt)).
Proof.
  apply preserves_for_each. intros c _ s u s' [[W1 W2 W3 W4 C H U N] Hr] E. tx_bind_in E j s1 E1. injection E1 as <- <-. injection E as _ <-.
  split; [|done]. split; cbn; try done; [by apply t_wf_add|]. intros i d. rewrite lookup_insert_Some. intros [[_ <-]|[_ ?]]; [done|by eapply C].
Qed.

(** Uploads keep every case and hash row attached to its report, and one report per Attempt. *)
Lemma recordAttemptTests_attached sha256 machineId attemptId report now :
  preserves attached (recordAttemptTests sha256 machineId attemptId report now).
Proof.
  intros s b s' Ha H. unfold recordAttemptTests in H. tx_bind_in H found s0 H0. apply attempt_get_done in H0 as [-> ->].
  case_match; [|by injection H as _ <-]. case_match; [by injection H as _ <-|]. case_match; [by injection H as _ <-|].
  tx_bind_in H v s1 B1. pose proof (acts_assertValidReport _ _ _ _ B1) as <-.
  tx_bind_in H existing s2 B2. injection B2 as B2 <-. case_match; [by injection H as _ <-|].
  tx_bind_in H reportId s3 B3. injection B3 as <- B3. tx_bind_in H v4 s4 B4. injection B4 as _ B4. tx_bind_in H v5 s5 B5.
  assert (attached s5) as Ha5.
  { eapply new_cases_attached in B5; [apply B5|]. subst s3 s4. split; [by apply attached_new_report|]. cbn. rewrite lookup_insert_eq. eauto. }
  case_match; [|by injection H as _ <-]. tx_bind_in H flaky s6 B6.
  assert (s6 = s5) as ->.
  { assert (acts eq (detect_flaky sha256 (next_id (testReports s)) s0 (rp_revision (report_row attemptId machineId a report now)) report)) as Hq;
      [|symmetry; by eapply Hq].
    unfold detect_flaky, revision_peers, peer_failure. acts_walk fail. }
  tx_bind_in H v7 s7 B7. injection H as _ <-. eapply preserves_for_each; [|exact Ha5|exact B7]. intros. apply recordFlaky_attached.
Qed.

(** ** Concrete uploads: one Attempt fails a test, its rerun passes it *)

Module FlakyDemo.
(** Stands for SHA-256: a digest of 32 bytes. *)
Definition digest (bytes : list Z) : list Z := replicate 32 (zsum (λ b, b) bytes mod 256).

Definition run (name : string) (runnerId : Z) : attempt :=
  (demo_attempt name runnerId 10) <| at_machineId := Some 0%nat |> <| at_repo := Some "shop" |> <| at_owner := Some "acme" |>
    <| at_headBranch := Some "main" |> <| at_eventName := Some "push" |> <| at_displayName := Some "test (18)" |>
    <| at_workflowRunId := Some runnerId |>.

Definition commit : string := "0123456789abcdef0123456789abcdef01234567".

Definition start : telemetry :=
  Telemetry (demo_db <| attempts := t_of [run "r-0" 70; run "r-1" 71] |>) t_empty t_empty t_empty t_empty t_empty t_empty [].

Definition failed_case : test_case := TestCase "suite/t1" (Some "suite") "t1" None TestFailed (num_of_Z 12) (Some "expected 1") None.

Definition failing_report : test_report :=
  TestReport (Some commit) (num_of_Z 1) false
    (TestTotals (num_of_Z 1) (num_of_Z 0) (num_of_Z 1) (num_of_Z 0) (num_of_Z 0) (num_of_Z 0) (num_of_Z 12)) (Some [failed_case]) "".

Definition passing_report : test_report :=
  TestReport (Some commit) (num_of_Z 1) false
    (TestTotals (num_of_Z 1) (num_of_Z 1) (num_of_Z 0) (num_of_Z 0) (num_of_Z 0) (num_of_Z 0) (num_of_Z 9)) None
    (passedHash digest "suite/t1").

Definition before : telemetry := Eval vm_compute in Prelude.commit (recordAttemptTests digest 0 0 failing_report 1000) start.
Definition after : telemetry := Eval vm_compute in Prelude.commit (recordAttemptTests digest 0 1 passing_report 2000) before.
End FlakyDemo.

Lemma revisionKey_joins_witness :
  revisionKey (FlakyDemo.run "r-0" 70) (Some FlakyDemo.commit) = revisionKey (FlakyDemo.run "r-1" 71) (Some FlakyDemo.commit) ∧
  joined (FlakyDemo.run "r-0" 70) (FlakyDemo.run "r-1" 71) (Some FlakyDemo.commit) (Some FlakyDemo.commit).
Proof. split; [reflexivity|]. eapply revisionKey_joins; reflexivity. Defined.

Lemma flaky_rows_are_justified_witness :
  ∃ f, rows (flakyTests FlakyDemo.after) !! 0%nat = Some f ∧ fk_testId f = "suite/t1" ∧ fk_lastEvidence f = Rerun ∧
    (rows (flakyTests FlakyDemo.before) !! 0%nat = Some f ∨
     ∃ a repository, rows (attempts (control FlakyDemo.before)) !! 1%nat = Some a ∧ at_machineId a = Some 0%nat ∧
       repositoryName a = Some repository ∧ fk_repository f = repository ∧ head (fk_attemptIds f) = Some 1%nat ∧
       fk_lastSeenAt f = 2000 ∧
       flaky_justified FlakyDemo.digest FlakyDemo.before repository (revisionKey a (tr_commitSha FlakyDemo.passing_report))
         FlakyDemo.passing_report (fk_testId f) (fk_lastEvidence f)).
Proof.
  eexists. split; [vm_compute; reflexivity|]. split; [reflexivity|]. split; [reflexivity|].
  apply (flaky_rows_are_justified FlakyDemo.digest 0 1 FlakyDemo.passing_report 2000 FlakyDemo.before true FlakyDemo.after 0).
  - intros bytes. unfold FlakyDemo.digest. by rewrite length_replicate.
  - vm_compute. reflexivity.
  - vm_compute. reflexivity.
Defined.

Lemma purge_drains_witness :
  attached FlakyDemo.after ∧
  ∃ now s', purge_chain (λ turn, 3000000000 + Z.of_nat turn) 5 0 FlakyDemo.after = Some (now, s') ∧ attached s' ∧ nothing_expired now s' ∧
    (∀ i c, rows (testCases s') !! i = Some c →
       ∃ r, rows (testReports s') !! cs_reportId c = Some r ∧ now - TEST_RETENTION_MS ≤ rp_recordedAt r).
Proof.
  assert (attached FlakyDemo.start) as H0.
  { split; try apply t_wf_empty; by intros i. }
  assert (attached FlakyDemo.after) as H2.
  { eapply (recordAttemptTests_attached FlakyDemo.digest 0 1 FlakyDemo.passing_report 2000 FlakyDemo.before true);
      [|vm_compute; reflexivity].
    eapply (recordAttemptTests_attached FlakyDemo.digest 0 0 FlakyDemo.failing_report 1000 FlakyDemo.start true);
      [exact H0|vm_compute; reflexivity]. }
  split; [exact H2|]. exact (purge_drains (λ turn, 3000000000 + Z.of_nat turn) FlakyDemo.after H2).
Defined.
