(* ===== verification/AttemptMetrics.v ===== *)
(** Resource metrics of Attempts (packages/backend/convex/attemptMetricsModel.ts,
    attemptMetrics.ts): the bounds of a snapshot, the summary, the upload, the reads and the purge. *)

From S2P Require Import Prelude JsLib Schema HostLabels Egress AppPolicy InfraSchema InfraStore.
From S2P Require Import JsText WorkerApi Telemetry.

(** ** attemptMetricsModel.ts *)

Definition MAX_METRIC_POINTS : nat := 360.
Definition METRICS_RETENTION_MS : Z := 14 * 24 * 60 * 60000.
Definition METRICS_LATE_REPORT_MS : Z := 15 * 60000.
Definition MAX_SUMMARY_LOOKUP : nat := 200.
Definition MAX_SOURCE_LENGTH : nat := 32.
Definition MIB : Z := 1024 * 1024.

Definition zero : num := num_of_Z 0.

(** [sum(values)] of a list that is there *)
Definition sum (values : list num) : num := foldl f_add zero values.

(** [Math.max(first, ...values)] *)
Definition max_of (first : num) (values : list num) : num := foldl num_max first values.

(** The loop of [weightedQuantile] over the sorted points, and the value it falls through to. *)
Fixpoint quantile_walk (target cumulative : num) (sorted : list (num * num)) (otherwise : num) : num :=
  match sorted with
  | [] => otherwise
  | point :: sorted =>
      let cumulative := f_add cumulative point.2 in
      if num_leb target cumulative then point.1 else quantile_walk target cumulative sorted point.1
  end.

(** Points as pairs of a value and a weight. *)
Definition weightedQuantile (points : list (num * num)) (quantile : num) : num :=
  let weighted := filter (λ p, num_ltb zero p.2 = true) points in
  match weighted with
  | [] => zero
  | _ :: _ =>
      let sorted := to_sorted (λ l r, num_cmp l.1 r.1) weighted in
      let total := sum sorted.*2 in
      quantile_walk (f_mul quantile total) zero sorted zero
  end.

Definition per_bucket (p : points) : list (num * num) :=
  imap (λ index ms, (if num_ltb zero ms then f_div (or_else zero (pt_cpuMs p !! index)) ms else zero, ms)) (pt_ms p).

Definition summarizeMetrics (snapshot : metrics_snapshot) (vcpus memoryMiB : Z) (final : bool) : metrics_summary :=
  let p := sn_points snapshot in
  let durationMs := sum (pt_ms p) in
  let cpuMs := sum (pt_cpuMs p) in
  let perBucket := per_bucket p in
  let busiestBucket := max_of zero perBucket.*1 in
  let busiestInterval := f_div (max_of zero (pt_cpuMaxMilli p)) (num_of_Z 1000) in
  MetricsSummary (sn_source snapshot) (sn_samples snapshot) (sn_errors snapshot) final durationMs vcpus
    (if num_ltb zero durationMs then f_div cpuMs durationMs else zero)
    (weightedQuantile perBucket (lit (95 # 100)))
    (num_max busiestBucket busiestInterval)
    (f_mul (num_of_Z memoryMiB) (num_of_Z MIB))
    (max_of (sn_memoryPeakBytes snapshot) (pt_memBytes p))
    (sum <$> pt_netRxBytes p) (sum <$> pt_netTxBytes p) (sum <$> pt_diskReadBytes p) (sum <$> pt_diskWriteBytes p)
    (sn_oomKills snapshot).

(** [Object.entries(points)] *)
Definition columns (p : points) : list (string * option (list num)) :=
  [("offset", Some (pt_offset p)); ("ms", Some (pt_ms p)); ("cpuMs", Some (pt_cpuMs p)); ("cpuMaxMilli", Some (pt_cpuMaxMilli p));
   ("memBytes", Some (pt_memBytes p)); ("netRxBytes", pt_netRxBytes p); ("netTxBytes", pt_netTxBytes p);
   ("diskReadBytes", pt_diskReadBytes p); ("diskWriteBytes", pt_diskWriteBytes p)].

(** [offset % bucket !== 0] of counts, the bucket positive *)
Definition off_boundary (offset bucket : num) : bool :=
  match num_safe_integer offset, num_safe_integer bucket with
  | Some o, Some b => negb (Z.rem o b =? 0)
  | _, _ => true
  end.

Section validation.
Context {S : Type}.

Definition fail_snapshot {A} (reason : string) : tx S A := throw ("Invalid metrics snapshot: " +:+ reason).

Definition assert_column (len : nat) (c : string * option (list num)) : tx S unit :=
  match c.2 with
  | None => mret tt
  | Some column =>
      if negb (Nat.eqb (length column) len) then
        fail_snapshot (c.1 +:+ " has " +:+ json_Z (Z.of_nat (length column)) +:+ " entries, offset has " +:+ json_Z (Z.of_nat len))
      else if negb (forallb isCount column) then fail_snapshot (c.1 +:+ " must hold non-negative integers")
      else mret tt
  end.

Definition assert_offset (snapshot : metrics_snapshot) (index : nat) : tx S unit :=
  let offsets := pt_offset (sn_points snapshot) in
  let offset := or_else NaN (offsets !! index) in
  if off_boundary offset (sn_bucketSeconds snapshot) then fail_snapshot "offsets must fall on bucket boundaries"
  else if num_leb (f_mul (num_of_Z (Z.of_nat MAX_METRIC_POINTS)) (sn_bucketSeconds snapshot)) offset then
    fail_snapshot "offset beyond the bounded span"
  else if Nat.ltb 0 index && num_leb offset (or_else NaN (offsets !! (index - 1)%nat)) then fail_snapshot "offsets must increase"
  else mret tt.

Definition assertValidSnapshot (snapshot : metrics_snapshot) (now : Z) : tx S unit :=
  let p := sn_points snapshot in
  let len := length (pt_offset p) in
  if Nat.eqb (String.length (sn_source snapshot)) 0 || Nat.ltb MAX_SOURCE_LENGTH (String.length (sn_source snapshot)) then
    fail_snapshot "source must be 1-32 characters"
  else if negb (isCount (sn_sampleSeconds snapshot)) || num_ltb (sn_sampleSeconds snapshot) (num_of_Z 1) ||
          num_ltb (num_of_Z 3600) (sn_sampleSeconds snapshot) then
    fail_snapshot "sampleSeconds must be an integer between 1 and 3600"
  else if negb (isCount (sn_bucketSeconds snapshot)) || num_ltb (sn_bucketSeconds snapshot) (sn_sampleSeconds snapshot) ||
          num_ltb (num_of_Z 86400) (sn_bucketSeconds snapshot) then
    fail_snapshot "bucketSeconds must be an integer between sampleSeconds and 86400"
  else if negb (isCount (sn_samples snapshot)) || num_ltb (sn_samples snapshot) (num_of_Z 1) then
    fail_snapshot "samples must be a positive integer"
  else if negb (isCount (sn_errors snapshot)) then fail_snapshot "errors must be a non-negative integer"
  else if negb (isCount (sn_memoryPeakBytes snapshot)) then fail_snapshot "memoryPeakBytes must be a non-negative integer"
  else if match sn_oomKills snapshot with Some k => negb (isCount k) | None => false end then
    fail_snapshot "oomKills must be a non-negative integer or null"
  else if negb (isCount (sn_startedAt snapshot)) || num_ltb (num_of_Z (now + 60 * 60000)) (sn_startedAt snapshot) then
    fail_snapshot "startedAt must be a past Unix millisecond time"
  else if Nat.ltb MAX_METRIC_POINTS len then
    fail_snapshot ("at most " +:+ json_Z (Z.of_nat MAX_METRIC_POINTS) +:+ " points")
  else
    for_each (columns p) (assert_column len) ≫= λ _,
    if negb (Bool.eqb (is_none (pt_netRxBytes p)) (is_none (pt_netTxBytes p))) then fail_snapshot "network columns come in pairs"
    else if negb (Bool.eqb (is_none (pt_diskReadBytes p)) (is_none (pt_diskWriteBytes p))) then fail_snapshot "disk columns come in pairs"
    else for_each (seq 0 len) (assert_offset snapshot).
End validation.

(** ** attemptMetrics.ts *)

Definition PURGE_BATCH : nat := 100.
Definition MAX_LAST_ERROR : nat := 200.

(** The stored snapshot supersedes the upload. *)
Definition superseded (existing : metrics_summary) (snapshot : metrics_snapshot) (final : bool) : bool :=
  su_final existing || num_ltb (sn_samples snapshot) (su_samples existing) ||
  (num_eqb (sn_samples snapshot) (su_samples existing) && negb final).

Definition recordAttemptMetrics (machineId attemptId : Id) (final : bool) (snapshot : metrics_snapshot) (now : Z) : tx telemetry bool :=
  found ← attempt_get attemptId;
  match found with
  | None => mret false
  | Some a =>
      if at_machineId a !== Some machineId then mret false
      else if match at_finishedAt a with Some t => METRICS_LATE_REPORT_MS <? now - t | None => false end then mret false
      else
        assertValidSnapshot snapshot now ≫= λ _,
        existing ← db_unique attemptMetricSummaries (λ m, ms_attemptId m === attemptId);
        if match existing with Some (_, e) => superseded (ms_summary e) snapshot final | None => false end then mret true
        else
          let series := AttemptMetrics attemptId (snapshot <| sn_lastError ::= fmap (slice0 MAX_LAST_ERROR) |>) in
          let summary := summarizeMetrics snapshot (at_vcpus a) (at_memoryMiB a) final in
          match existing with
          | None =>
              seriesId ← db_insert attemptMetrics series;
              db_insert attemptMetricSummaries (MetricSummaryRow attemptId machineId seriesId now summary) ≫= λ _,
              mret true
          | Some (i, e) =>
              db_replace attemptMetrics (ms_seriesId e) series ≫= λ _,
              db_replace attemptMetricSummaries i (MetricSummaryRow attemptId machineId (ms_seriesId e) now summary) ≫= λ _,
              mret true
          end
  end.

(** workerApi.ts *)
Definition reportAttemptMetrics (token : string) (attemptId : Id) (final : bool) (snapshot : metrics_snapshot) (now : Z) : tx telemetry bool :=
  machine ← on_control (machineForToken token);
  recordAttemptMetrics machine.1 attemptId final snapshot now.

(** The Runs page's resource column, for a signed-in caller *)
Definition summaries (attemptIds : list Id) : tx telemetry (list (Id * metrics_summary)) :=
  if Nat.ltb MAX_SUMMARY_LOOKUP (length attemptIds) then
    throw ("Ask for at most " +:+ json_Z (Z.of_nat MAX_SUMMARY_LOOKUP) +:+ " Attempts at once")
  else
    found ← map_tx (λ attemptId, db_unique attemptMetricSummaries (λ m, ms_attemptId m === attemptId)) (set_of attemptIds);
    mret ((λ r : Id * metric_summary_row, (ms_attemptId r.2, ms_summary r.2)) <$> omap (λ r, r) found).

(** The Attempt page: the Attempt with its machine's name, its summary and its series *)
Definition get (attemptId : Id) : tx telemetry (option (attempt * option string * option metrics_summary * option metrics_snapshot)) :=
  found ← attempt_get attemptId;
  match found with
  | None => mret None
  | Some a =>
      machine ← match at_machineId a with None => mret None | Some m => on_control (db_get machines m) end;
      summaryRow ← db_unique attemptMetricSummaries (λ m, ms_attemptId m === attemptId);
      seriesRow ← match summaryRow with None => mret None | Some (_, m) => db_get attemptMetrics (ms_seriesId m) end;
      mret (Some (a, mc_name <$> machine, (λ r : Id * metric_summary_row, ms_summary r.2) <$> summaryRow, am_snapshot <$> seriesRow))
  end.

(** The series of an expired summary goes with it. *)
Definition purge_summary (row : Id * metric_summary_row) : tx telemetry unit :=
  series ← db_get attemptMetrics (ms_seriesId row.2);
  when (is_some series) (db_delete attemptMetrics (ms_seriesId row.2)) ≫= λ _,
  db_delete attemptMetricSummaries row.1.

Definition purgeMetrics (now : Z) : tx telemetry Z :=
  let cutoff := now - METRICS_RETENTION_MS in
  expired ← read (λ s, take PURGE_BATCH (by_column ms_updatedAt (t_where (λ m, ms_updatedAt m <? cutoff) (attemptMetricSummaries s))));
  for_each expired purge_summary ≫= λ _,
  when (Nat.eqb (length expired) PURGE_BATCH) (purge_again PurgeMetrics) ≫= λ _,
  mret (Z.of_nat (length expired)).
