(* ===== verification/MetricProperties.v ===== *)
(** Theorems about resource metrics: uploads only advance what is stored, and the time-weighted
    quantile is one. *)

From S2P Require Import Prelude JsLib Schema HostLabels Egress Frames Fixtures Benchmark Scheduler Placement Telemetry TestReports AttemptMetrics TestReportProperties DecimalText.

(** ** Uploads *)

(** One summary per Attempt, each with its own series of that Attempt; its samples are a count. *)
Record metrics_ok (s : telemetry) : Prop := {
  summaries_wf : t_wf (attemptMetricSummaries s);
  series_wf : t_wf (attemptMetrics s);
  summary_count i r : rows (attemptMetricSummaries s) !! i = Some r → isCount (su_samples (ms_summary r)) = true;
  summary_series i r : rows (attemptMetricSummaries s) !! i = Some r →
    ∃ d, rows (attemptMetrics s) !! ms_seriesId r = Some d ∧ am_attemptId d = ms_attemptId r;
  summary_unique i j r r' : rows (attemptMetricSummaries s) !! i = Some r → rows (attemptMetricSummaries s) !! j = Some r' →
    ms_attemptId r = ms_attemptId r' → i = j;
}.

(** The summary [m'] replaces [m]: only an unfinished one is replaced, by one of more samples or by
    the final one of as many. *)
Definition advances (m m' : metrics_summary) : Prop :=
  m' = m ∨
  su_final m = false ∧ num_leb (su_samples m) (su_samples m') = true ∧
  (num_eqb (su_samples m) (su_samples m') = false ∨ su_final m' = true).

Lemma isCount_fin v : isCount v = true → ∃ q, v = Fin q.
Proof. unfold isCount, num_safe_integer, num_integer. destruct v; try done. eauto. Qed.

Lemma num_leb_refl v : isCount v = true → num_leb v v = true.
Proof. intros [q ->]%isCount_fin. cbn. apply Qle_bool_iff, Qle_refl. Qed.

Lemma superseded_self m snapshot final :
  isCount (sn_samples snapshot) = true → su_samples m = sn_samples snapshot → su_final m = final → superseded m snapshot final = true.
Proof.
  intros Hc Hs <-. unfold superseded. rewrite Hs. unfold num_eqb. rewrite num_leb_refl by done. by destruct (su_final m); rewrite ?orb_true_r.
Qed.

Lemma not_superseded m snapshot final m' :
  isCount (su_samples m) = true → isCount (sn_samples snapshot) = true → superseded m snapshot final = false →
  su_samples m' = sn_samples snapshot → su_final m' = final → advances m m'.
Proof.
  intros [q Hq]%isCount_fin [p Hp]%isCount_fin Hno Hs Hf. right. unfold superseded in Hno.
  apply orb_false_iff in Hno as [Hno He]. apply orb_false_iff in Hno as [Hfin Hlt]. rewrite Hs, Hf. split; [done|].
  rewrite Hp, Hq in *. cbn in Hlt. apply negb_false_iff in Hlt. split; [done|].
  unfold num_eqb in *. cbn in *. rewrite Hlt in *. cbn in *. destruct final; [by right|].
  rewrite andb_true_r in He. left. by rewrite andb_true_r in *.
Qed.

Lemma acts_assertValidSnapshot {S} snapshot now : acts (S := S) eq (assertValidSnapshot snapshot now).
Proof. unfold assertValidSnapshot, fail_snapshot, assert_column, assert_offset, fail_snapshot. acts_walk fail. Qed.

Lemma valid_samples {S} snapshot now (s : S) u s' : assertValidSnapshot snapshot now s = Done (u, s') → isCount (sn_samples snapshot) = true.
Proof.
  unfold assertValidSnapshot. intros H. case_match; [done|]. case_match; [done|]. case_match; [done|]. case_match eqn:E; [done|].
  apply orb_false_iff in E as [E _]. by apply negb_false_iff.
Qed.

(** What a committed upload did. *)
Inductive upload_effect (machineId attemptId : Id) (final : bool) (snapshot : metrics_snapshot) (now : Z) (s : telemetry)
    : bool → telemetry → Prop :=
  | upload_refused : upload_effect machineId attemptId final snapshot now s false s
  | upload_old i e :
      isCount (sn_samples snapshot) = true → t_where (λ m, ms_attemptId m === attemptId) (attemptMetricSummaries s) = [(i, e)] →
      superseded (ms_summary e) snapshot final = true → upload_effect machineId attemptId final snapshot now s true s
  | upload_new d summary :
      isCount (sn_samples snapshot) = true → t_where (λ m, ms_attemptId m === attemptId) (attemptMetricSummaries s) = [] →
      am_attemptId d = attemptId → su_samples summary = sn_samples snapshot → su_final summary = final →
      upload_effect machineId attemptId final snapshot now s true
        (upd attemptMetricSummaries (t_add (MetricSummaryRow attemptId machineId (next_id (attemptMetrics s)) now summary))
          (upd attemptMetrics (t_add d) s))
  | upload_newer i e d summary :
      isCount (sn_samples snapshot) = true → t_where (λ m, ms_attemptId m === attemptId) (attemptMetricSummaries s) = [(i, e)] →
      superseded (ms_summary e) snapshot final = false →
      am_attemptId d = attemptId → su_samples summary = sn_samples snapshot → su_final summary = final →
      is_Some (rows (attemptMetrics s) !! ms_seriesId e) →
      upload_effect machineId attemptId final snapshot now s true
        (upd attemptMetricSummaries (t_set i (MetricSummaryRow attemptId machineId (ms_seriesId e) now summary))
          (upd attemptMetrics (t_set (ms_seriesId e) d) s)).

Lemma recordAttemptMetrics_done machineId attemptId final snapshot now s b s' :
  recordAttemptMetrics machineId attemptId final snapshot now s = Done (b, s') → upload_effect machineId attemptId final snapshot now s b s'.
Proof.
  unfold recordAttemptMetrics. intros H. tx_bind_in H found s0 H0. apply attempt_get_done in H0 as [-> ->].
  case_match; [|injection H as <- <-; constructor]. case_match; [injection H as <- <-; constructor|].
  case_match; [injection H as <- <-; constructor|]. tx_bind_in H v s1 B1.
  pose proof (acts_assertValidSnapshot _ _ _ _ _ B1) as <-. apply valid_samples in B1.
  tx_bind_in H existing s2 B2. apply db_unique_done in B2 as [-> B2]. destruct existing as [[i e]|].
  - destruct (superseded _ _ _) eqn:Es; [injection H as <- <-; by eapply upload_old|].
    tx_bind_in H v3 s3 B3. apply db_patch_done in B3 as (d0 & Hd0 & ->). tx_bind_in H v4 s4 B4.
    apply db_patch_done in B4 as (d1 & Hd1 & ->). injection H as <- <-. by eapply upload_newer.
  - tx_bind_in H seriesId s3 B3. injection B3 as <- <-. tx_bind_in H v4 s4 B4. injection B4 as <- <-. injection H as <- <-.
    by eapply upload_new.
Qed.

Lemma where_one {D} (P : D → bool) (t : table D) i d : t_where P t = [(i, d)] → rows t !! i = Some d ∧ P d = true.
Proof. intros H. apply (t_where_sound t P (i, d)). rewrite H. left. Qed.

Lemma where_none {D} (P : D → bool) (t : table D) i d : t_wf t → t_where P t = [] → rows t !! i = Some d → P d = false.
Proof.
  intros Hwf H Hi. destruct (P d) eqn:E; [|done]. assert ((i, d) ∈ t_where P t) as Hin by by apply elem_of_t_where.
  rewrite H in Hin. by apply elem_of_nil in Hin.
Qed.

Lemma upload_keeps_ok machineId attemptId final snapshot now s b s' :
  upload_effect machineId attemptId final snapshot now s b s' → metrics_ok s → metrics_ok s'.
Proof.
  intros [| |d summary Hc Hw Hd Hs Hf|i e d summary Hc Hw Hno Hd Hs Hf Hex] [W1 W2 C N U]; [by split|by split| |].
  - assert (∀ j r, rows (attemptMetricSummaries s) !! j = Some r → ms_attemptId r ≠ attemptId) as Hnone.
    { intros j r Hj Heq. eapply where_none in Hw; [|done..]. by rewrite bool_decide_eq_false in Hw. }
    split; cbn.
    + by apply t_wf_add.
    + by apply t_wf_add.
    + intros j r. rewrite lookup_insert_Some. intros [[_ <-]|[_ ?]]; [cbn; by rewrite Hs|by eapply C].
    + intros j r. rewrite lookup_insert_Some. intros [[_ <-]|[_ (d' & Hd' & ?)%N]]; cbn.
      * rewrite lookup_insert_eq. eauto.
      * rewrite lookup_insert_ne; [eauto|]. intros Heq. by rewrite <- Heq, t_wf_fresh in Hd'.
    + intros j k r r'. rewrite !lookup_insert_Some.
      intros [[<- <-]|[_ Hj]] [[<- <-]|[_ Hk]] Heq; [done|by destruct (Hnone k r')|by destruct (Hnone j r)|by eapply U].
  - apply where_one in Hw as [Hi He%bool_decide_eq_true]. destruct Hex as [d0 Hd0]. split; cbn.
    + by eapply t_wf_set.
    + by eapply t_wf_set.
    + intros j r. rewrite lookup_insert_Some. intros [[_ <-]|[_ ?]]; [cbn; by rewrite Hs|by eapply C].
    + intros j r. rewrite lookup_insert_Some. intros [[<- <-]|[Hne Hj]]; cbn; [rewrite lookup_insert_eq; eauto|].
      destruct (N j r Hj) as (d' & Hd' & Ha). rewrite lookup_insert_ne; [eauto|]. intros Heq. apply Hne.
      destruct (N i e Hi) as (d'' & Hd'' & Ha'). eapply U; [done..|]. rewrite <- Heq in Hd'. congruence.
    + intros j k r r'. rewrite !lookup_insert_Some. intros [[<- <-]|[_ Hj]] [[<- <-]|[_ Hk]] Heq; [done| | |by eapply U].
      * eapply U; [exact Hi|exact Hk|]. cbn in Heq. congruence.
      * eapply U; [exact Hj|exact Hi|]. cbn in Heq. congruence.
Qed.

Lemma upload_stored machineId attemptId final snapshot now s s' :
  upload_effect machineId attemptId final snapshot now s true s' →
  ∃ j r, rows (attemptMetricSummaries s') !! j = Some r ∧ ms_attemptId r = attemptId.
Proof.
  inversion 1 as [|i e Hc Hw|d m|i e d m Hc Hw]; subst.
  - apply where_one in Hw as [Hi He%bool_decide_eq_true]. eauto.
  - eexists _, _. cbn. by rewrite lookup_insert_eq.
  - eexists i, _. cbn. by rewrite lookup_insert_eq.
Qed.

(** After an accepted upload the Attempt's summary supersedes a replay of it. *)
Lemma upload_superseded machineId attemptId final snapshot now s s' j r :
  upload_effect machineId attemptId final snapshot now s true s' → metrics_ok s →
  rows (attemptMetricSummaries s') !! j = Some r → ms_attemptId r = attemptId →
  superseded (ms_summary r) snapshot final = true.
Proof.
  intros Heff Hok Hj Ha. pose proof (upload_keeps_ok _ _ _ _ _ _ _ _ Heff Hok) as Hok'. inversion Heff as [|i e Hc Hw Hsup|d m Hc Hw Hd Hs Hf|i e d m Hc Hw Hno Hd Hs Hf Hex]; subst.
  - apply where_one in Hw as [Hi He%bool_decide_eq_true].
    assert (i = j) as <- by (by eapply (summary_unique s' Hok)). congruence.
  - eapply superseded_self; [done| |].
    all: assert (j = next_id (attemptMetricSummaries s)) as -> by
      (eapply (summary_unique _ Hok'); [exact Hj|cbn; apply lookup_insert_eq|done]).
    all: cbn in Hj; rewrite lookup_insert_eq in Hj; by injection Hj as <-.
  - eapply superseded_self; [done| |].
    all: assert (j = i) as -> by (eapply (summary_unique _ Hok'); [exact Hj|cbn; apply lookup_insert_eq|done]).
    all: cbn in Hj; rewrite lookup_insert_eq in Hj; by injection Hj as <-.
Qed.

(** Uploads of an Attempt's metrics only advance what is stored.  A committed upload keeps one
    summary per Attempt with its own series, never removes a summary, replaces one only while it is
    not final and only by one of more samples or by the final one of as many, and touches no other
    Attempt's; and once an upload was accepted, replaying it at any later time changes nothing. *)
Theorem metric_uploads_only_advance machineId attemptId final snapshot now s b s' :
  metrics_ok s → recordAttemptMetrics machineId attemptId final snapshot now s = Done (b, s') →
  metrics_ok s' ∧
  (∀ i r, rows (attemptMetricSummaries s) !! i = Some r → ∃ r', rows (attemptMetricSummaries s') !! i = Some r' ∧
     ms_attemptId r' = ms_attemptId r ∧ advances (ms_summary r) (ms_summary r') ∧ (ms_attemptId r ≠ attemptId → r' = r)) ∧
  (b = true → ∀ now' b' s'', recordAttemptMetrics machineId attemptId final snapshot now' s' = Done (b', s'') → s'' = s').
Proof.
  intros Hok Heff%recordAttemptMetrics_done. split; [by eapply upload_keeps_ok|]. split.
  - intros i r Hi. destruct Heff as [| |d m Hc Hw Hd Hs Hf|j e d m Hc Hw Hno Hd Hs Hf Hex].
    + exists r. split_and!; try done. by left.
    + exists r. split_and!; try done. by left.
    + exists r. cbn. rewrite lookup_insert_ne; [split_and!; try done; by left|]. intros Heq.
      pose proof (t_wf_fresh _ (summaries_wf s Hok)) as Hfr. by rewrite Heq, Hi in Hfr.
    + apply where_one in Hw as [Hj He%bool_decide_eq_true]. cbn. destruct (decide (j = i)) as [->|Hne].
      * rewrite Hj in Hi. injection Hi as <-. eexists. rewrite lookup_insert_eq. split_and!; [done|done| |congruence].
        eapply not_superseded; try done. by eapply (summary_count s Hok).
      * exists r. rewrite lookup_insert_ne by done. split_and!; try done. by left.
  - intros -> now' b' s'' Hagain%recordAttemptMetrics_done. pose proof (upload_keeps_ok _ _ _ _ _ _ _ _ Heff Hok) as Hok'.
    inversion Hagain as [| |d m Hc Hw Hd Hs Hf|j e d m Hc Hw Hno Hd Hs Hf Hex]; subst; try done.
    + destruct (upload_stored _ _ _ _ _ _ _ Heff) as (j & r & Hj & Ha).
      eapply where_none in Hw; [|apply Hok'|exact Hj]. by rewrite bool_decide_eq_false in Hw.
    + apply where_one in Hw as [Hj He%bool_decide_eq_true]. by rewrite (upload_superseded _ _ _ _ _ _ _ _ _ Heff Hok Hj He) in Hno.
Qed.

Module MetricDemo.
Definition pts : points :=
  Points [num_of_Z 0; num_of_Z 30] [num_of_Z 30000; num_of_Z 10000] [num_of_Z 15000; num_of_Z 20000] [num_of_Z 900; num_of_Z 2000]
    [num_of_Z 1000; num_of_Z 4000] None None None None.
Definition snap (samples : Z) : metrics_snapshot :=
  MetricsSnapshot "cgroup2" (num_of_Z 100) (num_of_Z 5) (num_of_Z 30) (num_of_Z samples) (num_of_Z 0) None (num_of_Z 4096) None pts.
Definition first : telemetry := Eval vm_compute in commit (recordAttemptMetrics 0 0 false (snap 4) 1000) FlakyDemo.start.
Definition second : telemetry := Eval vm_compute in commit (recordAttemptMetrics 0 0 true (snap 8) 2000) first.
End MetricDemo.

Lemma metric_uploads_only_advance_witness :
  metrics_ok MetricDemo.first ∧
  metrics_ok MetricDemo.second ∧
  (∃ r r', rows (attemptMetricSummaries MetricDemo.first) !! 0%nat = Some r ∧
    rows (attemptMetricSummaries MetricDemo.second) !! 0%nat = Some r' ∧ advances (ms_summary r) (ms_summary r')) ∧
  recordAttemptMetrics 0 0 true (MetricDemo.snap 8) 2500 MetricDemo.second = Done (true, MetricDemo.second).
Proof.
  assert (metrics_ok FlakyDemo.start) as H0 by (split; try apply t_wf_empty; by intros i).
  assert (metrics_ok MetricDemo.first) as H1.
  { apply (metric_uploads_only_advance 0 0 false (MetricDemo.snap 4) 1000 FlakyDemo.start true MetricDemo.first H0). vm_compute. reflexivity. }
  assert (recordAttemptMetrics 0 0 true (MetricDemo.snap 8) 2000 MetricDemo.first = Done (true, MetricDemo.second)) as E by (vm_compute; reflexivity).
  destruct (metric_uploads_only_advance 0 0 true (MetricDemo.snap 8) 2000 MetricDemo.first true MetricDemo.second H1 E) as (H2 & Hadv & _).
  split; [exact H1|]. split; [exact H2|]. split; [|vm_compute; reflexivity].
  destruct (rows (attemptMetricSummaries MetricDemo.first) !! 0%nat) as [r|] eqn:Er; [|vm_compute in Er; discriminate Er].
  destruct (Hadv 0%nat r Er) as (r' & Er' & _ & Ha & _). exists r, r'. split; [reflexivity|]. split; [exact Er'|exact Ha].
Defined.

(** ** The quantile *)

Lemma f_add_int a b : 0 ≤ a → 0 ≤ b → a + b < 2 ^ 53 → f_add (num_of_Z a) (num_of_Z b) = num_of_Z (a + b).
Proof.
  intros. unfold f_add, num_of_Z. cbn [num_add num_round].
  replace (inject_Z a + inject_Z b)%Q with (inject_Z (a + b)); [apply round64_int; lia|].
  unfold inject_Z, Qplus. cbn. by rewrite !Z.mul_1_r.
Qed.

Definition weighted (p : num * Z) : num * num := (p.1, num_of_Z p.2).
Definition weight (l : list (num * Z)) : Z := zsum snd l.

Lemma weight_nonneg l : Forall (λ p, 0 ≤ p.2) l → 0 ≤ weight l.
Proof. intros Hl. apply zsum_nonneg. by apply Forall_forall. Qed.

Lemma sum_weighted c l :
  0 ≤ c → Forall (λ p, 0 ≤ p.2) l → c + weight l < 2 ^ 53 → foldl f_add (num_of_Z c) (weighted <$> l).*2 = num_of_Z (c + weight l).
Proof.
  intros Hc Hl. revert c Hc. induction Hl as [|p l Hp Hl IH]; intros c Hc Ht.
  - cbn. f_equal. lia.
  - change (weight (p :: l)) with (p.2 + weight l) in *. pose proof (weight_nonneg l Hl). cbn [fmap list_fmap foldl weighted snd].
    rewrite f_add_int by lia. fold (weighted <$> l). rewrite IH by lia. f_equal. lia.
Qed.

(** The target is reached once [c] of the weight is passed. *)
Definition reached (target : num) (c : Z) : bool := num_leb target (num_of_Z c).

Lemma reached_mono target a b : a ≤ b → reached target a = true → reached target b = true.
Proof.
  unfold reached, num_of_Z. destruct target; cbn; try done. intros Hab Hr%Qle_bool_iff. apply Qle_bool_iff.
  eapply Qle_trans; [exact Hr|]. by rewrite <- Zle_Qle.
Qed.

Lemma walk_stops target c l otherwise :
  0 ≤ c → Forall (λ p, 0 ≤ p.2) l → c + weight l < 2 ^ 53 → reached target c = false → reached target (c + weight l) = true →
  ∃ l1 p l2, l = l1 ++ p :: l2 ∧ quantile_walk target (num_of_Z c) (weighted <$> l) otherwise = p.1 ∧
    reached target (c + weight l1) = false ∧ reached target (c + weight l1 + p.2) = true.
Proof.
  intros Hc Hl. revert c otherwise Hc. induction Hl as [|p l Hp Hl IH]; intros c otherwise Hc Ht Hno Hyes.
  - change (weight []) with 0 in Hyes. rewrite Z.add_0_r, Hno in Hyes. done.
  - change (weight (p :: l)) with (p.2 + weight l) in *. pose proof (weight_nonneg l Hl). cbn [fmap list_fmap quantile_walk weighted fst snd].
    rewrite f_add_int by lia. fold (reached target (c + p.2)). destruct (reached target (c + p.2)) eqn:E.
    + exists [], p, l. change (weight []) with 0. rewrite Z.add_0_r. done.
    + destruct (IH (c + p.2) p.1) as (l1 & q & l2 & -> & Hw & H1 & H2); [lia|lia|done|by rewrite <- Z.add_assoc|].
      exists (p :: l1), q, l2. change (weight (p :: l1)) with (p.2 + weight l1). rewrite Z.add_assoc. done.
Qed.

Lemma sort_insert_fmap {A B} (f : A → B) (cmp : B → B → Z) x l :
  sort_insert cmp (f x) (f <$> l) = f <$> sort_insert (λ a b, cmp (f a) (f b)) x l.
Proof. induction l as [|y l IH]; [done|]. cbn. destruct (cmp (f x) (f y) <=? 0); [done|]. cbn. by f_equal. Qed.

Lemma to_sorted_fmap {A B} (f : A → B) (cmp : B → B → Z) l :
  to_sorted cmp (f <$> l) = f <$> to_sorted (λ a b, cmp (f a) (f b)) l.
Proof. induction l as [|x l IH]; [done|]. cbn. fold (f <$> l). change (foldr (sort_insert cmp) [] (f <$> l)) with (to_sorted cmp (f <$> l)). by rewrite IH, sort_insert_fmap. Qed.

#[local] Instance by_value_consistent : ConsistentOn (λ l r : num * Z, num_cmp l.1 r.1) (λ p, not_nan p.1).
Proof.
  split.
  - intros a b Ha Hb. rewrite (num_cmp_opp a.1 b.1) by done. lia.
  - intros a b c. apply num_cmp_trans.
Qed.

Lemma num_cmp_le a b : not_nan a → not_nan b → num_cmp a b ≤ 0 ↔ num_leb a b = true.
Proof.
  destruct a as [p| | |], b as [q| | |]; try done; intros _ _.
  1: rewrite num_cmp_fin_le; cbn; by rewrite Qle_bool_iff.
  all: cbn; split; first [done | lia].
Qed.

Lemma weight_part (P : num * Z → bool) l : weight (filter (λ p, P p = true) l) = zsum (λ p, if P p then p.2 else 0) l.
Proof. unfold weight. rewrite zsum_filter. apply zsum_ext. intros p _. case_decide as H; [by rewrite H|]. by destruct (P p). Qed.

Lemma filter_weighted (l : list (num * Z)) : filter (λ p, num_ltb zero p.2 = true) (weighted <$> l) = weighted <$> filter (λ p : num * Z, (0 <? p.2) = true) l.
Proof.
  induction l as [|p l IH]; [done|]. rewrite fmap_cons, !filter_cons, IH. cbn [weighted snd].
  assert (num_ltb zero (num_of_Z p.2) = (0 <? p.2)) as ->; [|by case_decide].
  unfold zero. change (num_ltb (num_of_Z 0) (num_of_Z p.2)) with (negb (num_leb (num_of_Z p.2) (num_of_Z 0))).
  rewrite num_leb_Z. by rewrite Z.ltb_antisym.
Qed.

Lemma sorted_split {A} (R : relation A) l1 p l2 :
  StronglySorted R (l1 ++ p :: l2) → Forall (λ q, R q p) l1 ∧ Forall (R p) l2.
Proof.
  induction l1 as [|x l1 IH]; cbn; intros Hs; apply StronglySorted_inv in Hs as [Hs Hall].
  - by split.
  - destruct (IH Hs) as [H1 H2]. split; [|done]. constructor; [|done]. apply Forall_app in Hall as [_ Hall]. by apply Forall_cons in Hall as [? _].
Qed.

Lemma weight_app l1 l2 : weight (l1 ++ l2) = weight l1 + weight l2.
Proof. apply zsum_app. Qed.

Lemma weight_filter_le (P : num * Z → bool) l : Forall (λ p, 0 ≤ p.2) l → 0 ≤ weight (filter (λ p, P p = true) l) ≤ weight l.
Proof.
  intros Hl. rewrite weight_part. split.
  - apply zsum_nonneg. intros p Hp. rewrite Forall_forall in Hl. specialize (Hl p Hp). destruct (P p); lia.
  - unfold weight, zsum. induction Hl as [|p l Hp Hl IH]; cbn [foldr]; [lia|]. destruct (P p); lia.
Qed.

Lemma cmp_self a : num_cmp a a ≤ 0.
Proof. destruct a; cbn; try lia. by rewrite (proj1 (Qeq_alt q q) (Qeq_refl q)). Qed.

(** The time-weighted quantile of bucket CPU is one.  For weights that are counts below 2^53 in
    all, the answer is the value of a point with weight, the points at or below it carry at least the
    target share of the weight (the rounded product the code computes), and those strictly below it
    less. *)
Theorem weightedQuantile_is_quantile l quantile (target := f_mul quantile (num_of_Z (weight l))) :
  Forall (λ p, not_nan p.1 ∧ 0 ≤ p.2) l → weight l < 2 ^ 53 →
  num_ltb zero target = true → num_leb target (num_of_Z (weight l)) = true →
  let v := weightedQuantile (weighted <$> l) quantile in
  (∃ p, p ∈ l ∧ 0 < p.2 ∧ p.1 = v) ∧
  num_leb target (num_of_Z (weight (filter (λ p, num_leb p.1 v = true) l))) = true ∧
  num_leb target (num_of_Z (weight (filter (λ p, num_ltb p.1 v = true) l))) = false.
Proof.
  intros Hl Hw H0 Ht v.
  set (l' := to_sorted (λ a b : num * Z, num_cmp a.1 b.1) (filter (λ p, 0 <? p.2 = true) l)).
  assert (l' ≡ₚ filter (λ p, 0 <? p.2 = true) l) as Hperm by apply to_sorted_perm.
  assert (∀ p, p ∈ l' → p ∈ l ∧ 0 < p.2 ∧ not_nan p.1) as Hin.
  { intros p Hp. rewrite Hperm in Hp. apply list_elem_of_filter in Hp as [Hp%Z.ltb_lt Hpl]. split_and!; try done.
    rewrite Forall_forall in Hl. by apply Hl. }
  assert (∀ P, weight (filter (λ p, P p = true) l') = weight (filter (λ p, P p = true) l)) as Hweight.
  { intros P. rewrite !weight_part, Hperm, zsum_filter. apply zsum_ext. intros p Hp. rewrite Forall_forall in Hl. destruct (Hl p Hp).
    case_decide as Hd; [done|]. destruct (Z.ltb_spec 0 p.2); [done|]. destruct (P p); lia. }
  assert (weight l' = weight l) as Htot.
  { specialize (Hweight (λ _, true)). by rewrite !weight_part in Hweight. }
  assert (Forall (λ p : num * Z, 0 ≤ p.2) l') as Hpos by (apply Forall_forall; intros p Hp; destruct (Hin p Hp) as (_ & ? & _); lia).
  assert (StronglySorted (λ a b : num * Z, num_cmp a.1 b.1 ≤ 0) l') as Hsort.
  { apply (to_sorted_sorted _ (λ p, not_nan p.1)). apply Forall_forall. intros p [_ Hp]%list_elem_of_filter.
    rewrite Forall_forall in Hl. by apply Hl. }
  destruct (walk_stops target 0 l' zero) as (l1 & p & l2 & El & Ev & Hbefore & Hafter); [done|done|lia| |by rewrite Htot|].
  { unfold reached. change (num_of_Z 0) with zero. unfold num_ltb in H0. destruct target; try done; by apply negb_true_iff. }
  rewrite Z.add_0_l in *. assert (v = p.1) as Hv.
  { unfold v, weightedQuantile. rewrite filter_weighted. destruct (filter _ l) as [|x k] eqn:Ef.
    - apply Permutation_nil_r in Hperm. rewrite Hperm in El. by destruct l1.
    - rewrite fmap_cons. rewrite <- fmap_cons, to_sorted_fmap. 
      assert (to_sorted (λ a b, num_cmp (weighted a).1 (weighted b).1) (x :: k) = l') as -> by done.
      unfold sum. change zero with (num_of_Z 0) at 1. rewrite sum_weighted by (done || lia). rewrite Z.add_0_l, Htot. exact Ev. }
  rewrite Hv. split; [exists p|].
  { destruct (Hin p) as (?&?&?); [rewrite El; set_solver|done]. }
  rewrite <- !Hweight. rewrite El in Hsort, Hin, Hpos |- *. rewrite !filter_app.
  destruct (sorted_split _ _ _ _ Hsort) as [Hlo Hhi].
  assert (∀ q, q ∈ l1 ++ p :: l2 → not_nan q.1) as Hnan by (intros q Hq; by apply Hin).
  assert (not_nan p.1) as Hp by (apply Hnan; set_solver).
  assert (filter (λ q, num_leb q.1 p.1 = true) l1 = l1) as El1.
  { apply filter_id. intros q Hq. rewrite Forall_forall in Hlo. apply num_cmp_le; [apply Hnan; set_solver|done|by apply Hlo]. }
  assert (filter (λ q, num_ltb q.1 p.1 = true) (p :: l2) = []) as El2.
  { apply filter_nil_iff. intros q Hq. assert (num_leb p.1 q.1 = true) as Hle.
    { apply num_cmp_le; [done|apply Hnan; set_solver|]. apply elem_of_cons in Hq as [->|Hq].
      - apply cmp_self.
      - rewrite Forall_forall in Hhi. by apply Hhi. }
    unfold num_ltb. rewrite Hle. by destruct q.1, p.1. }
  apply Forall_app in Hpos as [Hpos1 [Hposp Hpos2]%Forall_cons]. split.
  - rewrite El1, weight_app, filter_cons_True by (by apply num_cmp_le, cmp_self).
    eapply reached_mono; [|exact Hafter].
    pose proof (weight_filter_le (λ q, num_leb q.1 p.1) l2 Hpos2). unfold weight, zsum in *. cbn [foldr]. lia.
  - rewrite El2, app_nil_r. apply not_true_is_false. intros E.
    assert (reached target (weight l1) = true) as Hr; [|congruence].
    eapply reached_mono; [|exact E]. by apply weight_filter_le.
Qed.

Lemma weightedQuantile_is_quantile_witness :
  let l := [(num_of_Z 2, 30); (num_of_Z 1, 60); (num_of_Z 3, 10)] in
  let v := weightedQuantile (weighted <$> l) (lit (95 # 100)) in
  v = num_of_Z 3 ∧ (∃ p, p ∈ l ∧ 0 < p.2 ∧ p.1 = v) ∧
  num_leb (f_mul (lit (95 # 100)) (num_of_Z (weight l))) (num_of_Z (weight (filter (λ p, num_leb p.1 v = true) l))) = true ∧
  num_leb (f_mul (lit (95 # 100)) (num_of_Z (weight l))) (num_of_Z (weight (filter (λ p, num_ltb p.1 v = true) l))) = false.
Proof.
  split; [vm_compute; reflexivity|].
  apply (weightedQuantile_is_quantile [(num_of_Z 2, 30); (num_of_Z 1, 60); (num_of_Z 3, 10)] (lit (95 # 100))).
  - repeat constructor; done.
  - reflexivity.
  - vm_compute. reflexivity.
  - vm_compute. reflexivity.
Defined.
