(* ===== verification/Rightsize.v ===== *)
(** Right-sizing (packages/backend/convex/rightsizeModel.ts, rightsize.ts): which Profile each job
    should run on, from what its measured Attempts used. *)

From S2P Require Import Prelude JsLib Schema HostLabels Egress AppPolicy InfraSchema InfraStore.
From S2P Require Import JsText DecimalText AlertRules Telemetry AttemptMetrics.

(** ** rightsizeModel.ts *)

Definition MIN_ATTEMPTS : nat := 5.
Definition MIN_MEASURED_MS : Z := 30000.
Definition MAX_ERROR_RATIO : num := lit (1 # 10).
Definition CPU_TARGET_UTILISATION : num := lit (7 # 10).
Definition CPU_SATURATED : num := lit (9 # 10).
Definition MEMORY_HEADROOM : num := lit (13 # 10).
Definition MEMORY_PRESSURE : num := lit (9 # 10).
Definition MAX_WINDOW_MS : Z := 14 * 24 * 60 * 60000.
Definition DEFAULT_WINDOW_MS : Z := MAX_WINDOW_MS.
Definition GIB : Z := 1024 * MIB.
Definition STANDARD_VCPUS : list Z := [1; 2; 4; 8; 16; 32; 64].
Definition DEFAULT_GIB_PER_VCPU : Z := 4.
Definition MAX_GIB : Z := 256.

Record rightsize_profile := RightsizeProfile {
  rz_name : string;
  rz_executor : executor;
  rz_imageRelease : string;
  rz_vcpus : Z;
  rz_memoryMiB : Z;
  rz_state : profile_state;
}.

Record rightsize_sample := RightsizeSample {
  rq_repo : string;
  rq_job : string;
  rq_profile : string;
  rq_executor : executor;
  rq_vcpus : Z;
  rq_memory : Z;
  rq_finishedAt : Z;
  rq_source : string;
  rq_final : bool;
  rq_samples : num;
  rq_errors : num;
  rq_durationMs : num;
  rq_cpuP95Vcpus : num;
  rq_cpuMaxVcpus : num;
  rq_memoryPeakBytes : num;
  rq_oomKills : option num;
}.

Inductive verdict := Upsize | Downsize | Keep | InsufficientData.
Inductive memory_measure := WorkingSet | HostResident.
#[export] Instance verdict_eq_dec : EqDecision verdict.
Proof. solve_decision. Defined.
#[export] Instance memory_measure_eq_dec : EqDecision memory_measure.
Proof. solve_decision. Defined.

(** A size: vCPUs and memory in MiB *)
Record machine_size := MachineSize { sz_vcpus : Z; sz_memoryMiB : Z }.

Record recommendation := Recommendation {
  rc_repo : string;
  rc_job : string;
  rc_profile : string;
  rc_verdict : verdict;
  rc_recommendedProfile : option string;
  rc_suggestedProfile : option string;
  rc_current : machine_size;
  rc_target : option machine_size;
  rc_attempts : nat;
  rc_excludedAttempts : nat;
  rc_lastSeenAt : Z;
  rc_cpuP95Vcpus : num;
  rc_cpuMaxVcpus : num;
  rc_saturatedAttempts : nat;
  rc_memoryPeakBytes : num;
  rc_measure : memory_measure;
  rc_oomAttempts : nat;
  rc_explanation : string;
}.

(** [Math.ceil(a)] *)
Definition num_ceil (a : num) : num := match a with Fin q => Fin (inject_Z (Qceiling q)) | x => x end.

(** An index past the end reads undefined, which counts as NaN. *)
Definition nearestRank (values : list num) (quantile : num) : num :=
  match values with
  | [] => zero
  | _ :: _ =>
      let sorted := to_sorted num_cmp values in
      let rank := num_max (num_of_Z 1) (num_ceil (f_mul quantile (num_of_Z (Z.of_nat (length sorted))))) in
      match num_integer rank with
      | Some r => or_else NaN (sorted !! Z.to_nat (r - 1))
      | None => NaN
      end
  end.

Definition qualifies (sample : rightsize_sample) : bool :=
  if negb (rq_final sample) then false
  else if num_ltb (rq_durationMs sample) (num_of_Z MIN_MEASURED_MS) then false
  else
    let readings := f_add (rq_samples sample) (rq_errors sample) in
    num_ltb zero readings && num_leb (rq_errors sample) (f_mul MAX_ERROR_RATIO readings).

Definition memoryMeasure (source : string) : memory_measure := if starts_with "cgroup" source then WorkingSet else HostResident.

(** *** Names: [ADR_0010_NAME] *)

Record profile_family := ProfileFamily {
  fm_canary : bool;
  fm_os : string;
  fm_arm : bool;
  fm_flavour : option string;
}.
#[export] Instance profile_family_eq_dec : EqDecision profile_family.
Proof. solve_decision. Defined.

Record parsed_name := ParsedName { pn_family : profile_family; pn_vcpus : num; pn_memoryGiB : option num }.

(** The longest prefix of characters of a class, and the rest: each class of the expression is
    followed by a character outside it, so the longest match is the only one that can succeed. *)
Fixpoint span (f : ascii → bool) (l : list ascii) : list ascii * list ascii :=
  match l with
  | [] => ([], [])
  | c :: l => if f c then let '(a, b) := span f l in (c :: a, b) else ([], c :: l)
  end.

(** The rest of the text after the literal [lit]. *)
Fixpoint after_text (lit l : list ascii) : option (list ascii) :=
  match lit, l with
  | [], _ => Some l
  | x :: lit, y :: l => if Ascii.eqb x y then after_text lit l else None
  | _ :: _, [] => None
  end.

(** [[1-9][0-9]*] *)
Definition count_digits (l : list ascii) : option (list ascii * list ascii) :=
  let '(d, rest) := span is_digit l in
  match d with
  | [] => None
  | c :: _ => if Ascii.eqb c "0" then None else Some (d, rest)
  end.

(** [(?:-([a-z][a-z0-9-]* ))?$] *)
Definition flavour_end (l : list ascii) : option (option string) :=
  match l with
  | [] => Some None
  | dash :: c :: rest =>
      if Ascii.eqb dash "-" && is_lower_alpha c && forallb (λ x, is_lower_alpha x || is_digit x || Ascii.eqb x "-") rest
      then Some (Some (text (c :: rest))) else None
  | _ => None
  end.

(** [(?:-([1-9][0-9]* )gb)?] and then the flavour, with the memory first if it can be *)
Definition memory_end (l : list ascii) : option (option num * option string) :=
  let with_memory :=
    rest ← after_text (chars "-") l;
    '(d, rest) ← count_digits rest;
    rest ← after_text (chars "gb") rest;
    flavour ← flavour_end rest;
    Some (Some (js_number (text d)), flavour) in
  match with_memory with
  | Some r => Some r
  | None => pair None <$> flavour_end l
  end.

(** [(-arm)?] and the rest *)
Definition arm_end (l : list ascii) : option (bool * (option num * option string)) :=
  match after_text (chars "-arm") l ≫= memory_end with
  | Some r => Some (true, r)
  | None => pair false <$> memory_end l
  end.

Definition parseProfileName (name : string) : option parsed_name :=
  rest ← after_text (chars "erainfra-") (chars name);
  let '(canary, rest) := match after_text (chars "canary-") rest with Some r => (true, r) | None => (false, rest) end in
  '(vcpus, rest) ← count_digits rest;
  rest ← after_text (chars "vcpu-") rest;
  let '(os, rest) := span is_lower_alpha rest in
  match os with
  | [] => None
  | _ :: _ =>
      rest ← after_text (chars "-") rest;
      let '(version, rest) := span is_digit rest in
      match version with
      | [] => None
      | _ :: _ =>
          '(arm, (memory, flavour)) ← arm_end rest;
          Some (ParsedName (ProfileFamily canary (text (os ++ chars "-" ++ version)) arm flavour) (js_number (text vcpus)) memory)
      end
  end.

Definition profileName (family : profile_family) (vcpus memoryGiB : Z) : string :=
  str_join "-" (["erainfra"] ++ (if fm_canary family then ["canary"] else []) ++ [json_Z vcpus +:+ "vcpu"; fm_os family] ++
    (if fm_arm family then ["arm"] else []) ++
    (if memoryGiB =? vcpus * DEFAULT_GIB_PER_VCPU then [] else [json_Z memoryGiB +:+ "gb"]) ++
    match fm_flavour family with Some f => [f] | None => [] end).

(** [s.lastIndexOf(c)] *)
Fixpoint last_index (c : ascii) (l : list ascii) (index found : Z) : Z :=
  match l with
  | [] => found
  | x :: l => last_index c l (index + 1) (if Ascii.eqb x c then index else found)
  end.
Definition lastIndexOf (c : ascii) (s : string) : Z := last_index c (chars s) 0 (-1).

Definition imageRepository (imageRelease : string) : string :=
  let withoutDigest := or_else "" (head (str_split "@" imageRelease)) in
  let slash := lastIndexOf "/" withoutDigest in
  let colon := lastIndexOf ":" withoutDigest in
  if slash <? colon then slice0 (Z.to_nat colon) withoutDigest else withoutDigest.

Definition sameFamily (left right : rightsize_profile) : bool :=
  if rz_executor left !== rz_executor right then false
  else
    match parseProfileName (rz_name left), parseProfileName (rz_name right) with
    | Some l, Some r => pn_family l === pn_family r
    | _, _ => imageRepository (rz_imageRelease left) === imageRepository (rz_imageRelease right)
    end.

(** *** The decision *)

Record need := Need {
  ne_vcpus : num;
  ne_vcpusAbove : option num;
  ne_memoryBytes : num;
  ne_memoryAbove : option num;
}.

Definition above (bound : option num) (v : num) : bool := match bound with Some b => num_ltb b v | None => true end.

Definition bytes_of (memoryMiB : Z) : num := f_mul (num_of_Z memoryMiB) (num_of_Z MIB).

Definition fits (p : rightsize_profile) (n : need) : bool :=
  let memoryBytes := bytes_of (rz_memoryMiB p) in
  num_leb (ne_vcpus n) (num_of_Z (rz_vcpus p)) && above (ne_vcpusAbove n) (num_of_Z (rz_vcpus p)) &&
  num_leb (ne_memoryBytes n) memoryBytes && above (ne_memoryAbove n) memoryBytes.

Definition bySize (left right : rightsize_profile) : Z :=
  let d := rz_vcpus left - rz_vcpus right in if d =? 0 then rz_memoryMiB left - rz_memoryMiB right else d.

(** The loop of [standardSize]: the memory doubles, so eight turns pass [MAX_GIB]. *)
Fixpoint grow_memory (turns : nat) (memoryGiB : Z) (n : need) : option Z :=
  let bytes := num_of_Z (memoryGiB * GIB) in
  if num_ltb bytes (ne_memoryBytes n) || match ne_memoryAbove n with Some a => num_leb bytes a | None => false end then
    match turns with
    | O => None
    | S turns => if MAX_GIB <? memoryGiB * 2 then None else grow_memory turns (memoryGiB * 2) n
    end
  else Some memoryGiB.

Definition standardSize (n : need) : option machine_size :=
  match head (filter (λ step, num_leb (ne_vcpus n) (num_of_Z step) && above (ne_vcpusAbove n) (num_of_Z step) = true) STANDARD_VCPUS) with
  | None => None
  | Some vcpus => (λ memoryGiB, MachineSize vcpus (memoryGiB * 1024)) <$> grow_memory 8 (vcpus * DEFAULT_GIB_PER_VCPU) n
  end.

(** [value.toFixed(0)] and [value.toFixed(1)] of a number that is not negative *)
Definition to_fixed (digits : nat) (a : num) : string :=
  match a with
  | Fin q =>
      let n := Qfloor (q * inject_Z (10 ^ Z.of_nat digits) + (1 # 2)) in
      match digits with
      | O => json_Z n
      | _ => json_Z (n / 10 ^ Z.of_nat digits) +:+ "." +:+ pad_left digits (json_Z (n mod 10 ^ Z.of_nat digits))
      end
  | _ => num_text a
  end.

Definition cores (value : num) : string := if num_leb (num_of_Z 10) value then to_fixed 0 value else to_fixed 1 value.
Definition gib (bytes : num) : string := cores (f_div bytes (num_of_Z GIB)).
Definition size_text (s : machine_size) : string := json_Z (sz_vcpus s) +:+ " vCPU, " +:+ gib (bytes_of (sz_memoryMiB s)) +:+ " GiB".

Definition count {A} (P : A → bool) (l : list A) : nat := length (filter (λ x, P x = true) l).
Definition nat_text (n : nat) : string := json_Z (Z.of_nat n).
Definition plural_of (n : nat) (noun : string) : string := plural (Z.of_nat n) noun.
Definition percent (a : num) : string := num_text (math_round (f_mul a (num_of_Z 100))).

(** The newest sample: [reduce] keeps the first of the latest. *)
Definition newest_sample (samples : list rightsize_sample) : option rightsize_sample :=
  foldl (λ latest sample,
    match latest with
    | None => Some sample
    | Some l => if rq_finishedAt l <? rq_finishedAt sample then Some sample else latest
    end) None samples.

(** The Profile the job runs on, as registered or as its newest sample had it. *)
Definition current_profile (profile : string) (samples : list rightsize_sample) (profiles : list rightsize_profile) : rightsize_profile :=
  match head (filter (λ p, rz_name p = profile) profiles) with
  | Some p => p
  | None =>
      match newest_sample samples with
      | Some s => RightsizeProfile profile (rq_executor s) "" (rq_vcpus s) (rq_memory s) ProfilePaused
      | None => RightsizeProfile profile Docker "" 0 0 ProfilePaused
      end
  end.

(** What the qualifying samples show. *)
Definition cpuP95_of (used : list rightsize_sample) : num := nearestRank (rq_cpuP95Vcpus <$> used) (lit (95 # 100)).
Definition saturated (s : rightsize_sample) : bool :=
  (0 <? rq_vcpus s) && num_leb (f_mul CPU_SATURATED (num_of_Z (rq_vcpus s))) (rq_cpuP95Vcpus s).
Definition saturationRatio_of (used : list rightsize_sample) : num :=
  nearestRank ((λ s, if 0 <? rq_vcpus s then f_div (rq_cpuP95Vcpus s) (num_of_Z (rq_vcpus s)) else zero) <$> used) (lit (5 # 10)).
Definition memoryPeak_of (used : list rightsize_sample) : num := max_of zero (rq_memoryPeakBytes <$> used).
Definition oom_killed (s : rightsize_sample) : bool := num_ltb zero (or_else zero (rq_oomKills s)).
Definition measure_of (used : list rightsize_sample) : memory_measure :=
  if existsb (λ s, memoryMeasure (rq_source s) === HostResident) used then HostResident else WorkingSet.
Definition pressed (s : rightsize_sample) : bool :=
  (0 <? rq_memory s) &&
  num_leb (f_mul (f_mul MEMORY_PRESSURE (num_of_Z (rq_memory s))) (num_of_Z MIB)) (rq_memoryPeakBytes s).
Definition pressureAttempts_of (used : list rightsize_sample) : nat :=
  match measure_of used with WorkingSet => count pressed used | HostResident => 0%nat end.

Definition cpuSaturated_of (used : list rightsize_sample) : bool := num_leb CPU_SATURATED (saturationRatio_of used).
Definition memoryShort_of (used : list rightsize_sample) : bool :=
  Nat.ltb 0 (count oom_killed used) || Nat.ltb 0 (pressureAttempts_of used).

Definition need_of (used : list rightsize_sample) (current : rightsize_profile) : need :=
  let currentMemoryBytes := bytes_of (rz_memoryMiB current) in
  let roomy := f_mul (memoryPeak_of used) MEMORY_HEADROOM in
  Need (num_max (num_of_Z 1) (f_div (cpuP95_of used) CPU_TARGET_UTILISATION))
    (if cpuSaturated_of used then Some (num_of_Z (rz_vcpus current)) else None)
    (if memoryShort_of used then roomy else num_min roomy currentMemoryBytes)
    (if memoryShort_of used then Some currentMemoryBytes else None).

(** The need of a job that outgrew its Profile: the other axis must not shrink. *)
Definition up_need (used : list rightsize_sample) (current : rightsize_profile) : need :=
  let n := need_of used current in
  Need (num_max (ne_vcpus n) (if cpuSaturated_of used then zero else num_of_Z (rz_vcpus current))) (ne_vcpusAbove n)
    (num_max (ne_memoryBytes n) (if memoryShort_of used then zero else bytes_of (rz_memoryMiB current))) (ne_memoryAbove n).

Definition family_candidates (current : rightsize_profile) (profiles : list rightsize_profile) : list rightsize_profile :=
  filter (λ p, (rz_state p === ProfileActive) && (rz_name p !== rz_name current) && sameFamily p current = true) profiles.

Definition no_larger (vcpus memoryMiB : Z) (current : rightsize_profile) : bool :=
  (vcpus <=? rz_vcpus current) && (memoryMiB <=? rz_memoryMiB current) &&
  ((vcpus <? rz_vcpus current) || (memoryMiB <? rz_memoryMiB current)).

(** The smallest candidate that fits. *)
Definition smallest (l : list rightsize_profile) (n : need) : option rightsize_profile :=
  head (to_sorted bySize (filter (λ p, fits p n = true) l)).

Definition suggestion (current : rightsize_profile) (target : option machine_size) : option string :=
  match target, parseProfileName (rz_name current) with
  | Some t, Some parsed => Some (profileName (pn_family parsed) (sz_vcpus t) (sz_memoryMiB t / 1024))
  | _, _ => None
  end.

Definition was_were (n : nat) : string := if Nat.eqb n 1 then "was" else "were".
Definition size_of (p : rightsize_profile) : machine_size := MachineSize (rz_vcpus p) (rz_memoryMiB p).

Definition observed (used : list rightsize_sample) (current : rightsize_profile) : string :=
  "Over " +:+ plural_of (length used) "measured run" +:+ ", CPU p95 was " +:+ cores (cpuP95_of used) +:+ " of " +:+
  json_Z (rz_vcpus current) +:+ " vCPUs and memory peaked at " +:+ gib (memoryPeak_of used) +:+ " of " +:+
  gib (bytes_of (rz_memoryMiB current)) +:+ " GiB" +:+
  (if measure_of used === HostResident then " (host-resident, an upper bound)" else "") +:+ ".".

Definition headroom : string :=
  percent CPU_TARGET_UTILISATION +:+ "% CPU utilisation at p95 and " +:+ percent (f_sub MEMORY_HEADROOM (num_of_Z 1)) +:+
  "% memory headroom over the peak".

Definition too_few (samples used : list rightsize_sample) : string :=
  let oom := count oom_killed used in
  "Only " +:+ plural_of (length used) "measured run" +:+ " in the window; a recommendation needs at least " +:+ nat_text MIN_ATTEMPTS +:+ "." +:+
  (if Nat.ltb (length used) (length samples)
   then " " +:+ plural_of (length samples - length used) "more run" +:+ " had no final snapshot, ran under " +:+
        json_Z (MIN_MEASURED_MS / 1000) +:+ " seconds or lost too many readings." else "") +:+
  (if Nat.ltb 0 oom then " " +:+ plural_of oom "of those run" +:+ " " +:+ was_were oom +:+ " OOM-killed, so watch this job." else "").

(** Why the job outgrew its Profile. *)
Definition why (used : list rightsize_sample) : list string :=
  let oom := count oom_killed used in
  (if cpuSaturated_of used
   then [nat_text (count saturated used) +:+ " of " +:+ nat_text (length used) +:+ " runs held CPU at " +:+ percent CPU_SATURATED +:+
         "% or more of the Profile at p95, so the job is usually waiting on CPU"] else []) ++
  (if Nat.ltb 0 oom then [plural_of oom "run" +:+ " " +:+ was_were oom +:+ " OOM-killed"]
   else if Nat.ltb 0 (pressureAttempts_of used)
   then [plural_of (pressureAttempts_of used) "run" +:+ " used " +:+ percent MEMORY_PRESSURE +:+ "% or more of its memory"] else []).

Definition recommend (repo job profile : string) (samples : list rightsize_sample) (profiles : list rightsize_profile) : recommendation :=
  let used := filter (λ s, qualifies s = true) samples in
  let current := current_profile profile samples profiles in
  let base verdict recommended suggested target explanation :=
    Recommendation repo job profile verdict recommended suggested (size_of current) target (length used) (length samples - length used)
      (match newest_sample samples with Some s => rq_finishedAt s | None => 0 end) (cpuP95_of used)
      (max_of zero (rq_cpuMaxVcpus <$> used)) (count saturated used) (memoryPeak_of used) (measure_of used) (count oom_killed used)
      explanation in
  if Nat.ltb (length used) MIN_ATTEMPTS then base InsufficientData None None None (too_few samples used)
  else
    let family := family_candidates current profiles in
    if cpuSaturated_of used || memoryShort_of used then
      let reason := observed used current +:+ " " +:+ str_join ", and " (why used) +:+ "." in
      match smallest family (up_need used current) with
      | Some choice =>
          base Upsize (Some (rz_name choice)) None (Some (size_of choice))
            (reason +:+ " Move it to " +:+ rz_name choice +:+ " (" +:+ size_text (size_of choice) +:+ ").")
      | None =>
          let ideal := standardSize (up_need used current) in
          let name := suggestion current ideal in
          base Upsize None name ideal
            (reason +:+ " No registered Profile in this family is larger on that axis" +:+
             match ideal, name with
             | None, _ => "."
             | Some i, None => "; register one with " +:+ size_text i +:+ "."
             | Some i, Some n => "; register " +:+ n +:+ " (" +:+ size_text i +:+ ")."
             end)
      end
    else
      match smallest (filter (λ p, no_larger (rz_vcpus p) (rz_memoryMiB p) current = true) family) (need_of used current) with
      | Some choice =>
          base Downsize (Some (rz_name choice)) None (Some (size_of choice))
            (observed used current +:+ " " +:+ rz_name choice +:+ " (" +:+ size_text (size_of choice) +:+ ") still allows " +:+ headroom +:+
             ", so the job can move to it.")
      | None =>
          let ideal := standardSize (need_of used current) in
          match ideal with
          | Some i =>
              if no_larger (sz_vcpus i) (sz_memoryMiB i) current then
                let name := suggestion current ideal in
                base Downsize None name ideal
                  (observed used current +:+ " A " +:+ size_text i +:+ " Profile would still allow " +:+ headroom +:+
                   ", but none is registered in this family" +:+
                   match name with None => "." | Some n => "; register " +:+ n +:+ " to move the job to it." end)
              else base Keep None None None
                     (observed used current +:+ " That fits the current Profile, and nothing smaller would allow " +:+ headroom +:+ ".")
          | None => base Keep None None None
                      (observed used current +:+ " That fits the current Profile, and nothing smaller would allow " +:+ headroom +:+ ".")
          end
      end.

Definition verdict_order (v : verdict) : Z := match v with Upsize => 0 | Downsize => 1 | Keep => 2 | InsufficientData => 3 end.

Definition group_key (s : rightsize_sample) : string * string * string := (rq_repo s, rq_job s, rq_profile s).

(** [recommendAll]: groups in the order their first samples came, then worst first. *)
Definition recommendAll (localeCompare : string → string → Z) (samples : list rightsize_sample) (profiles : list rightsize_profile)
    : list recommendation :=
  let groups := foldl (λ groups s, map_set (group_key s) (or_else [] (map_get (group_key s) groups) ++ [s]) groups) [] samples in
  to_sorted (λ l r,
    let v := verdict_order (rc_verdict l) - verdict_order (rc_verdict r) in
    if v =? 0 then
      let a := localeCompare (rc_repo l) (rc_repo r) in
      if a =? 0 then
        let b := localeCompare (rc_job l) (rc_job r) in
        if b =? 0 then localeCompare (rc_profile l) (rc_profile r) else b
      else a
    else v)
    ((λ g : (string * string * string) * list rightsize_sample, recommend g.1.1.1 g.1.1.2 g.1.2 g.2 profiles) <$> groups).

(** Repository, then job, then Profile name, mapped to the Profile to use instead. *)
Definition runsOnMap (recommendations : list recommendation) : gmap string (gmap string (gmap string string)) :=
  foldl (λ m r,
    match rc_recommendedProfile r with
    | None => m
    | Some p =>
        let repo := or_else ∅ (m !! rc_repo r) in
        let job := or_else ∅ (repo !! rc_job r) in
        <[rc_repo r := <[rc_job r := <[rc_profile r := p]> job]> repo]> m
    end) ∅ recommendations.

(** ** rightsize.ts *)

Definition MAX_SCANNED_SUMMARIES : nat := 2000.

Definition fullRepositoryName (a : attempt) : option string :=
  match at_repo a with
  | None => None
  | Some repo =>
      match at_owner a with
      | None => Some repo
      | Some owner => if str_has "/" repo then Some repo else Some (owner +:+ "/" +:+ repo)
      end
  end.

(** [s.split("/").at(-1)] *)
Definition last_part (s : string) : string := or_else "" (last (str_split "/" s)).

Definition matchesRepo (full wanted : string) : bool :=
  if str_has "/" wanted then to_lower full === to_lower wanted else last_part (to_lower full) === to_lower wanted.

Definition windowStartFor (since : option Z) (now : Z) : Z :=
  let requested := or_else (now - DEFAULT_WINDOW_MS) since in
  Z.min now (Z.max requested (now - MAX_WINDOW_MS)).

Definition repoSpellings (wanted : string) : list string :=
  let name := last_part wanted in
  let spellings := if str_has "/" wanted then [name; wanted] else [name] in
  set_of (spelling ← spellings; [spelling; to_lower spelling]).

Definition measured := (metric_summary_row * attempt)%type.

(** The newest measured Attempts in the window, every repository. *)
Definition measuredAll (windowStart : Z) : tx telemetry (list measured * nat * bool) :=
  found ← read (λ s, take (MAX_SCANNED_SUMMARIES + 1) (reverse (by_column ms_updatedAt
    (t_where (λ m, windowStart <=? ms_updatedAt m) (attemptMetricSummaries s)))));
  let scanned := take MAX_SCANNED_SUMMARIES found in
  rows ← map_tx (λ r : Id * metric_summary_row,
    if negb (su_final (ms_summary r.2)) then mret []
    else
      a ← attempt_get (ms_attemptId r.2);
      mret match a with Some a => [(r.2, a)] | None => [] end) scanned;
  mret (concat rows, length scanned, Nat.ltb MAX_SCANNED_SUMMARIES (length found)).

(** The finished Attempts of one spelling of the repository, newest first. *)
Definition attempts_spelled (windowStart : Z) (spelling : string) (s : telemetry) : list (Id * attempt) :=
  take (MAX_SCANNED_SUMMARIES + 1) (reverse (by_column (λ a, or_else 0 (at_finishedAt a))
    (t_where (λ a, (at_repo a === Some spelling) &&
       match at_finishedAt a with Some t => windowStart - METRICS_LATE_REPORT_MS <=? t | None => false end) (attempts (control s))))).

(** The loop over the spellings: the Attempts found, by id, and whether a range was cut. *)
Definition spelled_step (windowStart : Z) (wanted : string) (acc : list (Id * attempt) * bool) (spelling : string)
    : tx telemetry (list (Id * attempt) * bool) :=
  found ← read (attempts_spelled windowStart spelling);
  mret (foldl (λ m a,
          match fullRepositoryName a.2 with
          | Some full => if matchesRepo full wanted then map_set a.1 a.2 m else m
          | None => m
          end) acc.1 found,
        acc.2 || Nat.ltb MAX_SCANNED_SUMMARIES (length found)).

Definition measuredForRepo (windowStart : Z) (wanted : string) : tx telemetry (list measured * nat * bool) :=
  '(found, cut) ← fold_tx (spelled_step windowStart wanted) ([], false) (repoSpellings wanted);
  let attempts := to_sorted (λ a b : Id * attempt, or_else 0 (at_finishedAt b.2) - or_else 0 (at_finishedAt a.2)) found in
  let newest := take MAX_SCANNED_SUMMARIES attempts in
  rows ← map_tx (λ a : Id * attempt,
    summary ← db_unique attemptMetricSummaries (λ m, ms_attemptId m === a.1);
    mret match summary with
         | Some (_, m) => if (ms_updatedAt m <? windowStart) || negb (su_final (ms_summary m)) then [] else [(m, a.2)]
         | None => []
         end) newest;
  mret (concat rows, length newest, cut || Nat.ltb MAX_SCANNED_SUMMARIES (length attempts)).

Definition sample_of (r : measured) : option rightsize_sample :=
  let '(m, a) := r in
  let s := ms_summary m in
  match fullRepositoryName a, at_displayName a with
  | Some repo, Some job =>
      Some (RightsizeSample repo job (at_profile a) (at_executor a) (at_vcpus a) (at_memoryMiB a)
        (or_else (ms_updatedAt m) (at_finishedAt a)) (su_source s) (su_final s) (su_samples s) (su_errors s) (su_durationMs s)
        (su_cpuP95Vcpus s) (su_cpuMaxVcpus s) (su_memoryPeakBytes s) (su_oomKills s))
  | _, _ => None
  end.

Definition rightsize_profile_of (p : profile) : rightsize_profile :=
  RightsizeProfile (pf_name p) (pf_executor p) (pf_imageRelease p) (pf_vcpus p) (pf_memoryMiB p) (pf_state p).

Record rightsize_report := RightsizeReport {
  rr_windowStart : Z;
  rr_windowEnd : Z;
  rr_scanned : nat;
  rr_truncated : bool;
  rr_recommendations : list recommendation;
}.

Definition rightsizeReport (localeCompare : string → string → Z) (since : option Z) (repo : option string) (now : Z)
    : tx telemetry rightsize_report :=
  let windowStart := windowStartFor since now in
  '(rows, scanned, truncated) ← match repo with
    | None => measuredAll windowStart
    | Some wanted => measuredForRepo windowStart wanted
    end;
  profiles ← read (λ s, (t_scan (profiles (control s))).*2);
  mret (RightsizeReport windowStart now scanned truncated
    (recommendAll localeCompare (omap sample_of rows) (rightsize_profile_of <$> profiles))).
