(* ===== verification/RightsizeProperties.v ===== *)
(** Theorems about right-sizing: what a recommendation may say, and that a suggested name is read
    back as the family and size it was made for. *)

From S2P Require Import Prelude JsLib Schema HostLabels Egress AppPolicy InfraSchema InfraStore.
From S2P Require Import JsText DecimalText AlertRules Telemetry AttemptMetrics TestReportProperties MetricProperties Rightsize.

(** ** Recommendations *)

Lemma num_max_leb a b c : num_leb (num_max a b) c = true → num_leb a c = true ∧ num_leb b c = true.
Proof.
  destruct a as [p| | |], b as [q| | |], c as [r| | |]; try done. cbn. rewrite !Qle_bool_iff. intros H.
  split; eapply Qle_trans; [apply Q.le_max_l|exact H|apply Q.le_max_r|exact H].
Qed.

Lemma num_ltb_Z a b : num_ltb (num_of_Z a) (num_of_Z b) = (a <? b).
Proof.
  change (num_ltb (num_of_Z a) (num_of_Z b)) with (negb (num_leb (num_of_Z b) (num_of_Z a))). by rewrite num_leb_Z, Z.ltb_antisym.
Qed.

(** Sizes a Profile may have: memory whose bytes a double holds. *)
Definition sane (p : rightsize_profile) : Prop := 0 ≤ rz_vcpus p ∧ 0 ≤ rz_memoryMiB p < 2 ^ 33.

Lemma bytes_of_Z m : 0 ≤ m < 2 ^ 33 → bytes_of m = num_of_Z (m * MIB).
Proof.
  intros Hm. unfold bytes_of, f_mul, num_of_Z. cbn [num_times num_round].
  replace (inject_Z m * inject_Z MIB)%Q with (inject_Z (m * MIB)) by done. apply round64_int. unfold MIB. lia.
Qed.

(** Choosing is by size, smallest first. *)
#[local] Instance bySize_consistent : ConsistentOn bySize (λ _, True).
Proof.
  split.
  - intros a b _ _. unfold bySize. repeat case_match; lia.
  - intros a b c _ _ _. unfold bySize. repeat case_match; lia.
Qed.

Lemma smallest_spec l n choice :
  smallest l n = Some choice →
  choice ∈ l ∧ fits choice n = true ∧ ∀ p, p ∈ l → fits p n = true → bySize choice p ≤ 0.
Proof.
  unfold smallest. intros H. pose proof (to_sorted_sorted bySize (λ _, True) (filter (λ p, fits p n = true) l)) as Hs.
  pose proof (to_sorted_perm bySize (filter (λ p, fits p n = true) l)) as Hp.
  destruct (to_sorted bySize _) as [|c k]; [done|]. injection H as ->.
  assert (choice ∈ filter (λ p, fits p n = true) l) as [Hf Hin]%list_elem_of_filter by (rewrite <- Hp; left).
  split_and!; [done..|]. intros p Hpl Hpf. assert (p ∈ choice :: k) as [->|Hk]%elem_of_cons.
  - rewrite Hp. by apply list_elem_of_filter.
  - unfold bySize. repeat case_match; lia.
  - destruct (StronglySorted_inv (Hs ltac:(by apply Forall_true))) as [_ Hall]. rewrite Forall_forall in Hall. by apply Hall.
Qed.

Lemma family_candidates_spec current profiles p :
  p ∈ family_candidates current profiles → p ∈ profiles ∧ rz_state p = ProfileActive ∧ rz_name p ≠ rz_name current ∧ sameFamily p current = true.
Proof.
  unfold family_candidates. intros [HP Hin]%list_elem_of_filter. apply andb_true_iff in HP as [HP Hf]. apply andb_true_iff in HP as [Hs Hn].
  apply bool_decide_eq_true in Hs. apply negb_true_iff, bool_decide_eq_false in Hn. done.
Qed.

Lemma fits_spec p n :
  fits p n = true → num_leb (ne_vcpus n) (num_of_Z (rz_vcpus p)) = true ∧ above (ne_vcpusAbove n) (num_of_Z (rz_vcpus p)) = true ∧
    num_leb (ne_memoryBytes n) (bytes_of (rz_memoryMiB p)) = true ∧ above (ne_memoryAbove n) (bytes_of (rz_memoryMiB p)) = true.
Proof. unfold fits. rewrite !andb_true_iff. tauto. Qed.

(** A Profile that fits the need of an outgrown job is larger where it was short and smaller nowhere. *)
Lemma up_fits used current p :
  sane current → sane p → fits p (up_need used current) = true →
  rz_vcpus current ≤ rz_vcpus p ∧ rz_memoryMiB current ≤ rz_memoryMiB p ∧
  (cpuSaturated_of used = true → rz_vcpus current < rz_vcpus p) ∧
  (memoryShort_of used = true → rz_memoryMiB current < rz_memoryMiB p).
Proof.
  intros [_ Hc] [_ Hp] (Hv & Hva & Hm & Hma)%fits_spec. unfold up_need, need_of in *.
  cbn [ne_vcpus ne_vcpusAbove ne_memoryBytes ne_memoryAbove] in *. apply num_max_leb in Hv as [_ Hv], Hm as [_ Hm].
  rewrite !bytes_of_Z in * by done. assert (0 < MIB) as Hmib by done.
  destruct (cpuSaturated_of used); cbn [above] in Hva; rewrite ?num_ltb_Z, ?num_leb_Z in *;
    destruct (memoryShort_of used); cbn [above] in Hma; rewrite ?num_ltb_Z, ?num_leb_Z in *;
    rewrite ?Z.ltb_lt, ?Z.leb_le in *; unfold MIB in *; split_and!; try done; lia.
Qed.

Lemma no_larger_spec v m current :
  no_larger v m current = true → v ≤ rz_vcpus current ∧ m ≤ rz_memoryMiB current ∧ (v < rz_vcpus current ∨ m < rz_memoryMiB current).
Proof. unfold no_larger. rewrite !andb_true_iff, orb_true_iff, !Z.leb_le, !Z.ltb_lt. tauto. Qed.

(** What a recommendation to move to a registered Profile rests on. *)
Definition sound_move (used : list rightsize_sample) (profiles : list rightsize_profile) (current choice : rightsize_profile) (v : verdict) : Prop :=
  match v with
  | Upsize => rz_vcpus current ≤ rz_vcpus choice ∧ rz_memoryMiB current ≤ rz_memoryMiB choice ∧
      (rz_vcpus current < rz_vcpus choice ∨ rz_memoryMiB current < rz_memoryMiB choice) ∧
      ((∃ s, s ∈ used ∧ oom_killed s = true) → rz_memoryMiB current < rz_memoryMiB choice) ∧
      (cpuSaturated_of used = true → rz_vcpus current < rz_vcpus choice) ∧
      (∀ p, p ∈ family_candidates current profiles → fits p (up_need used current) = true → bySize choice p ≤ 0)
  | Downsize => rz_vcpus choice ≤ rz_vcpus current ∧ rz_memoryMiB choice ≤ rz_memoryMiB current ∧
      (rz_vcpus choice < rz_vcpus current ∨ rz_memoryMiB choice < rz_memoryMiB current) ∧
      (∀ s, s ∈ used → oom_killed s = false) ∧ cpuSaturated_of used = false ∧
      num_leb (f_div (cpuP95_of used) CPU_TARGET_UTILISATION) (num_of_Z (rz_vcpus choice)) = true ∧
      num_leb (num_min (f_mul (memoryPeak_of used) MEMORY_HEADROOM) (bytes_of (rz_memoryMiB current))) (bytes_of (rz_memoryMiB choice)) = true ∧
      (∀ p, p ∈ family_candidates current profiles → no_larger (rz_vcpus p) (rz_memoryMiB p) current = true →
         fits p (need_of used current) = true → bySize choice p ≤ 0)
  | _ => False
  end.

Lemma count_zero {A} (P : A → bool) l : Nat.ltb 0 (count P l) = false ↔ ∀ x, x ∈ l → P x = false.
Proof.
  unfold count. rewrite Nat.ltb_ge. split.
  - intros H x Hx. apply not_true_is_false. intros HP.
    assert (x ∈ filter (λ x, P x = true) l) as Hin by by apply list_elem_of_filter.
    destruct (filter _ l); [by apply elem_of_nil in Hin|cbn in H; lia].
  - intros H. rewrite (proj2 (filter_nil_iff _ l)); [done|]. intros x Hx. by rewrite H.
Qed.

(** A recommendation to move a job is backed by its measurements.  It names an active registered
    Profile of the job's own family, other than the one it has, and the smallest such that fits; it
    rests on at least five qualifying Attempts.  An upsize shrinks neither axis, grows memory after
    any OOM kill and vCPUs when the median run saturates them; a downsize grows neither axis, is never
    given when a run was OOM-killed or CPU is saturated, and keeps the CPU target and the memory
    headroom. *)
Theorem recommendation_is_sound repo job profile samples profiles name
    (r := recommend repo job profile samples profiles)
    (used := filter (λ s, qualifies s = true) samples) (current := current_profile profile samples profiles) :
  sane current → Forall sane profiles → rc_recommendedProfile r = Some name →
  ∃ choice, choice ∈ profiles ∧ rz_name choice = name ∧ rz_state choice = ProfileActive ∧ name ≠ rz_name current ∧
    sameFamily choice current = true ∧ rc_target r = Some (size_of choice) ∧ (MIN_ATTEMPTS ≤ length used)%nat ∧
    sound_move used profiles current choice (rc_verdict r).
Proof.
  intros Hcur Hall. unfold r, recommend. fold used current. destruct (Nat.ltb_spec (length used) MIN_ATTEMPTS) as [|Hlen]; [done|].
  destruct (cpuSaturated_of used || memoryShort_of used) eqn:Eshort.
  - destruct (smallest _ (up_need used current)) as [choice|] eqn:Es; [|done]. intros [= <-].
    apply smallest_spec in Es as (Hin & Hfit & Hmin). apply family_candidates_spec in Hin as (Hin & Hst & Hne & Hfam).
    rewrite Forall_forall in Hall. destruct (up_fits used current choice Hcur (Hall _ Hin) Hfit) as (H1 & H2 & H3 & H4).
    exists choice. unfold sound_move. cbn [rc_verdict rc_target]. split_and!; try done.
    + apply orb_true_iff in Eshort as [E|E]; [left|right]; auto.
    + intros (s & Hs & Ho). apply H4. unfold memoryShort_of. apply orb_true_iff. left. apply not_false_is_true. intros Hz.
      rewrite count_zero in Hz. by rewrite Hz in Ho.
  - apply orb_false_iff in Eshort as [Ecpu Emem]. destruct (smallest _ (need_of used current)) as [choice|] eqn:Es.
    + intros [= <-]. apply smallest_spec in Es as (Hin & Hfit & Hmin). apply list_elem_of_filter in Hin as [Hsm Hin].
      apply family_candidates_spec in Hin as (Hin & Hst & Hne & Hfam). apply no_larger_spec in Hsm as (H1 & H2 & H3).
      apply fits_spec in Hfit as (Hv & _ & Hm & _). unfold need_of in Hv, Hm. cbn [ne_vcpus ne_memoryBytes] in Hv, Hm. apply num_max_leb in Hv as [_ Hv].
      rewrite Emem in Hm. exists choice. unfold memoryShort_of in Emem. apply orb_false_iff in Emem as [Hoom _]. rewrite count_zero in Hoom.
      unfold sound_move. cbn [rc_verdict rc_target]. split_and!; try done. intros p Hp Hsm. apply Hmin. by apply list_elem_of_filter.
    + repeat case_match; done.
Qed.

Module RightsizeDemo.
Definition small : rightsize_profile := RightsizeProfile "erainfra-2vcpu-ubuntu-24" Docker "img:1" 2 8192 ProfileActive.
Definition large : rightsize_profile := RightsizeProfile "erainfra-8vcpu-ubuntu-24" Docker "img:1" 8 32768 ProfileActive.
Definition sample (finishedAt : Z) : rightsize_sample :=
  RightsizeSample "acme/shop" "test" (rz_name large) Docker 8 32768 finishedAt "cgroup2" true (num_of_Z 20) (num_of_Z 0) (num_of_Z 100000)
    (num_of_Z 1) (num_of_Z 2) (num_of_Z 1000000) (Some (num_of_Z 0)).
Definition samples : list rightsize_sample := sample <$> [1; 2; 3; 4; 5].
End RightsizeDemo.

Lemma recommendation_is_sound_witness :
  ∃ choice, choice ∈ [RightsizeDemo.small; RightsizeDemo.large] ∧ rz_name choice = rz_name RightsizeDemo.small ∧
    rz_state choice = ProfileActive ∧ sameFamily choice RightsizeDemo.large = true ∧
    sound_move RightsizeDemo.samples [RightsizeDemo.small; RightsizeDemo.large] RightsizeDemo.large choice Downsize.
Proof.
  assert (filter (λ s, qualifies s = true) RightsizeDemo.samples = RightsizeDemo.samples) as Eu by (vm_compute; reflexivity).
  assert (rc_verdict (recommend "acme/shop" "test" (rz_name RightsizeDemo.large) RightsizeDemo.samples
    [RightsizeDemo.small; RightsizeDemo.large]) = Downsize) as Ev by (vm_compute; reflexivity).
  edestruct (recommendation_is_sound "acme/shop" "test" (rz_name RightsizeDemo.large) RightsizeDemo.samples
    [RightsizeDemo.small; RightsizeDemo.large] (rz_name RightsizeDemo.small)) as (choice & H1 & H2 & H3 & H4 & H5 & H6 & H7 & H8).
  - vm_compute. split; [discriminate|split; [discriminate|reflexivity]].
  - repeat constructor; vm_compute; discriminate.
  - vm_compute. reflexivity.
  - rewrite Eu, Ev in H8. exists choice. exact (conj H1 (conj H2 (conj H3 (conj H5 H8)))).
Defined.

(** ** Names *)

Lemma after_text_app l rest : after_text l (l ++ rest) = Some rest.
Proof. induction l as [|c l IH]; cbn; [done|]. by rewrite Ascii.eqb_refl. Qed.

Definition stops (f : ascii → bool) (l : list ascii) : Prop := match l with [] => True | c :: _ => f c = false end.

Lemma span_app f a b : Forall (λ c, f c = true) a → stops f b → span f (a ++ b) = (a, b).
Proof.
  intros Ha Hb. induction Ha as [|c a Hc Ha IH]; cbn.
  - destruct b as [|c b]; [done|]. cbn in Hb |- *. by rewrite Hb.
  - by rewrite Hc, IH.
Qed.

Lemma count_digits_Z z rest : 0 < z → stops is_digit rest → count_digits (chars (json_Z z) ++ rest) = Some (chars (json_Z z), rest).
Proof.
  intros Hz Hr. destruct (json_digits z Hz) as (c & d & E & Hc & Hd & _). unfold count_digits. rewrite E, span_app by done.
  destruct (Ascii.eqb_spec c "0"); done.
Qed.

(** A family as ADR 0010 writes it: an OS name and version, and a flavour that is a word and does not
    read as the architecture. *)
Record wf_family (f : profile_family) : Prop := {
  wf_os : ∃ c letters v version, fm_os f = text ((c :: letters) ++ chars "-" ++ (v :: version)) ∧
    Forall (λ x, is_lower_alpha x = true) (c :: letters) ∧ Forall (λ x, is_digit x = true) (v :: version);
  wf_flavour w : fm_flavour f = Some w → ∃ c rest, chars w = c :: rest ∧ is_lower_alpha c = true ∧
    Forall (λ x, is_lower_alpha x || is_digit x || Ascii.eqb x "-" = true) rest;
  wf_not_arm w : fm_flavour f = Some w → w ≠ "arm" ∧ ∀ rest, chars w ≠ chars "arm-" ++ rest;
}.

(** The end of a name, as the expression takes it apart. *)
Definition flavour_text (flavour : option string) : list ascii := match flavour with Some w => chars "-" ++ chars w | None => [] end.
Definition memory_text (memory : option Z) : list ascii := match memory with Some m => chars "-" ++ chars (json_Z m) ++ chars "gb" | None => [] end.

Lemma alpha_not_digit c : is_lower_alpha c = true → is_digit c = false.
Proof.
  unfold is_lower_alpha, is_digit. cbv zeta. rewrite andb_true_iff, !Z.leb_le. intros [??]. apply andb_false_iff. right.
  apply Z.leb_gt. lia.
Qed.

Section endings.
Context (f : profile_family) (Hf : wf_family f).

Lemma flavour_end_text : flavour_end (flavour_text (fm_flavour f)) = Some (fm_flavour f).
Proof.
  destruct (fm_flavour f) as [w|] eqn:E; [|done]. destruct (wf_flavour f Hf w E) as (c & rest & Ew & Hc & Hr).
  cbn [flavour_text]. rewrite Ew. cbn. rewrite Hc. rewrite (proj2 (forallb_elem _ rest)); [|by apply Forall_forall].
  cbn. do 2 f_equal. change (text (c :: rest) = w). by rewrite <- Ew, text_chars.
Qed.

Lemma memory_end_text memory :
  (∀ m, memory = Some m → 0 < m < 2 ^ 53) →
  memory_end (memory_text memory ++ flavour_text (fm_flavour f)) = Some (num_of_Z <$> memory, fm_flavour f).
Proof.
  intros Hm. unfold memory_end. destruct memory as [m|]; cbn [memory_text].
  - destruct (Hm m eq_refl) as [Hpos Hlt]. rewrite <- !app_assoc, after_text_app. cbn [mbind option_bind].
    rewrite count_digits_Z by done. cbn [mbind option_bind]. rewrite after_text_app. cbn [mbind option_bind].
    rewrite flavour_end_text. cbn. by rewrite text_chars, js_number_Z.
  - rewrite app_nil_l, flavour_end_text. destruct (fm_flavour f) as [w|] eqn:E; [|done].
    destruct (wf_flavour f Hf w E) as (c & rest & Ew & Hc & Hr). cbn [flavour_text]. rewrite after_text_app. cbn [mbind option_bind].
    unfold count_digits. rewrite Ew. cbn [span]. rewrite alpha_not_digit by done. done.
Qed.

Lemma memory_end_word x l : x ≠ "-"%char → memory_end (x :: l) = None.
Proof.
  intros Hx. assert (Ascii.eqb "-" x = false) as Hd by (by apply Ascii.eqb_neq).
  unfold memory_end. change (after_text (chars "-") (x :: l)) with (if Ascii.eqb "-" x then Some l else None). rewrite Hd.
  cbn [mbind option_bind flavour_end]. destruct l as [|y l]; [done|]. by rewrite Ascii.eqb_sym, Hd.
Qed.

Lemma after_text_Some l k rest : after_text l k = Some rest → k = l ++ rest.
Proof.
  revert k. induction l as [|c l IH]; intros k; [by intros [= ->]|]. destruct k as [|y k]; [done|]. cbn.
  destruct (Ascii.eqb_spec c y) as [->|]; [|done]. intros H. f_equal. by apply IH.
Qed.

Lemma arm_end_text memory :
  (∀ m, memory = Some m → 0 < m < 2 ^ 53) →
  arm_end ((if fm_arm f then chars "-arm" else []) ++ memory_text memory ++ flavour_text (fm_flavour f)) =
    Some (fm_arm f, (num_of_Z <$> memory, fm_flavour f)).
Proof.
  intros Hm. unfold arm_end. destruct (fm_arm f) eqn:Ea.
  - rewrite after_text_app. cbn [mbind option_bind]. by rewrite memory_end_text.
  - rewrite app_nil_l, memory_end_text by done. destruct (_ ≫= memory_end) as [r|] eqn:E; [|done]. exfalso.
    destruct (after_text _ _) as [rest|] eqn:Er; [|done]. apply after_text_Some in Er. cbn [mbind option_bind] in E.
    destruct memory as [m|]; cbn [memory_text] in Er.
    + destruct (json_digits m) as (c & d & Ej & _ & Hd & _); [by apply Hm|]. rewrite Ej in Er. injection Er as -> _.
      apply Forall_cons in Hd as [Hd _]. done.
    + destruct (fm_flavour f) as [w|] eqn:Ew; [|done]. injection Er as Er. destruct (wf_not_arm f Hf w Ew) as [H1 H2].
      destruct rest as [|x rest].
      * apply H1. rewrite <- (text_chars w), Er. done.
      * rewrite memory_end_word in E; [done|]. intros ->. apply (H2 rest). by rewrite Er.
Qed.
End endings.

Definition memory_of (vcpus memoryGiB : Z) : option Z := if memoryGiB =? vcpus * DEFAULT_GIB_PER_VCPU then None else Some memoryGiB.

Lemma join_chars (l : list string) : chars (str_join "-" l) = match l with [] => [] | x :: l => chars x ++ concat ((λ s, "-"%char :: chars s) <$> l) end.
Proof.
  induction l as [|x l IH]; [done|]. destruct l as [|y l]; [cbn; by rewrite app_nil_r|].
  change (str_join "-" (x :: y :: l)) with (x +:+ "-" +:+ str_join "-" (y :: l)). rewrite !chars_app, IH. done.
Qed.

(** The characters of a name in the order the expression reads them. *)
Lemma profileName_chars f vcpus memoryGiB :
  chars (profileName f vcpus memoryGiB) =
    chars "erainfra-" ++ (if fm_canary f then chars "canary-" else []) ++ chars (json_Z vcpus) ++ chars "vcpu-" ++ chars (fm_os f) ++
    (if fm_arm f then chars "-arm" else []) ++ memory_text (memory_of vcpus memoryGiB) ++ flavour_text (fm_flavour f).
Proof.
  unfold profileName, memory_of. rewrite join_chars.
  destruct (fm_canary f), (fm_arm f), (memoryGiB =? vcpus * DEFAULT_GIB_PER_VCPU), (fm_flavour f) as [w|];
    cbn [app fmap list_fmap concat memory_text flavour_text]; rewrite ?chars_app, <- ?app_assoc, ?app_nil_r; reflexivity.
Qed.

(** A Profile name made for a family and size is read back as that family and size: the name
    [profileName] prints parses, with the same canary mark, OS, architecture and flavour, the vCPU
    count it was given and the memory exactly when it is not the default of 4 GiB per vCPU. *)
Theorem profile_name_roundtrip f vcpus memoryGiB :
  wf_family f → 0 < vcpus < 2 ^ 53 → 0 < memoryGiB < 2 ^ 53 →
  parseProfileName (profileName f vcpus memoryGiB) =
    Some (ParsedName f (num_of_Z vcpus)
            (if memoryGiB =? vcpus * DEFAULT_GIB_PER_VCPU then None else Some (num_of_Z memoryGiB))).
Proof.
  intros Hf Hv Hm. unfold parseProfileName. rewrite profileName_chars, after_text_app. cbn [mbind option_bind].
  destruct (json_digits vcpus) as (c & d & Ej & _ & Hd & _); [lia|].
  set (tail := chars (json_Z vcpus) ++ _).
  assert (match after_text (chars "canary-") ((if fm_canary f then chars "canary-" else []) ++ tail) with
          | Some r => (true, r) | None => (false, (if fm_canary f then chars "canary-" else []) ++ tail) end = (fm_canary f, tail)) as ->.
  { destruct (fm_canary f); [by rewrite after_text_app|]. rewrite app_nil_l.
    destruct (after_text _ tail) as [r|] eqn:E; [|done]. apply after_text_Some in E. unfold tail in E. rewrite Ej in E. injection E as -> _.
    apply Forall_cons in Hd as [Hd _]. done. }
  unfold tail. rewrite count_digits_Z by (lia || done). cbn [mbind option_bind]. rewrite after_text_app. cbn [mbind option_bind].
  destruct (wf_os f Hf) as (o & letters & v & version & Eos & Hl & Hver). rewrite Eos, chars_text, <- !app_assoc.
  rewrite (span_app _ (o :: letters)) by done. rewrite after_text_app. cbn [mbind option_bind].
  rewrite (span_app _ (v :: version)); [|done|].
  - rewrite arm_end_text.
    + cbn [mbind option_bind]. rewrite text_chars, js_number_Z by done. unfold memory_of. destruct (memoryGiB =? _);
        cbn [fmap option_fmap option_map]; do 2 f_equal; rewrite <- Eos; by destruct f.
    + done.
    + unfold memory_of. intros m. destruct (memoryGiB =? _); [done|]. by intros [= <-].
  - unfold memory_of. destruct (fm_arm f); [done|]. destruct (memoryGiB =? _); [|done]. by destruct (fm_flavour f).
Qed.

Lemma profile_name_roundtrip_witness :
  profileName (ProfileFamily true "ubuntu-24" true (Some "gpu")) 4 32 = "erainfra-canary-4vcpu-ubuntu-24-arm-32gb-gpu" ∧
  parseProfileName (profileName (ProfileFamily true "ubuntu-24" true (Some "gpu")) 4 32) =
    Some (ParsedName (ProfileFamily true "ubuntu-24" true (Some "gpu")) (num_of_Z 4) (Some (num_of_Z 32))).
Proof.
  split; [reflexivity|]. apply (profile_name_roundtrip (ProfileFamily true "ubuntu-24" true (Some "gpu")) 4 32); [|lia|lia].
  split.
  - exists "u"%char, (chars "buntu"), "2"%char, (chars "4"). split; [reflexivity|]. split; repeat constructor.
  - intros w [= <-]. exists "g"%char, (chars "pu"). split; [reflexivity|]. split; [reflexivity|repeat constructor].
  - intros w [= <-]. split; [discriminate|intros rest; discriminate].
Defined.

(** A flavour that reads as the architecture is why the theorem asks for one that does not: the
    family of a name with an explicit memory can be lost in the name suggested for it. *)
Example arm_flavour_is_misread :
  pn_family <$> parseProfileName "erainfra-4vcpu-ubuntu-24-32gb-arm" = Some (ProfileFamily false "ubuntu-24" false (Some "arm")) ∧
  pn_family <$> parseProfileName (profileName (ProfileFamily false "ubuntu-24" false (Some "arm")) 8 32) =
    Some (ProfileFamily false "ubuntu-24" true None).
Proof. vm_compute. done. Qed.
