(* ===== verification/Base64.v ===== *)
(** Base64 as the runtime's [btoa] and [atob] do it, on the characters of Latin-1 strings, and
    [toBase64] and [fromBase64] of infra/secretCrypto.ts on the bytes of a [Uint8Array]. *)

From S2P Require Import Prelude JsLib.

Definition is_byte (b : Z) : Prop := 0 ≤ b < 256.

(** ** The runtime *)

(** The alphabet: the character of a six-bit value, and back. *)
Definition b64_char (v : Z) : ascii :=
  ascii_of_nat (Z.to_nat (if v <? 26 then 65 + v else if v <? 52 then 71 + v else if v <? 62 then v - 4 else if v =? 62 then 43 else 47)).

Definition b64_value (c : ascii) : option Z :=
  let n := ch c in
  if (65 <=? n) && (n <=? 90) then Some (n - 65)
  else if (97 <=? n) && (n <=? 122) then Some (n - 71)
  else if (48 <=? n) && (n <=? 57) then Some (n + 4)
  else if n =? 43 then Some 62 else if n =? 47 then Some 63 else None.

Fixpoint b64_groups (l : list Z) : list ascii :=
  match l with
  | [] => []
  | [a] => [b64_char (a / 4); b64_char (a mod 4 * 16); "="%char; "="%char]
  | [a; b] => [b64_char (a / 4); b64_char (a mod 4 * 16 + b / 16); b64_char (b mod 16 * 4); "="%char]
  | a :: b :: c :: l =>
      b64_char (a / 4) :: b64_char (a mod 4 * 16 + b / 16) :: b64_char (b mod 16 * 4 + c / 64) :: b64_char (c mod 64) ::
        b64_groups l
  end.

(** [btoa(binary)]; a model string holds code points below 256 only. *)
Definition btoa (binary : string) : string :=
  String.string_of_list_ascii (b64_groups (ch <$> String.list_ascii_of_string binary)).

(** The whitespace [atob] removes. *)
Definition ascii_space (c : ascii) : bool :=
  let n := ch c in (n =? 9) || (n =? 10) || (n =? 12) || (n =? 13) || (n =? 32).

(** One or two padding characters at the end of a text whose length is a multiple of four. *)
Definition drop_padding (l : list ascii) : list ascii :=
  if Nat.eqb (length l mod 4) 0 then
    match reverse l with
    | "="%char :: "="%char :: r => reverse r
    | "="%char :: r => reverse r
    | _ => l
    end
  else l.

Fixpoint b64_bytes (l : list Z) : option (list Z) :=
  match l with
  | [] => Some []
  | [_] => None
  | [v; w] => Some [v * 4 + w / 16]
  | [v; w; x] => Some [v * 4 + w / 16; w mod 16 * 16 + x / 4]
  | v :: w :: x :: y :: l =>
      (λ r, v * 4 + w / 16 :: w mod 16 * 16 + x / 4 :: x mod 4 * 64 + y :: r) <$> b64_bytes l
  end.

(** [atob(text)], which throws on a text that is not base64; the bytes are the code points of the
    string it returns. *)
Definition atob (text : string) : option (list Z) :=
  let l := drop_padding (filter (λ c, ascii_space c = false) (String.list_ascii_of_string text)) in
  mapM b64_value l ≫= b64_bytes.

(** ** secretCrypto.ts *)

Definition toBase64 (bytes : list Z) : string :=
  btoa (String.string_of_list_ascii ((λ b, ascii_of_nat (Z.to_nat b)) <$> bytes)).

Definition fromBase64 (text : string) : option (list Z) := atob text.

(** ** Decoding gives back what was encoded *)

Lemma triples_ind {A} (P : list A → Prop) :
  P [] → (∀ a, P [a]) → (∀ a b, P [a; b]) → (∀ a b c l, P l → P (a :: b :: c :: l)) → ∀ l, P l.
Proof. intros H0 H1 H2 H3. fix IH 1. intros [|a [|b [|c l]]]; [done|apply H1|apply H2|apply H3, IH]. Qed.

Lemma b64_value_char v : 0 ≤ v < 64 → b64_value (b64_char v) = Some v ∧ ascii_space (b64_char v) = false ∧ b64_char v ≠ "="%char.
Proof.
  intros Hv.
  assert (Forall (λ v, b64_value (b64_char v) = Some v ∧ ascii_space (b64_char v) = false ∧ b64_char v ≠ "="%char)
            (Z.of_nat <$> seq 0 64)) as Hall by (repeat constructor; vm_compute; congruence).
  rewrite Forall_forall in Hall. apply Hall, list_elem_of_fmap. exists (Z.to_nat v). rewrite elem_of_seq. lia.
Qed.

(** The six-bit values of a text, and the padding that follows them. *)
Fixpoint sextets (l : list Z) : list Z :=
  match l with
  | [] => []
  | [a] => [a / 4; a mod 4 * 16]
  | [a; b] => [a / 4; a mod 4 * 16 + b / 16; b mod 16 * 4]
  | a :: b :: c :: l => a / 4 :: a mod 4 * 16 + b / 16 :: b mod 16 * 4 + c / 64 :: c mod 64 :: sextets l
  end.

Ltac div_lia := Z.to_euclidean_division_equations; lia.

Lemma sextets_bytes l : Forall is_byte l → b64_bytes (sextets l) = Some l.
Proof.
  unfold is_byte. induction l as [|a|a b|a b c l IH] using triples_ind; intros Hl; decompose_Forall_hyps; cbn [sextets b64_bytes].
  - done.
  - do 2 f_equal. div_lia.
  - do 2 f_equal; [|f_equal]; div_lia.
  - rewrite IH by done. cbn [fmap option_fmap option_map]. do 2 f_equal; [div_lia|]. f_equal; [div_lia|]. f_equal. div_lia.
Qed.

Lemma sextets_range l : Forall is_byte l → Forall (λ v, 0 ≤ v < 64) (sextets l).
Proof.
  unfold is_byte. induction l as [|a|a b|a b c l IH] using triples_ind; intros Hl; decompose_Forall_hyps; cbn [sextets];
    repeat constructor; try (cbn beta; div_lia); auto.
Qed.

Lemma b64_groups_shape l :
  ∃ k, (k ≤ 2)%nat ∧ b64_groups l = (b64_char <$> sextets l) ++ replicate k "="%char ∧ (length (b64_groups l) mod 4 = 0)%nat.
Proof.
  induction l as [|a|a b|a b c l (k & Hk & E & Hm)] using triples_ind; cbn [sextets b64_groups].
  - exists 0%nat. split; [lia|done].
  - exists 2%nat. split; [lia|done].
  - exists 1%nat. split; [lia|done].
  - exists k. split; [done|]. rewrite E. split; [done|]. rewrite <- E. cbn [length].
    replace (S (S (S (S (length (b64_groups l)))))) with (length (b64_groups l) + 1 * 4)%nat by lia. by rewrite Nat.Div0.mod_add.
Qed.

Lemma drop_padding_app l k : Forall (.≠ "="%char) l → (k ≤ 2)%nat →
  (length (l ++ replicate k "="%char) mod 4 = 0)%nat → drop_padding (l ++ replicate k "="%char) = l.
Proof.
  intros Hl Hk Hm. unfold drop_padding. rewrite Hm. cbn [Nat.eqb]. rewrite reverse_app, reverse_replicate.
  destruct l as [|x l _] using rev_ind.
  - destruct k as [|[|[|]]]; [done|done|done|lia].
  - apply Forall_app in Hl as [_ [Hx _]%Forall_cons]. rewrite reverse_snoc.
    assert (reverse (x :: reverse l) = l ++ [x]) as Er by by rewrite reverse_cons, reverse_involutive.
    destruct k as [|[|[|]]]; cbn [replicate app]; [..|lia].
    all: rewrite ?app_nil_r; destruct x as [[] [] [] [] [] [] [] []]; cbn; try done; try (rewrite Er; done).
Qed.

Lemma b64_space l : Forall is_byte l → filter (λ c, ascii_space c = false) (b64_groups l) = b64_groups l.
Proof.
  intros Hl. apply filter_id, Forall_forall. destruct (b64_groups_shape l) as (k & _ & -> & _).
  apply Forall_app. split; [|by apply Forall_replicate].
  apply Forall_fmap. eapply Forall_impl; [by apply sextets_range|]. intros v Hv. by apply b64_value_char.
Qed.

Lemma atob_groups l : Forall is_byte l → atob (String.string_of_list_ascii (b64_groups l)) = Some l.
Proof.
  intros Hl. unfold atob. rewrite String.list_ascii_of_string_of_list_ascii, b64_space by done.
  pose proof (sextets_range l Hl) as Hr.
  destruct (b64_groups_shape l) as (k & Hk & E & Hm). rewrite E in *. rewrite drop_padding_app; [|..|done|done].
  - assert (mapM b64_value (b64_char <$> sextets l) = Some (sextets l)) as ->; [|by apply sextets_bytes].
    apply mapM_Some, Forall2_fmap_l, Forall_Forall2_diag. eapply Forall_impl; [done|]. intros v Hv. by apply b64_value_char.
  - apply Forall_fmap. eapply Forall_impl; [done|]. intros v Hv. by apply b64_value_char.
Qed.

Lemma ch_ascii b : is_byte b → ch (ascii_of_nat (Z.to_nat b)) = b.
Proof. intros [H1 H2]. unfold ch. rewrite nat_ascii_embedding by lia. lia. Qed.

(** [fromBase64] reads back the bytes [toBase64] printed. *)
Lemma base64_roundtrip bytes : Forall is_byte bytes → fromBase64 (toBase64 bytes) = Some bytes.
Proof.
  intros H. unfold fromBase64, toBase64, btoa. rewrite String.list_ascii_of_string_of_list_ascii.
  assert (ch <$> ((λ b, ascii_of_nat (Z.to_nat b)) <$> bytes) = bytes) as ->; [|by apply atob_groups].
  rewrite <- list_fmap_compose. rewrite <- (list_fmap_id bytes) at 2. apply Forall_fmap_ext_1.
  eapply Forall_impl; [done|]. intros b Hb. by apply ch_ascii.
Qed.
