(* ===== verification/Vault.v ===== *)
(** App secrets: the envelope encryption of packages/backend/convex/infra/secretCrypto.ts, the
    functions of infra/secrets.ts and the tombstones of infra/hubProvenance.ts.

    The cipher of WebCrypto, its SHA-256 and the decoder of UTF-8 are parameters; the bytes and
    keys drawn at random are arguments. *)

From S2P Require Import Prelude JsLib Schema AppPolicy InfraSchema InfraStore AppPlan Nodes Ingress NodeState DockerArgs Telemetry TestReports Base64.

(** ** The tables *)

(** [SecretScope] *)
Record secret_scope := SecretScope { sc_app : string; sc_service : option string }.
#[export] Instance secret_scope_eq_dec : EqDecision secret_scope.
Proof. solve_decision. Defined.

Record app_data_key := AppDataKey {
  dk_app : string;
  dk_service : option string;
  dk_wrappedKey : string;
  dk_iv : string;
  dk_masterKeyId : string;
  dk_createdAt : Z;
}.

Record app_secret := AppSecret {
  se_app : string;
  se_service : option string;
  se_name : string;
  se_ciphertext : string;
  se_iv : string;
  se_provenance : option provenance;
  se_updatedAt : Z;
}.
#[export] Instance app_secret_rebuild : Rebuild app_secret := λ r,
  AppSecret (se_app r) (se_service r) (se_name r) (se_ciphertext r) (se_iv r) (se_provenance r) (se_updatedAt r).

Inductive tombstone_kind := TombApp | TombLink | TombSecret | TombGitBinding | TombUser.
#[export] Instance tombstone_kind_eq_dec : EqDecision tombstone_kind.
Proof. solve_decision. Defined.

Record hub_tombstone := HubTombstone { ts_kind : tombstone_kind; ts_key : string; ts_at : Z }.
#[export] Instance hub_tombstone_rebuild : Rebuild hub_tombstone := λ t,
  HubTombstone (ts_kind t) (ts_key t) (ts_at t).

(** The store: the tables of secrets beside those of the platform. *)
Record vault := Vault {
  platform : infra;
  appDataKeys : table app_data_key;
  appSecrets : table app_secret;
  hubImportTombstones : table hub_tombstone;
}.
#[export] Instance vault_rebuild : Rebuild vault := λ s,
  Vault (platform s) (appDataKeys s) (appSecrets s) (hubImportTombstones s).

(** A function of the platform called from one of the secrets. *)
Definition on_platform {A} (m : tx infra A) : tx vault A := λ s,
  match m (platform s) with
  | Done (a, d) => Done (a, s <| platform := d |>)
  | Failed e => Failed e
  end.

(** ** hubProvenance.ts *)

Definition secretKey (scope : secret_scope) (name : string) : string :=
  sc_app scope +:+ match sc_service scope with Some service => "/" +:+ service | None => "" end +:+ ":" +:+ name.

Definition hasTombstone (kind : tombstone_kind) (key : string) : tx vault bool :=
  row ← db_first hubImportTombstones (λ t, (ts_kind t === kind) && (ts_key t === key));
  mret (is_some row).

Definition recordTombstone (kind : tombstone_kind) (key : string) (now : Z) : tx vault unit :=
  existing ← db_first hubImportTombstones (λ t, (ts_kind t === kind) && (ts_key t === key));
  match existing with
  | None => db_insert hubImportTombstones (HubTombstone kind key now) ≫= λ _, mret tt
  | Some row => db_patch hubImportTombstones row.1 (λ t, t <| ts_at := now |>)
  end.

(** ** secretCrypto.ts *)

Definition MASTER_KEY_ENV : string := "ERAINFRA_SECRETS_MASTER_KEY".

(** [MasterKey]: the raw bytes stand for the imported [CryptoKey]. *)
Record master_key := MasterKey { mk_key : list Z; mk_id : string }.

Definition describeScope (scope : secret_scope) : string :=
  match sc_service scope with
  | None => "App " +:+ in_quotes (sc_app scope)
  | Some service => "service " +:+ in_quotes service +:+ " of App " +:+ in_quotes (sc_app scope)
  end.

(** [/^[0-9a-fA-F]{64}$/] *)
Definition is_hex_any (c : ascii) : bool := is_hex c || ((65 <=? ch c) && (ch c <=? 70)).
Definition is_master_hex (hex : string) : bool := str_all is_hex_any hex && Nat.eqb (String.length hex) 64.

Definition hexToBytes (hex : string) : list Z := hex_bytes (String.list_ascii_of_string hex).
Definition bytesToHex (bytes : list Z) : string := str_join "" ((λ b, hex_byte (Z.to_nat b)) <$> bytes).

(** [crypto.subtle.importKey("raw", raw, "AES-GCM", ...)] refuses other lengths. *)
Definition importKey {S} (raw : list Z) : tx S (list Z) :=
  if bool_decide (length raw ∈ [16; 24; 32]%nat) then mret raw else throw "DataError: invalid key length".

(** JSON of the fields a sealed text is bound to. *)
Definition dataKeyAad (scope : secret_scope) : string :=
  json_array [json_string "erainfra/app-data-key/v2"; json_string (sc_app scope); json_or_null (sc_service scope)].
Definition valueAad (scope : secret_scope) (name : string) : string :=
  json_array [json_string "erainfra/app-secret/v2"; json_string (sc_app scope); json_or_null (sc_service scope); json_string name].

(** A sealed text as the rows hold it. *)
Record sealed_text := SealedText { sl_ciphertext : string; sl_iv : string }.

Section crypto.
(** [crypto.subtle.encrypt] and [decrypt] with AES-GCM, by key, nonce, associated data and text;
    decryption fails on a text whose tag does not match.  [TextDecoder.decode]. *)
Context (aes_encrypt : list Z → list Z → list Z → list Z → list Z).
Context (aes_decrypt : list Z → list Z → list Z → list Z → option (list Z)).
Context (sha256 : list Z → list Z) (decodeUtf8 : list Z → string).

Definition readMasterKey (env : option string) : string + master_key :=
  match trim <$> env with
  | None => inl (MASTER_KEY_ENV +:+ " is not set")
  | Some hex =>
      if String.eqb hex "" then inl (MASTER_KEY_ENV +:+ " is not set")
      else if negb (is_master_hex hex) then inl (MASTER_KEY_ENV +:+ " must be 64 hex characters (32 bytes)")
      else
        let raw := hexToBytes (to_lower hex) in
        let digest := sha256 (utf8_bytes "erainfra-secrets-master-key:" ++ raw) in
        inr (MasterKey raw (slice0 16 (bytesToHex digest)))
  end.

Definition requireMasterKey {S} (env : option string) : tx S master_key :=
  match readMasterKey env with
  | inr master => mret master
  | inl reason => throw ("App secrets are unavailable: " +:+ reason)
  end.

(** [seal], with the nonce it draws *)
Definition seal (key plaintext : list Z) (aad : string) (iv : list Z) : sealed_text :=
  SealedText (toBase64 (aes_encrypt key iv (utf8_bytes aad) plaintext)) (toBase64 iv).

Definition open_sealed {S} (key : list Z) (sealed : sealed_text) (aad : string) : tx S (list Z) :=
  match fromBase64 (sl_iv sealed), fromBase64 (sl_ciphertext sealed) with
  | Some iv, Some ciphertext =>
      match aes_decrypt key iv (utf8_bytes aad) ciphertext with
      | Some plaintext => mret plaintext
      | None => throw "OperationError: decryption failed"
      end
  | _, _ => throw "InvalidCharacterError: not base64"
  end.

(** [newDataKey], with the key and the nonce it draws *)
Definition newDataKey {S} (master : master_key) (scope : secret_scope) (raw iv : list Z) : tx S (list Z * sealed_text) :=
  let wrapped := seal (mk_key master) raw (dataKeyAad scope) iv in
  key ← importKey raw;
  mret (key, wrapped).

Definition unwrapDataKey {S} (master : master_key) (scope : secret_scope) (row : app_data_key) : tx S (list Z) :=
  if dk_masterKeyId row !== mk_id master then
    throw ("The data key for " +:+ describeScope scope +:+ " was wrapped by master key " +:+ dk_masterKeyId row +:+
      ", but " +:+ MASTER_KEY_ENV +:+ " is " +:+ mk_id master)
  else
    raw ← open_sealed (mk_key master) (SealedText (dk_wrappedKey row) (dk_iv row)) (dataKeyAad scope);
    importKey raw.

Definition encryptValue (dataKey : list Z) (scope : secret_scope) (name value : string) (iv : list Z) : sealed_text :=
  seal dataKey (utf8_bytes value) (valueAad scope name) iv.

Definition decryptValue {S} (dataKey : list Z) (scope : secret_scope) (name : string) (sealed : sealed_text) : tx S string :=
  plaintext ← open_sealed dataKey sealed (valueAad scope name);
  mret (decodeUtf8 plaintext).

(** ** secrets.ts *)

(** The mask is text of the runtime's strings; its UTF-8 bytes are the model's. *)
Definition MASK : string := "••••••".

Definition secretScope {S} (app : string) (service : option string) : tx S secret_scope :=
  if negb (isValidName app) then throw ("Invalid App name: " +:+ app)
  else
    match service with
    | None => mret (SecretScope app None)
    | Some service =>
        if negb (isValidName service) then throw ("Invalid service name: " +:+ service)
        else mret (SecretScope app (Some service))
    end.

Definition dataKeyRow (scope : secret_scope) : tx vault (option (Id * app_data_key)) :=
  db_unique appDataKeys (λ k, (dk_app k === sc_app scope) && (dk_service k === sc_service scope)).

(** The rows of a scope in the order of the index, by name. *)
Definition in_scope (scope : secret_scope) (r : app_secret) : bool :=
  (se_app r === sc_app scope) && (se_service r === sc_service scope).
Definition secretRows (scope : secret_scope) (s : vault) : list (Id * app_secret) :=
  to_sorted (λ a b, str_cmp (se_name a.2) (se_name b.2)) (t_where (in_scope scope) (appSecrets s)).

Definition secret_row (scope : secret_scope) (name : string) : tx vault (option (Id * app_secret)) :=
  db_unique appSecrets (λ r, in_scope scope r && (se_name r === name)).

(** The random draws of a write: the raw key and the nonce of a new data key, and the nonce of
    each value by its name. *)
Record draws := Draws { dr_key : list Z; dr_wrap : list Z; dr_value : string → list Z }.

Definition writableDataKey (master : master_key) (scope : secret_scope) (d : draws) (now : Z) : tx vault (list Z) :=
  row ← dataKeyRow scope;
  match row with
  | Some row => unwrapDataKey master scope row.2
  | None =>
      created ← newDataKey master scope (dr_key d) (dr_wrap d);
      db_insert appDataKeys (AppDataKey (sc_app scope) (sc_service scope) (sl_ciphertext created.2) (sl_iv created.2)
        (mk_id master) now) ≫= λ _,
      mret created.1
  end.

(** The names of a record are checked first; its entries are a list in insertion order. *)
Definition put_secret (dataKey : list Z) (scope : secret_scope) (d : draws) (hub : option (option string)) (now : Z)
    (entry : string * string) : tx vault unit :=
  let sealed := encryptValue dataKey scope entry.1 entry.2 (dr_value d entry.1) in
  existing ← secret_row scope entry.1;
  let provenance := provenanceFor now hub in
  match existing with
  | None =>
      db_insert appSecrets (AppSecret (sc_app scope) (sc_service scope) entry.1 (sl_ciphertext sealed) (sl_iv sealed)
        (Some provenance) now) ≫= λ _, mret tt
  | Some row =>
      db_patch appSecrets row.1 (λ r, r <| se_ciphertext := sl_ciphertext sealed |> <| se_iv := sl_iv sealed |>
        <| se_provenance := Some provenance |> <| se_updatedAt := now |>)
  end.

Definition putSecrets (master : master_key) (target : secret_scope) (values : list (string * string)) (d : draws)
    (hub : option (option string)) (now : Z) : tx vault unit :=
  scope ← secretScope (sc_app target) (sc_service target);
  for_each values (λ e, if negb (isValidSecretName e.1) then throw ("Invalid environment variable name: " +:+ e.1) else mret tt) ≫= λ _,
  dataKey ← writableDataKey master scope d now;
  for_each values (put_secret dataKey scope d hub now).

Definition storedSecret (master : master_key) (scope : secret_scope) (name : string) : tx vault (option (app_secret * string)) :=
  row ← secret_row scope name;
  match row with
  | None => mret None
  | Some row =>
      keyRow ← dataKeyRow scope;
      match keyRow with
      | None => throw ("Secrets for " +:+ describeScope scope +:+ " have no data key")
      | Some keyRow =>
          dataKey ← unwrapDataKey master scope keyRow.2;
          value ← decryptValue dataKey scope name (SealedText (se_ciphertext row.2) (se_iv row.2));
          mret (Some (row.2, value))
      end
  end.

(** One turn of the loop of [readSecrets]. *)
Definition read_value (dataKey : list Z) (scope : secret_scope) (values : gmap string string) (row : Id * app_secret)
    : tx vault (gmap string string) :=
  value ← decryptValue dataKey scope (se_name row.2) (SealedText (se_ciphertext row.2) (se_iv row.2));
  mret (<[se_name row.2 := value]> values).

Definition readSecrets (master : master_key) (scope : secret_scope) : tx vault (gmap string string) :=
  found ← read (secretRows scope);
  match found with
  | [] => mret ∅
  | _ :: _ =>
      keyRow ← dataKeyRow scope;
      match keyRow with
      | None => throw ("Secrets for " +:+ describeScope scope +:+ " have no data key")
      | Some keyRow =>
          dataKey ← unwrapDataKey master scope keyRow.2;
          fold_tx (read_value dataKey scope) ∅ found
      end
  end.

(** The audit meta of a scope's service. *)
Definition service_meta (scope : secret_scope) : list (string * string) :=
  match sc_service scope with Some service => [("service", json_string service)] | None => [] end.

(** [env] is the value of the environment variable of the master key. *)
Definition setSecrets (env : option string) (app : string) (service : option string) (vars : list (string * string))
    (actor : string) (d : draws) (now : Z) : tx vault unit :=
  scope ← secretScope app service;
  master ← requireMasterKey env;
  putSecrets master scope vars d None now ≫= λ _,
  on_platform (appendAudit (entry actor "env.set" app AudSuccess
    (Some (json_object (service_meta scope ++ [("names", json_array (json_string <$> to_sorted str_cmp vars.*1))])))) now) ≫= λ _,
  mret tt.

Definition secrets_set (env : option string) (user : session) (app : string) (service : option string)
    (vars : list (string * string)) (d : draws) (now : Z) : tx vault unit :=
  actor ← on_platform (requirePermission user AppDeploy);
  setSecrets env app service vars actor.2 d now.

Definition unsetSecret (app : string) (service : option string) (name actor : string) (now : Z) : tx vault bool :=
  scope ← secretScope app service;
  row ← secret_row scope name;
  match row with
  | None => mret false
  | Some row =>
      db_delete appSecrets row.1 ≫= λ _,
      recordTombstone TombSecret (secretKey scope name) now ≫= λ _,
      on_platform (appendAudit (entry actor "env.unset" app AudSuccess
        (Some (json_object (service_meta scope ++ [("name", json_string name)])))) now) ≫= λ _,
      mret true
  end.

Definition secrets_unset (user : session) (app : string) (service : option string) (name : string) (now : Z) : tx vault bool :=
  actor ← on_platform (requirePermission user AppDeploy);
  unsetSecret app service name actor.2 now.

Definition maskedSecrets (app : string) (service : option string) : tx vault (list (string * string * Z)) :=
  scope ← secretScope app service;
  found ← read (secretRows scope);
  mret ((λ r : Id * app_secret, (se_name r.2, MASK, se_updatedAt r.2)) <$> found).

Definition secrets_list (user : session) (app : string) (service : option string) : tx vault (list (string * string * Z)) :=
  on_platform (requirePermission user AppRead) ≫= λ _,
  maskedSecrets app service.

(** The placement a deployment deploys: its plan's, else the stored App's. *)
Definition placement_of (d : app_deployment) : tx vault (option (Id * list app_service)) :=
  match dp_plan d with
  | Some plan => mret (Some (pn_nodeId plan, pn_services plan))
  | None =>
      app ← on_platform (db_unique apps (λ a, ap_name a === dp_app d));
      mret ((λ a : Id * app_row, (ap_nodeId a.2, ap_services a.2)) <$> app)
  end.

Definition placed_on (nodeId : Id) (app : option (Id * list app_service)) : list app_service :=
  match app with
  | Some (primary, services) => filter (λ sv, or_else primary (sv_nodeId sv) = nodeId) services
  | None => []
  end.

Definition secretsForNodeDeploy (env : option string) (nodeId deploymentId : Id) (now : Z)
    : tx vault (gmap string string * gmap string (gmap string string)) :=
  deployment ← on_platform (db_get appDeployments deploymentId);
  match deployment with
  | None => throw "No such deployment"
  | Some d =>
      if negb (bool_decide (nodeId ∈ dp_targetNodeIds d)) then throw "This deployment does not target this Node"
      else if isTerminalStage (dp_stage d) then throw "This deployment has finished"
      else
        lease ← on_platform (db_unique appLeases (λ l, al_app l === dp_app d));
        if match dp_leaseEpoch d with
           | None => true
           | Some epoch => negb (leaseAdmits (lease_of ∘ snd <$> lease) epoch now)
           end then throw "This deployment no longer holds its App's lease"
        else
          app ← placement_of d;
          let services := placed_on nodeId app in
          if is_some app && Nat.eqb (length services) 0 then throw "No services of this App are placed on this Node"
          else
            master ← requireMasterKey env;
            appWide ← readSecrets master (SecretScope (dp_app d) None);
            perService ← fold_tx (λ (perService : gmap string (gmap string string)) sv,
              values ← readSecrets master (SecretScope (dp_app d) (Some (sv_name sv)));
              mret (<[sv_name sv := values]> perService)) ∅ services;
            mret (appWide, perService)
  end.

End crypto.
