(* ===== verification/VaultProperties.v ===== *)
(** Properties of App secrets: the encrypted tables implement a map from scopes and names to values,
    a sealed text opens only where it was sealed, and plaintext goes only to the Nodes of a live
    deployment. *)

From S2P Require Import Prelude JsLib Schema AppPolicy InfraSchema InfraStore AppPlan Nodes Ingress NodeState DockerArgs Telemetry TestReports TestReportProperties Base64 Vault.

(** ** The cipher's contract *)

(** What AES-GCM promises: a text opens under the key, nonce and associated data it was sealed
    with, and under no other key or associated data. *)
Class AuthenticatedEncryption (enc : list Z → list Z → list Z → list Z → list Z)
    (dec : list Z → list Z → list Z → list Z → option (list Z)) : Prop := {
  aead_open key iv aad text : dec key iv aad (enc key iv aad text) = Some text;
  aead_bound key key' iv iv' aad aad' text text' :
    dec key' iv' aad' (enc key iv aad text) = Some text' → key' = key ∧ aad' = aad;
  aead_bytes key iv aad text :
    Forall is_byte key → Forall is_byte iv → Forall is_byte aad → Forall is_byte text → Forall is_byte (enc key iv aad text);
}.

Lemma utf8_is_bytes text : Forall is_byte (utf8_bytes text).
Proof.
  unfold utf8_bytes, is_byte. apply Forall_forall. intros b (c & Hb & _)%list_elem_of_bind.
  assert (0 ≤ ch c < 256) as Hc. { unfold ch. pose proof (nat_ascii_bounded c). lia. }
  destruct (Z.ltb_spec (ch c) 128); rewrite ?elem_of_cons, ?elem_of_nil in Hb.
  - destruct Hb as [->|[]]. lia.
  - destruct Hb as [->|[->|[]]]; Z.to_euclidean_division_equations; lia.
Qed.
#[local] Hint Resolve utf8_is_bytes : core.

(** ** Associated data *)

Lemma valueAad_text scope name : valueAad scope name =
  "[" +:+ json_string "erainfra/app-secret/v2" +:+ "," +:+ json_string (sc_app scope) +:+ "," +:+ json_or_null (sc_service scope) +:+
    "," +:+ json_string name +:+ "]".
Proof. unfold valueAad, json_array. cbn [str_join]. by rewrite !str_app_assoc. Qed.

Lemma dataKeyAad_text scope : dataKeyAad scope =
  "[" +:+ json_string "erainfra/app-data-key/v2" +:+ "," +:+ json_string (sc_app scope) +:+ "," +:+ json_or_null (sc_service scope) +:+ "]".
Proof. unfold dataKeyAad, json_array. cbn [str_join]. by rewrite !str_app_assoc. Qed.

Lemma valueAad_inj scope scope' name name' : valueAad scope name = valueAad scope' name' → scope = scope' ∧ name = name'.
Proof.
  destruct scope as [app service], scope' as [app' service']. rewrite !valueAad_text. cbn [sc_app sc_service].
  intros H%(str_app_cancel "["). apply json_string_inv in H as [_ H%(str_app_cancel ",")].
  apply json_string_inv in H as [-> H%(str_app_cancel ",")]. apply json_or_null_inv in H as [-> H%(str_app_cancel ",")].
  by apply json_string_inv in H as [-> _].
Qed.

Lemma dataKeyAad_inj scope scope' : dataKeyAad scope = dataKeyAad scope' → scope = scope'.
Proof.
  destruct scope as [app service], scope' as [app' service']. rewrite !dataKeyAad_text. cbn [sc_app sc_service].
  intros H%(str_app_cancel "["). apply json_string_inv in H as [_ H%(str_app_cancel ",")].
  apply json_string_inv in H as [-> H%(str_app_cancel ",")]. by apply json_or_null_inv in H as [-> _].
Qed.

(** A wrapped key is never read as a value. *)
Lemma aads_apart scope scope' name : valueAad scope name ≠ dataKeyAad scope'.
Proof. rewrite valueAad_text, dataKeyAad_text. intros [H _]%(str_app_cancel "[")%json_string_inv. done. Qed.

(** ** What the tables show *)

(** The contents of a vault: the values of each scope by name. *)
Definition contents := secret_scope → gmap string string.

Definition scope_of (r : app_secret) : secret_scope := SecretScope (se_app r) (se_service r).
Definition key_scope (k : app_data_key) : secret_scope := SecretScope (dk_app k) (dk_service k).

Definition put (M : contents) (scope : secret_scope) (name value : string) : contents := λ sc,
  if decide (sc = scope) then <[name := value]> (M sc) else M sc.
Definition remove (M : contents) (scope : secret_scope) (name : string) : contents := λ sc,
  if decide (sc = scope) then delete name (M sc) else M sc.

(** A data key as [importKey] takes it. *)
Definition key_bytes (raw : list Z) : Prop := length raw ∈ [16; 24; 32]%nat ∧ Forall is_byte raw.

(** Appending to the audit log finds one counter at most. *)
Definition audit_ready (p : infra) : Prop :=
  t_wf (infraCounters p) ∧
  ∀ i j c e, rows (infraCounters p) !! i = Some c → rows (infraCounters p) !! j = Some e →
    ic_name c = CtrAuditSeq → ic_name e = CtrAuditSeq → i = j.

Section vault.
Context (aes_encrypt : list Z → list Z → list Z → list Z → list Z).
Context (aes_decrypt : list Z → list Z → list Z → list Z → option (list Z)).
Context (sha256 : list Z → list Z) (decodeUtf8 : list Z → string).
Context `{!AuthenticatedEncryption aes_encrypt aes_decrypt}.
Context (decode_encode : ∀ text, decodeUtf8 (utf8_bytes text) = text).

#[local] Abbreviation seal := (seal aes_encrypt).
#[local] Abbreviation open_sealed := (open_sealed aes_decrypt).
#[local] Abbreviation encryptValue := (encryptValue aes_encrypt).
#[local] Abbreviation unwrapDataKey := (unwrapDataKey aes_decrypt).
#[local] Abbreviation readSecrets := (readSecrets aes_decrypt decodeUtf8).

(** The data key of a scope, stored under the master key. *)
Definition holds_key (master : master_key) (s : vault) (scope : secret_scope) (raw : list Z) : Prop :=
  key_bytes raw ∧ ∃ i k iv, rows (appDataKeys s) !! i = Some k ∧ key_scope k = scope ∧ dk_masterKeyId k = mk_id master ∧
    Forall is_byte iv ∧ SealedText (dk_wrappedKey k) (dk_iv k) = seal (mk_key master) raw (dataKeyAad scope) iv.

(** A row that holds its value, sealed for its scope and name. *)
Definition seals (master : master_key) (s : vault) (M : contents) (r : app_secret) : Prop :=
  ∃ raw iv value, holds_key master s (scope_of r) raw ∧ Forall is_byte iv ∧ M (scope_of r) !! se_name r = Some value ∧
    SealedText (se_ciphertext r) (se_iv r) = encryptValue raw (scope_of r) (se_name r) value iv.

Record shows (master : master_key) (s : vault) (M : contents) : Prop := {
  sh_master : Forall is_byte (mk_key master);
  sh_keys_wf : t_wf (appDataKeys s);
  sh_rows_wf : t_wf (appSecrets s);
  sh_audit : audit_ready (platform s);
  sh_one_key : ∀ i j k k', rows (appDataKeys s) !! i = Some k → rows (appDataKeys s) !! j = Some k' → key_scope k = key_scope k' → i = j;
  sh_keys : ∀ i k, rows (appDataKeys s) !! i = Some k → ∃ raw, holds_key master s (key_scope k) raw;
  sh_one_row : ∀ i j r r', rows (appSecrets s) !! i = Some r → rows (appSecrets s) !! j = Some r' →
    scope_of r = scope_of r' → se_name r = se_name r' → i = j;
  sh_rows : ∀ i r, rows (appSecrets s) !! i = Some r → seals master s M r;
  sh_complete : ∀ scope name value, M scope !! name = Some value →
    ∃ i r, rows (appSecrets s) !! i = Some r ∧ scope_of r = scope ∧ se_name r = name;
}.

Lemma open_seal {S} key text aad iv (s : S) :
  Forall is_byte key → Forall is_byte text → Forall is_byte iv → open_sealed key (seal key text aad iv) aad s = Done (text, s).
Proof.
  intros Hk Ht Hi. unfold Vault.open_sealed, Vault.seal. cbn [sl_iv sl_ciphertext].
  rewrite !base64_roundtrip by first [done | by apply aead_bytes]. by rewrite aead_open.
Qed.

(** A text sealed with associated data opens under no other. *)
Lemma open_bound {S} key key' text text' aad aad' iv (s s' : S) :
  Forall is_byte key → Forall is_byte text → Forall is_byte iv →
  open_sealed key' (seal key text aad iv) aad' s = Done (text', s') → aad' = aad.
Proof.
  intros Hk Ht Hi. unfold Vault.open_sealed, Vault.seal. cbn [sl_iv sl_ciphertext].
  rewrite !base64_roundtrip by first [done | by apply aead_bytes].
  destruct (aes_decrypt key' iv _ _) eqn:E; [|done]. intros _.
  apply aead_bound in E as [_ E]. by rewrite <- (decode_encode aad), <- E, decode_encode.
Qed.

Lemma importKey_run {S} raw (s : S) : key_bytes raw → importKey raw s = Done (raw, s).
Proof. intros [H _]. unfold importKey. by rewrite bool_decide_eq_true_2. Qed.

Lemma scope_test app service scope : (app === sc_app scope) && (service === sc_service scope) = true ↔ SecretScope app service = scope.
Proof.
  destruct scope as [a sv]. cbn [sc_app sc_service]. rewrite andb_true_iff, !bool_decide_eq_true. split; [intros [-> ->]|intros [= -> ->]]; done.
Qed.

Lemma dataKeyRow_run master s M scope : shows master s M →
  ∃ row, dataKeyRow scope s = Done (row, s) ∧
    match row with
    | Some (i, k) => rows (appDataKeys s) !! i = Some k ∧ key_scope k = scope
    | None => ∀ i k, rows (appDataKeys s) !! i = Some k → key_scope k ≠ scope
    end.
Proof.
  intros Hs. unfold dataKeyRow.
  destruct (db_unique_total appDataKeys (λ k, (dk_app k === sc_app scope) && (dk_service k === sc_service scope)) s) as (row & Hr & H).
  - apply Hs.
  - intros i j d e Hi Hj Hd%scope_test He%scope_test. eapply sh_one_key; [done..|]. unfold key_scope. congruence.
  - exists row. split; [done|]. destruct row as [[i k]|].
    + destruct H as [Hi Hp%scope_test]. done.
    + intros i k Hi Hk%scope_test. apply H in Hi. congruence.
Qed.

Lemma unwrap_run {S} master s M scope raw i k (s' : S) : shows master s M → holds_key master s scope raw →
  rows (appDataKeys s) !! i = Some k → key_scope k = scope → unwrapDataKey master scope k s' = Done (raw, s').
Proof.
  intros Hs (Hraw & j & k' & iv & Hj & Hsc & Hid & Hiv & Hseal) Hi Hk.
  assert (i = j) as <- by (eapply sh_one_key; [done..|congruence]). simplify_eq. unfold Vault.unwrapDataKey.
  rewrite bool_decide_eq_true_2 by done. cbn [negb]. rewrite Hseal.
  rewrite (bind_run _ _ _ raw s'). 2:{ apply open_seal; [apply Hs|apply Hraw|done]. }
  by apply importKey_run.
Qed.

Lemma holds_key_unique master s M scope raw raw' :
  shows master s M → holds_key master s scope raw → holds_key master s scope raw' → raw = raw'.
Proof.
  intros Hs H H'. pose proof H as (_ & i & k & iv & Hi & Hk & _).
  pose proof (unwrap_run master s M scope raw i k s Hs H Hi Hk) as E.
  rewrite (unwrap_run master s M scope raw' i k s Hs H' Hi Hk) in E. congruence.
Qed.

Lemma in_scope_iff scope r : in_scope scope r = true ↔ scope_of r = scope.
Proof. apply scope_test. Qed.

Lemma secret_row_run master s M scope name : shows master s M →
  ∃ row, secret_row scope name s = Done (row, s) ∧
    match row with
    | Some (i, r) => rows (appSecrets s) !! i = Some r ∧ scope_of r = scope ∧ se_name r = name
    | None => M scope !! name = None
    end.
Proof.
  intros Hs. unfold secret_row.
  destruct (db_unique_total appSecrets (λ r, in_scope scope r && (se_name r === name)) s) as (row & Hr & H).
  - apply Hs.
  - intros i j d e Hi Hj [Hd Hn]%andb_true_iff [He Hm]%andb_true_iff. apply in_scope_iff in Hd, He.
    apply bool_decide_eq_true in Hn, Hm. eapply sh_one_row; [done..|congruence|congruence].
  - exists row. split; [done|]. destruct row as [[i r]|].
    + destruct H as [Hi [Hsc Hn]%andb_true_iff]. apply in_scope_iff in Hsc. by apply bool_decide_eq_true in Hn.
    + destruct (M scope !! name) as [v|] eqn:E; [|done].
      destruct (sh_complete _ _ _ Hs _ _ _ E) as (i & r & Hi & Hsc & Hn). apply H in Hi.
      apply andb_false_iff in Hi as [Hi|Hi]; [apply in_scope_iff in Hsc|apply bool_decide_eq_false in Hi]; congruence.
Qed.

(** The loop of [readSecrets] collects the values the rows show. *)
Lemma read_values_run master s M scope raw l acc :
  shows master s M → holds_key master s scope raw →
  (∀ r, r ∈ l → rows (appSecrets s) !! r.1 = Some r.2 ∧ scope_of r.2 = scope) →
  ∃ m, fold_tx (read_value aes_decrypt decodeUtf8 raw scope) acc l s = Done (m, s) ∧
    ∀ name, m !! name = if bool_decide (name ∈ (se_name ∘ snd <$> l)) then M scope !! name else acc !! name.
Proof.
  intros Hs Hk. revert acc. induction l as [|[i r] l IH]; intros acc Hl; [by exists acc|].
  destruct (Hl (i, r)) as [Hi Hsc]; [left|]. cbn [fst snd] in Hi, Hsc.
  destruct (sh_rows _ _ _ Hs i r Hi) as (raw' & iv & v & Hk' & Hiv & Hv & Hseal). rewrite Hsc in *.
  assert (raw' = raw) as -> by by eapply holds_key_unique.
  cbn [fold_tx].
  assert (decryptValue aes_decrypt decodeUtf8 raw scope (se_name r) (SealedText (se_ciphertext r) (se_iv r)) s = Done (v, s)) as E.
  { unfold decryptValue. rewrite Hseal. rewrite (bind_run _ _ _ (utf8_bytes v) s); [by rewrite decode_encode|].
    apply open_seal; [apply Hk|done..]. }
  destruct (IH (<[se_name r := v]> acc)) as (m & Hm & Hlk); [intros q Hq; apply Hl; by right|].
  exists m. split.
  - rewrite (bind_run _ _ _ (<[se_name r := v]> acc) s); [done|]. unfold read_value. by rewrite (bind_run _ _ _ v s).
  - intros name. rewrite Hlk. cbn [fmap list_fmap]. change ((se_name ∘ snd) (i, r)) with (se_name r).
    destruct (decide (name ∈ (se_name ∘ snd <$> l))) as [Hin|Hin].
    + rewrite !bool_decide_eq_true_2; [done|by right|done].
    + rewrite (bool_decide_eq_false_2 (name ∈ _)) by done. destruct (decide (name = se_name r)) as [->|Hne].
      * rewrite lookup_insert_eq, bool_decide_eq_true_2 by left. done.
      * rewrite lookup_insert_ne, bool_decide_eq_false_2; [done|by rewrite not_elem_of_cons|done].
Qed.

Lemma secretRows_spec s scope r : t_wf (appSecrets s) →
  r ∈ secretRows scope s ↔ rows (appSecrets s) !! r.1 = Some r.2 ∧ scope_of r.2 = scope.
Proof.
  intros Hwf. unfold secretRows. rewrite (to_sorted_perm _ _ : _ ≡ₚ _). destruct r as [i r]. rewrite elem_of_t_where, in_scope_iff by done. done.
Qed.

(** Reading a scope gives its contents. *)
Lemma readSecrets_run master s M scope : shows master s M → readSecrets master scope s = Done (M scope, s).
Proof.
  intros Hs. unfold Vault.readSecrets. rewrite (bind_run _ _ _ (secretRows scope s) s) by done.
  pose proof (secretRows_spec s scope) as Hrows.
  assert (∀ name, name ∈ (se_name ∘ snd <$> secretRows scope s) ↔ is_Some (M scope !! name)) as Hdom.
  { intros name. rewrite list_elem_of_fmap. split.
    - intros (r & -> & [Hi <-]%Hrows); [|apply Hs]. destruct (sh_rows _ _ _ Hs _ _ Hi) as (? & ? & v & _ & _ & Hv & _). cbn. eauto.
    - intros [v (i & r & Hi & Hsc & Hn)%(sh_complete _ _ _ Hs)]. exists (i, r). split; [done|]. apply Hrows; [apply Hs|done]. }
  destruct (secretRows scope s) as [|r l] eqn:E.
  - assert (M scope = ∅) as ->; [|done]. apply map_empty. intros name. apply eq_None_not_Some. rewrite <- Hdom. set_solver.
  - destruct (dataKeyRow_run master s M scope Hs) as (row & Hrow & Hk). rewrite (bind_run _ _ _ row s) by done.
    assert (rows (appSecrets s) !! r.1 = Some r.2 ∧ scope_of r.2 = scope) as [Hi Hsc] by (apply Hrows; [apply Hs|left]).
    destruct (sh_rows _ _ _ Hs _ _ Hi) as (raw & ? & v & Hkey & _). rewrite Hsc in Hkey.
    pose proof Hkey as (_ & j & k & ? & Hj & Hkj & _). destruct row as [[j' k']|]; [|by apply Hk in Hj].
    rewrite (bind_run _ _ _ raw s) by (destruct Hk; by eapply unwrap_run).
    destruct (read_values_run master s M scope raw (r :: l) ∅) as (m & -> & Hm); [done..| |].
    + intros q Hq. apply Hrows; [apply Hs|done].
    + f_equal. f_equal. apply map_eq. intros name. rewrite Hm. case_bool_decide as Hin; [done|].
      rewrite lookup_empty. symmetry. apply eq_None_not_Some. by rewrite <- Hdom.
Qed.

(** *** Writes *)

Lemma holds_key_mono master s s' scope raw :
  (∀ i k, rows (appDataKeys s) !! i = Some k → rows (appDataKeys s') !! i = Some k) →
  holds_key master s scope raw → holds_key master s' scope raw.
Proof. intros Hsub (Hraw & i & k & iv & Hi & ?). split; [done|]. exists i, k, iv. auto. Qed.

Lemma seals_mono master s s' M M' r :
  (∀ i k, rows (appDataKeys s) !! i = Some k → rows (appDataKeys s') !! i = Some k) →
  M' (scope_of r) !! se_name r = M (scope_of r) !! se_name r → seals master s M r → seals master s' M' r.
Proof.
  intros Hsub HM (raw & iv & v & Hk & Hiv & Hv & Hseal). exists raw, iv, v. rewrite HM.
  split; [by eapply holds_key_mono|done].
Qed.

Lemma newDataKey_run {S} master scope raw iv (s : S) : key_bytes raw →
  newDataKey aes_encrypt master scope raw iv s = Done ((raw, seal (mk_key master) raw (dataKeyAad scope) iv), s).
Proof. intros H. unfold newDataKey. by rewrite (bind_run _ _ _ raw s) by by apply importKey_run. Qed.

Definition fair (d : draws) : Prop :=
  key_bytes (dr_key d) ∧ Forall is_byte (dr_wrap d) ∧ ∀ name, Forall is_byte (dr_value d name).

(** Taking a scope's data key, made when there is none, shows the same contents. *)
Lemma writableDataKey_run master s M scope d now : shows master s M → fair d →
  ∃ raw s', writableDataKey aes_encrypt aes_decrypt master scope d now s = Done (raw, s') ∧
    shows master s' M ∧ holds_key master s' scope raw.
Proof.
  intros Hs (Hraw & Hwrap & _). unfold writableDataKey.
  destruct (dataKeyRow_run master s M scope Hs) as (row & Hrow & Hk). rewrite (bind_run _ _ _ row s) by done.
  destruct row as [[i k]|].
  - destruct Hk as [Hi Hk]. destruct (sh_keys _ _ _ Hs i k Hi) as [raw Hkey]. rewrite Hk in Hkey.
    exists raw, s. split; [by eapply unwrap_run|done].
  - rewrite (bind_run _ _ _ _ _ (newDataKey_run master scope (dr_key d) (dr_wrap d) s Hraw)).
    eexists (dr_key d), _. split; [reflexivity|]. cbn [fst snd].
    set (k := AppDataKey _ _ _ _ _ _). set (s' := upd appDataKeys (t_add k) s).
    assert (∀ i r, rows (appDataKeys s) !! i = Some r → rows (appDataKeys s') !! i = Some r) as Hsub.
    { intros i r Hi. apply lookup_insert_Some. right. split; [|done]. intros <-.
      by rewrite t_wf_fresh in Hi by apply Hs. }
    assert (holds_key master s' scope (dr_key d)) as Hnew.
    { split; [done|]. eexists _, k, (dr_wrap d). split; [apply lookup_insert_eq|]. by destruct scope. }
    split; [|done]. destruct Hs as [Hm Hkwf Hrwf Ha H1 Hkeys H2 Hrows Hcomp]. split; try done.
    + by apply t_wf_add.
    + intros i j a b. cbn. rewrite !lookup_insert_Some. intros [[<- <-]|[_ Hi]] [[<- <-]|[_ Hj]] Hab; [done|..].
      * destruct (Hk j b Hj). rewrite <- Hab. by destruct scope.
      * destruct (Hk i a Hi). rewrite Hab. by destruct scope.
      * by eapply H1.
    + intros i a. cbn. rewrite lookup_insert_Some. intros [[<- <-]|[_ Hi]].
      * exists (dr_key d). by destruct scope.
      * destruct (Hkeys i a Hi) as [raw Hr]. exists raw. by eapply holds_key_mono.
    + intros i r Hi. eapply seals_mono; [done|done|by eapply Hrows].
Qed.

Lemma put_same M scope name value : put M scope name value scope !! name = Some value.
Proof. unfold put. rewrite decide_True by done. apply lookup_insert_eq. Qed.

Lemma put_other M scope name value sc n : (sc, n) ≠ (scope, name) → put M scope name value sc !! n = M sc !! n.
Proof. intros H. unfold put. case_decide as E; [|done]. subst. apply lookup_insert_ne. congruence. Qed.

(** The one row a write sets. *)
Lemma put_secret_writes master s M scope raw d hub now name value : shows master s M →
  ∃ i r t, put_secret aes_encrypt raw scope d hub now (name, value) s = Done (tt, upd appSecrets (λ _, t) s) ∧
    t_wf t ∧ rows t = <[i := r]> (rows (appSecrets s)) ∧ scope_of r = scope ∧ se_name r = name ∧
    SealedText (se_ciphertext r) (se_iv r) = encryptValue raw scope name value (dr_value d name) ∧
    ∀ j q, rows (appSecrets s) !! j = Some q → j = i ↔ (scope_of q, se_name q) = (scope, name).
Proof.
  intros Hs. unfold put_secret. cbn [fst snd].
  destruct (secret_row_run master s M scope name Hs) as (row & Hrow & Hr). rewrite (bind_run _ _ _ row s) by done.
  destruct row as [[i r]|].
  - destruct Hr as (Hi & Hsc & Hn). eexists i, _, (t_set i _ (appSecrets s)). unfold db_patch. cbn [fst]. rewrite Hi. split; [reflexivity|].
    split; [eapply t_wf_set; [done|apply Hs]|]. split; [reflexivity|]. split_and!; try done.
    intros j q Hj. split; [intros ->; congruence|]. intros [= Hq1 Hq2]. eapply sh_one_row; [done..| |]; congruence.
  - eexists _, _, (t_add _ (appSecrets s)). split; [reflexivity|]. split; [apply t_wf_add, Hs|]. split; [reflexivity|].
    split_and!; [by destruct scope|done|done|]. intros j q Hj. split.
    + intros ->. by rewrite t_wf_fresh in Hj by apply Hs.
    + intros [= Hq1 Hq2]. destruct (sh_rows _ _ _ Hs j q Hj) as (? & ? & v & _ & _ & Hv & _). congruence.
Qed.

(** Writing a value under a held data key. *)
Lemma put_secret_run master s M scope raw d hub now name value :
  shows master s M → holds_key master s scope raw → fair d →
  ∃ s', put_secret aes_encrypt raw scope d hub now (name, value) s = Done (tt, s') ∧
    shows master s' (put M scope name value) ∧ holds_key master s' scope raw.
Proof.
  intros Hs Hk (_ & _ & Hiv).
  destruct (put_secret_writes master s M scope raw d hub now name value Hs) as (i & r & t & -> & Hwf & Ht & Hsc & Hn & Hsl & Hi).
  eexists. split; [done|]. destruct Hs as [Hm Hkwf Hrwf Ha H1 Hkeys H2 Hrows Hcomp]. split; [|done]. split; try done.
  - intros j j' q q'. cbn. rewrite Ht, !lookup_insert_Some. intros [[<- <-]|[Hj Hq]] [[<- <-]|[Hj' Hq']] E1 E2; [done|..].
    + symmetry. apply (Hi j' q' Hq'). congruence.
    + apply (Hi j q Hq). congruence.
    + by eapply H2.
  - intros j q. cbn. rewrite Ht, lookup_insert_Some. intros [[<- <-]|[Hj Hq]].
    + exists raw, (dr_value d name), value. rewrite Hsc, Hn. split_and!; try done. apply put_same.
    + eapply seals_mono; [done| |by eapply Hrows]. apply put_other. rewrite <- (Hi j q Hq). congruence.
  - intros sc n v Hv. cbn. rewrite Ht. destruct (decide ((sc, n) = (scope, name))) as [[= -> ->]|Hx].
    + exists i, r. by rewrite lookup_insert_eq.
    + rewrite put_other in Hv by done. destruct (Hcomp _ _ _ Hv) as (j & q & Hj & <- & <-).
      exists j, q. rewrite lookup_insert_ne; [done|]. intros <-. by apply Hx, (Hi i q Hj).
Qed.

Definition put_all (M : contents) (scope : secret_scope) (values : list (string * string)) : contents :=
  foldl (λ M e, put M scope e.1 e.2) M values.

Lemma put_secrets_run master s M scope raw d hub now values :
  shows master s M → holds_key master s scope raw → fair d →
  ∃ s', for_each values (put_secret aes_encrypt raw scope d hub now) s = Done (tt, s') ∧ shows master s' (put_all M scope values).
Proof.
  intros Hs Hk Hd. revert s M Hs Hk. induction values as [|[name value] values IH]; intros s M Hs Hk; [by exists s|].
  destruct (put_secret_run master s M scope raw d hub now name value Hs Hk Hd) as (s1 & H1 & Hs1 & Hk1).
  destruct (IH s1 _ Hs1 Hk1) as (s2 & H2 & Hs2). exists s2. cbn [for_each]. by rewrite (bind_run _ _ _ _ _ H1).
Qed.

(** The names and scopes a write accepts. *)
Definition admits_scope (scope : secret_scope) : bool :=
  isValidName (sc_app scope) && match sc_service scope with Some service => isValidName service | None => true end.
Definition admits (scope : secret_scope) (values : list (string * string)) : bool :=
  admits_scope scope && forallb (λ e, isValidSecretName e.1) values.

Lemma secretScope_run {S} scope (s : S) :
  if admits_scope scope then secretScope (sc_app scope) (sc_service scope) s = Done (scope, s)
  else fails (secretScope (sc_app scope) (sc_service scope)) s.
Proof.
  destruct scope as [app service]. unfold admits_scope, secretScope, fails. cbn [sc_app sc_service].
  destruct (isValidName app); cbn; [|eauto]. destruct service as [service|]; [|done]. destruct (isValidName service); cbn; eauto.
Qed.

Lemma valid_names_run {S} (values : list (string * string)) (s : S)
    (check := λ e : string * string, if negb (isValidSecretName e.1) then throw ("Invalid environment variable name: " +:+ e.1) else mret tt) :
  if forallb (λ e, isValidSecretName e.1) values then for_each values check s = Done (tt, s) else fails (for_each values check) s.
Proof.
  induction values as [|e values IH]; [done|]. cbn [forallb for_each]. subst check. unfold fails in *. cbv beta in *.
  destruct (isValidSecretName e.1); cbn [andb negb]; [exact IH|eauto].
Qed.

(** A write of valid names always commits, and nothing else does. *)
Lemma putSecrets_run master s M scope values d hub now : shows master s M → fair d →
  if admits scope values then
    ∃ s', putSecrets aes_encrypt aes_decrypt master scope values d hub now s = Done (tt, s') ∧ shows master s' (put_all M scope values)
  else fails (putSecrets aes_encrypt aes_decrypt master scope values d hub now) s.
Proof.
  intros Hs Hd. unfold admits, putSecrets. pose proof (secretScope_run scope s) as Hsc. pose proof (valid_names_run values s) as Hn.
  cbv zeta in Hn. destruct (admits_scope scope); cbn [andb].
  2:{ destruct Hsc as [e He]. exists e. unfold mbind, tx_bind. by rewrite He. }
  destruct (forallb _ values).
  - destruct (writableDataKey_run master s M scope d now Hs Hd) as (raw & s1 & H1 & Hs1 & Hk1).
    destruct (put_secrets_run master s1 M scope raw d hub now values Hs1 Hk1 Hd) as (s2 & H2 & Hs2).
    exists s2. by rewrite (bind_run _ _ _ _ _ Hsc), (bind_run _ _ _ _ _ Hn), (bind_run _ _ _ _ _ H1).
  - destruct Hn as [e He]. exists e. rewrite (bind_run _ _ _ _ _ Hsc). unfold mbind, tx_bind. by rewrite He.
Qed.

Lemma shows_platform master s M p : shows master s M → audit_ready p → shows master (s <| platform := p |>) M.
Proof. intros [] Hp. by split. Qed.

Lemma on_platform_run {A} (m : tx infra A) s a p : m (platform s) = Done (a, p) → on_platform m s = Done (a, s <| platform := p |>).
Proof. intros H. unfold on_platform. by rewrite H. Qed.

Lemma appendAudit_run p actor action target meta now : audit_ready p → auditRefusal action actor = None →
  ∃ n p', appendAudit (entry actor action target AudSuccess meta) now p = Done (n, p') ∧ audit_ready p'.
Proof.
  intros [Hwf Hone] Hok. unfold appendAudit, bumpCounter, readCounter, writeCounter, counterRow. cbn [au_action au_actor entry]. rewrite Hok.
  destruct (db_unique_total infraCounters (λ c, ic_name c === CtrAuditSeq) p) as (row & Hrow & Hr); [done|..].
  { intros i j c e Hi Hj Hc%bool_decide_eq_true He%bool_decide_eq_true. by eapply Hone. }
  unfold mbind, tx_bind. rewrite Hrow. cbn [mret tx_ret]. rewrite Hrow. destruct row as [[i c]|].
  - destruct Hr as [Hi Hc%bool_decide_eq_true]. destruct (ic_value c =? ic_value c + 1) eqn:E; [lia|].
    unfold db_patch. rewrite Hi. eexists _, _. split; [reflexivity|]. split; [by eapply t_wf_set|].
    intros j k a b. cbn. rewrite !lookup_insert_Some. intros [[<- <-]|[Hj Ha]] [[<- <-]|[Hk Hb]] Na Nb; [done|by eapply Hone..].
  - eexists _, _. split; [reflexivity|]. split; [by apply t_wf_add|].
    intros j k a b. cbn. rewrite !lookup_insert_Some. intros [[<- <-]|[Hj Ha]] [[<- <-]|[Hk Hb]] Na Nb; [done|..|by eapply Hone].
    + apply Hr, bool_decide_eq_false in Hb. done.
    + apply Hr, bool_decide_eq_false in Ha. done.
Qed.

Lemma recordTombstone_run kind key now s :
  ∃ t, recordTombstone kind key now s = Done (tt, upd hubImportTombstones (λ _, t) s).
Proof.
  unfold recordTombstone. rewrite (bind_run _ _ _ _ s) by reflexivity.
  destruct (t_where _ (hubImportTombstones s)) as [|[i t] l] eqn:E; cbn [head].
  - eexists. reflexivity.
  - assert ((i, t) ∈ t_where (λ t, (ts_kind t === kind) && (ts_key t === key)) (hubImportTombstones s)) as [Hi _]%t_where_sound by (rewrite E; left). cbn [fst snd] in *.
    unfold db_patch. rewrite Hi. eexists. reflexivity.
Qed.

Lemma remove_other M scope name sc n : (sc, n) ≠ (scope, name) → remove M scope name sc !! n = M sc !! n.
Proof. intros H. unfold remove. case_decide as E; [|done]. subst. apply lookup_delete_ne. congruence. Qed.

Lemma remove_none M scope name : remove M scope name scope !! name = None.
Proof. unfold remove. rewrite decide_True by done. apply lookup_delete_eq. Qed.

Lemma shows_ext master s M M' : (∀ scope name, M scope !! name = M' scope !! name) → shows master s M → shows master s M'.
Proof.
  intros E Hs. destruct Hs as [Hm Hkwf Hrwf Ha H1 Hkeys H2 Hrows Hcomp]. split; try done.
  - intros i r Hi. eapply seals_mono; [done|by rewrite <- E|by eapply Hrows].
  - intros scope name v. rewrite <- E. apply Hcomp.
Qed.

Lemma shows_delete master s M i r : shows master s M → rows (appSecrets s) !! i = Some r →
  shows master (upd appSecrets (t_del i) s) (remove M (scope_of r) (se_name r)).
Proof.
  intros Hs Hi. destruct Hs as [Hm Hkwf Hrwf Ha H1 Hkeys H2 Hrows Hcomp]. split; try done.
  - by apply t_wf_del.
  - intros j k q q'. cbn. rewrite !lookup_delete_Some. intros [_ Hj] [_ Hk]. by eapply H2.
  - intros j q. cbn. rewrite lookup_delete_Some. intros [Hne Hj]. eapply seals_mono; [done| |by eapply Hrows].
    apply remove_other. intros E%pair_eq. apply Hne. eapply H2; [done..| |]; by destruct E.
  - intros sc n v Hv. destruct (decide ((sc, n) = (scope_of r, se_name r))) as [[-> ->]%pair_eq|Hx]; [by rewrite remove_none in Hv|].
    rewrite remove_other in Hv by done. destruct (Hcomp _ _ _ Hv) as (j & q & Hj & <- & <-). exists j, q. cbn.
    rewrite lookup_delete_Some. split; [|done]. split; [|done]. intros <-. congruence.
Qed.

Lemma auditRefusal_none action actor : (0 < String.length (trim action) ≤ MAX_ACTION_LENGTH)%nat → actor ≠ "" → auditRefusal action actor = None.
Proof.
  intros Ha Hb. unfold auditRefusal. destruct actor as [|c actor]; [done|].
  rewrite (proj2 (Nat.eqb_neq _ _)), (proj2 (Nat.ltb_ge _ _)) by lia. done.
Qed.

(** Deleting a variable answers whether it was there. *)
Lemma unsetSecret_run master s M app service name actor now : shows master s M → actor ≠ "" →
  let scope := SecretScope app service in
  if admits_scope scope then
    ∃ s', unsetSecret app service name actor now s = Done (is_some (M scope !! name), s') ∧ shows master s' (remove M scope name)
  else fails (unsetSecret app service name actor now) s.
Proof.
  intros Hs Hactor scope. unfold unsetSecret. pose proof (secretScope_run scope s) as Hsc.
  change (secretScope (sc_app scope) (sc_service scope)) with (@secretScope vault app service) in Hsc. destruct (admits_scope scope).
  2:{ destruct Hsc as [e He]. exists e. unfold mbind, tx_bind. by rewrite He. }
  rewrite (bind_run _ _ _ _ _ Hsc). destruct (secret_row_run master s M scope name Hs) as (row & Hrow & Hr). rewrite (bind_run _ _ _ _ _ Hrow).
  destruct row as [[i r]|].
  - destruct Hr as (Hi & Hscope & Hn). destruct (sh_rows _ _ _ Hs i r Hi) as (? & ? & v & _ & _ & Hv & _).
    rewrite Hscope, Hn in Hv. rewrite Hv. pose proof (shows_delete master s M i r Hs Hi) as Hd. rewrite Hscope, Hn in Hd.
    set (s1 := upd appSecrets (t_del i) s) in *. rewrite (bind_run _ _ _ tt s1) by (unfold db_delete; cbn [fst]; by rewrite Hi).
    destruct (recordTombstone_run TombSecret (secretKey scope name) now s1) as (t & Ht). rewrite (bind_run _ _ _ _ _ Ht).
    set (s2 := upd hubImportTombstones (λ _, t) s1) in *.
    destruct (appendAudit_run (platform s2) actor "env.unset" app (Some (json_object (service_meta scope ++ [("name", json_string name)]))) now)
      as (n & p & Hp & Hready); [apply Hs|by apply auditRefusal_none; [vm_compute; lia|]|].
    rewrite (bind_run _ _ _ _ _ (on_platform_run _ s2 _ _ Hp)). eexists. split; [reflexivity|].
    apply shows_platform; [|done]. subst s2. by destruct Hd.
  - rewrite Hr. eexists. split; [reflexivity|]. eapply shows_ext; [|done]. intros sc n.
    destruct (decide ((sc, n) = (scope, name))) as [[= -> ->]|Hx]; [by rewrite remove_none|by rewrite remove_other].
Qed.

Lemma setSecrets_run env master s M app service vars actor d now :
  readMasterKey sha256 env = inr master → shows master s M → fair d → actor ≠ "" →
  let scope := SecretScope app service in
  if admits scope vars then
    ∃ s', setSecrets aes_encrypt aes_decrypt sha256 env app service vars actor d now s = Done (tt, s') ∧ shows master s' (put_all M scope vars)
  else fails (setSecrets aes_encrypt aes_decrypt sha256 env app service vars actor d now) s.
Proof.
  intros Henv Hs Hd Hactor scope. unfold setSecrets, admits. pose proof (secretScope_run scope s) as Hsc.
  change (secretScope (sc_app scope) (sc_service scope)) with (@secretScope vault app service) in Hsc.
  pose proof (putSecrets_run master s M scope vars d None now Hs Hd) as Hput. unfold admits in Hput.
  assert (requireMasterKey sha256 env s = Done (master, s)) as Hm by (unfold requireMasterKey; by rewrite Henv).
  destruct (admits_scope scope); cbn [andb] in *.
  2:{ destruct Hsc as [e He]. exists e. unfold mbind, tx_bind. by rewrite He. }
  rewrite (bind_run _ _ _ _ _ Hsc), (bind_run _ _ _ _ _ Hm). unfold fails. rewrite (bind_run _ _ _ _ _ Hsc), (bind_run _ _ _ _ _ Hm).
  destruct (forallb _ vars).
  - destruct Hput as (s1 & H1 & Hs1). rewrite (bind_run _ _ _ _ _ H1).
    destruct (appendAudit_run (platform s1) actor "env.set" app
      (Some (json_object (service_meta scope ++ [("names", json_array (json_string <$> to_sorted str_cmp vars.*1))]))) now)
      as (n & p & Hp & Hready); [apply Hs1|by apply auditRefusal_none; [vm_compute; lia|]|].
    rewrite (bind_run _ _ _ _ _ (on_platform_run _ s1 _ _ Hp)). eexists. split; [reflexivity|]. by apply shows_platform.
  - destruct Hput as [e He]. exists e. unfold mbind, tx_bind. by rewrite He.
Qed.

(** ** The refinement *)

Inductive vault_op :=
  | OpSet (app : string) (service : option string) (vars : list (string * string)) (actor : string) (d : draws) (now : Z)
  | OpUnset (app : string) (service : option string) (name actor : string) (now : Z).

Definition run_op (env : option string) (op : vault_op) : tx vault bool :=
  match op with
  | OpSet app service vars actor d now =>
      setSecrets aes_encrypt aes_decrypt sha256 env app service vars actor d now ≫= λ _, mret true
  | OpUnset app service name actor now => unsetSecret app service name actor now
  end.

(** The abstract operations on contents: when they are refused, what they do and answer. *)
Definition spec_admits (op : vault_op) : bool :=
  match op with
  | OpSet app service vars _ _ _ => admits (SecretScope app service) vars
  | OpUnset app service _ _ _ => admits_scope (SecretScope app service)
  end.
Definition spec_op (M : contents) (op : vault_op) : contents :=
  if spec_admits op then
    match op with
    | OpSet app service vars _ _ _ => put_all M (SecretScope app service) vars
    | OpUnset app service name _ _ => remove M (SecretScope app service) name
    end
  else M.
Definition spec_answer (M : contents) (op : vault_op) : bool :=
  match op with
  | OpSet _ _ _ _ _ _ => true
  | OpUnset app service name _ _ => is_some (M (SecretScope app service) !! name)
  end.

(** Draws are bytes, and the actor is a user. *)
Definition fair_op (op : vault_op) : Prop :=
  match op with
  | OpSet _ _ _ actor d _ => fair d ∧ actor ≠ ""
  | OpUnset _ _ _ actor _ => actor ≠ ""
  end.

Lemma run_op_refines env master s M op : readMasterKey sha256 env = inr master → shows master s M → fair_op op →
  if spec_admits op then ∃ s', run_op env op s = Done (spec_answer M op, s') ∧ shows master s' (spec_op M op)
  else fails (run_op env op) s.
Proof.
  intros Henv Hs Hop. unfold spec_op. destruct op as [app service vars actor d now|app service name actor now]; cbn [run_op spec_admits spec_answer].
  - destruct Hop as [Hd Ha]. pose proof (setSecrets_run env master s M app service vars actor d now Henv Hs Hd Ha) as H. cbv zeta in H.
    destruct (admits _ vars).
    + destruct H as (s' & H & Hs'). exists s'. by rewrite (bind_run _ _ _ _ _ H).
    + destruct H as [e He]. exists e. unfold mbind, tx_bind. by rewrite He.
  - pose proof (unsetSecret_run master s M app service name actor now Hs Hop) as H. cbv zeta in H. by destruct (admits_scope _).
Qed.

Lemma shows_empty master : Forall is_byte (mk_key master) → shows master (Vault infra_empty t_empty t_empty t_empty) (λ _, ∅).
Proof. intros Hm. by split; try done; intros []. Qed.

Lemma shows_run env master s M ops : readMasterKey sha256 env = inr master → shows master s M → Forall fair_op ops →
  shows master (foldl (λ s op, commit (run_op env op) s) s ops) (foldl spec_op M ops).
Proof.
  intros Henv Hs Hops. revert s M Hs. induction Hops as [|op ops Hop _ IH]; intros s M Hs; [done|]. cbn [foldl]. apply IH.
  pose proof (run_op_refines env master s M op Henv Hs Hop) as H. unfold commit, spec_op in *. destruct (spec_admits op).
  - by destruct H as (s1 & -> & Hs1).
  - by destruct H as [e ->].
Qed.

(** C18: the encrypted tables implement a map.  Starting from tables that show some contents, after
    any sequence of writes and deletions, of which a refused one changes nothing, reading a scope
    decrypts exactly what the same operations on a map of scopes, names and values give; and the next
    operation is refused exactly when a name or scope of it is invalid, and answers what the map
    says. *)
Theorem vault_refines_map env master s M ops (s' := foldl (λ s op, commit (run_op env op) s) s ops) (M' := foldl spec_op M ops) :
  readMasterKey sha256 env = inr master → shows master s M → Forall fair_op ops →
  (∀ scope, readSecrets master scope s' = Done (M' scope, s')) ∧
  (∀ op, fair_op op → match run_op env op s' with
                      | Done (answer, _) => spec_admits op = true ∧ answer = spec_answer M' op
                      | Failed _ => spec_admits op = false
                      end).
Proof.
  intros Henv Hs Hops. pose proof (shows_run env master s M ops Henv Hs Hops : shows master s' M') as Hs'.
  split; [intros scope; by apply readSecrets_run|]. intros op Hop.
  pose proof (run_op_refines env master s' M' op Henv Hs' Hop) as H. destruct (spec_admits op).
  - by destruct H as (s1 & -> & _).
  - by destruct H as [e ->].
Qed.

(** ** Moved rows *)

Definition secret_text (r : app_secret) : sealed_text := SealedText (se_ciphertext r) (se_iv r).
Definition key_text (k : app_data_key) : sealed_text := SealedText (dk_wrappedKey k) (dk_iv k).

(** A row whose sealed text was replaced in the database. *)
Definition with_secret_text (i : Id) (r : app_secret) (t : sealed_text) (s : vault) : vault :=
  upd appSecrets (t_set i (r <| se_ciphertext := sl_ciphertext t |> <| se_iv := sl_iv t |>)) s.
Definition with_key_text (i : Id) (k : app_data_key) (t : sealed_text) (s : vault) : vault :=
  upd appDataKeys (t_set i (AppDataKey (dk_app k) (dk_service k) (sl_ciphertext t) (sl_iv t) (dk_masterKeyId k) (dk_createdAt k))) s.

(** The loop of [readSecrets] opens every row it visits. *)
Lemma read_values_opens raw scope acc l s m s' i r :
  fold_tx (read_value aes_decrypt decodeUtf8 raw scope) acc l s = Done (m, s') → (i, r) ∈ l →
  ∃ text, open_sealed raw (SealedText (se_ciphertext r) (se_iv r)) (valueAad scope (se_name r)) s = Done (text, s).
Proof.
  revert acc s. induction l as [|[j q] l IH]; intros acc s H Hin; [by apply elem_of_nil in Hin|]. cbn [fold_tx] in H.
  tx_bind_in H acc1 s1 H1. unfold read_value in H1. tx_bind_in H1 v s2 H2. unfold decryptValue in H2. tx_bind_in H2 text s3 H3.
  assert (s3 = s) as ->. { unfold Vault.open_sealed in H3. repeat case_match; try done. by injection H3. }
  assert (s1 = s) as ->. { injection H2 as _ <-. by injection H1. }
  apply elem_of_cons in Hin as [[= -> ->]|Hin]; [by exists text|by eapply IH].
Qed.

Lemma seals_open {S} master s M r key aad text (s1 s2 : S) : seals master s M r →
  open_sealed key (secret_text r) aad s1 = Done (text, s2) → aad = valueAad (scope_of r) (se_name r).
Proof.
  intros (raw & iv & v & [Hraw _] & Hiv & _ & Hseal). unfold secret_text. rewrite Hseal.
  apply open_bound; [apply Hraw|done..].
Qed.

Lemma key_opens {S} master s M i k key aad text (s1 s2 : S) : shows master s M → rows (appDataKeys s) !! i = Some k →
  open_sealed key (key_text k) aad s1 = Done (text, s2) → aad = dataKeyAad (key_scope k).
Proof.
  intros Hs Hi. destruct (sh_keys _ _ _ Hs i k Hi) as (raw & [_ Hraw] & j & k' & iv & Hj & Hk & _ & Hiv & Hseal).
  assert (i = j) as <- by by eapply sh_one_key. simplify_eq. unfold key_text. rewrite Hseal. apply open_bound; [apply Hs|done..].
Qed.

Lemma readSecrets_opens master scope s m s' i r : t_wf (appSecrets s) →
  readSecrets master scope s = Done (m, s') → rows (appSecrets s) !! i = Some r → scope_of r = scope →
  (∃ key text, open_sealed key (secret_text r) (valueAad scope (se_name r)) s = Done (text, s)) ∧
  (∃ j k text, rows (appDataKeys s) !! j = Some k ∧ key_scope k = scope ∧ open_sealed (mk_key master) (key_text k) (dataKeyAad scope) s = Done (text, s)).
Proof.
  intros Hwf H Hi Hsc. unfold Vault.readSecrets in H. tx_bind_in H found s1 H1. injection H1 as <- <-.
  assert ((i, r) ∈ secretRows scope s) as Hin by by apply secretRows_spec.
  destruct (secretRows scope s) as [|q l] eqn:E; [by apply elem_of_nil in Hin|]. tx_bind_in H row s1 H1.
  unfold dataKeyRow in H1. apply db_unique_done in H1 as [-> Hrow]. destruct row as [[j k]|]; [|done].
  tx_bind_in H raw s1 H1. cbn [snd] in H1. unfold Vault.unwrapDataKey in H1. case_match; [done|]. tx_bind_in H1 text s2 H2.
  assert (s2 = s) as ->. { unfold Vault.open_sealed in H2. repeat case_match; try done. by injection H2. }
  assert (s1 = s) as ->. { unfold importKey in H1. case_match; [|done]. by injection H1. }
  destruct (read_values_opens _ _ _ _ _ _ _ i r H Hin) as [text' Ht]. split; [by exists raw, text'|].
  assert ((j, k) ∈ t_where (λ k, (dk_app k === sc_app scope) && (dk_service k === sc_service scope)) (appDataKeys s))
    as [Hj Hk%scope_test]%t_where_sound by (rewrite Hrow; left).
  exists j, k, text. done.
Qed.

(** C19: a sealed text opens only where it was sealed.  Put the text of any other row of the database,
    a secret's or a wrapped data key's, into the row of a secret, and reading that secret's scope
    fails; put it into the row of a data key, and reading any scope with secrets under that key
    fails.  Neither yields a value of another scope or name. *)
Theorem moved_text_does_not_open master s M : shows master s M →
  (∀ i r t, rows (appSecrets s) !! i = Some r →
     (∃ j r', j ≠ i ∧ rows (appSecrets s) !! j = Some r' ∧ t = secret_text r') ∨ (∃ j k, rows (appDataKeys s) !! j = Some k ∧ t = key_text k) →
     fails (readSecrets master (scope_of r)) (with_secret_text i r t s)) ∧
  (∀ i k t, rows (appDataKeys s) !! i = Some k → M (key_scope k) ≠ ∅ →
     (∃ j k', j ≠ i ∧ rows (appDataKeys s) !! j = Some k' ∧ t = key_text k') ∨ (∃ j r, rows (appSecrets s) !! j = Some r ∧ t = secret_text r) →
     fails (readSecrets master (key_scope k)) (with_key_text i k t s)).
Proof.
  intros Hs. split.
  - intros i r t Hi Ht. apply not_done_fails. intros m s' H.
    eapply (readSecrets_opens _ _ _ _ _ i (r <| se_ciphertext := sl_ciphertext t |> <| se_iv := sl_iv t |>)) in H as [(key & text & Ho) _];
      [|eapply t_wf_set; [done|apply Hs]|apply lookup_insert_eq|done].
    change (secret_text _) with (SealedText (sl_ciphertext t) (sl_iv t)) in Ho.
    destruct Ht as [(j & r' & Hne & Hj & ->)|(j & k & Hj & ->)].
    + apply (seals_open master s M r') in Ho as [E1 E2]%valueAad_inj; [|by eapply sh_rows]. by apply Hne, (sh_one_row _ _ _ Hs j i r' r).
    + apply (key_opens master s M j k) in Ho; [|done..]. by apply aads_apart in Ho.
  - intros i k t Hi HM Ht. apply not_done_fails. intros m s' H.
    apply map_choose in HM as (name & v & (j & r & Hj & Hsc & _)%(sh_complete _ _ _ Hs)).
    eapply (readSecrets_opens _ _ _ _ _ j r) in H as [_ (x & k1 & text & Hx & Hk1 & Ho)]; [|apply Hs|done|done].
    assert (key_text k1 = t) as Hk.
    { cbn in Hx. apply lookup_insert_Some in Hx as [[<- <-]|[Hne Hx]]; [by destruct t|]. by destruct Hne; eapply (sh_one_key _ _ _ Hs). }
    rewrite Hk in Ho. destruct Ht as [(y & k' & Hne & Hy & ->)|(y & r' & Hy & ->)].
    + apply (key_opens master s M y k') in Ho as E%dataKeyAad_inj; [|done..]. by apply Hne, (sh_one_key _ _ _ Hs y i k' k).
    + apply (seals_open master s M r') in Ho; [|by eapply sh_rows]. symmetry in Ho. by apply aads_apart in Ho.
Qed.

(** ** Plaintext for Nodes *)

(** A service of the placement a deployment deploys: its plan's, else the stored App's. *)
Definition places (s : vault) (d : app_deployment) (nodeId : Id) (service : string) : Prop :=
  ∃ primary services sv, sv ∈ services ∧ sv_name sv = service ∧ or_else primary (sv_nodeId sv) = nodeId ∧
    match dp_plan d with
    | Some plan => primary = pn_nodeId plan ∧ services = pn_services plan
    | None => ∃ i a, rows (apps (platform s)) !! i = Some a ∧ ap_name a = dp_app d ∧ primary = ap_nodeId a ∧ services = ap_services a
    end.

(** The deployment still runs and holds the lease of its App. *)
Definition live_deployment (s : vault) (d : app_deployment) (now : Z) : Prop :=
  isTerminalStage (dp_stage d) = false ∧
  ∃ epoch i l, dp_leaseEpoch d = Some epoch ∧ rows (appLeases (platform s)) !! i = Some l ∧ al_app l = dp_app d ∧
    leaseAdmits (Some (lease_of l)) epoch now = true.

Lemma on_platform_read {A} (m : tx infra A) s a s' :
  (∀ p p', m p = Done (a, p') → p' = p) → on_platform m s = Done (a, s') → s' = s ∧ m (platform s) = Done (a, platform s).
Proof.
  intros Hm. unfold on_platform. destruct (m (platform s)) as [[a' p]|] eqn:E; [|done]. intros [= -> <-].
  apply Hm in E as E'. subst p. split; [by destruct s|done].
Qed.

Lemma on_unique {D} (tbl : infra → table D) P s r s' :
  on_platform (db_unique tbl P) s = Done (r, s') →
  s' = s ∧ match r with Some (i, d) => rows (tbl (platform s)) !! i = Some d ∧ P d = true | None => t_where P (tbl (platform s)) = [] end.
Proof.
  intros H. apply on_platform_read in H as [-> H]; [|by intros p p' [-> _]%db_unique_done]. split; [done|].
  apply db_unique_done in H as [_ H]. destruct r as [[i d]|]; [|done].
  apply (t_where_sound (tbl (platform s)) P (i, d)). rewrite H. left.
Qed.

Lemma placement_of_done s d app s' : placement_of d s = Done (app, s') → s' = s ∧
  ∀ nodeId service, (∃ sv, sv ∈ placed_on nodeId app ∧ sv_name sv = service) → places s d nodeId service.
Proof.
  unfold placement_of, places. destruct (dp_plan d) as [plan|].
  - intros [= <- <-]. split; [done|]. intros nodeId service (sv & [Hp Hin]%list_elem_of_filter & Hn).
    by exists (pn_nodeId plan), (pn_services plan), sv.
  - intros H. tx_bind_in H a s1 H1. apply on_unique in H1 as [-> Ha]. injection H as <- <-. split; [done|].
    intros nodeId service (sv & Hin & Hn). destruct a as [[i a]|]; cbn in Hin; [|by apply elem_of_nil in Hin].
    apply list_elem_of_filter in Hin as [Hp Hin]. destruct Ha as [Hi Ha%bool_decide_eq_true].
    exists (ap_nodeId a), (ap_services a), sv. split_and!; [done..|]. by exists i, a.
Qed.

(** The services' values, each read from its own scope. *)
Lemma service_values_run master s M app services acc : shows master s M →
  ∃ per, fold_tx (λ (per : gmap string (gmap string string)) sv,
      values ← readSecrets master (SecretScope app (Some (sv_name sv))); mret (<[sv_name sv := values]> per)) acc services s = Done (per, s) ∧
    ∀ name, per !! name = if bool_decide (name ∈ sv_name <$> services) then Some (M (SecretScope app (Some name))) else acc !! name.
Proof.
  intros Hs. revert acc. induction services as [|sv services IH]; intros acc; [by exists acc|].
  destruct (IH (<[sv_name sv := M (SecretScope app (Some (sv_name sv)))]> acc)) as (per & Hper & Hlk). exists per. split.
  - cbn [fold_tx]. erewrite bind_run; [done|]. by rewrite (bind_run _ _ _ _ _ (readSecrets_run master s M _ Hs)).
  - intros name. rewrite Hlk. cbn [fmap list_fmap]. destruct (decide (name ∈ sv_name <$> services)) as [Hin|Hin].
    + rewrite !bool_decide_eq_true_2; [done|by right|done].
    + rewrite (bool_decide_eq_false_2 (name ∈ sv_name <$> services)) by done. destruct (decide (name = sv_name sv)) as [->|Hne].
      * rewrite lookup_insert_eq, bool_decide_eq_true_2 by left. done.
      * rewrite lookup_insert_ne, bool_decide_eq_false_2; [done|by rewrite not_elem_of_cons|done].
Qed.

(** C20: plaintext reaches only a Node that has to start a live deployment.  When a Node is answered,
    nothing was written, the deployment targets that Node, has not finished and holds its App's
    lease; the answer is the App-wide values and, for services of the deployed placement on that
    Node only, the values of each such service under its own name. *)
Theorem secrets_reach_their_node env master s M nodeId deploymentId now appWide perService s' :
  readMasterKey sha256 env = inr master → shows master s M →
  secretsForNodeDeploy aes_decrypt sha256 decodeUtf8 env nodeId deploymentId now s = Done ((appWide, perService), s') →
  s' = s ∧ ∃ d, rows (appDeployments (platform s)) !! deploymentId = Some d ∧ nodeId ∈ dp_targetNodeIds d ∧ live_deployment s d now ∧
    appWide = M (SecretScope (dp_app d) None) ∧
    ∀ service values, perService !! service = Some values →
      places s d nodeId service ∧ values = M (SecretScope (dp_app d) (Some service)).
Proof.
  intros Henv Hs H. unfold secretsForNodeDeploy in H. tx_bind_in H dep s1 H1.
  apply on_platform_read in H1 as [-> H1]; [|by intros p p' [= _ <-]]. injection H1 as H1. destruct dep as [d|]; [|done].
  case_bool_decide as Ht; [|done]. cbn [negb] in H. destruct (isTerminalStage (dp_stage d)) eqn:Hst; [done|].
  tx_bind_in H lease s1 Hl. apply on_unique in Hl as [-> Hl]. destruct (dp_leaseEpoch d) as [epoch|] eqn:He; [|done].
  destruct (leaseAdmits _ epoch now) eqn:Hadm; [|done]. cbn [negb] in H. tx_bind_in H home s1 Hp. apply placement_of_done in Hp as [-> Hp].
  destruct (is_some home && _); [done|]. tx_bind_in H m s1 Hm. unfold requireMasterKey in Hm. rewrite Henv in Hm. injection Hm as <- <-.
  rewrite (bind_run _ _ _ _ _ (readSecrets_run master s M _ Hs)) in H.
  destruct (service_values_run master s M (dp_app d) (placed_on nodeId home) ∅ Hs) as (per & Hper & Hlk).
  rewrite (bind_run _ _ _ _ _ Hper) in H. injection H as <- <- <-. split; [done|]. exists d. split_and!; try done.
  - split; [done|]. destruct lease as [[i l]|]; [|done]. destruct Hl as [Hi Hal%bool_decide_eq_true]. by exists epoch, i, l.
  - intros service values Hv. rewrite Hlk in Hv. case_bool_decide as Hin; [|by rewrite lookup_empty in Hv]. injection Hv as <-.
    split; [|done]. apply Hp. apply list_elem_of_fmap in Hin as (sv & -> & Hin). eauto.
Qed.
End vault.

(** ** A concrete cipher *)

(** The contract can be met: a text framed by its key, nonce and associated data. *)
Fixpoint frame (l : list Z) : list Z := match l with [] => [0] | b :: l => 1 :: b :: frame l end.
Definition framed (key iv aad : list Z) : list Z := frame key ++ frame iv ++ frame aad.
Definition toy_encrypt (key iv aad text : list Z) : list Z := framed key iv aad ++ text.
Definition toy_decrypt (key iv aad text : list Z) : option (list Z) :=
  let n := length (framed key iv aad) in
  if bool_decide (take n text = framed key iv aad) then Some (drop n text) else None.

Lemma frame_inj a b x y : frame a ++ x = frame b ++ y → a = b ∧ x = y.
Proof.
  revert b. induction a as [|u a IH]; intros [|v b]; cbn; intros H; simplify_eq; [done|].
  destruct (IH b) as [-> ->]; done.
Qed.

Lemma frame_bytes l : Forall is_byte l → Forall is_byte (frame l).
Proof. unfold is_byte. induction 1; cbn; repeat constructor; try lia; done. Qed.

#[export] Instance toy_cipher : AuthenticatedEncryption toy_encrypt toy_decrypt.
Proof.
  split.
  - intros key iv aad text. unfold toy_decrypt, toy_encrypt. by rewrite take_app_length, bool_decide_eq_true_2, drop_app_length.
  - intros key key' iv iv' aad aad' text text'. unfold toy_decrypt, toy_encrypt. case_bool_decide as H; [|done]. intros _.
    pose proof (take_drop (length (framed key' iv' aad')) (framed key iv aad ++ text)) as E. rewrite H in E. unfold framed in E.
    rewrite <- !app_assoc in E. apply frame_inj in E as [-> E]. apply frame_inj in E as [-> E]. by apply frame_inj in E as [-> _].
  - intros key iv aad text Hk Hi Ha Ht. unfold toy_encrypt, framed. repeat apply Forall_app_2; try done; by apply frame_bytes.
Qed.

(** UTF-8 of code points below 256. *)
Fixpoint latin1_chars (l : list Z) : list ascii :=
  match l with
  | [] => []
  | b :: l =>
      if b <? 128 then ascii_of_nat (Z.to_nat b) :: latin1_chars l
      else match l with c :: l => ascii_of_nat (Z.to_nat ((b - 192) * 64 + (c - 128))) :: latin1_chars l | [] => [] end
  end.
Definition toy_decode (l : list Z) : string := String.string_of_list_ascii (latin1_chars l).

Lemma toy_decode_encode text : toy_decode (utf8_bytes text) = text.
Proof.
  unfold toy_decode, utf8_bytes. rewrite <- (String.string_of_list_ascii_of_string text) at 2. f_equal.
  induction (String.list_ascii_of_string text) as [|c l IH]; [done|]. cbn [mbind list_bind].
  assert (0 ≤ ch c < 256 ∧ ascii_of_nat (Z.to_nat (ch c)) = c) as [Hc Hcc].
  { unfold ch. pose proof (nat_ascii_bounded c). rewrite Nat2Z.id, ascii_nat_embedding. split; [lia|done]. }
  destruct (Z.ltb_spec (ch c) 128) as [Hlt|Hge]; cbn [app latin1_chars].
  - rewrite (proj2 (Z.ltb_lt _ _)) by done. by rewrite Hcc, IH.
  - rewrite (proj2 (Z.ltb_ge _ _)) by (Z.to_euclidean_division_equations; lia).
    replace ((192 + ch c / 64 - 192) * 64 + (128 + ch c mod 64 - 128)) with (ch c) by (Z.to_euclidean_division_equations; lia).
    by rewrite Hcc, IH.
Qed.

(** ** Witnesses *)

Definition wit_env : option string := Some (str_join "" (replicate 64 "a")).
Definition wit_sha (_ : list Z) : list Z := [].
Definition wit_master : master_key := MasterKey (replicate 32 170) "".
Definition wit_draws : draws := Draws (replicate 32 7) [1; 2; 3] (λ _, [9]).
Definition wit_ops : list vault_op :=
  [OpSet "web" None [("TOKEN", "x"); ("URL", "u")] "1" wit_draws 10; OpSet "web" (Some "api") [("TOKEN", "y")] "1" wit_draws 20;
   OpUnset "web" None "URL" "1" 30; OpSet "web" None [("bad name", "z")] "1" wit_draws 40].
Definition wit_empty : vault := Vault infra_empty t_empty t_empty t_empty.
Definition wit_vault : vault := foldl (λ s op, commit (run_op toy_encrypt toy_decrypt wit_sha wit_env op) s) wit_empty wit_ops.
Definition wit_contents : contents := foldl spec_op (λ _, ∅) wit_ops.

Lemma wit_fair : Forall fair_op wit_ops.
Proof.
  assert (fair wit_draws) as Hd.
  { split; [split; [by right; right; left|]|split; [|intros name]]; repeat constructor; vm_compute; congruence. }
  by repeat constructor.
Qed.

Lemma wit_shows_empty : shows toy_encrypt wit_master wit_empty (λ _, ∅).
Proof. apply shows_empty. repeat constructor; vm_compute; congruence. Qed.

Lemma wit_shows : shows toy_encrypt wit_master wit_vault wit_contents.
Proof. eapply (shows_run toy_encrypt toy_decrypt wit_sha); [by vm_compute|apply wit_shows_empty|apply wit_fair]. Qed.

Lemma vault_refines_map_witness :
  readMasterKey wit_sha wit_env = inr wit_master ∧
  readSecrets toy_decrypt toy_decode wit_master (SecretScope "web" None) wit_vault = Done ({["TOKEN" := "x"]}, wit_vault) ∧
  readSecrets toy_decrypt toy_decode wit_master (SecretScope "web" (Some "api")) wit_vault = Done ({["TOKEN" := "y"]}, wit_vault).
Proof.
  assert (readMasterKey wit_sha wit_env = inr wit_master) as He by by vm_compute. split; [done|].
  destruct (vault_refines_map toy_encrypt toy_decrypt wit_sha toy_decode toy_decode_encode wit_env wit_master wit_empty (λ _, ∅) wit_ops
    He wit_shows_empty wit_fair) as [H _].
  split; [exact (H (SecretScope "web" None))|exact (H (SecretScope "web" (Some "api")))].
Defined.

Definition wit_row (i : Id) : app_secret := or_else (AppSecret "" None "" "" "" None 0) (rows (appSecrets wit_vault) !! i).
Definition wit_key (i : Id) : app_data_key := or_else (AppDataKey "" None "" "" "" 0) (rows (appDataKeys wit_vault) !! i).

Lemma wit_rows : rows (appSecrets wit_vault) !! 0%nat = Some (wit_row 0) ∧ rows (appSecrets wit_vault) !! 2%nat = Some (wit_row 2) ∧
  rows (appDataKeys wit_vault) !! 0%nat = Some (wit_key 0) ∧ rows (appDataKeys wit_vault) !! 1%nat = Some (wit_key 1).
Proof. split_and!; vm_compute; reflexivity. Qed.

Lemma moved_text_does_not_open_witness :
  scope_of (wit_row 0) = SecretScope "web" None ∧ scope_of (wit_row 2) = SecretScope "web" (Some "api") ∧
  fails (readSecrets toy_decrypt toy_decode wit_master (scope_of (wit_row 0))) (with_secret_text 0 (wit_row 0) (secret_text (wit_row 2)) wit_vault) ∧
  fails (readSecrets toy_decrypt toy_decode wit_master (key_scope (wit_key 0))) (with_key_text 0 (wit_key 0) (key_text (wit_key 1)) wit_vault).
Proof.
  split; [by vm_compute|]. split; [by vm_compute|].
  destruct (moved_text_does_not_open toy_encrypt toy_decrypt toy_decode toy_decode_encode wit_master wit_vault wit_contents wit_shows) as [M1 M2].
  destruct wit_rows as (R0 & R2 & K0 & K1). split.
  - apply (M1 _ _ _ R0). left. exists 2%nat, (wit_row 2). split; [discriminate|]. split; [exact R2|reflexivity].
  - apply (M2 _ _ _ K0); [vm_compute; discriminate|]. left. exists 1%nat, (wit_key 1). split; [discriminate|]. split; [exact K1|reflexivity].
Defined.

Definition wit_deployment : app_deployment :=
  AppDeployment "web" StDeploying "" [] None 5 None [3%nat] (Some 1) None None None None None None None None None None
    (Some (StoredPlan 3%nat [AppService "api" "" [] None None None None; AppService "db" "" [] None None (Some 4%nat) None] [] [] [3%nat; 4%nat] []))
    None None None.
Definition wit_live : vault := wit_vault <| platform := infra_empty <| appDeployments := t_of [wit_deployment] |>
  <| appLeases := t_of [AppLease "web" (Some "run") None 1 100 0] |> |>.

Lemma wit_live_shows : shows toy_encrypt wit_master wit_live wit_contents.
Proof. apply shows_platform; [apply wit_shows|]. by split. Qed.

Lemma secrets_reach_their_node_witness :
  secretsForNodeDeploy toy_decrypt wit_sha toy_decode wit_env 3%nat 0%nat 50 wit_live =
    Done (({["TOKEN" := "x"]}, {["api" := {["TOKEN" := "y"]}]}), wit_live) ∧
  live_deployment wit_live wit_deployment 50 ∧ places wit_live wit_deployment 3%nat "api" ∧
  fails (secretsForNodeDeploy toy_decrypt wit_sha toy_decode wit_env 3%nat 0%nat 100) wit_live.
Proof.
  assert (secretsForNodeDeploy toy_decrypt wit_sha toy_decode wit_env 3%nat 0%nat 50 wit_live =
    Done (({["TOKEN" := "x"]}, {["api" := {["TOKEN" := "y"]}]}), wit_live)) as H by by vm_compute.
  split; [exact H|].
  destruct (secrets_reach_their_node toy_encrypt toy_decrypt wit_sha toy_decode toy_decode_encode wit_env wit_master wit_live wit_contents
    3%nat 0%nat 50 _ _ _ ltac:(by vm_compute) wit_live_shows H) as [_ (d & Hd & _ & Hlive & _ & Hall)].
  assert (rows (appDeployments (platform wit_live)) !! 0%nat = Some wit_deployment) as Hw by by vm_compute.
  rewrite Hw in Hd. injection Hd as <-.
  split; [exact Hlive|]. split; [apply (Hall "api" {["TOKEN" := "y"]}); by vm_compute|]. eexists. by vm_compute.
Defined.
