(* ===== verification/Accounts.v ===== *)
(** Accounts of the dashboard: users and their roles (packages/backend/convex/infra/access.ts), the
    bootstrap of the first account and invitations (bootstrapPolicy.ts, bootstrap.ts), the sign-up
    callback of auth.ts, the operator's cleanup of admin.ts and API tokens (apiTokenPolicy.ts,
    apiTokens.ts).

    SHA-256 is a parameter; the bytes of new tokens are arguments, and so is the value of the
    environment's BOOTSTRAP_SECRET. *)

From S2P Require Import Prelude JsLib Schema AppPolicy InfraSchema InfraStore Nodes Ingress Vault.

(** ** The tables *)

(** [users]; [us_creationTime] is Convex's own field.  The optional profile fields of the sign-in
    library (image, phone and the like) are never written. *)
Record user_row := UserRow {
  us_email : option string;
  us_role : option permission_role;
  us_name : option string;
  us_createdAt : option Z;
  us_legacyHubId : option string;
  us_creationTime : Z;
}.
#[export] Instance user_row_rebuild : Rebuild user_row := λ u,
  UserRow (us_email u) (us_role u) (us_name u) (us_createdAt u) (us_legacyHubId u) (us_creationTime u).

(** What the sign-in library keeps of a user.  Of an account the importer also reads and writes the
    provider, its name for the account and the password's hash. *)
Record auth_account := AuthAccount {
  ac_userId : Id;
  ac_provider : string;
  ac_providerAccountId : string;
  ac_secret : option string;
}.
Record auth_session := AuthSession { as_userId : Id }.
Record refresh_token := RefreshToken { rf_sessionId : Id }.

Inductive grant_kind := GrantBootstrap | GrantInvite.
#[export] Instance grant_kind_eq_dec : EqDecision grant_kind.
Proof. solve_decision. Defined.

Record signup_grant := SignupGrant {
  sg_kind : grant_kind;
  sg_tokenHash : string;
  sg_createdAt : Z;
  sg_expiresAt : Z;
  sg_usedAt : option Z;
  sg_invitedBy : option Id;
  sg_role : option permission_role;
}.
#[export] Instance signup_grant_rebuild : Rebuild signup_grant := λ g,
  SignupGrant (sg_kind g) (sg_tokenHash g) (sg_createdAt g) (sg_expiresAt g) (sg_usedAt g) (sg_invitedBy g) (sg_role g).

Record throttle_row := ThrottleRow { th_failures : Z; th_lockedUntil : Z; th_updatedAt : Z }.

Record api_token := ApiToken {
  tk_name : string;
  tk_scope : token_scope;
  tk_tokenHash : string;
  tk_hint : string;
  tk_createdBy : option Id;
  tk_createdAt : Z;
  tk_lastUsedAt : option Z;
  tk_revokedAt : option Z;
}.
#[export] Instance api_token_rebuild : Rebuild api_token := λ t,
  ApiToken (tk_name t) (tk_scope t) (tk_tokenHash t) (tk_hint t) (tk_createdBy t) (tk_createdAt t) (tk_lastUsedAt t) (tk_revokedAt t).

(** The store: the accounts beside the App platform's tables, which they write audit rows and
    tombstones to. *)
Record accounts := Accounts {
  platform_store : vault;
  users : table user_row;
  authAccounts : table auth_account;
  authSessions : table auth_session;
  authRefreshTokens : table refresh_token;
  signupGrants : table signup_grant;
  bootstrapThrottle : table throttle_row;
  apiTokens : table api_token;
}.
#[export] Instance accounts_rebuild : Rebuild accounts := λ s,
  Accounts (platform_store s) (users s) (authAccounts s) (authSessions s) (authRefreshTokens s) (signupGrants s)
    (bootstrapThrottle s) (apiTokens s).

Definition on_store {A} (m : tx vault A) : tx accounts A := λ s,
  match m (platform_store s) with
  | Done (a, v) => Done (a, s <| platform_store := v |>)
  | Failed e => Failed e
  end.

(** ** infra/access.ts *)

(** The caller's identity: none, or a token whose subject is an id of [users] or is not.  The row of
    an id may be gone. *)
Abbreviation identity := (option (option Id)) (only parsing).

Definition currentUser (who : identity) : tx accounts (option (Id * user_row)) :=
  match who with
  | Some (Some userId) => row ← db_get users userId; mret (pair userId <$> row)
  | _ => mret None
  end.

(** [requirePermission]: the caller, its role and the actor of its audit rows. *)
Definition account_permission (who : identity) (p : permission) : tx accounts (Id * permission_role * string) :=
  user ← currentUser who;
  actor ← on_store (on_platform (requirePermission ((λ u : Id * user_row, (u.1, us_role u.2)) <$> user) p));
  mret (actor.1, effectiveRole (user ≫= λ u, us_role u.2), actor.2).

Definition normalizeEmail (email : string) : string := to_lower (trim email).

(** The position of the first character that satisfies [p], the length when none does. *)
Fixpoint index_of (p : ascii → bool) (l : list ascii) : nat :=
  match l with [] => 0 | c :: l => if p c then 0 else S (index_of p l) end.

(** [/^[^\s@]+@[^\s@]+\.[^\s@]+$/]: the text before the only [@] is not empty, and a dot of the text
    after it is neither its first nor its last character. *)
Definition email_shape (l : list ascii) : bool :=
  let at_sign c := Ascii.eqb c "@" in
  let '(local, rest) := (take (index_of at_sign l) l, drop (S (index_of at_sign l)) l) in
  forallb (λ c, negb (is_space c)) l && negb (Nat.eqb (length local) 0) && Nat.ltb (index_of at_sign l) (length l) &&
  negb (existsb at_sign rest) && existsb (λ c, Ascii.eqb c ".") (drop 1 (take (length rest - 1) rest)).

Definition emailRefusal (email : string) : option string :=
  if email_shape (String.list_ascii_of_string email) then None else Some "Not a valid email address".

Definition insertUser (email : string) (role : permission_role) (name : option string) (createdAt : option Z)
    (legacyHubId : option string) (now : Z) : tx accounts Id :=
  let email := normalizeEmail email in
  match emailRefusal email with
  | Some refusal => throw refusal
  | None =>
      existing ← db_first users (λ u, us_email u === Some email);
      match existing with
      | Some _ => throw "An account with this email already exists"
      | None =>
          first ← db_first users (λ _, true);
          db_insert users (UserRow (Some email) (Some (if is_some first then role else Owner)) name createdAt legacyHubId now)
      end
  end.

(** Two indexed reads of two rows each. *)
Definition anotherOwnerExists (target : Id) (s : accounts) : bool :=
  existsb (λ role, existsb (λ r : Id * user_row, r.1 !== target) (take 2 (t_where (λ u, us_role u === role) (users s))))
    [Some Owner; None].

Definition assertNotLastOwner (target : Id * user_row) (verb : string) : tx accounts unit :=
  another ← read (anotherOwnerExists target.1);
  if (effectiveRole (us_role target.2) === Owner) && negb another then throw ("Cannot " +:+ verb +:+ " the last owner account") else mret tt.

Definition listUsers (who : identity) : tx accounts (list (Id * option string * permission_role * Z)) :=
  account_permission who AccountAdmin ≫= λ _,
  all ← read (λ s, t_scan (users s));
  mret ((λ u : Id * user_row, (u.1, us_email u.2, effectiveRole (us_role u.2), or_else (us_creationTime u.2) (us_createdAt u.2))) <$> all).

Definition setUserRole (who : identity) (userId : Id) (role : permission_role) (now : Z) : tx accounts unit :=
  me ← account_permission who AccountAdmin;
  target ← db_get users userId;
  match target with
  | None => throw "No such user"
  | Some target =>
      let from := effectiveRole (us_role target) in
      if negb (mayAssignRole me.1.2 from role) then
        throw ("The " +:+ role_name me.1.2 +:+ " role cannot change " +:+ role_name from +:+ " to " +:+ role_name role)
      else
        (if (from === Owner) && (role !== Owner) then assertNotLastOwner (userId, target) "demote" else mret tt) ≫= λ _,
        db_patch users userId (λ u, u <| us_role := Some role |>) ≫= λ _,
        on_store (on_platform (appendAudit (entry me.2 "account.users.setRole" (id_text userId) AudSuccess
          (Some (json_object [("from", json_string (role_name from)); ("to", json_string (role_name role))]))) now)) ≫= λ _,
        mret tt
  end.

Definition deleteUserCredentials (userId : Id) : tx accounts unit :=
  found ← db_where authAccounts (λ a, ac_userId a === userId);
  for_each found (λ a, db_delete authAccounts a.1) ≫= λ _,
  sessions ← db_where authSessions (λ a, as_userId a === userId);
  for_each sessions (λ session,
    tokens ← db_where authRefreshTokens (λ t, rf_sessionId t === session.1);
    for_each tokens (λ t, db_delete authRefreshTokens t.1) ≫= λ _,
    db_delete authSessions session.1).

Definition bury_user (legacyHubId : option string) (now : Z) : tx accounts unit :=
  match legacyHubId with Some hubId => on_store (recordTombstone TombUser hubId now) | None => mret tt end.

Definition removeUser (who : identity) (userId : Id) (now : Z) : tx accounts unit :=
  me ← account_permission who AccountAdmin;
  if userId === me.1.1 then throw "Cannot remove yourself"
  else
    target ← db_get users userId;
    match target with
    | None => throw "No such user"
    | Some target =>
        let role := effectiveRole (us_role target) in
        if negb (mayAssignRole me.1.2 role role) then
          throw ("The " +:+ role_name me.1.2 +:+ " role cannot remove an " +:+ role_name role)
        else
          assertNotLastOwner (userId, target) "remove" ≫= λ _,
          deleteUserCredentials userId ≫= λ _,
          db_delete users userId ≫= λ _,
          bury_user (us_legacyHubId target) now ≫= λ _,
          on_store (on_platform (appendAudit (entry me.2 "account.users.remove" (id_text userId) AudSuccess None) now)) ≫= λ _,
          mret tt
    end.

(** ** admin.ts *)

Definition deleteUser (userId : Id) (now : Z) : tx accounts unit :=
  deleteUserCredentials userId ≫= λ _,
  user ← db_get users userId;
  db_delete users userId ≫= λ _,
  bury_user (user ≫= us_legacyHubId) now.

(** ** bootstrapPolicy.ts *)

Definition MIN_BOOTSTRAP_SECRET_LENGTH : nat := 32.
Definition GRANT_TTL_MS : Z := 10 * 60 * 1000.
Definition FAILURE_ALLOWANCE : Z := 5.
Definition BASE_LOCKOUT_MS : Z := 30 * 1000.
Definition MAX_LOCKOUT_MS : Z := 15 * 60 * 1000.

Definition readBootstrapSecret (env : option string) : string + string :=
  match trim <$> env with
  | None | Some "" => inl "BOOTSTRAP_SECRET is not set on this deployment, so no account can be created."
  | Some secret =>
      if Nat.ltb (String.length secret) MIN_BOOTSTRAP_SECRET_LENGTH then inl "BOOTSTRAP_SECRET must be at least 32 characters."
      else inr secret
  end.

(** The time left of a lockout, none when it is not locked. *)
Definition throttleState (row : option throttle_row) (now : Z) : option Z :=
  match row with
  | None => None
  | Some r => if th_lockedUntil r <=? now then None else Some (th_lockedUntil r - now)
  end.

(** [2 ** (over - 1)] is exact up to 2^1023 and infinite beyond; the cap hides both. *)
Definition nextThrottleAfterFailure (row : option throttle_row) (now : Z) : Z * Z :=
  let failures := match row with Some r => th_failures r | None => 0 end + 1 in
  let over := failures - FAILURE_ALLOWANCE in
  if over <=? 0 then (failures, 0)
  else (failures, now + Z.min (BASE_LOCKOUT_MS * 2 ^ (over - 1)) MAX_LOCKOUT_MS).

Definition constantTimeEqual (a b : list Z) : bool :=
  if negb (Nat.eqb (length a) (length b)) then false
  else foldl (λ difference p, Z.lor difference (Z.lxor p.1 p.2)) 0 (zip a b) =? 0.

Inductive grant_validity := GrantValid | GrantExpired | GrantUsed.
#[export] Instance grant_validity_eq_dec : EqDecision grant_validity.
Proof. solve_decision. Defined.

Definition grantValidity (grant : signup_grant) (now : Z) : grant_validity :=
  if is_some (sg_usedAt grant) then GrantUsed else if sg_expiresAt grant <=? now then GrantExpired else GrantValid.

(** ** bootstrap.ts *)

Definition SIGNUP_REFUSED : string := "Sign-up requires a valid invitation.".

(** [requireDashboardAuth] (dashboardAuth.ts): an identity without a row passes. *)
Definition dashboardIdentity (who : identity) : tx accounts unit :=
  match who with
  | None => throw "Authentication required"
  | Some _ =>
      user ← currentUser who;
      match user with
      | Some u =>
          if isDashboardAdmin (effectiveRole (us_role u.2)) then mret tt
          else throw ("The " +:+ role_name (effectiveRole (us_role u.2)) +:+ " role cannot use this")
      | None => mret tt
      end
  end.

(** [getAuthUserId] of the sign-in library gives the subject's id; a subject that is no id of
    [users] is refused by the table's validator when it is stored. *)
Definition authUserId (who : identity) : tx accounts (option Id) :=
  match who with
  | None => mret None
  | Some (Some userId) => mret (Some userId)
  | Some None => throw "Validator error: Expected ID for table users"
  end.

Inductive claim_result :=
  | ClaimGranted (grantToken : string) (expiresAt : Z)
  | ClaimRejected
  | ClaimLocked (retryAfterMs : Z)
  | ClaimUnavailable (detail : string)
  | ClaimBootstrapped.

Section tokens.
Context (sha256 : list Z → list Z).

Definition sha256Bytes (input : string) : list Z := sha256 (utf8_bytes input).
Definition sha256Hex (input : string) : string := bytesToHex (sha256Bytes input).

(** The random bytes as hex. *)
Definition newGrantToken (bytes : list Z) : string := bytesToHex bytes.

Definition issueGrant (kind : grant_kind) (invitedBy : option Id) (role : option permission_role) (bytes : list Z) (now : Z)
    : tx accounts (string * Z) :=
  let token := newGrantToken bytes in
  let expiresAt := now + GRANT_TTL_MS in
  db_insert signupGrants (SignupGrant kind (sha256Hex token) now expiresAt None invitedBy role) ≫= λ _,
  mret (token, expiresAt).

Definition bootstrap_claim (env : option string) (secret : string) (bytes : list Z) (now : Z) : tx accounts claim_result :=
  throttle ← db_first bootstrapThrottle (λ _, true);
  match throttleState (snd <$> throttle) now with
  | Some retryAfterMs => mret (ClaimLocked retryAfterMs)
  | None =>
      match readBootstrapSecret env with
      | inl reason => mret (ClaimUnavailable reason)
      | inr configured =>
          if negb (constantTimeEqual (sha256Bytes secret) (sha256Bytes configured)) then
            let next := nextThrottleAfterFailure (snd <$> throttle) now in
            match throttle with
            | None => db_insert bootstrapThrottle (ThrottleRow next.1 next.2 now) ≫= λ _, mret tt
            | Some row => db_patch bootstrapThrottle row.1 (λ _, ThrottleRow next.1 next.2 now)
            end ≫= λ _,
            mret ClaimRejected
          else
            match throttle with
            | Some row => db_patch bootstrapThrottle row.1 (λ _, ThrottleRow 0 0 now)
            | None => mret tt
            end ≫= λ _,
            anyUser ← db_first users (λ _, true);
            if is_some anyUser then mret ClaimBootstrapped
            else
              grant ← issueGrant GrantBootstrap None None bytes now;
              mret (ClaimGranted grant.1 grant.2)
      end
  end.

Definition invite (who : identity) (role : option permission_role) (bytes : list Z) (now : Z) : tx accounts (string * Z) :=
  dashboardIdentity who ≫= λ _,
  let role := or_else Admin role in
  inviter ← currentUser who;
  let inviterRole := effectiveRole (inviter ≫= λ u, us_role u.2) in
  if negb (mayAssignRole inviterRole role role) then
    throw ("The " +:+ role_name inviterRole +:+ " role cannot invite an " +:+ role_name role)
  else
    invitedBy ← authUserId who;
    issueGrant GrantInvite invitedBy (Some role) bytes now.

Definition consumeSignupGrant (presentedToken : option string) (now : Z) : tx accounts signup_grant :=
  match presentedToken with
  | None | Some "" => throw SIGNUP_REFUSED
  | Some token =>
      grant ← db_unique signupGrants (λ g, sg_tokenHash g === sha256Hex token);
      match grant with
      | None => throw SIGNUP_REFUSED
      | Some (grantId, grant) =>
          if grantValidity grant now !== GrantValid then throw SIGNUP_REFUSED
          else
            (if sg_kind grant === GrantBootstrap then
               anyUser ← db_first users (λ _, true);
               if is_some anyUser then throw SIGNUP_REFUSED else mret tt
             else mret tt) ≫= λ _,
            db_patch signupGrants grantId (λ g, g <| sg_usedAt := Some now |>) ≫= λ _,
            mret grant
      end
  end.

(** ** auth.ts: the callback [createOrUpdateUser] *)

Definition createOrUpdateUser (existingUserId : option Id) (email signupGrant : option string) (now : Z) : tx accounts Id :=
  match existingUserId with
  | Some userId => mret userId
  | None =>
      grant ← consumeSignupGrant signupGrant now;
      match email with
      | None | Some "" => throw SIGNUP_REFUSED
      | Some email =>
          insertUser email (or_else (if sg_kind grant === GrantBootstrap then Owner else Admin) (sg_role grant)) None None None now
      end
  end.

(** ** apiTokenPolicy.ts *)

Definition API_TOKEN_PREFIX : string := "erainfra_".
Definition API_TOKEN_HINT_LENGTH : nat := (String.length API_TOKEN_PREFIX + 8)%nat.
Definition LAST_USED_RESOLUTION_MS : Z := 5 * 60000.
Definition MAX_API_TOKEN_NAME_LENGTH : nat := 100.

Definition newApiToken (bytes : list Z) : string := API_TOKEN_PREFIX +:+ bytesToHex bytes.

Definition normalizeApiTokenName (name : string) : option string :=
  let trimmed := trim name in
  if Nat.eqb (String.length trimmed) 0 || Nat.ltb MAX_API_TOKEN_NAME_LENGTH (String.length trimmed) then None else Some trimmed.

Definition scopeAllows (granted needed : token_scope) : bool :=
  match needed with
  | ScopeMetrics => true
  | ScopeRead => (granted === ScopeRead) || (granted === ScopeAdmin)
  | ScopeAdmin => granted === ScopeAdmin
  end.

Definition shouldTouchLastUsed (lastUsedAt : option Z) (now : Z) : bool :=
  match lastUsedAt with None => true | Some at_ => LAST_USED_RESOLUTION_MS <=? now - at_ end.

(** [/^erainfra_[0-9a-f]{64}$/] *)
Definition isWellFormedApiToken (token : string) : bool :=
  starts_with API_TOKEN_PREFIX token &&
  (let rest := slice_from (String.length API_TOKEN_PREFIX) token in str_all is_hex rest && Nat.eqb (String.length rest) 64).

Fixpoint drop_blanks (l : list ascii) : list ascii :=
  match l with " "%char :: l => drop_blanks l | _ => l end.

(** [/^Bearer[ ]+(\S+)[ ]*$/i]: what is left between the blanks holds no white space. *)
Definition bearerToken (header : option string) : option string :=
  match header with
  | None => None
  | Some header =>
      let rest := String.list_ascii_of_string (slice_from 6 header) in
      let token := reverse (drop_blanks (reverse (drop_blanks rest))) in
      if String.eqb (to_lower (slice0 6 header)) "bearer" && starts_with " " (slice_from 6 header) &&
         negb (Nat.eqb (length token) 0) && forallb (λ c, negb (is_space c)) token
      then Some (String.string_of_list_ascii token) else None
  end.

(** ** apiTokens.ts *)

Definition TOKEN_LIST_LIMIT : nat := 200.

Definition token_create (who : identity) (name : string) (scope : token_scope) (bytes : list Z) (now : Z) : tx accounts (Id * string) :=
  dashboardIdentity who ≫= λ _,
  match normalizeApiTokenName name with
  | None => throw "Name the token in 1 to 100 characters"
  | Some name =>
      let token := newApiToken bytes in
      createdBy ← authUserId who;
      tokenId ← db_insert apiTokens (ApiToken name scope (sha256Hex token) (slice0 API_TOKEN_HINT_LENGTH token) createdBy now None None);
      mret (tokenId, token)
  end.

Definition token_list (who : identity) : tx accounts (list (Id * api_token * option string)) :=
  dashboardIdentity who ≫= λ _,
  tokens ← read (λ s, take TOKEN_LIST_LIMIT (reverse (t_scan (apiTokens s))));
  read (λ s, (λ t : Id * api_token, (t.1, t.2, tk_createdBy t.2 ≫= λ u, rows (users s) !! u ≫= us_email)) <$> tokens).

Definition token_revoke (who : identity) (tokenId : Id) (now : Z) : tx accounts unit :=
  dashboardIdentity who ≫= λ _,
  token ← db_get apiTokens tokenId;
  match token with
  | None => throw "Token not found"
  | Some token => if is_none (tk_revokedAt token) then db_patch apiTokens tokenId (λ t, t <| tk_revokedAt := Some now |>) else mret tt
  end.

Definition token_lookup (tokenHash : string) : tx accounts (option (Id * string * token_scope * option Z)) :=
  token ← db_unique apiTokens (λ t, tk_tokenHash t === tokenHash);
  mret (match token with
        | Some (i, t) => if is_some (tk_revokedAt t) then None else Some (i, tk_name t, tk_scope t, tk_lastUsedAt t)
        | None => None
        end).

Definition token_recordUse (tokenId : Id) (at_ : Z) : tx accounts unit :=
  token ← db_get apiTokens tokenId;
  match token with
  | None => mret tt
  | Some t => if is_some (tk_revokedAt t) then mret tt else db_patch apiTokens tokenId (λ t, t <| tk_lastUsedAt := Some at_ |>)
  end.

(** ** operatorHttp.ts *)

Record api_caller := ApiCaller { cl_tokenId : Id; cl_name : string; cl_scope : token_scope }.

Inductive auth_result := AuthOk (caller : api_caller) | AuthMissing | AuthInvalid | AuthForbidden.

(** The lookup is a query and the refresh of [lastUsedAt] a mutation of its own; here they run one
    after the other. *)
Definition authenticateBearer (header : option string) (needed : token_scope) (now : Z) : tx accounts auth_result :=
  match bearerToken header with
  | None => mret AuthMissing
  | Some token =>
      found ← (if isWellFormedApiToken token then token_lookup (sha256Hex token) else mret None);
      match found with
      | None => mret AuthInvalid
      | Some (tokenId, name, scope, lastUsedAt) =>
          if negb (scopeAllows scope needed) then mret AuthForbidden
          else
            (if shouldTouchLastUsed lastUsedAt now then token_recordUse tokenId now else mret tt) ≫= λ _,
            mret (AuthOk (ApiCaller tokenId name scope))
      end
  end.
End tokens.
