(* ===== verification/AccountProperties.v ===== *)
(** Properties of accounts: there is always an owner, a grant makes one account, wrong bootstrap
    secrets are slowed down, and what an identity whose account is gone may still do. *)

From S2P Require Import Prelude JsLib Schema HostLabels AppPolicy InfraSchema InfraStore Nodes Ingress Frames TestReportProperties Base64 Vault Accounts.

(** ** Frames *)

(** The tables of people and of what lets them sign up. *)
Definition same_people (s s' : accounts) : Prop :=
  users s' = users s ∧ signupGrants s' = signupGrants s ∧ bootstrapThrottle s' = bootstrapThrottle s.
#[export] Instance same_people_preorder : PreOrder same_people.
Proof. unfold same_people. split; [done|]. intros a b c (-> & -> & ->) (-> & -> & ->). done. Qed.

Lemma acts_on_store {A} (m : tx vault A) : acts same_people (on_store m).
Proof. intros s a s' H. unfold on_store in H. destruct (m _) as [[b v]|]; [|done]. by injection H as _ <-. Qed.
#[export] Hint Resolve acts_on_store : acts.

Lemma sp_currentUser who : acts same_people (currentUser who).
Proof. unfold currentUser. acts_walk ltac:(done). Qed.
#[export] Hint Resolve sp_currentUser : acts.

Lemma sp_account_permission who p : acts same_people (account_permission who p).
Proof. unfold account_permission. acts_walk ltac:(done). Qed.
Lemma sp_dashboardIdentity who : acts same_people (dashboardIdentity who).
Proof. unfold dashboardIdentity. acts_walk ltac:(done). Qed.
Lemma sp_authUserId who : acts same_people (authUserId who).
Proof. unfold authUserId. acts_walk ltac:(done). Qed.
Lemma sp_deleteUserCredentials userId : acts same_people (deleteUserCredentials userId).
Proof. unfold deleteUserCredentials. acts_walk ltac:(done). Qed.
Lemma sp_bury_user hubId now : acts same_people (bury_user hubId now).
Proof. unfold bury_user. acts_walk ltac:(done). Qed.
Lemma sp_assertNotLastOwner target verb : acts same_people (assertNotLastOwner target verb).
Proof. unfold assertNotLastOwner. acts_walk ltac:(done). Qed.
#[export] Hint Resolve sp_account_permission sp_dashboardIdentity sp_authUserId sp_deleteUserCredentials sp_bury_user
  sp_assertNotLastOwner : acts.

Lemma sp_token_create sha256 who name scope bytes now : acts same_people (token_create sha256 who name scope bytes now).
Proof. unfold token_create. acts_walk ltac:(done). Qed.
Lemma sp_token_revoke who i now : acts same_people (token_revoke who i now).
Proof. unfold token_revoke. acts_walk ltac:(done). Qed.
Lemma sp_token_recordUse i now : acts same_people (token_recordUse i now).
Proof. unfold token_recordUse. acts_walk ltac:(done). Qed.

(** ** There is always an owner *)

Definition is_owner (u : user_row) : Prop := effectiveRole (us_role u) = Owner.
Definition other_owner (s : accounts) (i : Id) : Prop := ∃ j u, rows (users s) !! j = Some u ∧ j ≠ i ∧ is_owner u.

Lemma owner_roles u : is_owner u ↔ us_role u ∈ [Some Owner; None].
Proof. unfold is_owner, effectiveRole. destruct (us_role u) as [[]|]; cbn; rewrite !elem_of_cons, elem_of_nil; naive_solver. Qed.

Lemma two_ids {D} (t : table D) P i : (∃ j d, rows t !! j = Some d ∧ P d = true ∧ j ≠ i) → t_wf t →
  ∃ r, r ∈ take 2 (t_where P t) ∧ r.1 ≠ i.
Proof.
  intros (j & d & Hj & HP & Hne) Hwf. assert ((j, d) ∈ t_where P t) as Hin by by apply elem_of_t_where.
  pose proof (NoDup_t_where_ids P t) as Hnd. destruct (t_where P t) as [|a [|b l]]; cbn [take].
  - by apply elem_of_nil in Hin.
  - apply list_elem_of_singleton in Hin as <-. exists (j, d). split; [left|done].
  - destruct (decide (a.1 = i)) as [<-|Ha]; [|exists a; split; [left|done]]. exists b. split; [right; left|].
    cbn in Hnd. apply NoDup_cons in Hnd as [Hni _]. intros E. apply Hni. rewrite <- E. left.
Qed.

(** Reading two rows of each kind of owner decides whether another one exists. *)
Lemma anotherOwnerExists_iff target s : t_wf (users s) → anotherOwnerExists target s = true ↔ other_owner s target.
Proof.
  intros Hwf. unfold anotherOwnerExists, other_owner. rewrite existsb_exists. split.
  - intros (role & Hrole & ([j u] & Hin & Hne)%existsb_exists). apply list_elem_of_In, elem_of_take in Hin as (k & Hk & _).
    apply list_elem_of_lookup_2, t_where_sound in Hk as [Hj Hr%bool_decide_eq_true].
    cbn [fst snd] in *. apply negb_true_iff, bool_decide_eq_false in Hne. exists j, u. split_and!; [done|done|]. apply owner_roles. rewrite Hr.
    by apply list_elem_of_In.
  - intros (j & u & Hj & Hne & Ho%owner_roles). exists (us_role u). split; [by apply list_elem_of_In|].
    destruct (two_ids (users s) (λ v, us_role v === us_role u) target) as (r & Hin & Hr); [|done|].
    + exists j, u. split_and!; [done| |done]. by apply bool_decide_eq_true.
    + apply existsb_exists. exists r. split; [by apply list_elem_of_In|]. by apply negb_true_iff, bool_decide_eq_false.
Qed.

(** What an operation does to the users. *)
Inductive users_step (s s' : accounts) : Prop :=
  | UsersSame : users s' = users s → users_step s s'
  | UserAdded u e : users s' = t_add u (users s) → us_email u = Some e → (∀ j v, rows (users s) !! j = Some v → us_email v ≠ Some e) →
      (rows (users s) = ∅ → is_owner u) → users_step s s'
  | RoleSet i u role : rows (users s) !! i = Some u → users s' = t_set i (u <| us_role := Some role |>) (users s) →
      role = Owner ∨ ¬ is_owner u ∨ other_owner s i → users_step s s'
  | UserRemoved i u : rows (users s) !! i = Some u → users s' = t_del i (users s) → ¬ is_owner u ∨ other_owner s i → users_step s s'.

Record people_ok (s : accounts) : Prop := {
  po_wf : t_wf (users s);
  po_owner : rows (users s) ≠ ∅ → ∃ i u, rows (users s) !! i = Some u ∧ is_owner u;
  po_email : ∀ i j u v e, rows (users s) !! i = Some u → rows (users s) !! j = Some v → us_email u = Some e → us_email v = Some e → i = j;
}.

Lemma keep_owner s i u : people_ok s → rows (users s) !! i = Some u → ¬ is_owner u ∨ other_owner s i → other_owner s i.
Proof.
  intros Hok Hi [Hno|Ho]; [|done]. destruct (po_owner s Hok) as (j & v & Hj & Hv); [by intros E; rewrite E in Hi|].
  exists j, v. split_and!; [done| |done]. intros ->. congruence.
Qed.

Lemma users_step_ok s s' : people_ok s → users_step s s' → people_ok s'.
Proof.
  intros Hok Hstep. pose proof Hok as [Hwf Hown Hem]. destruct Hstep as [E|u e E He Hne Hfirst|i u role Hi E Hr|i u Hi E Hr].
  - split; rewrite E; done.
  - split; rewrite E; cbn.
    + by apply t_wf_add.
    + intros _. destruct (decide (rows (users s) = ∅)) as [Hem0|Hn].
      * exists (next_id (users s)), u. rewrite lookup_insert_eq. auto.
      * destruct (Hown Hn) as (j & v & Hj & Hv). exists j, v. split; [|done]. rewrite lookup_insert_ne; [done|].
        intros <-. by rewrite t_wf_fresh in Hj.
    + intros i j a b x. rewrite !lookup_insert_Some. intros [[<- <-]|[_ Ha]] [[<- <-]|[_ Hb]] Ea Eb; [done|..|by eapply Hem].
      * destruct (Hne j b Hb). congruence.
      * destruct (Hne i a Ha). congruence.
  - split; rewrite E; cbn.
    + by eapply t_wf_set.
    + intros _. destruct Hr as [->|Hr].
      * exists i, (u <| us_role := Some Owner |>). by rewrite lookup_insert_eq.
      * destruct (keep_owner s i u Hok Hi Hr) as (j & v & Hj & Hji & Hv). exists j, v. by rewrite lookup_insert_ne.
    + intros j k a b x. rewrite !lookup_insert_Some. intros [[<- <-]|[_ Ha]] [[<- <-]|[_ Hb]] Ea Eb; [done|by eapply Hem..].
  - split; rewrite E; cbn.
    + by apply t_wf_del.
    + intros _. destruct (keep_owner s i u Hok Hi Hr) as (j & v & Hj & Hji & Hv). exists j, v. by rewrite lookup_delete_ne.
    + intros j k a b x. rewrite !lookup_delete_Some. intros [_ Ha] [_ Hb]. by eapply Hem.
Qed.

Lemma db_first_run {S D} (tbl : S → table D) P s : db_first tbl P s = Done (head (t_where P (tbl s)), s).
Proof. done. Qed.

Lemma first_none {S D} (tbl : S → table D) P s : t_wf (tbl s) → head (t_where P (tbl s)) = None →
  ∀ i d, rows (tbl s) !! i = Some d → P d = false.
Proof.
  intros Hwf H i d Hi. destruct (P d) eqn:HP; [|done]. assert ((i, d) ∈ t_where P (tbl s)) as Hin by by apply elem_of_t_where.
  destruct (t_where P (tbl s)); [by apply elem_of_nil in Hin|done].
Qed.

Lemma insertUser_step email role name createdAt hubId now s i s' : people_ok s →
  insertUser email role name createdAt hubId now s = Done (i, s') → users_step s s'.
Proof.
  intros Hok H. unfold insertUser in H. destruct (emailRefusal _) as [|]; [done|]. tx_bind_in H existing s1 H1. injection H1 as Hex <-.
  destruct existing as [|]; [done|]. tx_bind_in H anyone s1 H1. injection H1 as Hf <-. injection H as _ <-.
  eapply UserAdded; [done|done|..].
  - intros j v Hj Ev. eapply first_none in Hj; [|apply Hok|exact Hex]. by apply bool_decide_eq_false in Hj.
  - intros Em. assert (anyone = None) as ->; [|done]. rewrite <- Hf.
    by rewrite (t_where_nil (λ _, true)) by (intros j d Hj; by rewrite Em in Hj).
Qed.

Lemma same_users s s' : same_people s s' → users_step s s'.
Proof. intros [E _]. by apply UsersSame. Qed.

Lemma notLastOwner_done target verb s u s' : t_wf (users s) → assertNotLastOwner target verb s = Done (u, s') →
  s' = s ∧ (¬ is_owner target.2 ∨ other_owner s target.1).
Proof.
  intros Hwf H. unfold assertNotLastOwner in H. tx_bind_in H another s1 H1. injection H1 as Ha <-.
  destruct (_ === Owner) eqn:Eo; [apply bool_decide_eq_true in Eo|apply bool_decide_eq_false in Eo].
  - destruct another eqn:Ea; [|done]. injection H as _ <-. split; [done|]. right. by apply anotherOwnerExists_iff.
  - injection H as _ <-. by split; [|left].
Qed.

Lemma setUserRole_step who userId role now s u s' : people_ok s → setUserRole who userId role now s = Done (u, s') → users_step s s'.
Proof.
  intros Hok H. unfold setUserRole in H. tx_bind_in H me s1 H1. apply sp_account_permission in H1 as Hp.
  assert (people_ok s1) as Hok1 by (eapply users_step_ok; [done|by apply same_users]).
  tx_bind_in H target s2 H2. injection H2 as Ht <-. destruct target as [target|]; [|done]. case_match; [done|].
  tx_bind_in H x s2 H2. tx_bind_in H y s3 H3. tx_bind_in H z s4 H4. injection H as _ <-. apply acts_on_store in H4 as (E4 & _).
  assert (s2 = s1 ∧ (role = Owner ∨ ¬ is_owner target ∨ other_owner s1 userId)) as [-> Hr].
  { destruct (_ && _) eqn:Eb.
    - apply notLastOwner_done in H2 as [-> Hr]; [|apply Hok1]. auto.
    - injection H2 as _ <-. split; [done|]. apply andb_false_iff in Eb as [Eb|Eb].
      + right; left. by apply bool_decide_eq_false in Eb.
      + left. apply negb_false_iff, bool_decide_eq_true in Eb. done. }
  apply db_patch_done in H3 as (d & Hd & ->). destruct Hp as [Eu _]. rewrite Hd in Ht. injection Ht as <-.
  eapply (RoleSet _ _ userId d role).
  - by rewrite <- Eu.
  - rewrite E4. cbn. by rewrite Eu.
  - unfold other_owner in *. by rewrite Eu in Hr.
Qed.

Lemma removeUser_step who userId now s u s' : people_ok s → removeUser who userId now s = Done (u, s') → users_step s s'.
Proof.
  intros Hok H. unfold removeUser in H. tx_bind_in H me s1 H1. apply sp_account_permission in H1 as Hp.
  assert (people_ok s1) as Hok1 by (eapply users_step_ok; [done|by apply same_users]).
  case_match; [done|]. tx_bind_in H target s2 B2. injection B2 as Ht <-. destruct target as [target|]; [|done]. case_match; [done|].
  tx_bind_in H x s2 B2. apply notLastOwner_done in B2 as [-> Hr]; [|apply Hok1].
  tx_bind_in H y s2 B2. apply sp_deleteUserCredentials in B2 as (E2 & _). tx_bind_in H z s3 B3. apply db_delete_done in B3 as (d & Hd & ->).
  tx_bind_in H v s4 B4. apply sp_bury_user in B4 as (E4 & _). tx_bind_in H w s5 B5. apply acts_on_store in B5 as (E5 & _). injection H as _ <-.
  destruct Hp as [Eu _]. eapply (UserRemoved _ _ userId target).
  - by rewrite <- Eu.
  - rewrite E5, E4. cbn. by rewrite E2, Eu.
  - unfold other_owner in *. by rewrite Eu in Hr.
Qed.

Section operations.
Context (sha256 : list Z → list Z).

(** *** Grants *)

(** Grants are never removed or renewed: a used one stays used. *)
Definition grants_advance (s s' : accounts) : Prop :=
  (t_wf (signupGrants s) → t_wf (signupGrants s')) ∧
  ∀ i g, rows (signupGrants s) !! i = Some g → t_wf (signupGrants s) → ∃ g', rows (signupGrants s') !! i = Some g' ∧
    sg_tokenHash g' = sg_tokenHash g ∧ (is_Some (sg_usedAt g) → is_Some (sg_usedAt g')).
#[export] Instance grants_advance_preorder : PreOrder grants_advance.
Proof.
  split.
  - intros s. split; [done|]. eauto.
  - intros a b c [W1 H1] [W2 H2]. split; [auto|]. intros i g Hi Hw. destruct (H1 i g Hi Hw) as (g1 & Hi1 & E1 & U1).
    destruct (H2 i g1 Hi1 (W1 Hw)) as (g2 & Hi2 & E2 & U2). exists g2. split_and!; [done|congruence|auto].
Qed.

Lemma same_advances s s' : same_people s s' → grants_advance s s'.
Proof. intros (_ & E & _). unfold grants_advance. rewrite E. eauto. Qed.

Lemma ga_users f s : grants_advance s (upd users f s).
Proof. split; [done|]. eauto. Qed.
Lemma ga_throttle f s : grants_advance s (upd bootstrapThrottle f s).
Proof. split; [done|]. eauto. Qed.

Lemma ga_issue s g : grants_advance s (upd signupGrants (t_add g) s).
Proof.
  split; [by apply t_wf_add|]. intros i d Hi Hw. exists d. split; [|done]. cbn. rewrite lookup_insert_ne; [done|].
  intros <-. by rewrite t_wf_fresh in Hi.
Qed.

Lemma ga_use s i g now : rows (signupGrants s) !! i = Some g → grants_advance s (upd signupGrants (t_set i (g <| sg_usedAt := Some now |>)) s).
Proof.
  intros Hi. split; [by eapply t_wf_set|]. intros j d Hj _. cbn. destruct (decide (j = i)) as [->|Hne].
  - rewrite lookup_insert_eq. eexists. split; [done|]. by simplify_eq.
  - rewrite lookup_insert_ne by done. eauto.
Qed.

Lemma ga_frame {A} (m : tx accounts A) : acts same_people m → acts grants_advance m.
Proof. apply acts_mono, same_advances. Qed.

(** *** The operations *)

(** A caller's request; a throw leaves the store as it was. *)
Inductive account_op :=
  | OpClaim (env : option string) (secret : string) (bytes : list Z)
  | OpInvite (who : option (option Id)) (role : option permission_role) (bytes : list Z)
  | OpSignUp (existing : option Id) (email grant : option string)
  | OpSetRole (who : option (option Id)) (userId : Id) (role : permission_role)
  | OpRemoveUser (who : option (option Id)) (userId : Id)
  | OpToken (who : option (option Id)) (name : string) (scope : token_scope) (bytes : list Z)
  | OpRevoke (who : option (option Id)) (tokenId : Id)
  | OpUseToken (tokenId : Id).

Definition account_run (op : account_op) (now : Z) : tx accounts unit :=
  match op with
  | OpClaim env secret bytes => bootstrap_claim sha256 env secret bytes now ≫= λ _, mret tt
  | OpInvite who role bytes => invite sha256 who role bytes now ≫= λ _, mret tt
  | OpSignUp existing email grant => createOrUpdateUser sha256 existing email grant now ≫= λ _, mret tt
  | OpSetRole who userId role => setUserRole who userId role now
  | OpRemoveUser who userId => removeUser who userId now
  | OpToken who name scope bytes => token_create sha256 who name scope bytes now ≫= λ _, mret tt
  | OpRevoke who tokenId => token_revoke who tokenId now
  | OpUseToken tokenId => token_recordUse tokenId now
  end.

Definition account_trace (s : accounts) (ops : list (account_op * Z)) : accounts :=
  foldl (λ s o, commit (account_run o.1 o.2) s) s ops.

Ltac leaf := first [ by apply ga_users | by apply ga_throttle | by apply ga_issue | by apply ga_use | by apply same_advances ].

Lemma ga_consume token now : acts grants_advance (consumeSignupGrant sha256 token now).
Proof. unfold consumeSignupGrant. acts_walk ltac:(leaf). Qed.

Lemma ga_op op now : acts grants_advance (account_run op now).
Proof.
  destruct op; cbn [account_run].
  - unfold bootstrap_claim, issueGrant. acts_walk ltac:(leaf).
  - unfold invite, issueGrant. acts_walk ltac:(first [leaf | idtac]); by apply ga_frame; eauto with acts.
  - apply acts_bind; [typeclasses eauto| |intros; apply acts_ret; typeclasses eauto]. unfold createOrUpdateUser, insertUser.
    acts_walk ltac:(first [leaf | idtac]). apply ga_consume.
  - unfold setUserRole. acts_walk ltac:(first [leaf | idtac]); by apply ga_frame; eauto with acts.
  - unfold removeUser. acts_walk ltac:(first [leaf | idtac]); by apply ga_frame; eauto with acts.
  - apply acts_bind; [typeclasses eauto| |intros; apply acts_ret; typeclasses eauto]. apply ga_frame, sp_token_create.
  - apply ga_frame, sp_token_revoke.
  - apply ga_frame, sp_token_recordUse.
Qed.

(** Signing up leaves the users alone until the account is added. *)
Lemma consume_keeps_users token now s g s' : consumeSignupGrant sha256 token now s = Done (g, s') → users s' = users s.
Proof.
  set (R := λ s s' : accounts, users s' = users s).
  assert (PreOrder R) as HR by (split; [done|intros a b c E1 E2; unfold R in *; congruence]).
  apply (λ H, H : acts R (consumeSignupGrant sha256 token now)). unfold consumeSignupGrant. acts_walk ltac:(done).
Qed.

Lemma claim_keeps_users env secret bytes now s r s' : bootstrap_claim sha256 env secret bytes now s = Done (r, s') → users s' = users s.
Proof.
  set (R := λ s s' : accounts, users s' = users s).
  assert (PreOrder R) as HR by (split; [done|intros a b c E1 E2; unfold R in *; congruence]).
  apply (λ H, H : acts R (bootstrap_claim sha256 env secret bytes now)). unfold bootstrap_claim, issueGrant. acts_walk ltac:(done).
Qed.

Lemma people_ok_users s s' : users s' = users s → people_ok s → people_ok s'.
Proof. intros E Hok. eapply users_step_ok; [done|by apply UsersSame]. Qed.

Lemma createOrUpdateUser_ok existing email grant now s i s' : people_ok s →
  createOrUpdateUser sha256 existing email grant now s = Done (i, s') → people_ok s'.
Proof.
  intros Hok H. unfold createOrUpdateUser in H. destruct existing as [|]; [by injection H as _ <-|]. tx_bind_in H g s1 H1.
  apply consume_keeps_users in H1 as Eu. destruct email as [[|c email]|]; [done| |done].
  eapply users_step_ok; [|eapply insertUser_step; [|done]]; by eapply people_ok_users.
Qed.

Lemma account_run_ok op now s u s' : people_ok s → account_run op now s = Done (u, s') → people_ok s'.
Proof.
  intros Hok. destruct op; cbn [account_run]; intros H.
  - tx_bind_in H r s1 H1. apply claim_keeps_users in H1. injection H as _ <-. by eapply people_ok_users.
  - tx_bind_in H r s1 H1. injection H as _ <-. unfold invite in H1. tx_bind_in H1 x s2 B2. apply sp_dashboardIdentity in B2 as (E2 & _).
    tx_bind_in H1 inviter s3 B3. apply sp_currentUser in B3 as (E3 & _). case_match; [done|]. tx_bind_in H1 by_ s4 B4.
    apply sp_authUserId in B4 as (E4 & _). unfold issueGrant in H1. tx_bind_in H1 y s5 B5. injection B5 as _ <-. injection H1 as _ <-.
    eapply people_ok_users; [|done]. cbn. congruence.
  - tx_bind_in H r s1 H1. injection H as _ <-. by eapply createOrUpdateUser_ok.
  - eapply users_step_ok; [done|by eapply setUserRole_step].
  - eapply users_step_ok; [done|by eapply removeUser_step].
  - tx_bind_in H r s1 H1. apply sp_token_create in H1 as (E & _). injection H as _ <-. by eapply people_ok_users.
  - apply sp_token_revoke in H as (E & _). by eapply people_ok_users.
  - apply sp_token_recordUse in H as (E & _). by eapply people_ok_users.
Qed.

Lemma trace_people_ok s ops : people_ok s → people_ok (account_trace s ops).
Proof.
  revert s. induction ops as [|[op now] ops IH]; intros s Hok; [done|]. apply IH. cbn [fst snd].
  unfold commit. destruct (account_run op now s) as [[u s1]|] eqn:E; [by eapply account_run_ok|done].
Qed.

Lemma no_people_ok s : rows (users s) = ∅ → people_ok s.
Proof. intros He. split; [intros i d H; by rewrite He in H|done|intros i j u v e Hi; by rewrite He in Hi]. Qed.


(** *** One account per grant *)

Lemma trace_advances s ops : grants_advance s (account_trace s ops).
Proof.
  revert s. induction ops as [|[op now] ops IH]; intros s; [reflexivity|]. unfold account_trace. cbn [foldl fst snd].
  etrans; [|apply IH]. unfold commit. destruct (account_run op now s) as [[u s1]|] eqn:E; [by eapply ga_op|reflexivity].
Qed.

Lemma consume_done token now s g s' : t_wf (signupGrants s) → consumeSignupGrant sha256 (Some token) now s = Done (g, s') →
  ∃ i, rows (signupGrants s) !! i = Some g ∧ sg_tokenHash g = sha256Hex sha256 token ∧ sg_usedAt g = None ∧ now < sg_expiresAt g ∧
    (sg_kind g = GrantBootstrap → ∀ j u, rows (users s) !! j = Some u → ¬ t_wf (users s)) ∧
    (∀ k g', rows (signupGrants s) !! k = Some g' → sg_tokenHash g' = sha256Hex sha256 token → k = i) ∧
    s' = upd signupGrants (t_set i (g <| sg_usedAt := Some now |>)) s.
Proof.
  intros Hwf H. unfold consumeSignupGrant in H. destruct token as [|c token]; [done|]. tx_bind_in H row s1 H1.
  pose proof H1 as [_ Hone]%db_unique_done. apply unique_row in H1 as [-> Hrow]; [|done].
  destruct row as [[i grant]|]; [|done]. destruct Hrow as [Hi Hh%bool_decide_eq_true].
  assert (∀ k g', rows (signupGrants s) !! k = Some g' → sg_tokenHash g' = sha256Hex sha256 (String c token) → k = i) as Hk.
  { intros k g' Hk Hg. assert ((k, g') ∈ [(i, grant)]) as Hin.
    { rewrite <- Hone. apply elem_of_t_where; [done|]. split; [done|]. by apply bool_decide_eq_true. }
    apply list_elem_of_singleton in Hin. congruence. }
  destruct (grantValidity grant now !== GrantValid) eqn:Ev; [done|]. apply negb_false_iff, bool_decide_eq_true in Ev.
  unfold grantValidity in Ev. destruct (sg_usedAt grant) eqn:Eused; [done|]. cbn [is_some] in Ev. destruct (Z.leb_spec (sg_expiresAt grant) now); [done|].
  tx_bind_in H x s1 H1. tx_bind_in H y s2 H2. apply db_patch_done in H2 as (d & Hd & ->). injection H as <- <-.
  assert (s1 = s ∧ (sg_kind grant = GrantBootstrap → ∀ j u, rows (users s) !! j = Some u → ¬ t_wf (users s))) as [-> Hb].
  { destruct (sg_kind grant === GrantBootstrap) eqn:Ek; [apply bool_decide_eq_true in Ek|apply bool_decide_eq_false in Ek].
    - tx_bind_in H1 anyone s3 B3. injection B3 as Ha <-. destruct anyone as [|]; [done|]. injection H1 as _ <-. split; [done|].
      intros _ j u Hj Hw. by eapply (first_none users (λ _, true)) in Hj.
    - injection H1 as _ <-. by split. }
  assert (d = grant) as -> by congruence. exists i. split_and!; [done..|lia|done|done|done].
Qed.

(** C22: a grant makes one account.  Signing up needs an unused, unexpired grant with the presented
    token, a bootstrap grant only serves while nobody has an account, and the account gets the role
    the grant was issued for, or owner when it is the first.  Afterwards, whatever happens and
    however long it takes, the same token is refused. *)
Theorem grant_makes_one_account email token now s i s' :
  t_wf (signupGrants s) → t_wf (users s) → createOrUpdateUser sha256 None email (Some token) now s = Done (i, s') →
  (∃ j g u, rows (signupGrants s) !! j = Some g ∧ sg_tokenHash g = sha256Hex sha256 token ∧ sg_usedAt g = None ∧ now < sg_expiresAt g ∧
     (sg_kind g = GrantBootstrap → rows (users s) = ∅) ∧ users s' = t_add u (users s) ∧
     us_role u = Some (if decide (rows (users s) = ∅) then Owner else or_else Admin (sg_role g))) ∧
  (∀ ops email' now', fails (createOrUpdateUser sha256 None email' (Some token) now') (account_trace s' ops)).
Proof.
  intros Hwf Hwu H. unfold createOrUpdateUser in H. tx_bind_in H g s1 H1. apply consume_done in H1 as (j & Hj & Hh & Hun & Hexp & Hb & _ & ->); [|done].
  destruct email as [[|c email]|]; [done| |done]. unfold insertUser in H. destruct (emailRefusal _); [done|].
  tx_bind_in H existing s2 B2. injection B2 as Hex <-. destruct existing as [|]; [done|]. tx_bind_in H anyone s2 B2. injection B2 as Hf <-.
  injection H as _ <-. split.
  - exists j, g. eexists. split_and!; [done..| |reflexivity|].
    + intros Hk. apply map_empty. intros k. destruct (rows (users s) !! k) eqn:Ek; [|done]. by destruct (Hb Hk _ _ Ek).
    + cbn [us_role]. f_equal. case_decide as Hem.
      * rewrite <- Hf, (t_where_nil (λ _, true)) by (intros k d Hk; cbn in Hk; by rewrite Hem in Hk). done.
      * destruct anyone as [|]; cbn [is_some].
        -- destruct (sg_role g); [done|]. case_bool_decide as Hk; [|done]. destruct Hem. apply map_empty. intros k.
           destruct (rows (users s) !! k) eqn:Ek; [|done]. by destruct (Hb Hk _ _ Ek).
        -- destruct Hem. apply map_empty. intros k. destruct (rows (users s) !! k) eqn:Ek; [|done].
           by eapply (first_none users (λ _, true) s) in Ek.
  - intros ops email' now'. apply not_done_fails. intros a s2 H. unfold createOrUpdateUser in H. tx_bind_in H g' s3 H1.
    match type of H1 with _ (account_trace ?s1 _) = _ => pose proof (trace_advances s1 ops) as [W A] end. cbn in W, A.
    assert (t_wf (t_set j (g <| sg_usedAt := Some now |>) (signupGrants s))) as Hwf1 by by eapply t_wf_set.
    destruct (A j (g <| sg_usedAt := Some now |>)) as (g1 & Hg1 & Eh & Hu); [apply lookup_insert_eq|done|].
    apply consume_done in H1 as (k & Hk & Hh' & Hun' & _ & _ & Hone & _); [|auto].
    assert (j = k) as <- by (apply (Hone j g1 Hg1); rewrite Eh; exact Hh). assert (Some g1 = Some g') as [= ->] by (etrans; [symmetry; exact Hg1|exact Hk]).
    rewrite Hun' in Hu. by destruct Hu as [? ?].
Qed.

(** *** Guessing the bootstrap secret *)

Lemma differences_zero (l : list (Z * Z)) d :
  foldl (λ difference p, Z.lor difference (Z.lxor p.1 p.2)) d l = 0 ↔ d = 0 ∧ Forall (λ p, p.1 = p.2) l.
Proof.
  revert d. induction l as [|[x y] l IH]; intros d; cbn [foldl]; [by rewrite Forall_nil; intuition|].
  rewrite IH, Z.lor_eq_0_iff, Forall_cons, Z.lxor_eq_0_iff. cbn [fst snd]. tauto.
Qed.

(** The comparison without early exit decides equality. *)
Lemma constantTimeEqual_iff a b : constantTimeEqual a b = true ↔ a = b.
Proof.
  unfold constantTimeEqual. destruct (Nat.eqb_spec (length a) (length b)) as [E|E]; cbn [negb].
  - rewrite Z.eqb_eq, differences_zero. revert b E. induction a as [|x a IH]; intros [|y b] E; try done.
    cbn [zip_with]. rewrite Forall_cons. cbn [fst snd]. injection E as E. specialize (IH b E). split.
    + intros (_ & -> & H). f_equal. by apply IH.
    + intros [= -> ->]. split; [done|]. split; [done|]. by apply IH.
  - split; [done|]. intros ->. done.
Qed.

(** The row of the throttle after [k] failures, the last of them at [last]. *)
Definition throttled (s : accounts) (k last : Z) : Prop :=
  (k = 0 ∧ rows (bootstrapThrottle s) = ∅ ∧ t_wf (bootstrapThrottle s)) ∨
  (0 < k ∧ t_wf (bootstrapThrottle s) ∧ ∃ i updatedAt, rows (bootstrapThrottle s) =
     {[i := ThrottleRow k (if k <=? FAILURE_ALLOWANCE then 0 else last + Z.min (BASE_LOCKOUT_MS * 2 ^ (k - FAILURE_ALLOWANCE - 1)) MAX_LOCKOUT_MS) updatedAt]}).

(** What a claim with a wrong secret does: nothing while it is locked out, else one more failure. *)
Lemma wrong_claim env configured secret bytes now s k last :
  readBootstrapSecret env = inr configured → sha256Bytes sha256 secret ≠ sha256Bytes sha256 configured → throttled s k last → last ≤ now →
  (∃ left, bootstrap_claim sha256 env secret bytes now s = Done (ClaimLocked left, s)) ∨
  (∃ s', bootstrap_claim sha256 env secret bytes now s = Done (ClaimRejected, s') ∧ throttled s' (k + 1) now ∧
     (FAILURE_ALLOWANCE + 6 ≤ k → last + MAX_LOCKOUT_MS ≤ now)).
Proof.
  intros Henv Hne Ht Hlast. unfold bootstrap_claim. assert (constantTimeEqual (sha256Bytes sha256 secret) (sha256Bytes sha256 configured) = false) as Hc.
  { destruct (constantTimeEqual _ _) eqn:E; [|done]. by apply constantTimeEqual_iff in E. }
  destruct Ht as [(-> & Hrows & Hwf)|(Hk & Hwf & i & at_ & Hrows)].
  - right. eexists. rewrite (bind_run _ _ _ None s) by (rewrite db_first_run, t_where_nil; [done|]; intros j d Hj; by rewrite Hrows in Hj).
    cbn [fmap option_fmap option_map throttleState]. rewrite Henv, Hc. cbn [negb]. split; [reflexivity|]. split; [|unfold FAILURE_ALLOWANCE; lia].
    right. split; [lia|]. split; [by apply t_wf_add|]. exists (next_id (bootstrapThrottle s)), now. cbn. by rewrite Hrows.
  - set (row := ThrottleRow _ _ _) in Hrows. assert (rows (bootstrapThrottle s) !! i = Some row) as Hi by by rewrite Hrows, lookup_singleton_eq.
    rewrite (bind_run _ _ _ (Some (i, row)) s).
    2:{ rewrite db_first_run, (t_where_singleton (λ _, true) _ i row); [done..|]. intros j e Hj _. rewrite Hrows in Hj. by apply lookup_singleton_Some in Hj as [-> _]. }
    cbn [fmap option_fmap option_map snd throttleState]. destruct (Z.leb_spec (th_lockedUntil row) now) as [Hle|Hgt]; [|left; by eexists].
    right. rewrite Henv, Hc. cbn [negb]. eexists. split; [unfold db_patch, mbind, tx_bind; cbn [fst]; by rewrite Hi|]. split.
    + right. split; [lia|]. split; [by eapply t_wf_set|]. exists i, now. cbn. rewrite Hrows, insert_singleton_eq. f_equal.
      subst row. unfold nextThrottleAfterFailure. cbn [th_failures]. destruct (Z.leb_spec (k + 1) FAILURE_ALLOWANCE);
        destruct (Z.leb_spec (k + 1 - FAILURE_ALLOWANCE) 0); try lia; done.
    + intros Hk6. subst row. cbn [th_lockedUntil] in Hle. unfold FAILURE_ALLOWANCE in *. destruct (Z.leb_spec k 5); [lia|].
      rewrite Z.min_r in Hle; [done|]. unfold BASE_LOCKOUT_MS, MAX_LOCKOUT_MS.
      assert (2 ^ 5 ≤ 2 ^ (k - 5 - 1)) by (apply Z.pow_le_mono_r; lia). lia.
Qed.

(** The number of guesses that were compared with the secret, and the store after them. *)
Fixpoint guesses (env : option string) (l : list (string * list Z * Z)) (s : accounts) : Z * accounts :=
  match l with
  | [] => (0, s)
  | (secret, bytes, now) :: l =>
      match bootstrap_claim sha256 env secret bytes now s with
      | Done (ClaimRejected, s') => let r := guesses env l s' in (1 + r.1, r.2)
      | Done (_, s') => guesses env l s'
      | Failed _ => guesses env l s
      end
  end.

Lemma guesses_bounded env configured l s k last t0 t1 :
  readBootstrapSecret env = inr configured → throttled s k last → t0 ≤ last → last ≤ t1 → MAX_LOCKOUT_MS * (k - FAILURE_ALLOWANCE - 6) ≤ last - t0 →
  Forall (λ g, sha256Bytes sha256 g.1.1 ≠ sha256Bytes sha256 configured ∧ last ≤ g.2 ≤ t1) l → StronglySorted Z.le l.*2 →
  MAX_LOCKOUT_MS * (k + (guesses env l s).1 - FAILURE_ALLOWANCE - 6) ≤ t1 - t0.
Proof.
  intros Henv. revert s k last. induction l as [|[[secret bytes] now] l IH]; intros s k last Ht H0 H1 Hb Hl Hs.
  - cbn [guesses fst]. unfold MAX_LOCKOUT_MS in *. lia.
  - apply Forall_cons in Hl as [[Hne [Hn1 Hn2]] Hl]. cbn [fst snd] in *. cbn in Hs. apply StronglySorted_inv in Hs as [Hs Hle]. cbn [guesses].
    destruct (wrong_claim env configured secret bytes now s k last Henv Hne Ht Hn1) as [[left ->]|(s' & -> & Ht' & Hgap)].
    + by apply (IH s k last).
    + cbn [fst]. specialize (IH s' (k + 1) now). replace (k + (1 + (guesses env l s').1)) with (k + 1 + (guesses env l s').1) by lia.
      apply IH; [done|lia|lia| |..|done].
      * unfold MAX_LOCKOUT_MS, FAILURE_ALLOWANCE in *. destruct (decide (11 ≤ k)); [|lia]. lia.
      * rewrite Forall_forall in Hl. rewrite List.Forall_forall in Hle. apply Forall_forall. intros g Hg. destruct (Hl g Hg) as [? ?]. split; [done|]. split; [|lia].
        apply Hle, list_elem_of_In, list_elem_of_fmap. by exists g.
Qed.

(** C23: wrong bootstrap secrets are slowed down.  However many claims an attacker sends between two
    times, and whatever they present, at most eleven of them plus one for every fifteen minutes are
    compared with the secret; the others are answered that setup is locked. *)
Theorem bootstrap_guesses_are_slow env configured l s t0 t1 :
  readBootstrapSecret env = inr configured → rows (bootstrapThrottle s) = ∅ → t0 ≤ t1 →
  Forall (λ g, sha256Bytes sha256 g.1.1 ≠ sha256Bytes sha256 configured ∧ t0 ≤ g.2 ≤ t1) l → StronglySorted Z.le l.*2 →
  (guesses env l s).1 ≤ 11 + (t1 - t0) / MAX_LOCKOUT_MS.
Proof.
  intros Henv Hrows Ht Hl Hs. assert (throttled s 0 t0) as H0.
  { left. split_and!; [done|done|]. intros i d Hi. by rewrite Hrows in Hi. }
  pose proof (guesses_bounded env configured l s 0 t0 t0 t1 Henv H0 ltac:(lia) ltac:(lia) ltac:(unfold MAX_LOCKOUT_MS, FAILURE_ALLOWANCE; lia) Hl Hs) as H.
  assert ((guesses env l s).1 - 11 ≤ (t1 - t0) / MAX_LOCKOUT_MS); [|lia].
  apply Z.div_le_lower_bound; [done|]. unfold MAX_LOCKOUT_MS, FAILURE_ALLOWANCE in *. lia.
Qed.

(** *** An identity whose account is gone *)

(** C38: a removed account can still invite an owner.  Whoever was removed, and whatever their role
    was, a token of theirs that has not expired passes as an owner's: an invitation for the role
    owner is issued, although an admin cannot invite an owner. *)
Theorem removed_account_invites_owner who userId at_ s u s' bytes now :
  removeUser who userId at_ s = Done (u, s') →
  ∃ g s'', invite sha256 (Some (Some userId)) (Some Owner) bytes now s' = Done ((newGrantToken bytes, now + GRANT_TTL_MS), s'') ∧
    rows (signupGrants s'') !! g = Some (SignupGrant GrantInvite (sha256Hex sha256 (newGrantToken bytes)) now (now + GRANT_TTL_MS) None
      (Some userId) (Some Owner)).
Proof.
  intros H. assert (rows (users s') !! userId = None) as Hgone.
  { unfold removeUser in H. tx_bind_in H me s1 B1. case_match; [done|]. tx_bind_in H target s2 B2. destruct target as [target|]; [|done].
    case_match; [done|]. tx_bind_in H x s3 B3. tx_bind_in H y s4 B4. tx_bind_in H z s5 B5. apply db_delete_done in B5 as (d & _ & ->).
    tx_bind_in H v s6 B6. apply sp_bury_user in B6 as (E6 & _). tx_bind_in H w s7 B7. apply acts_on_store in B7 as (E7 & _). injection H as _ <-.
    rewrite E7, E6. apply lookup_delete_eq. }
  assert (currentUser (Some (Some userId)) s' = Done (None, s')) as Hcur by (cbn; unfold mbind, tx_bind; cbn; by rewrite Hgone).
  unfold invite. rewrite (bind_run _ _ _ tt s').
  2:{ unfold dashboardIdentity. by rewrite (bind_run _ _ _ _ _ Hcur). }
  rewrite (bind_run _ _ _ _ _ Hcur). eexists _, _. split; [reflexivity|]. apply lookup_insert_eq.
Qed.

(** *** API tokens *)

(** Tokens are never removed or renamed: a revoked one stays revoked. *)
Definition tokens_advance (s s' : accounts) : Prop :=
  (t_wf (apiTokens s) → t_wf (apiTokens s')) ∧
  ∀ i t, rows (apiTokens s) !! i = Some t → t_wf (apiTokens s) → ∃ t', rows (apiTokens s') !! i = Some t' ∧
    tk_tokenHash t' = tk_tokenHash t ∧ (is_Some (tk_revokedAt t) → is_Some (tk_revokedAt t')).
#[export] Instance tokens_advance_preorder : PreOrder tokens_advance.
Proof.
  split.
  - intros s. split; [done|]. eauto.
  - intros a b c [W1 A1] [W2 A2]. split; [auto|]. intros i t Hi Hw. destruct (A1 i t Hi Hw) as (t1 & Hi1 & E1 & U1).
    destruct (A2 i t1 Hi1 (W1 Hw)) as (t2 & Hi2 & E2 & U2). exists t2. split_and!; [done|congruence|auto].
Qed.

Lemma same_tokens s s' : apiTokens s' = apiTokens s → tokens_advance s s'.
Proof. intros E. unfold tokens_advance. rewrite E. eauto. Qed.

Lemma ta_create s t : tokens_advance s (upd apiTokens (t_add t) s).
Proof.
  split; [by apply t_wf_add|]. intros i d Hi Hw. exists d. split; [|done]. cbn. rewrite lookup_insert_ne; [done|].
  intros <-. by rewrite t_wf_fresh in Hi.
Qed.

Lemma ta_set s i t t' : rows (apiTokens s) !! i = Some t → tk_tokenHash t' = tk_tokenHash t → (is_Some (tk_revokedAt t) → is_Some (tk_revokedAt t')) →
  tokens_advance s (upd apiTokens (t_set i t') s).
Proof.
  intros Hi Eh Hr. split; [by eapply t_wf_set|]. intros j d Hj _. cbn. destruct (decide (j = i)) as [->|Hne].
  - rewrite lookup_insert_eq. exists t'. by simplify_eq.
  - rewrite lookup_insert_ne by done. eauto.
Qed.

Lemma ta_on_store {A} (m : tx vault A) : acts tokens_advance (on_store m).
Proof. intros s a s' H. apply same_tokens. unfold on_store in H. destruct (m _) as [[b v]|]; [|done]. by injection H as _ <-. Qed.
#[local] Hint Resolve ta_on_store : acts.

Ltac token_leaf := first [ by apply ta_create | by eapply ta_set | by apply same_tokens ].

Lemma ta_op op now : acts tokens_advance (account_run op now).
Proof.
  destruct op; cbn [account_run].
  all: unfold bootstrap_claim, invite, createOrUpdateUser, setUserRole, removeUser, token_create, token_revoke, token_recordUse,
    issueGrant, consumeSignupGrant, insertUser, account_permission, assertNotLastOwner, deleteUserCredentials, bury_user, dashboardIdentity,
    authUserId, currentUser.
  all: acts_walk ltac:(token_leaf).
Qed.

Lemma trace_tokens s ops : tokens_advance s (account_trace s ops).
Proof.
  revert s. induction ops as [|[op now] ops IH]; intros s; [reflexivity|]. unfold account_trace. cbn [foldl fst snd].
  etrans; [|apply IH]. unfold commit. destruct (account_run op now s) as [[u s1]|] eqn:E; [by eapply ta_op|reflexivity].
Qed.

Lemma slice_from_app a b : slice_from (String.length a) (a +:+ b) = b.
Proof.
  unfold slice_from. replace (String.length (a +:+ b) - String.length a)%nat with (String.length b); [apply substring_app_r|].
  rewrite str_length_app. lia.
Qed.

(** Hex text: the characters of tokens. *)
Definition hex_text (s : string) : Prop := str_chars (λ c, is_hex c && negb (is_space c) = true) s.

Lemma hex_byte_hex b : is_byte b → hex_text (hex_byte (Z.to_nat b)).
Proof.
  intros [H0 H1]. apply str_chars_all.
  assert (forallb (λ n, str_all (λ c, is_hex c && negb (is_space c)) (hex_byte n)) (seq 0 256) = true) as Hall by by vm_compute.
  rewrite forallb_forall in Hall. apply Hall, in_seq. lia.
Qed.

Lemma bytesToHex_text bytes : Forall is_byte bytes → hex_text (bytesToHex bytes) ∧ String.length (bytesToHex bytes) = (length bytes * 2)%nat.
Proof.
  intros H. unfold bytesToHex. split.
  - apply str_chars_join; [constructor|]. apply Forall_fmap. eapply Forall_impl; [done|]. intros b. apply hex_byte_hex.
  - rewrite (str_length_join _ 2), length_fmap; [done|]. apply Forall_fmap, Forall_forall. done.
Qed.

Lemma drop_blanks_id l : Forall (λ c, is_space c = false) l → drop_blanks l = l.
Proof. destruct 1 as [|c l Hc _]; [done|]. destruct c as [[] [] [] [] [] [] [] []]; done. Qed.

(** A token as its holder sends it. *)
Lemma bearer_new_token bytes : length bytes = 32%nat → Forall is_byte bytes →
  bearerToken (Some ("Bearer " +:+ newApiToken bytes)) = Some (newApiToken bytes) ∧ isWellFormedApiToken (newApiToken bytes) = true.
Proof.
  intros Hlen Hb. destruct (bytesToHex_text bytes Hb) as [Hhex Hl]. unfold newApiToken. split.
  - assert (str_chars (λ c, is_space c = false) (API_TOKEN_PREFIX +:+ bytesToHex bytes)) as Hs.
    { apply str_chars_app. split; [repeat constructor|]. eapply Forall_impl; [exact Hhex|]. cbn beta. intros c. destruct (is_space c); [|done].
      by rewrite andb_false_r. }
    unfold bearerToken. set (t := API_TOKEN_PREFIX +:+ bytesToHex bytes) in *.
    change (slice_from 6 ("Bearer " +:+ t)) with (slice_from (String.length "Bearer") ("Bearer" +:+ (" " +:+ t))). rewrite slice_from_app.
    change (slice0 6 ("Bearer " +:+ t)) with "Bearer".
    change (String.list_ascii_of_string (" " +:+ t)) with (" "%char :: String.list_ascii_of_string t). cbn [drop_blanks].
    rewrite (drop_blanks_id (String.list_ascii_of_string t)) by done. rewrite drop_blanks_id by (by apply Forall_reverse).
    rewrite reverse_involutive, String.string_of_list_ascii_of_string.
    assert (forallb (λ c, negb (is_space c)) (String.list_ascii_of_string t) = true) as ->.
    { apply forallb_forall. intros c Hc%list_elem_of_In. unfold str_chars in Hs. rewrite Forall_forall in Hs. by rewrite (Hs c Hc). }
    done.
  - unfold isWellFormedApiToken, starts_with. rewrite prefix_app, slice_from_app, Hl, Hlen. rewrite andb_true_r.
    apply str_chars_all. eapply Forall_impl; [exact Hhex|]. cbn beta. by intros c [? _]%andb_true_iff.
Qed.

Lemma token_lookup_run hash s i t : t_wf (apiTokens s) → rows (apiTokens s) !! i = Some t → tk_tokenHash t = hash →
  (∀ j t', rows (apiTokens s) !! j = Some t' → tk_tokenHash t' = hash → j = i) →
  token_lookup hash s = Done (if is_some (tk_revokedAt t) then None else Some (i, tk_name t, tk_scope t, tk_lastUsedAt t), s).
Proof.
  intros Hwf Hi Hh Hone. unfold token_lookup. rewrite (bind_run _ _ _ (Some (i, t)) s); [done|].
  unfold db_unique. rewrite (t_where_singleton _ _ i t); [done|done|done|by apply bool_decide_eq_true|].
  intros j e Hj He%bool_decide_eq_true. by eapply Hone.
Qed.

Lemma dashboardIdentity_reads who : acts eq (dashboardIdentity who).
Proof. unfold dashboardIdentity, currentUser. acts_walk ltac:(done). Qed.
Lemma authUserId_reads who : acts eq (authUserId who).
Proof. unfold authUserId. acts_walk ltac:(done). Qed.

(** A revoked token is found by no later lookup. *)
Lemma revoked_lookup s i t hash r s' : t_wf (apiTokens s) → rows (apiTokens s) !! i = Some t → tk_tokenHash t = hash → is_Some (tk_revokedAt t) →
  token_lookup hash s = Done (r, s') → r = None.
Proof.
  intros Hwf Hi Hh [at_ Hr] H. unfold token_lookup in H. tx_bind_in H row s1 B1. apply db_unique_done in B1 as [-> Hrow]. injection H as <- _.
  assert ((i, t) ∈ t_where (λ t, tk_tokenHash t === hash) (apiTokens s)) as Hin.
  { apply elem_of_t_where; [done|]. split; [done|]. by apply bool_decide_eq_true. }
  destruct row as [[k t']|]; [|done]. rewrite Hrow in Hin. apply list_elem_of_singleton in Hin as [= <- <-]. by rewrite Hr.
Qed.

Lemma token_revoke_done who i now s u s' t : t_wf (apiTokens s) → rows (apiTokens s) !! i = Some t → token_revoke who i now s = Done (u, s') →
  t_wf (apiTokens s') ∧ ∃ t', rows (apiTokens s') !! i = Some t' ∧ tk_tokenHash t' = tk_tokenHash t ∧ is_Some (tk_revokedAt t').
Proof.
  intros Hwf Hi H. unfold token_revoke in H. tx_bind_in H x s1 B1. apply dashboardIdentity_reads in B1 as <-. tx_bind_in H row s1 B1.
  injection B1 as <- <-. rewrite Hi in H. destruct (tk_revokedAt t) eqn:Er; cbn [is_none] in H.
  - injection H as _ <-. eauto 6.
  - apply db_patch_done in H as (d & Hd & ->). split; [by eapply t_wf_set|]. rewrite Hd in Hi. injection Hi as ->.
    eexists. split; [apply lookup_insert_eq|]. eauto.
Qed.

End operations.

(** ** Witnesses *)

Definition acc_sha (l : list Z) : list Z := l.
Definition acc_env : option string := Some (str_join "" (replicate 32 "s")).
Definition acc_empty : accounts := Accounts (Vault infra_empty t_empty t_empty t_empty) t_empty t_empty t_empty t_empty t_empty t_empty t_empty.
Definition acc_secret : string := str_join "" (replicate 32 "s").

(** Bootstrap, an invitation that its account redeems, its promotion, and the removal of the first
    owner by the second. *)
Definition acc_ops : list (account_op * Z) :=
  [(OpClaim acc_env acc_secret [1], 1); (OpSignUp None (Some "First@x.io") (Some "01"), 2);
   (OpInvite (Some (Some 0%nat)) (Some Viewer) [2], 3); (OpSignUp None (Some "second@x.io") (Some "02"), 4);
   (OpRemoveUser (Some (Some 1%nat)) 0%nat, 5); (OpSetRole (Some (Some 0%nat)) 0%nat Viewer, 6);
   (OpSetRole (Some (Some 0%nat)) 1%nat Owner, 7); (OpRemoveUser (Some (Some 1%nat)) 0%nat, 8)].

Example acc_users : map_to_list (us_role <$> rows (users (account_trace acc_sha acc_empty acc_ops))) = [(1%nat, Some Owner)] ∧
  map_to_list (us_role <$> rows (users (account_trace acc_sha acc_empty (take 6 acc_ops)))) = [(1%nat, Some Viewer); (0%nat, Some Owner)].
Proof. vm_compute. done. Qed.


Definition acc_granted : accounts := account_trace acc_sha acc_empty (take 3 acc_ops).

Lemma grant_makes_one_account_witness :
  (∃ i s', createOrUpdateUser acc_sha None (Some "second@x.io") (Some "02") 4 acc_granted = Done (i, s') ∧
    fails (createOrUpdateUser acc_sha None (Some "third@x.io") (Some "02") 5) (account_trace acc_sha s' [(OpClaim acc_env acc_secret [3], 5)])).
Proof.
  assert (t_wf (signupGrants acc_granted) ∧ t_wf (users acc_granted)) as [Hg Hu].
  { split; [apply (trace_advances acc_sha acc_empty); apply t_wf_empty|by apply trace_people_ok, no_people_ok]. }
  destruct (createOrUpdateUser acc_sha None (Some "second@x.io") (Some "02") 4 acc_granted) as [[i s']|e] eqn:E; [|vm_compute in E; discriminate].
  exists i, s'. split; [reflexivity|]. by apply (grant_makes_one_account acc_sha (Some "second@x.io") "02" 4 acc_granted i s' Hg Hu E).
Defined.

Lemma bootstrap_guesses_are_slow_witness :
  readBootstrapSecret acc_env = inr acc_secret ∧
  (guesses acc_sha acc_env (replicate 100 ("guess", [], 7)) acc_empty).1 = 6 ∧
  (guesses acc_sha acc_env (replicate 100 ("guess", [], 7)) acc_empty).1 ≤ 11 + (7 - 7) / MAX_LOCKOUT_MS.
Proof.
  assert (readBootstrapSecret acc_env = inr acc_secret) as He by by vm_compute. split; [exact He|]. split; [by vm_compute|].
  apply (bootstrap_guesses_are_slow acc_sha acc_env acc_secret); [exact He|reflexivity|lia|..].
  - apply Forall_replicate. split; [vm_compute; discriminate|cbn; lia].
  - repeat constructor; vm_compute; discriminate.
Defined.

(** The second account, a viewer, is removed by the first. *)
Definition acc_before : accounts := account_trace acc_sha acc_empty (take 4 acc_ops).

Lemma removed_account_invites_owner_witness :
  match removeUser (Some (Some 0%nat)) 1%nat 5 acc_before with
  | Done (_, s') => ∃ g s'', invite acc_sha (Some (Some 1%nat)) (Some Owner) [9] 6 s' = Done (("09", 6 + GRANT_TTL_MS), s'') ∧
      sg_role <$> rows (signupGrants s'') !! g = Some (Some Owner)
  | Failed _ => False
  end.
Proof.
  destruct (removeUser (Some (Some 0%nat)) 1%nat 5 acc_before) as [[u s']|e] eqn:E; [|vm_compute in E; discriminate].
  destruct (removed_account_invites_owner acc_sha (Some (Some 0%nat)) 1%nat 5 acc_before u s' [9] 6 E) as (g & s'' & H & Hg).
  exists g, s''. split; [exact H|]. rewrite Hg. reflexivity.
Defined.

(** The command-line cleanup can leave accounts without an owner. *)
Example deleteUser_checks_nothing :
  match deleteUser 0%nat 5 acc_before with
  | Done (_, s') => map_to_list (us_role <$> rows (users s')) = [(1%nat, Some Viewer)]
  | Failed _ => False
  end.
Proof. vm_compute. done. Qed.

Definition acc_bytes : list Z := replicate 32 171.

