(* ===== verification/Git.v ===== *)
(** Push-to-deploy: the bindings of branches to Apps and the intake of push events
    (packages/backend/convex/infra/git.ts), with the parsing of GitHub's payload and the choice of
    webhook secrets (infra/githubDeploy.ts). *)

From S2P Require Import Prelude JsLib Schema HostLabels Egress AppPolicy InfraSchema InfraStore Nodes DockerArgs AppSpecs Deployments Pipeline Vault.

(** The store: the App platform with its tombstones, and the deliveries of the CI intake, which
    pushes share. *)
Record git_store := GitStore {
  gs_vault : vault;
  gs_ci : db;
}.
#[export] Instance git_store_rebuild : Rebuild git_store := λ s, GitStore (gs_vault s) (gs_ci s).

Definition on_infra {A} (m : tx infra A) : tx git_store A := λ s,
  match on_platform m (gs_vault s) with
  | Done (a, v) => Done (a, s <| gs_vault := v |>)
  | Failed e => Failed e
  end.
Definition on_vault {A} (m : tx vault A) : tx git_store A := λ s,
  match m (gs_vault s) with
  | Done (a, v) => Done (a, s <| gs_vault := v |>)
  | Failed e => Failed e
  end.
Definition on_ci {A} (m : tx db A) : tx git_store A := λ s,
  match m (gs_ci s) with
  | Done (a, d) => Done (a, s <| gs_ci := d |>)
  | Failed e => Failed e
  end.

(** ** githubDeploy.ts *)

(** [webhookSecretsFor] *)
Record webhook_secrets := WebhookSecrets { ws_ciStored : option string; ws_ciEnv : option string; ws_deploy : option string }.

Definition present (l : list (option string)) : list string := filter (λ v, v ≠ "") (omap id l).

Definition webhookSecretsFor (event : string) (configured : webhook_secrets) : list string :=
  let ci := present [ws_ciStored configured; ws_ciEnv configured] in
  let deploy := present [ws_deploy configured] in
  if event === "push" then deploy else if event === "workflow_job" then ci else ci ++ deploy.

Record push_event := PushEvent { pe_repo : string; pe_branch : string; pe_sha : string }.

(** [/^[\w.-]+$/] *)
Definition repo_word (w : string) : bool :=
  negb (Nat.eqb (String.length w) 0) &&
  str_all (λ c, is_alpha c || is_digit c || Ascii.eqb c "_" || Ascii.eqb c "." || Ascii.eqb c "-") w.

(** [/^[\w.-]+\/[\w.-]+$/]: one slash between two words. *)
Definition repo_ok (repo : string) : bool :=
  match str_split "/" repo with [owner; name] => repo_word owner && repo_word name | _ => false end.

(** [b?.key] *)
Definition member (key : string) (b : json) : option json :=
  match b with JObj fields => json_field key fields | _ => None end.

Definition REFS_HEADS : string := "refs/heads/".

Definition parsePush (body : json) : option push_event :=
  match member "repository" body ≫= member "full_name", member "ref" body with
  | Some (JStr repo), Some (JStr ref) =>
      if negb (repo_ok repo) || negb (starts_with REFS_HEADS ref) ||
         match member "deleted" body with Some (JBool true) => true | _ => false end then None
      else
        let branch := slice_from (String.length REFS_HEADS) ref in
        if Nat.eqb (String.length branch) 0 || Nat.ltb 255 (String.length branch) then None
        else Some (PushEvent repo branch (match member "after" body with Some (JStr sha) => sha | _ => "" end))
  | _, _ => None
  end.

(** ** git.ts: bindings *)

Definition findBinding (repo branch : string) : tx infra (option (Id * git_binding)) :=
  db_unique gitBindings (λ b, (gb_repoKey b === repoKey repo) && (gb_branch b === branch)).

Definition bindingRefusal (repo branch : string) : tx infra (option string) :=
  if negb (repo_ok repo) then mret (Some "Name the repository as owner/name")
  else if Nat.eqb (String.length branch) 0 then mret (Some "Name a branch")
  else
    found ← findBinding repo branch;
    match found with
    | Some _ => mret (Some ("Already bound: " +:+ repo +:+ "@" +:+ branch))
    | None =>
        bound ← read (λ s, take (Z.to_nat MAX_GIT_BINDINGS) (t_scan (gitBindings s)));
        if MAX_GIT_BINDINGS <=? Z.of_nat (length bound)
        then mret (Some ("Binding limit reached (" +:+ pretty MAX_GIT_BINDINGS +:+ ")")) else mret None
    end.

Record binding_input := BindingInput {
  bi_repo : string;
  bi_branch : string;
  bi_app : string;
  bi_buildNodeId : option Id;
  bi_deployNodeId : option Id;
  bi_port : option num;
  bi_createdAt : option Z;
  bi_legacyId : option string;
  bi_lastStatus : option git_status;
}.

(** A stored port is an integer: [bindBranch] checks it, and the importer's ports are. *)
Definition insertBinding (i : binding_input) (port : option Z) (hub : option (option string)) (now : Z) : tx infra Id :=
  refusal ← bindingRefusal (bi_repo i) (bi_branch i);
  match refusal with
  | Some refusal => throw refusal
  | None =>
      db_insert gitBindings (GitBinding (bi_repo i) (repoKey (bi_repo i)) (bi_branch i) (bi_app i) (bi_buildNodeId i) (bi_deployNodeId i)
        port (bi_lastStatus i) (or_else now (bi_createdAt i)) (bi_legacyId i) (Some (provenanceFor now hub)) (Some now))
  end.

(** [text.includes(part)] *)
Fixpoint includes (part : string) (text : string) : bool :=
  starts_with part text || match text with String _ text => includes part text | EmptyString => false end.

(** [/[~^:?*[\\]/] *)
Definition ref_refused (c : ascii) : bool :=
  bool_decide (nat_of_ascii c ∈ [126; 94; 58; 63; 42; 91; 92]%nat).

Definition branchProblem (branch : string) : option string :=
  let chars := String.list_ascii_of_string branch in
  if Nat.eqb (String.length branch) 0 then Some "Name a branch"
  else if Nat.ltb 255 (String.length branch) then Some "A branch name is at most 255 characters"
  else if starts_with "refs/" branch then Some "Name the branch without refs/heads/"
  else if existsb (λ c, (ch c <=? 32) || (ch c =? 127)) chars || existsb ref_refused chars || includes ".." branch ||
          includes "@{" branch || includes "//" branch || starts_with "/" branch || starts_with "-" branch || ends_with "/" branch ||
          ends_with "." branch || ends_with ".lock" branch || (branch === "@")
  then Some (json_string branch +:+ " is not a branch name git accepts")
  else None.

(** The port as an integer, when it is one from 1 to 65535. *)
Definition port_of (port : num) : option Z :=
  match num_integer port with Some p => if (1 <=? p) && (p <=? 65535) then Some p else None | None => None end.

(** The name of a Node of the binding. *)
Definition bound_node (nodeId : option Id) : tx infra (option string) :=
  match nodeId with
  | None => mret None
  | Some i =>
      node ← db_get nodes i;
      match node with
      | None => throw ("No Node with id " +:+ id_text i)
      | Some n => mret (Some (nd_name n))
      end
  end.

Definition or_null (s : option string) : string := match s with Some s => json_string s | None => "null" end.

Definition bindBranch (i : binding_input) (actor : string) (now : Z) : tx infra Id :=
  match branchProblem (bi_branch i) with
  | Some problem => throw problem
  | None =>
      if negb (LABEL (bi_app i)) then throw "An App name is lowercase letters, digits and dashes, at most 63"
      else
        match (match bi_port i with None => Some None | Some p => Some <$> port_of p end) with
        | None => throw "port must be an integer from 1 to 65535"
        | Some port =>
            buildNode ← bound_node (bi_buildNodeId i);
            deployNode ← bound_node (bi_deployNodeId i);
            bindingId ← insertBinding i port None now;
            appendAudit (entry actor "git.bind" (bi_repo i +:+ "@" +:+ bi_branch i) AudSuccess
              (Some (json_object [("app", json_string (bi_app i)); ("buildNode", or_null buildNode); ("deployNode", or_null deployNode);
                ("port", match port with Some p => json_Z p | None => "null" end)]))) now ≫= λ _,
            mret bindingId
        end
  end.

Definition bindingKey (repo branch : string) : string := repoKey repo +:+ "@" +:+ branch.

Definition unbindBranch (binding : Id * git_binding) (actor : string) (now : Z) : tx git_store unit :=
  on_infra (db_delete gitBindings binding.1) ≫= λ _,
  on_vault (recordTombstone TombGitBinding (bindingKey (gb_repo binding.2) (gb_branch binding.2)) now) ≫= λ _,
  on_infra (appendAudit (entry actor "git.unbind" (gb_repo binding.2 +:+ "@" +:+ gb_branch binding.2) AudSuccess
    (Some (json_object [("app", json_string (gb_app binding.2))]))) now) ≫= λ _,
  mret tt.

Definition git_bind (user : session) (i : binding_input) (now : Z) : tx git_store Id :=
  me ← on_infra (requirePermission user AppDeploy);
  on_infra (bindBranch i me.2 now).

Definition git_unbind (user : session) (bindingId : Id) (now : Z) : tx git_store bool :=
  me ← on_infra (requirePermission user AppDeploy);
  binding ← on_infra (db_get gitBindings bindingId);
  match binding with
  | None => mret false
  | Some b => unbindBranch (bindingId, b) me.2 now ≫= λ _, mret true
  end.

(** ** git.ts: pushes *)

Inductive push_result := PushDuplicate | PushUnbound | PushRun (deploymentId : Id).

(** [/^[0-9a-f]{40}$/] *)
Definition is_sha (sha : string) : bool := str_all is_hex sha && Nat.eqb (String.length sha) 40.

(** The row of a push in [webhookDeliveries]. *)
Definition push_row (deliveryId : string) (push : push_delivery) (now : Z) : webhook_delivery :=
  WebhookDelivery deliveryId "push" now DProcessed None (Some push) 1 None (Some now).

Definition acceptPush (deliveryId repo branch sha : string) (now : Z) : tx git_store push_result :=
  seen ← on_ci (db_unique webhookDeliveries (λ d, wd_deliveryId d === deliveryId));
  match seen with
  | Some _ => mret PushDuplicate
  | None =>
      binding ← on_infra (findBinding repo branch);
      match binding with
      | None =>
          on_ci (db_insert webhookDeliveries (push_row deliveryId (PushDelivery repo branch sha PushNoBinding None) now)) ≫= λ _,
          mret PushUnbound
      | Some (bindingId, b) =>
          deploymentId ← on_infra (createRun (RunInput (gb_app b) OpDeploy (Trigger TrigGit (Some sha) (Some deliveryId) (Some "github:push"))
            (Some (SrcGit (gb_repo b) branch (if is_sha sha then Some sha else None))) (gb_buildNodeId b) (gb_deployNodeId b) (gb_port b)
            (Some bindingId) None) now);
          on_ci (db_insert webhookDeliveries (push_row deliveryId (PushDelivery repo branch sha PushQueued (Some deploymentId)) now)) ≫= λ _,
          on_infra (appendAudit (entry "github:push" "git.deploy" (gb_repo b +:+ "@" +:+ gb_branch b) AudAttempt
            (Some (json_object [("sha", json_string sha); ("deliveryId", json_string deliveryId);
              ("deploymentId", json_string (id_text deploymentId))]))) now) ≫= λ _,
          mret (PushRun deploymentId)
      end
  end.

(** ** git.ts: the list *)

Section views.
Context (localeCompare : string → string → Z).

(** A binding as callers see it: with the names of its Nodes. *)
Record binding_view := BindingView {
  bv_id : Id;
  bv_binding : git_binding;
  bv_buildNode : option string;
  bv_deployNode : option string;
}.

Definition node_name (s : infra) (nodeId : option Id) : option string := nodeId ≫= λ i, nd_name <$> rows (nodes s) !! i.

(** The cache of names changes no answer within one query. *)
Definition bindingViews (found : list (Id * git_binding)) (s : infra) : list binding_view :=
  to_sorted (λ a b,
    let d := localeCompare (repoKey (gb_repo (bv_binding a))) (repoKey (gb_repo (bv_binding b))) in
    if d =? 0 then
      (let x := gb_branch (bv_binding a) in let y := gb_branch (bv_binding b) in
       if String.eqb x y then 0 else if str_leb x y then -1 else 1)
    else d)
    ((λ r : Id * git_binding, BindingView r.1 r.2 (node_name s (gb_buildNodeId r.2)) (node_name s (gb_deployNodeId r.2))) <$> found).

Definition listBindings : tx infra (list binding_view) :=
  found ← read (λ s, take (Z.to_nat MAX_GIT_BINDINGS) (t_scan (gitBindings s)));
  read (bindingViews found).

Definition git_list (user : session) : tx infra (list binding_view) :=
  requirePermission user AppRead ≫= λ _, listBindings.
End views.
