(* ===== verification/GitProperties.v ===== *)
(** Properties of push-to-deploy: bindings stay unique and bounded, a bound branch receives its
    pushes, and a delivery starts at most one run. *)

From S2P Require Import Prelude JsLib Schema HostLabels Egress AppPolicy InfraSchema InfraStore Nodes DockerArgs AppSpecs Deployments Frames Pipeline PipelineFrames PipelineProperties FailoverProperties Vault Accounts AccountProperties Git.

(** ** Lifting *)

Lemma on_infra_done {A} (m : tx infra A) s a s' : on_infra m s = Done (a, s') →
  ∃ p, m (platform (gs_vault s)) = Done (a, p) ∧ s' = s <| gs_vault := ((gs_vault s) <| platform := p |>) |>.
Proof.
  unfold on_infra, on_platform. destruct (m _) as [[b p]|] eqn:E; [|done]. intros [= -> <-]. eauto.
Qed.

Lemma on_ci_done {A} (m : tx db A) s a s' : on_ci m s = Done (a, s') → ∃ d, m (gs_ci s) = Done (a, d) ∧ s' = s <| gs_ci := d |>.
Proof. unfold on_ci. destruct (m _) as [[b d]|] eqn:E; [|done]. intros [= -> <-]. eauto. Qed.

Lemma on_vault_done {A} (m : tx vault A) s a s' : on_vault m s = Done (a, s') → ∃ v, m (gs_vault s) = Done (a, v) ∧ s' = s <| gs_vault := v |>.
Proof. unfold on_vault. destruct (m _) as [[b d]|] eqn:E; [|done]. intros [= -> <-]. eauto. Qed.

Definition infra_of (s : git_store) : infra := platform (gs_vault s).
Definition bindings (s : git_store) : table git_binding := gitBindings (infra_of s).
Definition runs (s : git_store) : table app_deployment := appDeployments (infra_of s).
Definition deliveries (s : git_store) : table webhook_delivery := webhookDeliveries (gs_ci s).

(** ** What the platform's functions leave alone *)

Definition same_bindings : relation infra := λ s s', gitBindings s' = gitBindings s.
#[export] Instance same_bindings_preorder : PreOrder same_bindings.
Proof. unfold same_bindings. split; [done|]. intros a b c -> ->. done. Qed.

Definition same_runs : relation infra := λ s s', appDeployments s' = appDeployments s.
#[export] Instance same_runs_preorder : PreOrder same_runs.
Proof. unfold same_runs. split; [done|]. intros a b c -> ->. done. Qed.

Lemma sb_createRun i now : acts same_bindings (createRun i now).
Proof.
  unfold createRun, createDeployment, trim_deployments, bumpCounter, readCounter, writeCounter, counterRow, infra_call_after.
  acts_walk ltac:(done).
Qed.
Lemma sb_appendAudit e now : acts same_bindings (appendAudit e now).
Proof. unfold appendAudit, bumpCounter, readCounter, writeCounter, counterRow. acts_walk ltac:(done). Qed.
Lemma sr_appendAudit e now : acts same_runs (appendAudit e now).
Proof. unfold appendAudit, bumpCounter, readCounter, writeCounter, counterRow. acts_walk ltac:(done). Qed.

(** Old runs are only forgotten. *)
Definition runs_shrink : relation infra := λ s s',
  (t_wf (appDeployments s) → t_wf (appDeployments s')) ∧
  ∀ j d, rows (appDeployments s') !! j = Some d → rows (appDeployments s) !! j = Some d.
#[export] Instance runs_shrink_preorder : PreOrder runs_shrink.
Proof. split; [done|]. intros a b c [W1 A1] [W2 A2]. split; auto. Qed.

Lemma shrink_same s s' : appDeployments s' = appDeployments s → runs_shrink s s'.
Proof. intros E. unfold runs_shrink. rewrite E. done. Qed.
Lemma shrink_delete s i : runs_shrink s (upd appDeployments (t_del i) s).
Proof. split; [by apply t_wf_del|]. intros j d H. cbn in H. by apply lookup_delete_Some in H as [_ ?]. Qed.

(** A new run and what is left of the old ones. *)
Lemma createRun_rows i now s id s' : createRun i now s = Done (id, s') → t_wf (appDeployments s) →
  id = next_id (appDeployments s) ∧ t_wf (appDeployments s') ∧
  (∀ j d, rows (appDeployments s') !! j = Some d → j ≠ id → rows (appDeployments s) !! j = Some d) ∧
  ∃ d, rows (appDeployments s') !! id = Some d ∧ dp_app d = ri_app i ∧ dp_trigger d = Some (ri_trigger i) ∧
    dp_source d = ri_source i ∧ dp_gitBindingId d = ri_gitBindingId i ∧ dp_stage d = StQueued.
Proof.
  intros H Hwf. unfold createRun in H. destruct (negb _); [done|]. tx_bind_in H id1 s1 H1.
  pose proof (createDeployment_row _ _ _ _ _ H1) as [-> Hrow].
  assert (runs_shrink (upd appDeployments (t_add (new_deployment (DeploymentInput (ri_app i) [] (ri_trigger i) None None None None None None None) now)) s) s1) as [W A].
  { unfold createDeployment in H1. tx_bind_in H1 id0 s0 H0. injection H0 as <- <-. revert H1.
    match goal with |- ?m ?st = _ → _ => cut (acts runs_shrink m); [intros Ha; apply Ha|] end.
    unfold trim_deployments, bumpCounter, readCounter, writeCounter, counterRow.
    acts_walk ltac:(first [apply shrink_delete|by apply shrink_same]). }
  tx_bind_in H u s2 H2. apply db_patch_done in H2 as (d & Hd & ->). tx_bind_in H u2 s3 H3. injection H3 as <- <-. injection H as <- <-.
  destruct Hrow as [E|E]; [|congruence]. rewrite Hd in E. injection E as ->. split; [done|]. split; [|split].
  - eapply t_wf_set; [done|]. apply W. by apply t_wf_add.
  - intros j d' Hj Hne. cbn in Hj. rewrite lookup_insert_ne in Hj by done. apply A in Hj. cbn in Hj. by rewrite lookup_insert_ne in Hj.
  - eexists. split; [apply lookup_insert_eq|]. destruct i as [? ? ? [] ? ? ? [] ?]; done.
Qed.

(** ** Bindings *)

Definition same_key (b b' : git_binding) : Prop := gb_repoKey b = gb_repoKey b' ∧ gb_branch b = gb_branch b'.

Record bindings_ok (t : table git_binding) : Prop := {
  bo_wf : t_wf t;
  bo_one : ∀ i j b b', rows t !! i = Some b → rows t !! j = Some b' → same_key b b' → i = j;
  bo_limit : Z.of_nat (length (t_scan t)) ≤ MAX_GIT_BINDINGS;
}.

Lemma t_count_length {D} (t : table D) : t_count (λ _, true) t = Z.of_nat (length (t_scan t)).
Proof. unfold t_count, t_sum, zsum. induction (t_scan t) as [|r l IH]; [done|]. cbn [foldr length]. rewrite IH. cbn. lia. Qed.

Lemma bindingRefusal_none repo branch s s' : t_wf (gitBindings s) → bindingRefusal repo branch s = Done (None, s') →
  s' = s ∧ repo_ok repo = true ∧ (∀ i b, rows (gitBindings s) !! i = Some b → ¬ (gb_repoKey b = repoKey repo ∧ gb_branch b = branch)) ∧
  Z.of_nat (length (t_scan (gitBindings s))) < MAX_GIT_BINDINGS.
Proof.
  intros Hwf H. unfold bindingRefusal in H. destruct (repo_ok repo); [|done]. cbn [negb] in H. case_match; [done|].
  tx_bind_in H found s1 B1. unfold findBinding in B1. apply unique_row in B1 as [-> Hf]; [|done]. destruct found as [[i b]|]; [done|].
  tx_bind_in H bound s1 B2. injection B2 as <- <-. destruct (MAX_GIT_BINDINGS <=? _) eqn:El; [done|]. injection H as <-. split_and!; [done|done|..].
  - intros i b Hi [E1 E2]. apply Hf, andb_false_iff in Hi as [Hi|Hi]; by apply bool_decide_eq_false in Hi.
  - apply Z.leb_gt in El. rewrite length_take in El. lia.
Qed.

Lemma insertBinding_ok i port hub now s id s' : bindings_ok (gitBindings s) → insertBinding i port hub now s = Done (id, s') →
  bindings_ok (gitBindings s') ∧ ∃ b, rows (gitBindings s') !! id = Some b ∧ gb_repoKey b = repoKey (bi_repo i) ∧ gb_branch b = bi_branch i ∧ gb_app b = bi_app i.
Proof.
  intros [Hwf Hone Hlim] H. unfold insertBinding in H. tx_bind_in H refusal s1 B1. destruct refusal as [|]; [done|].
  apply bindingRefusal_none in B1 as (-> & _ & Hnew & Hlt); [|done]. injection H as <- <-.
  split.
  - split.
    + by apply t_wf_add.
    + intros j k b b'. cbn. rewrite !lookup_insert_Some. intros [[<- <-]|[_ Hj]] [[<- <-]|[_ Hk]] [E1 E2]; [done|..|by eapply Hone].
      * by destruct (Hnew k b' Hk).
      * by destruct (Hnew j b Hj).
    + rewrite <- t_count_length. cbn [gitBindings]. rewrite t_count_add, t_count_length by done. cbn. lia.
  - eexists. split; [apply lookup_insert_eq|]. done.
Qed.

Lemma acts_bound_node i : acts eq (bound_node i).
Proof. unfold bound_node. acts_walk ltac:(done). Qed.

Lemma bindBranch_ok i actor now s id s' : bindings_ok (gitBindings s) → bindBranch i actor now s = Done (id, s') →
  branchProblem (bi_branch i) = None ∧ LABEL (bi_app i) = true ∧ repo_ok (bi_repo i) = true ∧ bindings_ok (gitBindings s') ∧
  ∃ b, rows (gitBindings s') !! id = Some b ∧ gb_repoKey b = repoKey (bi_repo i) ∧ gb_branch b = bi_branch i ∧ gb_app b = bi_app i.
Proof.
  intros Hok H. unfold bindBranch in H. destruct (branchProblem _) eqn:Ep; [done|]. destruct (LABEL (bi_app i)) eqn:El; [|done]. cbn [negb] in H.
  case_match; [|done]. tx_bind_in H buildNode s1 B1. apply acts_bound_node in B1 as <-. tx_bind_in H deployNode s1 B1. apply acts_bound_node in B1 as <-.
  tx_bind_in H bindingId s1 B1. tx_bind_in H n s2 B2. apply sb_appendAudit in B2 as E2. injection H as <- <-.
  assert (repo_ok (bi_repo i) = true) as Hr.
  { unfold insertBinding in B1. tx_bind_in B1 refusal s3 B3. destruct refusal as [|]; [done|]. by apply bindingRefusal_none in B3 as (_ & ? & _); [|apply Hok]. }
  destruct (insertBinding_ok _ _ _ _ _ _ _ Hok B1) as [Hok1 Hb]. rewrite E2. done.
Qed.

(** ** The operations *)

Inductive git_op :=
  | OpBind (user : option (Id * option permission_role)) (i : binding_input)
  | OpUnbind (user : option (Id * option permission_role)) (bindingId : Id)
  | OpPush (deliveryId repo branch sha : string).

Definition git_run (op : git_op) (now : Z) : tx git_store unit :=
  match op with
  | OpBind user i => git_bind user i now ≫= λ _, mret tt
  | OpUnbind user bindingId => git_unbind user bindingId now ≫= λ _, mret tt
  | OpPush deliveryId repo branch sha => acceptPush deliveryId repo branch sha now ≫= λ _, mret tt
  end.

Definition git_trace (s : git_store) (ops : list (git_op * Z)) : git_store := foldl (λ s o, commit (git_run o.1 o.2) s) s ops.

Lemma requirePermission_reads user p : acts eq (requirePermission user p).
Proof. unfold requirePermission. acts_walk ltac:(done). Qed.

Lemma on_infra_reads {A} (m : tx infra A) : acts eq m → acts eq (on_infra m).
Proof. intros Hm s a s' (p & H%Hm & ->)%on_infra_done. subst p. by destruct s as [[] ?]. Qed.

Lemma recordTombstone_platform kind key now s u s' : recordTombstone kind key now s = Done (u, s') → platform s' = platform s.
Proof.
  set (R := λ s s' : vault, platform s' = platform s).
  assert (PreOrder R) as HR by (split; [done|intros a b c E1 E2; unfold R in *; congruence]).
  apply (λ H, H : acts R (recordTombstone kind key now)). unfold recordTombstone. acts_walk ltac:(done).
Qed.

Lemma bindings_ok_delete t i : bindings_ok t → bindings_ok (t_del i t).
Proof.
  intros [Hwf Hone Hlim]. split.
  - by apply t_wf_del.
  - intros j k b b' Hj Hk. cbn in Hj, Hk. apply lookup_delete_Some in Hj as [_ Hj], Hk as [_ Hk]. by eapply Hone.
  - rewrite <- t_count_length in *. destruct (rows t !! i) as [b|] eqn:Ei.
    + pose proof (t_count_del (λ _, true) t i b Hwf Ei) as Hc. cbn [b2z] in Hc. lia.
    + replace (t_del i t) with t; [done|]. unfold t_del. destruct t as [r n]. cbn in *. by rewrite delete_id.
Qed.

(** The state a push changes: how a delivery is answered. *)
Lemma acceptPush_done deliveryId repo branch sha now s r s' : t_wf (deliveries s) → t_wf (bindings s) → t_wf (runs s) →
  acceptPush deliveryId repo branch sha now s = Done (r, s') →
  bindings s' = bindings s ∧
  match r with
  | PushDuplicate => s' = s ∧ ∃ i w, rows (deliveries s) !! i = Some w ∧ wd_deliveryId w = deliveryId
  | PushUnbound => infra_of s' = infra_of s ∧ (∀ i b, rows (bindings s) !! i = Some b → ¬ (gb_repoKey b = repoKey repo ∧ gb_branch b = branch)) ∧
      deliveries s' = t_add (push_row deliveryId (PushDelivery repo branch sha PushNoBinding None) now) (deliveries s)
  | PushRun id => (∀ i w, rows (deliveries s) !! i = Some w → wd_deliveryId w ≠ deliveryId) ∧
      deliveries s' = t_add (push_row deliveryId (PushDelivery repo branch sha PushQueued (Some id)) now) (deliveries s) ∧
      id = next_id (runs s) ∧ t_wf (runs s') ∧ (∀ j d, rows (runs s') !! j = Some d → j ≠ id → rows (runs s) !! j = Some d) ∧
      ∃ j b d, rows (bindings s) !! j = Some b ∧ gb_repoKey b = repoKey repo ∧ gb_branch b = branch ∧ rows (runs s') !! id = Some d ∧
        dp_app d = gb_app b ∧ dp_gitBindingId d = Some j ∧ dp_stage d = StQueued ∧
        dp_trigger d = Some (Trigger TrigGit (Some sha) (Some deliveryId) (Some "github:push")) ∧
        dp_source d = Some (SrcGit (gb_repo b) branch (if is_sha sha then Some sha else None))
  end.
Proof.
  intros Hwd Hwb Hwr H. unfold acceptPush in H. tx_bind_in H seen s1 B1. apply on_ci_done in B1 as (c & B1 & ->).
  apply unique_row in B1 as [-> Hseen]; [|done]. replace (s <| gs_ci := gs_ci s |>) with s in H by by destruct s.
  destruct seen as [[i w]|].
  - injection H as <- <-. split; [done|]. split; [done|]. destruct Hseen as [Hi Hd%bool_decide_eq_true]. eauto.
  - tx_bind_in H binding s1 B1. apply on_infra_done in B1 as (p & B1 & ->). unfold findBinding in B1. apply unique_row in B1 as [-> Hb]; [|done].
    replace (s <| gs_vault := ((gs_vault s) <| platform := platform (gs_vault s) |>) |>) with s in H by by destruct s as [[] ?].
    destruct binding as [[j b]|].
    + tx_bind_in H runId s1 B1. apply on_infra_done in B1 as (p & B1 & ->). pose proof (sb_createRun _ _ _ _ _ B1) as Eb.
      apply createRun_rows in B1 as (-> & Hwr' & Hold & d & Hd & Ha & Ht & Hs & Hg & Hst); [|done].
      tx_bind_in H k s2 B2. apply on_ci_done in B2 as (c & B2 & ->). injection B2 as _ <-. tx_bind_in H n s3 B3.
      apply on_infra_done in B3 as (q & B3 & ->). pose proof (sb_appendAudit _ _ _ _ _ B3) as Eq. pose proof (sr_appendAudit _ _ _ _ _ B3) as Er.
      injection H as <- <-. unfold bindings, runs, infra_of in *. cbn in *. split; [congruence|].
      destruct Hb as [Hj [Hk1 Hk2]%andb_true_iff]. apply bool_decide_eq_true in Hk1, Hk2. split_and!.
      * intros i w Hi Hw. apply Hseen in Hi. by apply bool_decide_eq_false in Hi.
      * done.
      * done.
      * by rewrite Er.
      * intros k' d' Hk'. rewrite Er in Hk'. eauto.
      * exists j, b, d. rewrite Er. by split_and!.
    + tx_bind_in H k s1 B1. apply on_ci_done in B1 as (c & B1 & ->). injection B1 as _ <-. injection H as <- <-. split; [done|]. split; [done|].
      split; [|done]. intros i b Hi [E1 E2]. apply Hb, andb_false_iff in Hi as [Hi|Hi]; by apply bool_decide_eq_false in Hi.
Qed.

(** ** One run per delivery *)

(** The run of a push, by the delivery that started it. *)
Definition started_by (d : app_deployment) (deliveryId : string) : Prop :=
  ∃ t, dp_trigger d = Some t ∧ tg_kind t = TrigGit ∧ tg_deliveryId t = Some deliveryId.

Record git_ok (s : git_store) : Prop := {
  go_bindings : bindings_ok (bindings s);
  go_deliveries : t_wf (deliveries s);
  go_runs : t_wf (runs s);
  go_known : ∀ i j w w', rows (deliveries s) !! i = Some w → rows (deliveries s) !! j = Some w' → wd_deliveryId w = wd_deliveryId w' → i = j;
  go_recorded : ∀ i d x, rows (runs s) !! i = Some d → started_by d x → ∃ k w, rows (deliveries s) !! k = Some w ∧ wd_deliveryId w = x;
  go_one : ∀ i j d e x, rows (runs s) !! i = Some d → rows (runs s) !! j = Some e → started_by d x → started_by e x → i = j;
}.

Lemma git_ok_infra s s' : bindings_ok (bindings s') → runs s' = runs s → deliveries s' = deliveries s → git_ok s → git_ok s'.
Proof. intros Hb Er Ed []. split; rewrite ?Er, ?Ed; done. Qed.

(** A new delivery keeps the deliveries distinct. *)
Lemma new_delivery s i j w w' row : (∀ i w, rows (deliveries s) !! i = Some w → wd_deliveryId w ≠ wd_deliveryId row) → git_ok s →
  rows (t_add row (deliveries s)) !! i = Some w → rows (t_add row (deliveries s)) !! j = Some w' → wd_deliveryId w = wd_deliveryId w' → i = j.
Proof.
  intros Hnew Hok. cbn. rewrite !lookup_insert_Some. intros [[<- <-]|[_ Hi]] [[<- <-]|[_ Hj]] E; [done|..|by eapply (go_known s Hok)].
  - by destruct (Hnew j w' Hj).
  - by destruct (Hnew i w Hi).
Qed.

Lemma added_delivery s row k w : t_wf (deliveries s) → rows (deliveries s) !! k = Some w → rows (t_add row (deliveries s)) !! k = Some w.
Proof. intros Hwf Hk. cbn. rewrite lookup_insert_ne; [done|]. intros <-. by rewrite t_wf_fresh in Hk. Qed.

Lemma acceptPush_ok deliveryId repo branch sha now s r s' : git_ok s → acceptPush deliveryId repo branch sha now s = Done (r, s') → git_ok s'.
Proof.
  intros Hok H. pose proof (acceptPush_done _ _ _ _ _ _ _ _ (go_deliveries s Hok) (bo_wf _ (go_bindings s Hok)) (go_runs s Hok) H) as [Eb Hr].
  assert (r ≠ PushDuplicate → ∀ i w, rows (deliveries s) !! i = Some w → wd_deliveryId w ≠ deliveryId) as Hnew.
  { unfold acceptPush in H. tx_bind_in H seen s1 B1. apply on_ci_done in B1 as (c & B1 & ->). apply unique_row in B1 as [-> Hseen]; [|apply Hok].
    destruct seen as [|]; [by injection H as <- _|]. intros _ i w Hi Ew. apply Hseen in Hi. by apply bool_decide_eq_false in Hi. }
  destruct r as [| |id].
  - by destruct Hr as [-> _].
  - destruct Hr as (Ei & _ & Ed). specialize (Hnew ltac:(done)). assert (runs s' = runs s) as Er by (unfold runs; by rewrite Ei).
    split; rewrite ?Ed, ?Eb, ?Er; [apply Hok|by apply t_wf_add, Hok|apply Hok|..|apply Hok].
    + intros i j w w' Hi Hj. intros E. eapply new_delivery; [| |exact Hi|exact Hj|exact E]; done.
    + intros i d x Hi Hx. destruct (go_recorded s Hok i d x Hi Hx) as (k & w & Hk & Hw). exists k, w. split; [|done]. by apply added_delivery; [apply Hok|].
  - destruct Hr as (_ & Ed & -> & Hwr & Hold & j & b & d & Hj & _ & _ & Hd & _ & _ & _ & Ht & _). specialize (Hnew ltac:(done)).
    assert (∀ i e x, rows (runs s') !! i = Some e → started_by e x →
      i = next_id (runs s) ∧ x = deliveryId ∨ rows (runs s) !! i = Some e ∧ x ≠ deliveryId) as Hcase.
    { intros i e x Hi Hx. destruct (decide (i = next_id (runs s))) as [->|Hne].
      - left. split; [done|]. rewrite Hd in Hi. injection Hi as <-. destruct Hx as (t & Et & _ & Ex). rewrite Ht in Et. injection Et as <-. by injection Ex.
      - right. pose proof (Hold i e Hi Hne) as Hi'. split; [done|]. intros ->.
        destruct (go_recorded s Hok i e deliveryId Hi' Hx) as (k & w & Hk & Hw). by destruct (Hnew k w Hk). }
    split; rewrite ?Ed, ?Eb; [apply Hok|by apply t_wf_add, Hok|done|..].
    + intros i k w w' Hi Hk E. eapply new_delivery; [| |exact Hi|exact Hk|exact E]; done.
    + intros i e x Hi Hx. destruct (Hcase i e x Hi Hx) as [[-> ->]|[Hi' _]].
      * eexists _, _. split; [apply lookup_insert_eq|done].
      * destruct (go_recorded s Hok i e x Hi' Hx) as (k & w & Hk & Hw). exists k, w. split; [|done]. by apply added_delivery; [apply Hok|].
    + intros i k e f x Hi Hk He Hf.
      destruct (Hcase i e x Hi He) as [[-> Hx]|[Hi' Hx]], (Hcase k f x Hk Hf) as [[-> Hy]|[Hk' Hy]]; try done. by eapply (go_one s Hok).
Qed.

Lemma git_run_ok op now s u s' : git_ok s → git_run op now s = Done (u, s') → git_ok s'.
Proof.
  intros Hok. destruct op as [user i|user bindingId|deliveryId repo branch sha]; cbn [git_run]; intros H; tx_bind_in H r s1 H1; injection H as _ <-.
  - unfold git_bind in H1. tx_bind_in H1 me s2 B2. apply on_infra_reads in B2 as <-; [|apply requirePermission_reads].
    apply on_infra_done in H1 as (p & H1 & ->). pose proof H1 as (_ & _ & _ & Hb & _)%bindBranch_ok; [|apply Hok].
    assert (same_runs (infra_of s) p) as Er.
    { revert H1. match goal with |- ?m _ = _ → _ => cut (acts same_runs m); [intros Ha; apply Ha|] end.
      pose proof sr_appendAudit. unfold bindBranch, insertBinding, bindingRefusal, findBinding, bound_node. acts_walk ltac:(done). }
    eapply git_ok_infra; [exact Hb|exact Er|done|done].
  - unfold git_unbind in H1. tx_bind_in H1 me s2 B2. apply on_infra_reads in B2 as <-; [|apply requirePermission_reads].
    tx_bind_in H1 binding s2 B2. apply on_infra_reads in B2 as <-; [|apply acts_get; typeclasses eauto]. destruct binding as [b|]; [|by injection H1 as _ <-].
    tx_bind_in H1 x s2 B2. injection H1 as _ <-. unfold unbindBranch in B2. tx_bind_in B2 y s3 B3. apply on_infra_done in B3 as (p & B3 & ->).
    apply db_delete_done in B3 as (d & _ & ->). tx_bind_in B2 z s4 B4. apply on_vault_done in B4 as (v & B4 & ->).
    apply recordTombstone_platform in B4 as Ep. tx_bind_in B2 n s5 B5. apply on_infra_done in B5 as (q & B5 & ->). injection B2 as _ <-.
    pose proof (sb_appendAudit _ _ _ _ _ B5) as Eq. pose proof (sr_appendAudit _ _ _ _ _ B5) as Er. unfold same_bindings, same_runs in *. cbn in *.
    rewrite Ep in Eq, Er. cbn in Eq, Er. eapply git_ok_infra; [|exact Er|done|done]. unfold bindings, infra_of. cbn. rewrite Eq.
    apply bindings_ok_delete, Hok.
  - by eapply acceptPush_ok.
Qed.

Lemma git_trace_ok s ops : git_ok s → git_ok (git_trace s ops).
Proof.
  revert s. induction ops as [|[op now] ops IH]; intros s Hok; [done|]. apply IH. cbn [fst snd].
  unfold commit. destruct (git_run op now s) as [[u s1]|] eqn:E; [by eapply git_run_ok|done].
Qed.

(** C25: a delivery starts at most one run.  After any sequence of binds, unbinds and deliveries, two
    runs of pushes never have the same delivery, and a delivery that is recorded, whatever it brought,
    is answered as a duplicate and changes nothing, however often GitHub sends it again. *)
Theorem one_run_per_delivery s ops (s' := git_trace s ops) : git_ok s →
  (∀ i j d e x, rows (runs s') !! i = Some d → rows (runs s') !! j = Some e → started_by d x → started_by e x → i = j) ∧
  (∀ deliveryId repo branch sha now r s1, acceptPush deliveryId repo branch sha now s' = Done (r, s1) →
     ∀ repo' branch' sha' now', acceptPush deliveryId repo' branch' sha' now' s1 = Done (PushDuplicate, s1)).
Proof.
  intros Hok0. pose proof (git_trace_ok s ops Hok0 : git_ok s') as Hok. split; [apply Hok|].
  intros deliveryId repo branch sha now r s1 H repo' branch' sha' now'. pose proof (acceptPush_ok _ _ _ _ _ _ _ _ Hok H) as Hok1.
  assert (∃ i w, rows (deliveries s1) !! i = Some w ∧ wd_deliveryId w = deliveryId) as (i & w & Hi & Hw).
  { apply acceptPush_done in H as [_ H]; [|apply Hok..]. destruct r as [| |id].
    - by destruct H as [-> H].
    - destruct H as (_ & _ & ->). eexists _, _. split; [apply lookup_insert_eq|done].
    - destruct H as (_ & -> & _). eexists _, _. split; [apply lookup_insert_eq|done]. }
  unfold acceptPush, on_ci. destruct (db_unique_total webhookDeliveries (λ d, wd_deliveryId d === deliveryId) (gs_ci s1)) as (row & Hrow & Hr).
  - apply Hok1.
  - intros k j d e Hk Hj Hd%bool_decide_eq_true He%bool_decide_eq_true. eapply (go_known s1 Hok1); [done..|congruence].
  - unfold mbind, tx_bind at 1. rewrite Hrow. destruct row as [|]; [by destruct s1|]. apply Hr, bool_decide_eq_false in Hi. done.
Qed.

(** No two bindings share a repository and branch, and there are at most two hundred.  The check
    and the insert are one transaction, so this holds after any sequence of binds, unbinds and
    deliveries by any callers, however they are interleaved. *)
Theorem bindings_are_unique s ops (s' := git_trace s ops) : git_ok s →
  (∀ i j b b', rows (bindings s') !! i = Some b → rows (bindings s') !! j = Some b' →
     gb_repoKey b = gb_repoKey b' → gb_branch b = gb_branch b' → i = j) ∧
  Z.of_nat (length (t_scan (bindings s'))) ≤ MAX_GIT_BINDINGS.
Proof.
  intros Hok. destruct (go_bindings _ (git_trace_ok s ops Hok)) as [_ Hone Hlim]. split; [|exact Hlim].
  intros i j b b' Hi Hj E1 E2. by eapply Hone.
Qed.

(** The payload of a push, as GitHub sends it. *)
Definition push_payload (repo branch sha : string) : json :=
  JObj [("ref", JStr (REFS_HEADS +:+ branch)); ("after", JStr sha); ("deleted", JBool false);
        ("repository", JObj [("full_name", JStr repo)])].

Lemma parsePush_payload repo branch sha : repo_ok repo = true → branchProblem branch = None →
  parsePush (push_payload repo branch sha) = Some (PushEvent repo branch sha).
Proof.
  intros Hr Hb. unfold parsePush, push_payload. cbn [member json_field]. 
  change (json_field "repository" _) with (Some (JObj [("full_name", JStr repo)])). cbn [mbind option_bind member].
  change (json_field "full_name" _) with (Some (JStr repo)). change (json_field "ref" _) with (Some (JStr (REFS_HEADS +:+ branch))).
  cbn iota. rewrite Hr. cbn [negb orb]. unfold starts_with. rewrite TestReportProperties.prefix_app. cbn [negb orb].
  change (json_field "deleted" _) with (Some (JBool false)). cbn iota. rewrite slice_from_app.
  change (json_field "after" _) with (Some (JStr sha)). unfold branchProblem in Hb. cbv zeta.
  destruct (Nat.eqb (String.length branch) 0); [done|]. destruct (Nat.ltb 255 (String.length branch)); done.
Qed.

(** C26: a bound branch receives its pushes.  Once a bind of a repository and branch committed, the
    payload of a push to that branch parses to that branch, and whoever binds or unbinds other
    branches in between is irrelevant as long as the binding is there: a new delivery of it is never
    answered as unbound, and when it commits it queues a run of the bound App from the bound
    repository, under that binding. *)
Theorem bound_branch_receives_pushes user i now s id s1 : git_ok s → git_bind user i now s = Done (id, s1) →
  (∀ sha, parsePush (push_payload (bi_repo i) (bi_branch i) sha) = Some (PushEvent (bi_repo i) (bi_branch i) sha)) ∧
  (∀ ops deliveryId repo sha at_ r s2, let s' := git_trace s1 ops in
     repoKey repo = repoKey (bi_repo i) → rows (bindings s1) !! id = rows (bindings s') !! id →
     (∀ k w, rows (deliveries s') !! k = Some w → wd_deliveryId w ≠ deliveryId) →
     acceptPush deliveryId repo (bi_branch i) sha at_ s' = Done (r, s2) →
     ∃ run d, r = PushRun run ∧ rows (runs s2) !! run = Some d ∧ dp_app d = bi_app i ∧ dp_gitBindingId d = Some id ∧ started_by d deliveryId).
Proof.
  intros Hok H. assert (git_ok s1) as Hok1.
  { eapply (git_run_ok (OpBind user i) now s tt). done. cbn [git_run]. by rewrite (bind_run _ _ _ _ _ H). }
  unfold git_bind in H. tx_bind_in H me s2 B2. apply on_infra_reads in B2 as <-; [|apply requirePermission_reads].
  apply on_infra_done in H as (p & H & Es). apply bindBranch_ok in H as (Hp & _ & Hr & _ & b & Hb & Ek & Ebr & Ea); [|apply Hok].
  assert (rows (bindings s1) !! id = Some b) as Hid by (rewrite Es; exact Hb). split; [intros sha; by apply parsePush_payload|].
  intros ops deliveryId repo sha at_ r s2 s' Ekey Hstill Hnew Hpush. pose proof (git_trace_ok s1 ops Hok1 : git_ok s') as Hok'.
  rewrite Hstill in Hid. apply acceptPush_done in Hpush as [_ Hres]; [|apply Hok'..]. destruct r as [| |run].
  - destruct Hres as (_ & k & w & Hk & Hw). by destruct (Hnew k w Hk).
  - destruct Hres as (_ & Hno & _). destruct (Hno id b Hid). split; congruence.
  - destruct Hres as (_ & _ & _ & _ & _ & j & b' & d & Hj & Ek' & Ebr' & Hd & Happ & Hg & _ & Ht & _).
    assert (j = id) as -> by (eapply (bo_one _ (go_bindings _ Hok')); [done..|]; split; congruence).
    assert (b' = b) as -> by congruence. exists run, d. split_and!; try done; [congruence|]. by eexists.
Qed.

(** ** Witnesses *)

Definition git_empty : git_store := GitStore (Vault infra_empty t_empty t_empty t_empty) db_empty.
Definition git_input : binding_input := BindingInput "Acme/Web" "main" "web" None None None None None None.
Definition git_admin : option (Id * option permission_role) := Some (0%nat, None).
Definition git_ops : list (git_op * Z) :=
  [(OpBind git_admin git_input, 1); (OpBind git_admin (BindingInput "acme/web" "main" "other" None None None None None None), 2);
   (OpPush "d1" "acme/web" "main" "abc", 3); (OpPush "d1" "acme/web" "main" "abc", 4); (OpPush "d2" "acme/web" "dev" "abc", 5)].

Lemma git_empty_ok : git_ok git_empty.
Proof. split; done. Qed.

Lemma one_run_per_delivery_witness :
  git_ok git_empty ∧ length (t_scan (runs (git_trace git_empty git_ops))) = 1%nat ∧
  ∀ r s1, acceptPush "d1" "acme/web" "main" "abc" 9 (git_trace git_empty git_ops) = Done (r, s1) →
    acceptPush "d1" "acme/web" "main" "abc" 10 s1 = Done (PushDuplicate, s1).
Proof.
  split; [exact git_empty_ok|]. split; [by vm_compute|]. intros r s1 H.
  exact (proj2 (one_run_per_delivery git_empty git_ops git_empty_ok) _ _ _ _ _ _ _ H _ _ _ _).
Defined.

Lemma bindings_are_unique_witness :
  length (t_scan (bindings (git_trace git_empty git_ops))) = 1%nat ∧
  Z.of_nat (length (t_scan (bindings (git_trace git_empty git_ops)))) ≤ MAX_GIT_BINDINGS.
Proof. split; [by vm_compute|]. exact (proj2 (bindings_are_unique git_empty git_ops git_empty_ok)). Defined.

Lemma bound_branch_receives_pushes_witness :
  match git_bind git_admin git_input 1 git_empty with
  | Done (id, s1) =>
      match acceptPush "d1" "acme/web" "main" "abc" 3 s1 with
      | Done (r, s2) => ∃ run d, r = PushRun run ∧ rows (runs s2) !! run = Some d ∧ dp_app d = "web"
      | Failed _ => False
      end
  | Failed _ => False
  end.
Proof.
  destruct (git_bind git_admin git_input 1 git_empty) as [[bindingId s1]|e] eqn:E; [|vm_compute in E; discriminate].
  destruct (acceptPush "d1" "acme/web" "main" "abc" 3 s1) as [[r s2]|e] eqn:P.
  - destruct (bound_branch_receives_pushes git_admin git_input 1 git_empty bindingId s1 git_empty_ok E) as [_ Hpush].
    destruct (Hpush [] "d1" "acme/web" "abc" 3 r s2) as (run & d & Hr & Hd & Ha & _).
    + by vm_compute.
    + reflexivity.
    + intros k w Hk. vm_compute in E. injection E as _ <-. vm_compute in Hk. discriminate.
    + exact P.
    + exists run, d. split; [exact Hr|]. split; [exact Hd|exact Ha].
  - vm_compute in E. injection E as _ <-. vm_compute in P. discriminate.
Defined.
