(* ===== verification/LogTails.v ===== *)
(** Log tails on request (packages/backend/convex/infra/logs.ts): an admin API token asks for the
    last lines of a container or a unit, the Node uploads them with the result of a command
    (NodeCommands.v), the token that asked reads them once, and unread ones expire.  With the
    permission check of API tokens (infra/access.ts). *)

From S2P Require Import Prelude JsLib JsText Schema HostLabels AppPolicy InfraSchema InfraStore Nodes DockerArgs AppSpecs NodeCommands Apps Accounts.

(** ** infra/access.ts *)

Definition scope_text (scope : token_scope) : string :=
  match scope with ScopeRead => "read" | ScopeAdmin => "admin" | ScopeMetrics => "metrics" end.

Definition requireTokenPermission (caller : api_caller) (p : permission) : tx infra string :=
  if can (PToken (cl_tokenId caller) (cl_scope caller)) p then mret ("token:" +:+ cl_name caller)
  else throw ("A " +:+ scope_text (cl_scope caller) +:+ " token does not allow " +:+ permission_text p).

(** ** logs.ts *)

Definition MAX_LOG_LINES : Z := 1000.
Definition DEFAULT_LOG_LINES : num := num_of_Z 100.
Definition LOG_TTL_MS : Z := 5 * 60000.

Record log_request := LogRequest {
  lq_app : option string;
  lq_service : option string;
  lq_node : option string;
  lq_unit : option string;
  lq_lines : option num;
}.

(** The service of an App a request names: the only one when it names none. *)
Definition requested_service (a : app_row) (service : option string) : option app_service :=
  match service with
  | None => match ap_services a with [s] => Some s | _ => None end
  | Some name => head (filter (λ s, sv_name s = name) (ap_services a))
  end.

(** A [ConvexError] is on the left; other errors throw. *)
Definition resolveTarget (q : log_request) : tx infra (string + Id * log_target) :=
  match lq_app q with
  | Some appName =>
      if is_some (lq_node q) || is_some (lq_unit q) then mret (inl "Ask for an App's service or a Node's unit, not both")
      else
        app ← app_named appName;
        match app with
        | Some (_, a) =>
            match requested_service a (lq_service q) with
            | None => mret (inl (match lq_service q with
                | None => ap_name a +:+ " has several services; name one (" +:+ str_join ", " (sv_name <$> ap_services a) +:+ ")"
                | Some service => ap_name a +:+ " has no service " +:+ service
                end))
            | Some sv => mret (inr (or_else (ap_nodeId a) (sv_nodeId sv),
                TargetContainer (ap_name a) (sv_name sv) (ap_name a +:+ "-" +:+ sv_name sv)))
            end
        | None =>
            route ← route_named appName;
            match route with
            | None => mret (inl ("No App named " +:+ appName))
            | Some (_, r) =>
                owner ← loadRouteOwner r;
                if negb (isSingleContainerRoute (rt_name r) owner) then mret (inl ("No App named " +:+ appName))
                else if match lq_service q with Some service => service !== rt_name r | None => false end then
                  mret (inl (rt_name r +:+ " has no service " +:+ or_else "" (lq_service q)))
                else mret (inr (rt_nodeId r, TargetContainer (rt_name r) (rt_name r) (rt_name r)))
            end
        end
  | None =>
      match lq_node q, lq_unit q with
      | Some nodeName, Some unit_ =>
          if is_some (lq_service q) then mret (inl "service goes with app, not with unit")
          else if negb (platform_unit unit_) then mret (inl "unit must be a platform unit, portless-* or erainfra-*")
          else
            node ← nodeByName nodeName;
            mret (match node with
                  | None => inl ("No Node named " +:+ nodeName)
                  | Some (i, _) => inr (i, TargetUnit unit_)
                  end)
      | _, _ => mret (inl "Send app (and service), or node and unit")
      end
  end.

Definition operationFor (target : log_target) (lines : Z) : node_operation :=
  match target with
  | TargetContainer _ _ container => NodeOperation "container.logs" (<["name" := container]> {["lines" := json_Z lines]})
  | TargetUnit unit_ => NodeOperation "service.logs" (<["unit" := unit_]> {["lines" := json_Z lines]})
  end.

(** What the request resolved to. *)
Record resolved_tail := ResolvedTail { rv_nodeId : Id; rv_target : log_target; rv_lines : Z; rv_node : node_doc }.

(** The body of the [try] block. *)
Definition resolve_request (q : log_request) (now : Z) : tx infra (string + resolved_tail) :=
  match num_integer (or_else DEFAULT_LOG_LINES (lq_lines q)) with
  | None => mret (inl "lines must be an integer from 1 to 1000")
  | Some lines =>
      if (lines <? 1) || (MAX_LOG_LINES <? lines) then mret (inl "lines must be an integer from 1 to 1000")
      else
        found ← resolveTarget q;
        match found with
        | inl e => mret (inl e)
        | inr (nodeId, target) =>
            node ← db_get nodes nodeId;
            match node with
            | None => mret (inl "The Node this runs on is gone")
            | Some n =>
                if negb (isNodeLive (nd_lastSeenAt n) now) then
                  mret (inl (match nd_lastSeenAt n with
                    | None => nd_name n +:+ " has not connected to Convex; read its logs through the Hub (portless logs)"
                    | Some _ => nd_name n +:+ " is offline"
                    end))
                else match validateOperation (operationFor target lines) with
                | Some e => mret (inl e)
                | None => mret (inr (ResolvedTail nodeId target lines n))
                end
            end
        end
  end.

(** What the request was about, for the audit row. *)
Definition describe_request (q : log_request) : option string :=
  match lq_app q with
  | Some app => Some app
  | None => (λ node, node +:+ "/" +:+ or_else "undefined" (lq_unit q)) <$> lq_node q
  end.

Definition target_json (t : log_target) : string :=
  match t with
  | TargetContainer app service container =>
      json_object [("kind", json_string "container"); ("app", json_string app); ("service", json_string service); ("container", json_string container)]
  | TargetUnit unit_ => json_object [("kind", json_string "unit"); ("unit", json_string unit_)]
  end.

Inductive request_result :=
  | TailRefused (error : string)
  | TailRequested (tailId : Id) (node : string) (target : log_target) (lines expiresAt : Z).

Definition requestTail (caller : api_caller) (q : log_request) (now : Z) : tx infra request_result :=
  actor ← requireTokenPermission caller NodeRun;
  resolved ← resolve_request q now;
  match resolved with
  | inl message =>
      appendAudit (AuditInput actor "logs.request" (describe_request q) AudDeny false
        (Some (json_object [("error", json_string message)])) None None) now ≫= λ _,
      mret (TailRefused message)
  | inr r =>
      tailId ← db_insert logTails (LogTail (cl_tokenId caller) (rv_nodeId r) None (rv_target r) (rv_lines r) LogPending None None now (now + LOG_TTL_MS));
      command ← insertNodeCommand (rv_nodeId r) ("logs:" +:+ id_text tailId) (CmdLogs (operationFor (rv_target r) (rv_lines r))) None None None now;
      db_patch logTails tailId (λ t, t <| lt_commandId := Some command.1 |>) ≫= λ _,
      infra_call_after (CallExpireTail tailId (now + LOG_TTL_MS)) ≫= λ _,
      appendAudit (AuditInput actor "logs.request" (describe_request q) AudAttempt false
        (Some (json_object [("logTailId", json_string (id_text tailId)); ("node", json_string (nd_name (rv_node r)));
          ("target", target_json (rv_target r)); ("lines", json_Z (rv_lines r))])) None None) now ≫= λ _,
      mret (TailRequested tailId (nd_name (rv_node r)) (rv_target r) (rv_lines r) (now + LOG_TTL_MS))
  end.

Definition discard (row : Id * log_tail) (now : Z) : tx infra unit :=
  db_delete logTails row.1 ≫= λ _,
  match lt_commandId row.2 with
  | None => mret tt
  | Some commandId =>
      command ← db_get nodeCommands commandId;
      match command with
      | Some c =>
          if (nq_status c === NPending) || (nq_status c === NRunning) then
            db_patch nodeCommands commandId (λ c, c <| nq_status := NCancelled |> <| nq_unsettled := false |> <| nq_finishedAt := Some now |>)
          else mret tt
      | None => mret tt
      end
  end.

Inductive tail_result :=
  | TailGone
  | TailPending (expiresAt : Z)
  | TailFailed
  | TailReady (text : string) (truncated : bool) (lines : Z) (target : log_target).

(** [tailId] is what the text of the request normalises to, none when it is no id of the table. *)
Definition consumeTail (caller : api_caller) (tailId : option Id) (now : Z) : tx infra tail_result :=
  actor ← requireTokenPermission caller NodeRun;
  row ← match tailId with Some i => row ← db_get logTails i; mret (pair i <$> row) | None => mret None end;
  match row with
  | None => mret TailGone
  | Some (i, t) =>
      if lt_requesterTokenId t !== cl_tokenId caller then mret TailGone
      else if lt_expiresAt t <=? now then discard (i, t) now ≫= λ _, mret TailGone
      else if lt_state t === LogPending then mret (TailPending (lt_expiresAt t))
      else
        db_delete logTails i ≫= λ _,
        appendAudit (entry actor "logs.read" (match lt_target t with TargetContainer app _ _ => app | TargetUnit unit_ => unit_ end)
          (if lt_state t === LogReady then AudSuccess else AudFailure)
          (Some (json_object [("logTailId", json_string (id_text i)); ("length", json_Z (Z.of_nat (String.length (or_else "" (lt_text t)))))]))) now ≫= λ _,
        mret (if lt_state t === LogFailed then TailFailed
              else TailReady (or_else "" (lt_text t)) (lt_truncated t === Some true) (lt_lines t) (lt_target t))
  end.

Definition expireTail (tailId : Id) (now : Z) : tx infra unit :=
  row ← db_get logTails tailId;
  match row with Some t => discard (tailId, t) now | None => mret tt end.
