(* ===== verification/LogProperties.v ===== *)
(** Properties of log tails: a tail reaches only the token that asked, once, and only its own Node
    fills it. *)

From S2P Require Import Prelude JsLib JsText Schema HostLabels AppPolicy InfraSchema InfraStore Nodes DockerArgs AppSpecs NodeCommands Frames CommandProperties Apps Accounts LogTails.

(** ** Ids of tails are never used again *)

Definition tails_fresh : relation infra := λ s s',
  (next_id (logTails s) ≤ next_id (logTails s'))%nat ∧
  ∀ i, (i < next_id (logTails s))%nat → rows (logTails s) !! i = None → rows (logTails s') !! i = None.
#[export] Instance tails_fresh_preorder : PreOrder tails_fresh.
Proof.
  split; [by split|]. intros a b c [L1 A1] [L2 A2]. split; [lia|]. intros i Hi Hn. apply A2; [lia|]. by apply A1.
Qed.

Lemma tf_same s s' : logTails s' = logTails s → tails_fresh s s'.
Proof. intros E. unfold tails_fresh. by rewrite E. Qed.
Lemma tf_add s t : tails_fresh s (upd logTails (t_add t) s).
Proof. split; cbn; [lia|]. intros i Hi Hn. by rewrite lookup_insert_ne by lia. Qed.
Lemma tf_set s i t t' : rows (logTails s) !! i = Some t → tails_fresh s (upd logTails (t_set i t') s).
Proof. intros Hi. split; cbn; [lia|]. intros j Hj Hn. rewrite lookup_insert_ne; [done|]. intros <-. congruence. Qed.
Lemma tf_del s i : tails_fresh s (upd logTails (t_del i) s).
Proof. split; cbn; [lia|]. intros j Hj Hn. rewrite lookup_delete_None. auto. Qed.

Ltac tf_leaf := first [apply tf_add | by eapply tf_set | apply tf_del | by apply tf_same].

(** ** Commands keep their Node *)

Definition commands_kept : relation infra := λ s s',
  (t_wf (nodeCommands s) → t_wf (nodeCommands s')) ∧
  ∀ c q, rows (nodeCommands s) !! c = Some q → t_wf (nodeCommands s) → ∃ q', rows (nodeCommands s') !! c = Some q' ∧ nq_nodeId q' = nq_nodeId q.
#[export] Instance commands_kept_preorder : PreOrder commands_kept.
Proof.
  split; [split; eauto|]. intros a b c [W1 A1] [W2 A2]. split; [auto|]. intros i q Hi Hw. destruct (A1 i q Hi Hw) as (q1 & H1 & E1).
  destruct (A2 i q1 H1 (W1 Hw)) as (q2 & H2 & E2). exists q2. split; [done|congruence].
Qed.

Lemma kept_same s s' : nodeCommands s' = nodeCommands s → commands_kept s s'.
Proof. intros E. unfold commands_kept. rewrite E. eauto. Qed.
Lemma kept_add s q : commands_kept s (upd nodeCommands (t_add q) s).
Proof.
  split; [by apply t_wf_add|]. intros c d Hc Hw. exists d. split; [|done]. cbn. rewrite lookup_insert_ne; [done|]. intros <-. by rewrite t_wf_fresh in Hc.
Qed.
Lemma kept_set s i q q' : rows (nodeCommands s) !! i = Some q → nq_nodeId q' = nq_nodeId q → commands_kept s (upd nodeCommands (t_set i q') s).
Proof.
  intros Hi E. split; [by eapply t_wf_set|]. intros c d Hc _. cbn. destruct (decide (c = i)) as [->|Hne].
  - rewrite lookup_insert_eq. exists q'. split; [done|congruence].
  - rewrite lookup_insert_ne by done. eauto.
Qed.

Ltac kept_leaf := first [apply kept_add | eapply kept_set; [done|by repeat case_match] | by apply kept_same].

Section tails.
Context (hashApiToken : string → string) (decodeUtf8 : string → string).

(** The operations on tails; [StepOther] is any operation of the platform that does not touch them
    and moves no command to another Node. *)
Inductive tail_step : relation infra :=
  | StepRequest caller q now s r s' : requestTail caller q now s = Done (r, s') → tail_step s s'
  | StepConsume caller i now s r s' : consumeTail caller i now s = Done (r, s') → tail_step s s'
  | StepExpire i now s u s' : expireTail i now s = Done (u, s') → tail_step s s'
  | StepReport cred c owner epoch outcome spec output truncated now s u s' :
      reportNodeCommand hashApiToken decodeUtf8 cred c owner epoch outcome spec output truncated now s = Done (u, s') → tail_step s s'
  | StepOther s s' : logTails s' = logTails s → commands_kept s s' → tail_step s s'.

Lemma tf_discard row now : acts tails_fresh (discard row now).
Proof. unfold discard. acts_walk ltac:(tf_leaf). Qed.

Lemma tail_step_fresh s s' : tail_step s s' → tails_fresh s s'.
Proof.
  destruct 1 as [caller q now s r s' H|caller i now s r s' H|i now s u s' H|cred c owner epoch outcome spec output truncated now s u s' H|s s' H _].
  - revert H. match goal with |- ?m _ = _ → _ => cut (acts tails_fresh m); [intros Ha; apply Ha|] end.
    unfold requestTail, requireTokenPermission, resolve_request, resolveTarget, app_named, route_named, loadRouteOwner, take_rows, nodeByName,
      insertNodeCommand, keyOK, command_with_key, infra_call_after, appendAudit, bumpCounter, readCounter, writeCounter, counterRow.
    acts_walk ltac:(tf_leaf).
  - revert H. match goal with |- ?m _ = _ → _ => cut (acts tails_fresh m); [intros Ha; apply Ha|] end. pose proof tf_discard.
    unfold consumeTail, requireTokenPermission, appendAudit, bumpCounter, readCounter, writeCounter, counterRow. acts_walk ltac:(tf_leaf).
  - revert H. match goal with |- ?m _ = _ → _ => cut (acts tails_fresh m); [intros Ha; apply Ha|] end. pose proof tf_discard.
    unfold expireTail. acts_walk ltac:(tf_leaf).
  - revert H. match goal with |- ?m _ = _ → _ => cut (acts tails_fresh m); [intros Ha; apply Ha|] end.
    unfold reportNodeCommand, claimed, ownCommand, appFence, requireNode, authenticateNode, recordLogOutput, tick_of, infra_call_after,
      appendAudit, bumpCounter, readCounter, writeCounter, counterRow. acts_walk ltac:(tf_leaf).
  - by apply tf_same.
Qed.

Lemma tail_step_kept s s' : tail_step s s' → commands_kept s s'.
Proof.
  destruct 1 as [caller q now s r s' H|caller i now s r s' H|i now s u s' H|cred c owner epoch outcome spec output truncated now s u s' H|s s' _ H].
  - revert H. match goal with |- ?m _ = _ → _ => cut (acts commands_kept m); [intros Ha; apply Ha|] end.
    unfold requestTail, requireTokenPermission, resolve_request, resolveTarget, app_named, route_named, loadRouteOwner, take_rows, nodeByName,
      insertNodeCommand, keyOK, command_with_key, infra_call_after, appendAudit, bumpCounter, readCounter, writeCounter, counterRow.
    acts_walk ltac:(kept_leaf).
  - revert H. match goal with |- ?m _ = _ → _ => cut (acts commands_kept m); [intros Ha; apply Ha|] end.
    unfold consumeTail, discard, requireTokenPermission, appendAudit, bumpCounter, readCounter, writeCounter, counterRow. acts_walk ltac:(kept_leaf).
  - revert H. match goal with |- ?m _ = _ → _ => cut (acts commands_kept m); [intros Ha; apply Ha|] end.
    unfold expireTail, discard. acts_walk ltac:(kept_leaf).
  - revert H. match goal with |- ?m _ = _ → _ => cut (acts commands_kept m); [intros Ha; apply Ha|] end.
    unfold reportNodeCommand, claimed, ownCommand, appFence, requireNode, authenticateNode, recordLogOutput, tick_of, infra_call_after,
      appendAudit, bumpCounter, readCounter, writeCounter, counterRow. acts_walk ltac:(kept_leaf).
  - done.
Qed.

(** A tail's command, when it has one, is on the tail's Node. *)
Record tails_ok (s : infra) : Prop := {
  tl_wf : t_wf (logTails s);
  tl_commands : t_wf (nodeCommands s);
  tl_bound : ∀ i t c, rows (logTails s) !! i = Some t → lt_commandId t = Some c → ∃ q, rows (nodeCommands s) !! c = Some q ∧ nq_nodeId q = lt_nodeId t;
}.

(** Tails keep whom they are for, where they come from and by which command. *)
Definition tails_kept : relation infra := λ s s',
  (t_wf (logTails s) → t_wf (logTails s')) ∧
  ∀ i t', rows (logTails s') !! i = Some t' → ∃ t, rows (logTails s) !! i = Some t ∧ lt_nodeId t' = lt_nodeId t ∧ lt_commandId t' = lt_commandId t ∧
    lt_requesterTokenId t' = lt_requesterTokenId t.
#[export] Instance tails_kept_preorder : PreOrder tails_kept.
Proof.
  split; [split; eauto|]. intros a b c [W1 A1] [W2 A2]. split; [auto|]. intros i t Hi. destruct (A2 i t Hi) as (t1 & H1 & E1 & F1 & G1).
  destruct (A1 i t1 H1) as (t2 & H2 & E2 & F2 & G2). exists t2. split_and!; [done|congruence..].
Qed.

Lemma tk_same s s' : logTails s' = logTails s → tails_kept s s'.
Proof. intros E. unfold tails_kept. rewrite E. split; [done|]. eauto 6. Qed.
Lemma tk_del s i : tails_kept s (upd logTails (t_del i) s).
Proof. split; [by apply t_wf_del|]. intros j t Hj. cbn in Hj. apply lookup_delete_Some in Hj as [_ Hj]. eauto 6. Qed.
Lemma tk_set s i t t' : rows (logTails s) !! i = Some t → lt_nodeId t' = lt_nodeId t → lt_commandId t' = lt_commandId t →
  lt_requesterTokenId t' = lt_requesterTokenId t → tails_kept s (upd logTails (t_set i t') s).
Proof.
  intros Hi E F G. split; [by eapply t_wf_set|]. intros j d Hj. cbn in Hj. apply lookup_insert_Some in Hj as [[<- <-]|[_ Hj]]; eauto 6.
Qed.
Ltac tk_leaf := first [apply tk_del | by eapply tk_set | by apply tk_same].

Lemma tails_ok_kept s s' : tails_kept s s' → commands_kept s s' → tails_ok s → tails_ok s'.
Proof.
  intros [Wt At] [Wc Ac] [Hw Hc Hb]. split; [auto|auto|]. intros i t c Hi Ht. destruct (At i t Hi) as (t0 & Hi0 & En & Ec & _).
  rewrite Ec in Ht. destruct (Hb i t0 c Hi0 Ht) as (q & Hq & Eq). destruct (Ac c q Hq Hc) as (q' & Hq' & Eq'). exists q'. split; [done|congruence].
Qed.

Lemma tk_discard row now : acts tails_kept (discard row now).
Proof. unfold discard. acts_walk ltac:(tk_leaf). Qed.

Lemma insertNodeCommand_node n k cmd app ae d now s r s' : t_wf (nodeCommands s) → insertNodeCommand n k cmd app ae d now s = Done (r, s') →
  logTails s' = logTails s ∧ ∃ q, rows (nodeCommands s') !! r.1 = Some q ∧ nq_nodeId q = n.
Proof.
  intros Hwf H. unfold insertNodeCommand in H. tx_bind_in H u s1 B1.
  assert (s1 = s) as -> by (unfold keyOK in B1; case_match; [|done]; by injection B1).
  tx_bind_in H prior s1 B2. unfold command_with_key in B2. apply unique_row in B2 as [-> Hp]; [|done]. destruct prior as [[c q]|].
  - case_match; [done|]. injection H as <- <-. split; [done|]. destruct Hp as [Hc [Hn _]%andb_true_iff]. apply bool_decide_eq_true in Hn. eauto.
  - tx_bind_in H queued s1 B3. injection B3 as <- <-. case_match; [done|]. tx_bind_in H id1 s1 B4. injection B4 as <- <-. injection H as <- <-.
    split; [done|]. eexists. split; [apply lookup_insert_eq|done].
Qed.

Definition same_tails : relation infra := λ s s', logTails s' = logTails s ∧ nodeCommands s' = nodeCommands s.
#[export] Instance same_tails_preorder : PreOrder same_tails.
Proof. split; [by split|]. intros a b c [E1 F1] [E2 F2]. split; congruence. Qed.

Lemma st_appendAudit e now : acts same_tails (appendAudit e now).
Proof. unfold appendAudit, bumpCounter, readCounter, writeCounter, counterRow. acts_walk ltac:(by split). Qed.

Lemma tails_ok_same s s' : same_tails s s' → tails_ok s → tails_ok s'.
Proof. intros [E F] []. split; rewrite ?E, ?F; done. Qed.

Lemma resolve_reads q now : acts eq (resolve_request q now).
Proof. unfold resolve_request, resolveTarget, app_named, route_named, loadRouteOwner, take_rows, nodeByName. acts_walk ltac:(done). Qed.
Lemma permission_reads caller p : acts eq (requireTokenPermission caller p).
Proof. unfold requireTokenPermission. acts_walk ltac:(done). Qed.

Lemma kept_insertNodeCommand n k cmd app ae d now : acts commands_kept (insertNodeCommand n k cmd app ae d now).
Proof. unfold insertNodeCommand, keyOK, command_with_key. acts_walk ltac:(kept_leaf). Qed.

(** What a request leaves behind: nothing but an audit row when it is refused, else a pending tail
    for the caller with a command on the tail's Node. *)
Lemma requestTail_done caller q now s r s' : tails_ok s → requestTail caller q now s = Done (r, s') →
  tails_ok s' ∧
  match r with
  | TailRefused _ => same_tails s s'
  | TailRequested i _ target lines expiresAt => i = next_id (logTails s) ∧ expiresAt = now + LOG_TTL_MS ∧
      CallExpireTail i expiresAt ∈ infraCalls s' ∧
      ∃ t c cmd, rows (logTails s') !! i = Some t ∧ lt_requesterTokenId t = cl_tokenId caller ∧ lt_state t = LogPending ∧ lt_target t = target ∧
        lt_lines t = lines ∧ lt_expiresAt t = expiresAt ∧ lt_commandId t = Some c ∧ rows (nodeCommands s') !! c = Some cmd ∧ nq_nodeId cmd = lt_nodeId t
  end.
Proof.
  intros Hok H. unfold requestTail in H. tx_bind_in H actor s1 B1. apply permission_reads in B1 as <-. tx_bind_in H resolved s1 B1.
  apply resolve_reads in B1 as <-. destruct resolved as [message|v].
  - tx_bind_in H n s1 B1. apply st_appendAudit in B1. injection H as <- <-. split; [by eapply tails_ok_same|done].
  - tx_bind_in H tailId s1 B1. injection B1 as <- <-. tx_bind_in H queued s2 B2. apply kept_insertNodeCommand in B2 as Hk.
    apply insertNodeCommand_node in B2 as (Et & cmd & Hcmd & En); [|apply Hok]. tx_bind_in H u s3 B3. apply db_patch_done in B3 as (t & Ht & ->).
    tx_bind_in H u' s4 B4. injection B4 as _ <-. tx_bind_in H n s5 B5. pose proof B5 as Hs%st_appendAudit. injection H as <- <-.
    rewrite Et in Ht. cbn in Ht. rewrite lookup_insert_eq in Ht. injection Ht as <-.
    assert (infraCalls s5 = infraCalls s2 ++ [CallExpireTail (next_id (logTails s)) (now + LOG_TTL_MS)]) as Ec.
    { revert B5. set (R := λ a b : infra, infraCalls b = infraCalls a). assert (PreOrder R) by (split; [done|intros a b c X Y; unfold R in *; congruence]).
      match goal with |- ?m ?st = _ → _ => cut (acts R m); [intros Ha E; exact (Ha _ _ _ E)|] end.
      unfold appendAudit, bumpCounter, readCounter, writeCounter, counterRow. acts_walk ltac:(done). }
    destruct Hk as [Wc Ac]. cbn in Wc, Ac. split.
    + eapply tails_ok_same; [exact Hs|]. split; cbn.
      * eapply t_wf_set; [|rewrite Et; by apply t_wf_add, Hok]. rewrite Et. apply lookup_insert_eq.
      * apply Wc, Hok.
      * intros j t c Hj Hc. rewrite Et in Hj. cbn in Hj. apply lookup_insert_Some in Hj as [[<- <-]|[Hne Hj]].
        -- injection Hc as <-. exists cmd. done.
        -- rewrite lookup_insert_ne in Hj by done. destruct (tl_bound s Hok j t c Hj Hc) as (q0 & Hq0 & Eq0).
           destruct (Ac c q0 Hq0) as (q1 & Hq1 & Eq1); [apply Hok|]. exists q1. split; [done|congruence].
    + split; [done|]. split; [done|]. split; [rewrite Ec; set_solver|]. destruct Hs as [Es1 Es2]. rewrite Es1, Es2. cbn. rewrite Et.
      eexists _, _, cmd. rewrite lookup_insert_eq. split_and!; try done.
Qed.

Lemma tail_step_ok s s' : tail_step s s' → tails_ok s → tails_ok s'.
Proof.
  intros Hstep Hok. pose proof (tail_step_kept _ _ Hstep) as Hk.
  destruct Hstep as [caller q now s r s' H|caller i now s r s' H|i now s u s' H|cred c owner epoch outcome spec output truncated now s u s' H|s s' E _].
  - by eapply requestTail_done.
  - eapply tails_ok_kept; [|done|done]. revert H. match goal with |- ?m _ = _ → _ => cut (acts tails_kept m); [intros Ha; apply Ha|] end.
    pose proof tk_discard. unfold consumeTail, requireTokenPermission, appendAudit, bumpCounter, readCounter, writeCounter, counterRow.
    acts_walk ltac:(tk_leaf).
  - eapply tails_ok_kept; [|done|done]. revert H. match goal with |- ?m _ = _ → _ => cut (acts tails_kept m); [intros Ha; apply Ha|] end.
    pose proof tk_discard. unfold expireTail. acts_walk ltac:(tk_leaf).
  - eapply tails_ok_kept; [|done|done]. revert H. match goal with |- ?m _ = _ → _ => cut (acts tails_kept m); [intros Ha; apply Ha|] end.
    unfold reportNodeCommand, claimed, ownCommand, appFence, requireNode, authenticateNode, recordLogOutput, tick_of, infra_call_after,
      appendAudit, bumpCounter, readCounter, writeCounter, counterRow. acts_walk ltac:(tk_leaf).
  - eapply tails_ok_kept; [by apply tk_same|done|done].
Qed.

(** ** Read once, by the token that asked *)

Definition delivered (r : tail_result) : bool := match r with TailReady _ _ _ _ | TailFailed => true | _ => false end.

(** The answer a settled tail gives. *)
Definition answer_of (t : log_tail) : tail_result :=
  if lt_state t === LogFailed then TailFailed
  else TailReady (or_else "" (lt_text t)) (lt_truncated t === Some true) (lt_lines t) (lt_target t).

Lemma consume_delivers caller i now s r s' : consumeTail caller i now s = Done (r, s') → delivered r = true →
  ∃ k t, i = Some k ∧ rows (logTails s) !! k = Some t ∧ lt_requesterTokenId t = cl_tokenId caller ∧ now < lt_expiresAt t ∧
    lt_state t ≠ LogPending ∧ r = answer_of t ∧ rows (logTails s') !! k = None ∧ next_id (logTails s') = next_id (logTails s).
Proof.
  intros H Hd. unfold consumeTail in H. tx_bind_in H actor s1 B1. apply permission_reads in B1 as <-. tx_bind_in H row s1 B1.
  destruct i as [k|]; [|injection B1 as <- <-; by injection H as <- _]. tx_bind_in B1 found s2 B2. injection B2 as Hf <-. injection B1 as <- <-.
  destruct found as [t|]; [|by injection H as <- _]. cbn [fmap option_fmap option_map] in H.
  destruct (lt_requesterTokenId t !== cl_tokenId caller) eqn:Er; [by injection H as <- _|]. apply negb_false_iff, bool_decide_eq_true in Er.
  destruct (Z.leb_spec (lt_expiresAt t) now) as [Hle|Hgt]; [tx_bind_in H u s2 B2; by injection H as <- _|].
  destruct (lt_state t === LogPending) eqn:Ep; [by injection H as <- _|]. apply bool_decide_eq_false in Ep.
  tx_bind_in H u s2 B2. apply db_delete_done in B2 as (d & _ & ->). tx_bind_in H n s3 B3. apply st_appendAudit in B3 as [Et _]. injection H as <- <-.
  exists k, t. rewrite Et. split_and!; try done. apply lookup_delete_eq.
Qed.

Lemma trace_fresh s s' : rtc tail_step s s' → tails_fresh s s'.
Proof. induction 1 as [s|s s1 s2 H _ IH]; [reflexivity|]. etrans; [by apply tail_step_fresh|done]. Qed.

(** C27: a log tail reaches only the token that asked, and once.  A read that returns text or a
    failure returns what the tail of the caller's own request holds, before its expiry; after it, and
    whatever is requested, read, reported or expires later, every read of that tail answers that it is
    gone.  Another token gets that answer too, and changes nothing. *)
Theorem log_tail_is_read_once caller i now s r s' : t_wf (logTails s) →
  consumeTail caller (Some i) now s = Done (r, s') → delivered r = true →
  (∃ t, rows (logTails s) !! i = Some t ∧ lt_requesterTokenId t = cl_tokenId caller ∧ now < lt_expiresAt t ∧ r = answer_of t) ∧
  (∀ s1, rtc tail_step s' s1 → ∀ other at_ r' s2, consumeTail other (Some i) at_ s1 = Done (r', s2) → r' = TailGone ∧ s2 = s1) ∧
  (∀ other at_ r' s2, cl_tokenId other ≠ cl_tokenId caller → consumeTail other (Some i) at_ s = Done (r', s2) → r' = TailGone ∧ s2 = s).
Proof.
  intros Hwf H Hd. apply consume_delivers in H as (k & t & [= <-] & Hi & Hreq & Hexp & _ & -> & Hgone & Hnext); [|done]. split_and!.
  - by exists t.
  - intros s1 [Hle Hfresh]%trace_fresh other at_ r' s2 H. assert (rows (logTails s1) !! i = None) as Hn.
    { apply Hfresh; [|done]. rewrite Hnext. by eapply Hwf. }
    unfold consumeTail in H. tx_bind_in H actor s3 B1. apply permission_reads in B1 as <-. tx_bind_in H row s3 B1. tx_bind_in B1 found s4 B2.
    injection B2 as <- <-. injection B1 as <- <-. rewrite Hn in H. injection H as <- <-. done.
  - intros other at_ r' s2 Hne H. unfold consumeTail in H. tx_bind_in H actor s3 B1. apply permission_reads in B1 as <-. tx_bind_in H row s3 B1.
    tx_bind_in B1 found s4 B2. injection B2 as <- <-. injection B1 as <- <-. rewrite Hi in H. cbn [fmap option_fmap option_map] in H.
    rewrite bool_decide_eq_false_2 in H by congruence. by injection H as <- <-.
Qed.

(** ** Filled by its own Node *)

(** The Node a credential authenticates. *)
Definition authenticates (s : infra) (credential : string) (node : Id) : Prop :=
  ∃ i c, rows (nodeCredentials s) !! i = Some c ∧ nc_tokenHash c = hashApiToken credential ∧ nc_revokedAt c = None ∧ nc_nodeId c = node.

Lemma ownCommand_authenticates cred c s q s' : ownCommand hashApiToken cred c s = Done (q, s') →
  s' = s ∧ rows (nodeCommands s) !! c = Some q ∧ authenticates s cred (nq_nodeId q).
Proof.
  intros H. unfold ownCommand in H. tx_bind_in H node s1 B1. unfold requireNode in B1. tx_bind_in B1 found0 s2 B2. unfold authenticateNode in B2.
  destruct (negb _); [injection B2 as <- <-; done|]. tx_bind_in B2 row s3 B3. apply db_unique_done in B3 as [-> Hrow]. injection B2 as <- <-.
  destruct row as [[i d]|]; [|done]. destruct (nc_revokedAt d) eqn:Er; cbn [is_some] in B1; [done|]. injection B1 as <- <-.
  tx_bind_in H found s4 B4. injection B4 as Hf <-. destruct found as [q0|]; [|done]. cbn [fst] in H.
  destruct (nq_nodeId q0 !== nc_nodeId d) eqn:En; [done|]. apply negb_false_iff, bool_decide_eq_true in En. injection H as <- <-. split; [done|]. split; [done|].
  assert ((i, d) ∈ t_where (λ c, nc_tokenHash c === hashApiToken cred) (nodeCredentials s)) as [Hi Hh%bool_decide_eq_true]%t_where_sound by (rewrite Hrow; left).
  exists i, d. split_and!; done.
Qed.

Lemma recordLogOutput_done c outcome output truncated s u s' : recordLogOutput decodeUtf8 c outcome output truncated s = Done (u, s') →
  s' = s ∨ ∃ i t t', rows (logTails s) !! i = Some t ∧ lt_commandId t = Some c ∧ lt_state t = LogPending ∧ s' = upd logTails (t_set i t') s.
Proof.
  intros H. unfold recordLogOutput in H. tx_bind_in H row s1 B1. apply db_unique_done in B1 as [-> Hrow]. destruct row as [[i t]|]; [|injection H as _ <-; by left].
  assert ((i, t) ∈ t_where (λ t, lt_commandId t === Some c) (logTails s)) as [Hi Hc%bool_decide_eq_true]%t_where_sound by (rewrite Hrow; left).
  destruct (lt_state t !== LogPending) eqn:Es; [injection H as _ <-; by left|]. apply negb_false_iff, bool_decide_eq_true in Es. right.
  case_match; [|case_match; [|done]; case_match; [done|]]; apply db_patch_done in H as (d & Hd & ->); eauto 8.
Qed.

(** C28: only its own Node fills a tail, and only once.  When a report of a command commits, every
    other tail is as it was, and a tail it changed was still waiting and is the tail of a command of
    the very Node whose credential sent the report.  The link of a tail to its Node's command is kept
    by every operation. *)
Theorem tail_is_filled_by_its_node s0 s : tails_ok s0 → rtc tail_step s0 s →
  ∀ cred c owner epoch outcome spec output truncated now u s',
  reportNodeCommand hashApiToken decodeUtf8 cred c owner epoch outcome spec output truncated now s = Done (u, s') →
  ∀ i t', rows (logTails s') !! i = Some t' → rows (logTails s) !! i = Some t' ∨
    ∃ t, rows (logTails s) !! i = Some t ∧ lt_state t = LogPending ∧ lt_commandId t = Some c ∧ authenticates s cred (lt_nodeId t).
Proof.
  intros Hok0 Hrun. assert (tails_ok s) as Hok by (induction Hrun; [done|eauto using tail_step_ok]). clear s0 Hok0 Hrun.
  intros cred c owner epoch outcome spec output truncated now u s' H i t' Hi. unfold reportNodeCommand in H. tx_bind_in H q s1 B1.
  apply ownCommand_authenticates in B1 as (-> & Hq & Hauth). case_match; [injection H as _ <-; by left|].
  tx_bind_in H q1 s1 B1. assert (s1 = s) as ->.
  { revert B1. match goal with |- ?m _ = _ → _ => cut (acts eq m); [intros Ha E; symmetry; by eapply Ha|] end.
    unfold claimed, ownCommand, appFence, requireNode, authenticateNode. acts_walk ltac:(done). }
  tx_bind_in H u1 s1 B2. assert (s1 = s) as -> by (revert B2; repeat case_match; intros [=]; done).
  tx_bind_in H u2 s1 B3. assert (s1 = s) as -> by (revert B3; repeat case_match; intros [=]; done).
  tx_bind_in H u3 s1 B4. assert (logTails s' = logTails s1) as E.
  { revert H. match goal with |- ?m _ = _ → _ => cut (acts (λ a b, logTails b = logTails a) m); [intros Ha; apply Ha|] end.
    assert (PreOrder (λ a b : infra, logTails b = logTails a)) by (split; [done|intros x y z X Y; congruence]).
    unfold tick_of, infra_call_after, appendAudit, bumpCounter, readCounter, writeCounter, counterRow. acts_walk ltac:(done). }
  rewrite E in Hi. destruct (is_logs (nq_command q)); cbn [when] in B4; [|injection B4 as _ <-; by left].
  apply recordLogOutput_done in B4 as [->|(j & t & t1 & Hj & Hc & Hs & ->)]; [by left|]. cbn in Hi. apply lookup_insert_Some in Hi as [[<- <-]|[Hne Hi]]; [|by left].
  right. exists t. split_and!; try done. destruct (tl_bound s Hok j t c Hj Hc) as (q' & Hq' & <-). by simplify_eq.
Qed.
End tails.

(** ** A tail from request to read *)

Module LogDemo.
Import CommandDemo.
Definition ops : api_caller := ApiCaller 7%nat "ops" ScopeAdmin.
Definition other : api_caller := ApiCaller 8%nat "other" ScopeAdmin.
Definition query : log_request := LogRequest None None (Some "mac-1") (Some "erainfra-agent") (Some (num_of_Z 10)).

Definition live : infra := commit (db_patch nodes 0%nat (λ n, n <| nd_lastSeenAt := Some 90 |>)) enrolled.
Definition requested : infra := commit (requestTail ops query 100) live.
Definition claimed_ : infra := commit (claimNodeCommand hash token 0%nat "agent-a" 110) requested.
Definition filled : infra :=
  commit (reportNodeCommand hash text token 0%nat "agent-a" 1 OutSuccess None (Some "aGk=") None 120) claimed_.
Definition read : infra := commit (consumeTail ops (Some 0%nat) 130) filled.

Lemma requested_done : requestTail ops query 100 live =
  Done (TailRequested 0%nat "mac-1" (TargetUnit "erainfra-agent") 10 300100, requested).
Proof. vm_compute. reflexivity. Qed.
Lemma tail_claimed_done : claimNodeCommand hash token 0%nat "agent-a" 110 requested = Done ((1, 60110), claimed_).
Proof. vm_compute. reflexivity. Qed.
Lemma filled_done : reportNodeCommand hash text token 0%nat "agent-a" 1 OutSuccess None (Some "aGk=") None 120 claimed_ = Done (tt, filled).
Proof. vm_compute. reflexivity. Qed.
Lemma read_done : consumeTail ops (Some 0%nat) 130 filled = Done (TailReady "hi" false 10 (TargetUnit "erainfra-agent"), read).
Proof. vm_compute. reflexivity. Qed.

Lemma live_ok : tails_ok live.
Proof. split; [intros i t; vm_compute; done|intros i t; vm_compute; done|]. intros i t c Hi. vm_compute in Hi. done. Qed.

Lemma one_row {D} (t : table D) d : rows t = {[0%nat := d]} → next_id t = 1%nat → t_wf t.
Proof. intros E F i x. rewrite E, F. intros [<- _]%lookup_singleton_Some. lia. Qed.
End LogDemo.
Import LogDemo.

Lemma log_tail_is_read_once_witness :
  (∃ t, rows (logTails filled) !! 0%nat = Some t ∧ lt_requesterTokenId t = 7%nat ∧ 130 < lt_expiresAt t ∧
     answer_of t = TailReady "hi" false 10 (TargetUnit "erainfra-agent")) ∧
  (∀ at_ r s2, consumeTail ops (Some 0%nat) at_ read = Done (r, s2) → r = TailGone) ∧
  ∃ r s2, consumeTail other (Some 0%nat) 125 filled = Done (r, s2) ∧ r = TailGone ∧ s2 = filled.
Proof.
  destruct (log_tail_is_read_once CommandDemo.hash CommandDemo.text ops 0%nat 130 filled (TailReady "hi" false 10 (TargetUnit "erainfra-agent")) read) as (H1 & H2 & H3);
    [eapply one_row; vm_compute; reflexivity|exact read_done|reflexivity|]. split_and!.
  - destruct H1 as (t & Hi & Hr & He & Ha). exists t. split; [exact Hi|]. split; [exact Hr|]. split; [exact He|exact (eq_sym Ha)].
  - intros at_ r s2 H. exact (proj1 (H2 read (rtc_refl _ _) ops at_ r s2 H)).
  - destruct (consumeTail other (Some 0%nat) 125 filled) as [[r s2]|] eqn:E; [|vm_compute in E; discriminate E]. exists r, s2. split; [reflexivity|].
    apply (H3 other 125 r s2); [discriminate|exact E].
Defined.

Lemma tail_is_filled_by_its_node_witness :
  (∃ t, rows (logTails filled) !! 0%nat = Some t ∧ lt_state t = LogReady) ∧
  ∃ t, rows (logTails claimed_) !! 0%nat = Some t ∧ lt_state t = LogPending ∧ lt_commandId t = Some 0%nat ∧
    authenticates CommandDemo.hash claimed_ CommandDemo.token (lt_nodeId t).
Proof.
  assert (rtc (tail_step CommandDemo.hash CommandDemo.text) live claimed_) as Hrun.
  { eapply rtc_l; [eapply StepRequest, requested_done|]. apply rtc_once. apply StepOther; [vm_compute; reflexivity|].
    split; [intros _; eapply one_row; vm_compute; reflexivity|]. intros c q Hc _.
    assert (∃ q0, rows (nodeCommands requested) = {[0%nat := q0]}) as [q0 E0] by (eexists; vm_compute; reflexivity).
    rewrite E0 in Hc. apply lookup_singleton_Some in Hc as [<- <-]. eexists. split; [vm_compute; reflexivity|].
    assert (nq_nodeId <$> rows (nodeCommands requested) !! 0%nat = Some 0%nat) as En by (vm_compute; reflexivity).
    rewrite E0, lookup_singleton_eq in En. injection En as ->. reflexivity. }
  destruct (rows (logTails filled) !! 0%nat) as [t|] eqn:E; [|vm_compute in E; discriminate E]. split.
  - exists t. split; [reflexivity|]. vm_compute in E. injection E as <-. reflexivity.
  - destruct (tail_is_filled_by_its_node _ _ live claimed_ live_ok Hrun _ _ _ _ _ _ _ _ _ _ _ filled_done 0%nat t E) as [H|H]; [|exact H].
    vm_compute in E, H. injection E as <-. discriminate H.
Defined.
