(* ===== verification/Cpuset.v ===== *)
(** CPU affinity of a Worker's containers (apps/action-runner-agent/cpuset.ts): the text of a set of
    CPUs, the allocator that hands out disjoint sets, and its reconciliation with the containers
    Docker is running.  The numbers of CPUs are integers; docker is a parameter. *)

From S2P Require Import Prelude JsLib Schema JsText InfraSchema InfraStore DecimalText.

Definition PROFILE_LABEL : string := "runner-center.profile".

(** ** The text of a set of CPUs *)

(** The outer loop from the end of the run [first]..[last] on. *)
Fixpoint cpu_runs (first last : Z) (rest : list Z) : list (Z * Z) :=
  match rest with
  | [] => [(first, last)]
  | core :: rest => if core =? last + 1 then cpu_runs first (last + 1) rest else (first, last) :: cpu_runs core core rest
  end.

Definition run_text (run : Z * Z) : string :=
  if run.1 =? run.2 then json_Z run.1 else json_Z run.1 +:+ "-" +:+ json_Z run.2.

Definition formatCpuset (cores : list Z) : string :=
  match to_sorted Z.sub (set_of cores) with
  | [] => ""
  | core :: rest => str_join "," (run_text <$> cpu_runs core core rest)
  end.

(** [/^(\d+)(?:-(\d+))?$/] *)
Definition all_digits (s : string) : bool := (s !== "") && str_all is_digit s.
Definition cpu_range (part : string) : option (string * option string) :=
  match str_split "-" part with
  | [first] => if all_digits first then Some (first, None) else None
  | [first; last] => if all_digits first && all_digits last then Some (first, Some last) else None
  | _ => None
  end.

Definition part_cores (part : string) : option (list Z) :=
  '(first, last) ← cpu_range part;
  first ← num_safe_integer (js_number first);
  last ← match last with None => Some first | Some last => num_safe_integer (js_number last) end;
  if last <? first then None else Some (seqZ first (last - first + 1)).

Definition parseCpuset (spec : string) : option (list Z) :=
  let trimmed := trim spec in
  if trimmed === "" then None
  else
    parts ← mapM part_cores (str_split "," trimmed);
    Some (to_sorted Z.sub (set_of (concat parts))).

(** ** The allocator *)

Record core_reservation := CoreReservation {
  cr_key : string;
  cr_cores : list Z;
  cr_spec : string;
  cr_containerName : option string;
  cr_adopted : bool;
}.

(** The free set is only read through [has], [size] and a sort; the map of holders is in the order
    they came. *)
Record allocator := Allocator {
  ca_total : Z;
  ca_free : gset Z;
  ca_held : list (string * core_reservation);
}.

Definition new_allocator (totalCores : num) : string + allocator :=
  match num_safe_integer totalCores with
  | Some n =>
      if n <? 1 then inl ("A Worker must have at least one core, not " +:+ num_text totalCores)
      else inr (Allocator n (list_to_set (seqZ 0 n)) [])
  | None => inl ("A Worker must have at least one core, not " +:+ num_text totalCores)
  end.

Definition freeCores (a : allocator) : Z := Z.of_nat (size (ca_free a)).
Definition has_key (key : string) (a : allocator) : bool := is_some (map_get key (ca_held a)).
Definition reservations (a : allocator) : list core_reservation := (ca_held a).*2.

(** [#record]: it throws before it changes anything. *)
Definition record_cores (key : string) (cores : list Z) (containerName : option string) (adopted : bool) : tx allocator core_reservation :=
  taken ← read (has_key key);
  if taken : bool then throw (key +:+ " already holds a core reservation on this Worker")
  else
    let reservation := CoreReservation key cores (formatCpuset cores) containerName adopted in
    modify (λ a, Allocator (ca_total a) (ca_free a ∖ list_to_set cores) (map_set key reservation (ca_held a))) ≫= λ _,
    mret reservation.

Definition lowest (n : Z) (free : gset Z) : list Z := take (Z.to_nat n) (to_sorted Z.sub (elements free)).

Definition reserve_cores (key : string) (vcpus : num) (containerName : option string) : tx allocator (option core_reservation) :=
  match num_safe_integer vcpus with
  | Some n =>
      if n <? 1 then throw (key +:+ " asked for " +:+ num_text vcpus +:+ " vCPUs, which is not a core count")
      else
        a ← read (λ a, a);
        if freeCores a <? n then mret None
        else record_cores key (lowest n (ca_free a)) containerName false ≫= λ r, mret (Some r)
  | None => throw (key +:+ " asked for " +:+ num_text vcpus +:+ " vCPUs, which is not a core count")
  end.

Definition hold_cores (key : string) (cores : list Z) (containerName : option string) : tx allocator (option core_reservation) :=
  a ← read (λ a, a);
  match cores with
  | [] => mret None
  | _ =>
      if negb (forallb (λ core, bool_decide (core ∈ ca_free a)) cores) then mret None
      else record_cores key cores containerName true ≫= λ r, mret (Some r)
  end.

Definition release_cores (key : string) : tx allocator bool :=
  a ← read (λ a, a);
  match map_get key (ca_held a) with
  | None => mret false
  | Some reservation =>
      modify (λ a, Allocator (ca_total a) (ca_free a ∪ list_to_set (cr_cores reservation)) (filter (λ e, e.1 ≠ key) (ca_held a))) ≫= λ _,
      mret true
  end.

(** ** Work that holds cores *)

Record core_request := CoreRequest { rq_key : string; rq_vcpus : option num; rq_containerName : option string }.

Definition exhausted (key : string) (vcpus : num) (a : allocator) : string :=
  key +:+ " needs " +:+ num_text vcpus +:+ " of this Worker's " +:+ json_Z (ca_total a) +:+ " CPUs but only " +:+ json_Z (freeCores a) +:+
  " are free; refusing rather than running it over-subscribed".

(** [body] is what happens until the promise settles, other work on the same allocator included; it
    resolves or rejects, and what it did to the allocator stays in either case. *)
Definition withCores {T} (request : core_request) (body : option core_reservation → allocator → (exn + T) * allocator)
    (a : allocator) : (exn + T) * allocator :=
  match rq_vcpus request with
  | None => body None a
  | Some vcpus =>
      match reserve_cores (rq_key request) vcpus (rq_containerName request) a with
      | Failed e => (inl e, a)
      | Done (None, a') => (inl (Thrown (exhausted (rq_key request) vcpus a')), a')
      | Done (Some reservation, a') =>
          let '(result, a'') := body (Some reservation) a' in
          (result, commit (release_cores (rq_key request)) a'')
      end
  end.

(** ** Reconciliation with Docker *)

Record docker_result := DockerResult { dr_exitCode : Z; dr_stdout : string }.

Definition line_feed : ascii := ascii_of_nat 10.
Definition tab : ascii := ascii_of_nat 9.

Definition PS_ARGS : list string := ["ps"; "--filter"; "label=" +:+ PROFILE_LABEL; "--format"; "{{.Names}}"].
Definition INSPECT_FORMAT : string := "{{.Name}}" +:+ String tab "{{.HostConfig.CpusetCpus}}".

Definition container_names (stdout : string) : list string :=
  filter (λ line, line ≠ "") (trim <$> str_split line_feed stdout).

(** The loop over the inspected lines: the live containers with their cores, the unpinned ones. *)
Definition inspect_line (seen : list (string * list Z) * list string) (line : string) : list (string * list Z) * list string :=
  match str_split tab line with
  | rawName :: rawCpuset :: _ =>
      let trimmed := trim rawName in
      let name := if starts_with "/" trimmed then slice_from 1 trimmed else trimmed in
      if name === "" then seen
      else match parseCpuset rawCpuset with
      | None => (seen.1, seen.2 ++ [name])
      | Some cores => (map_set name cores seen.1, seen.2)
      end
  | _ => seen
  end.

Definition inspect_containers (runDocker : list string → docker_result) (names : list string) : list (string * list Z) * list string :=
  match names with
  | [] => ([], [])
  | _ => foldl inspect_line ([], []) (str_split line_feed (dr_stdout (runDocker (["inspect"; "--format"; INSPECT_FORMAT] ++ names))))
  end.

(** Release an adopted reservation whose container is gone. *)
Definition release_gone (live : list (string * list Z)) (released : list string) (r : core_reservation) : tx allocator (list string) :=
  if negb (cr_adopted r) then mret released
  else if match cr_containerName r with Some name => is_some (map_get name live) | None => false end then mret released
  else
    release_cores (cr_key r) ≫= λ _,
    mret (released ++ option_list (cr_containerName r)).

Definition adopt (accounted : list string) (adopted : list string) (container : string * list Z) : tx allocator (list string) :=
  if bool_decide (container.1 ∈ accounted) then mret adopted
  else
    held ← hold_cores ("container:" +:+ container.1) container.2 (Some container.1);
    mret (match held with None => adopted | Some _ => adopted ++ [container.1] end).

Record docker_reconcile := ReconcileResult { rr_adopted : list string; rr_released : list string; rr_unpinned : list string }.

Definition reconcileDockerReservations (runDocker : list string → docker_result) : tx allocator docker_reconcile :=
  let listed := runDocker PS_ARGS in
  if negb (dr_exitCode listed =? 0) then
    throw ("docker ps exited " +:+ json_Z (dr_exitCode listed) +:+ " while reconciling core reservations")
  else
    let '(live, unpinned) := inspect_containers runDocker (container_names (dr_stdout listed)) in
    held ← read reservations;
    released ← fold_tx (release_gone live) [] held;
    held ← read reservations;
    adopted ← fold_tx (adopt (omap cr_containerName held)) [] live;
    mret (ReconcileResult adopted released unpinned).

Example cpuset_texts :
  formatCpuset [3; 1; 0; 2] = "0-3" ∧ formatCpuset [0; 1; 4; 5] = "0-1,4-5" ∧ formatCpuset [0; 2; 4] = "0,2,4" ∧ formatCpuset [] = "" ∧
  parseCpuset " 0-1,4-5" = Some [0; 1; 4; 5] ∧ parseCpuset "3,1-2,2" = Some [1; 2; 3] ∧
  forallb (λ s, is_none (parseCpuset s)) [""; "  "; "a"; "0-"; "-1"; "1-0"; "0,,1"; "0-3,x"; "0.5"; "0 1"] = true.
Proof. vm_compute. split_and!; reflexivity. Qed.
