(* ===== verification/CpusetProperties.v ===== *)
(** Theorems about a Worker's CPU sets: the text of a set is read back, no core has two holders
    through any use of the allocator, work gives its cores back, and a reconciliation accounts for
    the containers Docker runs. *)

From S2P Require Import Prelude JsLib Schema JsText InfraSchema InfraStore DecimalText Cpuset.

(** ** The text of a set *)

#[export] Instance Z_sub_consistent : Consistent Z.sub.
Proof. split; lia. Qed.

(** The members of a set in increasing order. *)
Definition ascending (cores : list Z) : list Z := to_sorted Z.sub (set_of cores).

Lemma elem_of_ascending c cores : c ∈ ascending cores ↔ c ∈ cores.
Proof. unfold ascending. by rewrite elem_of_to_sorted, elem_of_set_of. Qed.

Lemma sorted_strict l : NoDup l → StronglySorted (λ a b, a - b ≤ 0) l → StronglySorted Z.lt l.
Proof.
  intros Hnd. induction 1 as [|x l Hs IH Hall]; constructor; inversion Hnd as [|?? Hx Hnd']; subst; [by apply IH|].
  rewrite Forall_forall in Hall |- *. intros y Hy. specialize (Hall y Hy). assert (y ≠ x) by (by intros ->). lia.
Qed.

Lemma NoDup_ascending cores : NoDup (ascending cores).
Proof. unfold ascending. rewrite to_sorted_perm. apply NoDup_set_of. Qed.
Lemma ascending_sorted cores : StronglySorted Z.lt (ascending cores).
Proof. apply sorted_strict; [apply NoDup_ascending|]. apply (to_sorted_sorted _ (λ _, True)). by apply Forall_true. Qed.

Lemma strict_NoDup l : StronglySorted Z.lt l → NoDup l.
Proof.
  induction 1 as [|x l Hs IH Hall]; constructor; [|done]. intros Hx. rewrite Forall_forall in Hall. specialize (Hall x Hx). lia.
Qed.
Lemma ascending_id l : StronglySorted Z.lt l → ascending l = l.
Proof.
  intros Hs. unfold ascending. rewrite set_of_NoDup by by apply strict_NoDup. apply to_sorted_id.
  eapply StronglySorted_weaken; [|exact Hs]. cbn. lia.
Qed.

Definition span_of (run : Z * Z) : list Z := seqZ run.1 (run.2 - run.1 + 1).

Lemma cpu_runs_spans first last rest : first ≤ last → StronglySorted Z.lt (last :: rest) →
  concat (span_of <$> cpu_runs first last rest) = seqZ first (last - first + 1) ++ rest.
Proof.
  revert first last. induction rest as [|c rest IH]; intros first last Hle Hs; cbn [cpu_runs]; [done|].
  inversion Hs as [|?? Hs' Hall]; subst. apply Forall_cons in Hall as [Hlt _]. destruct (Z.eqb_spec c (last + 1)) as [->|Hne].
  - rewrite IH by (lia || done). replace (last + 1 - first + 1) with ((last - first + 1) + 1) by lia. rewrite seqZ_app by lia.
    rewrite <- app_assoc. do 2 f_equal. rewrite seqZ_cons by lia. cbn. f_equal. lia.
  - cbn [fmap list_fmap concat]. unfold span_of at 1. cbn [fst snd]. rewrite IH by (lia || done). f_equal.
    replace (c - c + 1) with 1 by lia. done.
Qed.

Lemma cpu_runs_bounds (P : Z → Prop) first last rest : P first → P last → Forall P rest → first ≤ last → StronglySorted Z.lt (last :: rest) →
  Forall (λ run, P run.1 ∧ P run.2 ∧ run.1 ≤ run.2) (cpu_runs first last rest).
Proof.
  revert first last. induction rest as [|c rest IH]; intros first last Hf Hl Hr Hle Hs; cbn [cpu_runs]; [by repeat constructor|].
  inversion Hs as [|?? Hs' Hall]; subst. apply Forall_cons in Hr as [Hc Hr]. apply Forall_cons in Hall as [Hlt _].
  destruct (Z.eqb_spec c (last + 1)) as [->|Hne]; [apply IH; (done || lia)|]. constructor; [done|]. apply IH; (done || lia).
Qed.

Definition cpu_id (c : Z) : Prop := 0 ≤ c ≤ MAX_SAFE_INTEGER.

Lemma safe_js_number c : cpu_id c → num_safe_integer (js_number (json_Z c)) = Some c.
Proof.
  intros [H0 Hc]. rewrite js_number_nonneg by (unfold MAX_SAFE_INTEGER in Hc; lia). unfold num_safe_integer. rewrite num_integer_of_Z. unfold is_safe.
  rewrite (proj2 (Z.leb_le _ _)), (proj2 (Z.leb_le _ _)) by (unfold MAX_SAFE_INTEGER in *; lia). done.
Qed.

Lemma digits_all_digits c : 0 ≤ c → all_digits (json_Z c) = true.
Proof.
  intros [Hne Hd]%json_Z_digits. unfold all_digits. apply andb_true_iff. split; [by rewrite bool_decide_eq_false_2|by apply str_chars_all].
Qed.
Lemma digits_no_char sep c : 0 ≤ c → is_digit sep = false → no_char sep (json_Z c).
Proof.
  intros [_ Hd]%json_Z_digits Hsep. unfold no_char, str_has. unfold str_chars in Hd. apply not_true_is_false. rewrite existsb_exists.
  intros (x & Hx%list_elem_of_In & Heq%Ascii.eqb_eq). rewrite Forall_forall in Hd. specialize (Hd x Hx). subst. congruence.
Qed.

Lemma no_char_app sep a b : no_char sep a → no_char sep b → no_char sep (a +:+ b).
Proof. unfold no_char, str_has. intros Ha Hb. by rewrite list_ascii_app, existsb_app, Ha, Hb. Qed.

Lemma part_cores_run run : cpu_id run.1 → cpu_id run.2 → run.1 ≤ run.2 → part_cores (run_text run) = Some (span_of run).
Proof.
  destruct run as [a b]. cbn [fst snd]. intros Ha Hb Hle. unfold part_cores, cpu_range, run_text. cbn [fst snd].
  pose proof (digits_no_char "-" a ltac:(apply Ha) eq_refl) as Na. pose proof (digits_no_char "-" b ltac:(apply Hb) eq_refl) as Nb.
  destruct (Z.eqb_spec a b) as [<-|Hne].
  - change (json_Z a) with (str_join (String "-" "") [json_Z a]) at 1. rewrite str_split_join by (done || by repeat constructor). rewrite digits_all_digits by apply Ha. cbn.
    rewrite safe_js_number by done. cbn. destruct (Z.ltb_spec a a); [lia|done].
  - change (json_Z a +:+ "-" +:+ json_Z b) with (str_join (String "-" "") [json_Z a; json_Z b]).
    rewrite str_split_join by (done || by repeat constructor). rewrite !digits_all_digits by (apply Ha || apply Hb). cbn.
    rewrite safe_js_number by done. cbn. rewrite safe_js_number by done. cbn. destruct (Z.ltb_spec b a); [lia|done].
Qed.

Lemma run_text_clean run : cpu_id run.1 → cpu_id run.2 → no_char "," (run_text run) ∧ str_chars (λ c, is_space c = false) (run_text run) ∧ run_text run ≠ "".
Proof.
  intros [Ha _] [Hb _]. pose proof (digits_no_char "," _ Ha eq_refl). pose proof (digits_no_char "," _ Hb eq_refl).
  destruct (json_Z_digits _ Ha) as [Hne Da], (json_Z_digits _ Hb) as [_ Db].
  assert (∀ s, str_chars (λ c, is_digit c = true) s → str_chars (λ c, is_space c = false) s) as Hsp.
  { intros s Hs. eapply Forall_impl; [exact Hs|]. intros x Hx%digit_range. unfold is_space. cbv zeta.
    destruct (Z.leb_spec (ch x) 13), (Z.eqb_spec (ch x) 32), (Z.eqb_spec (ch x) 160); try lia; by rewrite andb_false_r. }
  unfold run_text. destruct (run.1 =? run.2); split_and!; auto.
  - apply no_char_app; [done|]. by apply (no_char_app "," "-").
  - rewrite !str_chars_app. split_and!; auto. by repeat constructor.
  - by destruct (json_Z run.1).
Qed.

(** A set of CPUs is read back from its text.  For every non-empty list of CPU ids, in any order
    and with repetitions, parsing the text Docker is given yields exactly its members in increasing
    order. *)
Theorem cpuset_roundtrip cores : cores ≠ [] → Forall cpu_id cores → parseCpuset (formatCpuset cores) = Some (ascending cores).
Proof.
  intros Hne Hall. unfold formatCpuset. fold (ascending cores). pose proof (ascending_sorted cores) as Hs.
  assert (Forall cpu_id (ascending cores)) as Hid.
  { rewrite Forall_forall in Hall |- *. intros c Hc. by apply Hall, elem_of_ascending. }
  destruct (ascending cores) as [|c rest] eqn:E.
  { destruct cores as [|c cores]; [done|]. assert (c ∈ ascending (c :: cores)) as Hc by (apply elem_of_ascending; left). rewrite E in Hc. by apply elem_of_nil in Hc. }
  apply Forall_cons in Hid as [Hc Hrest]. pose proof (cpu_runs_bounds cpu_id c c rest Hc Hc Hrest ltac:(lia) Hs) as Hb.
  pose proof (cpu_runs_spans c c rest ltac:(lia) Hs) as Hspans. replace (c - c + 1) with 1 in Hspans by lia. change (seqZ c 1 ++ rest) with (c :: rest) in Hspans.
  set (runs := cpu_runs c c rest) in *. assert (runs ≠ []) as Hruns by (intros Er; by rewrite Er in Hspans).
  set (parts := run_text <$> runs). assert (Forall (λ p, no_char "," p ∧ str_chars (λ c, is_space c = false) p ∧ p ≠ "") parts) as Hparts.
  { unfold parts. apply Forall_fmap. eapply Forall_impl; [exact Hb|]. intros run (Ha & Hb' & _). by apply run_text_clean. }
  assert (parts ≠ []) as Hpne by (unfold parts; by destruct runs). unfold parseCpuset. rewrite trim_id.
  2:{ apply str_chars_join; [by repeat constructor|]. eapply Forall_impl; [exact Hparts|]. by intros p (_ & ? & _). }
  rewrite bool_decide_eq_false_2.
  2:{ destruct parts as [|p parts']; [done|]. apply Forall_cons in Hparts as [(_ & _ & Hp) _]. by destruct parts', p. }
  rewrite (str_split_join "," parts) by (done || (eapply Forall_impl; [exact Hparts|]; by intros p (? & _ & _))).
  assert (mapM part_cores parts = Some (span_of <$> runs)) as ->.
  { apply mapM_Some. unfold parts. clear -Hb. induction Hb as [|run runs (Ha & Hb & Hle) _ IH]; constructor; [|done]. by apply part_cores_run. }
  cbn. rewrite Hspans. f_equal. by apply ascending_id.
Qed.

(** ** The allocator *)

(** A partition: every core of the Worker is free or has exactly one holder. *)
Record alloc_ok (a : allocator) : Prop := {
  ao_total : 1 ≤ ca_total a ≤ MAX_SAFE_INTEGER;
  ao_keys : NoDup (ca_held a).*1;
  ao_key k r : (k, r) ∈ ca_held a → cr_key r = k ∧ cr_spec r = formatCpuset (cr_cores r) ∧ cr_cores r ≠ [];
  ao_free c : c ∈ ca_free a → 0 ≤ c < ca_total a;
  ao_held k r c : (k, r) ∈ ca_held a → c ∈ cr_cores r → 0 ≤ c < ca_total a ∧ c ∉ ca_free a;
  ao_disjoint k r k' r' c : (k, r) ∈ ca_held a → (k', r') ∈ ca_held a → c ∈ cr_cores r → c ∈ cr_cores r' → k = k';
  ao_covered c : 0 ≤ c < ca_total a → c ∈ ca_free a ∨ ∃ k r, (k, r) ∈ ca_held a ∧ c ∈ cr_cores r;
}.

Lemma map_get_in k (m : list (string * core_reservation)) r : NoDup m.*1 → (k, r) ∈ m → map_get k m = Some r.
Proof.
  intros Hnd Hin. destruct (map_get k m) as [r'|] eqn:E.
  - apply map_get_elem in E. f_equal. apply list_elem_of_lookup in Hin as [i Hi], E as [j Hj].
    assert (i = j) as ->; [|by rewrite Hi in Hj; injection Hj].
    eapply (NoDup_lookup m.*1); [done| |]; rewrite list_lookup_fmap; [by rewrite Hi|by rewrite Hj].
  - apply map_get_none in E. exfalso. apply E, list_elem_of_fmap. by exists (k, r).
Qed.

Lemma has_key_false k a : has_key k a = false → k ∉ (ca_held a).*1.
Proof. unfold has_key. destruct (map_get k (ca_held a)) eqn:E; [done|]. by apply map_get_none in E. Qed.

Lemma new_allocator_ok n a : new_allocator n = inr a → alloc_ok a ∧ ca_held a = [] ∧ num_safe_integer n = Some (ca_total a).
Proof.
  unfold new_allocator. destruct (num_safe_integer n) as [z|] eqn:Ez; [|done]. destruct (Z.ltb_spec z 1) as [|Hz]; [done|]. intros [= <-].
  assert (z ≤ MAX_SAFE_INTEGER) as Hs.
  { unfold num_safe_integer in Ez. destruct (num_integer n) as [y|]; [|done]. cbn in Ez. destruct (is_safe y) eqn:Hy; [|done]. injection Ez as ->.
    apply andb_true_iff in Hy as [_ Hy%Z.leb_le]. done. }
  split; [|done]. split; cbn; [lia|constructor|by intros k r ?%elem_of_nil| | | |].
  - intros c Hc. apply elem_of_list_to_set, elem_of_seqZ in Hc. lia.
  - by intros k r c ?%elem_of_nil.
  - by intros k r k' r' c ?%elem_of_nil.
  - intros c Hc. left. apply elem_of_list_to_set, elem_of_seqZ. lia.
Qed.

Lemma record_cores_done key cores name adopted a r a' : alloc_ok a → cores ≠ [] → (∀ c, c ∈ cores → c ∈ ca_free a) →
  record_cores key cores name adopted a = Done (r, a') →
  alloc_ok a' ∧ key ∉ (ca_held a).*1 ∧ r = CoreReservation key cores (formatCpuset cores) name adopted ∧ ca_total a' = ca_total a ∧
  ca_free a' = ca_free a ∖ list_to_set cores ∧ ca_held a' = ca_held a ++ [(key, r)].
Proof.
  intros [] Hne Hfree H. unfold record_cores in H. tx_bind_in H taken a1 B1. injection B1 as Hk <-. destruct taken; [done|].
  apply has_key_false in Hk. tx_bind_in H u a1 B2. injection B2 as _ <-. injection H as <- <-.
  assert (∀ (r : core_reservation), map_set key r (ca_held a) = ca_held a ++ [(key, r)]) as Eset
    by (intros r; unfold map_set; by rewrite bool_decide_eq_false_2).
  cbn. rewrite Eset. split; [|by split_and!]. split; cbn; rewrite ?Eset; [done| | | | | |].
  - rewrite fmap_app. apply NoDup_app. split_and!; [done| |apply NoDup_singleton]. intros x Hx ->%list_elem_of_singleton. done.
  - intros k r [Hr|[= -> ->]%list_elem_of_singleton]%elem_of_app; [auto|done].
  - intros c [Hc _]%elem_of_difference. auto.
  - intros k r c [Hr|[= -> ->]%list_elem_of_singleton]%elem_of_app Hc.
    + destruct (ao_held0 k r c Hr Hc) as [? ?]. split; [done|]. by intros [? _]%elem_of_difference.
    + split; [by apply ao_free0, Hfree|]. intros [_ Hn]%elem_of_difference. by apply Hn, elem_of_list_to_set.
  - intros k r k' r' c [Hr|[= -> ->]%list_elem_of_singleton]%elem_of_app [Hr'|[= -> ->]%list_elem_of_singleton]%elem_of_app Hc Hc'; [by eapply ao_disjoint0| | |done].
    + exfalso. cbn in Hc'. destruct (ao_held0 k r c Hr Hc) as [_ []]. by apply Hfree.
    + exfalso. cbn in Hc. destruct (ao_held0 k' r' c Hr' Hc') as [_ []]. by apply Hfree.
  - intros c Hc. destruct (decide (c ∈ cores)) as [Hin|Hin].
    + right. eexists key, _. split; [apply elem_of_app; right; by left|done].
    + destruct (ao_covered0 c Hc) as [Hf|(k & r & Hr & Hcr)].
      * left. apply elem_of_difference. split; [done|]. by rewrite elem_of_list_to_set.
      * right. exists k, r. split; [|done]. apply elem_of_app. by left.
Qed.

(** What a reservation takes. *)
Lemma lowest_spec n (free : gset Z) : 0 ≤ n ≤ Z.of_nat (size free) →
  let cores := lowest n free in
  Z.of_nat (length cores) = n ∧ StronglySorted Z.lt cores ∧ (∀ c, c ∈ cores → c ∈ free) ∧ ∀ c d, c ∈ cores → d ∈ free → d ∉ cores → c < d.
Proof.
  intros Hn cores. set (l := to_sorted Z.sub (elements free)) in cores.
  assert (StronglySorted Z.lt l) as Hs.
  { apply sorted_strict; [unfold l; rewrite to_sorted_perm; apply NoDup_elements|]. apply (to_sorted_sorted _ (λ _, True)). by apply Forall_true. }
  assert (∀ c, c ∈ l ↔ c ∈ free) as Hl by (intros c; unfold l; by rewrite elem_of_to_sorted, elem_of_elements).
  assert (length l = size free) as Hlen by (unfold l; by rewrite length_to_sorted).
  change cores with (take (Z.to_nat n) l). rewrite <- (take_drop (Z.to_nat n) l) in Hs. apply StronglySorted_app in Hs as (Hcross & Hs1 & _). split_and!.
  - rewrite length_take. lia.
  - done.
  - intros c (i & Hi%list_elem_of_lookup_2 & _)%elem_of_take. by apply Hl.
  - intros c d Hc Hd%Hl Hnd. rewrite <- (take_drop (Z.to_nat n) l) in Hd. apply elem_of_app in Hd as [?|Hd]; [done|]. by apply Hcross.
Qed.

(** What reserving does: it throws on a request that is no count or a key that already holds cores,
    answers nothing exactly when too few cores are free, and otherwise takes the lowest free ones. *)
Lemma reserve_cores_done key vcpus name a r a' : alloc_ok a → reserve_cores key vcpus name a = Done (r, a') →
  alloc_ok a' ∧ ∃ n, num_safe_integer vcpus = Some n ∧ 1 ≤ n ∧
  match r with
  | None => freeCores a < n ∧ a' = a
  | Some r => n ≤ freeCores a ∧ key ∉ (ca_held a).*1 ∧
      r = CoreReservation key (lowest n (ca_free a)) (formatCpuset (lowest n (ca_free a))) name false ∧ ca_total a' = ca_total a ∧
      ca_free a' = ca_free a ∖ list_to_set (cr_cores r) ∧ ca_held a' = ca_held a ++ [(key, r)]
  end.
Proof.
  intros Hok H. unfold reserve_cores in H. destruct (num_safe_integer vcpus) as [n|]; [|done]. destruct (Z.ltb_spec n 1); [done|].
  tx_bind_in H a0 a1 B1. injection B1 as <- <-. destruct (Z.ltb_spec (freeCores a) n) as [Hlt|Hge].
  - injection H as <- <-. split; [done|]. by exists n.
  - tx_bind_in H r0 a1 B1. injection H as <- <-. destruct (lowest_spec n (ca_free a)) as (Hlen & _ & Hfree & _); [unfold freeCores in Hge; lia|].
    apply record_cores_done in B1 as (Hok' & Hk & -> & Ht & Hf & Hh); [|done|intros E; rewrite E in Hlen; cbn in Hlen; lia|done].
    split; [done|]. exists n. by split_and!.
Qed.

Lemma hold_cores_done key cores name a r a' : alloc_ok a → hold_cores key cores name a = Done (r, a') →
  alloc_ok a' ∧ ca_total a' = ca_total a ∧
  match r with
  | None => a' = a ∧ (cores = [] ∨ ∃ c, c ∈ cores ∧ c ∉ ca_free a)
  | Some r => key ∉ (ca_held a).*1 ∧ r = CoreReservation key cores (formatCpuset cores) name true ∧
      ca_free a' = ca_free a ∖ list_to_set cores ∧ ca_held a' = ca_held a ++ [(key, r)]
  end.
Proof.
  intros Hok H. unfold hold_cores in H. tx_bind_in H a0 a1 B1. injection B1 as <- <-. destruct cores as [|c0 cores0].
  { injection H as <- <-. split_and!; auto. }
  set (cores := c0 :: cores0) in *. destruct (forallb _ cores) eqn:Ef; cbn [negb] in H.
  - tx_bind_in H r0 a1 B1. injection H as <- <-. apply record_cores_done in B1 as (Hok' & Hk & -> & Ht & Hf & Hh); [|done|done|].
    + split_and!; try done.
    + intros c Hc. rewrite forallb_forall in Ef. apply list_elem_of_In, Ef in Hc. by apply bool_decide_eq_true in Hc.
  - injection H as <- <-. split_and!; try done. right. apply not_true_iff_false in Ef. rewrite forallb_forall in Ef.
    destruct (decide (Forall (λ c, c ∈ ca_free a) cores)) as [Hall|Hnot].
    + exfalso. apply Ef. intros c Hc%list_elem_of_In. rewrite Forall_forall in Hall. rewrite bool_decide_eq_true. by apply Hall.
    + apply not_Forall_Exists in Hnot; [|apply _]. apply Exists_exists in Hnot as (c & ? & ?). by exists c.
Qed.

Lemma filter_other_keys k (pre suf : list (string * core_reservation)) r : NoDup (pre ++ (k, r) :: suf).*1 →
  filter (λ e : string * core_reservation, e.1 ≠ k) (pre ++ (k, r) :: suf) = pre ++ suf.
Proof.
  intros Hnd. rewrite fmap_app in Hnd. apply NoDup_app in Hnd as (_ & Hd & Hnd). inversion Hnd as [|?? Hk _]; subst.
  rewrite filter_app, filter_cons_False by (cbn; auto). f_equal; apply filter_id; intros [k' r'] He.
  - cbn. intros ->. apply (Hd k); [|by left]. apply list_elem_of_fmap. by exists (k, r').
  - cbn. intros ->. apply Hk, list_elem_of_fmap. by exists (k, r').
Qed.

(** Dropping one holder. *)
Definition dropped (pre suf : list (string * core_reservation)) (r : core_reservation) (a : allocator) : allocator :=
  Allocator (ca_total a) (ca_free a ∪ list_to_set (cr_cores r)) (pre ++ suf).

Lemma dropped_ok pre k r suf a : alloc_ok a → ca_held a = pre ++ (k, r) :: suf → alloc_ok (dropped pre suf r a).
Proof.
  intros [] E. rewrite E in *. assert (∀ e, e ∈ pre ++ suf → e ∈ pre ++ (k, r) :: suf) as Hsub by (intros e; rewrite !elem_of_app, elem_of_cons; tauto).
  assert ((k, r) ∈ pre ++ (k, r) :: suf) as Hr by (apply elem_of_app; right; by left).
  assert (k ∉ (pre ++ suf).*1) as Hk.
  { rewrite fmap_app in ao_keys0 |- *. apply NoDup_app in ao_keys0 as (_ & Hd & Hnd). inversion Hnd as [|?? Hn _]; subst.
    intros [Hin|Hin]%elem_of_app; [apply (Hd k Hin); by left|done]. }
  split; cbn; [done| | | | | |].
  - rewrite fmap_app in ao_keys0 |- *. apply NoDup_app in ao_keys0 as (H1 & Hd & Hnd). inversion Hnd; subst. apply NoDup_app. split_and!; [done| |done].
    intros x Hx Hx'. apply (Hd x Hx). by right.
  - intros k' r' Hin. by apply ao_key0, Hsub.
  - intros c [Hc|Hc%elem_of_list_to_set]%elem_of_union; [auto|]. by eapply ao_held0.
  - intros k' r' c Hin Hc. destruct (ao_held0 k' r' c) as [Hrange Hf]; [by apply Hsub|done|]. split; [done|].
    intros [?|Hcr%elem_of_list_to_set]%elem_of_union; [done|]. apply Hk. replace k with k' by (eapply ao_disjoint0; eauto).
    apply list_elem_of_fmap. by exists (k', r').
  - intros k1 r1 k2 r2 c H1 H2. eapply ao_disjoint0; by apply Hsub.
  - intros c Hc. destruct (ao_covered0 c Hc) as [Hf|(k' & r' & Hin & Hcr)]; [left; by apply elem_of_union_l|].
    apply elem_of_app in Hin as [Hin|[[= -> ->]|Hin]%elem_of_cons].
    + right. exists k', r'. split; [|done]. apply elem_of_app. by left.
    + left. apply elem_of_union_r, elem_of_list_to_set, Hcr.
    + right. exists k', r'. split; [|done]. apply elem_of_app. by right.
Qed.

Lemma release_cores_eq pre k r suf a : alloc_ok a → ca_held a = pre ++ (k, r) :: suf → release_cores k a = Done (true, dropped pre suf r a).
Proof.
  intros Hok E. unfold release_cores. unfold mbind, tx_bind, read. cbn. rewrite (map_get_in k _ r); [|apply Hok|rewrite E; apply elem_of_app; right; by left].
  cbn. rewrite E, filter_other_keys; [done|]. rewrite <- E. apply Hok.
Qed.

Lemma release_cores_done key a b a' : alloc_ok a → release_cores key a = Done (b, a') →
  (b = false ∧ a' = a ∧ key ∉ (ca_held a).*1) ∨
  (b = true ∧ ∃ pre r suf, ca_held a = pre ++ (key, r) :: suf ∧ a' = dropped pre suf r a).
Proof.
  intros Hok H. destruct (map_get key (ca_held a)) as [r|] eqn:E.
  - right. apply map_get_elem, list_elem_of_split in E as (pre & suf & E). erewrite release_cores_eq in H by done. injection H as <- <-. eauto 6.
  - left. unfold release_cores, mbind, tx_bind, read in H. rewrite E in H. injection H as <- <-. by apply map_get_none in E.
Qed.

Lemma release_cores_ok key a : alloc_ok a → alloc_ok (commit (release_cores key) a).
Proof.
  intros Hok. unfold commit. destruct (release_cores key a) as [[b a']|] eqn:E; [|done].
  apply release_cores_done in E as [(_ & -> & _)|(_ & pre & r & suf & Eh & ->)]; [done..|by eapply dropped_ok|done].
Qed.

(** ** Reconciliation *)

(** An adopted reservation whose container is not among the live ones. *)
Definition gone (live : list (string * list Z)) (r : core_reservation) : bool :=
  cr_adopted r && negb match cr_containerName r with Some name => is_some (map_get name live) | None => false end.

Lemma release_gone_eq live released r : release_gone live released r =
  if gone live r then release_cores (cr_key r) ≫= λ _, mret (released ++ option_list (cr_containerName r)) else mret released.
Proof. unfold release_gone, gone. destruct (cr_adopted r); cbn; [|done]. by destruct (match cr_containerName r with Some _ => _ | None => _ end). Qed.

Lemma release_loop live suf : ∀ pre a released, alloc_ok a → ca_held a = pre ++ suf →
  ∃ a', fold_tx (release_gone live) released suf.*2 a =
      Done (released ++ omap cr_containerName (filter (λ r, gone live r = true) suf.*2), a') ∧
    alloc_ok a' ∧ ca_held a' = pre ++ filter (λ e : string * core_reservation, gone live e.2 = false) suf ∧ ca_free a ⊆ ca_free a' ∧ ca_total a' = ca_total a.
Proof.
  induction suf as [|[k r] suf IH]; intros pre a released Hok E.
  { exists a. cbn. by rewrite app_nil_r. }
  cbn [fmap list_fmap fold_tx snd]. rewrite release_gone_eq. destruct (gone live r) eqn:Eg.
  - destruct (ao_key a Hok k r) as (-> & _); [rewrite E; apply elem_of_app; right; by left|].
    destruct (IH pre (dropped pre suf r a) (released ++ option_list (cr_containerName r))) as (a' & Hrun & Hok' & Hh & Hf & Ht); [by eapply dropped_ok|done|].
    exists a'. split_and!; [|done| | |done].
    + unfold mbind, tx_bind at 1 2. erewrite release_cores_eq by done. cbn. rewrite Hrun. rewrite decide_True by done. rewrite <- app_assoc. do 3 f_equal.
      cbn. by destruct (cr_containerName r).
    + rewrite Hh. by rewrite filter_cons_False by (cbn; congruence).
    + cbn in Hf. set_solver.
  - destruct (IH (pre ++ [(k, r)]) a released) as (a' & Hrun & Hok' & Hh & Hf & Ht); [done|by rewrite <- app_assoc|].
    exists a'. split_and!; [|done| |done|done].
    + rewrite filter_cons_False by congruence. exact Hrun.
    + rewrite Hh, <- app_assoc. by rewrite filter_cons_True.
Qed.

(** The keys of the two kinds of holders are apart: adopted ones are named after their container. *)
Definition keyed (a : allocator) : Prop := ∀ k r, (k, r) ∈ ca_held a →
  if cr_adopted r then ∃ name, cr_containerName r = Some name ∧ k = "container:" +:+ name else starts_with "container:" k = false.

Lemma container_key_prefix name : starts_with "container:" ("container:" +:+ name) = true.
Proof. cbn. by destruct name. Qed.

(** Everything a listed container may be: held in its own name, or sharing a core with a holder. *)
Definition accounts_for (a : allocator) (container : string * list Z) : Prop :=
  (∃ k r, (k, r) ∈ ca_held a ∧ cr_containerName r = Some container.1) ∨ ∃ c, c ∈ container.2 ∧ c ∉ ca_free a.

Lemma adopt_loop accounted todo : ∀ seen a adopted, alloc_ok a → keyed a → NoDup (seen ++ todo.*1) → Forall (λ e : string * list Z, e.2 ≠ []) todo →
  (∀ k r name, (k, r) ∈ ca_held a → cr_adopted r = true → cr_containerName r = Some name → name ∈ accounted ∨ name ∈ seen) →
  ∃ more new a', fold_tx (adopt accounted) adopted todo a = Done (adopted ++ more, a') ∧ alloc_ok a' ∧ keyed a' ∧
    ca_held a' = ca_held a ++ new ∧ Forall (λ e : string * core_reservation, cr_adopted e.2 = true ∧ ∃ name, cr_containerName e.2 = Some name ∧ name ∈ todo.*1) new ∧
    ca_free a' ⊆ ca_free a ∧ Forall (λ e : string * list Z, e.1 ∈ accounted ∨ accounts_for a' e) todo ∧ ca_total a' = ca_total a.
Proof.
  induction todo as [|[n cs] todo IH]; intros seen a adopted Hok Hkd Hnd Hne Hacc.
  { exists [], [], a. cbn. rewrite !app_nil_r. by split_and!. }
  apply Forall_cons in Hne as [Hcs Hne]. cbn [fmap list_fmap fst snd] in Hnd |- *.
  assert (NoDup ((seen ++ [n]) ++ todo.*1)) as Hnd' by by rewrite <- app_assoc.
  cbn [fold_tx]. unfold adopt at 2. cbn [fst snd]. destruct (decide (n ∈ accounted)) as [Hin|Hout].
  - rewrite bool_decide_eq_true_2 by done. destruct (IH (seen ++ [n]) a adopted) as (more & new & a' & Hrun & Hok' & Hkd' & Hh & Hnew & Hf & Hall & Ht); [done..| |].
    { intros k r name Hr Ha Hn. destruct (Hacc k r name Hr Ha Hn); [by left|right; apply elem_of_app; by left]. }
    exists more, new, a'. split_and!; try done.
    + eapply Forall_impl; [exact Hnew|]. intros e (? & name & ? & ?). split; [done|]. exists name. split; [done|by right].
    + constructor; [by left|done].
  - rewrite bool_decide_eq_false_2 by done. destruct (hold_cores ("container:" +:+ n) cs (Some n) a) as [[r a1]|e] eqn:Eh.
    + unfold mbind, tx_bind at 1 2. rewrite Eh. apply hold_cores_done in Eh as (Hok1 & Ht1 & Hr); [|done]. destruct r as [r|].
      * destruct Hr as (Hk & -> & Hf1 & Hh1). cbn [mret]. unfold mret, tx_ret.
        destruct (IH (seen ++ [n]) a1 (adopted ++ [n])) as (more & new & a' & Hrun & Hok' & Hkd' & Hh & Hnew & Hf & Hall & Ht); [done| |done|done| |].
        { intros k r. rewrite Hh1, elem_of_app, list_elem_of_singleton. intros [Hr|[= -> ->]]; [by apply Hkd|]. cbn. eauto. }
        { intros k r name. rewrite Hh1, !elem_of_app, !list_elem_of_singleton. intros [Hr|[= -> ->]] Ha Hn; [|cbn in Hn; injection Hn as ->; auto].
          destruct (Hacc k r name Hr Ha Hn); auto. }
        eexists (n :: more), (_ :: new), a'. split_and!; [by rewrite Hrun, <- app_assoc|done|done|by rewrite Hh, Hh1, <- app_assoc| |set_solver| |congruence].
        -- constructor; [split; [done|]; exists n; split; [done|by left]|]. eapply Forall_impl; [exact Hnew|]. intros e (? & name & ? & ?).
           split; [done|]. exists name. split; [done|by right].
        -- constructor; [|done]. right. left. eexists _, _. rewrite Hh, Hh1. split; [apply elem_of_app; left; apply elem_of_app; right; by left|done].
      * destruct Hr as [-> Hr]. cbn [mret]. unfold mret, tx_ret.
        destruct (IH (seen ++ [n]) a adopted) as (more & new & a' & Hrun & Hok' & Hkd' & Hh & Hnew & Hf & Hall & Ht); [done..| |].
        { intros k r name Hr' Ha Hn. destruct (Hacc k r name Hr' Ha Hn); [by left|right; apply elem_of_app; by left]. }
        exists more, new, a'. split_and!; try done.
        -- eapply Forall_impl; [exact Hnew|]. intros e (? & name & ? & ?). split; [done|]. exists name. split; [done|by right].
        -- constructor; [|done]. right. right. destruct Hr as [->|(c & Hc & Hcf)]; [done|]. exists c. split; [done|]. set_solver.
    + exfalso. unfold hold_cores, mbind, tx_bind, read in Eh. destruct cs as [|c cs]; [done|]. destruct (negb _); [done|].
      unfold record_cores, mbind, tx_bind, read, has_key in Eh. destruct (map_get ("container:" +:+ n) (ca_held a)) as [r|] eqn:Eg; [|done].
      apply map_get_elem in Eg. pose proof (Hkd _ _ Eg) as Hk. destruct (cr_adopted r) eqn:Ea.
      * destruct Hk as (name & Hn & Heq). apply (inj (String.append "container:")) in Heq as <-. destruct (Hacc _ _ _ Eg Ea Hn) as [|Hseen]; [done|].
        apply NoDup_app in Hnd as (_ & Hd & _). apply (Hd n Hseen). by left.
      * by rewrite container_key_prefix in Hk.
Qed.

(** When nothing is to be done, nothing is. *)
Lemma release_settled live l : ∀ a released, Forall (λ r, gone live r = false) l → fold_tx (release_gone live) released l a = Done (released, a).
Proof.
  induction l as [|r l IH]; intros a released Hall; [done|]. apply Forall_cons in Hall as [Hr Hall]. cbn [fold_tx]. rewrite release_gone_eq, Hr. by apply IH.
Qed.

Lemma adopt_settled accounted l : ∀ a adopted, Forall (λ e : string * list Z, e.1 ∈ accounted ∨ ∃ c, c ∈ e.2 ∧ c ∉ ca_free a) l →
  fold_tx (adopt accounted) adopted l a = Done (adopted, a).
Proof.
  induction l as [|[n cs] l IH]; intros a adopted Hall; [done|]. apply Forall_cons in Hall as [Hr Hall]. cbn [fold_tx]. unfold adopt at 2. cbn [fst snd] in *.
  destruct (decide (n ∈ accounted)) as [Hin|Hout]; [rewrite bool_decide_eq_true_2 by done; by apply IH|]. rewrite bool_decide_eq_false_2 by done.
  destruct Hr as [|(c & Hc & Hcf)]; [done|]. unfold mbind, tx_bind at 1 2, hold_cores. unfold mbind at 1, tx_bind at 1, read at 1. destruct cs as [|c0 cs0]; [by apply elem_of_nil in Hc|].
  set (cs := c0 :: cs0) in *. assert (forallb (λ core, bool_decide (core ∈ ca_free a)) cs = false) as ->.
  { apply not_true_iff_false. rewrite forallb_forall. intros Hf. apply list_elem_of_In, Hf, bool_decide_eq_true in Hc. done. }
  cbn. by apply IH.
Qed.

Lemma part_cores_nonempty part l : part_cores part = Some l → l ≠ [].
Proof.
  unfold part_cores. destruct (cpu_range part) as [[a b]|]; [|done]. cbn. destruct (num_safe_integer (js_number a)) as [x|]; [|done]. cbn.
  destruct (match b with None => Some x | Some b => _ end) as [y|]; [|done]. cbn. destruct (Z.ltb_spec y x); [done|]. intros [= <-] E.
  apply (f_equal length) in E. rewrite length_seqZ in E. cbn in E. lia.
Qed.

Lemma parseCpuset_nonempty spec cores : parseCpuset spec = Some cores → cores ≠ [].
Proof.
  unfold parseCpuset. destruct (trim spec === ""); [done|]. destruct (mapM _ _) as [parts|] eqn:E; [|done]. cbn. intros [= <-] En.
  apply mapM_Some in E. destruct (split_chars_cons "," (String.list_ascii_of_string (trim spec))) as (w & ws & Ew).
  unfold str_split in E. rewrite Ew in E. cbn in E. inversion E as [|p l ps ls Hp _]; subst. apply part_cores_nonempty in Hp.
  destruct l as [|c l]; [done|]. assert (c ∈ ascending (concat ((c :: l) :: ls))) as Hc by (apply elem_of_ascending; left).
  unfold ascending in Hc. rewrite En in Hc. by apply elem_of_nil in Hc.
Qed.

Lemma inspect_ok runDocker names : NoDup (inspect_containers runDocker names).1.*1 ∧ Forall (λ e : string * list Z, e.2 ≠ []) (inspect_containers runDocker names).1.
Proof.
  unfold inspect_containers. destruct names as [|name names]; [split; constructor|]. generalize (str_split line_feed (dr_stdout (runDocker (["inspect"; "--format"; INSPECT_FORMAT] ++ name :: names)))).
  intros lines. assert (∀ seen, NoDup seen.1.*1 ∧ Forall (λ e : string * list Z, e.2 ≠ []) seen.1 →
    NoDup (foldl inspect_line seen lines).1.*1 ∧ Forall (λ e : string * list Z, e.2 ≠ []) (foldl inspect_line seen lines).1) as H; [|apply H; split; constructor].
  induction lines as [|line lines IH]; intros seen Hs; [done|]. cbn. apply IH. unfold inspect_line. destruct (str_split tab line) as [|rawName [|rawCpuset rest]]; [done..|].
  cbv zeta. case_match; [done|]. destruct (parseCpuset rawCpuset) as [cores|] eqn:Ep; [|done]. cbn. split; [apply map_set_nodup, Hs|].
  apply Forall_map_set; [|apply Hs]. cbn. exact (parseCpuset_nonempty _ _ Ep).
Qed.

Lemma own_kept live (l : list (string * core_reservation)) :
  filter (λ r, cr_adopted r = false) (filter (λ e : string * core_reservation, gone live e.2 = false) l).*2 =
  filter (λ r, cr_adopted r = false) l.*2.
Proof.
  induction l as [|[k r] l IH]; [done|]. change (((k, r) :: l).*2) with (r :: l.*2). destruct (gone live r) eqn:Eg.
  - rewrite filter_cons_False by (cbn; congruence). rewrite filter_cons_False; [done|]. intros Ha. unfold gone in Eg. by rewrite Ha in Eg.
  - rewrite filter_cons_True by done. match goal with |- context [(_ :: ?x).*2] => change (((k, r) :: x).*2) with (r :: x.*2) end.
    rewrite !(filter_cons _ r). by rewrite IH.
Qed.

Section agent.
Context (runDocker : list string → docker_result).
Abbreviation live := (inspect_containers runDocker (container_names (dr_stdout (runDocker PS_ARGS)))).1.

Lemma docker_reconcile_done a : alloc_ok a → keyed a → dr_exitCode (runDocker PS_ARGS) = 0 →
  ∃ res a' new, reconcileDockerReservations runDocker a = Done (res, a') ∧ alloc_ok a' ∧ keyed a' ∧ ca_total a' = ca_total a ∧
    ca_held a' = filter (λ e : string * core_reservation, gone live e.2 = false) (ca_held a) ++ new ∧
    Forall (λ e : string * core_reservation, cr_adopted e.2 = true ∧ ∃ name, cr_containerName e.2 = Some name ∧ name ∈ live.*1) new ∧
    Forall (accounts_for a') live ∧ rr_unpinned res = (inspect_containers runDocker (container_names (dr_stdout (runDocker PS_ARGS)))).2.
Proof.
  intros Hok Hkd Hps. unfold reconcileDockerReservations. rewrite Hps. cbn [Z.eqb negb].
  destruct (inspect_ok runDocker (container_names (dr_stdout (runDocker PS_ARGS)))) as [Hnd Hne].
  destruct (inspect_containers runDocker _) as [lv unp] eqn:Elv. cbn [fst] in *.
  destruct (release_loop lv (ca_held a) [] a []) as (a1 & Hrel & Hok1 & Hh1 & Hf1 & Ht1); [done..|]. cbn [app] in Hh1. fold (reservations a) in Hrel.
  destruct (adopt_loop (omap cr_containerName (reservations a1)) lv [] a1 []) as (more & new & a' & Had & Hok' & Hkd' & Hh' & Hnew & Hf' & Hall & Ht'); [done| |done|done| |].
  { intros k r. rewrite Hh1, list_elem_of_filter. intros [_ Hr]. by apply Hkd. }
  { intros k r name Hr Ha Hn. left. apply list_elem_of_omap. exists r. split; [|done]. apply list_elem_of_fmap. by exists (k, r). }
  eexists (ReconcileResult _ _ unp), a', new. split_and!; [|done|done|congruence|by rewrite Hh', Hh1|done| |done].
  - unfold mbind, tx_bind at 1, read at 1, tx_bind at 1. rewrite Hrel. unfold tx_bind at 1, read. unfold tx_bind. rewrite Had. done.
  - eapply Forall_impl; [exact Hall|]. intros e [Hin|?]; [|done]. left. apply list_elem_of_omap in Hin as (r & Hr & Hn).
    apply list_elem_of_fmap in Hr as ([k r'] & -> & Hr). exists k, r'. rewrite Hh'. split; [apply elem_of_app; by left|done].
Qed.

(** C0: a reconciliation accounts for what Docker runs.  When the daemon answers, it never throws; the
    reservations of the Agent's own work are as they were, in the same order; every adopted
    reservation that is left belongs to a container that is running; every running container with a
    CPU set is held in its own name, or shares a core with a holder; and doing it again changes
    nothing. *)
Theorem reconcile_accounts a : alloc_ok a → keyed a → dr_exitCode (runDocker PS_ARGS) = 0 →
  ∃ res a', reconcileDockerReservations runDocker a = Done (res, a') ∧ alloc_ok a' ∧ keyed a' ∧ ca_total a' = ca_total a ∧
    filter (λ r, cr_adopted r = false) (reservations a') = filter (λ r, cr_adopted r = false) (reservations a) ∧
    (∀ r, r ∈ reservations a' → cr_adopted r = true → ∃ name, cr_containerName r = Some name ∧ name ∈ live.*1) ∧
    Forall (accounts_for a') live ∧
    reconcileDockerReservations runDocker a' = Done (ReconcileResult [] [] (rr_unpinned res), a').
Proof.
  intros Hok Hkd Hps. destruct (docker_reconcile_done a Hok Hkd Hps) as (res & a' & new & Hrun & Hok' & Hkd' & Ht & Hh & Hnew & Hacc & Hunp).
  assert (∀ k r, (k, r) ∈ ca_held a' → gone live r = false) as Hgone.
  { intros k r. rewrite Hh, elem_of_app, list_elem_of_filter. intros [[Hg _]|Hin]; [done|]. rewrite Forall_forall in Hnew.
    destruct (Hnew _ Hin) as (Ha & name & Hn & Hl). cbn in Ha, Hn. unfold gone. rewrite Ha, Hn. cbn. apply negb_false_iff.
    destruct (map_get name live) eqn:E; [done|]. by apply map_get_none in E. }
  exists res, a'. split_and!; try done.
  - unfold reservations. rewrite Hh, fmap_app, filter_app. rewrite (proj2 (filter_nil_iff _ new.*2)); [rewrite app_nil_r; apply own_kept|].
    intros r ([k r'] & -> & Hr)%list_elem_of_fmap. rewrite Forall_forall in Hnew. destruct (Hnew _ Hr) as [Ha _]. cbn in Ha |- *. congruence.
  - intros r ([k r'] & -> & Hr)%list_elem_of_fmap Ha. cbn in Ha |- *. pose proof (Hgone k r' Hr) as Hg. unfold gone in Hg. rewrite Ha in Hg. cbn in Hg.
    apply negb_false_iff in Hg. destruct (cr_containerName r') as [name|]; [|done]. exists name. split; [done|]. destruct (map_get name live) eqn:E; [|done].
    apply map_get_elem in E. apply list_elem_of_fmap. by eexists (name, _).
  - unfold reconcileDockerReservations. rewrite Hps, Hunp. cbn [Z.eqb negb]. destruct (inspect_containers runDocker _) as [lv unp] eqn:Elv. cbn [fst snd] in *.
    unfold mbind, tx_bind at 1, read at 1, tx_bind at 1. rewrite release_settled.
    + unfold tx_bind at 1, read. unfold tx_bind. rewrite adopt_settled; [done|]. eapply Forall_impl; [exact Hacc|]. intros e [(k & r & Hr & Hn)|?]; [|by right].
      left. apply list_elem_of_omap. exists r. split; [|done]. apply list_elem_of_fmap. by exists (k, r).
    + apply Forall_fmap, Forall_forall. intros [k r] Hr. cbn. by eapply Hgone.
Qed.
End agent.

(** ** Any use of the allocator *)

(** What the Agent does with it: work takes and gives back cores, and the timer reconciles. *)
Inductive core_op :=
  | OpReserve (key : string) (vcpus : num) (containerName : option string)
  | OpRelease (key : string)
  | OpReconcile (runDocker : list string → docker_result).

Definition core_run (op : core_op) : tx allocator unit :=
  match op with
  | OpReserve key vcpus name => reserve_cores key vcpus name ≫= λ _, mret tt
  | OpRelease key => release_cores key ≫= λ _, mret tt
  | OpReconcile runDocker => reconcileDockerReservations runDocker ≫= λ _, mret tt
  end.

Definition core_trace (a : allocator) (ops : list core_op) : allocator := foldl (λ a op, commit (core_run op) a) a ops.

(** The keys of the Agent's work begin with the kind of the work. *)
Definition work_key (op : core_op) : bool := match op with OpReserve key _ _ => negb (starts_with "container:" key) | _ => true end.

Lemma core_run_ok op a : work_key op = true → alloc_ok a → keyed a →
  alloc_ok (commit (core_run op) a) ∧ keyed (commit (core_run op) a) ∧ ca_total (commit (core_run op) a) = ca_total a.
Proof.
  intros Hw Hok Hkd. unfold commit. destruct (core_run op a) as [[u a']|] eqn:E; [|done]. destruct op as [key vcpus name|key|runDocker]; cbn in E.
  - tx_bind_in E r a1 B1. injection E as _ <-. apply reserve_cores_done in B1 as (Hok' & n & _ & _ & Hr); [|done]. split; [done|].
    destruct r as [r|]; [|by destruct Hr as [_ ->]]. destruct Hr as (_ & _ & -> & Ht & _ & Hh). split; [|done].
    intros k r'. rewrite Hh, elem_of_app, list_elem_of_singleton. intros [Hr|[= -> ->]]; [by apply Hkd|]. cbn. by apply negb_true_iff.
  - tx_bind_in E b a1 B1. injection E as _ <-. apply release_cores_done in B1 as [(_ & -> & _)|(_ & pre & r & suf & Eh & ->)]; [done| |done].
    split_and!; [by eapply dropped_ok| |done]. intros k r'. cbn. intros Hin. apply Hkd. rewrite Eh. rewrite elem_of_app, elem_of_cons in *. tauto.
  - tx_bind_in E res a1 B1. injection E as _ <-. destruct (decide (dr_exitCode (runDocker PS_ARGS) = 0)) as [Hz|Hz].
    + destruct (docker_reconcile_done runDocker a Hok Hkd Hz) as (res' & a2 & new & Hrun & Hok' & Hkd' & Ht & _). rewrite Hrun in B1. by injection B1 as <- <-.
    + unfold reconcileDockerReservations in B1. apply Z.eqb_neq in Hz. by rewrite Hz in B1.
Qed.

Lemma core_trace_ok a ops : forallb work_key ops = true → alloc_ok a → keyed a →
  alloc_ok (core_trace a ops) ∧ keyed (core_trace a ops) ∧ ca_total (core_trace a ops) = ca_total a.
Proof.
  revert a. induction ops as [|op ops IH]; intros a Hw Hok Hkd; [done|]. cbn in Hw. apply andb_true_iff in Hw as [Hop Hw].
  destruct (core_run_ok op a Hop Hok Hkd) as (Hok' & Hkd' & Ht). destruct (IH _ Hw Hok' Hkd') as (H1 & H2 & H3). split_and!; [done|done|]. etrans; [exact H3|exact Ht].
Qed.

(** C0: no core ever has two holders, and none is lost.  After any sequence of reservations, releases
    and reconciliations, whatever Docker answers, every core of the Worker is either free or held by
    exactly one reservation; the text a container was given names exactly the cores of its
    reservation; and asking for [m] cores under a new key fails only when fewer are free, and takes
    [m] distinct free cores, the lowest. *)
Theorem cores_never_shared n a ops (a' := core_trace a ops) : new_allocator n = inr a → forallb work_key ops = true →
  (∀ c, 0 ≤ c < ca_total a → (c ∈ ca_free a' ∧ ∀ k r, (k, r) ∈ ca_held a' → c ∉ cr_cores r) ∨
     c ∉ ca_free a' ∧ ∃ k r, (k, r) ∈ ca_held a' ∧ c ∈ cr_cores r ∧ ∀ k' r', (k', r') ∈ ca_held a' → c ∈ cr_cores r' → k' = k ∧ r' = r) ∧
  (∀ r, r ∈ reservations a' → parseCpuset (cr_spec r) = Some (ascending (cr_cores r))) ∧
  ∀ key vcpus m name, num_safe_integer vcpus = Some m → 1 ≤ m → has_key key a' = false →
    match reserve_cores key vcpus name a' with
    | Done (None, a'') => a'' = a' ∧ freeCores a' < m
    | Done (Some r, a'') => Z.of_nat (length (cr_cores r)) = m ∧ NoDup (cr_cores r) ∧ has_key key a'' = true ∧
        ∀ c, c ∈ cr_cores r → c ∈ ca_free a' ∧ c ∉ ca_free a'' ∧ ∀ d, d ∈ ca_free a'' → c < d
    | Failed _ => False
    end.
Proof.
  intros (Hok0 & Hh0 & _)%new_allocator_ok Hw. destruct (core_trace_ok a ops Hw Hok0) as (Hok & Hkd & Ht); [intros k r; rewrite Hh0; by intros ?%elem_of_nil|].
  fold a' in Hok, Hkd, Ht. assert (∀ k r k' r', (k, r) ∈ ca_held a' → (k', r') ∈ ca_held a' → k = k' → r = r') as Hsame.
  { intros k r k' r' H1 H2 <-. apply (map_get_in _ _ _ (ao_keys a' Hok)) in H1, H2. congruence. }
  split_and!.
  - intros c Hc. rewrite <- Ht in Hc. destruct (ao_covered a' Hok c Hc) as [Hf|(k & r & Hr & Hcr)].
    + left. split; [done|]. intros k r Hr Hcr. by destruct (ao_held a' Hok k r c Hr Hcr).
    + right. split; [by destruct (ao_held a' Hok k r c Hr Hcr)|]. exists k, r. split_and!; [done..|]. intros k' r' Hr' Hcr'.
      assert (k' = k) as -> by by eapply (ao_disjoint a' Hok). split; [done|]. by eapply Hsame.
  - intros r Hr. apply list_elem_of_fmap in Hr as ([k r'] & -> & Hr). cbn. destruct (ao_key a' Hok k r' Hr) as (_ & -> & Hne). apply cpuset_roundtrip; [done|].
    apply Forall_forall. intros c Hc. destruct (ao_held a' Hok k r' c Hr Hc) as [Hrange _]. pose proof (ao_total a' Hok). unfold cpu_id. lia.
  - intros key vcpus m name Hm Hm1 Hk. destruct (reserve_cores key vcpus name a') as [[r a'']|] eqn:E.
    + apply reserve_cores_done in E as (Hok'' & m' & Hm' & _ & Hr); [|done]. rewrite Hm in Hm'. injection Hm' as <-. destruct r as [r|]; [|by destruct Hr].
      destruct Hr as (Hle & Hkey & -> & _ & Hf & Hh). cbn [cr_cores] in *. destruct (lowest_spec m (ca_free a')) as (Hlen & Hs & Hin & Hlow); [unfold freeCores in Hle; lia|].
      split_and!; [done|by apply strict_NoDup| |].
      * unfold has_key. erewrite map_get_in; [done|apply Hok''|]. rewrite Hh. apply elem_of_app. right. by left.
      * intros c Hc. rewrite Hf. split_and!; [by apply Hin|intros [_ Hn]%elem_of_difference; by apply Hn, elem_of_list_to_set|].
        intros d [Hd Hnd]%elem_of_difference. rewrite elem_of_list_to_set in Hnd. by apply Hlow.
    + unfold reserve_cores in E. rewrite Hm in E. destruct (Z.ltb_spec m 1); [lia|]. unfold mbind, tx_bind, read in E. destruct (freeCores a' <? m); [done|].
      unfold record_cores, mbind, tx_bind, read in E. by rewrite Hk in E.
Qed.

(** C0: work gives its cores back however it ends.  While the body of [withCores] runs, anything may
    happen to the allocator as long as the reservation of this key is left alone; when it is over,
    resolved or rejected, the key holds nothing, the cores it had are free, and everything else is as
    the body left it.  A request that cannot be met leaves the allocator as it was. *)
Theorem work_gives_cores_back {T} request (body : option core_reservation → allocator → (exn + T) * allocator) vcpus a :
  alloc_ok a → rq_vcpus request = Some vcpus →
  (∀ r a1, (rq_key request, r) ∈ ca_held a1 → alloc_ok a1 →
     alloc_ok (body (Some r) a1).2 ∧ (rq_key request, r) ∈ ca_held (body (Some r) a1).2) →
  (∃ e, withCores request body a = (inl e, a)) ∨
  ∃ r a1, reserve_cores (rq_key request) vcpus (rq_containerName request) a = Done (Some r, a1) ∧
    let result := withCores request body a in
    result.1 = (body (Some r) a1).1 ∧ alloc_ok result.2 ∧ has_key (rq_key request) result.2 = false ∧
    ca_free result.2 = ca_free (body (Some r) a1).2 ∪ list_to_set (cr_cores r) ∧
    ca_held result.2 = filter (λ e : string * core_reservation, e.1 ≠ rq_key request) (ca_held (body (Some r) a1).2).
Proof.
  intros Hok Hv Hbody. unfold withCores. rewrite Hv. destruct (reserve_cores (rq_key request) vcpus (rq_containerName request) a) as [[r a1]|e] eqn:E; [|left; eauto].
  destruct (reserve_cores_done _ _ _ _ _ _ Hok E) as (Hok1 & n & _ & _ & Hr). destruct r as [r|]; [|destruct Hr as [_ ->]; left; eauto].
  right. exists r, a1. split; [done|]. destruct Hr as (_ & _ & _ & _ & _ & Hh).
  destruct (Hbody r a1) as [Hok2 Hin]; [rewrite Hh; apply elem_of_app; right; by left|done|]. destruct (body (Some r) a1) as [result a2]. cbn [fst snd] in *.
  apply list_elem_of_split in Hin as (pre & suf & Eh). unfold commit. rewrite (release_cores_eq pre _ r suf a2 Hok2 Eh). cbn [fst snd].
  pose proof (ao_keys a2 Hok2) as Hnd. rewrite Eh in Hnd. split_and!; [done|by eapply dropped_ok| |done|].
  - unfold has_key. destruct (map_get _ _) as [r'|] eqn:Eg; [|done]. exfalso. apply map_get_elem in Eg. cbn in Eg. rewrite fmap_app in Hnd.
    apply NoDup_app in Hnd as (_ & Hd & Hnd). inversion Hnd as [|?? Hn _]; subst. apply elem_of_app in Eg as [Hp|Hp].
    + apply (Hd (rq_key request)); [apply list_elem_of_fmap; by exists (rq_key request, r')|by left].
    + apply Hn, list_elem_of_fmap. by exists (rq_key request, r').
  - cbn. by rewrite Eh, filter_other_keys.
Qed.

Module CoreDemo.
Definition start : allocator := Allocator 8 (list_to_set (seqZ 0 8)) [].
Lemma start_new : new_allocator (num_of_Z 8) = inr start.
Proof. vm_compute. reflexivity. Qed.
(** Docker runs an orphan on cores 2 and 3 and the container of one job. *)
Definition docker (args : list string) : docker_result :=
  match args with
  | "ps" :: _ => DockerResult 0 ("orphan" +:+ String line_feed ("job-1" +:+ String line_feed ""))
  | _ => DockerResult 0 ("/orphan" +:+ String tab ("2-3" +:+ String line_feed ("/job-1" +:+ String tab "0-1")))
  end.
Definition ops : list core_op :=
  [OpReserve "attempt:1" (num_of_Z 2) (Some "job-1"); OpReconcile docker; OpReserve "attempt:2" (num_of_Z 3) None; OpRelease "attempt:1"].
Definition request : core_request := CoreRequest "attempt:9" (Some (num_of_Z 2)) None.
(** The work is cancelled while another job of the Worker starts. *)
Definition body (r : option core_reservation) (a : allocator) : (exn + unit) * allocator :=
  (inl (Thrown "cancelled"), commit (core_run (OpReserve "attempt:10" (num_of_Z 1) None)) a).
End CoreDemo.

Lemma cores_never_shared_witness :
  match reserve_cores "attempt:3" (num_of_Z 3) None (core_trace CoreDemo.start CoreDemo.ops) with
  | Done (Some r, a) => cr_cores r = [0; 1; 7] ∧ NoDup (cr_cores r) ∧ parseCpuset (cr_spec r) = Some [0; 1; 7]
  | _ => False
  end ∧ ca_free (core_trace CoreDemo.start CoreDemo.ops) = {[0; 1; 7]}.
Proof.
  destruct (cores_never_shared (num_of_Z 8) CoreDemo.start CoreDemo.ops CoreDemo.start_new eq_refl) as (_ & _ & H).
  specialize (H "attempt:3" (num_of_Z 3) 3 None eq_refl ltac:(lia)). split; [|vm_compute; reflexivity].
  assert (has_key "attempt:3" (core_trace CoreDemo.start CoreDemo.ops) = false) as Hk by (vm_compute; reflexivity). specialize (H Hk).
  destruct (reserve_cores "attempt:3" (num_of_Z 3) None (core_trace CoreDemo.start CoreDemo.ops)) as [[[r|] a]|] eqn:E;
    [|vm_compute in E; discriminate E..]. destruct H as (_ & Hnd & _). vm_compute in E. injection E as <- _.
  split; [reflexivity|]. split; [exact Hnd|vm_compute; reflexivity].
Defined.

Lemma reconcile_accounts_witness :
  ∃ res a', reconcileDockerReservations CoreDemo.docker CoreDemo.start = Done (res, a') ∧ rr_adopted res = ["orphan"; "job-1"] ∧
    ca_free a' = {[4; 5; 6; 7]} ∧ reconcileDockerReservations CoreDemo.docker a' = Done (ReconcileResult [] [] [], a').
Proof.
  destruct (new_allocator_ok _ _ CoreDemo.start_new) as (Hok & _).
  destruct (reconcile_accounts CoreDemo.docker CoreDemo.start Hok) as (res & a' & E & _ & _ & _ & _ & _ & _ & H);
    [intros k r Hr; by apply elem_of_nil in Hr|reflexivity|]. exists res, a'. split; [exact E|].
  vm_compute in E. injection E as <- <-. split; [reflexivity|]. split; [vm_compute; reflexivity|exact H].
Defined.

Lemma work_gives_cores_back_witness :
  let result := withCores CoreDemo.request CoreDemo.body CoreDemo.start in
  result.1 = inl (Thrown "cancelled") ∧ has_key "attempt:9" result.2 = false ∧ freeCores result.2 = 7.
Proof.
  destruct (new_allocator_ok _ _ CoreDemo.start_new) as (Hok & _).
  destruct (work_gives_cores_back CoreDemo.request CoreDemo.body (num_of_Z 2) CoreDemo.start Hok eq_refl) as [(e & H)|(r & a1 & _ & H1 & _ & H2 & _)].
  - intros r a1 Hin Hok1. cbn [CoreDemo.body snd]. unfold commit. destruct (core_run _ a1) as [[u a2]|] eqn:E; [|split; assumption]. cbn in E.
    tx_bind_in E r1 a3 B1. injection E as _ <-. destruct (reserve_cores_done _ _ _ _ _ _ Hok1 B1) as (Hok2 & n & _ & _ & Hr). split; [exact Hok2|].
    destruct r1 as [r1|]; [|destruct Hr as [_ ->]; exact Hin]. destruct Hr as (_ & _ & _ & _ & _ & ->). apply elem_of_app. left. exact Hin.
  - vm_compute in H. discriminate H.
  - split; [exact H1|]. split; [exact H2|vm_compute; reflexivity].
Defined.
