(* ===== verification/HubImport.v ===== *)
(** The importer of the retired Hub's state (packages/backend/convex/infra/hubImport.ts): one decision
    per row of a batch, the write that carries it out, a batch as one transaction, and whole runs.
    With [contentHash] of hubProvenance.ts.

    The numbers of a batch are the Hub's own ports, times and counters, which are integers.  SHA-256
    and AES-GCM are parameters, the random draws of a write are arguments. *)

From S2P Require Import Prelude JsLib Schema HostLabels Egress AppPolicy InfraSchema InfraStore Nodes DockerArgs AppSpecs Apps Deployments Base64 Vault Accounts Git.

(** ** The rows of a batch *)

Record hub_user := HubUser {
  hu_legacyId : string;
  hu_email : string;
  hu_name : string;
  hu_roles : list string;
  hu_passwordHash : string;
  hu_createdAt : Z;
}.

Record hub_route := HubRoute {
  hr_name : string;
  hr_node : string;
  hr_image : string;
  hr_port : Z;
  hr_app : string;
  hr_service : option string;
}.

Record hub_service := HubService {
  hs_name : string;
  hs_image : string;
  hs_args : list string;
  hs_port : option Z;
  hs_route : option string;
  hs_node : option string;
  hs_env : option (gmap string string);
}.

Record hub_app_link := HubAppLink {
  hl_name : string;
  hl_need : string;
  hl_provider : string;
  hl_providerPort : Z;
  hl_consumer : string;
  hl_localPort : Z;
}.

Record hub_app := HubApp {
  ha_name : string;
  ha_node : string;
  ha_services : list hub_service;
  ha_links : list hub_app_link;
}.

Record hub_link := HubLink {
  hk_name : string;
  hk_provider : string;
  hk_providerPort : Z;
  hk_consumer : string;
  hk_localPort : Z;
  hk_createdBy : option link_creator;
}.

Record hub_port := HubPort { hp_node : string; hp_key : string; hp_port : Z }.

(** The values in the order of [Object.entries]. *)
Record hub_secrets := HubSecrets { hx_app : string; hx_service : option string; hx_values : list (string * string) }.

Record hub_binding := HubBinding {
  hb_legacyId : string;
  hb_repo : string;
  hb_branch : string;
  hb_app : string;
  hb_buildNode : option string;
  hb_deployNode : option string;
  hb_port : option Z;
  hb_lastStatus : option git_status;
}.

Record hub_deployment := HubDeployment {
  hd_legacyId : string;
  hd_app : string;
  hd_stage : deploy_stage;
  hd_detail : string;
  hd_urls : list string;
  hd_error : option string;
  hd_startedAt : Z;
  hd_finishedAt : option Z;
}.

(** The meta is the JSON text the row keeps. *)
Record hub_audit := HubAudit {
  hq_hubSeq : Z;
  hq_at : Z;
  hq_actor : string;
  hq_action : string;
  hq_target : option string;
  hq_outcome : audit_outcome;
  hq_dryRun : option bool;
  hq_meta : option string;
}.

Inductive import_batch :=
  | BatchUsers (rows : list hub_user)
  | BatchRoutes (rows : list hub_route)
  | BatchApps (rows : list hub_app)
  | BatchLinks (rows : list hub_link)
  | BatchPorts (rows : list hub_port)
  | BatchSecrets (rows : list hub_secrets)
  | BatchBindings (rows : list hub_binding)
  | BatchDeployments (rows : list hub_deployment)
  | BatchAudit (rows : list hub_audit).

Definition batch_kind (batch : import_batch) : string :=
  match batch with
  | BatchUsers _ => "users" | BatchRoutes _ => "routes" | BatchApps _ => "apps" | BatchLinks _ => "links" | BatchPorts _ => "ports"
  | BatchSecrets _ => "secrets" | BatchBindings _ => "gitBindings" | BatchDeployments _ => "deployments" | BatchAudit _ => "audit"
  end.

Definition scope_label (app : string) (service : option string) : string :=
  match service with None => app | Some service => app +:+ "/" +:+ service end.

(** [rowKey] of every row of a batch. *)
Definition row_keys (batch : import_batch) : list string :=
  match batch with
  | BatchUsers rows => hu_email <$> rows
  | BatchRoutes rows => hr_name <$> rows
  | BatchApps rows => ha_name <$> rows
  | BatchLinks rows => hk_name <$> rows
  | BatchPorts rows => (λ r, hp_node r +:+ " " +:+ hp_key r) <$> rows
  | BatchSecrets rows => (λ r, scope_label (hx_app r) (hx_service r)) <$> rows
  | BatchBindings rows => (λ r, hb_repo r +:+ "@" +:+ hb_branch r) <$> rows
  | BatchDeployments rows => hd_legacyId <$> rows
  | BatchAudit rows => (λ r, "#" +:+ json_Z (hq_hubSeq r)) <$> rows
  end.

(** ** The hash of a row

    [JSON.stringify(sortKeys(row))]: fields that are absent are left out, the others are in the order
    of their names. *)

Definition sorted_object (fields : list (string * option string)) : string :=
  json_object (to_sorted (λ a b, str_cmp a.1 b.1) (omap (λ f, pair f.1 <$> f.2) fields)).

Definition json_bool (b : bool) : string := if b then "true" else "false".
Definition creator_text (c : link_creator) : string := match c with LinkByUser => "user" | LinkByDeploy => "deploy" end.

Definition route_text (r : hub_route) : string :=
  sorted_object [("name", Some (json_string (hr_name r))); ("node", Some (json_string (hr_node r))); ("image", Some (json_string (hr_image r)));
    ("port", Some (json_Z (hr_port r))); ("app", Some (json_string (hr_app r))); ("service", json_string <$> hr_service r)].

Definition service_text (s : hub_service) : string :=
  sorted_object [("name", Some (json_string (hs_name s))); ("image", Some (json_string (hs_image s)));
    ("args", Some (json_array (json_string <$> hs_args s))); ("port", json_Z <$> hs_port s); ("route", json_string <$> hs_route s);
    ("node", json_string <$> hs_node s);
    ("env", (λ env, sorted_object ((λ e, (e.1, Some (json_string e.2))) <$> map_to_list env)) <$> hs_env s)].

Definition app_link_text (l : hub_app_link) : string :=
  sorted_object [("name", Some (json_string (hl_name l))); ("need", Some (json_string (hl_need l))); ("provider", Some (json_string (hl_provider l)));
    ("providerPort", Some (json_Z (hl_providerPort l))); ("consumer", Some (json_string (hl_consumer l))); ("localPort", Some (json_Z (hl_localPort l)))].

Definition app_text (a : hub_app) : string :=
  sorted_object [("name", Some (json_string (ha_name a))); ("node", Some (json_string (ha_node a)));
    ("services", Some (json_array (service_text <$> ha_services a))); ("links", Some (json_array (app_link_text <$> ha_links a)))].

Definition link_text (l : hub_link) : string :=
  sorted_object [("name", Some (json_string (hk_name l))); ("provider", Some (json_string (hk_provider l)));
    ("providerPort", Some (json_Z (hk_providerPort l))); ("consumer", Some (json_string (hk_consumer l)));
    ("localPort", Some (json_Z (hk_localPort l))); ("createdBy", json_string ∘ creator_text <$> hk_createdBy l)].

Definition hub_port_text (p : hub_port) : string :=
  sorted_object [("node", Some (json_string (hp_node p))); ("key", Some (json_string (hp_key p))); ("port", Some (json_Z (hp_port p)))].

Definition git_status_text (g : git_status) : string :=
  sorted_object [("at", Some (json_Z (gs_at g))); ("sha", Some (json_string (gs_sha g))); ("ok", Some (json_bool (gs_ok g)));
    ("stage", Some (json_string (gs_stage g))); ("error", json_string <$> gs_error g)].

Definition binding_text (b : hub_binding) : string :=
  sorted_object [("legacyId", Some (json_string (hb_legacyId b))); ("repo", Some (json_string (hb_repo b)));
    ("branch", Some (json_string (hb_branch b))); ("app", Some (json_string (hb_app b))); ("buildNode", json_string <$> hb_buildNode b);
    ("deployNode", json_string <$> hb_deployNode b); ("port", json_Z <$> hb_port b); ("lastStatus", git_status_text <$> hb_lastStatus b)].

(** What a run shows of its progress. *)
Definition progress_text (stage : deploy_stage) (detail : string) (urls : list string) (error : option string) (finishedAt : option Z) : string :=
  sorted_object [("stage", Some (json_string (stage_name stage))); ("detail", Some (json_string detail));
    ("urls", Some (json_array (json_string <$> urls))); ("error", json_string <$> error); ("finishedAt", json_Z <$> finishedAt)].

(** ** Decisions *)

Inductive import_outcome := RowCreated | RowUpdated | RowUnchanged | RowSkipped | RowRefused.
#[export] Instance import_outcome_eq_dec : EqDecision import_outcome.
Proof. solve_decision. Defined.

(** What one row does, and the write that does it. *)
Record decision := Decision {
  dc_key : string;
  dc_outcome : import_outcome;
  dc_reason : option string;
  dc_write : option (draws → tx accounts unit);
}.

Definition OWNED_BY_CONVEX : string := "owned by Convex".
Definition owned (why : string) : string := OWNED_BY_CONVEX +:+ ": " +:+ why.

Definition skip_row (key reason : string) : decision := Decision key RowSkipped (Some reason) None.
Definition refuse_row (key reason : string) : decision := Decision key RowRefused (Some reason) None.
Definition same_row (key : string) : decision := Decision key RowUnchanged None None.
Definition put_decision (key : string) (exists_ : bool) (write : draws → tx accounts unit) (reason : option string) : decision :=
  Decision key (if exists_ then RowUpdated else RowCreated) reason (Some write).

(** A function of the platform's tables. *)
Definition on_infra_tables {A} (m : tx infra A) : tx accounts A := on_store (on_platform m).

Definition hub_node (name : string) (now : Z) : tx accounts Id := on_infra_tables (ensureNode name SourceHubImport now).
Definition optionalNode (name : option string) (now : Z) : tx accounts (option Id) :=
  match name with None => mret None | Some name => id ← hub_node name now; mret (Some id) end.
Definition nodeIdByName (name : string) : tx accounts (option Id) :=
  row ← on_infra_tables (nodeByName name); mret (fst <$> row).

(** [m] for its effect only. *)
Definition ignoring {S A} (m : tx S A) : tx S unit := m ≫= λ _, mret tt.

Definition appOwnership (app : string) : tx accounts (option string) :=
  dead ← on_store (hasTombstone TombApp app);
  if dead : bool then mret (Some (owned ("App " +:+ app +:+ " was removed in Convex")))
  else
    row ← on_infra_tables (app_named app);
    mret (match row with
          | None => None
          | Some (_, a) =>
              if negb (appOwnedByConvex a) then None
              else Some (owned (if is_some (ap_spec a) then "App " +:+ app +:+ " was deployed through Convex"
                                else "App " +:+ app +:+ " was changed in Convex"))
          end).

(** The text of what a [catch] caught: the data of a [ConvexError], else the message. *)
Definition error_text (e : exn) : string := match e with Thrown message => message | Refused _ _ => "[object Object]" end.

Section import.
Context (aes_encrypt : list Z → list Z → list Z → list Z → list Z).
Context (aes_decrypt : list Z → list Z → list Z → list Z → option (list Z)).
Context (sha256 : list Z → list Z) (decodeUtf8 : list Z → string).

Definition contentHash (text : string) : string := sha256Hex sha256 text.

(** *** Users *)

Definition hub_owner (u : hub_user) : Z := if roleFromHubRoles (hu_roles u) === Owner then 0 else 1.
Definition import_order (a b : hub_user) : Z :=
  if hub_owner a - hub_owner b =? 0 then hu_createdAt a - hu_createdAt b else hub_owner a - hub_owner b.

Definition add_account (row : hub_user) (email : string) (role : permission_role) (now : Z) : tx accounts unit :=
  userId ← insertUser email role (Some (hu_name row)) (Some (hu_createdAt row)) (Some (hu_legacyId row)) now;
  account ← db_unique authAccounts (λ a, (ac_provider a === "password") && (ac_providerAccountId a === email));
  match account with
  | None => ignoring (db_insert authAccounts (AuthAccount userId "password" email (Some (hu_passwordHash row))))
  | Some _ => mret tt
  end.

Definition decideUser (row : hub_user) (now : Z) : tx accounts decision :=
  let key := hu_email row in
  dead ← on_store (hasTombstone TombUser (hu_legacyId row));
  if dead : bool then mret (skip_row key (owned "the account was removed in Convex"))
  else
    let role := roleFromHubRoles (hu_roles row) in
    let email := normalizeEmail (hu_email row) in
    imported ← db_unique users (λ u, us_legacyHubId u === Some (hu_legacyId row));
    match imported with
    | Some (_, u) =>
        let current := effectiveRole (us_role u) in
        mret (if current === role then same_row key
              else skip_row key (owned ("Convex keeps role " +:+ role_name current +:+ "; the Hub has " +:+ role_name role)))
    | None =>
        sameEmail ← db_first users (λ u, us_email u === Some email);
        match sameEmail with
        | Some (i, u) =>
            let current := effectiveRole (us_role u) in
            mret (put_decision key true (λ _,
              db_patch users i (λ u, u <| us_legacyHubId := Some (hu_legacyId row) |>
                <| us_role := Some (if RANK current <? RANK role then role else current) |>)) None)
        | None =>
            mret (match emailRefusal email with
                  | Some refusal => refuse_row key refusal
                  | None => put_decision key false (λ _, add_account row email role now) None
                  end)
        end
    end.

(** *** Routes, Apps, links and ports *)

Definition decideRoute (row : hub_route) (now : Z) : tx accounts decision :=
  let key := hr_name row in
  app ← appOwnership (hr_app row);
  match app with
  | Some why => mret (skip_row key why)
  | None =>
      existing ← on_infra_tables (route_named (hr_name row));
      if match existing with Some (_, r) => writtenByConvex (rt_provenance r) (Some (rt_updatedAt r)) | None => false end then
        mret (skip_row key (owned "the route was written by a Convex deploy or failover"))
      else
        refusal ← on_infra_tables (routeRefusal (hr_name row) (hr_app row));
        match refusal with
        | Some refusal => mret (refuse_row key refusal)
        | None =>
            let hash := contentHash (route_text row) in
            if match existing with Some (_, r) => hubHash (rt_provenance r) === Some hash | None => false end then mret (same_row key)
            else mret (put_decision key (is_some existing) (λ _,
              nodeId ← hub_node (hr_node row) now;
              ignoring (on_infra_tables (upsertRoute (hr_name row) nodeId (hr_image row) (hr_port row) (hr_app row) (hr_service row)
                (Some (Some hash)) now))) None)
        end
  end.

(** The Nodes the routes of an App's services point at, by service. *)
Definition route_node (row : hub_app) (found : gmap string string) (s : hub_service) : tx accounts (gmap string string) :=
  match hs_route s with
  | None => mret found
  | Some label =>
      route ← on_infra_tables (route_named label);
      match route with
      | None => mret found
      | Some (_, r) =>
          if (or_else (ha_name row) (rt_app r) !== ha_name row) || (or_else (hs_name s) (rt_service r) !== hs_name s) then mret found
          else
            routed ← on_infra_tables (db_get nodes (rt_nodeId r));
            mret (match routed with Some n => <[hs_name s := nd_name n]> found | None => found end)
      end
  end.

(** Where a service runs. *)
Definition runs_on (row : hub_app) (routeNode : gmap string string) (failedOver : bool) (s : hub_service) : string :=
  or_else (if failedOver then ha_node row else or_else (ha_node row) (hs_node s)) (routeNode !! hs_name s).

Definition place_notes (row : hub_app) (routeNode : gmap string string) (failedOver : bool) (s : hub_service) : list string :=
  let stored := or_else (ha_node row) (hs_node s) in
  let runs := runs_on row routeNode failedOver s in
  (if runs !== stored then
     ["service " +:+ hs_name s +:+ " placed on " +:+ runs +:+ ", where " +:+
      (if is_some (routeNode !! hs_name s) then "its route " +:+ or_else "undefined" (hs_route s) +:+ " points"
       else "the Hub's failover redeployed the App") +:+ "; the Hub's App row still says " +:+ stored]
   else []) ++
  (if runs !== ha_node row then
     ["service " +:+ hs_name s +:+ " runs on " +:+ runs +:+ ", not on the App's Node " +:+ ha_node row +:+
      "; check it runs there before a redeploy keeps it there"]
   else []).

Definition place_service (row : hub_app) (routeNode : gmap string string) (failedOver : bool) (s : hub_service) : hub_service :=
  let runs := runs_on row routeNode failedOver s in
  if runs === or_else (ha_node row) (hs_node s) then s
  else HubService (hs_name s) (hs_image s) (hs_args s) (hs_port s) (hs_route s) (Some runs) (hs_env s).

Definition placeServices (row : hub_app) : tx accounts (hub_app * list string) :=
  routeNode ← fold_tx (route_node row) ∅ (ha_services row);
  let failedOver := existsb (λ s, (routeNode !! hs_name s === Some (ha_node row)) && (or_else (ha_node row) (hs_node s) !== ha_node row)) (ha_services row) in
  mret (HubApp (ha_name row) (ha_node row) (place_service row routeNode failedOver <$> ha_services row) (ha_links row),
        mjoin (place_notes row routeNode failedOver <$> ha_services row)).

Definition import_service (now : Z) (done_ : list app_service) (s : hub_service) : tx accounts (list app_service) :=
  nodeId ← optionalNode (hs_node s) now;
  mret (done_ ++ [AppService (hs_name s) (hs_image s) (hs_args s) (hs_port s) (hs_route s) nodeId (hs_env s)]).

Definition import_link (now : Z) (done_ : list app_link) (l : hub_app_link) : tx accounts (list app_link) :=
  provider ← hub_node (hl_provider l) now;
  consumer ← hub_node (hl_consumer l) now;
  mret (done_ ++ [AppLink (hl_name l) (hl_need l) provider (hl_providerPort l) consumer (hl_localPort l)]).

Definition write_app (row placed : hub_app) (hash : string) (now : Z) : tx accounts unit :=
  services ← fold_tx (import_service now) [] (ha_services placed);
  links ← fold_tx (import_link now) [] (ha_links row);
  nodeId ← hub_node (ha_node row) now;
  ignoring (on_infra_tables (upsertApp (ha_name row) nodeId services links None (Some (Some hash)) now)).

Definition decideApp (row : hub_app) (now : Z) : tx accounts decision :=
  let key := ha_name row in
  app ← appOwnership (ha_name row);
  match app with
  | Some why => mret (skip_row key why)
  | None =>
      existing ← on_infra_tables (app_named (ha_name row));
      placed ← placeServices row;
      let hash := contentHash (app_text placed.1) in
      if match existing with Some (_, a) => hubHash (ap_provenance a) === Some hash | None => false end then mret (same_row key)
      else mret (put_decision key (is_some existing) (λ _, write_app row placed.1 hash now)
                   (match placed.2 with [] => None | notes => Some (str_join "; " notes) end))
  end.

Definition decideLink (row : hub_link) (now : Z) : tx accounts decision :=
  let key := hk_name row in
  dead ← on_store (hasTombstone TombLink (hk_name row));
  if dead : bool then mret (skip_row key (owned "the link was removed in Convex"))
  else
    existing ← on_infra_tables (link_named (hk_name row));
    if match existing with Some (_, l) => writtenByConvex (ml_provenance l) (Some (ml_updatedAt l)) | None => false end then
      mret (skip_row key (owned "the link was written in Convex"))
    else
      let hash := contentHash (link_text row) in
      if match existing with Some (_, l) => hubHash (ml_provenance l) === Some hash | None => false end then mret (same_row key)
      else mret (put_decision key (is_some existing) (λ _,
        provider ← hub_node (hk_provider row) now;
        consumer ← hub_node (hk_consumer row) now;
        ignoring (on_infra_tables (upsertMeshLink (hk_name row) provider (hk_providerPort row) consumer (hk_localPort row) (hk_createdBy row)
          (Some (Some hash)) now))) None).

(** What the allocation of a port's key on an existing Node decides. *)
Definition decide_allocated (key : string) (row : hub_port) (nodeId : option Id) : tx accounts (option decision) :=
  match nodeId with
  | None => mret None
  | Some nodeId =>
      existing ← on_infra_tables (byNodeKey nodeId (hp_key row));
      mret (match existing with
            | Some (_, p) =>
                if pa_port p =? hp_port row then Some (same_row key)
                else if writtenByConvex (pa_provenance p) None then
                  Some (skip_row key (owned ("Convex allocated port " +:+ json_Z (pa_port p))))
                else None
            | None => None
            end)
  end.

Definition decidePort (row : hub_port) (now : Z) : tx accounts decision :=
  let key := hp_node row +:+ " " +:+ hp_key row in
  why ← match appOfPortKey (hp_key row) with Some app => appOwnership app | None => mret None end;
  match why with
  | Some why => mret (skip_row key why)
  | None =>
      nodeId ← nodeIdByName (hp_node row);
      decided ← decide_allocated key row nodeId;
      match decided with
      | Some d => mret d
      | None =>
          refusal ← on_infra_tables (claimPortRefusal nodeId (hp_key row) (hp_port row) (hp_node row));
          match refusal with
          | Some refusal => mret (refuse_row key refusal)
          | None =>
              let hash := contentHash (hub_port_text row) in
              mret (put_decision key false (λ _,
                nodeId ← hub_node (hp_node row) now;
                ignoring (on_infra_tables (claimPort nodeId (hp_key row) (hp_port row) now (Some hash)))) None)
          end
      end
  end.

(** *** Secrets *)

Definition decide_secret (master : master_key) (scope : secret_scope) (now : Z) (decisions : list decision) (e : string * string)
    : tx accounts (list decision) :=
  let '(name, value) := e in
  let key := secretKey scope name in
  if negb (isValidSecretName name) then mret (decisions ++ [refuse_row key ("Invalid environment variable name: " +:+ name)])
  else
    dead ← on_store (hasTombstone TombSecret key);
    if dead : bool then mret (decisions ++ [skip_row key (owned "the variable was unset in Convex")])
    else
      stored ← on_store (storedSecret aes_decrypt decodeUtf8 master scope name);
      mret (decisions ++ [match stored with
        | Some (r, v) =>
            if writtenByConvex (se_provenance r) (Some (se_updatedAt r)) then skip_row key (owned "the variable was set in Convex")
            else if v === value then same_row key
            else put_decision key true (λ d, on_store (putSecrets aes_encrypt aes_decrypt master scope [(name, value)] d (Some None) now)) None
        | None => put_decision key false (λ d, on_store (putSecrets aes_encrypt aes_decrypt master scope [(name, value)] d (Some None) now)) None
        end]).

Definition decideSecrets (master : master_key) (row : hub_secrets) (now : Z) : tx accounts (list decision) :=
  match secretScope (S := unit) (hx_app row) (hx_service row) tt with
  | Failed e => mret [refuse_row (scope_label (hx_app row) (hx_service row)) (error_text e)]
  | Done (scope, _) => fold_tx (decide_secret master scope now) [] (hx_values row)
  end.

(** *** Bindings *)

Definition binding_owned (b : git_binding) : bool := writtenByConvex (gb_provenance b) (gb_updatedAt b).

(** What a slot another binding holds decides. *)
Definition slot_taken (key : string) (slot : git_binding) (refusal : string) : decision :=
  if is_none (gb_legacyId slot) || binding_owned slot then skip_row key (owned ("the branch is bound in Convex to App " +:+ gb_app slot))
  else refuse_row key refusal.

Definition update_binding (id : Id) (row : hub_binding) (hash : string) (now : Z) : tx accounts unit :=
  buildNodeId ← optionalNode (hb_buildNode row) now;
  deployNodeId ← optionalNode (hb_deployNode row) now;
  on_infra_tables (db_patch gitBindings id (λ b, b <| gb_repo := hb_repo row |> <| gb_branch := hb_branch row |> <| gb_app := hb_app row |>
    <| gb_port := match hb_port row with Some p => Some p | None => gb_port b end |>
    <| gb_lastStatus := match hb_lastStatus row with Some g => Some g | None => gb_lastStatus b end |>
    <| gb_buildNodeId := buildNodeId |> <| gb_deployNodeId := deployNodeId |> <| gb_repoKey := repoKey (hb_repo row) |>
    <| gb_provenance := Some (provenanceFor now (Some (Some hash))) |> <| gb_updatedAt := Some now |>)).

Definition add_binding (row : hub_binding) (hash : string) (now : Z) : tx accounts unit :=
  buildNodeId ← optionalNode (hb_buildNode row) now;
  deployNodeId ← optionalNode (hb_deployNode row) now;
  ignoring (on_infra_tables (insertBinding (BindingInput (hb_repo row) (hb_branch row) (hb_app row) buildNodeId deployNodeId
    (num_of_Z <$> hb_port row) None (Some (hb_legacyId row)) (hb_lastStatus row)) (hb_port row) (Some (Some hash)) now)).

Definition decideBinding (row : hub_binding) (now : Z) : tx accounts decision :=
  let key := hb_repo row +:+ "@" +:+ hb_branch row in
  let hash := contentHash (binding_text row) in
  existing ← on_infra_tables (db_unique gitBindings (λ b, gb_legacyId b === Some (hb_legacyId row)));
  slot ← on_infra_tables (findBinding (hb_repo row) (hb_branch row));
  match existing with
  | Some (i, b) =>
      if binding_owned b then
        mret (skip_row key (owned (match gb_provenance b with
          | Some (ByConvex _) => "a Convex run recorded its result on the binding" | _ => "the binding was changed in Convex" end)))
      else if hubHash (gb_provenance b) === Some hash then mret (same_row key)
      else
        let put_ := put_decision key true (λ _, update_binding i row hash now) None in
        mret (match slot with
              | Some (j, taken) => if j !== i then slot_taken key taken ("Already bound: " +:+ key) else put_
              | None => put_
              end)
  | None =>
      dead ← on_store (hasTombstone TombGitBinding (bindingKey (hb_repo row) (hb_branch row)));
      if dead : bool then mret (skip_row key (owned "the branch was unbound in Convex"))
      else match slot with
      | Some (_, taken) => mret (slot_taken key taken ("Already bound by Hub binding " +:+ or_else "undefined" (gb_legacyId taken) +:+ ": " +:+ key))
      | None =>
          refusal ← on_infra_tables (bindingRefusal (hb_repo row) (hb_branch row));
          mret (match refusal with
                | Some refusal => refuse_row key refusal
                | None => put_decision key false (λ _, add_binding row hash now) None
                end)
      end
  end.

(** *** Deployments and the audit trail *)

Definition decideDeployment (row : hub_deployment) (now : Z) : tx accounts decision :=
  let key := hd_legacyId row in
  existing ← on_infra_tables (db_unique appDeployments (λ d, dp_legacyId d === Some (hd_legacyId row)));
  match existing with
  | Some (i, d) =>
      if contentHash (progress_text (dp_stage d) (dp_detail d) (dp_urls d) (dp_error d) (dp_finishedAt d)) ===
         contentHash (progress_text (hd_stage row) (hd_detail row) (hd_urls row) (hd_error row) (hd_finishedAt row)) then mret (same_row key)
      else mret (put_decision key true (λ _,
        on_infra_tables (db_patch appDeployments i (λ d, d <| dp_stage := hd_stage row |> <| dp_detail := hd_detail row |> <| dp_urls := hd_urls row |>
          <| dp_error := match hd_error row with Some e => Some e | None => dp_error d end |>
          <| dp_finishedAt := match hd_finishedAt row with Some t => Some t | None => dp_finishedAt d end |>))) None)
  | None =>
      retained ← on_infra_tables (readCounter CtrDeployments);
      oldest ← on_infra_tables (read (oldest_deployments 1));
      if (DEPLOYMENTS_KEPT <=? retained) && match oldest with (_, d) :: _ => hd_startedAt row <=? dp_startedAt d | [] => false end then
        mret (skip_row key ("older than the " +:+ json_Z DEPLOYMENTS_KEPT +:+ " newest deployments Convex keeps"))
      else mret (put_decision key false (λ _,
        ignoring (on_infra_tables (createDeployment (DeploymentInput (hd_app row) [] (Trigger TrigHubImport None None None) (Some (hd_stage row))
          (Some (hd_detail row)) (Some (hd_urls row)) (hd_error row) (Some (hd_startedAt row)) (hd_finishedAt row) (Some (hd_legacyId row))) now))) None)
  end.

Definition decideAudit (through : Z) (row : hub_audit) (now : Z) : tx accounts decision :=
  let key := "#" +:+ json_Z (hq_hubSeq row) in
  existing ← on_infra_tables (db_first auditEvents (λ e, ae_hubSeq e === Some (hq_hubSeq row)));
  mret (if is_some existing then same_row key
        else match auditRefusal (hq_action row) (hq_actor row) with
        | Some refusal => refuse_row key refusal
        | None =>
            if hq_hubSeq row <=? through then
              refuse_row key ("Hub audit row " +:+ json_Z (hq_hubSeq row) +:+ " arrived after row " +:+ json_Z through +:+ "; import the trail in order")
            else put_decision key false (λ _,
              ignoring (on_infra_tables (appendAudit (AuditInput (hq_actor row) (hq_action row) (hq_target row) (hq_outcome row)
                (or_else false (hq_dryRun row)) (hq_meta row) (Some (hq_at row)) (Some (hq_hubSeq row))) now))) None
        end).

(** ** A batch *)

Record import_item := ImportItem { it_kind : string; it_key : string; it_outcome : import_outcome; it_reason : option string }.

(** [settle]: run the write when there is one and a writer, and report the row. *)
Definition settle (writes : bool) (kind : string) (ds : nat → draws) (items : list import_item) (d : decision) : tx accounts (list import_item) :=
  match dc_write d with Some write => when writes (write (ds (length items))) | None => mret tt end ≫= λ _,
  mret (items ++ [ImportItem kind (dc_key d) (dc_outcome d) (dc_reason d)]).

(** Each row is decided and settled before the next one is decided. *)
Definition settle_rows {R} (writes : bool) (kind : string) (ds : nat → draws) (decide_row : R → tx accounts decision) (rows : list R)
    : tx accounts (list import_item) :=
  fold_tx (λ items row, d ← decide_row row; settle writes kind ds items d) [] rows.

Definition settle_secrets (writes : bool) (ds : nat → draws) (master : master_key) (now : Z) (items : list import_item) (row : hub_secrets)
    : tx accounts (list import_item) :=
  decisions ← decideSecrets master row now;
  fold_tx (settle writes "secrets" ds) items decisions.

Definition settle_audit (writes : bool) (ds : nat → draws) (now : Z) (state : list import_item * Z) (row : hub_audit) : tx accounts (list import_item * Z) :=
  d ← decideAudit state.2 row now;
  items ← settle writes "audit" ds state.1 d;
  mret (items, if dc_outcome d === RowCreated then hq_hubSeq row else state.2).

Definition processBatch (writes : bool) (env : option string) (ds : nat → draws) (batch : import_batch) (now : Z) : tx accounts (list import_item) :=
  match batch with
  | BatchUsers rows => settle_rows writes "users" ds (λ r, decideUser r now) (to_sorted import_order rows)
  | BatchRoutes rows => settle_rows writes "routes" ds (λ r, decideRoute r now) rows
  | BatchApps rows => settle_rows writes "apps" ds (λ r, decideApp r now) rows
  | BatchLinks rows => settle_rows writes "links" ds (λ r, decideLink r now) rows
  | BatchPorts rows => settle_rows writes "ports" ds (λ r, decidePort r now) rows
  | BatchSecrets rows =>
      master ← requireMasterKey sha256 env;
      fold_tx (settle_secrets writes ds master now) [] rows
  | BatchBindings rows => settle_rows writes "gitBindings" ds (λ r, decideBinding r now) rows
  | BatchDeployments rows =>
      settle_rows writes "deployments" ds (λ r, decideDeployment r now) (to_sorted (λ a b, hd_startedAt a - hd_startedAt b) rows)
  | BatchAudit rows =>
      through ← on_infra_tables (readCounter CtrHubAuditImportedThrough);
      result ← fold_tx (settle_audit writes ds now) ([], through) (to_sorted (λ a b, hq_hubSeq a - hq_hubSeq b) rows);
      when writes (on_infra_tables (writeCounter CtrHubAuditImportedThrough result.2)) ≫= λ _,
      mret result.1
  end.

Definition import_apply (env : option string) (ds : nat → draws) (batch : import_batch) (now : Z) : tx accounts (list import_item) :=
  processBatch true env ds batch now.
Definition previewBatch (env : option string) (ds : nat → draws) (batch : import_batch) (now : Z) : tx accounts (list import_item) :=
  processBatch false env ds batch now.

(** ** Whole runs *)

Definition import_outcome_text (o : import_outcome) : string :=
  match o with
  | RowCreated => "created" | RowUpdated => "updated" | RowUnchanged => "unchanged" | RowSkipped => "skipped" | RowRefused => "refused"
  end.

Record import_report := ImportReport { ip_counts : gmap string (gmap string Z); ip_items : list import_item }.
Definition emptyReport : import_report := ImportReport ∅ [].

Definition add_item (report : import_report) (item : import_item) : import_report :=
  let counts := or_else ∅ (ip_counts report !! it_kind item) in
  let o := import_outcome_text (it_outcome item) in
  ImportReport (<[it_kind item := <[o := or_else 0 (counts !! o) + 1]> counts]> (ip_counts report))
    (ip_items report ++ if it_outcome item === RowUnchanged then [] else [item]).
Definition addItems (report : import_report) (items : list import_item) : import_report := foldl add_item report items.

Definition batchFailure (batch : import_batch) (e : exn) : list import_item :=
  (λ key, ImportItem (batch_kind batch) key RowRefused (Some (error_text e))) <$> row_keys batch.

(** One call of the loop of [run] or [preview]: a batch, the draws of its transaction and its time. *)
Record import_call := ImportCall { cb_batch : import_batch; cb_draws : nat → draws; cb_now : Z }.

Definition run_call (writes : bool) (env : option string) (state : import_report * accounts) (call : import_call) : import_report * accounts :=
  match processBatch writes env (cb_draws call) (cb_batch call) (cb_now call) state.2 with
  | Done (items, s) => (addItems state.1 items, s)
  | Failed e => (addItems state.1 (batchFailure (cb_batch call) e), state.2)
  end.

Definition run_import (env : option string) (calls : list import_call) (s : accounts) : import_report * accounts :=
  foldl (run_call true env) (emptyReport, s) calls.
Definition preview_import (env : option string) (calls : list import_call) (s : accounts) : import_report * accounts :=
  foldl (run_call false env) (emptyReport, s) calls.

End import.
