(* ===== verification/HubImportProperties.v ===== *)
(** Theorems about the Hub importer: it never undoes what Convex wrote, a preview writes nothing, and
    a row that was imported is left alone the next time. *)

From S2P Require Import Prelude JsLib Schema HostLabels Egress AppPolicy InfraSchema InfraStore Nodes DockerArgs AppSpecs Apps Deployments Frames Base64 Vault VaultProperties Accounts AccountProperties Git HubImport.

(** ** What the importer may do to a table *)

(** Rows stay, those that satisfy [own] as they are, and every other row now there satisfies [may]. *)
Definition keeps {D} (own may : D → Prop) (t t' : table D) : Prop :=
  (∀ i d, rows t !! i = Some d → ∃ d', rows t' !! i = Some d' ∧ (own d → d' = d)) ∧
  (∀ i d', rows t' !! i = Some d' → rows t !! i = Some d' ∨ may d').

#[export] Instance keeps_preorder {D} (own may : D → Prop) : PreOrder (keeps own may).
Proof.
  split; [split; eauto|]. intros a b c [K1 M1] [K2 M2]. split.
  - intros i d Hi. destruct (K1 i d Hi) as (d1 & H1 & E1), (K2 i d1 H1) as (d2 & H2 & E2). exists d2. split; [done|]. intros Ho.
    specialize (E1 Ho). subst. auto.
  - intros i d Hi. destruct (M2 i d Hi) as [Hb|?]; [auto|by right].
Qed.

Lemma keeps_add {D} (own may : D → Prop) (t : table D) d : t_wf t → may d → keeps own may t (t_add d t).
Proof.
  intros Hwf Hd. split.
  - intros i e Hi. exists e. split; [|done]. cbn. rewrite lookup_insert_ne; [done|]. intros <-. by rewrite t_wf_fresh in Hi.
  - intros i e Hi. cbn in Hi. apply lookup_insert_Some in Hi as [[<- <-]|[_ Hi]]; auto.
Qed.
Lemma keeps_set {D} (own may : D → Prop) (t : table D) i d d' : rows t !! i = Some d → ¬ own d → may d' → keeps own may t (t_set i d' t).
Proof.
  intros Hi Hno Hd. split.
  - intros j e Hj. cbn. destruct (decide (i = j)) as [<-|Hne]; [|rewrite lookup_insert_ne by done; eauto].
    rewrite lookup_insert_eq. exists d'. split; [done|]. intros Ho. by simplify_eq.
  - intros j e Hj. cbn in Hj. apply lookup_insert_Some in Hj as [[<- <-]|[_ Hj]]; auto.
Qed.

(** ** What it may do to the platform *)

Definition route_owned (r : app_route) : bool := writtenByConvex (rt_provenance r) (Some (rt_updatedAt r)).
Definition link_owned (l : mesh_link) : bool := writtenByConvex (ml_provenance l) (Some (ml_updatedAt l)).
Definition secret_owned (r : app_secret) : bool := writtenByConvex (se_provenance r) (Some (se_updatedAt r)).

(** An App Convex owns. *)
Definition convex_app (p : infra) (a : string) : Prop := ∃ j r, rows (apps p) !! j = Some r ∧ ap_name r = a ∧ appOwnedByConvex r = true.

Section platform.
Context (dead : tombstone_kind → string → Prop).

Record infra_respects (p p' : infra) : Prop := {
  ir_apps : keeps (λ a, appOwnedByConvex a = true) (λ a, ¬ dead TombApp (ap_name a)) (apps p) (apps p');
  ir_routes : keeps (λ r, route_owned r = true) (λ r, ∃ a, rt_app r = Some a ∧ ¬ dead TombApp a) (appRoutes p) (appRoutes p');
  ir_follow i r a : rows (appRoutes p) !! i = Some r → rt_app r = Some a → convex_app p a → rows (appRoutes p') !! i = Some r;
  ir_links : keeps (λ l, link_owned l = true) (λ l, ¬ dead TombLink (ml_name l)) (meshLinks p) (meshLinks p');
  ir_ports : keeps (λ _, True) (λ r, ∀ a, appOfPortKey (pa_key r) = Some a → ¬ dead TombApp a) (portAllocations p) (portAllocations p');
  ir_bindings : keeps (λ b, binding_owned b = true ∨ gb_legacyId b = None) (λ b, gb_legacyId b ≠ None) (gitBindings p) (gitBindings p');
  ir_runs i d : rows (appDeployments p') !! i = Some d → dp_legacyId d = None → rows (appDeployments p) !! i = Some d;
  ir_audit : keeps (λ _, True) (λ _, True) (auditEvents p) (auditEvents p');
  ir_nodes : keeps (λ _, True) (λ n, nd_source n = SourceHubImport) (nodes p) (nodes p');
  ir_rest : nodeCredentials p' = nodeCredentials p ∧ nodeEndpointChallenges p' = nodeEndpointChallenges p ∧ appLeases p' = appLeases p ∧
    nodeCommands p' = nodeCommands p ∧ logTails p' = logTails p ∧ storedFiles p' = storedFiles p ∧ infraCalls p' = infraCalls p;
}.

#[export] Instance infra_respects_preorder : PreOrder infra_respects.
Proof.
  split.
  - intros p. split; try reflexivity; eauto. by split_and!.
  - intros p q r H K. pose proof (ir_apps _ _ H) as [Ka _]. split.
    all: try (etrans; [apply H|apply K]).
    + intros i d a Hi Ha (j & x & Hj & Hn & Ho). eapply (ir_follow _ _ K); [by eapply (ir_follow _ _ H); eauto; exists j, x|done|].
      destruct (Ka j x Hj) as (x' & Hx & E). exists j, x'. rewrite E in * by done. done.
    + intros i d Hi Hd. eapply (ir_runs _ _ H); [|done]. by eapply (ir_runs _ _ K).
    + destruct (ir_rest _ _ H) as (?&?&?&?&?&?&?), (ir_rest _ _ K) as (?&?&?&?&?&?&?). split_and!; congruence.
Qed.

(** The tables whose ids are given out in order. *)
Record infra_wf (p : infra) : Prop := {
  iw_nodes : t_wf (nodes p);
  iw_apps : t_wf (apps p);
  iw_routes : t_wf (appRoutes p);
  iw_links : t_wf (meshLinks p);
  iw_ports : t_wf (portAllocations p);
  iw_bindings : t_wf (gitBindings p);
  iw_audit : t_wf (auditEvents p);
}.
End platform.

(** A step that changes one table: the others are kept as they are. *)
Ltac one_table := split; cbn; try reflexivity; try (by split_and!); try solve [intros; assumption]; try done.

(** ** What it may do to the whole store *)

Definition inf (s : accounts) : infra := platform (platform_store s).
Definition with_inf (p : infra) (s : accounts) : accounts := s <| platform_store := (platform_store s) <| platform := p |> |>.

Lemma with_inf_id s : with_inf (inf s) s = s.
Proof. by destruct s as [[]]. Qed.

Definition dead (s : accounts) (kind : tombstone_kind) (key : string) : Prop :=
  ∃ i t, rows (hubImportTombstones (platform_store s)) !! i = Some t ∧ ts_kind t = kind ∧ ts_key t = key.

Record hub_respects (s s' : accounts) : Prop := {
  hr_tombs : hubImportTombstones (platform_store s') = hubImportTombstones (platform_store s);
  hr_infra : infra_respects (dead s) (inf s) (inf s');
  hr_secrets : keeps (λ r, secret_owned r = true) (λ r, ¬ dead s TombSecret (secretKey (scope_of r) (se_name r)))
    (appSecrets (platform_store s)) (appSecrets (platform_store s'));
  hr_keys : keeps (λ _, True) (λ _, True) (appDataKeys (platform_store s)) (appDataKeys (platform_store s'));
  hr_users : keeps (λ _, False) (λ u, ∃ l, us_legacyHubId u = Some l ∧ ¬ dead s TombUser l) (users s) (users s');
  hr_people i u : rows (users s) !! i = Some u → ∃ u', rows (users s') !! i = Some u' ∧ us_email u' = us_email u ∧ us_name u' = us_name u ∧
    RANK (effectiveRole (us_role u)) ≤ RANK (effectiveRole (us_role u'));
  hr_logins : keeps (λ _, True) (λ _, True) (authAccounts s) (authAccounts s');
  hr_others : authSessions s' = authSessions s ∧ authRefreshTokens s' = authRefreshTokens s ∧ signupGrants s' = signupGrants s ∧
    bootstrapThrottle s' = bootstrapThrottle s ∧ apiTokens s' = apiTokens s;
}.

Lemma dead_same s s' : hubImportTombstones (platform_store s') = hubImportTombstones (platform_store s) → ∀ k key, dead s' k key ↔ dead s k key.
Proof. intros E k key. unfold dead. by rewrite E. Qed.

#[export] Instance hub_respects_preorder : PreOrder hub_respects.
Proof.
  split.
  - intros s. split; try reflexivity; try by split_and!. intros i u Hi. exists u. split_and!; [done..|lia].
  - intros s t r H K. assert (dead t = dead s) as Ed by (unfold dead; by rewrite (hr_tombs _ _ H)). destruct K as [Kt Ki Ks Kk Ku Kp Kl Ko]. rewrite Ed in *. split.
    + rewrite Kt. apply H.
    + etrans; [apply H|done].
    + etrans; [apply H|done].
    + etrans; [apply H|done].
    + etrans; [apply H|done].
    + intros i u Hi. destruct (hr_people _ _ H i u Hi) as (u1 & H1 & E1 & N1 & R1), (Kp i u1 H1) as (u2 & H2 & E2 & N2 & R2).
      exists u2. split_and!; [done|congruence|congruence|lia].
    + etrans; [apply H|done].
    + destruct (hr_others _ _ H) as (?&?&?&?&?), Ko as (?&?&?&?&?). split_and!; congruence.
Qed.

Record tables_wf (s : accounts) : Prop := {
  tw_infra : infra_wf (inf s);
  tw_tombs : t_wf (hubImportTombstones (platform_store s));
  tw_secrets : t_wf (appSecrets (platform_store s));
  tw_keys : t_wf (appDataKeys (platform_store s));
  tw_users : t_wf (users s);
  tw_logins : t_wf (authAccounts s);
}.

(** The two together, as a relation. *)
Definition imports (s s' : accounts) : Prop := tables_wf s → tables_wf s' ∧ hub_respects s s'.
#[export] Instance imports_preorder : PreOrder imports.
Proof.
  split; [intros s Hs; split; [done|reflexivity]|]. intros s t r H K Hs. destruct (H Hs) as [Ht Hst]. destruct (K Ht) as [Hr Htr]. split; [done|]. by etrans.
Qed.

Lemma imports_infra s p : (tables_wf s → infra_wf (inf s) → infra_wf p ∧ infra_respects (dead s) (inf s) p) → imports s (with_inf p s).
Proof.
  intros H Hs. destruct (H Hs (tw_infra s Hs)) as [Hp Hr]. split; [by destruct Hs|]. split; try done; try reflexivity.
  intros i u Hi. exists u. split_and!; [done..|lia].
Qed.

(** ** Runs of lifted transactions *)

Lemma oi_done {A} (m : tx infra A) s a s' : on_infra_tables m s = Done (a, s') → ∃ p, m (inf s) = Done (a, p) ∧ s' = with_inf p s.
Proof.
  unfold on_infra_tables, on_store, on_platform, inf. destruct (m _) as [[b p]|]; [|done]. intros [= <- <-]. eauto.
Qed.
Lemma oi_read {A} (m : tx infra A) s a s' : acts eq m → on_infra_tables m s = Done (a, s') → s' = s ∧ m (inf s) = Done (a, inf s).
Proof. intros Hm (p & Hp & ->)%oi_done. pose proof (Hm _ _ _ Hp) as <-. split; [apply with_inf_id|done]. Qed.

Lemma reads_oi {A} (m : tx infra A) : acts eq m → acts eq (on_infra_tables m).
Proof. intros Hm s a s' H. by apply oi_read in H as [-> _]. Qed.
#[export] Hint Resolve reads_oi : acts.

Lemma tombstone_read k key s b s' : tables_wf s → on_store (hasTombstone k key) s = Done (b, s') → s' = s ∧ (b = false → ¬ dead s k key).
Proof.
  intros Hs H. unfold on_store, hasTombstone, mbind, tx_bind, db_first, read in H. cbn in H. injection H as <- <-. split; [by destruct s|].
  destruct (t_where _ _) as [|x l] eqn:E; [|done]. intros _ (i & t & Hi & Hk & Hkey).
  assert ((i, t) ∈ t_where (λ t, (ts_kind t === k) && (ts_key t === key)) (hubImportTombstones (platform_store s))) as Hin.
  { apply elem_of_t_where; [apply Hs|]. split; [done|]. rewrite !bool_decide_eq_true_2 by done. done. }
  rewrite E in Hin. by apply elem_of_nil in Hin.
Qed.

Lemma reads_app_named n : acts eq (app_named n).
Proof. unfold app_named. acts_walk ltac:(done). Qed.
Lemma reads_route_named n : acts eq (route_named n).
Proof. unfold route_named. acts_walk ltac:(done). Qed.
Lemma reads_link_named n : acts eq (link_named n).
Proof. unfold link_named. acts_walk ltac:(done). Qed.
Lemma reads_routeRefusal l a : acts eq (routeRefusal l a).
Proof. unfold routeRefusal, route_named, loadRouteOwner, take_rows. acts_walk ltac:(done). Qed.
Lemma reads_nodeByName n : acts eq (nodeByName n).
Proof. unfold nodeByName. acts_walk ltac:(done). Qed.
Lemma reads_byNodeKey n k : acts eq (byNodeKey n k).
Proof. unfold byNodeKey. acts_walk ltac:(done). Qed.
Lemma reads_claimPortRefusal n k p name : acts eq (claimPortRefusal n k p name).
Proof. unfold claimPortRefusal, portRefusal, byNodeKey. acts_walk ltac:(done). Qed.
Lemma reads_findBinding r b : acts eq (findBinding r b).
Proof. unfold findBinding. acts_walk ltac:(done). Qed.
Lemma reads_bindingRefusal r b : acts eq (bindingRefusal r b).
Proof. unfold bindingRefusal, findBinding. acts_walk ltac:(done). Qed.
Lemma reads_readCounter n : acts eq (readCounter n).
Proof. unfold readCounter, counterRow. acts_walk ltac:(done). Qed.
#[export] Hint Resolve reads_app_named reads_route_named reads_link_named reads_routeRefusal reads_nodeByName reads_byNodeKey reads_claimPortRefusal
  reads_findBinding reads_bindingRefusal reads_readCounter : acts.

(** The App of a row the Hub may still write. *)
Lemma ownership_read a s why s' : tables_wf s → appOwnership a s = Done (why, s') →
  s' = s ∧ (why = None → ¬ dead s TombApp a ∧ ¬ convex_app (inf s) a).
Proof.
  intros Hs H. unfold appOwnership in H. tx_bind_in H d s1 B1. apply tombstone_read in B1 as [-> Hd]; [|done]. destruct d; [by injection H as <- <-|].
  tx_bind_in H row s1 B1. apply oi_read in B1 as [-> Hrow]; [|auto with acts]. injection H as <- <-. split; [done|]. intros Hn. split; [by apply Hd|].
  intros (j & r & Hj & Hname & Ho). unfold app_named in Hrow. apply db_unique_done in Hrow as [_ Hr].
  assert ((j, r) ∈ t_where (λ a0, ap_name a0 === a) (apps (inf s))) as Hin.
  { apply elem_of_t_where; [apply Hs|]. split; [done|]. by apply bool_decide_eq_true. }
  destruct row as [[i b]|]; [|by rewrite Hr in Hin; apply elem_of_nil in Hin]. rewrite Hr in Hin. apply list_elem_of_singleton in Hin as [= -> ->].
  by rewrite Ho in Hn.
Qed.

(** ** Nodes are only added *)

Definition nodes_only (s s' : accounts) : Prop := ∃ t, s' = with_inf ((inf s) <| nodes := t |>) s ∧
  (t_wf (nodes (inf s)) → t_wf t ∧ keeps (λ _, True) (λ n, nd_source n = SourceHubImport) (nodes (inf s)) t).
#[export] Instance nodes_only_preorder : PreOrder nodes_only.
Proof.
  split.
  - intros s. exists (nodes (inf s)). split; [by destruct s as [[[]]]|]. intros H. split; [done|reflexivity].
  - intros s1 s2 s3 (t & -> & Ht) (t' & -> & Ht'). exists t'. split; [done|]. intros H. destruct (Ht H) as [H1 K1]. destruct (Ht' H1) as [H2 K2].
    split; [done|]. by etrans.
Qed.

Lemma no_hub_node name now : acts nodes_only (hub_node name now).
Proof.
  intros s i s' (p & H & ->)%oi_done. unfold ensureNode in H. tx_bind_in H existing p1 B1. apply reads_nodeByName in B1 as <-. destruct existing as [[j n]|].
  - injection H as <- <-. exists (nodes (inf s)). split; [by destruct s as [[[]]]|]. intros Hw. split; [done|reflexivity].
  - injection H as <- <-. eexists. split; [reflexivity|]. intros Hw. split; [by apply t_wf_add|]. by apply keeps_add.
Qed.
#[export] Hint Resolve no_hub_node : acts.
Lemma no_optionalNode name now : acts nodes_only (optionalNode name now).
Proof. unfold optionalNode. acts_walk ltac:(done). Qed.
#[export] Hint Resolve no_optionalNode : acts.
Lemma no_import_services now l done_ : acts nodes_only (fold_tx (import_service now) done_ l).
Proof. unfold import_service. acts_walk ltac:(done). Qed.
Lemma no_import_links now l done_ : acts nodes_only (fold_tx (import_link now) done_ l).
Proof. unfold import_link. acts_walk ltac:(done). Qed.
#[export] Hint Resolve no_import_services no_import_links : acts.

Lemma nodes_only_imports s s' : nodes_only s s' → imports s s'.
Proof.
  intros (t & -> & Ht). apply imports_infra. intros Hs Hp. destruct (Ht (iw_nodes _ Hp)) as [Hw Hk]. split; [by destruct Hp; split|]. one_table. all: eauto.
Qed.

(** A write that makes Nodes first and then changes the platform: the change sees the same tables. *)
Lemma imports_after_nodes s s1 s' {A} (m : tx infra A) a : nodes_only s s1 → on_infra_tables m s1 = Done (a, s') →
  (tables_wf s → ∀ t p, infra_wf ((inf s) <| nodes := t |>) → m ((inf s) <| nodes := t |>) = Done (a, p) →
     infra_wf p ∧ infra_respects (dead s) ((inf s) <| nodes := t |>) p) →
  imports s s'.
Proof.
  intros Hn H Hm Hs. apply oi_done in H as (p & Hp & ->). destruct (nodes_only_imports _ _ Hn Hs) as [Hs1 Hr1]. destruct Hn as (t & -> & _).
  destruct (imports_infra (with_inf ((inf s) <| nodes := t |>) s) p) as [Hs2 Hr2]; [|done|split; [done|by etrans]].
  intros _ Hw. by eapply Hm.
Qed.

(** ** Decisions *)

(** A decision whose write, run where it was taken, does only what the importer may. *)
Definition safe_decision (s : accounts) (d : decision) : Prop :=
  ∀ write, dc_write d = Some write → ∀ ds u s', write ds s = Done (u, s') → imports s s'.
Definition decides (decide_row : tx accounts decision) : Prop :=
  ∀ s d s', tables_wf s → decide_row s = Done (d, s') → s' = s ∧ safe_decision s d.

Lemma safe_skip s key why : safe_decision s (skip_row key why).
Proof. done. Qed.
Lemma safe_refuse s key why : safe_decision s (refuse_row key why).
Proof. done. Qed.
Lemma safe_same s key : safe_decision s (same_row key).
Proof. done. Qed.
#[local] Hint Resolve safe_skip safe_refuse safe_same : core.

Lemma ignoring_done {S A} (m : tx S A) s u s' : ignoring m s = Done (u, s') → ∃ a, m s = Done (a, s').
Proof. unfold ignoring. intros H. tx_bind_in H a s1 B1. injection H as _ <-. eauto. Qed.

(** Replacing a row the Hub may write, or inserting one. *)
Lemma put_row_imports {D} (tbl : infra → table D) `{!Updater tbl} existing fields p i p' :
  put_row tbl existing fields p = Done (i, p') →
  match existing with
  | None => p' = upd tbl (t_add fields) p
  | Some (k, _) => is_Some (rows (tbl p) !! k) ∧ p' = upd tbl (t_set k fields) p
  end.
Proof.
  unfold put_row. destruct existing as [[k d]|]; [|by intros [= _ <-]]. intros H. tx_bind_in H u p1 B1. apply db_patch_done in B1 as (d' & Hd & ->).
  injection H as _ <-. eauto.
Qed.

(** An upsert finds the row its decision found. *)
Lemma import_upsert_done {D} (tbl : infra → table D) `{!Updater tbl} P existing fields p0 p i p' :
  db_unique tbl P p0 = Done (existing, p0) → tbl p = tbl p0 → (db_unique tbl P ≫= λ e, put_row tbl e fields) p = Done (i, p') →
  match existing with
  | None => p' = upd tbl (t_add fields) p
  | Some (k, d) => rows (tbl p0) !! k = Some d ∧ p' = upd tbl (t_set k fields) p
  end.
Proof.
  intros [_ Hex]%db_unique_done E H. tx_bind_in H found p1 B1. apply db_unique_done in B1 as [-> Hf]. rewrite E in Hf.
  assert (found = existing) as -> by (destruct found, existing; rewrite Hex in Hf; by simplify_eq). apply put_row_imports in H.
  destruct existing as [[k d]|]; [|done]. split; [|apply H]. apply (t_where_sound (tbl p0) P (k, d)). rewrite Hex. left.
Qed.

(** The owner of a route with a recorded App is that App. *)
Lemma route_refusal_owner label app p r i refusal p' : t_where (λ r, rt_name r === label) (appRoutes p) = [(i, r)] →
  routeRefusal label app p = Done (refusal, p') → refusal = None → ∀ a, rt_app r = Some a → a = app.
Proof.
  intros Hr H -> a Ha. unfold routeRefusal in H. tx_bind_in H existing p1 B1. unfold route_named in B1. apply db_unique_done in B1 as [-> Hu].
  destruct existing as [x|]; rewrite Hr in Hu; [|done]. injection Hu as <-. unfold loadRouteOwner, mbind, tx_bind in H. rewrite Ha in H. cbn in H.
  injection H as H _. destruct (a === app) eqn:E; [by apply bool_decide_eq_true in E|done].
Qed.

Section hashes.
Context (aes_encrypt : list Z → list Z → list Z → list Z → list Z).
Context (aes_decrypt : list Z → list Z → list Z → list Z → option (list Z)).
Context (sha256 : list Z → list Z) (decodeUtf8 : list Z → string).

Lemma decideRoute_decides row now : decides (decideRoute sha256 row now).
Proof.
  intros s d s' Hs H. unfold decideRoute in H. tx_bind_in H why s1 B1. apply ownership_read in B1 as [-> Hwhy]; [|done]. destruct why as [why|]; [injection H as <- <-; auto|].
  destruct (Hwhy eq_refl) as [Hdead Happ]. tx_bind_in H existing s1 B2. apply oi_read in B2 as [-> Hex]; [|auto with acts].
  destruct (match existing with Some (_, r) => _ | None => false end) eqn:Eown; [injection H as <- <-; auto|].
  tx_bind_in H refusal s1 B3. apply oi_read in B3 as [-> Href]; [|auto with acts]. destruct refusal as [refusal|]; [injection H as <- <-; auto|].
  destruct (match existing with Some (_, r) => hubHash _ === _ | None => false end); [injection H as <- <-; auto|]. injection H as <- <-. split; [done|].
  intros w [= <-] ds u s' H. tx_bind_in H nodeId s1 B4. apply no_hub_node in B4. apply ignoring_done in H as (k & H). eapply imports_after_nodes; [exact B4|exact H|].
  clear H B4. intros _ t p Hw H. unfold upsertRoute in H. tx_bind_in H ref p1 B5. apply reads_routeRefusal in B5 as <-. destruct ref; [done|].
  eapply import_upsert_done in H; [|exact Hex|done]. destruct existing as [[i r]|].
  - destruct H as [Hi ->]. apply db_unique_done in Hex as [_ Hex]. split.
    + destruct Hw; split; try done. by eapply t_wf_set.
    + one_table.
      * apply (keeps_set _ _ _ i r); [done|unfold route_owned; congruence|]. by eexists.
      * intros j r0 a Hj Ha Hc. destruct (decide (i = j)) as [<-|Hne]; [|by rewrite lookup_insert_ne]. exfalso. rewrite Hi in Hj. injection Hj as <-.
        apply Happ. by rewrite <- (route_refusal_owner _ _ _ _ _ _ _ Hex Href eq_refl a Ha).
  - subst p. split.
    + destruct Hw; split; try done. by apply t_wf_add.
    + one_table.
      * apply keeps_add; [apply Hw|]. by eexists.
      * intros j r0 a Hj Ha Hc. rewrite lookup_insert_ne; [done|]. intros <-. assert (t_wf (appRoutes (inf s))) as Hfr by apply Hw. by rewrite t_wf_fresh in Hj.
Qed.

Lemma reads_placeServices row : acts eq (placeServices row).
Proof.
  unfold placeServices, route_node. acts_walk ltac:(done).
Qed.

Lemma decideApp_decides row now : decides (decideApp sha256 row now).
Proof.
  intros s d s' Hs H. unfold decideApp in H. tx_bind_in H why s1 B1. apply ownership_read in B1 as [-> Hwhy]; [|done]. destruct why as [why|]; [injection H as <- <-; auto|].
  destruct (Hwhy eq_refl) as [Hdead Happ]. tx_bind_in H existing s1 B2. apply oi_read in B2 as [-> Hex]; [|auto with acts].
  tx_bind_in H placed s1 B3. apply reads_placeServices in B3 as <-.
  destruct (match existing with Some (_, r) => _ | None => false end); [injection H as <- <-; auto|]. injection H as <- <-. split; [done|].
  intros w [= <-] ds u s' H. unfold write_app in H. tx_bind_in H services s1 B4. apply no_import_services in B4. tx_bind_in H links s2 B5. apply no_import_links in B5.
  tx_bind_in H nodeId s3 B6. apply no_hub_node in B6. apply ignoring_done in H as (k & H).
  eapply imports_after_nodes; [etrans; [exact B4|etrans; [exact B5|exact B6]]|exact H|].
  clear H B4 B5 B6. intros _ t p Hw H. unfold upsertApp in H. eapply import_upsert_done in H; [|exact Hex|done]. destruct existing as [[i a]|].
  - destruct H as [Hi ->]. apply db_unique_done in Hex as [_ Hex].
    assert (ap_name a = ha_name row) as Hname.
    { destruct (t_where_sound (apps (inf s)) _ (i, a) ltac:(rewrite Hex; left)) as [_ Hn%bool_decide_eq_true]. done. }
    split; [destruct Hw; split; try done; by eapply t_wf_set|]. one_table. apply (keeps_set _ _ _ i a); [done| |done].
    intros Ho. apply Happ. by exists i, a.
  - subst p. split; [destruct Hw; split; try done; by apply t_wf_add|]. one_table. apply keeps_add; [apply Hw|done].
Qed.

Lemma decideLink_decides row now : decides (decideLink sha256 row now).
Proof.
  intros s d s' Hs H. unfold decideLink in H. tx_bind_in H gone s1 B1. apply tombstone_read in B1 as [-> Hdead]; [|done]. destruct gone; [injection H as <- <-; auto|].
  specialize (Hdead eq_refl). tx_bind_in H existing s1 B2. apply oi_read in B2 as [-> Hex]; [|auto with acts].
  destruct (match existing with Some (_, r) => _ | None => false end) eqn:Eown; [injection H as <- <-; auto|].
  destruct (match existing with Some (_, r) => hubHash _ === _ | None => false end); [injection H as <- <-; auto|]. injection H as <- <-. split; [done|].
  intros w [= <-] ds u s' H. tx_bind_in H provider s1 B4. apply no_hub_node in B4. tx_bind_in H consumer s2 B5. apply no_hub_node in B5.
  apply ignoring_done in H as (k & H). eapply imports_after_nodes; [etrans; [exact B4|exact B5]|exact H|].
  clear H B4 B5. intros _ t p Hw H. unfold upsertMeshLink in H. eapply import_upsert_done in H; [|exact Hex|done]. destruct existing as [[i l]|].
  - destruct H as [Hi ->]. split; [destruct Hw; split; try done; by eapply t_wf_set|]. one_table. apply (keeps_set _ _ _ i l); [done|unfold link_owned; congruence|done].
  - subst p. split; [destruct Hw; split; try done; by apply t_wf_add|]. one_table. apply keeps_add; [apply Hw|done].
Qed.

Lemma decidePort_decides row now : decides (decidePort sha256 row now).
Proof.
  intros s d s' Hs H. unfold decidePort in H. tx_bind_in H why s1 B1.
  assert (s1 = s ∧ (why = None → ∀ a, appOfPortKey (hp_key row) = Some a → ¬ dead s TombApp a)) as [-> Hwhy].
  { destruct (appOfPortKey (hp_key row)) as [a|]; [|by injection B1 as <- <-]. apply ownership_read in B1 as [-> Hn]; [|done]. split; [done|].
    intros -> b [= <-]. by apply Hn. }
  destruct why as [why|]; [injection H as <- <-; auto|]. specialize (Hwhy eq_refl).
  tx_bind_in H nodeId s1 B2. unfold nodeIdByName in B2. tx_bind_in B2 node0 s2 B3. apply oi_read in B3 as [-> _]; [|auto with acts]. injection B2 as <- <-.
  tx_bind_in H decided s1 B2. assert (s1 = s ∧ ∀ d, decided = Some d → safe_decision s d) as [-> Hdec].
  { unfold decide_allocated in B2. destruct (fst <$> node0); [|by injection B2 as <- <-]. tx_bind_in B2 existing s2 B3. apply oi_read in B3 as [-> _]; [|auto with acts].
    injection B2 as <- <-. split; [done|]. intros d0 E0. repeat case_match; simplify_eq; auto. }
  destruct decided as [d0|]; [injection H as <- <-; auto|]. tx_bind_in H refusal s1 B3. apply oi_read in B3 as [-> _]; [|auto with acts].
  destruct refusal as [refusal|]; [injection H as <- <-; auto|]. injection H as <- <-. split; [done|].
  intros w [= <-] ds u s' H. tx_bind_in H n s1 B4. apply no_hub_node in B4. apply ignoring_done in H as (k & H). eapply imports_after_nodes; [exact B4|exact H|].
  clear H B4. intros _ t p Hw H. unfold claimPort in H. tx_bind_in H ref p1 B5. apply reads_claimPortRefusal in B5 as <-. destruct ref; [done|].
  tx_bind_in H existing p1 B5. apply reads_byNodeKey in B5 as <-. destruct existing as [[i r]|]; [injection H as _ <-; split; [done|reflexivity]|].
  tx_bind_in H u1 p1 B5. injection H as _ <-. unfold insertAllocation in B5. tx_bind_in B5 ref p2 B6.
  assert (p2 = (inf s) <| nodes := t |>) as ->.
  { revert B6. match goal with |- ?m _ = _ → _ => cut (acts eq m); [intros Ha E; symmetry; by eapply Ha|] end. unfold portRefusal. acts_walk ltac:(done). }
  destruct ref; [done|]. tx_bind_in B5 i p3 B7. injection B7 as _ <-. injection B5 as _ <-.
  split; [destruct Hw; split; try done; by apply t_wf_add|]. one_table. apply keeps_add; [apply Hw|done].
Qed.

Lemma slot_taken_safe s key taken why : safe_decision s (slot_taken key taken why).
Proof. unfold slot_taken. by case_match. Qed.
#[local] Hint Resolve slot_taken_safe : core.

Lemma update_binding_imports s row hash now i b u s' : rows (gitBindings (inf s)) !! i = Some b → gb_legacyId b ≠ None → binding_owned b = false →
  update_binding i row hash now s = Done (u, s') → imports s s'.
Proof.
  intros Hi Hl Ho H. unfold update_binding in H. tx_bind_in H build s1 B4. apply no_optionalNode in B4. tx_bind_in H deploy s2 B5. apply no_optionalNode in B5.
  eapply imports_after_nodes; [etrans; [exact B4|exact B5]|exact H|]. clear H B4 B5. intros _ t p Hw H. apply db_patch_done in H as (b' & Hb' & ->). cbn in Hb'.
  rewrite Hi in Hb'. injection Hb' as <-. split; [destruct Hw; split; try done; by eapply t_wf_set|]. one_table. apply (keeps_set _ _ _ i b); [done| |done].
  intros [?|?]; congruence.
Qed.

Lemma decideBinding_decides row now : decides (decideBinding sha256 row now).
Proof.
  intros s d s' Hs H. unfold decideBinding in H. tx_bind_in H existing s1 B1. apply oi_read in B1 as [-> Hex]; [|acts_walk ltac:(done)].
  tx_bind_in H slot s1 B2. apply oi_read in B2 as [-> _]; [|auto with acts]. destruct existing as [[i b]|].
  - apply db_unique_done in Hex as [_ Hex]. destruct (t_where_sound (gitBindings (inf s)) _ (i, b) ltac:(rewrite Hex; left)) as [Hi Hl%bool_decide_eq_true]. cbn in Hi, Hl.
    destruct (binding_owned b) eqn:Eo; [injection H as <- <-; auto|]. destruct (hubHash _ === _); [injection H as <- <-; auto|]. injection H as <- <-. split; [done|].
    assert (safe_decision s (put_decision (hb_repo row +:+ "@" +:+ hb_branch row) true (λ _, update_binding i row (contentHash sha256 (binding_text row)) now) None)) as Hput.
    { intros w [= <-] ds u s' H. eapply update_binding_imports; [done|congruence|done|done]. }
    destruct slot as [[j taken]|]; [|done]. by case_match.
  - tx_bind_in H gone s1 B3. apply tombstone_read in B3 as [-> _]; [|done]. destruct gone; [injection H as <- <-; auto|].
    destruct slot as [[j taken]|]; [injection H as <- <-; auto|]. tx_bind_in H refusal s1 B3. apply oi_read in B3 as [-> _]; [|auto with acts].
    destruct refusal as [refusal|]; [injection H as <- <-; auto|]. injection H as <- <-. split; [done|]. intros w [= <-] ds u s' H. unfold add_binding in H.
    tx_bind_in H build s1 B4. apply no_optionalNode in B4. tx_bind_in H deploy s2 B5. apply no_optionalNode in B5. apply ignoring_done in H as (k & H).
    eapply imports_after_nodes; [etrans; [exact B4|exact B5]|exact H|]. clear H B4 B5. intros _ t p Hw H. unfold insertBinding in H.
    tx_bind_in H ref p1 B6. apply reads_bindingRefusal in B6 as <-. destruct ref; [done|]. injection H as _ <-.
    split; [destruct Hw; split; try done; by apply t_wf_add|]. one_table. apply keeps_add; [apply Hw|done].
Qed.

(** Creating and trimming leaves the runs that are left as they are, but for the new one. *)
Definition runs_kept (legacy : option string) (p p' : infra) : Prop :=
  p' = p <| appDeployments := appDeployments p' |> <| infraCounters := infraCounters p' |> ∧
  ∀ i d, rows (appDeployments p') !! i = Some d → rows (appDeployments p) !! i = Some d ∨ dp_legacyId d = legacy.
#[local] Instance runs_kept_preorder legacy : PreOrder (runs_kept legacy).
Proof.
  split; [intros []; by split; [|left]|]. intros a b c [E1 K1] [E2 K2]. split; [rewrite E2, E1; done|]. intros i d Hi. destruct (K2 i d Hi); [auto|by right].
Qed.

Lemma createDeployment_kept inp now : acts (runs_kept (di_legacyId inp)) (createDeployment inp now).
Proof.
  unfold createDeployment, bumpCounter, readCounter, writeCounter, counterRow, trim_deployments, writeCounter, counterRow.
  acts_walk ltac:(split; [done|]; intros j e Hj; cbn in Hj; first [by left | apply lookup_delete_Some in Hj as [_ Hj]; by left |
    apply lookup_insert_Some in Hj as [[<- <-]|[_ Hj]]; [by right|by left]]).
Qed.

Lemma decideDeployment_decides row now : decides (decideDeployment sha256 row now).
Proof.
  intros s d s' Hs H. unfold decideDeployment in H. tx_bind_in H existing s1 B1. apply oi_read in B1 as [-> Hex]; [|acts_walk ltac:(done)]. destruct existing as [[i r]|].
  - apply db_unique_done in Hex as [_ Hex]. destruct (t_where_sound (appDeployments (inf s)) _ (i, r) ltac:(rewrite Hex; left)) as [Hi Hl%bool_decide_eq_true]. cbn in Hi, Hl.
    case_match; [injection H as <- <-; auto|]. injection H as <- <-. split; [done|]. intros w [= <-] ds u s' (p & H & ->)%oi_done. apply imports_infra. intros _ Hw.
    apply db_patch_done in H as (r' & Hr' & ->). rewrite Hi in Hr'. injection Hr' as <-. split; [by destruct Hw; split|]. one_table.
    intros j e Hj He. apply lookup_insert_Some in Hj as [[<- <-]|[_ Hj]]; [|done]. cbn in He. congruence.
  - tx_bind_in H retained s1 B2. apply oi_read in B2 as [-> _]; [|auto with acts]. tx_bind_in H oldest0 s1 B2. apply oi_read in B2 as [-> _]; [|apply acts_read, _].
    case_match; [injection H as <- <-; auto|]. injection H as <- <-. split; [done|]. intros w [= <-] ds u s' H. apply ignoring_done in H as (k & H).
    apply oi_done in H as (p & H & ->). apply imports_infra. intros _ Hw. apply createDeployment_kept in H as [E K]. cbn [di_legacyId] in K. rewrite E.
    split; [by destruct Hw; split|]. one_table. intros j e Hj He. destruct (K j e Hj); [done|congruence].
Qed.

Definition audit_only (p p' : infra) : Prop :=
  p' = p <| auditEvents := auditEvents p' |> <| infraCounters := infraCounters p' |> ∧
  (t_wf (auditEvents p) → t_wf (auditEvents p') ∧ keeps (λ _, True) (λ _, True) (auditEvents p) (auditEvents p')).
#[local] Instance audit_only_preorder : PreOrder audit_only.
Proof.
  split; [intros []; split; [done|]; intros H; split; [done|reflexivity]|]. intros a b c [E1 K1] [E2 K2]. split; [rewrite E2, E1; done|].
  intros H. destruct (K1 H) as [H1 ?]. destruct (K2 H1) as [H2 ?]. split; [done|]. by etrans.
Qed.

Lemma audit_appendAudit e now : acts audit_only (appendAudit e now).
Proof.
  unfold appendAudit, bumpCounter, readCounter, writeCounter, counterRow.
  acts_walk ltac:(split; [done|]; intros Hwf; cbn in *; first [split; [done|reflexivity]|split; [by apply t_wf_add|by apply keeps_add]]).
Qed.

Lemma audit_writeCounter n v : acts audit_only (writeCounter n v).
Proof. unfold writeCounter, counterRow. acts_walk ltac:(split; [done|]; intros Hwf; cbn in *; split; [done|reflexivity]). Qed.

Lemma audit_only_imports {A} (m : tx infra A) : acts audit_only m → acts imports (on_infra_tables m).
Proof.
  intros Hm s a s' (p & H & ->)%oi_done. apply imports_infra. intros _ Hw. destruct (Hm _ _ _ H) as [E K]. destruct (K (iw_audit _ Hw)) as [Hwf Hk]. rewrite E.
  split; [by destruct Hw; split|]. one_table.
Qed.

Lemma decideAudit_decides through row now : decides (decideAudit through row now).
Proof.
  intros s d s' Hs H. unfold decideAudit in H. tx_bind_in H existing s1 B1. apply oi_read in B1 as [-> _]; [|acts_walk ltac:(done)]. injection H as <- <-. split; [done|].
  case_match; [done|]. case_match; [done|]. case_match; [done|]. intros w [= <-] ds u s' Hrun. apply ignoring_done in Hrun as (k & Hrun).
  by eapply audit_only_imports; [apply audit_appendAudit|].
Qed.

Lemma imports_users s s' : platform_store s' = platform_store s → (tables_wf s → tables_wf s' ∧
    keeps (λ _, False) (λ u, ∃ l, us_legacyHubId u = Some l ∧ ¬ dead s TombUser l) (users s) (users s') ∧
    (∀ i u, rows (users s) !! i = Some u → ∃ u', rows (users s') !! i = Some u' ∧ us_email u' = us_email u ∧ us_name u' = us_name u ∧
      RANK (effectiveRole (us_role u)) ≤ RANK (effectiveRole (us_role u'))) ∧
    keeps (λ _, True) (λ _, True) (authAccounts s) (authAccounts s') ∧
    authSessions s' = authSessions s ∧ authRefreshTokens s' = authRefreshTokens s ∧ signupGrants s' = signupGrants s ∧
    bootstrapThrottle s' = bootstrapThrottle s ∧ apiTokens s' = apiTokens s) → imports s s'.
Proof.
  intros E H Hs. destruct (H Hs) as (Hs' & Hu & Hp & Ha & Ho). split; [done|]. unfold inf. split; rewrite ?E; try done; try reflexivity. unfold inf. rewrite E. reflexivity.
Qed.

Lemma decideUser_decides row now : decides (decideUser row now).
Proof.
  intros s d s' Hs H. unfold decideUser in H. tx_bind_in H gone s1 B1. apply tombstone_read in B1 as [-> Hdead]; [|done]. destruct gone; [injection H as <- <-; auto|].
  specialize (Hdead eq_refl). tx_bind_in H imported s1 B2. apply unique_row in B2 as [-> Himp]; [|apply Hs]. destruct imported as [[k x]|].
  { injection H as <- <-. split; [done|]. by case_match. }
  tx_bind_in H sameEmail s1 B3. injection B3 as Hfirst <-. destruct sameEmail as [[i u]|].
  - injection H as <- <-. split; [done|]. intros w [= <-] ds v s' Hrun. apply db_patch_done in Hrun as (u' & Hu' & ->).
    assert (rows (users s) !! i = Some u) as Hi.
    { apply (t_where_sound (users s) (λ u, us_email u === Some (normalizeEmail (hu_email row))) (i, u)). destruct (t_where _ _) as [|y l]; [done|].
      injection Hfirst as ->. left. }
    rewrite Hi in Hu'. injection Hu' as <-. apply imports_users; [done|]. intros Hwf. split_and!; try done.
    + destruct Hwf; split; try done. by eapply t_wf_set.
    + apply (keeps_set _ _ _ i u); [done|by intros []|cbn; eauto].
    + intros j y Hj. cbn. destruct (decide (i = j)) as [<-|Hne]; [|rewrite lookup_insert_ne by done; exists y; split_and!; [done..|lia]].
      rewrite lookup_insert_eq, Hi in *. injection Hj as <-. eexists. split_and!; [done..|]. cbn [us_role effectiveRole or_else].
      destruct (Z.ltb_spec (RANK (effectiveRole (us_role u))) (RANK (roleFromHubRoles (hu_roles row)))); cbn; lia.
  - injection H as <- <-. split; [done|]. destruct (emailRefusal _); [done|]. intros w [= <-] ds v s' Hrun. unfold add_account in Hrun.
    tx_bind_in Hrun userId s1 B4. unfold insertUser in B4. destruct (emailRefusal _); [done|]. tx_bind_in B4 found s2 B5. injection B5 as _ <-. destruct found; [done|].
    tx_bind_in B4 first0 s2 B5. injection B5 as _ <-. injection B4 as <- <-. tx_bind_in Hrun account s2 B6. apply db_unique_done in B6 as [-> _].
    set (new := UserRow _ _ _ _ _ now) in Hrun. assert (tables_wf s →
      keeps (λ _, False) (λ u, ∃ l, us_legacyHubId u = Some l ∧ ¬ dead s TombUser l) (users s) (t_add new (users s)) ∧
      (∀ i u, rows (users s) !! i = Some u → ∃ u', rows (t_add new (users s)) !! i = Some u' ∧ us_email u' = us_email u ∧ us_name u' = us_name u ∧
        RANK (effectiveRole (us_role u)) ≤ RANK (effectiveRole (us_role u')))) as Hadd.
    { intros Hwf. split; [apply keeps_add; [apply Hwf|cbn; eauto]|]. intros i u Hi. exists u. cbn. rewrite lookup_insert_ne; [split_and!; [done..|lia]|].
      intros <-. by rewrite t_wf_fresh in Hi by apply Hwf. }
    apply imports_users.
    + destruct account; [by injection Hrun as _ <-|]. apply ignoring_done in Hrun as (k & [= _ <-]). done.
    + intros Hwf. destruct (Hadd Hwf) as [Hk Hp]. destruct account as [account|].
      * injection Hrun as _ <-. split_and!; try done; try reflexivity. destruct Hwf; split; try done. by apply t_wf_add.
      * apply ignoring_done in Hrun as (k & [= _ <-]). split_and!; try done.
        -- destruct Hwf; split; try done; by apply t_wf_add.
        -- apply keeps_add; [apply Hwf|done].
Qed.

(** *** Secrets *)

Lemma in_scope_of scope r : in_scope scope r = true ↔ scope_of r = scope.
Proof.
  unfold in_scope, scope_of. destruct scope as [a v]. cbn. rewrite andb_true_iff, !bool_decide_eq_true. split; [by intros [-> ->]|by intros [= -> ->]].
Qed.

(** Writing one variable: a data key may be new, one row of the scope and name is written. *)
Lemma putSecrets_one master scope name value d now v u v' :
  putSecrets aes_encrypt aes_decrypt master scope [(name, value)] d (Some None) now v = Done (u, v') →
  platform v' = platform v ∧ hubImportTombstones v' = hubImportTombstones v ∧
  (appDataKeys v' = appDataKeys v ∨ ∃ k, appDataKeys v' = t_add k (appDataKeys v)) ∧
  ∃ r', scope_of r' = scope ∧ se_name r' = name ∧ secret_owned r' = false ∧
    (appSecrets v' = t_add r' (appSecrets v) ∨
     ∃ i r, rows (appSecrets v) !! i = Some r ∧ scope_of r = scope ∧ se_name r = name ∧ appSecrets v' = t_set i r' (appSecrets v)).
Proof.
  intros H. unfold putSecrets in H. tx_bind_in H scope1 v1 B1. assert (scope1 = scope ∧ v1 = v) as [-> ->].
  { unfold secretScope in B1. destruct scope as [a [sv|]]; cbn in B1; repeat (case_match; [done|]); by injection B1 as <- <-. }
  tx_bind_in H u1 v1 B2. assert (v1 = v) as -> by (cbn in B2; unfold mbind, tx_bind in B2; destruct (negb _); [done|]; by injection B2 as _ <-).
  tx_bind_in H key v1 B3. assert (platform v1 = platform v ∧ hubImportTombstones v1 = hubImportTombstones v ∧ appSecrets v1 = appSecrets v ∧
    (appDataKeys v1 = appDataKeys v ∨ ∃ k, appDataKeys v1 = t_add k (appDataKeys v))) as (E1 & E2 & E3 & E4).
  { unfold writableDataKey, dataKeyRow in B3. tx_bind_in B3 row v2 B4. apply db_unique_done in B4 as [-> _]. destruct row as [row|].
    - assert (v1 = v) as ->; [|auto].
      revert B3. match goal with |- ?m _ = _ → _ => cut (acts eq m); [intros Ha E; symmetry; by eapply Ha|] end.
      unfold unwrapDataKey, open_sealed, importKey. acts_walk ltac:(done).
    - tx_bind_in B3 created v2 B4. assert (v2 = v) as ->.
      { revert B4. match goal with |- ?m _ = _ → _ => cut (acts eq m); [intros Ha E; symmetry; by eapply Ha|] end. unfold newDataKey, importKey. acts_walk ltac:(done). }
      tx_bind_in B3 i v3 B5. injection B5 as _ <-. injection B3 as _ <-. split_and!; try done. right. by eexists. }
  cbn [for_each] in H. tx_bind_in H u2 v2 B5. injection H as _ <-. unfold put_secret in B5. tx_bind_in B5 existing v3 B6.
  unfold secret_row in B6. apply db_unique_done in B6 as [-> Hex]. cbn [fst snd] in *. rewrite <- E1, <- E2, <- E3. destruct existing as [[i r]|].
  - apply db_patch_done in B5 as (r' & Hr' & ->). destruct (t_where_sound (appSecrets v1) _ (i, r) ltac:(rewrite Hex; left)) as [Hi [Hsc Hn%bool_decide_eq_true]%andb_true_iff].
    cbn in Hi, Hsc, Hn. apply in_scope_of in Hsc. cbn in Hr'. rewrite Hi in Hr'. injection Hr' as <-. split; [done|]. split; [done|]. split; [done|].
    eexists. split; [|split; [|split; [|right; exists i, r; split_and!; [done..|reflexivity]]]]; [by rewrite <- Hsc|done|].
    unfold secret_owned. cbn. by rewrite Z.eqb_refl.
  - tx_bind_in B5 i v3 B6. injection B6 as _ <-. injection B5 as _ <-. split; [done|]. split; [done|]. split; [done|].
    eexists. split; [|split; [|split; [|left; reflexivity]]]; [by destruct scope|done|]. unfold secret_owned. cbn. by rewrite Z.eqb_refl.
Qed.

(** A variable the Hub may write. *)
Definition secret_open (s : accounts) (scope : secret_scope) (name : string) : Prop :=
  ¬ dead s TombSecret (secretKey scope name) ∧
  ∀ i r, rows (appSecrets (platform_store s)) !! i = Some r → scope_of r = scope → se_name r = name → secret_owned r = false.

Lemma put_variable master scope name value d now s u s' : secret_open s scope name →
  on_store (putSecrets aes_encrypt aes_decrypt master scope [(name, value)] d (Some None) now) s = Done (u, s') →
  imports s s' ∧ ∀ scope' name', secret_open s scope' name' → secret_open s' scope' name'.
Proof.
  intros [Hdead Hown] H. unfold on_store in H. destruct (putSecrets _ _ _ _ _ _ _ _ _) as [[u1 v]|] eqn:E; [|done]. injection H as _ <-.
  apply putSecrets_one in E as (Ep & Et & Ek & r' & Hsc & Hn & Ho & Hw). split.
  - intros Hs. split.
    + destruct Hs. split; unfold inf; cbn; rewrite ?Ep, ?Et; try done.
      * destruct Hw as [->|(i & r & Hi & _ & _ & ->)]; [by apply t_wf_add|by eapply t_wf_set].
      * destruct Ek as [->|(k & ->)]; [done|by apply t_wf_add].
    + split; unfold inf; cbn; rewrite ?Ep, ?Et; try done; try reflexivity.
      * destruct Hw as [->|(i & r & Hi & Hs1 & Hn1 & ->)]; [apply keeps_add; [apply Hs|by rewrite Hsc, Hn]|].
        apply (keeps_set _ _ _ i r); [done| |by rewrite Hsc, Hn]. rewrite (Hown i r Hi Hs1 Hn1). done.
      * destruct Ek as [->|(k & ->)]; [reflexivity|apply keeps_add; [apply Hs|done]].
      * intros i x Hi. exists x. split_and!; [done..|lia].
  - intros scope' name' [Hd' Ho']. split; [unfold dead; cbn; by rewrite Et|]. cbn. intros i r Hi Hs1 Hn1. destruct Hw as [E|(j & r0 & Hj & _ & _ & E)]; rewrite E in Hi; cbn in Hi.
    + apply lookup_insert_Some in Hi as [[<- <-]|[_ Hi]]; [done|by eapply Ho'].
    + apply lookup_insert_Some in Hi as [[<- <-]|[_ Hi]]; [done|by eapply Ho'].
Qed.

Definition variable_decision (master : master_key) (now : Z) (s : accounts) (d : decision) : Prop :=
  ∀ write, dc_write d = Some write → ∃ scope name value, secret_open s scope name ∧
    write = λ d, on_store (putSecrets aes_encrypt aes_decrypt master scope [(name, value)] d (Some None) now).

Lemma decideSecrets_decides master row now s ds s' : tables_wf s → decideSecrets aes_encrypt aes_decrypt decodeUtf8 master row now s = Done (ds, s') →
  s' = s ∧ Forall (variable_decision master now s) ds.
Proof.
  intros Hs. unfold decideSecrets. destruct (secretScope _ _ tt) as [[scope u]|e]; [|intros [= <- <-]; split; [done|by repeat constructor]].
  revert s' ds. assert (observes s (fold_tx (decide_secret aes_encrypt aes_decrypt decodeUtf8 master scope now) [] (hx_values row)) (Forall (variable_decision master now s))) as Hobs;
    [|intros s' ds H; by apply Hobs in H].
  apply observes_fold; [|done]. intros decisions [name value] _ Hall d s' H. unfold decide_secret in H. destruct (negb _).
  { injection H as <- <-. split; [done|]. apply Forall_app. split; [done|by repeat constructor]. }
  tx_bind_in H gone s1 B1. apply tombstone_read in B1 as [-> Hdead]; [|done]. destruct gone.
  { injection H as <- <-. split; [done|]. apply Forall_app. split; [done|by repeat constructor]. }
  specialize (Hdead eq_refl). tx_bind_in H stored s1 B2. assert (s1 = s ∧ ∀ i r, rows (appSecrets (platform_store s)) !! i = Some r → scope_of r = scope → se_name r = name →
    match stored with Some (r', _) => r' = r | None => False end) as [-> Hst].
  { unfold on_store in B2. destruct (storedSecret _ _ _ _ _ _) as [[st v]|] eqn:E; [|done]. injection B2 as <- <-. unfold storedSecret in E. tx_bind_in E found v1 B3.
    unfold secret_row in B3. apply db_unique_done in B3 as [-> Hrow]. assert (v = platform_store s) as ->.
    { revert E. match goal with |- ?m _ = _ → _ => cut (acts eq m); [intros Ha E; symmetry; by eapply Ha|] end.
      unfold dataKeyRow, unwrapDataKey, decryptValue, open_sealed, importKey. acts_walk ltac:(done). }
    split; [by destruct s|]. intros i r Hi Hsc Hn.
    assert ((i, r) ∈ t_where (λ r, in_scope scope r && (se_name r === name)) (appSecrets (platform_store s))) as Hin.
    { apply elem_of_t_where; [apply Hs|]. split; [done|]. apply andb_true_iff. split; [by apply in_scope_of|by apply bool_decide_eq_true]. }
    destruct found as [x|]; rewrite Hrow in Hin; [|by apply elem_of_nil in Hin]. apply list_elem_of_singleton in Hin as <-.
    tx_bind_in E keyRow v2 B4. destruct keyRow; [|done]. tx_bind_in E key v3 B5. tx_bind_in E val v4 B6. by injection E as <- _. }
  assert (∀ w b, (∀ r v, stored = Some (r, v) → secret_owned r = false) → w = (λ d, on_store (putSecrets aes_encrypt aes_decrypt master scope [(name, value)] d (Some None) now)) →
    variable_decision master now s (put_decision (secretKey scope name) b w None)) as Hput.
  { intros w b Hno -> w' [= <-]. exists scope, name, value. split; [|done]. split; [done|]. intros i r Hi Hsc Hn. specialize (Hst i r Hi Hsc Hn).
    destruct stored as [[r' v']|]; [|done]. subst. by eapply Hno. }
  injection H as <- <-. split; [done|]. apply Forall_app. split; [done|]. constructor; [|done]. destruct stored as [[r v]|]; [|by apply Hput].
  destruct (writtenByConvex _ _) eqn:Eo; [done|]. case_match; [done|]. apply Hput; [|done]. by intros r0 v0 [= <- <-].
Qed.

(** ** Batches *)

Lemma settle_imports writes kind ds items d s r s' : safe_decision s d → settle writes kind ds items d s = Done (r, s') → imports s s'.
Proof.
  intros Hd H. unfold settle in H. tx_bind_in H u s1 B1. injection H as _ <-. destruct (dc_write d) as [w|] eqn:Ew; [|injection B1 as _ <-; reflexivity].
  destruct writes; cbn [when] in B1; [by eapply Hd|]. injection B1 as _ <-. reflexivity.
Qed.

Lemma settle_rows_imports {R} writes kind ds (decide_row : R → tx accounts decision) l :
  (∀ r, decides (decide_row r)) → acts imports (settle_rows writes kind ds decide_row l).
Proof.
  intros Hd. apply acts_fold; [apply _|]. intros items r s res s' H Hs. tx_bind_in H d s1 B1. apply Hd in B1 as [-> Hsafe]; [|done].
  by eapply settle_imports.
Qed.

Lemma settle_variables_imports writes ds master now : ∀ decisions items s r s', Forall (variable_decision master now s) decisions →
  fold_tx (settle writes "secrets" ds) items decisions s = Done (r, s') → imports s s'.
Proof.
  induction decisions as [|d decisions IH]; intros items s r s' Hall H; [injection H as _ <-; reflexivity|]. apply Forall_cons in Hall as [Hd Hall].
  cbn [fold_tx] in H. tx_bind_in H items' s1 B1. unfold settle in B1. tx_bind_in B1 u s2 B2. injection B1 as _ <-.
  assert (imports s s2 ∧ Forall (variable_decision master now s2) decisions) as [Himp Hall']; [|etrans; [done|by eapply IH]].
  destruct (dc_write d) as [w|] eqn:Ew; [|injection B2 as _ <-; split; [reflexivity|done]].
  destruct writes; cbn [when] in B2; [|injection B2 as _ <-; split; [reflexivity|done]].
  destruct (Hd w Ew) as (scope & name & value & Hopen & ->). apply put_variable in B2 as [Himp Hkeep]; [|done]. split; [done|].
  eapply Forall_impl; [exact Hall|]. intros d' Hd' w' Hw'. destruct (Hd' w' Hw') as (scope' & name' & value' & Hopen' & ->). eauto 6.
Qed.

Lemma processBatch_imports writes env ds batch now : acts imports (processBatch aes_encrypt aes_decrypt sha256 decodeUtf8 writes env ds batch now).
Proof.
  destruct batch; cbn [processBatch].
  1-5,7,8: apply settle_rows_imports; intros; eauto using decideUser_decides, decideRoute_decides, decideApp_decides, decideLink_decides, decidePort_decides,
    decideBinding_decides, decideDeployment_decides.
  - apply acts_bind; [apply _|unfold requireMasterKey; acts_walk ltac:(done)|]. intros master. apply acts_fold; [apply _|]. intros items row s r s' H Hs.
    unfold settle_secrets in H. tx_bind_in H decisions s1 B1. apply decideSecrets_decides in B1 as [-> Hall]; [|done]. by eapply settle_variables_imports.
  - apply acts_bind; [apply _| |intros through; apply acts_bind; [apply _| |intros result; apply acts_bind; [apply _| |intros; apply acts_ret, _]]].
    + eapply acts_mono; [|apply reads_oi, reads_readCounter]. by intros s s' ->.
    + apply acts_fold; [apply _|]. intros state row s r s' H Hs. unfold settle_audit in H. tx_bind_in H d s1 B1. apply decideAudit_decides in B1 as [-> Hsafe]; [|done].
      tx_bind_in H items s2 B2. injection H as _ <-. by eapply settle_imports.
    + apply acts_when; [apply _|]. intros _. apply audit_only_imports, audit_writeCounter.
Qed.

Lemma run_call_imports env state call : imports state.2 (run_call aes_encrypt aes_decrypt sha256 decodeUtf8 true env state call).2.
Proof.
  unfold run_call. destruct (processBatch _ _ _ _ _ _ _ _ _ _) as [[items s]|] eqn:E; [|reflexivity]. by apply processBatch_imports in E.
Qed.

(** C0: an import never undoes what Convex wrote.  Whatever batches a run brings, and in whatever
    state the store is, every App, route, mesh link, variable and binding that Convex wrote is as it
    was, and so are the routes of Apps Convex owns and every port that was allocated; no row appears
    for an App, link, variable or account that Convex removed; runs of Convex are at most trimmed;
    audit rows stay; a person keeps name, email and at least the role they had; and leases, commands,
    credentials, sessions, grants and API tokens are not touched. *)
Theorem import_respects_convex env calls s : tables_wf s →
  hub_respects s (run_import aes_encrypt aes_decrypt sha256 decodeUtf8 env calls s).2.
Proof.
  intros Hs. unfold run_import. generalize emptyReport. assert (∀ report s0, imports s0 (foldl (run_call aes_encrypt aes_decrypt sha256 decodeUtf8 true env) (report, s0) calls).2) as H.
  { induction calls as [|call calls IH]; intros report s0; [reflexivity|]. cbn [foldl].
    pose proof (run_call_imports env (report, s0) call) as H1. destruct (run_call _ _ _ _ _ _ _ _) as [report1 s1]. etrans; [exact H1|apply IH]. }
  intros report. by apply H.
Qed.

(** ** The preview *)

Lemma settle_reads kind ds items d : acts eq (settle false kind ds items d).
Proof. unfold settle. acts_walk ltac:(done). Qed.

Lemma settle_same kind ds items d s r s' : settle true kind ds items d s = Done (r, s') → settle false kind ds items d s = Done (r, s).
Proof. unfold settle. intros H. tx_bind_in H u s1 B1. injection H as <- _. unfold mbind, tx_bind. by destruct (dc_write d). Qed.

Lemma settle_one {R} kind ds (decide_row : R → tx accounts decision) r s items s' : decides (decide_row r) → tables_wf s →
  settle_rows true kind ds decide_row [r] s = Done (items, s') → settle_rows false kind ds decide_row [r] s = Done (items, s).
Proof.
  intros Hd Hs. unfold settle_rows. cbn [fold_tx]. intros H. tx_bind_in H items1 s1 B1. injection H as <- <-. tx_bind_in B1 d s2 B2.
  pose proof (Hd _ _ _ Hs B2) as [-> _]. apply settle_same in B1. unfold mbind, tx_bind. rewrite B2. cbn. by rewrite B1.
Qed.

Lemma settle_variables_same ds decisions : ∀ items s r s' s0, fold_tx (settle true "secrets" ds) items decisions s = Done (r, s') →
  fold_tx (settle false "secrets" ds) items decisions s0 = Done (r, s0).
Proof.
  induction decisions as [|d decisions IH]; intros items s r s' s0 H; [by injection H as <- _|]. cbn [fold_tx] in *. tx_bind_in H items1 s1 B1.
  unfold settle in B1. tx_bind_in B1 u s2 B2. injection B1 as <- <-. unfold mbind, tx_bind, settle at 1. unfold mbind, tx_bind. destruct (dc_write d); cbn; by eapply IH.
Qed.

Lemma preview_rows {R} kind ds (decide_row : R → tx accounts decision) l s : (∀ r, decides (decide_row r)) → tables_wf s →
  observes s (settle_rows false kind ds decide_row l) (λ _, True).
Proof.
  intros Hd Hs. apply observes_fold; [|done]. intros items r _ _ res s' H. tx_bind_in H d s1 B1. apply Hd in B1 as [-> _]; [|done].
  by apply settle_reads in H as <-.
Qed.

Lemma preview_batch env ds batch now s : tables_wf s →
  observes s (processBatch aes_encrypt aes_decrypt sha256 decodeUtf8 false env ds batch now) (λ _, True).
Proof.
  intros Hs. destruct batch; cbn [processBatch].
  1-5,7,8: apply preview_rows; [intros; eauto using decideUser_decides, decideRoute_decides, decideApp_decides, decideLink_decides, decidePort_decides,
    decideBinding_decides, decideDeployment_decides|done].
  - apply (observes_bind _ _ _ (λ _, True)); [unfold requireMasterKey; intros m s' H; case_match; [done|]; by injection H as _ <-|]. intros master _.
    apply observes_fold; [|done]. intros items row _ _ r s' H. unfold settle_secrets in H. tx_bind_in H decisions s1 B1. apply decideSecrets_decides in B1 as [-> _]; [|done].
    revert H. match goal with |- ?m _ = _ → _ => cut (acts eq m); [intros Ha E; split; [symmetry; by eapply Ha|done]|] end.
    apply acts_fold; [apply _|]. intros. apply settle_reads.
  - apply (observes_bind _ _ _ (λ _, True)); [intros m s' [-> _]%oi_read; auto with acts|]. intros through _.
    apply (observes_bind _ _ _ (λ _, True)); [|intros result _; by apply (observes_bind _ _ _ (λ _, True)); intros; apply observes_ret].
    apply observes_fold; [|done]. intros state row _ _ r s' H. unfold settle_audit in H. tx_bind_in H d s1 B1. apply decideAudit_decides in B1 as [-> _]; [|done].
    tx_bind_in H items s2 B2. apply settle_reads in B2 as <-. by injection H as _ <-.
Qed.

(** C0: a dry run tells the truth and writes nothing.  Whatever the batches, a preview leaves the
    store as it is; and for a batch of one row, when the import of that row commits, the preview of it
    reported exactly the same results. *)
Theorem preview_agrees env ds batch now s : tables_wf s →
  (∀ calls, (preview_import aes_encrypt aes_decrypt sha256 decodeUtf8 env calls s).2 = s) ∧
  (length (row_keys batch) = 1%nat → ∀ items s', import_apply aes_encrypt aes_decrypt sha256 decodeUtf8 env ds batch now s = Done (items, s') →
     previewBatch aes_encrypt aes_decrypt sha256 decodeUtf8 env ds batch now s = Done (items, s)).
Proof.
  intros Hs. split.
  - intros calls. unfold preview_import. generalize emptyReport. induction calls as [|call calls IH]; intros report; [done|]. cbn [foldl]. unfold run_call at 2. cbn [snd fst].
    destruct (processBatch _ _ _ _ _ _ _ _ _ _) as [[items s1]|] eqn:E; [|apply IH]. apply preview_batch in E as [-> _]; [|done]. apply IH.
  - intros Hone items s' H. unfold import_apply, previewBatch in *. destruct batch as [l|l|l|l|l|l|l|l|l]; cbn [row_keys processBatch] in *; rewrite length_fmap in Hone;
      destruct l as [|row [|row' l]]; try done; cbn [to_sorted foldr sort_insert] in *.
    1-5,7,8: eapply settle_one; [|done|exact H]; eauto using decideUser_decides, decideRoute_decides, decideApp_decides, decideLink_decides, decidePort_decides,
      decideBinding_decides, decideDeployment_decides.
    + tx_bind_in H master s1 B1. unfold mbind at 1, tx_bind at 1. assert (s1 = s) as -> by (revert B1; unfold requireMasterKey; case_match; [done|]; by intros [= _ <-]). rewrite B1.
      cbn [fold_tx] in *. tx_bind_in H items1 s2 B2. injection H as <- <-. unfold settle_secrets in B2. tx_bind_in B2 decisions s3 B3.
      pose proof (decideSecrets_decides _ _ _ _ _ _ Hs B3) as [-> _]. unfold mbind, tx_bind, settle_secrets. unfold mbind, tx_bind. rewrite B3.
      by erewrite settle_variables_same.
    + tx_bind_in H through s1 B1. pose proof (oi_read _ _ _ _ (reads_readCounter _) B1) as [-> _]. unfold mbind at 1, tx_bind at 1. rewrite B1.
      tx_bind_in H settled s2 B2. tx_bind_in H u s3 B3. injection H as <- <-. cbn [fold_tx] in *. tx_bind_in B2 state s4 B4. injection B2 as <- <-.
      unfold settle_audit in B4. tx_bind_in B4 d s5 B5. pose proof (decideAudit_decides _ _ _ _ _ _ Hs B5) as [-> _]. tx_bind_in B4 items1 s6 B6. injection B4 as <- <-.
      apply settle_same in B6. unfold mbind, tx_bind, settle_audit. unfold mbind, tx_bind. rewrite B5, B6. done.
Qed.

(** ** Two Hub accounts with one email *)

(** C0: an account that was copied is taken over.  When another account of the Hub has by now the
    email of a copied account, the next import gives the copied account the other one's identity, and
    raises its role to the other one's; nothing of what Convex decided about it is kept. *)
Theorem copied_account_is_taken_over env ds row now s i u l : tables_wf s →
  rows (users s) !! i = Some u → us_legacyHubId u = Some l → us_email u = Some (normalizeEmail (hu_email row)) →
  (∀ j x, rows (users s) !! j = Some x → us_email x = us_email u → j = i) →
  (∀ j x, rows (users s) !! j = Some x → us_legacyHubId x ≠ Some (hu_legacyId row)) → ¬ dead s TombUser (hu_legacyId row) →
  RANK (effectiveRole (us_role u)) < RANK (roleFromHubRoles (hu_roles row)) →
  ∃ s', import_apply aes_encrypt aes_decrypt sha256 decodeUtf8 env ds (BatchUsers [row]) now s =
      Done ([ImportItem "users" (hu_email row) RowUpdated None], s') ∧
    rows (users s') !! i = Some (u <| us_legacyHubId := Some (hu_legacyId row) |> <| us_role := Some (roleFromHubRoles (hu_roles row)) |>).
Proof.
  intros Hs Hi Hl He Huniq Hnew Hdead Hrank. unfold import_apply. cbn [processBatch to_sorted foldr sort_insert]. unfold settle_rows. cbn [fold_tx].
  assert (on_store (hasTombstone TombUser (hu_legacyId row)) s = Done (false, s)) as Htomb.
  { destruct (on_store (hasTombstone TombUser (hu_legacyId row)) s) as [[b s1]|] eqn:E; [|done]. unfold on_store, hasTombstone, mbind, tx_bind, db_first, read in E. cbn in E.
    injection E as <- <-. destruct (t_where _ _) as [|[k x] rest] eqn:Ew; [by destruct s|]. exfalso. apply Hdead.
    destruct (t_where_sound (hubImportTombstones (platform_store s)) _ (k, x) ltac:(rewrite Ew; left)) as [Hk [Hkind%bool_decide_eq_true Hkey%bool_decide_eq_true]%andb_true_iff].
    by exists k, x. }
  assert (t_where (λ x, us_email x === Some (normalizeEmail (hu_email row))) (users s) = [(i, u)]) as Hemail.
  { apply t_where_singleton; [apply Hs|done|by apply bool_decide_eq_true|]. intros j x Hj Hx%bool_decide_eq_true. eapply Huniq; [done|congruence]. }
  assert (t_where (λ x, us_legacyHubId x === Some (hu_legacyId row)) (users s) = []) as Hlegacy.
  { apply t_where_nil. intros j x Hj. apply bool_decide_eq_false. by eapply Hnew. }
  unfold decideUser, mbind, tx_bind. rewrite Htomb. unfold db_unique. rewrite Hlegacy. unfold db_first, read. rewrite Hemail. cbn [head].
  unfold settle, mbind, tx_bind. cbn [put_decision dc_write when]. unfold db_patch. cbn. rewrite Hi. cbn. eexists. split; [reflexivity|]. cbn. rewrite lookup_insert_eq.
  rewrite (proj2 (Z.ltb_lt _ _) Hrank). done.
Qed.
End hashes.

Module ImportDemo.
(** Convex deployed shop, the importer wrote blog, and Convex removed gone; one account was copied. *)
Definition start : accounts :=
  acc_empty <| platform_store := Vault
    ((infra_empty <| apps := t_of [AppRow "shop" 0%nat [] [] None (Some (ByConvex 5)) 5; AppRow "blog" 0%nat [] [] None (Some (ByHub (Some "old") 5)) 5] |>))
    t_empty t_empty (t_of [HubTombstone TombApp "gone" 3]) |>
    <| users := t_of [UserRow (Some "ann@x.io") (Some Viewer) (Some "Ann") None (Some "u1") 4] |>.
Definition hash (bytes : list Z) : list Z := bytes.
Definition no_draws (n : nat) : draws := Draws [] [] (λ _, []).
Definition hub_apps : import_batch := BatchApps [HubApp "shop" "mac-2" [] []; HubApp "blog" "mac-2" [] []; HubApp "gone" "mac-2" [] []].
(** Ann changed her email at the Hub, and another account took it. *)
Definition other : hub_user := HubUser "u2" "ann@x.io" "Andrew" ["owner"] "hash" 9.

Lemma start_wf : tables_wf start.
Proof. split; [split|..]; try apply t_wf_empty; apply t_of_inv. Qed.
End ImportDemo.
Import ImportDemo.

Lemma import_respects_convex_witness :
  let '(report, s') := run_import toy_encrypt toy_decrypt hash toy_decode None [ImportCall hub_apps no_draws 20] start in
  rows (apps (inf s')) !! 0%nat = rows (apps (inf start)) !! 0%nat ∧ (it_outcome <$> ip_items report) = [RowSkipped; RowUpdated; RowSkipped].
Proof.
  pose proof (import_respects_convex toy_encrypt toy_decrypt hash toy_decode None [ImportCall hub_apps no_draws 20] start start_wf) as H.
  destruct (run_import toy_encrypt toy_decrypt hash toy_decode None [ImportCall hub_apps no_draws 20] start) as [report s'] eqn:E. cbn [snd] in H. split.
  - destruct (rows (apps (inf start)) !! 0%nat) as [a|] eqn:Ea; [|vm_compute in Ea; discriminate Ea].
    destruct (proj1 (ir_apps _ _ _ (hr_infra _ _ H)) 0%nat a Ea) as (a' & Ha' & Hsame). rewrite Ha'. rewrite Hsame; [reflexivity|].
    vm_compute in Ea. injection Ea as <-. reflexivity.
  - vm_compute in E. injection E as <- _. reflexivity.
Defined.

Lemma preview_agrees_witness :
  (preview_import toy_encrypt toy_decrypt hash toy_decode None [ImportCall hub_apps no_draws 20] start).2 = start ∧
  ∃ items, previewBatch toy_encrypt toy_decrypt hash toy_decode None no_draws (BatchApps [HubApp "blog" "mac-2" [] []]) 20 start = Done (items, start) ∧
    (it_outcome <$> items) = [RowUpdated].
Proof.
  destruct (preview_agrees toy_encrypt toy_decrypt hash toy_decode None no_draws (BatchApps [HubApp "blog" "mac-2" [] []]) 20 start start_wf) as [H1 H2].
  split; [exact (H1 _)|]. destruct (import_apply toy_encrypt toy_decrypt hash toy_decode None no_draws (BatchApps [HubApp "blog" "mac-2" [] []]) 20 start) as [[items s']|] eqn:E;
    [|vm_compute in E; discriminate E]. exists items. split; [exact (H2 eq_refl items s' eq_refl)|]. vm_compute in E. injection E as <- _. reflexivity.
Defined.

Lemma copied_account_is_taken_over_witness :
  ∃ s', import_apply toy_encrypt toy_decrypt hash toy_decode None no_draws (BatchUsers [other]) 20 start =
      Done ([ImportItem "users" "ann@x.io" RowUpdated None], s') ∧
    rows (users s') !! 0%nat = Some (UserRow (Some "ann@x.io") (Some Owner) (Some "Ann") None (Some "u2") 4).
Proof.
  assert (∀ j x, rows (users start) !! j = Some x → j = 0%nat ∧ x = UserRow (Some "ann@x.io") (Some Viewer) (Some "Ann") None (Some "u1") 4) as Hone.
  { intros j x Hx. assert (rows (users start) = {[0%nat := UserRow (Some "ann@x.io") (Some Viewer) (Some "Ann") None (Some "u1") 4]}) as E by (vm_compute; reflexivity).
    rewrite E in Hx. apply lookup_singleton_Some in Hx as [<- <-]. split; reflexivity. }
  apply (copied_account_is_taken_over toy_encrypt toy_decrypt hash toy_decode None no_draws other 20 start 0%nat
    (UserRow (Some "ann@x.io") (Some Viewer) (Some "Ann") None (Some "u1") 4) "u1" start_wf); [vm_compute; reflexivity|reflexivity|vm_compute; reflexivity|..].
  - intros j x Hx _. exact (proj1 (Hone j x Hx)).
  - intros j x Hx. destruct (Hone j x Hx) as [_ ->]. discriminate.
  - intros (i & t & Hi & Hk & _). assert (rows (hubImportTombstones (platform_store start)) = {[0%nat := HubTombstone TombApp "gone" 3]}) as E by (vm_compute; reflexivity).
    rewrite E in Hi. apply lookup_singleton_Some in Hi as [_ <-]. discriminate Hk.
  - vm_compute. reflexivity.
Defined.
